(* ===== verification/_CoqProject ===== *)
-Q . S2P
Prelude.v
Pmm.v
PageAlloc.v
Heap.v
KernelMem.v
Vma.v
Mmu.v
Elf.v
AddrSpace.v
Vnode.v
Fd.v
CString.v
Fat32.v
Fat32Vfs.v
Virtio.v
Net.v
NetRx.v
Pci.v
UserMem.v
Dirent.v
Syscall.v
Exec.v
Sched.v
TaskMem.v
ExecImage.v
NewTask.v
Fork.v
