(* ===== verification/Prelude.v ===== *)
(** Fermi OS: a verification development of the kernel's core.

    Fermi OS is an AArch64 kernel written in C.  Its parts build on each other:
    physical pages ([mm/pmm]) feed the kernel heap ([mm/heap]) and the user page
    tables ([mm/mmu]); the heap holds the areas of a user address space
    ([mm/vma]), the open files and the private records of the file systems;
    the VFS ([fs/vfs]) joins a tree of nodes, the descriptors of the tasks and
    the mounted FAT32 volume ([fs/fat32]); the scheduler ([sched]) runs the
    tasks that own all of these and gives them back.

    * How the code is modelled

    Every C function is a Rocq function on explicit state.  64-bit and 32-bit
    unsigned arithmetic is [Z] with its wrap-around written out; pointers are
    addresses or indices; [None] is a fault (an access outside an array, NULL or
    freed memory dereferenced, a loop that has used up its fuel), so a theorem
    that an operation returns [Some] says it neither faults nor hangs.  Error
    codes are values, as in C.  Fuel is given as one more than the number of
    objects a list walk can meet, or as a parameter with the bound that the
    theorem needs as a hypothesis; the theorems show it is enough.  Console
    output and memory barriers are left out.

    * The files

    - [Prelude]: fixed-width integers, arrays with C's bounds, byte splices,
      shared lemmas and the hint databases.
    - [Pmm]: [mm/pmm/pmm.c], the bitmap allocator; [PageAlloc]: what it promises
      its clients, as the class [PageAllocator], and the proof that it does.
    - [Heap]: [mm/heap/heap.c], first fit with splitting and coalescing over any
      [PageAllocator]; [KernelMem]: the malloc/free contract and its instance.
    - [Vma]: [mm/vma/vma.c] over any [KernelMem].
    - [Mmu]: user page tables of [mm/mmu/mmu.c] over any source of pages
      ([PageSource]; freeing needs a [PageAllocator]), with the hardware's walk
      as the meaning of a table; [Elf]: the loader of [syscall/elf.c] over them.
    - [AddrSpace]: areas, page tables and memory together: [mmap], [munmap],
      [mprotect] and [brk] of [syscall/syscall.c], the two demand-paging handlers
      of [sched/sched.c] and the user aborts of [exception/exception.c].
    - [Vnode]: nodes, paths and directories of [fs/vfs/vfs.c]; a mounted file
      system is the class [DirOps].
    - [Fd]: the descriptors of [fs/vfs/vfs.c] over any [KernelMem] and any
      [FileBackend], which the vnode layer instantiates.
    - [CString]: [lib/strings/strings.c].
    - [Fat32]: [fs/fat32/fat32.c] over any block device of the class [BlockDev];
      [Fat32Vfs]: [fs/fat32/fat32_vfs.c], the same volume behind the VFS.
    - [Virtio]: the queues of [pci/virtio/virtqueue.c] and the block driver of
      [pci/virtio/blk/blk.c], with the device as the class [VirtioBlk].
    - [Net]: the checksum, the ARP, ICMP and DHCP code of [pci/virtio/net/net.c]
      over any [NetIO]; [NetRx]: its receive ring over the queues.
    - [Pci]: [pci/pci.c] over configuration space as the class [ConfigSpace], and
      the capability walk of [pci/virtio/virtio.c].
    - [UserMem]: the pointer checks of [syscall/syscall.c] and what they promise;
      [Dirent]: its [getdents64] and the directory streams of
      [user/lib/dirent.c] on top; [Syscall]: the dispatcher and every handler,
      with the components they call as the class [Services]; [Exec]: the
      initial stack that [exec] builds.
    - [Sched]: the queues of [sched/sched.c].
    - [TaskMem]: the heap, the pages of all tables, the bytes of all pages and the
      page arrays in one state, and the steps by which an address space is built
      beside the existing ones and taken down; [ExecImage]: how [exec] in
      [syscall/syscall.c] replaces the image of a task, over any descriptor layer
      of the class [ExecFiles]; [NewTask]: how [sched/sched.c] creates kernel tasks
      and user tasks; [Fork]: its [sched_fork].

    * What is proved

    - Pages: the invariant from [pmm_init] over every history of calls, lowest
      fit, exact effect of freeing, and all refused frees.
    - Heap: allocations are fresh, aligned, disjoint and inside a region; freeing
      removes exactly the block and leaves no mergeable neighbours; no history
      of calls breaks this.
    - Areas: each operation is exact on the address space the set represents,
      and on the pages it records; [vma_clone] out of memory frees the pages of
      every entry it had copied, which the source still records.
    - Page tables: what the hardware finds after map, unmap and protect; no page
      leaks over the life of an address space; the TLB operands of a range.
    - Address spaces: over every history of memory calls and resumed aborts the
      areas and the page tables agree, so EL0 has exactly the recorded rights,
      unless brk grows the heap into another area or an abort is resumed without
      memory for its page table;
      the exact effect of each call, the lowest fit of [mmap], which aborts
      resume and that the access then succeeds; heap growth from an aligned
      break is lost, and [mprotect] reaches pages that no area describes.
    - ELF loader: every file is loaded or refused without a leak; a loaded
      program whose segments lie on different pages sees the memory image its
      file describes, unless page-table memory ran out, with W^X rights and
      synchronised instruction caches.
    - VFS: path resolution is the walk over the components and ends; batched
      enumeration is complete; reference counts equal the descriptors over every
      history of opens, forks and closes.
    - FAT32: reading back what was written, with the other files and the chains
      untouched; adding directory entries; enumeration.  Behind the VFS: reads,
      writes, lookups without leaks, and the path translation.
    - Block driver: any sequence of sector reads and writes refines a plain disk,
      over any device that answers before the driver gives up.
    - Network: the checksum against RFC 1071, the frames on the wire, the DHCP
      exchange and what it commits, the options a reply encodes, which replies
      are read past their end, and the receive ring as a queue of frames over
      any device that uses its buffers in order.
    - PCI: the scan in bus order; all base address registers of all functions get
      disjoint aligned regions of their windows; where the capability walk ends.
    - Strings: overlap-safe moves and bounded formatting, with numbers that read
      back as printed.
    - System calls: no call that leaves the address space alone, except
      [newfstatat], lets a program see or change memory at addresses above the
      user range, and [newfstatat] does; a program that exec starts finds the
      (first 32) arguments its caller passed and the auxiliary vector of its
      image; a directory read through the user library loses its last entry.
    - Exec: a failure at any step leaves the task and all memory as they were;
      success replaces the whole image in unused frames, frees the old one and
      touches no page of anybody else; what the new program sees through its
      page tables; the pages by which the old stack had grown leak.
    - New tasks: a task is created whole, in unused frames, with the text window,
      a cleared stack and the context of its first run, at the end of the queue,
      or not at all, with everything taken given back.
    - Fork: the child sees a private copy of the parent's memory with the same
      rights and shares its open files; a failure leaves the parent, and all pages
      and tasks, as they were, though pages may leak.  Running out of memory while
      the areas are copied is outside the theorem: the clean-up then frees pages of
      the parent.
    - Scheduler: election and rotation as a refinement to lists, fairness,
      safety over every history without kills, kill, wait and reaping.  After
      kills the order on the dead list on which reaping depends can be lost, and
      [schedule] then uses freed memory.

    * What is not modelled

    Boot code, device initialisation and exception entry, which are sequences of
    device and system register accesses; [/proc], which formats statistics; the user library other than directory streams, which the
    kernel does not depend on; the demonstration programs. *)
From stdpp Require Export base gmap sets numbers list.
Open Scope Z_scope.

(** * Fixed-width integers

    C's [uint64_t], [uint32_t], ... are integers [Z] reduced modulo the width;
    the wrap-around of every operation whose overflow can matter is explicit. *)

Definition wrap64 (x : Z) : Z := x mod 2 ^ 64.
Definition wrap32 (x : Z) : Z := x mod 2 ^ 32.
Definition add64 (a b : Z) : Z := wrap64 (a + b).
Definition sub64 (a b : Z) : Z := wrap64 (a - b).
Definition mul64 (a b : Z) : Z := wrap64 (a * b).
Definition not64 (a : Z) : Z := wrap64 (Z.lnot a).
Definition shl64 (a n : Z) : Z := wrap64 (Z.shiftl a n).
Definition add32 (a b : Z) : Z := wrap32 (a + b).
Definition sub32 (a b : Z) : Z := wrap32 (a - b).
Definition mul32 (a b : Z) : Z := wrap32 (a * b).

Declare Scope cint_scope.
Delimit Scope cint_scope with cint.
Infix "+w" := add64 (at level 50, left associativity) : cint_scope.
Infix "-w" := sub64 (at level 50, left associativity) : cint_scope.
Infix "*w" := mul64 (at level 40, left associativity) : cint_scope.
Open Scope cint_scope.

(** The conversion to a 32-bit [int]. *)
Definition to_int (x : Z) : Z := (x + 2 ^ 31) mod 2 ^ 32 - 2 ^ 31.

Definition is_u64 (x : Z) : Prop := 0 ≤ x < 2 ^ 64.
Definition is_u32 (x : Z) : Prop := 0 ≤ x < 2 ^ 32.
Definition is_byte (x : Z) : Prop := 0 ≤ x < 256.

Create HintDb cint.

Lemma wrap64_small x : 0 ≤ x < 2 ^ 64 → wrap64 x = x.
Proof. apply Z.mod_small. Qed.

Lemma wrap32_small x : 0 ≤ x < 2 ^ 32 → wrap32 x = x.
Proof. apply Z.mod_small. Qed.

Lemma to_int_small x : - 2 ^ 31 ≤ x < 2 ^ 31 → to_int x = x.
Proof. intros Hx. unfold to_int. rewrite Z.mod_small by lia. lia. Qed.

Lemma wrap64_range x : 0 ≤ wrap64 x < 2 ^ 64.
Proof. by apply Z.mod_pos_bound. Qed.

Lemma wrap32_range x : 0 ≤ wrap32 x < 2 ^ 32.
Proof. by apply Z.mod_pos_bound. Qed.

Lemma add64_small a b : 0 ≤ a + b < 2 ^ 64 → a +w b = a + b.
Proof. apply wrap64_small. Qed.

Lemma sub64_small a b : 0 ≤ a - b < 2 ^ 64 → a -w b = a - b.
Proof. apply wrap64_small. Qed.

Lemma mul64_small a b : 0 ≤ a * b < 2 ^ 64 → a *w b = a * b.
Proof. apply wrap64_small. Qed.

#[export] Hint Resolve wrap64_range wrap32_range : cint.

(** [cint] reduces in-range wrapping operations to plain integer ones. *)
Ltac cint_step :=
  match goal with
  | |- context [add64 ?a ?b] => rewrite (add64_small a b) by lia
  | |- context [sub64 ?a ?b] => rewrite (sub64_small a b) by lia
  | |- context [mul64 ?a ?b] => rewrite (mul64_small a b) by lia
  | H : context [add64 ?a ?b] |- _ => rewrite (add64_small a b) in H by lia
  | H : context [sub64 ?a ?b] |- _ => rewrite (sub64_small a b) in H by lia
  | H : context [mul64 ?a ?b] |- _ => rewrite (mul64_small a b) in H by lia
  end.
Ltac cint := repeat cint_step.

(** ** Bits *)

Lemma testbit_setbit w b n :
  0 ≤ b → 0 ≤ n →
  Z.testbit (Z.lor w (Z.shiftl 1 b)) n = bool_decide (n = b) || Z.testbit w n.
Proof.
  intros Hb Hn. rewrite Z.lor_spec, Z.shiftl_1_l, Z.pow2_bits_eqb by lia.
  rewrite orb_comm. f_equal. destruct (Z.eqb_spec b n), (bool_decide_reflect (n = b)); congruence.
Qed.

Lemma not64_bits w n : 0 ≤ n < 64 → Z.testbit (not64 w) n = negb (Z.testbit w n).
Proof.
  intros Hn. unfold not64, wrap64.
  rewrite Z.mod_pow2_bits_low, Z.lnot_spec by lia. done.
Qed.

Lemma testbit_clrbit w b n :
  0 ≤ b < 64 → 0 ≤ n < 64 →
  Z.testbit (Z.land w (not64 (Z.shiftl 1 b))) n = negb (bool_decide (n = b)) && Z.testbit w n.
Proof.
  intros Hb Hn. rewrite Z.land_spec, not64_bits, Z.shiftl_1_l, Z.pow2_bits_eqb by lia.
  rewrite andb_comm. do 2 f_equal.
  destruct (Z.eqb_spec b n), (bool_decide_reflect (n = b)); congruence.
Qed.

Lemma testbit_high w k n : 0 ≤ w < 2 ^ k → 0 ≤ k ≤ n → Z.testbit w n = false.
Proof.
  intros Hw Hn. rewrite <- (Z.mod_small w (2 ^ k)) by done.
  by apply Z.mod_pow2_bits_high.
Qed.

(** Two words agree when their 64 bits do. *)
Lemma u64_bits_eq a b :
  is_u64 a → is_u64 b → (∀ n, 0 ≤ n < 64 → Z.testbit a n = Z.testbit b n) → a = b.
Proof.
  unfold is_u64. intros Ha Hb E. apply Z.bits_inj'. intros n Hn.
  destruct (decide (n < 64)); [apply E; lia|].
  by rewrite !(testbit_high _ 64) by lia.
Qed.

Lemma bits_is_u64 w : 0 ≤ w → (∀ n, 64 ≤ n → Z.testbit w n = false) → is_u64 w.
Proof.
  intros Hw Hhi. assert (w = w mod 2 ^ 64) as ->.
  { apply Z.bits_inj'. intros n Hn. destruct (decide (n < 64)).
    - by rewrite Z.mod_pow2_bits_low by lia.
    - rewrite Z.mod_pow2_bits_high by lia. apply Hhi. lia. }
  apply Z.mod_pos_bound. lia.
Qed.

Lemma setbit_is_u64 w b : is_u64 w → 0 ≤ b < 64 → is_u64 (Z.lor w (Z.shiftl 1 b)).
Proof.
  intros [? ?] Hb. apply bits_is_u64.
  - apply Z.lor_nonneg; split; [done|]. apply Z.shiftl_nonneg. lia.
  - intros n Hn. rewrite testbit_setbit by lia.
    rewrite bool_decide_eq_false_2 by lia. by apply (testbit_high _ 64); lia.
Qed.

Lemma land_is_u64 w v : is_u64 w → 0 ≤ v → is_u64 (Z.land w v).
Proof.
  intros [? ?] Hv. apply bits_is_u64.
  - apply Z.land_nonneg; by left.
  - intros n Hn. rewrite Z.land_spec. by rewrite (testbit_high w 64) by lia.
Qed.

(** ** Alignment: [x & ~(2^k - 1)] clears the low [k] bits. *)

Lemma land_not_low k x :
  0 ≤ k < 64 → is_u64 x → Z.land x (not64 (2 ^ k - 1)) = x - x mod 2 ^ k.
Proof.
  intros Hk Hx. pose proof (Z.pow_pos_nonneg 2 k).
  replace (x - x mod 2 ^ k) with (Z.shiftl (Z.shiftr x k) k).
  2:{ rewrite Z.shiftl_mul_pow2, Z.shiftr_div_pow2 by lia.
      pose proof (Z.div_mod x (2 ^ k)). lia. }
  apply Z.bits_inj'. intros n Hn. rewrite Z.land_spec, Z.shiftl_spec by lia.
  destruct (decide (n < 64)).
  - rewrite not64_bits by lia. replace (2 ^ k - 1) with (Z.ones k) by (rewrite Z.ones_equiv; lia).
    destruct (decide (n < k)).
    + rewrite Z.ones_spec_low, (Z.testbit_neg_r _ (n - k)) by lia. by rewrite andb_false_r.
    + rewrite Z.ones_spec_high, Z.shiftr_spec, andb_true_r by lia. f_equal. lia.
  - rewrite (testbit_high x 64), Z.shiftr_spec by (unfold is_u64 in Hx; lia).
    replace (n - k + k) with n by lia. by rewrite (testbit_high x 64) by (unfold is_u64 in Hx; lia).
Qed.

(** Bits that do not overlap add up. *)
Lemma lor_disjoint k x y : 0 ≤ k → x mod 2 ^ k = 0 → 0 ≤ y < 2 ^ k → Z.lor x y = x + y.
Proof.
  intros Hk Hx Hy. pose proof (Z.add_lor_land x y) as E. assert (Z.land x y = 0) as E0; [|lia].
  apply Z.bits_inj'. intros n Hn. rewrite Z.bits_0, Z.land_spec. destruct (decide (n < k)).
  - rewrite <- (Z.mod_pow2_bits_low x k) by lia. by rewrite Hx, Z.bits_0.
  - by rewrite (testbit_high y k), andb_false_r by lia.
Qed.

(** The bits from [k] up to [m]. *)
Lemma testbit_range m k n : 0 ≤ k ≤ m → 0 ≤ n → Z.testbit (2 ^ m - 2 ^ k) n = bool_decide (k ≤ n < m).
Proof.
  intros Hk Hn. replace (2 ^ m - 2 ^ k) with (Z.shiftl (Z.ones (m - k)) k).
  2:{ rewrite Z.shiftl_mul_pow2, Z.ones_equiv by lia. replace (2 ^ m) with (2 ^ (m - k) * 2 ^ k) by (rewrite <- Z.pow_add_r by lia; f_equal; lia). lia. }
  rewrite Z.shiftl_spec by lia. destruct (decide (n < k)).
  - rewrite Z.testbit_neg_r by lia. by rewrite bool_decide_eq_false_2 by lia.
  - destruct (decide (n < m)).
    + rewrite Z.ones_spec_low by lia. by rewrite bool_decide_eq_true_2 by lia.
    + rewrite Z.ones_spec_high by lia. by rewrite bool_decide_eq_false_2 by lia.
Qed.

Lemma land_range a m k : 0 ≤ k ≤ m → 0 ≤ a < 2 ^ m → a mod 2 ^ k = 0 → Z.land a (2 ^ m - 2 ^ k) = a.
Proof.
  intros Hk Ha Hal. apply Z.bits_inj'. intros n Hn. rewrite Z.land_spec, testbit_range by lia. case_bool_decide as Hr; [by rewrite andb_true_r|].
  rewrite andb_false_r. symmetry. destruct (decide (n < k)); [|apply (testbit_high a m); lia].
  rewrite <- (Z.mod_pow2_bits_low a k) by lia. by rewrite Hal, Z.bits_0.
Qed.

(** * Lists as C arrays *)

Lemma lookup_total_insert_eq (l : list Z) (i : nat) x :
  (i < length l)%nat → <[i := x]> l !!! i = x.
Proof. apply list_lookup_total_insert_eq. Qed.

Lemma lookup_Some_total (l : list Z) (i : nat) :
  (i < length l)%nat → l !! i = Some (l !!! i).
Proof. apply list_lookup_lookup_total_lt. Qed.

Lemma insert_take_drop_eq {A} (l : list A) (i : nat) x y :
  l !! i = Some y → l = take i l ++ y :: drop (S i) l ∧ <[i := x]> l = take i l ++ x :: drop (S i) l.
Proof.
  intros H. split.
  - by rewrite take_drop_middle.
  - rewrite insert_take_drop; [done|]. by eapply lookup_lt_Some.
Qed.

(** Array reads and writes at a [Z] index; [None] is an access out of bounds. *)
Definition arr_get {A} (l : list A) (i : Z) : option A :=
  if decide (0 ≤ i) then l !! Z.to_nat i else None.

Definition arr_set {A} (l : list A) (i : Z) (x : A) : option (list A) :=
  if decide (0 ≤ i < Z.of_nat (length l)) then Some (<[Z.to_nat i := x]> l) else None.

Lemma arr_get_lt {A} `{!Inhabited A} (l : list A) i :
  0 ≤ i < Z.of_nat (length l) → arr_get l i = Some (l !!! Z.to_nat i).
Proof.
  intros Hi. unfold arr_get. rewrite decide_True by lia.
  apply list_lookup_lookup_total_lt. lia.
Qed.

Lemma arr_set_lt {A} (l : list A) i x :
  0 ≤ i < Z.of_nat (length l) → arr_set l i x = Some (<[Z.to_nat i := x]> l).
Proof. intros Hi. unfold arr_set. by rewrite decide_True by lia. Qed.

(** [lia] that also knows division and remainder. *)
Ltac dlia := Z.to_euclidean_division_equations; lia.

(** ** Lists whose elements are pairwise related *)

Fixpoint pairwise {A} (R : A → A → Prop) (l : list A) : Prop :=
  match l with
  | [] => True
  | x :: l' => Forall (R x) l' ∧ pairwise R l'
  end.

Lemma pairwise_app {A} (R : A → A → Prop) l1 l2 :
  pairwise R (l1 ++ l2) ↔
  pairwise R l1 ∧ pairwise R l2 ∧ ∀ x y, x ∈ l1 → y ∈ l2 → R x y.
Proof.
  induction l1 as [|a l1 IH]; simpl.
  - split; [|tauto]. intros H. split_and!; [done..|]. intros x y Hx. by apply not_elem_of_nil in Hx.
  - rewrite IH, Forall_app, (Forall_forall (R a) l2). split.
    + intros ([H1 H2] & H3 & H4 & H5). split; [done|]. split; [done|].
      intros x y [->|Hx]%elem_of_cons Hy; [by apply H2|by apply H5].
    + intros ((H1 & H2) & H3 & H4). split; [split; [done|]|split; [done|split; [done|]]].
      * intros y Hy. apply H4; [by left|done].
      * intros x y Hx Hy. apply H4; [by right|done].
Qed.

Lemma pairwise_elem {A} (R : A → A → Prop) l x y : pairwise R l → x ∈ l → y ∈ l → x ≠ y → R x y ∨ R y x.
Proof.
  induction l as [|z l IH]; intros Hp Hx Hy Hne; [by apply elem_of_nil in Hx|]. destruct Hp as [Hz Hp].
  rewrite Forall_forall in Hz. apply elem_of_cons in Hx, Hy.
  destruct Hx as [->|Hx], Hy as [->|Hy]; [done|left; by apply Hz|right; by apply Hz|by apply IH].
Qed.

Lemma pairwise_singleton {A} (R : A → A → Prop) x : pairwise R [x].
Proof. simpl. auto. Qed.

(** Sums of a measure over a list. *)
Definition zsum {A} (f : A → Z) (l : list A) : Z := foldr (λ x acc, f x + acc) 0 l.

Lemma zsum_app {A} (f : A → Z) l1 l2 : zsum f (l1 ++ l2) = zsum f l1 + zsum f l2.
Proof. induction l1 as [|x l1 IH]; simpl; [done|]. rewrite IH. lia. Qed.

Lemma zsum_cons {A} (f : A → Z) x l : zsum f (x :: l) = f x + zsum f l.
Proof. done. Qed.

(** Filtering looks at the predicate on the elements only. *)
Lemma filter_ext_in {A} (P Q : A → Prop) `{!∀ x, Decision (P x), !∀ x, Decision (Q x)} (l : list A) :
  (∀ x, x ∈ l → P x ↔ Q x) → filter P l = filter Q l.
Proof.
  induction l as [|x l IH]; intros HPQ; [done|]. rewrite !filter_cons.
  assert (filter P l = filter Q l) as -> by (apply IH; intros y Hy; apply HPQ; by right).
  pose proof (HPQ x (list_elem_of_here _ _)) as Hx. by repeat case_decide; try tauto.
Qed.

(** * Splicing

    What block copies do to lists of bytes. *)

(** [memcpy(buf + o, src, n)] into a buffer of which [o + n] bytes exist. *)
Definition splice (l : list Z) (o : Z) (src : list Z) : list Z :=
  take (Z.to_nat o) l ++ src ++ drop (Z.to_nat o + length src) l.
Definition slice (l : list Z) (o n : Z) : list Z := take (Z.to_nat n) (drop (Z.to_nat o) l).

(** The middle of three pieces. *)
Lemma slice_mid (a b c : list Z) : slice (a ++ b ++ c) (Z.of_nat (length a)) (Z.of_nat (length b)) = b.
Proof. unfold slice. rewrite !Nat2Z.id, drop_app_length. apply take_app_length. Qed.

Lemma splice_app (a x b data : list Z) (o : Z) :
  0 ≤ o → (Z.to_nat o + length data ≤ length x)%nat →
  splice (a ++ x ++ b) (Z.of_nat (length a) + o) data = a ++ splice x o data ++ b.
Proof.
  intros Ho Hl. unfold splice.
  replace (Z.to_nat (Z.of_nat (length a) + o)) with (length a + Z.to_nat o)%nat by lia.
  rewrite take_app_add, take_app_le by lia. rewrite <- Nat.add_assoc, drop_app_add, drop_app_le by lia.
  by rewrite <- !app_assoc.
Qed.

Lemma splice_length l o data :
  0 ≤ o → (Z.to_nat o + length data ≤ length l)%nat → length (splice l o data) = length l.
Proof. intros Ho Hl. unfold splice. rewrite !length_app, length_take, length_drop. lia. Qed.

Lemma splice_splice l o a b :
  0 ≤ o → (Z.to_nat o + length a + length b ≤ length l)%nat →
  splice (splice l o a) (o + Z.of_nat (length a)) b = splice l o (a ++ b).
Proof.
  intros Ho Hl. unfold splice.
  replace (Z.to_nat (o + Z.of_nat (length a))) with (Z.to_nat o + length a)%nat by lia.
  set (k := Z.to_nat o) in *. assert (length (take k l) = k) as Hk by (rewrite length_take; lia).
  assert (take (k + length a) (take k l ++ a ++ drop (k + length a) l) = take k l ++ a) as ->.
  { rewrite <- Hk at 1. by rewrite take_app_add, take_app_length. }
  assert (drop (k + length a + length b) (take k l ++ a ++ drop (k + length a) l)
    = drop (k + length a + length b) l) as ->.
  { rewrite <- Hk at 1. rewrite <- Nat.add_assoc, drop_app_add. rewrite drop_app_add, drop_drop.
    f_equal; lia. }
  rewrite length_app, <- !app_assoc, Nat.add_assoc. done.
Qed.

Lemma splice_nil l o : 0 ≤ o → splice l o [] = l.
Proof. intros. unfold splice. simpl. rewrite Nat.add_0_r. apply take_drop. Qed.

Lemma splice_full l data : length data = length l → splice l 0 data = data.
Proof. intros H. unfold splice. simpl. rewrite drop_ge by lia. by rewrite app_nil_r. Qed.

(** The [j]-th of equally long blocks. *)
Lemma concat_blocks (n : nat) (ls : list (list Z)) j x :
  Forall (λ l, length l = n) ls → ls !! j = Some x →
  ∃ a b, concat ls = a ++ x ++ b ∧ length a = (n * j)%nat ∧ ∀ y, concat (<[j := y]> ls) = a ++ y ++ b.
Proof.
  intros Hn Hj. exists (concat (take j ls)), (concat (drop (S j) ls)).
  destruct (insert_take_drop_eq ls j x x Hj) as [E _]. split.
  { rewrite E at 1. by rewrite concat_app. }
  split.
  - assert (∀ ks : list (list Z), Forall (λ l, length l = n) ks → length (concat ks) = (n * length ks)%nat) as Hc.
    { induction 1 as [|k ks Hk _ IH]; simpl; [lia|]. rewrite length_app, IH, Hk. lia. }
    rewrite Hc by by apply Forall_take. rewrite length_take. apply lookup_lt_Some in Hj. f_equal. lia.
  - intros y. destruct (insert_take_drop_eq ls j y x Hj) as [_ ->]. by rewrite concat_app.
Qed.

Lemma concat_splice (n : nat) (ls : list (list Z)) j x o data :
  Forall (λ l, length l = n) ls → ls !! j = Some x → 0 ≤ o → (Z.to_nat o + length data ≤ n)%nat →
  concat (<[j := splice x o data]> ls) = splice (concat ls) (Z.of_nat (n * j) + o) data.
Proof.
  intros Hn Hj Ho Hl. destruct (concat_blocks n ls j x Hn Hj) as (a & b & E & Ha & Hy).
  rewrite Hy, E, <- Ha, splice_app; [done|done|]. rewrite Forall_lookup in Hn. by rewrite (Hn j x Hj).
Qed.

Lemma concat_length (n : nat) (ls : list (list Z)) :
  Forall (λ l, length l = n) ls → length (concat ls) = (n * length ls)%nat.
Proof. induction 1 as [|k ks Hk _ IH]; simpl; [lia|]. rewrite length_app, IH, Hk. lia. Qed.

(** Counting: a predicate that changes at one element. *)
Lemma filter_length_drop_one (P Q : Z → Prop) `{!∀ x, Decision (P x), !∀ x, Decision (Q x)} (l : list Z) r :
  NoDup l → r ∈ l → P r → ¬ Q r → (∀ x, x ∈ l → x ≠ r → (P x ↔ Q x)) →
  length (filter P l) = S (length (filter Q l)).
Proof.
  intros Hnd. induction Hnd as [|x l Hx Hnd IH]; intros Hr Hp Hq Hpq; [by apply elem_of_nil in Hr|].
  rewrite !filter_cons. destruct (decide (x = r)) as [->|Hne].
  - rewrite decide_True, decide_False by done. simpl. f_equal. f_equal. apply filter_ext_in.
    intros y Hy. apply Hpq; [by right|]. by intros ->.
  - apply elem_of_cons in Hr as [?|Hr]; [done|]. assert (P x ↔ Q x) as Hx2 by (apply Hpq; [by left|done]).
    assert (length (filter P l) = S (length (filter Q l))) as HH.
    { apply IH; try done. intros y Hy. apply Hpq. by right. }
    destruct (decide (P x)), (decide (Q x)); simpl; (tauto || lia).
Qed.

(** * Bytes in memory *)

(** Little-endian integers. *)
Definition le_value (b : list Z) : Z := foldr (λ x acc, x + 256 * acc) 0 b.

Definition le_bytes (n : nat) (x : Z) : list Z := (λ i, x / 2 ^ (8 * Z.of_nat i) mod 256) <$> seq 0 n.

Lemma le_value_range b : Forall is_byte b → 0 ≤ le_value b < 256 ^ Z.of_nat (length b).
Proof.
  induction 1 as [|x b Hx _ IH]; cbn [le_value foldr length]; [lia|]. fold (le_value b). unfold is_byte in Hx.
  rewrite Nat2Z.inj_succ, Z.pow_succ_r by lia. lia.
Qed.

Lemma le_bytes_length n x : length (le_bytes n x) = n.
Proof. unfold le_bytes. by rewrite length_fmap, length_seq. Qed.

Lemma le_value_bytes n x : 0 ≤ x < 2 ^ (8 * Z.of_nat n) → le_value (le_bytes n x) = x.
Proof.
  unfold le_bytes. assert (∀ k y, 0 ≤ y → le_value ((λ i, y / 2 ^ (8 * Z.of_nat i) mod 256) <$> seq k n) =
    y / 2 ^ (8 * Z.of_nat k) mod 2 ^ (8 * Z.of_nat n)) as H.
  { induction n as [|n IH]; intros k y Hy; [by rewrite Z.mod_1_r|].
    cbn [seq fmap list_fmap le_value foldr]. fold (le_value ((λ i, y / 2 ^ (8 * Z.of_nat i) mod 256) <$> seq (S k) n)).
    rewrite IH by done. set (z := y / 2 ^ (8 * Z.of_nat k)).
    assert (y / 2 ^ (8 * Z.of_nat (S k)) = z / 256) as ->.
    { unfold z. rewrite Z.div_div by lia. change 256 with (2 ^ 8). rewrite <- Z.pow_add_r by lia. do 2 f_equal. lia. }
    replace (2 ^ (8 * Z.of_nat (S n))) with (256 * 2 ^ (8 * Z.of_nat n))
      by (change 256 with (2 ^ 8); rewrite <- Z.pow_add_r by lia; f_equal; lia).
    rewrite Z.rem_mul_r by lia. lia. }
  intros Hx. rewrite H by lia. rewrite Z.mul_0_r, Z.div_1_r. by apply Z.mod_small.
Qed.

(** Memory is a map from byte addresses to bytes. *)

(** The bytes [bs] stored from [pa] on. *)
Definition mem_write (ram : gmap Z Z) (pa : Z) (bs : list Z) : gmap Z Z :=
  list_to_map (zip (seqZ pa (Z.of_nat (length bs))) bs) ∪ ram.

Lemma mem_write_lookup ram pa bs x :
  mem_write ram pa bs !! x =
    if decide (pa ≤ x < pa + Z.of_nat (length bs)) then bs !! Z.to_nat (x - pa) else ram !! x.
Proof.
  unfold mem_write. rewrite lookup_union. case_decide as Hx.
  - destruct (lookup_lt_is_Some_2 bs (Z.to_nat (x - pa))) as [b Hb]; [lia|].
    rewrite (elem_of_list_to_map_1 _ x b), Hb; [by destruct (ram !! x)| |].
    + rewrite fst_zip by (rewrite length_seqZ; lia). apply NoDup_seqZ.
    + apply list_elem_of_lookup. exists (Z.to_nat (x - pa)). apply lookup_zip_with_Some.
      exists x, b. split; [done|]. split; [|done]. apply lookup_seqZ. lia.
  - rewrite not_elem_of_list_to_map_1; [by destruct (ram !! x)|].
    rewrite fst_zip by (rewrite length_seqZ; lia). rewrite elem_of_seqZ. lia.
Qed.

(** [n] bytes read back. *)
Definition mem_read (ram : gmap Z Z) (pa n : Z) : list Z := (λ i, default 0 (ram !! (pa + i))) <$> seqZ 0 n.

Lemma mem_read_write ram pa bs : mem_read (mem_write ram pa bs) pa (Z.of_nat (length bs)) = bs.
Proof.
  unfold mem_read. apply list_eq. intros i. rewrite list_lookup_fmap.
  destruct (decide (i < length bs)%nat) as [Hi|Hi].
  - rewrite (proj2 (lookup_seqZ _ _ _ (Z.of_nat i))) by lia. cbn. rewrite mem_write_lookup, decide_True by lia.
    replace (Z.to_nat (pa + Z.of_nat i - pa)) with i by lia. destruct (lookup_lt_is_Some_2 bs i Hi) as [b ->]. done.
  - rewrite (lookup_ge_None_2 bs) by lia. apply fmap_None. apply lookup_ge_None_2. rewrite length_seqZ. lia.
Qed.

Lemma mem_read_ext ram ram' pa n : (∀ x, pa ≤ x < pa + n → ram' !! x = ram !! x) → mem_read ram' pa n = mem_read ram pa n.
Proof.
  intros H. unfold mem_read. apply list_fmap_ext. intros i x Hx. apply lookup_seqZ in Hx as [-> Hx]. rewrite H by lia. done.
Qed.

Lemma mem_write_outside ram pa bs x : ¬ (pa ≤ x < pa + Z.of_nat (length bs)) → mem_write ram pa bs !! x = ram !! x.
Proof. intros H. by rewrite mem_write_lookup, decide_False. Qed.

(** * Bounded iteration

    [until p f s] runs [f] at most [p] times, until it answers. *)

Fixpoint until_nat {A B} (n : nat) (f : A → B + A) (s : A) : B + A :=
  match n with
  | O => inr s
  | S n' => match f s with inl b => inl b | inr s' => until_nat n' f s' end
  end.

Fixpoint until {A B} (p : positive) (f : A → B + A) (s : A) : B + A :=
  match p with
  | xH => f s
  | xO q => match until q f s with inl b => inl b | inr s' => until q f s' end
  | xI q => match f s with
            | inl b => inl b
            | inr s' => match until q f s' with inl b => inl b | inr s'' => until q f s'' end
            end
  end.

Lemma until_nat_add {A B} m n (f : A → B + A) s :
  until_nat (m + n) f s = match until_nat m f s with inl b => inl b | inr s' => until_nat n f s' end.
Proof. revert s. induction m as [|m IH]; intros s; cbn; [done|]. by destruct (f s). Qed.

Lemma until_until_nat {A B} p (f : A → B + A) s : until p f s = until_nat (Pos.to_nat p) f s.
Proof.
  revert s. induction p as [q IH|q IH|]; intros s; cbn [until].
  - rewrite Pos2Nat.inj_xI. replace (S (2 * Pos.to_nat q)) with (1 + (Pos.to_nat q + Pos.to_nat q))%nat by lia.
    rewrite until_nat_add. cbn [until_nat]. destruct (f s) as [|s']; [done|]. rewrite until_nat_add, <- IH. destruct (until q f s'); [done|apply IH].
  - rewrite Pos2Nat.inj_xO. replace (2 * Pos.to_nat q)%nat with (Pos.to_nat q + Pos.to_nat q)%nat by lia.
    rewrite until_nat_add, <- IH. destruct (until q f s); [done|apply IH].
  - change (Pos.to_nat 1) with 1%nat. cbn. by destruct (f s).
Qed.

(** With a measure that every unanswered round lowers, an answer comes. *)
Lemma until_measure {A B} p (f : A → B + A) (I : nat → A → Prop) (Q : B → Prop) n s :
  (∀ n s, I n s → match f s with inl b => Q b | inr s' => ∃ n', (n' < n)%nat ∧ I n' s' end) →
  I n s → (n < Pos.to_nat p)%nat → ∃ b, until p f s = inl b ∧ Q b.
Proof.
  intros Hf HI Hn. rewrite until_until_nat. revert n s HI Hn. induction (Pos.to_nat p) as [|k IH]; intros n s HI Hn; [lia|].
  cbn. specialize (Hf n s HI). destruct (f s) as [b|s']; [by exists b|]. destruct Hf as (n' & Hlt & HI'). apply (IH n'); [done|lia].
Qed.
