(* ===== verification/Pmm.v ===== *)
(** Physical memory manager: [src/src/mm/pmm/pmm.c] and [pmm.h].

    The static variables of pmm.c are the fields of [pmm]; the bitmap is the
    list of its [uint64_t] words.  An operation returns [None] when the C code
    would index the bitmap out of bounds, so a theorem that an operation
    returns [Some] includes memory safety.  Console output is not modelled.

    The abstract view of a state is [used_set], the set of page frame numbers
    that are taken; the theorems relate every operation to it. *)
From S2P Require Import Prelude.

Definition PAGE_SIZE : Z := 4096.
Definition PAGE_SHIFT : Z := 12.
Definition PFN_TO_PHYS (pfn : Z) : Z := shl64 pfn PAGE_SHIFT.
Definition PHYS_TO_PFN (addr : Z) : Z := Z.shiftr addr PAGE_SHIFT.
Definition PAGE_ALIGN_UP (addr : Z) : Z :=
  Z.land (addr +w PAGE_SIZE -w 1) (not64 (PAGE_SIZE - 1)).
Definition PAGE_ALIGN_DOWN (addr : Z) : Z := Z.land addr (not64 (PAGE_SIZE - 1)).
Definition BITMAP_INDEX (pfn : Z) : Z := pfn / 64.
Definition BITMAP_BIT (pfn : Z) : Z := pfn mod 64.

(** From [src/src/mm/mmu/mmu.h]. *)
Definition KERNEL_VA_OFFSET : Z := 0xFFFF000000000000.
Definition PHYS_TO_VIRT (pa : Z) : Z := pa +w KERNEL_VA_OFFSET.
Definition VIRT_TO_PHYS (va : Z) : Z := va -w KERNEL_VA_OFFSET.

(** ** State and operations *)

Record pmm := mk_pmm {
  bitmap : list Z;
  bitmap_addr : Z;
  bitmap_size : Z;
  total_pages : Z;
  used_pages : Z;
  reserved_pages : Z;
  mem_region_start : Z;
  mem_region_end : Z;
}.

Definition with_bitmap (p : pmm) (bm : list Z) (used : Z) : pmm :=
  mk_pmm bm (bitmap_addr p) (bitmap_size p) (total_pages p) used
    (reserved_pages p) (mem_region_start p) (mem_region_end p).

Definition bitmap_set (bm : list Z) (pfn : Z) : option (list Z) :=
  w ← arr_get bm (BITMAP_INDEX pfn);
  arr_set bm (BITMAP_INDEX pfn) (Z.lor w (Z.shiftl 1 (BITMAP_BIT pfn))).

Definition bitmap_clear (bm : list Z) (pfn : Z) : option (list Z) :=
  w ← arr_get bm (BITMAP_INDEX pfn);
  arr_set bm (BITMAP_INDEX pfn) (Z.land w (not64 (Z.shiftl 1 (BITMAP_BIT pfn)))).

Definition bitmap_test (bm : list Z) (pfn : Z) : option Z :=
  w ← arr_get bm (BITMAP_INDEX pfn);
  Some (Z.land (Z.shiftr w (BITMAP_BIT pfn)) 1).

(** [for (i = 0; i < n; i++) bitmap_set(start + i);] *)
Fixpoint bitmap_set_run (bm : list Z) (start : Z) (n : nat) : option (list Z) :=
  match n with
  | O => Some bm
  | S n' => bm' ← bitmap_set bm start; bitmap_set_run bm' (start + 1) n'
  end.

Definition pmm_init (mem_start mem_size kernel_end : Z) : option pmm :=
  let total := mem_size / PAGE_SIZE in
  let bsize := (total +w 63) / 64 in
  let bitmap_bytes := bsize *w 8 in
  let baddr := PAGE_ALIGN_UP kernel_end in
  let bm0 := replicate (Z.to_nat bsize) 0 in
  bm1 ← (if decide (total mod 64 ≠ 0)
         then let real_bits := total mod 64 in
              arr_set bm0 (bsize -w 1) (not64 (shl64 1 real_bits -w 1))
         else Some bm0);
  let bitmap_end := baddr +w bitmap_bytes in
  let reserved_end := PAGE_ALIGN_UP bitmap_end in
  let reserved := (reserved_end -w mem_start) / PAGE_SIZE in
  bm2 ← bitmap_set_run bm1 0 (Z.to_nat reserved);
  Some (mk_pmm bm2 baddr bsize total reserved reserved mem_start (mem_start +w mem_size)).

Definition pmm_relocate_upper (p : pmm) : pmm :=
  mk_pmm (bitmap p) (PHYS_TO_VIRT (bitmap_addr p)) (bitmap_size p) (total_pages p)
    (used_pages p) (reserved_pages p) (mem_region_start p) (mem_region_end p).

(** The inner loop of [pmm_allocate_page] over the bits of word [i]; [n]
    counts the iterations left.  [i * 64 + bit] cannot wrap: [i] indexes the
    bitmap, which has at most [2^58] words. *)
Inductive bit_scan := Taken (pfn : Z) | OutOfRange | NoBit.

Fixpoint scan_bits (p : pmm) (i bit : Z) (n : nat) : option bit_scan :=
  match n with
  | O => Some NoBit
  | S n' =>
      let page_frame_number := i * 64 + bit in
      if decide (total_pages p ≤ page_frame_number) then Some OutOfRange
      else t ← bitmap_test (bitmap p) page_frame_number;
           if decide (t = 0) then Some (Taken page_frame_number)
           else scan_bits p i (bit + 1) n'
  end.

(** The outer loop, from word [i] with [n] words left. *)
Fixpoint scan_words (p : pmm) (i : Z) (n : nat) : option bit_scan :=
  match n with
  | O => Some NoBit
  | S n' =>
      w ← arr_get (bitmap p) i;
      if decide (w = not64 0) then scan_words p (i + 1) n'
      else r ← scan_bits p i 0 64;
           match r with
           | NoBit => scan_words p (i + 1) n'
           | _ => Some r
           end
  end.

Definition pmm_allocate_page (p : pmm) : option (Z * pmm) :=
  r ← scan_words p 0 (Z.to_nat (bitmap_size p));
  match r with
  | Taken pfn =>
      bm ← bitmap_set (bitmap p) pfn;
      Some (mem_region_start p +w PFN_TO_PHYS pfn, with_bitmap p bm (used_pages p +w 1))
  | OutOfRange | NoBit => Some (0, p)
  end.

(** The scan of [pmm_allocate_pages]: from [pfn] with [n] frames left. *)
Fixpoint scan_run (p : pmm) (count pfn run_start run_length : Z) (n : nat) : option (option Z) :=
  match n with
  | O => Some None
  | S n' =>
      t ← bitmap_test (bitmap p) pfn;
      if decide (t = 0) then
        let run_start := if decide (run_length = 0) then pfn else run_start in
        let run_length := run_length + 1 in
        if decide (run_length = count) then Some (Some run_start)
        else scan_run p count (pfn + 1) run_start run_length n'
      else scan_run p count (pfn + 1) run_start 0 n'
  end.

Definition pmm_allocate_pages (p : pmm) (count : Z) : option (Z * pmm) :=
  if decide (count = 0) then Some (0, p)
  else if decide (count = 1) then pmm_allocate_page p
  else
    r ← scan_run p count (reserved_pages p) 0 0 (Z.to_nat (total_pages p - reserved_pages p));
    match r with
    | Some run_start =>
        bm ← bitmap_set_run (bitmap p) run_start (Z.to_nat count);
        Some (mem_region_start p +w PFN_TO_PHYS run_start,
              with_bitmap p bm (used_pages p +w count))
    | None => Some (0, p)
    end.

Definition pmm_free_page (p : pmm) (phys_addr : Z) : option pmm :=
  if decide (phys_addr < mem_region_start p ∨ mem_region_end p ≤ phys_addr) then Some p
  else if decide (Z.land phys_addr (PAGE_SIZE - 1) ≠ 0) then Some p
  else
    let page_frame_number := PHYS_TO_PFN (phys_addr -w mem_region_start p) in
    if decide (page_frame_number < reserved_pages p) then Some p
    else
      t ← bitmap_test (bitmap p) page_frame_number;
      if decide (t = 0) then Some p
      else
        bm ← bitmap_clear (bitmap p) page_frame_number;
        Some (with_bitmap p bm (used_pages p -w 1)).

(** [for (i = 0; i < count; i++) pmm_free_page(phys_addr + i * PAGE_SIZE);] *)
Fixpoint free_pages_from (p : pmm) (phys_addr i : Z) (n : nat) : option pmm :=
  match n with
  | O => Some p
  | S n' =>
      p' ← pmm_free_page p (phys_addr +w i *w PAGE_SIZE);
      free_pages_from p' phys_addr (i + 1) n'
  end.

Definition pmm_free_pages (p : pmm) (phys_addr count : Z) : option pmm :=
  free_pages_from p phys_addr 0 (Z.to_nat count).

Definition pmm_get_total_pages (p : pmm) : Z := total_pages p.
Definition pmm_get_used_pages (p : pmm) : Z := used_pages p.
Definition pmm_get_free_pages (p : pmm) : Z := total_pages p -w used_pages p.
Definition pmm_get_reserved_pages (p : pmm) : Z := reserved_pages p.

(** ** Bits of the bitmap *)

Definition bit_at (bm : list Z) (n : Z) : bool :=
  Z.testbit (bm !!! Z.to_nat (n / 64)) (n mod 64).

Definition words_ok (bm : list Z) : Prop := Forall is_u64 bm.

Definition nbits (bm : list Z) : Z := 64 * Z.of_nat (length bm).

Lemma words_ok_lookup bm i : words_ok bm → is_u64 (bm !!! i).
Proof.
  intros H. rewrite list_lookup_total_alt. destruct (bm !! i) as [w|] eqn:E; simpl.
  - by eapply Forall_lookup_1 in H.
  - split; [done|reflexivity].
Qed.

Lemma index_range bm n :
  0 ≤ n < nbits bm → 0 ≤ n / 64 < Z.of_nat (length bm) ∧ 0 ≤ n mod 64 < 64.
Proof. unfold nbits. intros. dlia. Qed.

Lemma bitmap_test_spec bm n :
  0 ≤ n < nbits bm → bitmap_test bm n = Some (Z.b2z (bit_at bm n)).
Proof.
  intros Hn. destruct (index_range bm n Hn) as [Hi Hb].
  unfold bitmap_test, BITMAP_INDEX, BITMAP_BIT, bit_at. rewrite arr_get_lt by done. simpl.
  f_equal. rewrite (Z.testbit_spec' (bm !!! _) (n mod 64)) by lia.
  change 1 with (Z.ones 1). rewrite Z.land_ones, Z.shiftr_div_pow2 by lia. done.
Qed.

Lemma bit_at_insert bm n w m :
  0 ≤ n < nbits bm → 0 ≤ m →
  bit_at (<[Z.to_nat (n / 64) := w]> bm) m =
    if decide (m / 64 = n / 64) then Z.testbit w (m mod 64) else bit_at bm m.
Proof.
  intros Hn Hm. destruct (index_range bm n Hn). unfold bit_at. case_decide as E.
  - rewrite E, lookup_total_insert_eq by lia. done.
  - rewrite list_lookup_total_insert_ne; [done|]. intros E'. apply E. dlia.
Qed.

Lemma same_bit m n : m / 64 = n / 64 → (m mod 64 = n mod 64 ↔ m = n).
Proof.
  intros. split; [dlia|congruence].
Qed.

Lemma bitmap_set_spec bm n :
  words_ok bm → 0 ≤ n < nbits bm →
  ∃ bm', bitmap_set bm n = Some bm' ∧ words_ok bm' ∧ length bm' = length bm ∧
    ∀ m, 0 ≤ m → bit_at bm' m = bool_decide (m = n) || bit_at bm m.
Proof.
  intros Hok Hn. destruct (index_range bm n Hn) as [Hi Hb].
  unfold bitmap_set, BITMAP_INDEX, BITMAP_BIT. rewrite arr_get_lt by done. simpl.
  rewrite arr_set_lt by done. eexists. split; [done|]. split_and!.
  - apply Forall_insert; [done|]. apply setbit_is_u64; [by apply words_ok_lookup|done].
  - apply length_insert.
  - intros m Hm. rewrite bit_at_insert by done. case_decide as E.
    + rewrite testbit_setbit by (pose proof (Z.mod_pos_bound m 64); lia).
      rewrite (bool_decide_ext _ _ (same_bit m n E)). unfold bit_at. by rewrite E.
    + rewrite bool_decide_eq_false_2 by congruence. done.
Qed.

Lemma bitmap_clear_spec bm n :
  words_ok bm → 0 ≤ n < nbits bm →
  ∃ bm', bitmap_clear bm n = Some bm' ∧ words_ok bm' ∧ length bm' = length bm ∧
    ∀ m, 0 ≤ m → bit_at bm' m = negb (bool_decide (m = n)) && bit_at bm m.
Proof.
  intros Hok Hn. destruct (index_range bm n Hn) as [Hi Hb].
  unfold bitmap_clear, BITMAP_INDEX, BITMAP_BIT. rewrite arr_get_lt by done. simpl.
  rewrite arr_set_lt by done. eexists. split; [done|]. split_and!.
  - apply Forall_insert; [done|]. apply land_is_u64; [by apply words_ok_lookup|].
    apply wrap64_range.
  - apply length_insert.
  - intros m Hm. rewrite bit_at_insert by done. case_decide as E.
    + rewrite testbit_clrbit by (pose proof (Z.mod_pos_bound m 64); lia).
      rewrite (bool_decide_ext _ _ (same_bit m n E)). unfold bit_at. by rewrite E.
    + rewrite bool_decide_eq_false_2 by congruence. done.
Qed.

Lemma bitmap_set_run_spec bm s n :
  words_ok bm → 0 ≤ s → s + Z.of_nat n ≤ nbits bm →
  ∃ bm', bitmap_set_run bm s n = Some bm' ∧ words_ok bm' ∧ length bm' = length bm ∧
    ∀ m, 0 ≤ m → bit_at bm' m = bool_decide (s ≤ m < s + Z.of_nat n) || bit_at bm m.
Proof.
  revert bm s. induction n as [|n IH]; intros bm s Hok Hs Hn; simpl.
  - eexists. split_and!; try done. intros m _. by rewrite bool_decide_eq_false_2 by lia.
  - destruct (bitmap_set_spec bm s) as (bm1 & -> & Hok1 & Hl1 & Hb1); [done|lia|]. simpl.
    destruct (IH bm1 (s + 1)) as (bm2 & -> & Hok2 & Hl2 & Hb2); [done|lia|unfold nbits in *; lia|].
    eexists. split_and!; try done; [congruence|]. intros m Hm.
    rewrite Hb2, Hb1 by done.
    repeat (case_bool_decide; simpl); try done; lia.
Qed.

(** Bitmaps with the same words are determined by their bits. *)
Lemma bitmap_ext bm1 bm2 :
  words_ok bm1 → words_ok bm2 → length bm1 = length bm2 →
  (∀ m, 0 ≤ m → bit_at bm1 m = bit_at bm2 m) → bm1 = bm2.
Proof.
  intros H1 H2 Hl Hb. apply (list_eq_same_length _ _ (length bm2)); [done..|].
  intros i x y Hi Hx Hy. apply u64_bits_eq.
  - by eapply Forall_lookup_1 in H1.
  - by eapply Forall_lookup_1 in H2.
  - intros n Hn. specialize (Hb (64 * Z.of_nat i + n) ltac:(lia)). unfold bit_at in Hb.
    replace ((64 * Z.of_nat i + n) / 64) with (Z.of_nat i) in Hb
      by (rewrite Z.mul_comm, Z.div_add_l, Z.div_small by lia; lia).
    replace ((64 * Z.of_nat i + n) mod 64) with n in Hb
      by (rewrite Z.add_comm, Z.mul_comm, Z.mod_add, Z.mod_small by lia; lia).
    rewrite Nat2Z.id, (list_lookup_total_correct _ _ _ Hx),
      (list_lookup_total_correct _ _ _ Hy) in Hb. done.
Qed.

(** ** The abstract view and the invariant *)

(** The taken page frames among the frames that exist. *)
Definition used_set (p : pmm) : gset Z :=
  filter (λ n, bit_at (bitmap p) n = true) (list_to_set (seqZ 0 (total_pages p))).

Definition frame_addr (p : pmm) (n : Z) : Z := mem_region_start p + n * PAGE_SIZE.

Record pmm_wf (p : pmm) : Prop := {
  wf_len : bitmap_size p = Z.of_nat (length (bitmap p));
  wf_total : 0 ≤ total_pages p ≤ 64 * bitmap_size p;
  wf_words : words_ok (bitmap p);
  wf_pad n : total_pages p ≤ n < 64 * bitmap_size p → bit_at (bitmap p) n = true;
  wf_res : 0 ≤ reserved_pages p ≤ total_pages p;
  wf_resbits n : 0 ≤ n < reserved_pages p → bit_at (bitmap p) n = true;
  wf_used : used_pages p = Z.of_nat (size (used_set p));
  wf_start : 0 < mem_region_start p ∧ mem_region_start p mod PAGE_SIZE = 0;
  wf_end : mem_region_end p = frame_addr p (total_pages p) ∧ mem_region_end p < 2 ^ 64;
}.

(** The part of the state no allocation or release changes. *)
Definition same_config (p p' : pmm) : Prop :=
  p' = with_bitmap p (bitmap p') (used_pages p').

#[export] Instance same_config_refl : Reflexive same_config.
Proof. intros []. done. Qed.

#[export] Instance same_config_trans : Transitive same_config.
Proof. intros [] [] []. unfold same_config, with_bitmap. simpl. intros H1 H2. injection H1. injection H2. congruence. Qed.

Lemma elem_of_used_set p n :
  n ∈ used_set p ↔ 0 ≤ n < total_pages p ∧ bit_at (bitmap p) n = true.
Proof.
  unfold used_set. rewrite elem_of_filter, elem_of_list_to_set, elem_of_seqZ. naive_solver lia.
Qed.

Lemma not_elem_of_used_set p n :
  0 ≤ n < total_pages p → n ∉ used_set p ↔ bit_at (bitmap p) n = false.
Proof. intros Hn. rewrite elem_of_used_set, <- not_true_iff_false. naive_solver. Qed.

(** [used_pages] counts frames, so it never exceeds the number of frames. *)
Lemma used_set_size p : 0 ≤ total_pages p → Z.of_nat (size (used_set p)) ≤ total_pages p.
Proof.
  intros Ht. unfold used_set.
  transitivity (Z.of_nat (size (list_to_set (seqZ 0 (total_pages p)) : gset Z))).
  - apply inj_le, subseteq_size. intros n. rewrite elem_of_filter. naive_solver.
  - rewrite size_list_to_set by apply NoDup_seqZ. rewrite length_seqZ. lia.
Qed.

Lemma wf_nbits p : pmm_wf p → nbits (bitmap p) = 64 * bitmap_size p.
Proof. intros []. unfold nbits. lia. Qed.

Lemma frame_addr_range p n :
  pmm_wf p → 0 ≤ n < total_pages p →
  0 < frame_addr p n < 2 ^ 64 ∧
  mem_region_start p +w PFN_TO_PHYS n = frame_addr p n.
Proof.
  intros [] Hn. unfold frame_addr, PFN_TO_PHYS, shl64, PAGE_SIZE, PAGE_SHIFT in *.
  rewrite Z.shiftl_mul_pow2 by lia. rewrite wrap64_small by lia. split; [lia|].
  rewrite add64_small by lia. lia.
Qed.

(** How the view and the invariant follow a change of bits. *)
Section Update.
Context (p : pmm) (Hwf : pmm_wf p) (bm' : list Z) (used' : Z).
Context (Hok : words_ok bm') (Hlen : length bm' = length (bitmap p)).

Lemma used_set_with n :
  n ∈ used_set (with_bitmap p bm' used') ↔ 0 ≤ n < total_pages p ∧ bit_at bm' n = true.
Proof. apply elem_of_used_set. Qed.

Lemma wf_with :
  (∀ n, 0 ≤ n < 64 * bitmap_size p → n < reserved_pages p ∨ total_pages p ≤ n →
        bit_at bm' n = true) →
  used' = Z.of_nat (size (used_set (with_bitmap p bm' used'))) →
  pmm_wf (with_bitmap p bm' used').
Proof.
  destruct Hwf. intros Hbits Hu. constructor; simpl; try done; try congruence.
  - intros n Hn. apply Hbits; lia.
  - intros n Hn. apply Hbits; lia.
Qed.
End Update.

(** Taking the free frames [ns]: the shared step of both allocators. *)
Lemma take_frames p bm' (ns : gset Z) :
  pmm_wf p → words_ok bm' → length bm' = length (bitmap p) →
  (∀ n, n ∈ ns → 0 ≤ n < total_pages p ∧ bit_at (bitmap p) n = false) →
  (∀ m, 0 ≤ m → bit_at bm' m = bool_decide (m ∈ ns) || bit_at (bitmap p) m) →
  let p' := with_bitmap p bm' (used_pages p +w Z.of_nat (size ns)) in
  pmm_wf p' ∧ used_set p' = ns ∪ used_set p ∧ used_pages p' = used_pages p + Z.of_nat (size ns).
Proof.
  intros Hwf Hok Hlen Hns Hbits p'. pose proof Hwf as [].
  assert (used_set p' = ns ∪ used_set p) as Hset.
  { apply set_eq. intros n. rewrite elem_of_union, !elem_of_used_set.
    change (bitmap p') with bm'. change (total_pages p') with (total_pages p).
    specialize (Hns n). specialize (Hbits n).
    destruct (decide (n ∈ ns)) as [Hin|Hin].
    - rewrite Hbits, bool_decide_eq_true_2 by naive_solver lia. naive_solver lia.
    - split; [intros [Hr Hb]|intros [?|[Hr Hb]]; [done|]];
        rewrite Hbits, bool_decide_eq_false_2 in * by (try done; lia); naive_solver. }
  assert (size (used_set p') = (size ns + size (used_set p))%nat) as Hsz.
  { rewrite Hset. apply size_union. intros n Hn Hu. apply Hns in Hn as [? Hn].
    apply elem_of_used_set in Hu. destruct Hu; congruence. }
  assert (used_pages p' = used_pages p + Z.of_nat (size ns)) as Hup.
  { subst p'. simpl. apply add64_small. pose proof (used_set_size (with_bitmap p bm'
      (used_pages p +w Z.of_nat (size ns))) ltac:(simpl; lia)) as Hb.
    rewrite Hsz in Hb. simpl in Hb. unfold frame_addr, PAGE_SIZE in *. lia. }
  split_and!; [|done..]. apply wf_with; try done.
  - intros n Hn Hc. rewrite Hbits by lia.
    apply orb_true_intro. right. destruct Hc; [apply wf_resbits0|apply wf_pad0]; lia.
  - change (used_pages p' = Z.of_nat (size (used_set p'))). rewrite Hsz, Hup. lia.
Qed.

(** ** Single-page allocation *)

Lemma scan_bits_spec p i bit n :
  pmm_wf p → 0 ≤ i < bitmap_size p → 0 ≤ bit → bit + Z.of_nat n = 64 →
  (∀ b, 0 ≤ b < bit → bit_at (bitmap p) (i * 64 + b) = true) →
  (∃ pfn, scan_bits p i bit n = Some (Taken pfn) ∧ i * 64 ≤ pfn < i * 64 + 64 ∧
     pfn < total_pages p ∧ bit_at (bitmap p) pfn = false ∧
     ∀ m, i * 64 ≤ m < pfn → bit_at (bitmap p) m = true) ∨
  ((scan_bits p i bit n = Some NoBit ∨ scan_bits p i bit n = Some OutOfRange) ∧
     ∀ b, 0 ≤ b < 64 → bit_at (bitmap p) (i * 64 + b) = true).
Proof.
  intros Hwf Hi. pose proof Hwf as []. revert bit.
  induction n as [|n IH]; intros bit Hb Hn Hdone; simpl.
  - right. split; [by left|]. intros b ?. apply Hdone. lia.
  - case_decide as Hr.
    + right. split; [by right|]. intros b ?. destruct (decide (b < bit)).
      * apply Hdone. lia.
      * apply wf_pad0. lia.
    + rewrite bitmap_test_spec by (unfold nbits; lia). simpl.
      destruct (bit_at (bitmap p) (i * 64 + bit)) eqn:Hbit; simpl.
      * destruct (IH (bit + 1)) as [Hl|Hrr]; [lia|lia| |by left|by right].
        intros b ?. destruct (decide (b = bit)) as [->|]; [done|]. apply Hdone. lia.
      * left. eexists. split_and!; [done|lia|lia|lia|done|]. intros m Hm.
        replace m with (i * 64 + (m - i * 64)) by lia. apply Hdone. lia.
Qed.

#[local] Arguments scan_bits : simpl never.

Lemma full_word_bits p i b :
  pmm_wf p → 0 ≤ i < bitmap_size p → bitmap p !!! Z.to_nat i = not64 0 → 0 ≤ b < 64 →
  bit_at (bitmap p) (i * 64 + b) = true.
Proof.
  intros _ Hi Hw Hb. unfold bit_at.
  replace ((i * 64 + b) / 64) with i by dlia. replace ((i * 64 + b) mod 64) with b by dlia.
  rewrite Hw, not64_bits, Z.testbit_0_l by lia. done.
Qed.

(** A word other than [~0] has a clear bit. *)
Lemma some_clear_bit w : is_u64 w → w ≠ not64 0 → ¬ ∀ b, 0 ≤ b < 64 → Z.testbit w b = true.
Proof.
  intros Hw Hne Hall. apply Hne, u64_bits_eq; [done|apply wrap64_range|].
  intros n Hn. rewrite Hall, not64_bits, Z.testbit_0_l by done. done.
Qed.

Lemma scan_words_spec p i n :
  pmm_wf p → 0 ≤ i → i + Z.of_nat n = bitmap_size p →
  (∀ m, 0 ≤ m < i * 64 → bit_at (bitmap p) m = true) →
  (∃ pfn, scan_words p i n = Some (Taken pfn) ∧ 0 ≤ pfn < total_pages p ∧
     bit_at (bitmap p) pfn = false ∧ ∀ m, 0 ≤ m < pfn → bit_at (bitmap p) m = true) ∨
  (scan_words p i n = Some NoBit ∧ ∀ m, 0 ≤ m < total_pages p → bit_at (bitmap p) m = true).
Proof.
  intros Hwf. pose proof Hwf as []. revert i.
  induction n as [|n IH]; intros i Hi Hn Hdone; simpl.
  - right. split; [done|]. intros m ?. apply Hdone. lia.
  - rewrite arr_get_lt by lia. simpl.
    assert (∀ b, (∀ b, 0 ≤ b < 64 → bit_at (bitmap p) (i * 64 + b) = true) →
              0 ≤ b < (i + 1) * 64 → bit_at (bitmap p) b = true) as Hnext.
    { intros m Hall Hm. destruct (decide (m < i * 64)); [apply Hdone; lia|].
      replace m with (i * 64 + (m - i * 64)) by lia. apply Hall. lia. }
    case_decide as Hw.
    + apply IH; [lia..|]. intros m. apply Hnext.
      intros b Hb. apply full_word_bits; [done|lia|done|done].
    + destruct (scan_bits_spec p i 0 64) as [(pfn & -> & ? & ? & ? & Hm)|[Hor Hall]];
        [done|lia|done|done|intros ??; lia| |].
      * left. exists pfn. split_and!; [done|lia..|done|]. intros m ?.
        destruct (decide (m < i * 64)); [apply Hdone; lia|apply Hm; lia].
      * exfalso. eapply some_clear_bit; [by apply words_ok_lookup|done|].
        intros b Hb. specialize (Hall b Hb). unfold bit_at in Hall.
        replace ((i * 64 + b) / 64) with i in Hall by dlia.
        replace ((i * 64 + b) mod 64) with b in Hall by dlia. done.
Qed.

(** What [pmm_allocate_page] does, stated on the view. *)
Definition page_taken (p p' : pmm) (r n : Z) : Prop :=
  0 ≤ n < total_pages p ∧ (n ∉ used_set p) ∧ (∀ m, 0 ≤ m < n → m ∈ used_set p) ∧
  r = frame_addr p n ∧ used_set p' = {[n]} ∪ used_set p ∧
  used_pages p' = used_pages p + 1 ∧ pmm_wf p' ∧ same_config p p' ∧
  ∀ m, 0 ≤ m → bit_at (bitmap p') m = bool_decide (m = n) || bit_at (bitmap p) m.

Lemma allocate_page_cases p :
  pmm_wf p →
  ∃ r p', pmm_allocate_page p = Some (r, p') ∧
    ((∃ n, page_taken p p' r n) ∨
     (r = 0 ∧ p' = p ∧ ∀ n, 0 ≤ n < total_pages p → n ∈ used_set p)).
Proof.
  intros Hwf. pose proof Hwf as []. unfold pmm_allocate_page.
  destruct (scan_words_spec p 0 (Z.to_nat (bitmap_size p)))
    as [(n & -> & Hn & Hfree & Hmin)|[-> Hall]]; [done|lia|lia|intros; lia| |]; simpl.
  - destruct (bitmap_set_spec (bitmap p) n) as (bm' & -> & Hok & Hl & Hb);
      [done|unfold nbits; lia|]. simpl.
    destruct (take_frames p bm' {[n]}) as (Hwf' & Hset & Hup); try done.
    { intros m Hm. apply elem_of_singleton in Hm as ->. done. }
    { intros m Hm. rewrite Hb by done. f_equal. apply bool_decide_ext. set_solver. }
    rewrite size_singleton in *. destruct (frame_addr_range p n) as [? Hfa]; [done..|].
    eexists _, _. split; [done|]. left. exists n.
    split_and!; try done; try lia.
    + by apply not_elem_of_used_set.
    + intros m Hm. apply elem_of_used_set. split; [lia|]. by apply Hmin.
  - eexists _, _. split; [done|]. right. split_and!; try done.
    intros n Hn. apply elem_of_used_set. eauto.
Qed.

(** ** Contiguous allocation *)

Definition free_run (p : pmm) (s count : Z) : Prop :=
  ∀ m, s ≤ m < s + count → m ∉ used_set p.

Lemma scan_run_spec p count pfn rs rl n :
  pmm_wf p → 0 < count →
  0 ≤ rl < count → reserved_pages p ≤ pfn - rl → pfn + Z.of_nat n = total_pages p →
  (rl ≠ 0 → rs = pfn - rl) → free_run p (pfn - rl) rl →
  (∀ s, reserved_pages p ≤ s < pfn - rl → ¬ free_run p s count) →
  (∃ s, scan_run p count pfn rs rl n = Some (Some s) ∧
     reserved_pages p ≤ s ∧ s + count ≤ total_pages p ∧ free_run p s count ∧
     ∀ s', reserved_pages p ≤ s' < s → ¬ free_run p s' count) ∨
  (scan_run p count pfn rs rl n = Some None ∧
     ∀ s, reserved_pages p ≤ s → s + count ≤ total_pages p → ¬ free_run p s count).
Proof.
  intros Hwf Hc. pose proof Hwf as []. revert pfn rs rl.
  induction n as [|n IH]; intros pfn rs rl Hrl Hlo Hn Hrs Hrun Hmin; simpl.
  - right. split; [done|]. intros s Hs Ht. apply Hmin. lia.
  - rewrite bitmap_test_spec by (unfold nbits; lia). simpl.
    destruct (bit_at (bitmap p) pfn) eqn:Hb; simpl.
    + apply IH; try lia; [intros ??; lia|]. intros s Hs Hfree.
      destruct (decide (s < pfn - rl)); [eapply Hmin; [|done]; lia|].
      apply (Hfree pfn); [lia|]. apply elem_of_used_set. split; [lia|done].
    + set (rs' := if decide (rl = 0) then pfn else rs).
      assert (rs' = pfn - rl) as Hrs' by (subst rs'; case_decide; [lia|by apply Hrs]).
      assert (free_run p (pfn - rl) (rl + 1)) as Hrun'.
      { intros m Hm. destruct (decide (m = pfn)) as [->|]; [|apply Hrun; lia].
        by apply not_elem_of_used_set; [lia|]. }
      case_decide as Heq.
      * left. exists rs'. rewrite Hrs'. subst count. split_and!; try done; lia.
      * apply IH; try lia; replace (pfn + 1 - (rl + 1)) with (pfn - rl) by lia; done.
Qed.

(** What [pmm_allocate_pages] does for two or more pages: the lowest run of
    [count] free frames above the reserved area. *)
Definition run_taken (p p' : pmm) (r s count : Z) : Prop :=
  reserved_pages p ≤ s ∧ s + count ≤ total_pages p ∧ free_run p s count ∧
  (∀ s', reserved_pages p ≤ s' < s → ¬ free_run p s' count) ∧
  r = frame_addr p s ∧ used_set p' = list_to_set (seqZ s count) ∪ used_set p ∧
  used_pages p' = used_pages p + count ∧ pmm_wf p' ∧ same_config p p'.

Lemma allocate_pages_cases p count :
  pmm_wf p → 2 ≤ count →
  ∃ r p', pmm_allocate_pages p count = Some (r, p') ∧
    ((∃ s, run_taken p p' r s count) ∨
     (r = 0 ∧ p' = p ∧
      ∀ s, reserved_pages p ≤ s → s + count ≤ total_pages p → ¬ free_run p s count)).
Proof.
  intros Hwf Hc. pose proof Hwf as []. unfold pmm_allocate_pages.
  rewrite !decide_False by lia.
  destruct (scan_run_spec p count (reserved_pages p) 0 0
    (Z.to_nat (total_pages p - reserved_pages p)))
    as [(s & -> & Hlo & Hhi & Hfree & Hmin)|[-> Hnone]]; simpl;
    try done; try lia; try (intros ??; lia).
  - destruct (bitmap_set_run_spec (bitmap p) s (Z.to_nat count)) as (bm' & -> & Hok & Hl & Hb);
      [done|lia|unfold nbits; lia|]. simpl.
    set (ns := list_to_set (seqZ s count) : gset Z).
    assert (size ns = Z.to_nat count) as Hsz.
    { unfold ns. rewrite size_list_to_set by apply NoDup_seqZ. by rewrite length_seqZ. }
    destruct (take_frames p bm' ns) as (Hwf' & Hset & Hup); try done.
    { intros m Hm. apply elem_of_list_to_set, elem_of_seqZ in Hm. split; [lia|].
      apply not_elem_of_used_set; [lia|]. apply Hfree. lia. }
    { intros m Hm. rewrite Hb by done. f_equal. apply bool_decide_ext.
      unfold ns. rewrite elem_of_list_to_set, elem_of_seqZ. lia. }
    rewrite Hsz, Z2Nat.id in Hwf', Hset, Hup by lia.
    destruct (frame_addr_range p s) as [? Hfa]; [done|lia|].
    eexists _, _. split; [done|]. left. exists s. split_and!; done.
  - eexists _, _. split; [done|]. right. done.
Qed.

(** ** Release *)

(** The frame number an address names, if it is a frame [pmm_free_page] may release. *)
Definition releasable (p : pmm) (addr n : Z) : Prop :=
  reserved_pages p ≤ n < total_pages p ∧ addr = frame_addr p n ∧ n ∈ used_set p.

Lemma frame_aligned p addr :
  pmm_wf p → mem_region_start p ≤ addr < mem_region_end p →
  Z.land addr (PAGE_SIZE - 1) = 0 →
  let n := PHYS_TO_PFN (addr -w mem_region_start p) in
  0 ≤ n < total_pages p ∧ addr = frame_addr p n.
Proof.
  intros [] Hr Ha. cbv zeta. unfold frame_addr, PAGE_SIZE, PHYS_TO_PFN, PAGE_SHIFT in *.
  change (4096 - 1) with (Z.ones 12) in Ha. rewrite Z.land_ones in Ha by lia.
  rewrite sub64_small by lia. rewrite Z.shiftr_div_pow2 by lia.
  change (2 ^ 12) with 4096 in *. dlia.
Qed.

Lemma frame_addr_free p n :
  pmm_wf p → 0 ≤ n < total_pages p →
  mem_region_start p ≤ frame_addr p n < mem_region_end p ∧
  Z.land (frame_addr p n) (PAGE_SIZE - 1) = 0 ∧
  PHYS_TO_PFN (frame_addr p n -w mem_region_start p) = n.
Proof.
  intros [] Hn. unfold frame_addr, PHYS_TO_PFN, PAGE_SHIFT, PAGE_SIZE in *.
  change (4096 - 1) with (Z.ones 12). rewrite Z.land_ones by lia.
  rewrite sub64_small by lia. rewrite Z.shiftr_div_pow2 by lia.
  change (2 ^ 12) with 4096. split; [lia|]. dlia.
Qed.

Lemma free_page_hit p addr n :
  pmm_wf p → releasable p addr n →
  ∃ p', pmm_free_page p addr = Some p' ∧ used_set p' = used_set p ∖ {[n]} ∧
    used_pages p' = used_pages p - 1 ∧ pmm_wf p' ∧ same_config p p' ∧
    ∀ m, 0 ≤ m → bit_at (bitmap p') m = negb (bool_decide (m = n)) && bit_at (bitmap p) m.
Proof.
  intros Hwf (Hn & -> & Hu). pose proof Hwf as [].
  destruct (frame_addr_free p n) as (? & ? & Hpfn); [done|lia|].
  pose proof Hu as Hbit. apply elem_of_used_set in Hbit as [_ Hbit].
  unfold pmm_free_page. rewrite decide_False, decide_False, Hpfn, decide_False by lia.
  rewrite bitmap_test_spec, Hbit by (unfold nbits; lia). simpl.
  destruct (bitmap_clear_spec (bitmap p) n) as (bm' & -> & Hok & Hl & Hb);
    [done|unfold nbits; lia|]. simpl.
  set (p' := with_bitmap p bm' (used_pages p -w 1)).
  assert (used_set p' = used_set p ∖ {[n]}) as Hset.
  { apply set_eq. intros m. rewrite elem_of_difference, !elem_of_used_set, elem_of_singleton.
    simpl. split.
    - intros [Hm E]. rewrite Hb in E by lia. case_bool_decide; naive_solver.
    - intros [[Hm E] Hne]. rewrite Hb, bool_decide_eq_false_2 by (lia || done). done. }
  assert (Z.of_nat (size (used_set p')) = used_pages p - 1) as Hsz.
  { rewrite Hset, size_difference, size_singleton by set_solver.
    assert (size {[n]} ≤ size (used_set p))%nat as Hle by (apply subseteq_size; set_solver).
    rewrite size_singleton in Hle. lia. }
  assert (used_pages p' = used_pages p - 1) as Hup.
  { subst p'. simpl. apply sub64_small.
    pose proof (used_set_size p ltac:(lia)). unfold frame_addr, PAGE_SIZE in *. lia. }
  eexists. split; [done|]. split_and!; try done.
  apply wf_with; try done.
  - intros m Hm Hc. rewrite Hb, bool_decide_eq_false_2 by lia.
    simpl. destruct Hc; [apply wf_resbits0|apply wf_pad0]; lia.
  - change (used_pages p' = Z.of_nat (size (used_set p'))). lia.
Qed.

Lemma free_page_miss p addr :
  pmm_wf p → (∀ n, ¬ releasable p addr n) → pmm_free_page p addr = Some p.
Proof.
  intros Hwf Hno. pose proof Hwf as []. unfold pmm_free_page.
  case_decide as Hr; [done|]. case_decide as Ha; [done|].
  destruct (frame_aligned p addr) as [Hn Hfa]; [done|lia|tauto|].
  set (n := PHYS_TO_PFN (addr -w mem_region_start p)) in *.
  case_decide as Hres; [done|].
  rewrite bitmap_test_spec by (unfold nbits; lia). simpl.
  destruct (bit_at (bitmap p) n) eqn:Hb; simpl; [|done].
  exfalso. apply (Hno n). split; [lia|]. split; [done|]. apply elem_of_used_set. done.
Qed.

Lemma releasable_dec p addr : pmm_wf p → (∃ n, releasable p addr n) ∨ ∀ n, ¬ releasable p addr n.
Proof.
  intros Hwf. unfold releasable, frame_addr, PAGE_SIZE.
  remember ((addr - mem_region_start p) / 4096) as n eqn:En.
  destruct (decide (reserved_pages p ≤ n < total_pages p)); [|right; intros m; dlia].
  destruct (decide (addr = mem_region_start p + n * 4096)) as [Ha|];
    [|right; intros m; dlia].
  destruct (decide (n ∈ used_set p)); [left; eauto|].
  right. intros m (_ & Hm & ?). assert (m = n) as -> by lia. done.
Qed.

(** ** Initialisation *)

Lemma PAGE_ALIGN_UP_spec a :
  0 ≤ a → a + 4096 < 2 ^ 64 → PAGE_ALIGN_UP a = (a + 4095) / 4096 * 4096.
Proof.
  intros. unfold PAGE_ALIGN_UP, PAGE_SIZE. rewrite add64_small by lia. rewrite sub64_small by lia.
  change (4096 - 1) with (2 ^ 12 - 1). rewrite land_not_low by (unfold is_u64; lia).
  change (2 ^ 12) with 4096. dlia.
Qed.

Lemma bit_at_zeros k n : 0 ≤ n < 64 * Z.of_nat k → bit_at (replicate k 0) n = false.
Proof.
  intros Hn. unfold bit_at. rewrite lookup_total_replicate_2 by dlia. apply Z.testbit_0_l.
Qed.

Lemma words_ok_zeros k : words_ok (replicate k 0).
Proof. apply Forall_replicate. split; [done|reflexivity]. Qed.

(** The bits of the word that pads the bitmap. *)
Lemma pad_word_bits r b :
  0 < r < 64 → 0 ≤ b < 64 → Z.testbit (not64 (shl64 1 r -w 1)) b = bool_decide (r ≤ b).
Proof.
  intros Hr Hb. rewrite not64_bits by done.
  assert (2 ^ r ≤ 2 ^ 63) by (apply Z.pow_le_mono_r; lia).
  assert (0 < 2 ^ r) by (apply Z.pow_pos_nonneg; lia).
  unfold shl64. rewrite Z.shiftl_1_l, wrap64_small by lia. rewrite sub64_small by lia.
  replace (2 ^ r - 1) with (Z.ones r) by (rewrite Z.ones_equiv; lia).
  case_bool_decide.
  - by rewrite Z.ones_spec_high by lia.
  - by rewrite Z.ones_spec_low by lia.
Qed.

Definition padded_bitmap (total bsize : Z) : option (list Z) :=
  let bm0 := replicate (Z.to_nat bsize) 0 in
  if decide (total mod 64 ≠ 0)
  then arr_set bm0 (bsize -w 1) (not64 (shl64 1 (total mod 64) -w 1))
  else Some bm0.

Lemma padded_bitmap_spec total bsize :
  0 ≤ total < 2 ^ 60 → bsize = (total + 63) / 64 →
  ∃ bm, padded_bitmap total bsize = Some bm ∧ words_ok bm ∧ Z.of_nat (length bm) = bsize ∧
    ∀ n, 0 ≤ n < 64 * bsize → bit_at bm n = bool_decide (total ≤ n).
Proof.
  intros Ht Hbs. unfold padded_bitmap. case_decide as Hm.
  - rewrite sub64_small by dlia.
    rewrite arr_set_lt by (rewrite length_replicate; dlia).
    eexists. split; [done|]. split_and!.
    + apply Forall_insert; [apply words_ok_zeros|apply wrap64_range].
    + rewrite length_insert, length_replicate. dlia.
    + intros n Hn. replace (bsize - 1) with ((64 * (bsize - 1)) / 64) by dlia.
      rewrite bit_at_insert by (unfold nbits; rewrite ?length_replicate; dlia).
      rewrite bit_at_zeros by dlia. case_decide as E.
      * rewrite pad_word_bits by dlia. apply bool_decide_ext. dlia.
      * symmetry. apply bool_decide_eq_false_2. dlia.
  - eexists. split; [done|]. split_and!.
    + apply words_ok_zeros.
    + rewrite length_replicate. dlia.
    + intros n Hn. rewrite bit_at_zeros by dlia. symmetry. apply bool_decide_eq_false_2. dlia.
Qed.

(** The memory layout [pmm_init] needs: an aligned region that holds the
    kernel image followed by the bitmap. *)
Definition layout_ok (mem_start mem_size kernel_end : Z) : Prop :=
  0 < mem_start ∧ mem_start mod PAGE_SIZE = 0 ∧ 0 < mem_size ∧ mem_size mod PAGE_SIZE = 0 ∧
  mem_start + mem_size < 2 ^ 64 ∧ mem_start ≤ kernel_end ∧
  kernel_end + 2 * PAGE_SIZE + 8 * ((mem_size / PAGE_SIZE + 63) / 64) ≤ mem_start + mem_size.

Lemma pmm_init_ok mem_start mem_size kernel_end :
  layout_ok mem_start mem_size kernel_end →
  ∃ p, pmm_init mem_start mem_size kernel_end = Some p ∧ pmm_wf p ∧
    total_pages p = mem_size / PAGE_SIZE ∧
    used_pages p = reserved_pages p ∧ mem_region_start p = mem_start ∧
    frame_addr p (reserved_pages p) = PAGE_ALIGN_UP (bitmap_addr p + 8 * bitmap_size p) ∧
    kernel_end ≤ bitmap_addr p ∧
    ∀ n, 0 ≤ n < total_pages p → n ∈ used_set p ↔ n < reserved_pages p.
Proof.
  intros (Hs & Hsa & Hz & Hza & He & Hk & Hroom). unfold pmm_init.
  fold (padded_bitmap (mem_size / PAGE_SIZE) ((mem_size / PAGE_SIZE +w 63) / 64)).
  unfold PAGE_SIZE in *.
  rewrite (add64_small (mem_size / 4096) 63) by dlia.
  remember (mem_size / 4096) as total eqn:Etot.
  remember ((total + 63) / 64) as bsize eqn:Ebs.
  destruct (padded_bitmap_spec total bsize) as (bm1 & Hbm1 & Hok1 & Hl1 & Hb1); [dlia|done|].
  fold (padded_bitmap total bsize). rewrite Hbm1. simpl.
  rewrite (mul64_small bsize 8) by dlia.
  rewrite (PAGE_ALIGN_UP_spec kernel_end) by dlia.
  remember ((kernel_end + 4095) / 4096 * 4096) as baddr eqn:Eba.
  rewrite (add64_small baddr) by dlia.
  rewrite (PAGE_ALIGN_UP_spec (baddr + bsize * 8)) by dlia.
  rewrite (sub64_small _ mem_start) by dlia.
  remember (((baddr + bsize * 8 + 4095) / 4096 * 4096 - mem_start) / 4096) as res eqn:Eres.
  destruct (bitmap_set_run_spec bm1 0 (Z.to_nat res)) as (bm2 & -> & Hok2 & Hl2 & Hb2);
    [done|done|unfold nbits; dlia|]. simpl.
  rewrite (add64_small mem_start) by lia.
  eexists. split; [done|].
  set (p := mk_pmm bm2 baddr bsize total res res mem_start (mem_start + mem_size)).
  assert (0 ≤ res ≤ total) as Hres by dlia.
  assert (∀ n, 0 ≤ n < 64 * bsize → bit_at bm2 n = bool_decide (n < res ∨ total ≤ n)) as Hbits.
  { intros n Hn. rewrite Hb2, Hb1 by lia.
    repeat (case_bool_decide; simpl); try done; lia. }
  assert (∀ n, 0 ≤ n < total → n ∈ used_set p ↔ n < res) as Hused.
  { intros n Hn. rewrite elem_of_used_set. simpl. rewrite Hbits by dlia.
    rewrite bool_decide_eq_true. lia. }
  assert (used_set p = list_to_set (seqZ 0 res)) as Hset.
  { apply set_eq. intros n. rewrite elem_of_list_to_set, elem_of_seqZ.
    destruct (decide (0 ≤ n < total)) as [Hn|Hn].
    - rewrite Hused by done. lia.
    - rewrite elem_of_used_set. simpl. lia. }
  split_and!; try done.
  - constructor; simpl; try done; try dlia.
    + intros n Hn. rewrite Hbits by lia. apply bool_decide_eq_true_2. lia.
    + intros n Hn. rewrite Hbits by dlia. apply bool_decide_eq_true_2. lia.
    + fold p. rewrite Hset, size_list_to_set by apply NoDup_seqZ. rewrite length_seqZ. lia.
    + unfold frame_addr, PAGE_SIZE. simpl. dlia.
  - simpl. rewrite PAGE_ALIGN_UP_spec by dlia. unfold frame_addr, PAGE_SIZE. simpl. dlia.
  - simpl. dlia.
Qed.

(** ** Sequences of operations *)

(** One call of the allocator's interface. *)
Inductive pmm_step : pmm → pmm → Prop :=
  | step_alloc p r p' : pmm_allocate_page p = Some (r, p') → pmm_step p p'
  | step_allocs p count r p' :
      0 ≤ count → pmm_allocate_pages p count = Some (r, p') → pmm_step p p'
  | step_free p addr p' : pmm_free_page p addr = Some p' → pmm_step p p'
  | step_frees p addr count p' : pmm_free_pages p addr count = Some p' → pmm_step p p'
  | step_relocate p : pmm_step p (pmm_relocate_upper p).

Lemma free_page_wf p addr :
  pmm_wf p → ∃ p', pmm_free_page p addr = Some p' ∧ pmm_wf p' ∧ same_config p p'.
Proof.
  intros Hwf. destruct (releasable_dec p addr Hwf) as [[n Hn]|Hno].
  - destruct (free_page_hit p addr n Hwf Hn) as (p' & ? & _ & _ & ? & ? & _). eauto.
  - exists p. split_and!; [by apply free_page_miss|done|done].
Qed.

Lemma free_pages_from_wf p addr i n :
  pmm_wf p → ∃ p', free_pages_from p addr i n = Some p' ∧ pmm_wf p' ∧ same_config p p'.
Proof.
  revert p i. induction n as [|n IH]; intros p i Hwf; cbn [free_pages_from].
  - exists p. done.
  - destruct (free_page_wf p (addr +w i *w PAGE_SIZE) Hwf) as (p1 & -> & Hwf1 & Hc1). simpl.
    destruct (IH p1 (i + 1) Hwf1) as (p2 & ? & ? & ?). exists p2.
    split_and!; [done..|]. by transitivity p1.
Qed.

Lemma allocate_pages_wf p count r p' :
  pmm_wf p → 0 ≤ count → pmm_allocate_pages p count = Some (r, p') →
  pmm_wf p' ∧ same_config p p'.
Proof.
  intros Hwf Hc E. destruct (decide (2 ≤ count)) as [H2|H2].
  - destruct (allocate_pages_cases p count Hwf H2) as (? & ? & E' & [[s Hs]|(?&?&?)]);
      simplify_eq; [|done]. destruct Hs as (_&_&_&_&_&_&_&?&?). done.
  - unfold pmm_allocate_pages in E. case_decide; [by simplify_eq|].
    rewrite decide_True in E by lia.
    destruct (allocate_page_cases p Hwf) as (? & ? & E' & [[n Hn]|(?&?&?)]);
      simplify_eq; [|done]. destruct Hn as (_&_&_&_&_&_&?&?&_). done.
Qed.

Lemma pmm_step_wf p p' : pmm_wf p → pmm_step p p' → pmm_wf p'.
Proof.
  intros Hwf Hs. inversion Hs; subst.
  - destruct (allocate_page_cases p Hwf) as (? & ? & E' & [[n Hn]|(?&?&?)]);
      simplify_eq; [|done]. by destruct Hn as (_&_&_&_&_&_&?&_).
  - by eapply allocate_pages_wf.
  - destruct (free_page_wf p addr Hwf) as (? & ? & ? & _). by simplify_eq.
  - destruct (free_pages_from_wf p addr 0 (Z.to_nat count) Hwf) as (? & ? & ? & _).
    unfold pmm_free_pages in *. by simplify_eq.
  - destruct Hwf. by constructor.
Qed.

Lemma pmm_step_config p p' :
  pmm_wf p → pmm_step p p' →
  total_pages p' = total_pages p ∧ reserved_pages p' = reserved_pages p ∧
  mem_region_start p' = mem_region_start p.
Proof.
  assert (∀ q q', same_config q q' → total_pages q' = total_pages q ∧
    reserved_pages q' = reserved_pages q ∧ mem_region_start q' = mem_region_start q) as Hsame.
  { intros q q' ->. done. }
  intros Hwf Hs. inversion Hs; subst; [..|done]; apply Hsame.
  - destruct (allocate_page_cases p Hwf) as (? & ? & E' & [[n Hn]|(?&?&?)]);
      simplify_eq; [|done]. by destruct Hn as (_&_&_&_&_&_&_&?&_).
  - by eapply allocate_pages_wf.
  - destruct (free_page_wf p addr Hwf) as (? & ? & ? & ?). by simplify_eq.
  - destruct (free_pages_from_wf p addr 0 (Z.to_nat count) Hwf) as (? & ? & ? & ?).
    unfold pmm_free_pages in *. by simplify_eq.
Qed.

(** A well-formed state is determined by its configuration and its bits. *)
Lemma pmm_ext p q :
  pmm_wf p → pmm_wf q → same_config p q →
  (∀ m, 0 ≤ m → bit_at (bitmap q) m = bit_at (bitmap p) m) → q = p.
Proof.
  intros Hp Hq Hc Hb. pose proof Hp as []. pose proof Hq as [].
  assert (bitmap_size q = bitmap_size p) as Hs by (by rewrite Hc).
  assert (total_pages q = total_pages p) as Ht by (by rewrite Hc).
  assert (bitmap q = bitmap p) as Hbm by (apply bitmap_ext; [done..|lia|done]).
  assert (used_set q = used_set p) as Hu by (unfold used_set; by rewrite Hbm, Ht).
  rewrite Hc, Hbm, wf_used1, Hu, <- wf_used0. by destruct p.
Qed.

Lemma free_above_reserved p n :
  pmm_wf p → 0 ≤ n < total_pages p → n ∉ used_set p → reserved_pages p ≤ n.
Proof.
  intros [] Hn Hfree. destruct (decide (n < reserved_pages p)); [|lia].
  exfalso. apply Hfree, elem_of_used_set. split; [done|]. apply wf_resbits0. lia.
Qed.

(** A small concrete machine for the examples: 200 frames at 1 GiB. *)
Definition demo_pmm : pmm :=
  from_option id (mk_pmm [] 0 0 0 0 0 0 0) (pmm_init 0x40000000 (200 * 4096) 0x40001800).

Lemma demo_layout : layout_ok 0x40000000 (200 * 4096) 0x40001800.
Proof. unfold layout_ok, PAGE_SIZE. split_and!; try done; vm_compute; done. Qed.

Lemma demo_pmm_wf : pmm_wf demo_pmm.
Proof.
  unfold demo_pmm. destruct (pmm_init_ok _ _ _ demo_layout) as (p & -> & Hwf & _). done.
Qed.

(** ** Properties *)

(** [pmm_init] never writes outside the bitmap and establishes the
    allocator's invariant: the frames below [reserved_pages] (exactly those
    that hold the kernel image and the bitmap itself) are taken, every other
    existing frame is free, and the counters agree with the bitmap. *)
Theorem pmm_init_establishes mem_start mem_size kernel_end :
  layout_ok mem_start mem_size kernel_end →
  ∃ p, pmm_init mem_start mem_size kernel_end = Some p ∧ pmm_wf p ∧
    total_pages p = mem_size / PAGE_SIZE ∧ used_pages p = reserved_pages p ∧
    frame_addr p (reserved_pages p) = PAGE_ALIGN_UP (bitmap_addr p + 8 * bitmap_size p) ∧
    kernel_end ≤ bitmap_addr p ∧
    ∀ n, 0 ≤ n < total_pages p → n ∈ used_set p ↔ n < reserved_pages p.
Proof. intros H. destruct (pmm_init_ok _ _ _ H) as (p&?&?&?&?&_&?&?&?). eauto 10. Qed.

Lemma pmm_init_establishes_witness :
  layout_ok 0x40000000 (200 * 4096) 0x40001800 ∧
  ∃ p, pmm_init 0x40000000 (200 * 4096) 0x40001800 = Some p ∧ reserved_pages p = 3.
Proof.
  split; [apply demo_layout|].
  destruct (pmm_init_establishes _ _ _ demo_layout) as (p & E & _).
  exists p. split; [exact E|]. vm_compute in E. by inversion E.
Defined.

(** [pmm_allocate_page] implements "take the lowest free frame": on a
    well-formed state it always returns; it hands out the address of the
    smallest frame that is not in use and marks exactly that frame, or, when
    every frame is in use, returns 0 and changes nothing. *)
Theorem pmm_allocate_page_correct p :
  pmm_wf p →
  ∃ r p', pmm_allocate_page p = Some (r, p') ∧
    ((∃ n, page_taken p p' r n) ∨
     (r = 0 ∧ p' = p ∧ ∀ n, 0 ≤ n < total_pages p → n ∈ used_set p)).
Proof. apply allocate_page_cases. Qed.

Lemma pmm_allocate_page_correct_witness :
  pmm_wf demo_pmm ∧ ∃ r p', pmm_allocate_page demo_pmm = Some (r, p') ∧ r = 0x40003000.
Proof.
  split; [apply demo_pmm_wf|].
  destruct (pmm_allocate_page_correct demo_pmm demo_pmm_wf) as (r & p' & E & _).
  exists r, p'. split; [exact E|]. vm_compute in E. by inversion E.
Defined.

(** [pmm_allocate_pages] for two or more pages is first fit: it returns
    the lowest run of [count] consecutive free frames above the reserved area
    and marks exactly that run; it returns 0, changing nothing, only when no
    such run exists. *)
Theorem pmm_allocate_pages_first_fit p count :
  pmm_wf p → 2 ≤ count →
  ∃ r p', pmm_allocate_pages p count = Some (r, p') ∧
    ((∃ s, run_taken p p' r s count) ∨
     (r = 0 ∧ p' = p ∧
      ∀ s, reserved_pages p ≤ s → s + count ≤ total_pages p → ¬ free_run p s count)).
Proof. apply allocate_pages_cases. Qed.

Lemma pmm_allocate_pages_first_fit_witness :
  pmm_wf demo_pmm ∧ 2 ≤ 64 ∧
  ∃ r p', pmm_allocate_pages demo_pmm 64 = Some (r, p') ∧ used_pages p' = 67.
Proof.
  split; [apply demo_pmm_wf|]. split; [done|].
  destruct (pmm_allocate_pages_first_fit demo_pmm 64 demo_pmm_wf ltac:(done))
    as (r & p' & E & _).
  exists r, p'. split; [exact E|]. vm_compute in E. by inversion E.
Defined.

(** [pmm_free_page] releases the frame at [phys_addr] exactly when the
    address is the address of a taken, non-reserved frame; any other address
    (outside the region, unaligned, reserved, or already free) leaves the
    whole state unchanged. *)
Theorem pmm_free_page_correct p addr :
  pmm_wf p →
  ∃ p', pmm_free_page p addr = Some p' ∧ pmm_wf p' ∧
    ((∃ n, releasable p addr n ∧ used_set p' = used_set p ∖ {[n]} ∧
           used_pages p' = used_pages p - 1) ∨
     ((∀ n, ¬ releasable p addr n) ∧ p' = p)).
Proof.
  intros Hwf. destruct (releasable_dec p addr Hwf) as [[n Hn]|Hno].
  - destruct (free_page_hit p addr n Hwf Hn) as (p' & ? & ? & ? & ? & _ & _).
    exists p'. split_and!; [done..|]. left. eauto.
  - exists p. split_and!; [by apply free_page_miss|done|by right].
Qed.

Lemma pmm_free_page_correct_witness :
  pmm_wf demo_pmm ∧ pmm_free_page demo_pmm 0x40001000 = Some demo_pmm.
Proof.
  split; [apply demo_pmm_wf|].
  destruct (pmm_free_page_correct demo_pmm 0x40001000 demo_pmm_wf) as (p' & E & _).
  rewrite E. vm_compute in E. by inversion E.
Defined.

(** Round trip: a page that was just allocated can be freed, which
    restores the state bit for bit, and freeing it a second time is refused. *)
Theorem pmm_alloc_free_roundtrip p r p' :
  pmm_wf p → pmm_allocate_page p = Some (r, p') → r ≠ 0 →
  pmm_free_page p' r = Some p ∧ pmm_free_page p r = Some p.
Proof.
  intros Hwf E Hr.
  destruct (allocate_page_cases p Hwf) as (? & ? & E' & [[n Hn]|(?&?&?)]); simplify_eq.
  destruct Hn as (Hn & Hfree & Hmin & -> & Hset & Hup & Hwf' & Hc & Hb).
  pose proof (free_above_reserved p n Hwf Hn Hfree) as Hres.
  destruct (free_page_hit p' (frame_addr p n) n Hwf') as (p2 & E2 & _ & _ & Hwf2 & Hc2 & Hb2).
  { split; [rewrite Hc; simpl; lia|]. split; [by rewrite Hc|]. rewrite Hset. set_solver. }
  split.
  - rewrite E2. f_equal. apply pmm_ext; [done..|by transitivity p'|].
    intros m Hm. rewrite Hb2, Hb by done. destruct (decide (m = n)) as [->|].
    + rewrite bool_decide_eq_true_2 by done. symmetry. by apply not_elem_of_used_set.
    + by rewrite bool_decide_eq_false_2.
  - apply free_page_miss; [done|]. intros m (? & Hm & Hu).
    assert (m = n) as -> by (unfold frame_addr, PAGE_SIZE in Hm; lia). done.
Qed.

Lemma pmm_alloc_free_roundtrip_witness :
  pmm_wf demo_pmm ∧ ∃ p', pmm_allocate_page demo_pmm = Some (0x40003000, p') ∧
  pmm_free_page p' 0x40003000 = Some demo_pmm.
Proof.
  split; [apply demo_pmm_wf|].
  destruct (pmm_allocate_page demo_pmm) as [[r p']|] eqn:E; [|by vm_compute in E].
  assert (r = 0x40003000) as -> by (vm_compute in E; by inversion E).
  exists p'. split; [done|].
  apply (pmm_alloc_free_roundtrip demo_pmm 0x40003000 p' demo_pmm_wf E ltac:(done)).
Defined.

(** C14. Whatever the kernel calls, in whatever order, starting from
    [pmm_init]: every reachable state satisfies the invariant, so [used_pages]
    is the exact number of taken frames and the reserved frames (kernel image
    and bitmap) are never free. *)
Theorem pmm_reachable_wf mem_start mem_size kernel_end p0 p :
  layout_ok mem_start mem_size kernel_end →
  pmm_init mem_start mem_size kernel_end = Some p0 → rtc pmm_step p0 p →
  pmm_wf p ∧ used_pages p = Z.of_nat (size (used_set p)) ∧
  ∀ n, 0 ≤ n < reserved_pages p0 → n ∈ used_set p.
Proof.
  intros Hl E Hs. destruct (pmm_init_ok _ _ _ Hl) as (p1 & E1 & Hwf & _).
  simplify_eq. assert (pmm_wf p ∧ reserved_pages p = reserved_pages p0) as [Hp Hr].
  { clear E. induction Hs as [q|q q' q'' Hq Hqs IH]; [done|].
    pose proof (pmm_step_config _ _ Hwf Hq). destruct (IH (pmm_step_wf _ _ Hwf Hq)).
    split; [done|]. destruct_and!. congruence. }
  split; [done|]. split; [apply Hp|]. intros n Hn. apply elem_of_used_set.
  destruct Hp. split; [lia|]. apply wf_resbits0. lia.
Qed.

Lemma pmm_reachable_wf_witness :
  ∃ p, rtc pmm_step demo_pmm p ∧ used_pages p = 4 ∧ pmm_wf p.
Proof.
  destruct (pmm_allocate_page demo_pmm) as [[r p']|] eqn:E; [|by vm_compute in E].
  exists p'. assert (rtc pmm_step demo_pmm p') as Hs by (eapply rtc_once, step_alloc, E).
  split; [exact Hs|]. split; [vm_compute in E; by inversion E|].
  eapply (pmm_reachable_wf _ _ _ demo_pmm p' demo_layout); [vm_compute; done|exact Hs].
Defined.
