(* ===== verification/PageAlloc.v ===== *)
(** The page-frame interface.

    [PageAllocator] is what the physical memory manager promises to the
    components that take pages from it (the kernel heap, the VMA layer, the
    page tables): the set [pa_frames] of the page addresses that are out, and
    how every operation changes it.  The clients' theorems are proved against
    this class; [pmm_page_allocator] discharges it for the code of pmm.c. *)
From S2P Require Import Prelude Pmm.

(** The addresses of [n] consecutive pages at [a]. *)
Definition pages_at (a n : Z) : gset Z := list_to_set ((λ i, a + i * PAGE_SIZE) <$> seqZ 0 n).

Lemma elem_of_pages_at a n x :
  x ∈ pages_at a n ↔ ∃ i, 0 ≤ i < n ∧ x = a + i * PAGE_SIZE.
Proof.
  unfold pages_at. rewrite elem_of_list_to_set, list_elem_of_fmap.
  setoid_rewrite elem_of_seqZ. naive_solver lia.
Qed.

(** [mmu_init] programs a 40-bit physical address space (TCR_EL1.IPS), so the
    kernel alias of a physical address never wraps. *)
Definition PHYS_LIMIT : Z := 2 ^ 40.

(** A source of single pages is all that building page tables needs. *)
Class PageSource (S : Type) := {
  pa_inv : S → Prop;
  pa_frames : S → gset Z;
  pa_alloc_page : S → option (Z * S);
  pa_frames_page s a :
    pa_inv s → a ∈ pa_frames s → 0 < a ∧ a mod PAGE_SIZE = 0 ∧ a + PAGE_SIZE ≤ PHYS_LIMIT;
  pa_alloc_page_ok s :
    pa_inv s → ∃ r s', pa_alloc_page s = Some (r, s') ∧ pa_inv s' ∧
      ((r = 0 ∧ s' = s) ∨ (r ∉ pa_frames s) ∧ pa_frames s' = {[r]} ∪ pa_frames s);
}.

Class PageAllocator (S : Type) := {
  #[global] pa_source :: PageSource S;
  pa_alloc_pages : S → Z → option (Z * S);
  pa_free_page : S → Z → option S;
  pa_free_pages : S → Z → Z → option S;
  pa_alloc_pages_ok s n :
    pa_inv s → 0 < n → ∃ r s', pa_alloc_pages s n = Some (r, s') ∧ pa_inv s' ∧
      ((r = 0 ∧ s' = s) ∨
       (pages_at r n ## pa_frames s) ∧ pa_frames s' = pages_at r n ∪ pa_frames s);
  pa_alloc_pages_0 s : pa_alloc_pages s 0 = Some (0, s);
  pa_alloc_pages_none s n :
    pa_inv s → pa_alloc_page s = Some (0, s) → 0 < n → pa_alloc_pages s n = Some (0, s);
  pa_free_page_ok s a :
    pa_inv s → ∃ s', pa_free_page s a = Some s' ∧ pa_inv s' ∧
      pa_frames s' = pa_frames s ∖ {[a]} ∧ (a ∉ pa_frames s → s' = s);
  pa_free_pages_ok s a n :
    pa_inv s → 0 ≤ a → a + n * PAGE_SIZE ≤ PHYS_LIMIT →
    ∃ s', pa_free_pages s a n = Some s' ∧ pa_inv s' ∧ pa_frames s' = pa_frames s ∖ pages_at a n;
}.

(** ** pmm.c implements the interface *)

(** The pages that can be given back: every taken frame above the reserved ones. *)
Definition pmm_frames (p : pmm) : gset Z :=
  set_map (frame_addr p) (filter (λ n, reserved_pages p ≤ n) (used_set p)).

Definition pmm_inv (p : pmm) : Prop := pmm_wf p ∧ mem_region_end p ≤ PHYS_LIMIT.

Lemma elem_of_pmm_frames p a : a ∈ pmm_frames p ↔ ∃ n, releasable p a n.
Proof.
  unfold pmm_frames, releasable. rewrite elem_of_map. split.
  - intros (n & -> & [Hr Hu]%elem_of_filter). exists n. pose proof Hu as Hu'.
    apply elem_of_used_set in Hu'. split_and!; try done; lia.
  - intros (n & ? & -> & ?). exists n. split; [done|]. apply elem_of_filter. split; [lia|done].
Qed.

Lemma frame_addr_inj p m n : frame_addr p m = frame_addr p n → m = n.
Proof. unfold frame_addr, PAGE_SIZE. lia. Qed.

Lemma releasable_unique p a m n : releasable p a m → releasable p a n → m = n.
Proof. intros (_ & -> & _) (_ & E & _). by eapply frame_addr_inj. Qed.

(** How [pmm_frames] follows [used_set]. *)
Lemma frames_union p p' (ns : gset Z) :
  same_config p p' → used_set p' = ns ∪ used_set p →
  (∀ n, n ∈ ns → reserved_pages p ≤ n) →
  pmm_frames p' = set_map (frame_addr p) ns ∪ pmm_frames p.
Proof.
  intros Hc Hu Hns. unfold pmm_frames. rewrite Hu.
  assert (frame_addr p' = frame_addr p) as -> by (by rewrite Hc).
  assert (reserved_pages p' = reserved_pages p) as -> by (by rewrite Hc).
  apply set_eq. intros a. rewrite elem_of_union, !elem_of_map.
  setoid_rewrite elem_of_filter. setoid_rewrite elem_of_union. naive_solver.
Qed.

Lemma pmm_inv_config p p' : pmm_inv p → pmm_wf p' → same_config p p' → pmm_inv p'.
Proof. intros [_ ?] Hwf Hc. split; [done|]. by rewrite Hc. Qed.

Lemma alloc_one_frames p n p' r :
  pmm_inv p → page_taken p p' r n →
  pmm_inv p' ∧ (r ∉ pmm_frames p) ∧ pmm_frames p' = {[r]} ∪ pmm_frames p.
Proof.
  intros Hi (Hn & Hfree & _ & -> & Hu & _ & Hwf' & Hc & _). split_and!.
  - by eapply pmm_inv_config.
  - rewrite elem_of_pmm_frames. intros (m & Hm & Em & Hin).
    apply frame_addr_inj in Em as ->. done.
  - rewrite (frames_union p p' {[n]}), set_map_singleton_L; [done..|].
    intros m Hm. apply elem_of_singleton in Hm as ->.
    by apply free_above_reserved; [apply Hi|..].
Qed.

Lemma alloc_run_frames p s count p' r :
  pmm_inv p → run_taken p p' r s count →
  pmm_inv p' ∧ (pages_at r count ## pmm_frames p) ∧
  pmm_frames p' = pages_at r count ∪ pmm_frames p.
Proof.
  intros Hi (Hlo & Hhi & Hfree & _ & -> & Hu & _ & Hwf' & Hc).
  assert (pages_at (frame_addr p s) count =
    set_map (frame_addr p) (list_to_set (seqZ s count) : gset Z)) as Hp.
  { apply set_eq. intros x. rewrite elem_of_pages_at, elem_of_map.
    setoid_rewrite elem_of_list_to_set. setoid_rewrite elem_of_seqZ.
    unfold frame_addr. split.
    - intros (i & ? & ->). exists (s + i). lia.
    - intros (m & -> & ?). exists (m - s). lia. }
  split_and!.
  - by eapply pmm_inv_config.
  - intros x Hx. rewrite elem_of_pmm_frames. intros (m & Hm & Em & Hin).
    apply elem_of_pages_at in Hx as (i & Hi' & Ex). subst x.
    assert (m = s + i) as -> by (unfold frame_addr, PAGE_SIZE in Em; lia).
    eapply (Hfree (s + i)); [lia|done].
  - rewrite Hp. apply frames_union; [done..|].
    intros m Hm. apply elem_of_list_to_set, elem_of_seqZ in Hm. lia.
Qed.

Lemma pmm_free_page_frames p a :
  pmm_inv p → ∃ p', pmm_free_page p a = Some p' ∧ pmm_inv p' ∧
    pmm_frames p' = pmm_frames p ∖ {[a]} ∧ (a ∉ pmm_frames p → p' = p).
Proof.
  intros Hi. pose proof Hi as [Hwf _]. destruct (releasable_dec p a Hwf) as [[n Hn]|Hno].
  - destruct (free_page_hit p a n Hwf Hn) as (p' & ? & Hu & _ & Hwf' & Hc & _).
    exists p'. split_and!; [done|by eapply pmm_inv_config| |].
    + apply set_eq. intros x. rewrite elem_of_difference, !elem_of_pmm_frames, elem_of_singleton.
      assert (∀ m, releasable p' x m ↔ releasable p x m ∧ m ≠ n) as Hrel.
      { intros m. unfold releasable. rewrite Hu, Hc. simpl. set_solver. }
      setoid_rewrite Hrel. split.
      * intros (m & Hm & Hne). split; [eauto|]. intros ->. by eapply Hne, releasable_unique.
      * intros [[m Hm] Hne]. exists m. split; [done|]. intros ->. apply Hne.
        destruct Hm as (_ & -> & _), Hn as (_ & -> & _). done.
    + intros Hx. exfalso. apply Hx, elem_of_pmm_frames. eauto.
  - exists p. split_and!; [by apply free_page_miss|done| |done].
    apply set_eq. intros x. rewrite elem_of_difference, elem_of_singleton.
    split; [|tauto]. intros Hx. split; [done|]. intros ->.
    apply elem_of_pmm_frames in Hx as [n Hn]. by eapply Hno.
Qed.

Lemma pmm_free_pages_frames p a i n :
  pmm_inv p → 0 ≤ a → 0 ≤ i → a + (i + Z.of_nat n) * PAGE_SIZE ≤ PHYS_LIMIT →
  ∃ p', free_pages_from p a i n = Some p' ∧ pmm_inv p' ∧
    pmm_frames p' = pmm_frames p ∖ pages_at (a + i * PAGE_SIZE) (Z.of_nat n).
Proof.
  revert p i. induction n as [|n IH]; intros p i Hi Ha Hi0 Hlim; cbn [free_pages_from].
  - exists p. split_and!; [done..|]. apply set_eq. intros x.
    rewrite elem_of_difference, elem_of_pages_at. naive_solver lia.
  - unfold PHYS_LIMIT in *.
    assert (a +w i *w PAGE_SIZE = a + i * PAGE_SIZE) as ->
      by (unfold PAGE_SIZE in *; cint; lia).
    destruct (pmm_free_page_frames p (a + i * PAGE_SIZE) Hi) as (p1 & -> & Hi1 & Hf1 & _). simpl.
    destruct (IH p1 (i + 1)) as (p2 & E & Hi2 & Hf2); [done|lia..|].
    exists p2. split_and!; [done..|]. rewrite Hf2, Hf1. apply set_eq. intros x.
    rewrite !elem_of_difference, !elem_of_pages_at, elem_of_singleton. split.
    + intros [[Hx Hne] Hno]. split; [done|]. intros (k & Hk & Ek).
      destruct (decide (k = 0)) as [->|]; [apply Hne; lia|].
      apply Hno. exists (k - 1). lia.
    + intros [Hx Hno]. split_and!; [done| |].
      * intros ->. apply Hno. exists 0. lia.
      * intros (k & Hk & Ek). apply Hno. exists (k + 1). lia.
Qed.

#[local] Program Instance pmm_page_source : PageSource pmm := {|
  pa_inv := pmm_inv;
  pa_frames := pmm_frames;
  pa_alloc_page := pmm_allocate_page;
|}.
Next Obligation.
  intros p a [Hwf Hlim] Ha. apply elem_of_pmm_frames in Ha as (n & Hn & -> & _).
  pose proof Hwf as []. unfold frame_addr, PAGE_SIZE in *. split_and!; [lia|dlia|lia].
Qed.
Next Obligation.
  intros p Hi. destruct (allocate_page_cases p) as (r & p' & ? & [[n Hn]|(-> & -> & _)]);
    [apply Hi|..]; eexists _, _; (split; [done|]).
  - destruct (alloc_one_frames p n p' r) as (? & ? & ?); [done..|]. eauto.
  - eauto.
Qed.

#[export] Program Instance pmm_page_allocator : PageAllocator pmm := {|
  pa_source := pmm_page_source;
  pa_alloc_pages := pmm_allocate_pages;
  pa_free_page := pmm_free_page;
  pa_free_pages := pmm_free_pages;
|}.
Next Obligation.
  intros p n Hi Hn. destruct (decide (2 ≤ n)) as [H2|H2].
  - destruct (allocate_pages_cases p n) as (r & p' & ? & [[s Hs]|(-> & -> & _)]);
      [apply Hi|done|..]; eexists _, _; (split; [done|]).
    + destruct (alloc_run_frames p s n p' r) as (? & ? & ?); [done..|]. eauto.
    + eauto.
  - assert (n = 1) as -> by lia. unfold pmm_allocate_pages.
    rewrite decide_False, decide_True by done.
    destruct (allocate_page_cases p) as (r & p' & ? & [[n Hn']|(-> & -> & _)]);
      [apply Hi|..]; eexists _, _; (split; [done|]); [|by eauto].
    cbn [pa_frames pmm_page_source]. destruct (alloc_one_frames p n p' r) as (? & ? & ->); [done..|].
    assert (pages_at r 1 = {[r]}) as ->.
    { apply set_eq. intros x. rewrite elem_of_pages_at, elem_of_singleton. split.
      - intros (i & ? & ->). assert (i = 0) as -> by lia. lia.
      - intros ->. exists 0. lia. }
    split; [done|]. right. split; [set_solver|done].
Qed.
Next Obligation. done. Qed.
Next Obligation.
  intros p n [Hwf _] E Hn. cbn [pa_alloc_page pmm_page_source] in E.
  assert (∀ m, 0 ≤ m < total_pages p → m ∈ used_set p) as Hall.
  { destruct (allocate_page_cases p Hwf) as (r & p' & E' & Hc). rewrite E in E'. injection E' as <- <-.
    destruct Hc as [[m (_ & Hm & _ & _ & Hu & _)]|(_ & _ & ?)]; [exfalso; apply Hm; rewrite Hu; set_solver|done]. }
  destruct (decide (n = 1)) as [->|]; [unfold pmm_allocate_pages; by rewrite decide_False, decide_True by done|].
  destruct (allocate_pages_cases p n Hwf) as (r & p' & -> & [[s (Hlo & Hhi & Hfree & _)]|(-> & -> & _)]); [lia| |done].
  exfalso. pose proof Hwf as []. apply (Hfree s); [lia|]. apply Hall. lia.
Qed.
Next Obligation. apply pmm_free_page_frames. Qed.
Next Obligation.
  intros p a n Hi Ha Hlim. unfold pmm_free_pages.
  destruct (decide (0 ≤ n)) as [H0|H0].
  - destruct (pmm_free_pages_frames p a 0 (Z.to_nat n)) as (p' & ? & ? & Hf); [done..|by rewrite Z2Nat.id|].
    exists p'. split_and!; [done..|]. cbn [pa_frames pmm_page_source]. rewrite Hf, Z2Nat.id by done. f_equal. f_equal. lia.
  - replace (Z.to_nat n) with 0%nat by lia. exists p. split_and!; [done..|].
    apply set_eq. intros x. rewrite elem_of_difference, elem_of_pages_at. naive_solver lia.
Qed.

(** ** A concrete allocator: 1000 pages of RAM at 0x40000000 *)

Definition demo_pages : pmm :=
  from_option id (mk_pmm [] 0 0 0 0 0 0 0) (pmm_init 0x40000000 (1000 * 4096) 0x40001800).

Lemma demo_pages_inv : @pa_inv pmm (@pa_source pmm pmm_page_allocator) demo_pages.
Proof.
  split; [|vm_compute; discriminate]. unfold demo_pages.
  destruct (pmm_init_ok 0x40000000 (1000 * 4096) 0x40001800) as (p & -> & Hwf & _); [|done].
  unfold layout_ok, PAGE_SIZE. split_and!; try done; vm_compute; done.
Qed.
