(* ===== verification/Heap.v ===== *)
(** Kernel heap: [src/src/mm/heap/heap.c] and [heap.h].

    The block list is modelled as the code has it: headers in memory linked by
    [next] pointers.  [hdrs] is the header-typed view of memory; an address
    that was never written reads as zeroes, since [heap_init] and
    [heap_expand] clear every region they add.  The pointer walks take fuel,
    one unit per header in memory, and [None] means a NULL dereference or an
    endless list; the theorems show that neither happens.

    The specification level is the list of blocks [l : list blk] in list
    order; [heap_wf h l] says that memory represents [l] and that the blocks
    tile the regions without overlap.  Pages come from the [PageAllocator]
    interface. *)
From S2P Require Import Prelude Pmm PageAlloc.

Definition HEAP_INITIAL_PAGES : Z := 256.
Definition HEAP_MIN_BLOCK_SIZE : Z := 32.
Definition HEAP_ALIGN : Z := 16.
Definition HEAP_ALIGN_UP (x : Z) : Z := Z.land (x +w HEAP_ALIGN -w 1) (not64 (HEAP_ALIGN - 1)).
Definition BLOCK_MAGIC_ALLOC : Z := 0xA110CED.
Definition BLOCK_MAGIC_FREE : Z := 0xFEEDF1EE.
Definition SIZE_MAX : Z := 2 ^ 64 - 1.
Definition HEAP_MAX_REGIONS : nat := 16.
Definition HEAP_EXPAND_MIN_PAGES : Z := 64.

Record block_header := mk_hdr {
  bh_size : Z;
  bh_magic : Z;
  bh_is_free : Z;
  bh_next : Z;
}.

(** [sizeof(block_header_t)] is 24: an 8-byte size, two 32-bit words, a pointer. *)
Definition BLOCK_HEADER_SIZE : Z := HEAP_ALIGN_UP 24.

Definition zero_header : block_header := mk_hdr 0 0 0 0.

Definition hdr_at (m : gmap Z block_header) (a : Z) : block_header := default zero_header (m !! a).

(** [memset((void * )va, 0, n)] on the header view. *)
Definition mem_zero (m : gmap Z block_header) (va n : Z) : gmap Z block_header :=
  filter (λ '(a, _), ¬ (va ≤ a < va + n)) m.

Record heap (S : Type) := mk_heap {
  heap_head : Z;
  hdrs : gmap Z block_header;
  regions : list (Z * Z);
  pages : S;
}.
Arguments mk_heap {S}.
Arguments heap_head {S}.
Arguments hdrs {S}.
Arguments regions {S}.
Arguments pages {S}.

Definition set_hdrs {S} (h : heap S) (m : gmap Z block_header) : heap S :=
  mk_heap (heap_head h) m (regions h) (pages h).

Definition register_region (rs : list (Z * Z)) (va bytes : Z) : option (list (Z * Z)) :=
  if decide (HEAP_MAX_REGIONS ≤ length rs)%nat then None else Some (rs ++ [(va, bytes)]).

Definition addr_in_any_region (rs : list (Z * Z)) (addr : Z) : bool :=
  existsb (λ '(va, n), bool_decide (va ≤ addr) && bool_decide (addr < va +w n)) rs.

(** ** Walks over the block list *)

Definition walk_fuel (m : gmap Z block_header) : nat := Datatypes.S (size m).

(** [tail = heap_head; while (tail->next) tail = tail->next;] *)
Fixpoint find_tail (m : gmap Z block_header) (cur : Z) (fuel : nat) : option Z :=
  match fuel with
  | O => None
  | Datatypes.S f =>
      if decide (cur = 0) then None
      else if decide (bh_next (hdr_at m cur) = 0) then Some cur
      else find_tail m (bh_next (hdr_at m cur)) f
  end.

(** The first-fit search of [kmalloc]; 0 is the end of the list. *)
Fixpoint find_fit (m : gmap Z block_header) (cur sz : Z) (fuel : nat) : option Z :=
  match fuel with
  | O => None
  | Datatypes.S f =>
      if decide (cur = 0) then Some 0
      else if decide (bh_is_free (hdr_at m cur) ≠ 0 ∧ sz ≤ bh_size (hdr_at m cur)) then Some cur
      else find_fit m (bh_next (hdr_at m cur)) sz f
  end.

(** The nested loops of [kfree]: stay on [cur] while it absorbs its
    successor, otherwise advance. *)
Definition absorbs (m : gmap Z block_header) (cur : Z) : Prop :=
  let b := hdr_at m cur in
  bh_is_free b ≠ 0 ∧ bh_next b ≠ 0 ∧ bh_is_free (hdr_at m (bh_next b)) ≠ 0 ∧
  cur +w BLOCK_HEADER_SIZE +w bh_size b = bh_next b.

#[export] Instance absorbs_dec m cur : Decision (absorbs m cur).
Proof. unfold absorbs. apply _. Defined.

Definition absorb (m : gmap Z block_header) (cur : Z) : gmap Z block_header :=
  let b := hdr_at m cur in
  let n := hdr_at m (bh_next b) in
  <[cur := mk_hdr (bh_size b +w (BLOCK_HEADER_SIZE +w bh_size n)) (bh_magic b) (bh_is_free b)
             (bh_next n)]> m.

Fixpoint coalesce (m : gmap Z block_header) (cur : Z) (fuel : nat) : option (gmap Z block_header) :=
  match fuel with
  | O => None
  | Datatypes.S f =>
      if decide (cur = 0) then Some m
      else if decide (absorbs m cur) then coalesce (absorb m cur) cur f
      else coalesce m (bh_next (hdr_at m cur)) f
  end.

(** [heap_used_bytes] / [heap_free_bytes]: the sum over the blocks whose
    [is_free] test is [want]. *)
Fixpoint sum_sizes (m : gmap Z block_header) (want : bool) (cur total : Z) (fuel : nat) : option Z :=
  match fuel with
  | O => None
  | Datatypes.S f =>
      if decide (cur = 0) then Some total
      else
        let b := hdr_at m cur in
        let total := if decide (bool_decide (bh_is_free b ≠ 0) = want)
                     then total +w bh_size b else total in
        sum_sizes m want (bh_next b) total f
  end.

Definition heap_used_bytes {S} (h : heap S) : option Z :=
  sum_sizes (hdrs h) false (heap_head h) 0 (walk_fuel (hdrs h)).
Definition heap_free_bytes {S} (h : heap S) : option Z :=
  sum_sizes (hdrs h) true (heap_head h) 0 (walk_fuel (hdrs h)).
Definition heap_total_bytes {S} (h : heap S) : Z :=
  foldl (λ total r, total +w r.2) 0 (regions h).

Section Ops.
Context {S : Type} `{!PageAllocator S}.

Definition heap_init (h : heap S) : option (heap S) :=
  '(phys, s) ← pa_alloc_pages (pages h) HEAP_INITIAL_PAGES;
  if decide (phys = 0) then Some (mk_heap (heap_head h) (hdrs h) (regions h) s)
  else
    let va := PHYS_TO_VIRT phys in
    let heap_size := HEAP_INITIAL_PAGES *w PAGE_SIZE in
    let m := <[va := mk_hdr (heap_size -w BLOCK_HEADER_SIZE) BLOCK_MAGIC_FREE 1 0]>
               (mem_zero (hdrs h) va heap_size) in
    Some (mk_heap va m (default (regions h) (register_region (regions h) va heap_size)) s).

(** Returns 0 or -1 with the new state. *)
Definition heap_expand (h : heap S) (need_bytes : Z) : option (Z * heap S) :=
  let bytes_required := need_bytes +w BLOCK_HEADER_SIZE in
  let pages0 := (bytes_required +w PAGE_SIZE -w 1) / PAGE_SIZE in
  let npages := if decide (pages0 < HEAP_EXPAND_MIN_PAGES) then HEAP_EXPAND_MIN_PAGES else pages0 in
  '(phys, s) ← pa_alloc_pages (pages h) npages;
  if decide (phys = 0) then Some (-1, mk_heap (heap_head h) (hdrs h) (regions h) s)
  else
    let va := PHYS_TO_VIRT phys in
    let bytes := npages *w PAGE_SIZE in
    let m1 := <[va := mk_hdr (bytes -w BLOCK_HEADER_SIZE) BLOCK_MAGIC_FREE 1 0]>
                (mem_zero (hdrs h) va bytes) in
    tail ← find_tail m1 (heap_head h) (walk_fuel m1);
    let t := hdr_at m1 tail in
    let m2 := <[tail := mk_hdr (bh_size t) (bh_magic t) (bh_is_free t) va]> m1 in
    match register_region (regions h) va bytes with
    | None =>
        let m3 := <[tail := mk_hdr (bh_size t) (bh_magic t) (bh_is_free t) 0]> m2 in
        s' ← pa_free_pages s phys npages;
        Some (-1, mk_heap (heap_head h) m3 (regions h) s')
    | Some rs => Some (0, mk_heap (heap_head h) m2 rs s)
    end.

(** The split-and-mark step of [kmalloc] on the block found. *)
Definition take_block (h : heap S) (current sz : Z) : Z * heap S :=
  let b := hdr_at (hdrs h) current in
  let remaining := bh_size b -w sz in
  let m :=
    if decide (BLOCK_HEADER_SIZE + HEAP_MIN_BLOCK_SIZE < remaining) then
      let new_block := current +w BLOCK_HEADER_SIZE +w sz in
      <[current := mk_hdr sz BLOCK_MAGIC_ALLOC 0 new_block]>
        (<[new_block := mk_hdr (remaining -w BLOCK_HEADER_SIZE) BLOCK_MAGIC_FREE 1 (bh_next b)]>
           (hdrs h))
    else <[current := mk_hdr (bh_size b) BLOCK_MAGIC_ALLOC 0 (bh_next b)]> (hdrs h) in
  (current +w BLOCK_HEADER_SIZE, set_hdrs h m).

(** [for (attempt = 0; attempt < 2; attempt++)] with [n] attempts left. *)
Fixpoint kmalloc_attempts (h : heap S) (sz : Z) (n : nat) : option (Z * heap S) :=
  match n with
  | O => Some (0, h)
  | Datatypes.S n' =>
      cur ← find_fit (hdrs h) (heap_head h) sz (walk_fuel (hdrs h));
      if decide (cur ≠ 0) then Some (take_block h cur sz)
      else
        '(rc, h') ← heap_expand h sz;
        if decide (rc ≠ 0) then Some (0, h') else kmalloc_attempts h' sz n'
  end.

Definition kmalloc (h : heap S) (sz : Z) : option (Z * heap S) :=
  if decide (sz = 0) then Some (0, h)
  else if decide (SIZE_MAX - (HEAP_ALIGN - 1) < sz) then Some (0, h)
  else kmalloc_attempts h (HEAP_ALIGN_UP sz) 2.

Definition kfree (h : heap S) (ptr : Z) : option (heap S) :=
  if decide (ptr = 0) then Some h
  else
    let block := ptr -w BLOCK_HEADER_SIZE in
    if negb (addr_in_any_region (regions h) block) then Some h
    else
      let b := hdr_at (hdrs h) block in
      if decide (bh_magic b ≠ BLOCK_MAGIC_ALLOC) then Some h
      else if decide (bh_is_free b ≠ 0) then Some h
      else
        let m := <[block := mk_hdr (bh_size b) BLOCK_MAGIC_FREE 1 (bh_next b)]> (hdrs h) in
        m' ← coalesce m (heap_head h) (walk_fuel m);
        Some (set_hdrs h m').

End Ops.

(** ** The block list *)

Record blk := mk_blk { b_addr : Z; b_size : Z; b_free : bool }.

Definition b_end (b : blk) : Z := b_addr b + 32 + b_size b.
Definition b_span (b : blk) : Z := 32 + b_size b.

(** The header the code keeps for a block: [magic] mirrors [is_free]. *)
Definition hdr_of (b : blk) (nx : Z) : block_header :=
  mk_hdr (b_size b) (if b_free b then BLOCK_MAGIC_FREE else BLOCK_MAGIC_ALLOC)
    (if b_free b then 1 else 0) nx.

(** [seg m a l z]: from pointer [a] the headers of [l] are linked in order, and
    the last one points to [z]. *)
Fixpoint seg (m : gmap Z block_header) (a : Z) (l : list blk) (z : Z) : Prop :=
  match l with
  | [] => a = z
  | b :: l' => a = b_addr b ∧ a ≠ 0 ∧ ∃ nx, m !! a = Some (hdr_of b nx) ∧ seg m nx l' z
  end.

Lemma seg_app m a l1 l2 z : seg m a (l1 ++ l2) z ↔ ∃ y, seg m a l1 y ∧ seg m y l2 z.
Proof.
  revert a. induction l1 as [|b l1 IH]; intros a; simpl.
  - split; [by eauto|]. by intros (y & -> & ?).
  - setoid_rewrite IH. naive_solver.
Qed.

Lemma seg_frame m m' a l z :
  (∀ b, b ∈ l → m' !! b_addr b = m !! b_addr b) → seg m a l z → seg m' a l z.
Proof.
  revert a. induction l as [|b l IH]; intros a Hf; simpl; [done|].
  intros (-> & ? & nx & Hm & Hs). split_and!; [done..|]. exists nx.
  split; [rewrite Hf; [done|by left]|]. apply IH; [|done]. intros c Hc. apply Hf. by right.
Qed.

Lemma seg_insert m a l z x v :
  (∀ b, b ∈ l → b_addr b ≠ x) → seg m a l z → seg (<[x := v]> m) a l z.
Proof. intros Hx. apply seg_frame. intros b Hb. rewrite lookup_insert_ne; [done|]. by apply not_eq_sym, Hx. Qed.

Lemma seg_lookup m a l z b : seg m a l z → b ∈ l → ∃ nx, m !! b_addr b = Some (hdr_of b nx).
Proof.
  revert a. induction l as [|c l IH]; intros a; simpl; [by intros _ ?%not_elem_of_nil|].
  intros (-> & _ & nx & Hm & Hs) [->|Hb]%elem_of_cons; eauto.
Qed.

Lemma hdr_at_Some m a b : m !! a = Some b → hdr_at m a = b.
Proof. unfold hdr_at. by intros ->. Qed.

Definition blk_disj (b c : blk) : Prop := b_end b ≤ b_addr c ∨ b_end c ≤ b_addr b.

Definition in_regions (rs : list (Z * Z)) (x : Z) : Prop :=
  ∃ r, r ∈ rs ∧ r.1 ≤ x < r.1 + r.2.

(** A block lies inside the regions, 16-aligned, with a non-empty payload. *)
Definition blk_ok (rs : list (Z * Z)) (b : blk) : Prop :=
  0 < b_addr b ∧ b_addr b mod 16 = 0 ∧ 0 < b_size b ∧ b_size b mod 16 = 0 ∧
  b_end b < 2 ^ 64 ∧ ∀ x, b_addr b ≤ x < b_end b → in_regions rs x.

Lemma blk_disj_sym b c : blk_disj b c → blk_disj c b.
Proof. unfold blk_disj. tauto. Qed.

Lemma disj_addr_ne b c : 0 < b_size b → 0 < b_size c → blk_disj b c → b_addr b ≠ b_addr c.
Proof. unfold blk_disj, b_end. lia. Qed.

(** Addresses inside one block are not addresses of the others. *)
Lemma disj_inside b c x :
  0 < b_size c → blk_disj b c → b_addr b ≤ x < b_end b → b_addr c ≠ x.
Proof. unfold blk_disj, b_end. lia. Qed.

Lemma pairwise_NoDup rs l : Forall (blk_ok rs) l → pairwise blk_disj l → NoDup (b_addr <$> l).
Proof.
  induction l as [|b l IH]; simpl; [constructor|]. intros [Hb Hl]%Forall_cons [Hd Hp].
  constructor; [|by apply IH]. intros (c & E & Hc)%list_elem_of_fmap.
  rewrite Forall_forall in Hl, Hd.
  eapply disj_addr_ne; [apply Hb|apply (Hl c Hc)|by apply Hd|done].
Qed.

(** A chain is no longer than the number of headers, so the walks' fuel suffices. *)
Lemma seg_length m a l z : seg m a l z → NoDup (b_addr <$> l) → (length l ≤ size m)%nat.
Proof.
  intros Hs Hnd. rewrite <- (length_fmap b_addr), <- size_dom.
  rewrite <- (size_list_to_set (C := gset Z) _ Hnd). apply subseteq_size.
  intros x [b [-> Hb]]%elem_of_list_to_set%list_elem_of_fmap.
  apply elem_of_dom. destruct (seg_lookup _ _ _ _ _ Hs Hb) as [nx ->]. eauto.
Qed.

(** ** The walks compute the list functions *)

Lemma is_free_of b nx : bh_is_free (hdr_of b nx) ≠ 0 ↔ b_free b = true.
Proof. simpl. destruct (b_free b); naive_solver. Qed.

Definition fits (sz : Z) (b : blk) : Prop := b_free b = true ∧ sz ≤ b_size b.

#[export] Instance fits_dec sz b : Decision (fits sz b).
Proof. unfold fits. apply _. Defined.

Lemma find_fit_spec m a l sz fuel :
  seg m a l 0 → (length l < fuel)%nat →
  find_fit m a sz fuel = Some (from_option (λ ib, b_addr ib.2) 0 (list_find (fits sz) l)).
Proof.
  revert a fuel. induction l as [|b l IH]; intros a fuel Hs Hf;
    destruct fuel as [|fuel]; simpl in *; try lia.
  - subst a. by rewrite decide_True.
  - destruct Hs as (-> & Hne & nx & Hm & Hs). rewrite decide_False by done.
    rewrite (hdr_at_Some _ _ _ Hm).
    rewrite (decide_ext _ (fits sz b)) by (unfold fits; by rewrite is_free_of).
    destruct (decide (fits sz b)); simpl; [done|].
    rewrite (IH nx) by (done || lia). by destruct (list_find _ l) as [[i c]|].
Qed.

Lemma find_tail_spec m a l b z fuel :
  seg m a (l ++ [b]) z → z = 0 → (length l < fuel)%nat → find_tail m a fuel = Some (b_addr b).
Proof.
  intros Hs ->. revert a fuel Hs. induction l as [|c l IH]; intros a fuel Hs Hf;
    destruct fuel as [|fuel]; simpl in *; try lia;
    destruct Hs as (-> & Hne & nx & Hm & Hs); rewrite decide_False by done;
    rewrite (hdr_at_Some _ _ _ Hm); simpl.
  - by rewrite decide_True.
  - rewrite decide_False; [apply IH; [done|lia]|].
    destruct l; simpl in Hs; by destruct Hs as (-> & ? & _).
Qed.

(** What coalescing does to the list: merge runs of contiguous free blocks. *)
Definition mergeable (b c : blk) : Prop :=
  b_free b = true ∧ b_free c = true ∧ b_end b = b_addr c.

#[export] Instance mergeable_dec b c : Decision (mergeable b c).
Proof. unfold mergeable. apply _. Defined.

Definition join (b c : blk) : blk := mk_blk (b_addr b) (b_size b + 32 + b_size c) true.

Fixpoint merge_from (b : blk) (l : list blk) : list blk :=
  match l with
  | [] => [b]
  | c :: l' => if decide (mergeable b c) then merge_from (join b c) l' else b :: merge_from c l'
  end.

Definition merge_list (l : list blk) : list blk :=
  match l with [] => [] | b :: l' => merge_from b l' end.

Lemma header_size : BLOCK_HEADER_SIZE = 32.
Proof. reflexivity. Qed.

Lemma absorbs_mergeable m b nx c nx' rs :
  m !! b_addr b = Some (hdr_of b nx) → blk_ok rs b →
  nx = b_addr c → nx ≠ 0 → m !! nx = Some (hdr_of c nx') →
  absorbs m (b_addr b) ↔ mergeable b c.
Proof.
  intros Hb Hok -> Hne Hc. unfold absorbs, mergeable. rewrite (hdr_at_Some _ _ _ Hb). simpl.
  rewrite (hdr_at_Some _ _ _ Hc), header_size. unfold blk_ok, b_end in *. destruct_and!.
  rewrite (add64_small (b_addr b) 32) by lia. rewrite add64_small by lia. simpl.
  destruct (b_free b), (b_free c); naive_solver.
Qed.

Lemma join_ok rs b c : blk_ok rs b → blk_ok rs c → mergeable b c → blk_ok rs (join b c).
Proof.
  intros (?&?&?&?&?&Hb) (?&?&?&?&?&Hc) (_ & _ & He). unfold blk_ok, b_end, join in *. simpl.
  do 3 (split; [done || lia|]). split; [dlia|]. split; [lia|]. intros x Hx.
  destruct (decide (x < b_addr b + 32 + b_size b)); [apply Hb|apply Hc]; lia.
Qed.

Lemma join_disj rs b c l :
  Forall (blk_ok rs) l → mergeable b c →
  Forall (blk_disj b) l → Forall (blk_disj c) l → Forall (blk_disj (join b c)) l.
Proof.
  intros Hl (_ & _ & He) Hb Hc. rewrite Forall_forall in *. intros d Hd.
  specialize (Hl d Hd). specialize (Hb d Hd). specialize (Hc d Hd).
  unfold blk_disj, blk_ok, b_end, join in *. simpl. lia.
Qed.

(** The merge loop refines [merge_from], and changes memory only at the
    addresses of the blocks it walks. *)
Lemma coalesce_spec rs l b m a fuel :
  seg m a (b :: l) 0 → Forall (blk_ok rs) (b :: l) → pairwise blk_disj (b :: l) →
  (S (length l) < fuel)%nat →
  ∃ m', coalesce m a fuel = Some m' ∧ seg m' a (merge_from b l) 0 ∧
    ∀ x, x ∉ b_addr <$> (b :: l) → m' !! x = m !! x.
Proof.
  revert b m a fuel. induction l as [|c l IH]; intros b m a fuel Hs Hok Hd Hf;
    (destruct fuel as [|fuel]; [simpl in *; lia|]); cbn [coalesce];
    destruct Hs as (-> & Hne & nx & Hm & Hs); rewrite decide_False by done.
  - simpl in Hs. subst nx. rewrite decide_False.
    2:{ unfold absorbs. rewrite (hdr_at_Some _ _ _ Hm). simpl. tauto. }
    rewrite (hdr_at_Some _ _ _ Hm). destruct fuel; [simpl in *; lia|]. simpl.
    exists m. split; [done|]. split; [|done]. eauto.
  - destruct Hs as (-> & Hne' & nx' & Hm' & Hs).
    rewrite !Forall_cons in Hok. destruct Hok as (Hb & Hc & Hl).
    cbn [pairwise] in Hd. rewrite Forall_cons in Hd. destruct Hd as ([Hbc Hbl] & Hcl & Hp).
    rewrite (decide_ext _ _ _ _ (absorbs_mergeable m b (b_addr c) c nx' rs Hm Hb eq_refl Hne' Hm')).
    cbn [merge_from]. destruct (decide (mergeable b c)) as [Hmg|Hmg].
    + destruct (IH (join b c) (absorb m (b_addr b)) (b_addr b) fuel) as (m' & E & Hs' & Hfr).
      * split; [done|]. split; [done|]. exists nx'. split.
        { unfold absorb. rewrite lookup_insert_eq, (hdr_at_Some _ _ _ Hm). simpl.
          rewrite (hdr_at_Some _ _ _ Hm'). unfold hdr_of, join. simpl.
          destruct Hmg as (-> & _ & He). unfold blk_ok, b_end in *. rewrite header_size.
          rewrite (add64_small 32) by (simpl; lia).
          rewrite add64_small by (simpl; lia). do 2 f_equal. simpl. lia. }
        unfold absorb. apply seg_insert; [|done]. intros d Hd'.
        rewrite Forall_forall in Hbl, Hl. apply not_eq_sym.
        eapply disj_addr_ne; [apply Hb|by apply (Hl d)|by apply Hbl].
      * constructor; [by apply join_ok|done].
      * split; [|done]. by eapply join_disj.
      * simpl in *. lia.
      * exists m'. split; [done|]. split; [done|]. intros x Hx. rewrite Hfr.
        -- unfold absorb. rewrite lookup_insert_ne; [done|]. intros Hbx. apply Hx. rewrite <- Hbx. by left.
        -- intros Hin. apply Hx. simpl in *. set_solver.
    + rewrite (hdr_at_Some _ _ _ Hm). cbn [bh_next hdr_of].
      destruct (IH c m (b_addr c) fuel) as (m' & E & Hs' & Hfr).
      * simpl. eauto 6.
      * by constructor.
      * done.
      * simpl in *. lia.
      * exists m'. split; [done|]. split.
        -- cbn [seg]. split; [done|]. split; [done|]. exists (b_addr c). split; [|done].
           rewrite Hfr; [done|]. intros (d & E' & Hd')%list_elem_of_fmap.
           assert (blk_disj b d ∧ blk_ok rs d) as [? Hd''].
           { rewrite Forall_forall in Hbl, Hl. apply elem_of_cons in Hd' as [->|?]; eauto. }
           eapply disj_addr_ne; [apply Hb|apply Hd''|done|done].
        -- intros x Hx. apply Hfr. set_solver.
Qed.

(** Coalescing never rewrites a magic, so a freed header keeps [BLOCK_MAGIC_FREE]. *)
Lemma absorb_magic m cur x : bh_magic (hdr_at (absorb m cur) x) = bh_magic (hdr_at m x).
Proof.
  unfold absorb, hdr_at at 1. destruct (decide (x = cur)) as [->|].
  - by rewrite lookup_insert_eq.
  - by rewrite lookup_insert_ne.
Qed.

Lemma coalesce_magic m cur fuel m' x :
  coalesce m cur fuel = Some m' → bh_magic (hdr_at m' x) = bh_magic (hdr_at m x).
Proof.
  revert m cur. induction fuel as [|f IH]; intros m cur; unfold coalesce; [done|]; fold coalesce.
  case_decide; [congruence|]. case_decide; intros E; apply IH in E; rewrite E; [|done].
  apply absorb_magic.
Qed.

#[local] Arguments coalesce : simpl never.
#[local] Arguments find_fit : simpl never.
#[local] Arguments find_tail : simpl never.
#[local] Arguments walk_fuel : simpl never.

(** ** Coalescing keeps the blocks' invariant *)

Lemma merge_from_ok rs l b : Forall (blk_ok rs) (b :: l) → Forall (blk_ok rs) (merge_from b l).
Proof.
  revert b. induction l as [|c l IH]; intros b Hok; simpl; [done|].
  rewrite !Forall_cons in Hok. destruct Hok as (Hb & Hc & Hl). case_decide.
  - apply IH. constructor; [by apply join_ok|done].
  - constructor; [done|]. apply IH. by constructor.
Qed.

Lemma merge_from_disj_with rs d l b :
  blk_ok rs d → Forall (blk_ok rs) (b :: l) → Forall (blk_disj d) (b :: l) →
  Forall (blk_disj d) (merge_from b l).
Proof.
  intros Hd. revert b. induction l as [|c l IH]; intros b Hok Hdis; simpl; [done|].
  rewrite !Forall_cons in Hok, Hdis. destruct Hok as (Hb & Hc & Hl), Hdis as (Hdb & Hdc & Hdl).
  case_decide as Hm.
  - apply IH; (constructor; [|done]); [by apply join_ok|].
    apply blk_disj_sym.
    assert (Forall (blk_disj (join b c)) [d]) as Hj; [|by inversion Hj].
    apply (join_disj rs); [by constructor|done|..]; (constructor; [by apply blk_disj_sym|done]).
  - constructor; [done|]. apply IH; by constructor.
Qed.

Lemma merge_from_disj rs l b :
  Forall (blk_ok rs) (b :: l) → pairwise blk_disj (b :: l) → pairwise blk_disj (merge_from b l).
Proof.
  revert b. induction l as [|c l IH]; intros b Hok Hd; [done|].
  rewrite !Forall_cons in Hok. destruct Hok as (Hb & Hc & Hl).
  destruct Hd as [Hbd Hcd]. apply Forall_cons in Hbd as [Hbc Hbl]. destruct Hcd as [Hcl Hp].
  cbn [merge_from]. case_decide as Hm.
  - apply IH; [constructor; [by apply join_ok|done]|]. split; [|done]. by eapply join_disj.
  - split; [|apply IH; [by constructor|done]].
    eapply merge_from_disj_with; [done|by constructor|by constructor].
Qed.

Lemma merge_from_sum l b : zsum b_span (merge_from b l) = zsum b_span (b :: l).
Proof.
  revert b. induction l as [|c l IH]; intros b; [done|]. cbn [merge_from].
  case_decide; rewrite ?IH, !zsum_cons, ?IH, ?zsum_cons; [|done].
  unfold b_span, join. simpl. lia.
Qed.

(** The allocated blocks are untouched. *)
Lemma merge_from_used l b x : b_free x = false → x ∈ merge_from b l ↔ x ∈ b :: l.
Proof.
  intros Hx. revert b. induction l as [|c l IH]; intros b; [done|]. cbn [merge_from].
  case_decide as Hm; rewrite ?elem_of_cons, IH, ?elem_of_cons; [|done].
  destruct Hm as (Hb & Hc & _). split; [|naive_solver congruence].
  intros [->|?]; [done|naive_solver].
Qed.

(** No two neighbours are left that could be merged. *)
Fixpoint coalesced (l : list blk) : Prop :=
  match l with
  | b :: ((c :: _) as l') => ¬ mergeable b c ∧ coalesced l'
  | _ => True
  end.

Lemma merge_from_head l b :
  ∃ c l', merge_from b l = c :: l' ∧ b_addr c = b_addr b ∧ b_free c = b_free b.
Proof.
  revert b. induction l as [|c l IH]; intros b; cbn [merge_from]; [eauto|].
  case_decide as Hm; [|eauto].
  destruct (IH (join b c)) as (d & l' & -> & ? & ?). destruct Hm as (Hb & _). rewrite Hb. eauto.
Qed.

Lemma merge_from_coalesced l b : coalesced (merge_from b l).
Proof.
  revert b. induction l as [|c l IH]; intros b; cbn [merge_from]; [done|].
  case_decide as Hm; [done|]. destruct (merge_from_head l c) as (d & l' & E & Ha & Hf).
  specialize (IH c). rewrite E in IH |- *. split; [|done].
  unfold mergeable in *. by rewrite Ha, Hf.
Qed.

(** ** The heap invariant *)

(** [p] is a live allocation with [n] usable bytes. *)
Definition allocated (l : list blk) (p n : Z) : Prop :=
  ∃ b, b ∈ l ∧ b_free b = false ∧ p = b_addr b + 32 ∧ n = b_size b.

Section Invariant.
Context {S : Type} `{!PageAllocator S}.
Implicit Types s : S.

(** A region is the kernel alias of pages the heap took from the page allocator. *)
Definition region_ok (s : S) (r : Z * Z) : Prop :=
  ∃ phys n, r = (PHYS_TO_VIRT phys, n * PAGE_SIZE) ∧ 0 < n ∧ pages_at phys n ⊆ pa_frames s.

Record heap_wf (h : heap S) (l : list blk) : Prop := {
  hw_chain : seg (hdrs h) (heap_head h) l 0;
  hw_nonempty : l ≠ [];
  hw_blocks : Forall (blk_ok (regions h)) l;
  hw_disj : pairwise blk_disj l;
  hw_total : zsum b_span l = zsum snd (regions h);
  hw_regions : Forall (region_ok (pages h)) (regions h);
  hw_rcount : (length (regions h) ≤ HEAP_MAX_REGIONS)%nat;
  hw_pages : pa_inv (pages h);
}.

Lemma heap_wf_fuel h l : heap_wf h l → (length l < walk_fuel (hdrs h))%nat.
Proof.
  intros []. unfold walk_fuel. apply Nat.lt_succ_r.
  eapply seg_length; [done|]. by eapply pairwise_NoDup.
Qed.

Lemma addr_in_any_region_spec h l a :
  heap_wf h l → addr_in_any_region (regions h) a = true ↔ in_regions (regions h) a.
Proof.
  intros Hwf. unfold addr_in_any_region, in_regions. rewrite existsb_exists.
  setoid_rewrite <- list_elem_of_In. split; intros ([va n] & Hr & Ha); exists (va, n);
    (split; [done|]); simpl in *;
    (assert (region_ok (pages h) (va, n)) as (phys & k & [= -> ->] & Hk & Hf)
      by (eapply Forall_forall; [apply Hwf|done]));
    (destruct (pa_frames_page (pages h) phys) as (? & ? & ?);
      [apply Hwf|apply Hf, elem_of_pages_at; exists 0; lia|]);
    (destruct (pa_frames_page (pages h) (phys + (k - 1) * PAGE_SIZE)) as (? & ? & ?);
      [apply Hwf|apply Hf, elem_of_pages_at; exists (k - 1); lia|]);
    unfold PHYS_LIMIT, PHYS_TO_VIRT, KERNEL_VA_OFFSET, PAGE_SIZE in *;
    rewrite (add64_small phys) in * by lia; rewrite add64_small in * by lia.
  - apply andb_true_iff in Ha as [?%bool_decide_eq_true ?%bool_decide_eq_true]. lia.
  - apply andb_true_iff. rewrite !bool_decide_eq_true. lia.
Qed.

(** Changing only memory and the block list, within the same regions. *)
Lemma heap_wf_update h l m' l' :
  heap_wf h l → seg m' (heap_head h) l' 0 → l' ≠ [] → Forall (blk_ok (regions h)) l' →
  pairwise blk_disj l' → zsum b_span l' = zsum b_span l → heap_wf (set_hdrs h m') l'.
Proof. intros [] ?????. constructor; simpl; try done. congruence. Qed.

(** ** Release *)

Lemma coalesce_wf h l :
  heap_wf h l →
  ∃ m', coalesce (hdrs h) (heap_head h) (walk_fuel (hdrs h)) = Some m' ∧
    heap_wf (set_hdrs h m') (merge_list l).
Proof.
  intros Hwf. pose proof (heap_wf_fuel _ _ Hwf) as Hf. pose proof Hwf as [].
  destruct l as [|b l]; [done|].
  destruct (coalesce_spec (regions h) l b (hdrs h) (heap_head h) (walk_fuel (hdrs h)))
    as (m' & E & Hs & _); [done..|].
  exists m'. split; [done|]. apply (heap_wf_update h (b :: l)); try done.
  - simpl. destruct (merge_from_head l b) as (c & l' & -> & _). done.
  - by apply merge_from_ok.
  - by eapply merge_from_disj.
  - apply merge_from_sum.
Qed.

(** Replacing a block by blocks that fill its place. *)
Lemma seg_replace m m' a l1 b l2 bs z :
  seg m a (l1 ++ b :: l2) z → pairwise blk_disj (l1 ++ b :: l2) →
  (∀ c, c ∈ l1 ++ b :: l2 → 0 < b_size c) →
  (∀ x, ¬ (b_addr b ≤ x < b_end b) → m' !! x = m !! x) →
  (∀ nx, m !! b_addr b = Some (hdr_of b nx) → seg m' (b_addr b) bs nx) →
  seg m' a (l1 ++ bs ++ l2) z.
Proof.
  intros (y & Hs1 & Hs2)%seg_app Hd Hpos Hfr Hbs.
  apply pairwise_app in Hd as (_ & [Hbl _] & Hcross). rewrite Forall_forall in Hbl.
  destruct Hs2 as (-> & Hne & nx & Hm & Hs2).
  assert (∀ c, c ∈ l1 ∨ c ∈ l2 → m' !! b_addr c = m !! b_addr c) as Hother.
  { intros c Hc. apply Hfr. assert (0 < b_size c) by (apply Hpos; set_solver).
    assert (blk_disj b c).
    { destruct Hc as [?|?]; [apply blk_disj_sym, Hcross; [done|by left]|by apply Hbl]. }
    intros Hx. by eapply (disj_inside b c). }
  apply seg_app. exists (b_addr b). split; [eapply seg_frame; [|done]; naive_solver|].
  apply seg_app. exists nx. split; [by apply Hbs|]. eapply seg_frame; [|done]. naive_solver.
Qed.

Lemma replace_wf h l1 b l2 bs m' :
  heap_wf h (l1 ++ b :: l2) → bs ≠ [] →
  (∀ x, ¬ (b_addr b ≤ x < b_end b) → m' !! x = hdrs h !! x) →
  (∀ nx, hdrs h !! b_addr b = Some (hdr_of b nx) → seg m' (b_addr b) bs nx) →
  Forall (λ c, 0 < b_size c ∧ b_size c mod 16 = 0 ∧ b_addr c mod 16 = 0 ∧
               b_addr b ≤ b_addr c ∧ b_end c ≤ b_end b) bs →
  pairwise blk_disj bs → zsum b_span bs = b_span b →
  heap_wf (set_hdrs h m') (l1 ++ bs ++ l2).
Proof.
  intros Hwf Hne Hfr Hseg Hin Hd Hsum. pose proof Hwf as [].
  assert (∀ c, c ∈ l1 ++ b :: l2 → 0 < b_size c) as Hpos.
  { intros c Hc. rewrite Forall_forall in hw_blocks0. by apply hw_blocks0. }
  apply (heap_wf_update h (l1 ++ b :: l2)); try done.
  - by eapply seg_replace.
  - by destruct l1, bs.
  - rewrite !Forall_app, Forall_cons in *. destruct hw_blocks0 as (? & Hb & ?).
    split; [done|]. split; [|done]. eapply Forall_impl; [done|]. simpl.
    intros c (?&?&?&?&?). destruct Hb as (?&?&?&?&?&Hbr). unfold blk_ok.
    split_and?; try done; try lia. intros x Hx. apply Hbr. lia.
  - apply pairwise_app in hw_disj0 as (H1 & [H2 H3] & H4). rewrite Forall_forall in H2, Hin.
    apply pairwise_app. split; [done|]. split.
    + apply pairwise_app. split; [done|]. split; [done|]. intros x y Hx Hy.
      specialize (H2 y Hy). specialize (Hin x Hx). unfold blk_disj in *.
      assert (0 < b_size y) by (apply Hpos; set_solver). unfold b_end in *. lia.
    + intros x y Hx [Hy|Hy]%elem_of_app; [|apply H4; [done|by right]].
      specialize (H4 x b Hx ltac:(by left)). specialize (Hin y Hy). unfold blk_disj in *.
      assert (0 < b_size x) by (apply Hpos; set_solver). unfold b_end in *. lia.
  - rewrite !zsum_app, zsum_cons, Hsum. lia.
Qed.

Lemma mark_wf h l1 b l2 fr :
  heap_wf h (l1 ++ b :: l2) →
  ∃ nx, hdrs h !! b_addr b = Some (hdr_of b nx) ∧
    heap_wf (set_hdrs h (<[b_addr b := hdr_of (mk_blk (b_addr b) (b_size b) fr) nx]> (hdrs h)))
            (l1 ++ mk_blk (b_addr b) (b_size b) fr :: l2).
Proof.
  intros Hwf. pose proof Hwf as [].
  destruct (seg_lookup _ _ _ _ b hw_chain0) as [nx Hm]; [set_solver|].
  assert (blk_ok (regions h) b) as (?&?&?&?&?&_).
  { rewrite Forall_app, Forall_cons in hw_blocks0. tauto. }
  exists nx. split; [done|].
  apply (replace_wf h l1 b l2 [mk_blk (b_addr b) (b_size b) fr]); [done|done|..].
  - intros x Hx. rewrite lookup_insert_ne; [done|]. intros <-. apply Hx. unfold b_end. lia.
  - intros nx' Hm'. rewrite Hm in Hm'. assert (nx' = nx) as -> by (by inversion Hm').
    split; [done|]. split; [lia|]. exists nx. by rewrite lookup_insert_eq.
  - constructor; [|done]. unfold b_end. simpl. lia.
  - apply pairwise_singleton.
  - unfold zsum, b_span. simpl. lia.
Qed.

Lemma allocated_unique h l p n k : heap_wf h l → allocated l p n → allocated l p k → n = k.
Proof.
  intros [] (b & Hb & _ & -> & ->) (c & Hc & _ & E & ->).
  assert (b_addr b = b_addr c) as Ha by lia. f_equal.
  pose proof (pairwise_NoDup _ _ hw_blocks0 hw_disj0) as Hnd.
  apply list_elem_of_lookup in Hb as [i Hi], Hc as [j Hj].
  assert (i = j) as ->; [|congruence].
  eapply NoDup_lookup; [exact Hnd|rewrite list_lookup_fmap, Hi; done|].
  rewrite list_lookup_fmap, Hj. simpl. congruence.
Qed.

(** Freeing a live allocation removes exactly that allocation. *)
Lemma kfree_live h l p n :
  heap_wf h l → allocated l p n →
  ∃ h' l', kfree h p = Some h' ∧ heap_wf h' l' ∧ coalesced l' ∧
    regions h' = regions h ∧ pages h' = pages h ∧
    bh_magic (hdr_at (hdrs h') (p -w 32)) = BLOCK_MAGIC_FREE ∧
    ∀ q k, allocated l' q k ↔ allocated l q k ∧ q ≠ p.
Proof.
  intros Hwf (b & Hb & Hfree & -> & ->). pose proof Hwf as [].
  apply list_elem_of_split in Hb as (l1 & l2 & ->).
  assert (blk_ok (regions h) b) as Hbok.
  { rewrite Forall_app, Forall_cons in hw_blocks0. tauto. }
  pose proof Hbok as (? & ? & ? & ? & Hend & Hin). unfold b_end in Hend.
  unfold kfree. rewrite decide_False, header_size by lia.
  rewrite sub64_small by lia. replace (b_addr b + 32 - 32) with (b_addr b) by lia.
  assert (addr_in_any_region (regions h) (b_addr b) = true) as ->.
  { eapply addr_in_any_region_spec; [done|]. apply Hin. unfold b_end. lia. }
  destruct (mark_wf h l1 b l2 true Hwf) as (nx & Hm & Hwf').
  assert (hdr_of b nx = mk_hdr (b_size b) BLOCK_MAGIC_ALLOC 0 nx) as Hh
    by (unfold hdr_of; by rewrite Hfree).
  rewrite (hdr_at_Some _ _ _ Hm), Hh. simpl.
  set (b' := mk_blk (b_addr b) (b_size b) true) in *.
  change (mk_hdr (b_size b) BLOCK_MAGIC_FREE 1 nx) with (hdr_of b' nx).
  destruct (coalesce_wf _ _ Hwf') as (m' & Hco & Hwf''). simpl in Hco. rewrite Hco. simpl.
  eexists _, _. split; [done|]. split; [exact Hwf''|]. split; [|split; [done|split; [done|split]]].
  { unfold merge_list. destruct (l1 ++ b' :: l2); [done|]. apply merge_from_coalesced. }
  { simpl. rewrite (coalesce_magic _ _ _ _ _ Hco). unfold hdr_at. by rewrite lookup_insert_eq. }
  intros q k. unfold allocated.
  assert (∀ x, b_free x = false → x ∈ merge_list (l1 ++ b' :: l2) ↔ x ∈ l1 ++ b' :: l2) as Hml.
  { intros x Hx. unfold merge_list. destruct (l1 ++ b' :: l2); [done|]. by apply merge_from_used. }
  split.
  - intros (x & Hx & Hxf & -> & ->). apply Hml in Hx; [|done].
    assert (x ∈ l1 ∨ x ∈ l2) as Hx'.
    { apply elem_of_app in Hx as [?|[->|?]%elem_of_cons]; [by left|done|by right]. }
    split; [exists x; set_solver|]. apply pairwise_app in hw_disj0 as (_ & [Hbl _] & Hcross).
    rewrite Forall_forall in hw_blocks0, Hbl.
    assert (blk_disj x b) as Hxb.
    { destruct Hx' as [?|?]; [apply Hcross; [done|by left]|by apply blk_disj_sym, Hbl]. }
    destruct (hw_blocks0 x) as (_ & _ & ? & _); [set_solver|].
    unfold blk_disj, b_end in Hxb. lia.
  - intros [(x & Hx & Hxf & -> & ->) Hne]. exists x. rewrite Hml by done.
    split; [|done]. apply elem_of_app in Hx as [?|[->|?]%elem_of_cons]; set_solver.
Qed.

(** Every other pointer is refused. *)
Lemma kfree_refused h l p :
  heap_wf h l →
  p = 0 ∨ ¬ in_regions (regions h) (p -w 32) ∨
    bh_magic (hdr_at (hdrs h) (p -w 32)) ≠ BLOCK_MAGIC_ALLOC →
  kfree h p = Some h.
Proof.
  intros Hwf Hp. unfold kfree. rewrite header_size. case_decide; [done|].
  destruct (addr_in_any_region (regions h) (p -w 32)) eqn:Hr; simpl; [|done].
  apply (addr_in_any_region_spec _ _ _ Hwf) in Hr. rewrite decide_True; [done|naive_solver].
Qed.

(** ** Allocation *)

Lemma carve_allocated l1 b l2 n tl :
  b_free b = true → Forall (λ c, b_free c = true) tl →
  ∀ q k, allocated (l1 ++ (mk_blk (b_addr b) n false :: tl) ++ l2) q k ↔
         allocated (l1 ++ b :: l2) q k ∨ (q = b_addr b + 32 ∧ k = n).
Proof.
  intros Hb Htl q k. unfold allocated. rewrite Forall_forall in Htl. split.
  - intros (c & Hc & Hf & -> & ->). rewrite !elem_of_app, elem_of_cons in Hc.
    destruct Hc as [?|[[->|Hc]|?]].
    + left. exists c. set_solver.
    + by right.
    + apply Htl in Hc. congruence.
    + left. exists c. set_solver.
  - intros [(c & Hc & Hf & -> & ->)|[-> ->]].
    + exists c. split; [|done]. rewrite elem_of_app, elem_of_cons in Hc.
      destruct Hc as [?|[->|?]]; [set_solver|congruence|set_solver].
    + exists (mk_blk (b_addr b) n false). split; [set_solver|done].
Qed.

Lemma take_block_wf h l1 b l2 sz :
  heap_wf h (l1 ++ b :: l2) → fits sz b → 0 < sz → sz mod 16 = 0 →
  ∃ n l', (take_block h (b_addr b) sz).1 = b_addr b + 32 ∧ sz ≤ n ∧
    heap_wf (take_block h (b_addr b) sz).2 l' ∧
    (∀ q k, allocated l' q k ↔ allocated (l1 ++ b :: l2) q k ∨ (q = b_addr b + 32 ∧ k = n)).
Proof.
  intros Hwf [Hfree Hsz] Hpos Hal. pose proof Hwf as [].
  destruct (seg_lookup _ _ _ _ b hw_chain0) as [nx Hm]; [set_solver|].
  assert (blk_ok (regions h) b) as (?&?&?&?&Hend&_).
  { rewrite Forall_app, Forall_cons in hw_blocks0. tauto. }
  unfold b_end in Hend. unfold take_block. rewrite (hdr_at_Some _ _ _ Hm), header_size.
  cbn [bh_size bh_next hdr_of fst snd]. rewrite (sub64_small (b_size b)) by lia.
  rewrite (add64_small (b_addr b) 32) by lia. unfold HEAP_MIN_BLOCK_SIZE. case_decide as Hrem.
  - rewrite (add64_small _ sz) by lia. rewrite sub64_small by lia.
    set (b1 := mk_blk (b_addr b) sz false).
    set (b2 := mk_blk (b_addr b + 32 + sz) (b_size b - sz - 32) true).
    exists sz, (l1 ++ [b1; b2] ++ l2). split; [done|]. split; [lia|].
    split; [|apply (carve_allocated l1 b l2 sz [b2]); [done|by repeat constructor]].
    apply (replace_wf h l1 b l2 [b1; b2]); [done|done|..].
    + intros x Hx. unfold b_end in Hx.
      rewrite !lookup_insert_ne; [done|intros <-; apply Hx; lia|intros <-; apply Hx; lia].
    + intros nx' Hm'. rewrite Hm in Hm'. assert (nx' = nx) as -> by (by inversion Hm').
      split; [done|]. split; [lia|]. exists (b_addr b2). split; [by rewrite lookup_insert_eq|].
      split; [done|]. split; [simpl; lia|]. exists nx.
      rewrite lookup_insert_ne, lookup_insert_eq by (simpl; lia). done.
    + unfold b_end. repeat constructor; simpl; try lia; dlia.
    + unfold blk_disj, b_end. repeat constructor; simpl; lia.
    + unfold zsum, b_span. simpl. lia.
  - set (b1 := mk_blk (b_addr b) (b_size b) false).
    exists (b_size b), (l1 ++ [b1] ++ l2). split; [done|]. split; [lia|].
    split; [|apply (carve_allocated l1 b l2 (b_size b) []); [done|by constructor]].
    destruct (mark_wf h l1 b l2 false Hwf) as (nx' & Hm' & Hwf').
    rewrite Hm in Hm'. assert (nx' = nx) as -> by (by inversion Hm'). exact Hwf'.
Qed.

(** ** Growth *)

(** The kernel alias of pages just taken from the page allocator. *)
Lemma fresh_pages s s' phys n :
  pa_inv s' → 0 < n → pa_frames s' = pages_at phys n ∪ pa_frames s →
  0 < phys ∧ phys mod PAGE_SIZE = 0 ∧ phys + n * PAGE_SIZE ≤ PHYS_LIMIT ∧
  PHYS_TO_VIRT phys = phys + KERNEL_VA_OFFSET.
Proof.
  intros Hi Hn Hf.
  destruct (pa_frames_page s' phys) as (? & ? & ?);
    [done|rewrite Hf; apply elem_of_union_l, elem_of_pages_at; exists 0; lia|].
  destruct (pa_frames_page s' (phys + (n - 1) * PAGE_SIZE)) as (_ & _ & ?);
    [done|rewrite Hf; apply elem_of_union_l, elem_of_pages_at; exists (n - 1); lia|].
  unfold PHYS_LIMIT, PHYS_TO_VIRT, KERNEL_VA_OFFSET, PAGE_SIZE in *.
  split_and!; [lia..|]. apply add64_small. lia.
Qed.

(** A page address is determined by any address inside the page. *)
Lemma page_of a b x :
  a mod PAGE_SIZE = 0 → b mod PAGE_SIZE = 0 →
  a ≤ x < a + PAGE_SIZE → b ≤ x < b + PAGE_SIZE → a = b.
Proof. unfold PAGE_SIZE. intros. dlia. Qed.

(** Fresh pages do not meet the regions the heap already has. *)
Lemma fresh_outside h l s' phys n x :
  heap_wf h l → pa_inv s' → 0 < n → (pages_at phys n ## pa_frames (pages h)) →
  pa_frames s' = pages_at phys n ∪ pa_frames (pages h) →
  in_regions (regions h) x → ¬ (PHYS_TO_VIRT phys ≤ x < PHYS_TO_VIRT phys + n * PAGE_SIZE).
Proof.
  intros [] Hi Hn Hdis Hf (r & Hr & Hx) Hx'.
  rewrite Forall_forall in hw_regions0. destruct (hw_regions0 r Hr) as (p & k & -> & Hk & Hsub).
  destruct (fresh_pages _ _ _ _ Hi Hn Hf) as (Hp0 & Hpa & Hlim & Hva).
  assert (pa_frames (pages h) = pages_at p k ∪ pa_frames (pages h)) as Hf' by set_solver.
  destruct (fresh_pages _ _ _ _ hw_pages0 Hk Hf') as (Hq0 & Hqa & Hqlim & Hvp).
  simpl in Hx. rewrite Hva in Hx'. rewrite Hvp in Hx.
  set (y := x - KERNEL_VA_OFFSET).
  set (i := (y - p) / PAGE_SIZE). set (j := (y - phys) / PAGE_SIZE).
  assert (0 ≤ i < k ∧ 0 ≤ j < n) as [Hi' Hj].
  { unfold i, j, y, PAGE_SIZE in *. split; dlia. }
  assert (p + i * PAGE_SIZE = phys + j * PAGE_SIZE) as E.
  { apply (page_of _ _ y); unfold i, j, y, PAGE_SIZE in *; dlia. }
  apply (Hdis (phys + j * PAGE_SIZE)); [apply elem_of_pages_at; eauto|].
  apply Hsub, elem_of_pages_at. exists i. rewrite E. done.
Qed.

Lemma mem_zero_lookup m va n a :
  ¬ (va ≤ a < va + n) → mem_zero m va n !! a = m !! a.
Proof.
  intros Ha. unfold mem_zero. rewrite map_lookup_filter.
  destruct (m !! a); simpl; [|done]. rewrite option_guard_True; [done|]. done.
Qed.

Lemma region_ok_mono s s' r : pa_frames s ⊆ pa_frames s' → region_ok s r → region_ok s' r.
Proof. intros Hs (p & n & ? & ? & ?). exists p, n. set_solver. Qed.

(** Linking a fresh region: the list gains one free block at its end. *)
Lemma expand_core h l s phys n :
  heap_wf h l → pa_inv s → 2 ≤ n → (pages_at phys n ## pa_frames (pages h)) →
  pa_frames s = pages_at phys n ∪ pa_frames (pages h) →
  let va := PHYS_TO_VIRT phys in
  let bytes := n *w PAGE_SIZE in
  let nb := mk_blk va (bytes - 32) true in
  let m1 := <[va := mk_hdr (bytes -w BLOCK_HEADER_SIZE) BLOCK_MAGIC_FREE 1 0]>
              (mem_zero (hdrs h) va bytes) in
  ∃ t l0 b, l = l0 ++ [b] ∧ find_tail m1 (heap_head h) (walk_fuel m1) = Some t ∧
    t = b_addr b ∧ m1 !! t = Some (hdr_of b 0) ∧ bytes = n * PAGE_SIZE ∧
    seg m1 (heap_head h) l 0 ∧
    seg (<[t := hdr_of b va]> m1) (heap_head h) (l ++ [nb]) 0 ∧
    blk_ok (regions h ++ [(va, bytes)]) nb ∧ Forall (λ c, blk_disj c nb) l.
Proof.
  intros Hwf Hi Hn Hdis Hf va bytes nb m1. pose proof Hwf as [].
  destruct (fresh_pages (pages h) s phys n) as (Hp0 & Hpa & Hlim & Hva); [done|lia|done|].
  assert (bytes = n * PAGE_SIZE) as Hbytes.
  { unfold bytes, PHYS_LIMIT, PAGE_SIZE in *. apply mul64_small. lia. }
  assert (0 < va ∧ va mod 16 = 0 ∧ 8192 ≤ bytes ∧ bytes mod 16 = 0 ∧ va + bytes < 2 ^ 64)
    as (Hv1 & Hv2 & Hv3 & Hv4 & Hv5).
  { subst va. rewrite Hva, Hbytes.
    unfold PHYS_LIMIT, KERNEL_VA_OFFSET, PAGE_SIZE in *. split_and!; try lia; dlia. }
  assert (∀ c x, c ∈ l → b_addr c ≤ x < b_end c → ¬ (va ≤ x < va + bytes)) as Hout.
  { intros c x Hc Hx. rewrite Hbytes. eapply (fresh_outside h l s); [done|done|lia|done|done|].
    rewrite Forall_forall in hw_blocks0. by apply (hw_blocks0 c). }
  assert (∀ c, c ∈ l → 0 < b_size c ∧ blk_disj c nb) as Hcd.
  { intros c Hc. rewrite Forall_forall in hw_blocks0.
    destruct (hw_blocks0 c Hc) as (_ & _ & Hs & _). split; [done|].
    pose proof (Hout c (b_addr c) Hc) as H1. pose proof (Hout c (b_end c - 1) Hc) as H2.
    pose proof (Hout c va Hc) as H3.
    unfold blk_disj, b_end in *. simpl. lia. }
  assert (seg m1 (heap_head h) l 0) as Hs1.
  { unfold m1. apply seg_insert.
    - intros c Hc Heq. destruct (Hcd c Hc) as [Hs Hd]. unfold blk_disj, b_end in Hd. simpl in Hd. lia.
    - eapply seg_frame; [|done]. intros c Hc. apply mem_zero_lookup.
      destruct (Hcd c Hc). apply (Hout c); [done|]. unfold b_end. lia. }
  destruct (exists_last hw_nonempty0) as (l0 & b & El).
  assert (NoDup (b_addr <$> l)) as Hnd by (by eapply pairwise_NoDup).
  exists (b_addr b), l0, b. rewrite El in Hs1.
  assert (m1 !! b_addr b = Some (hdr_of b 0)) as Hb.
  { apply seg_app in Hs1 as (y & _ & -> & _ & nx & Hb & <-). done. }
  split; [done|]. split.
  { eapply find_tail_spec; [exact Hs1|done|]. unfold walk_fuel.
    rewrite <- El in Hs1. pose proof (seg_length _ _ _ _ Hs1 Hnd).
    rewrite El, length_app in *. simpl in *. lia. }
  split; [done|]. split; [done|]. split; [done|]. rewrite <- El in Hs1. split; [done|].
  assert (b_addr b ≠ va) as Hbva.
  { destruct (Hcd b) as [? Hd]; [rewrite El; set_solver|]. unfold blk_disj, b_end in Hd. simpl in Hd. lia. }
  split_and!.
  - rewrite El in Hs1 |- *. rewrite <- app_assoc. apply seg_app in Hs1 as (y & Hs0 & -> & Hne & _).
    apply seg_app. exists (b_addr b). split.
    + apply seg_insert; [|done]. intros c Hc Heq. rewrite El, fmap_app in Hnd.
      apply NoDup_app in Hnd as (_ & Hx & _). apply (Hx (b_addr b)); [|by left].
      apply list_elem_of_fmap. by exists c.
    + split; [done|]. split; [done|]. exists va. rewrite lookup_insert_eq. split; [done|].
      split; [done|]. split; [lia|]. exists 0. rewrite lookup_insert_ne by done.
      unfold m1. rewrite lookup_insert_eq, header_size, sub64_small by lia. done.
  - unfold blk_ok, b_end. simpl. do 3 (split; [done || lia|]). split; [dlia|].
    split; [lia|]. intros x Hx. exists (va, bytes). split; [set_solver|]. simpl. lia.
  - apply Forall_forall. intros c Hc. by apply Hcd.
Qed.

Lemma blk_ok_mono rs rs' b : (∀ x, in_regions rs x → in_regions rs' x) → blk_ok rs b → blk_ok rs' b.
Proof. unfold blk_ok. naive_solver. Qed.

Lemma in_regions_app rs rs' x : in_regions rs x → in_regions (rs ++ rs') x.
Proof. intros (r & ? & ?). exists r. split; [set_solver|done]. Qed.

(** How growth changes the pages: either not at all, or by one new region of
    fresh pages. *)
Definition grows (h h' : heap S) : Prop :=
  (regions h' = regions h ∧ pa_frames (pages h') = pa_frames (pages h)) ∨
  (∃ phys n, 0 < n ∧ pa_inv (pages h') ∧ (pages_at phys n ## pa_frames (pages h)) ∧
     pa_frames (pages h') = pages_at phys n ∪ pa_frames (pages h) ∧
     regions h' = regions h ++ [(PHYS_TO_VIRT phys, n * PAGE_SIZE)]).

Lemma heap_expand_wf h l need :
  heap_wf h l →
  ∃ rc h', heap_expand h need = Some (rc, h') ∧ grows h h' ∧
    ((rc = 0 ∧ ∃ nb, b_free nb = true ∧ heap_wf h' (l ++ [nb])) ∨ (rc = -1 ∧ heap_wf h' l)).
Proof.
  intros Hwf. pose proof Hwf as []. unfold heap_expand.
  set (n := if decide _ then HEAP_EXPAND_MIN_PAGES else _).
  assert (2 ≤ n) as Hn.
  { subst n. unfold HEAP_EXPAND_MIN_PAGES. case_decide; lia. }
  destruct (pa_alloc_pages_ok (pages h) n) as (phys & s & -> & Hi & Hcase); [done|lia|]. simpl.
  destruct Hcase as [[-> ->]|[Hdis Hf]].
  { rewrite decide_True by done. eexists _, _. split; [done|]. split; [by left|].
    right. by destruct h. }
  destruct (fresh_pages (pages h) s phys n) as (Hp0 & Hpa & Hlim & Hva); [done|lia|done|].
  rewrite decide_False by lia.
  destruct (expand_core h l s phys n) as (t & l0 & b & El & -> & Et & Ht & Hb & Hs1 & Hs2 & Hok & Hd);
    [done..|]. simpl. rewrite (hdr_at_Some _ _ _ Ht).
  cbn [bh_size bh_magic bh_is_free hdr_of]. unfold register_region. case_decide as Hfull.
  - destruct (pa_free_pages_ok s phys n) as (s' & -> & Hi' & Hf'); [done|lia|done|]. simpl.
    assert (pa_frames s' = pa_frames (pages h)) as Hff by (rewrite Hf', Hf; set_solver).
    eexists _, _. split; [done|]. split; [by left|]. right. split; [done|].
    constructor; simpl; try done.
    + rewrite insert_insert_eq, insert_id; [done|exact Ht].
    + eapply Forall_impl; [exact hw_regions0|]. intros r. apply region_ok_mono. by rewrite Hff.
  - simpl. eexists _, _. split; [done|]. split.
    { right. exists phys, n. simpl. rewrite Hb. split_and!; try done. lia. }
    left. split; [done|]. exists (mk_blk (PHYS_TO_VIRT phys) (n *w PAGE_SIZE - 32) true). split; [done|].
    constructor; simpl.
    + exact Hs2.
    + by destruct l.
    + apply Forall_app. split; [|by constructor]. eapply Forall_impl; [exact hw_blocks0|].
      intros c. apply blk_ok_mono, in_regions_app.
    + apply pairwise_app. split; [done|]. split; [by repeat constructor|].
      intros x y Hx Hy. apply list_elem_of_singleton in Hy as ->.
      rewrite Forall_forall in Hd. by apply Hd.
    + rewrite !zsum_app, hw_total0. unfold zsum, b_span. simpl. lia.
    + apply Forall_app. split.
      * eapply Forall_impl; [exact hw_regions0|]. intros r. apply region_ok_mono. set_solver.
      * constructor; [|done]. exists phys, n. split; [by rewrite Hb|]. split; [lia|set_solver].
    + rewrite length_app. simpl. unfold HEAP_MAX_REGIONS in *. lia.
    + done.
Qed.

Lemma allocated_app_free l nb q k :
  b_free nb = true → allocated (l ++ [nb]) q k ↔ allocated l q k.
Proof.
  intros Hf. unfold allocated. setoid_rewrite elem_of_app. setoid_rewrite list_elem_of_singleton.
  split; intros (b & Hb & ? & ? & ?); exists b; [|naive_solver].
  destruct Hb as [?| ->]; [done|congruence].
Qed.

(** The outcome of an allocation request for [sz] bytes. *)
Definition alloc_outcome (l l' : list blk) (sz r : Z) : Prop :=
  (r = 0 ∧ (∀ q k, allocated l' q k ↔ allocated l q k) ∧ Forall (λ b, ¬ fits sz b) l) ∨
  (∃ n, 0 < r ∧ r mod 16 = 0 ∧ sz ≤ n ∧ (∀ k, ¬ allocated l r k) ∧
        ∀ q k, allocated l' q k ↔ allocated l q k ∨ (q = r ∧ k = n)).

Lemma free_not_allocated h l b k :
  heap_wf h l → b ∈ l → b_free b = true → ¬ allocated l (b_addr b + 32) k.
Proof.
  intros [] Hb Hf (c & Hc & Hcf & E & _).
  pose proof (pairwise_NoDup _ _ hw_blocks0 hw_disj0) as Hnd.
  apply list_elem_of_lookup in Hb as [i Hi], Hc as [j Hj].
  assert (i = j) as ->; [|congruence].
  eapply NoDup_lookup; [exact Hnd|rewrite list_lookup_fmap, Hi; done|].
  rewrite list_lookup_fmap, Hj. simpl. f_equal. lia.
Qed.

Lemma attempts_wf h l sz n :
  heap_wf h l → 0 < sz → sz mod 16 = 0 →
  ∃ r h' l', kmalloc_attempts h sz n = Some (r, h') ∧ rtc grows h h' ∧ heap_wf h' l' ∧
    ((r = 0 ∧ (∀ q k, allocated l' q k ↔ allocated l q k) ∧ (n = 0%nat ∨ Forall (λ b, ¬ fits sz b) l)) ∨
     (∃ k, 0 < r ∧ r mod 16 = 0 ∧ sz ≤ k ∧ (∀ k', ¬ allocated l r k') ∧
           ∀ q k', allocated l' q k' ↔ allocated l q k' ∨ (q = r ∧ k' = k))).
Proof.
  revert h l. induction n as [|n IH]; intros h l Hwf Hpos Hal; cbn [kmalloc_attempts].
  { exists 0, h, l. split; [done|]. split; [done|]. split; [done|]. left. auto. }
  pose proof Hwf as []. rewrite (find_fit_spec _ _ l); [|done|by apply heap_wf_fuel]. simpl.
  destruct (list_find (fits sz) l) as [[i b]|] eqn:Hfind; simpl.
  - apply list_find_Some in Hfind as (Hi & Hfit & _).
    pose proof (list_elem_of_lookup_2 _ _ _ Hi) as Hin. pose proof Hin as Hin'.
    apply list_elem_of_split in Hin' as (l1 & l2 & ->).
    assert (blk_ok (regions h) b) as (?&?&_).
    { rewrite Forall_forall in hw_blocks0. by apply hw_blocks0. }
    rewrite decide_True by lia.
    destruct (take_block_wf h l1 b l2 sz) as (k & l' & Hr & Hk & Hwf' & Hall); [done..|].
    assert (grows h (take_block h (b_addr b) sz).2) as Hg by (by left).
    destruct (take_block h (b_addr b) sz) as [r h']. simpl in *. subst r.
    exists (b_addr b + 32), h', l'. split; [done|]. split; [by apply rtc_once|].
    split; [done|]. right. exists k.
    split; [lia|]. split; [dlia|]. split; [done|]. split; [|done].
    intros k'. eapply free_not_allocated; [done..|]. apply Hfit.
  - apply list_find_None in Hfind.
    destruct (heap_expand_wf h l sz Hwf) as (rc & h' & -> & Hg & [[-> (nb & Hf & Hwf')]|[-> Hwf']]); simpl.
    + destruct (IH h' (l ++ [nb]) Hwf' Hpos Hal) as (r & h'' & l'' & E & Hgs & Hwf'' & Hcase).
      exists r, h'', l''. split; [done|]. split; [by eapply rtc_l|]. split; [done|].
      setoid_rewrite (allocated_app_free l nb) in Hcase; [|done..].
      destruct Hcase as [(-> & Hall & _)|?]; [left; auto|by right].
    + eexists _, _, _. split; [done|]. split; [by apply rtc_once|]. split; [done|]. left. auto.
Qed.

Lemma HEAP_ALIGN_UP_spec x :
  0 < x ≤ SIZE_MAX - 15 → HEAP_ALIGN_UP x = (x + 15) / 16 * 16.
Proof.
  unfold SIZE_MAX, HEAP_ALIGN_UP, HEAP_ALIGN. intros Hx.
  assert (x +w 16 -w 1 = x + 15) as ->.
  { unfold add64, sub64, wrap64. rewrite Zminus_mod_idemp_l. rewrite Z.mod_small; lia. }
  change (16 - 1) with (2 ^ 4 - 1). rewrite land_not_low by (unfold is_u64; lia).
  change (2 ^ 4) with 16. dlia.
Qed.

Lemma kmalloc_wf h l sz :
  heap_wf h l → 0 < sz ≤ SIZE_MAX - 15 →
  ∃ r h' l', kmalloc h sz = Some (r, h') ∧ rtc grows h h' ∧ heap_wf h' l' ∧
    alloc_outcome l l' (HEAP_ALIGN_UP sz) r.
Proof.
  intros Hwf Hsz. unfold kmalloc. rewrite decide_False by lia.
  rewrite decide_False by (unfold HEAP_ALIGN; lia). pose proof (HEAP_ALIGN_UP_spec sz Hsz) as E.
  destruct (attempts_wf h l (HEAP_ALIGN_UP sz) 2) as (r & h' & l' & ? & ? & ? & Hc);
    [done|rewrite E; dlia|rewrite E; dlia|].
  exists r, h', l'. split; [done|]. split; [done|]. split; [done|].
  destruct Hc as [(? & ? & [?|?])|?]; [done|by left|by right].
Qed.

(** ** Initialisation *)

Lemma heap_init_wf s :
  pa_inv s →
  ∃ h, heap_init (mk_heap 0 ∅ [] s) = Some h ∧
    (heap_head h = 0 ∨ ∃ b, b_free b = true ∧ heap_wf h [b] ∧ b_span b = 1024 * 1024).
Proof.
  intros Hi. unfold heap_init. simpl.
  destruct (pa_alloc_pages_ok s HEAP_INITIAL_PAGES) as (phys & s' & -> & Hi' & Hc); [done..|]. simpl.
  destruct Hc as [[-> ->]|[Hdis Hf]].
  { eexists. split; [done|]. by left. }
  destruct (fresh_pages s s' phys HEAP_INITIAL_PAGES) as (Hp0 & Hpa & Hlim & Hva); [done..|].
  rewrite decide_False by lia. eexists. split; [done|]. right.
  set (va := PHYS_TO_VIRT phys) in *.
  change (HEAP_INITIAL_PAGES *w PAGE_SIZE) with 1048576.
  unfold HEAP_INITIAL_PAGES, PHYS_LIMIT, KERNEL_VA_OFFSET, PAGE_SIZE in *.
  exists (mk_blk va (1048576 - 32) true). split; [done|]. split; [|done].
  constructor; simpl.
  - split; [done|]. split; [lia|]. exists 0. by rewrite lookup_insert_eq.
  - done.
  - constructor; [|done]. unfold blk_ok, b_end. simpl. do 2 (split; [lia || dlia|]).
    split; [done|]. split; [done|]. split; [lia|]. intros x Hx. exists (va, 1048576).
    split; [by left|]. simpl. lia.
  - by repeat constructor.
  - done.
  - constructor; [|done]. exists phys, 256. split; [done|]. split; [done|]. set_solver.
  - unfold HEAP_MAX_REGIONS. lia.
  - done.
Qed.

(** ** Statistics *)

Lemma sum_sizes_spec m want a l acc fuel :
  seg m a l 0 → (length l < fuel)%nat → Forall (λ b, 0 ≤ b_size b) l →
  0 ≤ acc → acc + zsum b_span l < 2 ^ 64 →
  sum_sizes m want a acc fuel =
    Some (acc + zsum b_size (filter (λ b, b_free b = want) l)).
Proof.
  revert a acc fuel. induction l as [|b l IH]; intros a acc fuel Hs Hf Hpos Hacc Hlim;
    (destruct fuel as [|fuel]; [simpl in *; lia|]); cbn [sum_sizes].
  - simpl in Hs. subst a. rewrite decide_True by done. f_equal. unfold zsum. simpl. lia.
  - destruct Hs as (-> & Hne & nx & Hm & Hs). rewrite decide_False by done.
    rewrite (hdr_at_Some _ _ _ Hm), filter_cons, (bool_decide_ext _ _ (is_free_of b nx)).
    rewrite zsum_cons in Hlim. rewrite Forall_cons in Hpos. destruct Hpos as [Hb Hl].
    assert (0 ≤ zsum b_span l) as Hnn.
    { clear -Hl. induction Hl; [done|]. rewrite zsum_cons. unfold b_span at 1. lia. }
    unfold b_span at 1 in Hlim. cbn [bh_size bh_next hdr_of] in *.
    assert (bool_decide (b_free b = true) = want ↔ b_free b = want) as Hiff
      by (destruct (b_free b), want; done).
    rewrite (decide_ext _ _ _ _ Hiff). simpl in Hf. destruct (decide (b_free b = want)).
    + rewrite add64_small by lia. rewrite (IH nx) by (done || lia). rewrite zsum_cons. f_equal. lia.
    + by rewrite (IH nx) by (done || lia).
Qed.

Lemma heap_total_small h l : heap_wf h l → 0 ≤ zsum snd (regions h) < 2 ^ 60.
Proof.
  intros []. unfold HEAP_MAX_REGIONS in *.
  assert (∀ rs, Forall (region_ok (pages h)) rs →
    0 ≤ zsum snd rs ≤ Z.of_nat (length rs) * 2 ^ 40) as Hsum.
  { induction 1 as [|r rs (p & n & -> & Hn & Hsub) Hrs IH]; [done|]. rewrite zsum_cons.
    assert (pa_frames (pages h) = pages_at p n ∪ pa_frames (pages h)) as Hf by set_solver.
    destruct (fresh_pages _ _ _ _ hw_pages0 Hn Hf) as (? & _ & ? & _).
    unfold PHYS_LIMIT, PAGE_SIZE in *. cbn [length snd] in *. lia. }
  pose proof (Hsum _ hw_regions0). lia.
Qed.

Lemma foldl_add64 rs acc :
  0 ≤ acc → Forall (λ r : Z * Z, 0 ≤ r.2) rs → acc + zsum snd rs < 2 ^ 64 →
  foldl (λ total (r : Z * Z), total +w r.2) acc rs = acc + zsum snd rs.
Proof.
  revert acc. induction rs as [|r rs IH]; intros acc Ha Hr Hlim; simpl; [unfold zsum; simpl; lia|].
  rewrite Forall_cons in Hr. destruct Hr as [Hr Hrs]. rewrite zsum_cons in *.
  assert (0 ≤ zsum snd rs).
  { clear -Hrs. induction Hrs; [done|]. rewrite zsum_cons. lia. }
  rewrite add64_small by lia. rewrite IH by (done || lia). lia.
Qed.

(** ** Sequences of calls *)

(** One call of the heap's interface, or a client writing memory that is not
    a block header. *)
Inductive heap_step : heap S → heap S → Prop :=
  | hs_malloc h sz r h' : 0 ≤ sz → kmalloc h sz = Some (r, h') → heap_step h h'
  | hs_free h l p n h' :
      heap_wf h l → allocated l p n → kfree h p = Some h' → heap_step h h'
  | hs_free_bad h p h' :
      bh_magic (hdr_at (hdrs h) (p -w 32)) ≠ BLOCK_MAGIC_ALLOC → kfree h p = Some h' →
      heap_step h h'
  | hs_client h l m' :
      heap_wf h l → (∀ b, b ∈ l → m' !! b_addr b = hdrs h !! b_addr b) →
      heap_step h (set_hdrs h m').

Lemma heap_step_wf h l h' : heap_wf h l → heap_step h h' → ∃ l', heap_wf h' l'.
Proof.
  intros Hwf Hs. inversion Hs as [? sz r ? Hsz E|? l0 p n ? Hwf0 Ha E|? p ? Hm E|? l0 m' Hwf0 Hm]; subst.
  - destruct (decide (0 < sz ≤ SIZE_MAX - 15)) as [Hr|Hr].
    + destruct (kmalloc_wf h l sz Hwf Hr) as (? & ? & l' & E' & _ & ? & _). simplify_eq. eauto.
    + unfold kmalloc in E. case_decide; [simplify_eq; eauto|].
      rewrite decide_True in E by (unfold HEAP_ALIGN; lia). simplify_eq. eauto.
  - destruct (kfree_live h l0 p n Hwf0 Ha) as (? & l' & E' & ? & _). simplify_eq. eauto.
  - rewrite (kfree_refused h l p Hwf) in E by auto. simplify_eq. eauto.
  - exists l0. destruct Hwf0. constructor; simpl; try done. by eapply seg_frame.
Qed.

Lemma heap_reachable_wf h l h' : heap_wf h l → rtc heap_step h h' → ∃ l', heap_wf h' l'.
Proof.
  intros Hwf Hs. revert l Hwf. induction Hs as [h|h h1 h2 H1 _ IH]; intros l Hwf; [eauto|].
  destruct (heap_step_wf _ _ _ Hwf H1) as [l1 Hwf1]. eauto.
Qed.

(** Distinct live allocations do not share a byte. *)
Lemma allocated_disjoint h l p n q k :
  heap_wf h l → allocated l p n → allocated l q k → p ≠ q → p + n ≤ q ∨ q + k ≤ p.
Proof.
  intros [] (b & Hb & _ & -> & ->) (c & Hc & _ & -> & ->) Hne.
  apply list_elem_of_split in Hb as (l1 & l2 & ->).
  apply pairwise_app in hw_disj0 as (_ & [Hbl _] & Hcross). rewrite Forall_forall in Hbl.
  assert (blk_disj b c) as Hd.
  { apply elem_of_app in Hc as [Hc|[->|Hc]%elem_of_cons]; [|done|by apply Hbl].
    apply blk_disj_sym, Hcross; [done|by left]. }
  unfold blk_disj, b_end in Hd. lia.
Qed.
End Invariant.

(** ** A concrete heap over the bitmap allocator *)

Definition demo_heap : heap pmm :=
  from_option id (mk_heap 0 ∅ [] demo_pages) (heap_init (mk_heap 0 ∅ [] demo_pages)).

Definition demo_blk : blk := mk_blk 0xFFFF000040003000 (1024 * 1024 - 32) true.

Lemma demo_heap_wf : heap_wf demo_heap [demo_blk].
Proof.
  destruct (heap_init_wf demo_pages demo_pages_inv) as (h & E & [H0|(b & Hf & Hwf & Hsp)]).
  - exfalso. assert (heap_head demo_heap = 0) as H by (unfold demo_heap; by rewrite E).
    vm_compute in H. done.
  - assert (demo_heap = h) as -> by (unfold demo_heap; by rewrite E).
    assert (heap_head h = b_addr demo_blk) as Hh.
    { assert (h = demo_heap) as -> by (unfold demo_heap; by rewrite E). vm_compute. done. }
    assert (b = demo_blk) as <-; [|done].
    destruct b as [ba bs bf]. unfold demo_blk, b_span in *. simpl in *.
    pose proof Hwf as [(Ha & _) _ _ _ _ _ _ _]. simpl in Ha. f_equal; [congruence|lia|done].
Qed.

(** ** Properties *)

(** [kmalloc] on any well-formed heap and any [size_t] request always
    returns: a null result leaves every live allocation as it was and happens
    only for a zero or overflowing size or when no free block is large
    enough; otherwise the result is a 16-byte aligned pointer to at least
    [sz] bytes that was not live before, and the live allocations afterwards
    are exactly the old ones and the new one.  The well-formedness of the new
    heap includes that the blocks are disjoint and tile the regions. *)
Theorem kmalloc_correct {S} `{!PageAllocator S} (h : heap S) l sz :
  heap_wf h l → is_u64 sz →
  ∃ r h' l', kmalloc h sz = Some (r, h') ∧ heap_wf h' l' ∧
    if decide (sz = 0 ∨ SIZE_MAX - 15 < sz) then r = 0 ∧ h' = h
    else sz ≤ HEAP_ALIGN_UP sz ∧ alloc_outcome l l' (HEAP_ALIGN_UP sz) r.
Proof.
  intros Hwf Hsz. unfold is_u64 in Hsz. case_decide as Hbad.
  - exists 0, h, l. split; [|done]. unfold kmalloc. case_decide; [done|].
    rewrite decide_True; [done|]. unfold HEAP_ALIGN. lia.
  - destruct (kmalloc_wf h l sz) as (r & h' & l' & ? & _ & ? & ?); [done|lia|].
    exists r, h', l'. rewrite HEAP_ALIGN_UP_spec in * by lia. split_and!; try done. dlia.
Qed.

Lemma kmalloc_correct_witness :
  heap_wf demo_heap [demo_blk] ∧ is_u64 100 ∧
  ∃ r h', kmalloc demo_heap 100 = Some (r, h') ∧ r = 0xFFFF000040003020.
Proof.
  split; [apply demo_heap_wf|]. split; [done|].
  destruct (kmalloc_correct demo_heap [demo_blk] 100 demo_heap_wf ltac:(done))
    as (r & h' & l' & E & _).
  exists r, h'. split; [exact E|].
  assert (fst <$> kmalloc demo_heap 100 = Some 0xFFFF000040003020) as Er by (vm_compute; done).
  rewrite E in Er. by inversion Er.
Defined.

(** C15. [kfree] of a live allocation removes exactly that allocation, keeps
    every other one in place, leaves a well-formed heap in which no two
    adjacent free neighbours remain to be merged, and a second [kfree] of the
    same pointer is refused without changing anything. *)
Theorem kfree_correct {S} `{!PageAllocator S} (h : heap S) l p n :
  heap_wf h l → allocated l p n →
  ∃ h' l', kfree h p = Some h' ∧ heap_wf h' l' ∧ coalesced l' ∧
    (∀ q k, allocated l' q k ↔ allocated l q k ∧ q ≠ p) ∧ kfree h' p = Some h'.
Proof.
  intros Hwf Ha. destruct (kfree_live h l p n Hwf Ha)
    as (h' & l' & E & Hwf' & Hc & _ & _ & Hm & Hall).
  exists h', l'. split_and!; try done. apply (kfree_refused h' l'); [done|].
  right. right. by rewrite Hm.
Qed.

(** A heap with one live allocation. *)
Lemma demo_alloc :
  ∃ h l, kmalloc demo_heap 100 = Some (0xFFFF000040003020, h) ∧ heap_wf h l ∧
    ∃ n, allocated l 0xFFFF000040003020 n.
Proof.
  destruct (kmalloc_wf demo_heap [demo_blk] 100) as (r & h & l & E & _ & Hwf & Hc);
    [apply demo_heap_wf|done|].
  assert (fst <$> kmalloc demo_heap 100 = Some 0xFFFF000040003020) as Er by (vm_compute; done).
  rewrite E in Er. simpl in Er. assert (r = 0xFFFF000040003020) as -> by congruence.
  exists h, l. split_and!; [done..|]. destruct Hc as [(? & _)|(n & _ & _ & _ & _ & Hall)]; [done|].
  exists n. apply Hall. auto.
Qed.

Lemma kfree_correct_witness :
  ∃ h l n h', heap_wf h l ∧ allocated l 0xFFFF000040003020 n ∧
    kfree h 0xFFFF000040003020 = Some h' ∧ kfree h' 0xFFFF000040003020 = Some h'.
Proof.
  destruct demo_alloc as (h & l & _ & Hwf & n & Ha).
  destruct (kfree_correct h l 0xFFFF000040003020 n Hwf Ha) as (h' & l' & ? & _ & _ & _ & ?).
  exists h, l, n, h'. split_and!; assumption.
Defined.

(** Pointers [kfree] must not act on (null, outside every heap region, or
    whose header does not carry the allocation magic: wild pointers and blocks
    already freed) leave the heap untouched. *)
Theorem kfree_rejects {S} `{!PageAllocator S} (h : heap S) l p :
  heap_wf h l →
  p = 0 ∨ ¬ in_regions (regions h) (p -w 32) ∨
    bh_magic (hdr_at (hdrs h) (p -w 32)) ≠ BLOCK_MAGIC_ALLOC →
  kfree h p = Some h.
Proof. apply kfree_refused. Qed.

Lemma kfree_rejects_witness :
  heap_wf demo_heap [demo_blk] ∧ kfree demo_heap 0xFFFF000040003020 = Some demo_heap.
Proof.
  split; [apply demo_heap_wf|]. apply (kfree_rejects demo_heap [demo_blk]); [apply demo_heap_wf|].
  right. right. vm_compute. discriminate.
Defined.

(** C8. Memory safety of the heap over its lifetime: after [heap_init] and
    any sequence of [kmalloc], [kfree] (of live pointers, or of pointers
    without the allocation magic) and client writes outside block headers,
    the heap is well formed, two live allocations never overlap, and every
    byte of a live allocation lies in a region taken from the page allocator. *)
Theorem heap_safe {S} `{!PageAllocator S} (s : S) h0 h :
  pa_inv s → heap_init (mk_heap 0 ∅ [] s) = Some h0 → heap_head h0 ≠ 0 → rtc heap_step h0 h →
  ∃ l, heap_wf h l ∧
    (∀ p n q k, allocated l p n → allocated l q k → p ≠ q → p + n ≤ q ∨ q + k ≤ p) ∧
    (∀ p n x, allocated l p n → p ≤ x < p + n → in_regions (regions h) x).
Proof.
  intros Hi E Hne Hs. destruct (heap_init_wf s Hi) as (h1 & E1 & [?|(b & _ & Hwf & _)]);
    [congruence|]. assert (h1 = h0) as -> by congruence.
  destruct (heap_reachable_wf h0 [b] h Hwf Hs) as [l Hl]. exists l. split; [done|]. split.
  - intros p n q k. by apply (allocated_disjoint h).
  - intros p n x (c & Hc & _ & -> & ->) Hx. destruct Hl. rewrite Forall_forall in hw_blocks0.
    destruct (hw_blocks0 c Hc) as (_ & _ & _ & _ & _ & Hin). apply Hin. unfold b_end. lia.
Qed.

Lemma heap_safe_witness :
  pa_inv demo_pages ∧ heap_head demo_heap ≠ 0 ∧
  ∃ h l, rtc heap_step demo_heap h ∧ heap_wf h l.
Proof.
  destruct demo_alloc as (h & _ & E & _).
  assert (rtc heap_step demo_heap h) as Hs by (eapply rtc_once, (hs_malloc _ 100); [done|exact E]).
  assert (heap_init (mk_heap 0 ∅ [] demo_pages) = Some demo_heap) as Ei.
  { destruct (heap_init_wf demo_pages demo_pages_inv) as (h1 & E1 & _).
    unfold demo_heap. rewrite E1. reflexivity. }
  assert (heap_head demo_heap ≠ 0) as Hne by (vm_compute; discriminate).
  split; [apply demo_pages_inv|]. split; [exact Hne|].
  destruct (heap_safe demo_pages demo_heap h demo_pages_inv Ei Hne Hs) as (l & Hwf & _).
  exists h, l. split; assumption.
Defined.

(** The statistics account for every byte: used payload, free payload and
    one header per block add up to the bytes of all regions. *)
Theorem heap_accounting {S} `{!PageAllocator S} (h : heap S) l :
  heap_wf h l →
  ∃ u f, heap_used_bytes h = Some u ∧ heap_free_bytes h = Some f ∧
    u + f + BLOCK_HEADER_SIZE * Z.of_nat (length l) = heap_total_bytes h.
Proof.
  intros Hwf. pose proof (heap_total_small h l Hwf) as Htot.
  pose proof (heap_wf_fuel h l Hwf) as Hfuel. pose proof Hwf as [].
  assert (Forall (λ b, 0 ≤ b_size b) l) as Hpos.
  { eapply Forall_impl; [exact hw_blocks0|]. intros b (_&_&?&_). lia. }
  unfold heap_used_bytes, heap_free_bytes.
  rewrite !(sum_sizes_spec _ _ _ l) by (done || lia).
  eexists _, _. split; [done|]. split; [done|].
  unfold heap_total_bytes. rewrite foldl_add64; [|done| |lia].
  - rewrite <- hw_total0, header_size. clear. induction l as [|b l IH]; [done|].
    rewrite zsum_cons, length_cons, !filter_cons. unfold b_span at 1.
    destruct (b_free b); [rewrite decide_False, decide_True by done|
      rewrite decide_True, decide_False by done]; rewrite zsum_cons; lia.
  - eapply Forall_impl; [exact hw_regions0|]. intros r (p & n & -> & ? & _).
    unfold PAGE_SIZE. simpl. lia.
Qed.

Lemma heap_accounting_witness :
  heap_wf demo_heap [demo_blk] ∧
  ∃ u f, heap_used_bytes demo_heap = Some u ∧ heap_free_bytes demo_heap = Some f ∧
    u + f + 32 = 1024 * 1024.
Proof.
  split; [apply demo_heap_wf|].
  destruct (heap_accounting demo_heap [demo_blk] demo_heap_wf) as (u & f & Hu & Hf & E).
  exists u, f. split; [exact Hu|]. split; [exact Hf|]. exact E.
Defined.
