(* ===== verification/KernelMem.v ===== *)
(** The kernel-memory interface.

    [KernelMem] is what [kmalloc]/[kfree] and the page allocator together
    promise to the layers above them (VMA records, descriptor tables): the set
    of live heap pointers and the set of page frames handed to clients, and
    how each call changes them.  [heap_kernel_mem] discharges the class for
    the code of heap.c over any page allocator, in particular over pmm.c. *)
From S2P Require Import Prelude Pmm PageAlloc Heap.

Class KernelMem (M : Type) := {
  km_inv : M → Prop;
  km_live : M → gset Z;
  km_frames : M → gset Z;
  km_malloc : M → Z → option (Z * M);
  km_free : M → Z → option M;
  km_alloc_page : M → option (Z * M);
  km_free_page : M → Z → option M;
  km_null m : km_inv m → (0 ∉ km_live m) ∧ (0 ∉ km_frames m);
  km_frames_page m a :
    km_inv m → a ∈ km_frames m → 0 < a ∧ a mod PAGE_SIZE = 0 ∧ a + PAGE_SIZE ≤ PHYS_LIMIT;
  km_malloc_ok m sz :
    km_inv m → is_u64 sz →
    ∃ r m', km_malloc m sz = Some (r, m') ∧ km_inv m' ∧ km_frames m' = km_frames m ∧
      ((r = 0 ∧ km_live m' = km_live m) ∨ (r ∉ km_live m) ∧ km_live m' = {[r]} ∪ km_live m);
  km_free_ok m p :
    km_inv m → p ∈ km_live m →
    ∃ m', km_free m p = Some m' ∧ km_inv m' ∧ km_frames m' = km_frames m ∧
      km_live m' = km_live m ∖ {[p]};
  km_alloc_page_ok m :
    km_inv m →
    ∃ r m', km_alloc_page m = Some (r, m') ∧ km_inv m' ∧ km_live m' = km_live m ∧
      ((r = 0 ∧ m' = m) ∨ (r ∉ km_frames m) ∧ km_frames m' = {[r]} ∪ km_frames m);
  km_free_page_ok m a :
    km_inv m → a ∈ km_frames m →
    ∃ m', km_free_page m a = Some m' ∧ km_inv m' ∧ km_live m' = km_live m ∧
      km_frames m' = km_frames m ∖ {[a]};
}.

(** The client's side of kernel memory is itself a source of pages: page
    tables and records can be built from the same memory. *)
#[export] Program Instance km_page_source {M} `{!KernelMem M} : PageSource M := {|
  pa_inv := km_inv;
  pa_frames := km_frames;
  pa_alloc_page := km_alloc_page;
|}.
Next Obligation. intros M HM m a. apply km_frames_page. Qed.
Next Obligation.
  intros M HM m Hm. destruct (km_alloc_page_ok m Hm) as (r & m' & E & Hm' & _ & Hc). exists r, m'. done.
Qed.

(** ** heap.c over a page allocator implements the interface *)

(** Reading the block list back from memory. *)
Fixpoint block_list (m : gmap Z block_header) (cur : Z) (fuel : nat) : list blk :=
  match fuel with
  | O => []
  | S f =>
      if decide (cur = 0) then []
      else let b := hdr_at m cur in
           mk_blk cur (bh_size b) (bool_decide (bh_is_free b ≠ 0)) :: block_list m (bh_next b) f
  end.

Lemma block_list_seg m a l fuel :
  seg m a l 0 → (length l < fuel)%nat → block_list m a fuel = l.
Proof.
  revert a fuel. induction l as [|b l IH]; intros a fuel Hs Hf;
    (destruct fuel as [|fuel]; [simpl in *; lia|]); cbn [block_list].
  - simpl in Hs. by rewrite decide_True.
  - destruct Hs as (-> & Hne & nx & Hm & Hs). rewrite decide_False by done.
    rewrite (hdr_at_Some _ _ _ Hm), (IH nx) by (done || simpl in *; lia).
    rewrite (bool_decide_ext _ _ (is_free_of b nx)). f_equal.
    destruct b as [ba bs []]; done.
Qed.

Section Instance.
Context {S : Type} `{!PageAllocator S}.
Implicit Types s : S.

Definition heap_blocks (h : heap S) : list blk :=
  block_list (hdrs h) (heap_head h) (walk_fuel (hdrs h)).

Lemma heap_blocks_wf h l : heap_wf h l → heap_blocks h = l.
Proof. intros Hwf. apply block_list_seg; [apply Hwf|by apply heap_wf_fuel]. Qed.

Definition live_ptrs (l : list blk) : gset Z :=
  list_to_set ((λ b, b_addr b + 32) <$> filter (λ b, b_free b = false) l).

Lemma elem_of_live_ptrs l p : p ∈ live_ptrs l ↔ ∃ n, allocated l p n.
Proof.
  unfold live_ptrs, allocated. rewrite elem_of_list_to_set, list_elem_of_fmap.
  setoid_rewrite list_elem_of_filter. naive_solver.
Qed.

(** The pages of the heap's own regions. *)
Definition region_pages (r : Z * Z) : gset Z := pages_at (VIRT_TO_PHYS r.1) (r.2 / PAGE_SIZE).
Definition heap_pages (rs : list (Z * Z)) : gset Z := ⋃ (region_pages <$> rs).

Definition client_frames (h : heap S) : gset Z := pa_frames (pages h) ∖ heap_pages (regions h).

Definition heap_inv (h : heap S) : Prop := heap_wf h (heap_blocks h).

Lemma heap_pages_app rs r : heap_pages (rs ++ [r]) = heap_pages rs ∪ region_pages r.
Proof. unfold heap_pages. rewrite fmap_app, union_list_app_L. simpl. set_solver. Qed.

Lemma region_pages_ok s phys n :
  pa_inv s → 0 < n → pages_at phys n ⊆ pa_frames s →
  region_pages (PHYS_TO_VIRT phys, n * PAGE_SIZE) = pages_at phys n.
Proof.
  intros Hi Hn Hs. assert (pa_frames s = pages_at phys n ∪ pa_frames s) as Hf by set_solver.
  destruct (fresh_pages s s phys n Hi Hn Hf) as (? & _ & ? & Hv).
  unfold region_pages, VIRT_TO_PHYS. simpl. rewrite Hv. unfold PHYS_LIMIT, PAGE_SIZE in *.
  rewrite sub64_small by lia. rewrite Z.div_mul by done. f_equal. lia.
Qed.

Lemma heap_pages_frames h l : heap_wf h l → heap_pages (regions h) ⊆ pa_frames (pages h).
Proof.
  intros [_ _ _ _ _ Hr _ Hi] x. unfold heap_pages. rewrite elem_of_union_list.
  intros (X & HX & Hx). apply list_elem_of_fmap in HX as (r & -> & Hin).
  rewrite Forall_forall in Hr. destruct (Hr r Hin) as (p & n & -> & Hn & Hs).
  rewrite (region_pages_ok (pages h)) in Hx by done. by apply Hs.
Qed.

(** Growth gives the heap its own pages and leaves the clients' alone. *)
Lemma grows_client_frames h h' : grows h h' → client_frames h' = client_frames h.
Proof.
  unfold client_frames. intros [[-> ->]|(phys & n & Hn & Hi & Hdis & Hf & ->)]; [done|].
  rewrite heap_pages_app, (region_pages_ok (pages h')) by (done || set_solver).
  rewrite Hf. set_solver.
Qed.

Lemma rtc_grows_client_frames h h' : rtc grows h h' → client_frames h' = client_frames h.
Proof. induction 1 as [|h h1 h2 Hg _ IH]; [done|]. rewrite IH. by apply grows_client_frames. Qed.

Definition heap_live (h : heap S) : gset Z := live_ptrs (heap_blocks h).

Lemma heap_live_wf h l p : heap_wf h l → p ∈ heap_live h ↔ ∃ n, allocated l p n.
Proof. intros Hwf. unfold heap_live. by rewrite (heap_blocks_wf h l), elem_of_live_ptrs. Qed.

Lemma heap_inv_wf h l : heap_wf h l → heap_inv h.
Proof. intros Hwf. unfold heap_inv. by rewrite (heap_blocks_wf h l). Qed.

(** The page operations act on the page state below the heap. *)
Definition heap_alloc_page (h : heap S) : option (Z * heap S) :=
  '(r, s) ← pa_alloc_page (pages h);
  Some (r, mk_heap (heap_head h) (hdrs h) (regions h) s).

Definition heap_free_page (h : heap S) (a : Z) : option (heap S) :=
  s ← pa_free_page (pages h) a;
  Some (mk_heap (heap_head h) (hdrs h) (regions h) s).

(** Any page state that keeps the heap's own pages keeps the heap well formed. *)
Lemma heap_wf_pages h l s :
  heap_wf h l → pa_inv s → heap_pages (regions h) ⊆ pa_frames s →
  heap_wf (mk_heap (heap_head h) (hdrs h) (regions h) s) l.
Proof.
  intros [? ? ? ? ? Hreg ? ?] Hi Hsub. constructor; simpl; try done.
  rewrite Forall_forall in Hreg |- *.
  intros r Hr. destruct (Hreg r Hr) as (p & n & -> & Hn & Hs). exists p, n.
  split_and!; [done..|]. intros x Hx. apply Hsub. unfold heap_pages.
  apply elem_of_union_list. exists (region_pages (PHYS_TO_VIRT p, n * PAGE_SIZE)).
  split; [apply list_elem_of_fmap; eauto|]. by rewrite (region_pages_ok (pages h)).
Qed.

#[export] Program Instance heap_kernel_mem : KernelMem (heap S) := {|
  km_inv := heap_inv;
  km_live := heap_live;
  km_frames := client_frames;
  km_malloc := kmalloc;
  km_free := kfree;
  km_alloc_page := heap_alloc_page;
  km_free_page := heap_free_page;
|}.
Next Obligation.
  intros h Hwf. split.
  - rewrite (heap_live_wf h (heap_blocks h)) by done. intros (n & b & Hb & _ & E & _).
    pose proof (hw_blocks _ _ Hwf) as Hok. rewrite Forall_forall in Hok.
    destruct (Hok b Hb) as (? & _). lia.
  - unfold client_frames. intros [H0 _]%elem_of_difference.
    apply pa_frames_page in H0; [lia|apply Hwf].
Qed.
Next Obligation.
  intros h a Hwf Ha. apply elem_of_difference in Ha as [Ha _]. apply (pa_frames_page (pages h)); [apply Hwf|done].
Qed.
Next Obligation.
  intros h sz Hwf [H0 H1]. destruct (decide (0 < sz ≤ SIZE_MAX - 15)) as [Hr|Hr].
  - destruct (kmalloc_wf h (heap_blocks h) sz Hwf Hr) as (r & h' & l' & E & Hg & Hwf' & Hc).
    exists r, h'. split; [done|]. split; [by eapply heap_inv_wf|].
    split; [by apply rtc_grows_client_frames|]. destruct Hc as [(-> & Hall & _)|(n & Hpos & _ & _ & Hno & Hall)].
    + left. split; [done|]. apply set_eq. intros q.
      rewrite (heap_live_wf h' l'), (heap_live_wf h (heap_blocks h)) by done. by setoid_rewrite Hall.
    + right. rewrite (heap_live_wf h (heap_blocks h)) by done. split; [naive_solver|].
      apply set_eq. intros q. rewrite elem_of_union, elem_of_singleton.
      rewrite (heap_live_wf h' l'), (heap_live_wf h (heap_blocks h)) by done.
      setoid_rewrite Hall. naive_solver.
  - exists 0, h. split; [|auto]. unfold kmalloc. case_decide; [done|].
    rewrite decide_True; [done|]. unfold HEAP_ALIGN. lia.
Qed.
Next Obligation.
  intros h p Hwf [n Hn]%(heap_live_wf h (heap_blocks h)); [|done].
  destruct (kfree_live h (heap_blocks h) p n Hwf Hn) as (h' & l' & E & Hwf' & _ & Hr & Hp & _ & Hall).
  exists h'. split; [done|]. split; [by eapply heap_inv_wf|]. split.
  - unfold client_frames. by rewrite Hr, Hp.
  - apply set_eq. intros q. rewrite elem_of_difference, elem_of_singleton.
    rewrite (heap_live_wf h' l'), (heap_live_wf h (heap_blocks h)) by done.
    setoid_rewrite Hall. naive_solver.
Qed.
Next Obligation.
  intros h Hwf. unfold heap_alloc_page.
  destruct (pa_alloc_page_ok (pages h)) as (r & s & -> & Hi & Hc); [apply Hwf|]. simpl.
  pose proof (heap_pages_frames h _ Hwf) as Hsub.
  set (h' := mk_heap (heap_head h) (hdrs h) (regions h) s). exists r, h'. split; [done|].
  destruct Hc as [[-> ->]|[Hr Hf]].
  - assert (h' = h) as -> by (by destruct h). split; [done|]. split; [done|]. by left.
  - assert (heap_wf h' (heap_blocks h)) as Hwf' by (apply heap_wf_pages; set_solver).
    split; [by eapply heap_inv_wf|]. split; [done|]. right. unfold client_frames. simpl.
    split; [set_solver|]. rewrite Hf. set_solver.
Qed.
Next Obligation.
  intros h a Hwf [Ha Hno]%elem_of_difference. unfold heap_free_page.
  destruct (pa_free_page_ok (pages h) a) as (s & -> & Hi & Hf & _); [apply Hwf|]. simpl.
  pose proof (heap_pages_frames h _ Hwf) as Hsub.
  eexists. split; [done|].
  assert (heap_wf (mk_heap (heap_head h) (hdrs h) (regions h) s) (heap_blocks h)) as Hwf'
    by (apply heap_wf_pages; set_solver).
  split; [by eapply heap_inv_wf|]. split; [done|]. unfold client_frames. simpl. rewrite Hf. set_solver.
Qed.
End Instance.

(** The demonstration heap satisfies the interface's invariant. *)
Lemma demo_km_inv : km_inv demo_heap.
Proof. eapply heap_inv_wf, demo_heap_wf. Qed.
