(* ===== verification/Vma.v ===== *)
(** Virtual memory areas: [src/src/mm/vma/vma.c] and [vma.h].

    A [vma_set] is the list of its [count] live entries in array order (slots
    at or above [count] are never read).  Every entry points to a page array
    in kernel memory: [kst] holds the kernel-memory state and the contents of
    the arrays, so that allocation failures, frees and accesses out of bounds
    or after free ([None]) are explicit.  A pointer into the set is the index
    of the entry.  The callers always pass a non-null set.

    The abstract view of a set is [maps]: which address is mapped with which
    protection, flags and backing page.  The theorems state every operation on
    that view; [vma_wf] is the representation invariant.  Memory comes from
    the [KernelMem] interface. *)
From S2P Require Import Prelude Pmm PageAlloc Heap KernelMem.

Definition VMA_MAX_PER_TASK : nat := 32.
Definition VMA_ANONYMOUS : Z := 1.
Definition VMA_SHARED : Z := 2.
Definition VMA_PROT_READ : Z := 1.
Definition VMA_PROT_WRITE : Z := 2.
Definition VMA_PROT_EXEC : Z := 4.

Record vma := mk_vma {
  v_start : Z;
  v_end : Z;
  v_prot : Z;
  v_flags : Z;
  v_pages : Z;
  v_next : Z;
}.

#[global] Instance vma_eq_dec : EqDecision vma.
Proof. solve_decision. Defined.

Record kst (M : Type) := mk_kst { kmem : M; arrs : gmap Z (list Z) }.
Arguments mk_kst {M}.
Arguments kmem {M}.
Arguments arrs {M}.

(** ** Lookup and insertion *)

Definition vma_npages (v : vma) : Z := (v_end v -w v_start v) / PAGE_SIZE.

Definition vma_init : list vma := [].
Definition vma_count (es : list vma) : Z := Z.of_nat (length es).

Definition vma_find (es : list vma) (va : Z) : option nat :=
  fst <$> list_find (λ v, v_start v ≤ va ∧ va < v_end v) es.

Definition vma_find_overlap (es : list vma) (start en : Z) : option nat :=
  fst <$> list_find (λ v, start < v_end v ∧ v_start v < en) es.

(** The shift loop, from index [idx] down. *)
Fixpoint insert_index (es : list vma) (start : Z) (idx : nat) : nat :=
  match idx with
  | O => O
  | S i =>
      match es !! i with
      | Some e => if decide (start < v_start e) then insert_index es start i else idx
      | None => idx
      end
  end.

Definition vma_insert_sorted (es : list vma) (v : vma) : list vma :=
  let idx := insert_index es (v_start v) (length es) in
  take idx es ++ v :: drop idx es.

Section Ops.
Context {M : Type} `{!KernelMem M}.

(** [n] array entries from index [off] of the array at [p]. *)
Definition read_array (st : kst M) (p off n : Z) : option (list Z) :=
  l ← arrs st !! p;
  if decide (0 ≤ off ∧ 0 ≤ n ∧ off + n ≤ Z.of_nat (length l))
  then Some (take (Z.to_nat n) (drop (Z.to_nat off) l)) else None.

Definition free_array (st : kst M) (p : Z) : option (kst M) :=
  m ← km_free (kmem st) p;
  Some (mk_kst m (delete p (arrs st))).

Definition vma_add (st : kst M) (es : list vma) (start en prot flags : Z) :
    option (option nat * (kst M * list vma)) :=
  if decide (en ≤ start) then Some (None, (st, es))
  else if decide (start mod PAGE_SIZE ≠ 0 ∨ en mod PAGE_SIZE ≠ 0) then Some (None, (st, es))
  else if decide (VMA_MAX_PER_TASK ≤ length es)%nat then Some (None, (st, es))
  else match vma_find_overlap es start en with
  | Some _ => Some (None, (st, es))
  | None =>
      let npages := (en -w start) / PAGE_SIZE in
      if decide (2 ^ 20 < npages) then Some (None, (st, es))
      else
        '(p, m) ← km_malloc (kmem st) (npages *w 8);
        if decide (p = 0) then Some (None, (mk_kst m (arrs st), es))
        else
          let st' := mk_kst m (<[p := replicate (Z.to_nat npages) 0]> (arrs st)) in
          let es' := vma_insert_sorted es (mk_vma start en prot flags p 0) in
          Some (vma_find es' start, (st', es'))
  end.

Definition vma_split_at (st : kst M) (es : list vma) (va : Z) :
    option (Z * (kst M * list vma)) :=
  if decide (va mod PAGE_SIZE ≠ 0) then Some (0, (st, es))
  else match vma_find es va with
  | None => Some (1, (st, es))
  | Some i =>
      v ← es !! i;
      if decide (v_start v = va ∨ v_end v = va) then Some (1, (st, es))
      else if decide (VMA_MAX_PER_TASK ≤ length es)%nat then Some (0, (st, es))
      else
        let head_pages := (va -w v_start v) / PAGE_SIZE in
        let tail_pages := (v_end v -w va) / PAGE_SIZE in
        '(p, m) ← km_malloc (kmem st) (tail_pages *w 8);
        if decide (p = 0) then Some (0, (mk_kst m (arrs st), es))
        else
          upper ← read_array st (v_pages v) head_pages tail_pages;
          let tail := mk_vma va (v_end v) (v_prot v) (v_flags v) p 0 in
          let es' := <[i := mk_vma (v_start v) va (v_prot v) (v_flags v) (v_pages v) (v_next v)]> es in
          Some (1, (mk_kst m (<[p := upper]> (arrs st)), vma_insert_sorted es' tail))
  end.

(** The body of [vma_merge_adjacent] from index [i]; an iteration either
    advances or removes an entry, so [S (length es - i)] iterations are enough. *)
Fixpoint merge_loop (fuel : nat) (st : kst M) (es : list vma) (i : nat) (merges : Z) :
    option (Z * (kst M * list vma)) :=
  match fuel with
  | O => None
  | S f =>
      match es !! i, es !! S i with
      | Some a, Some b =>
          if decide (v_end a ≠ v_start b ∨ v_prot a ≠ v_prot b ∨ v_flags a ≠ v_flags b)
          then merge_loop f st es (S i) merges
          else
            let a_pages := (v_end a -w v_start a) / PAGE_SIZE in
            let b_pages := (v_end b -w v_start b) / PAGE_SIZE in
            '(p, m) ← km_malloc (kmem st) ((a_pages +w b_pages) *w 8);
            if decide (p = 0) then merge_loop f (mk_kst m (arrs st)) es (S i) merges
            else
              pa ← read_array st (v_pages a) 0 a_pages;
              pb ← read_array st (v_pages b) 0 b_pages;
              st1 ← free_array (mk_kst m (<[p := pa ++ pb]> (arrs st))) (v_pages a);
              st2 ← free_array st1 (v_pages b);
              let a' := mk_vma (v_start a) (v_end b) (v_prot a) (v_flags a) p (v_next a) in
              merge_loop f st2 (delete (S i) (<[i := a']> es)) i (merges + 1)
      | _, _ => Some (merges, (st, es))
      end
  end.

Definition vma_merge_adjacent (st : kst M) (es : list vma) : option (Z * (kst M * list vma)) :=
  merge_loop (S (length es)) st es 0 0.

(** [pmm_free_page] for every recorded page. *)
Fixpoint free_recorded (m : M) (ps : list Z) (released : Z) : option (M * Z) :=
  match ps with
  | [] => Some (m, released)
  | x :: ps' =>
      if decide (x = 0) then free_recorded m ps' released
      else m' ← km_free_page m x; free_recorded m' ps' (released + 1)
  end.

Fixpoint unmap_loop (fuel : nat) (st : kst M) (es : list vma) (i : nat) (start en released : Z) :
    option (Z * (kst M * list vma)) :=
  match fuel with
  | O => None
  | S f =>
      match es !! i with
      | None => Some (released, (st, es))
      | Some v =>
          if decide (start ≤ v_start v ∧ v_end v ≤ en) then
            ps ← read_array st (v_pages v) 0 (vma_npages v);
            '(m, released') ← free_recorded (kmem st) ps released;
            st' ← free_array (mk_kst m (arrs st)) (v_pages v);
            unmap_loop f st' (delete i es) i start en released'
          else unmap_loop f st es (S i) start en released
      end
  end.

Definition vma_unmap_range (st : kst M) (es : list vma) (start en : Z) :
    option (Z * (kst M * list vma)) :=
  if decide (en ≤ start) then Some (-1, (st, es))
  else
    '(r1, (st1, es1)) ← vma_split_at st es start;
    if decide (r1 = 0) then Some (-1, (st1, es1))
    else
      '(r2, (st2, es2)) ← vma_split_at st1 es1 en;
      if decide (r2 = 0) then Some (-1, (st2, es2))
      else
        '(released, (st3, es3)) ← unmap_loop (S (length es2)) st2 es2 0 start en 0;
        '(_, (st4, es4)) ← vma_merge_adjacent st3 es3;
        Some (released, (st4, es4)).

(** The re-protect loop: new entries and the number touched. *)
Definition protect_entry (start en prot : Z) (v : vma) : vma :=
  if decide (start ≤ v_start v ∧ v_end v ≤ en)
  then mk_vma (v_start v) (v_end v) prot (v_flags v) (v_pages v) (v_next v) else v.

Definition vma_protect_range (st : kst M) (es : list vma) (start en prot : Z) :
    option (Z * (kst M * list vma)) :=
  if decide (en ≤ start) then Some (-1, (st, es))
  else
    '(r1, (st1, es1)) ← vma_split_at st es start;
    if decide (r1 = 0) then Some (-1, (st1, es1))
    else
      '(r2, (st2, es2)) ← vma_split_at st1 es1 en;
      if decide (r2 = 0) then Some (-1, (st2, es2))
      else
        let touched := length (filter (λ v, start ≤ v_start v ∧ v_end v ≤ en) es2) in
        '(_, (st3, es3)) ← vma_merge_adjacent st2 (protect_entry start en prot <$> es2);
        Some (Z.of_nat touched, (st3, es3)).

Fixpoint vma_resident_pages (st : kst M) (es : list vma) : option Z :=
  match es with
  | [] => Some 0
  | v :: es' =>
      ps ← read_array st (v_pages v) 0 (vma_npages v);
      rest ← vma_resident_pages st es';
      Some (Z.of_nat (length (filter (λ x, x ≠ 0) ps)) + rest)
  end.

Definition vma_mapped_pages (es : list vma) : Z := zsum vma_npages es.

(** Frees the recorded pages and the array; the entry itself stays. *)
Definition vma_release_pages (st : kst M) (v : vma) : option (kst M * vma) :=
  if decide (v_pages v = 0) then Some (st, v)
  else
    ps ← read_array st (v_pages v) 0 (vma_npages v);
    '(m, _) ← free_recorded (kmem st) ps 0;
    st' ← free_array (mk_kst m (arrs st)) (v_pages v);
    Some (st', mk_vma (v_start v) (v_end v) (v_prot v) (v_flags v) 0 (v_next v)).

Fixpoint release_all (st : kst M) (es : list vma) : option (kst M) :=
  match es with
  | [] => Some st
  | v :: es' => '(st', _) ← vma_release_pages st v; release_all st' es'
  end.

Definition vma_destroy (st : kst M) (es : list vma) : option (kst M * list vma) :=
  st' ← release_all st es; Some (st', []).

(** The copy loop of [vma_clone] with the entries cloned so far in [dst]. *)
Fixpoint clone_loop (st : kst M) (src dst : list vma) : option (Z * (kst M * list vma)) :=
  match src with
  | [] => Some (1, (st, dst))
  | s :: src' =>
      let n := vma_npages s in
      '(p, m) ← km_malloc (kmem st) (n *w 8);
      if decide (p = 0) then
        '(st', dst') ← vma_destroy (mk_kst m (arrs st)) dst;
        Some (0, (st', dst'))
      else
        ps ← read_array st (v_pages s) 0 n;
        let c := mk_vma (v_start s) (v_end s) (v_prot s) (v_flags s) p 0 in
        clone_loop (mk_kst m (<[p := ps]> (arrs st))) src' (vma_insert_sorted dst c)
  end.

Definition vma_clone (st : kst M) (src : list vma) : option (Z * (kst M * list vma)) :=
  clone_loop st src vma_init.
End Ops.

(** ** Inserting into the sorted array *)

Definition vma_before (a b : vma) : Prop := v_end a ≤ v_start b.

Lemma insert_index_app a b x k :
  (k ≤ length b)%nat → Forall (λ e, x < v_start e) b →
  (∀ e, last a = Some e → v_start e ≤ x) →
  insert_index (a ++ b) x (length a + k) = length a.
Proof.
  intros Hk Hb Ha. induction k as [|k IH].
  - rewrite Nat.add_0_r. destruct a as [|e a _] using rev_ind; [done|].
    rewrite last_snoc in Ha. rewrite length_app, Nat.add_comm. cbn [insert_index Nat.add length].
    rewrite lookup_app_l, lookup_app_r, Nat.sub_diag by (rewrite ?length_app; simpl; lia). simpl.
    specialize (Ha e eq_refl). rewrite decide_False by lia. done.
  - rewrite Nat.add_succ_r. cbn [insert_index].
    rewrite lookup_app_r by lia. replace (length a + k - length a)%nat with k by lia.
    destruct (lookup_lt_is_Some_2 b k) as [e He]; [lia|]. rewrite He.
    rewrite Forall_lookup in Hb. specialize (Hb k e He). rewrite decide_True by lia. apply IH. lia.
Qed.

Lemma insert_sorted_at a b v :
  Forall (λ e, v_start v < v_start e) b → (∀ e, last a = Some e → v_start e ≤ v_start v) →
  vma_insert_sorted (a ++ b) v = a ++ v :: b.
Proof.
  intros Hb Ha. unfold vma_insert_sorted.
  rewrite length_app, insert_index_app by done. by rewrite take_app_length, drop_app_length.
Qed.

(** A sorted array splits at any address. *)
Lemma sorted_split es x :
  Forall (λ e, v_start e < v_end e) es → pairwise vma_before es →
  ∃ a b, es = a ++ b ∧ Forall (λ e, v_start e ≤ x) a ∧ Forall (λ e, x < v_start e) b.
Proof.
  induction es as [|e es IH]; intros Hne Hs; [by exists [], []|].
  apply Forall_cons in Hne as [He Hne]. destruct Hs as [Hb Hs].
  destruct (decide (v_start e ≤ x)).
  - destruct (IH Hne Hs) as (a & b & -> & Ha & Hb'). exists (e :: a), b. split; [done|].
    split; [by constructor|done].
  - exists [], (e :: es). split; [done|]. split; [constructor|]. constructor; [lia|].
    rewrite Forall_forall in *. intros f Hf. specialize (Hb f Hf). unfold vma_before in Hb. lia.
Qed.

(** ** The view and the representation invariant *)

(** What one area with backing pages [bk] maps. *)
Definition one_maps (v : vma) (bk : list Z) (va : Z) (x : Z * Z * Z) : Prop :=
  v_start v ≤ va < v_end v ∧
  ∃ p, bk !! Z.to_nat ((va - v_start v) / PAGE_SIZE) = Some p ∧ x = (v_prot v, v_flags v, p).

(** Two contiguous areas with equal attributes map what their union maps. *)
Lemma one_maps_join h t v bh bt va x :
  v_start v = v_start h → v_end h = v_start t → v_end v = v_end t →
  v_prot h = v_prot v → v_flags h = v_flags v → v_prot t = v_prot v → v_flags t = v_flags v →
  v_start h mod PAGE_SIZE = 0 → v_start t mod PAGE_SIZE = 0 → v_start h ≤ v_start t ≤ v_end t →
  Z.of_nat (length bh) = (v_end h - v_start h) / PAGE_SIZE →
  one_maps v (bh ++ bt) va x ↔ one_maps h bh va x ∨ one_maps t bt va x.
Proof.
  intros Hs Hht He Hp1 Hf1 Hp2 Hf2 Ha1 Ha2 Hr Hl. unfold one_maps.
  rewrite Hp1, Hf1, Hp2, Hf2, Hs, He. unfold PAGE_SIZE in *.
  assert (∀ va, v_start h ≤ va < v_start t →
    (bh ++ bt) !! Z.to_nat ((va - v_start h) / 4096) = bh !! Z.to_nat ((va - v_start h) / 4096)) as H1.
  { intros a Ha. apply lookup_app_l. dlia. }
  assert (∀ va, v_start t ≤ va < v_end t →
    (bh ++ bt) !! Z.to_nat ((va - v_start h) / 4096) = bt !! Z.to_nat ((va - v_start t) / 4096)) as H2.
  { intros a Ha. rewrite lookup_app_r by dlia. f_equal. dlia. }
  split.
  - intros [Hva Hx]. destruct (decide (va < v_start t)).
    + left. rewrite H1 in Hx by lia. split; [lia|done].
    + right. rewrite H2 in Hx by lia. split; [lia|done].
  - intros [[Hva Hx]|[Hva Hx]].
    + rewrite H1 by lia. split; [lia|done].
    + rewrite H2 by lia. split; [lia|done].
Qed.

Section View.
Context {M : Type} `{!KernelMem M}.
Implicit Types st : kst M.

(** The meaningful entries of an area's page array. *)
Definition backing st (v : vma) : list Z :=
  take (Z.to_nat (vma_npages v)) (default [] (arrs st !! v_pages v)).

Definition maps st (es : list vma) (va : Z) (x : Z * Z * Z) : Prop :=
  ∃ v, v ∈ es ∧ one_maps v (backing st v) va x.

(** The physical pages recorded in a set. *)
Definition resident st (es : list vma) : list Z :=
  filter (λ x, x ≠ 0) (concat (backing st <$> es)).

Definition vma_ok st (v : vma) : Prop :=
  0 ≤ v_start v ∧ v_start v < v_end v ∧ v_end v < 2 ^ 64 ∧
  v_start v mod PAGE_SIZE = 0 ∧ v_end v mod PAGE_SIZE = 0 ∧ v_pages v ∈ km_live (kmem st) ∧
  ∃ arr, arrs st !! v_pages v = Some arr ∧ vma_npages v ≤ Z.of_nat (length arr).

Record vma_wf st (es : list vma) : Prop := {
  vw_inv : km_inv (kmem st);
  vw_count : (length es ≤ VMA_MAX_PER_TASK)%nat;
  vw_ok : Forall (vma_ok st) es;
  vw_sorted : pairwise vma_before es;
  vw_ptrs : NoDup (v_pages <$> es);
  vw_frames x : x ∈ resident st es → x ∈ km_frames (kmem st);
  vw_nodup : NoDup (resident st es);
}.

(** What an operation on [es] leaves alone: live heap objects that are not
    page arrays of [es]. *)
Definition keeps st (es : list vma) st' (es' : list vma) : Prop :=
  ∀ p, p ∈ km_live (kmem st) → (p ∉ v_pages <$> es) →
    p ∈ km_live (kmem st') ∧ (p ∉ v_pages <$> es') ∧ arrs st' !! p = arrs st !! p.

(** [st', es'] represents the same address space as [st, es]. *)
Record same_space st (es : list vma) st' (es' : list vma) : Prop := {
  ss_wf : vma_wf st' es';
  ss_maps a x : maps st' es' a x ↔ maps st es a x;
  ss_resident : resident st' es' = resident st es;
  ss_frames : km_frames (kmem st') = km_frames (kmem st);
  ss_keeps : keeps st es st' es';
}.

Lemma keeps_trans st es st1 es1 st2 es2 :
  keeps st es st1 es1 → keeps st1 es1 st2 es2 → keeps st es st2 es2.
Proof.
  intros H1 H2 p Hp Hn. destruct (H1 p Hp Hn) as (? & ? & E1).
  destruct (H2 p) as (? & ? & E2); [done..|]. split_and!; [done..|congruence].
Qed.

Lemma same_space_refl st es : vma_wf st es → same_space st es st es.
Proof. by constructor. Qed.

Lemma same_space_trans st es st1 es1 st2 es2 :
  same_space st es st1 es1 → same_space st1 es1 st2 es2 → same_space st es st2 es2.
Proof.
  intros [? Hm1 Hr1 Hf1 Hk1] [? Hm2 Hr2 Hf2 Hk2]. constructor; [done|..|congruence|congruence|].
  - intros a x. by rewrite Hm2, Hm1.
  - by eapply keeps_trans.
Qed.

Lemma maps_nil st va x : maps st [] va x ↔ False.
Proof. unfold maps. split; [|done]. by intros (v & ?%not_elem_of_nil & _). Qed.

Lemma maps_cons st v es va x :
  maps st (v :: es) va x ↔ one_maps v (backing st v) va x ∨ maps st es va x.
Proof. unfold maps. setoid_rewrite elem_of_cons. naive_solver. Qed.

Lemma maps_app st es1 es2 va x : maps st (es1 ++ es2) va x ↔ maps st es1 va x ∨ maps st es2 va x.
Proof. unfold maps. setoid_rewrite elem_of_app. naive_solver. Qed.

Lemma resident_app st es1 es2 : resident st (es1 ++ es2) = resident st es1 ++ resident st es2.
Proof. unfold resident. by rewrite fmap_app, concat_app, filter_app. Qed.

Lemma resident_cons st v es :
  resident st (v :: es) = filter (λ x, x ≠ 0) (backing st v) ++ resident st es.
Proof. unfold resident. simpl. by rewrite filter_app. Qed.

(** Only the arrays matter. *)
Lemma backing_frame st st' v :
  arrs st' !! v_pages v = arrs st !! v_pages v → backing st' v = backing st v.
Proof. unfold backing. by intros ->. Qed.

Lemma maps_frame st st' es va x :
  (∀ v, v ∈ es → arrs st' !! v_pages v = arrs st !! v_pages v) →
  maps st' es va x ↔ maps st es va x.
Proof.
  intros Hf. unfold maps. split; intros (v & Hv & Hm); exists v; (split; [done|]);
    by rewrite (backing_frame st st') in * by auto.
Qed.

Lemma resident_frame st st' es :
  (∀ v, v ∈ es → arrs st' !! v_pages v = arrs st !! v_pages v) →
  resident st' es = resident st es.
Proof.
  intros Hf. unfold resident. do 2 f_equal. apply list_fmap_ext. intros i v Hv.
  apply backing_frame, Hf. by eapply list_elem_of_lookup_2.
Qed.

Lemma vma_ok_frame st st' v :
  arrs st' !! v_pages v = arrs st !! v_pages v →
  (v_pages v ∈ km_live (kmem st) → v_pages v ∈ km_live (kmem st')) →
  vma_ok st v → vma_ok st' v.
Proof. unfold vma_ok. intros -> Hl. naive_solver. Qed.

Lemma vma_npages_ok st v :
  vma_ok st v → vma_npages v = (v_end v - v_start v) / PAGE_SIZE ∧
    0 < vma_npages v < 2 ^ 52 ∧ v_end v = v_start v + vma_npages v * PAGE_SIZE.
Proof.
  intros (?&?&?&?&?&_). unfold vma_npages. rewrite sub64_small by lia.
  split; [done|]. unfold PAGE_SIZE in *. dlia.
Qed.

Lemma backing_length st v : vma_ok st v → Z.of_nat (length (backing st v)) = vma_npages v.
Proof.
  intros Hok. destruct (vma_npages_ok st v Hok) as (_ & ? & _).
  destruct Hok as (_&_&_&_&_&_& arr & Ha & Hl). unfold backing. rewrite Ha. simpl.
  rewrite length_take. lia.
Qed.

Lemma read_array_ok st v : vma_ok st v → read_array st (v_pages v) 0 (vma_npages v) = Some (backing st v).
Proof.
  intros Hok. destruct (vma_npages_ok st v Hok) as (_ & ? & _).
  destruct Hok as (_&_&_&_&_&_& arr & Ha & Hl). unfold read_array, backing. rewrite Ha. simpl.
  rewrite decide_True by lia. done.
Qed.

Lemma vma_find_Some es va i :
  vma_find es va = Some i →
  ∃ es1 v es2, es = es1 ++ v :: es2 ∧ i = length es1 ∧ v_start v ≤ va < v_end v.
Proof.
  unfold vma_find. intros ((j & v) & Hf & ->)%fmap_Some. simpl.
  apply list_find_Some in Hf as (Hl & Hv & _).
  exists (take j es), v, (drop (S j) es). rewrite take_drop_middle by done.
  rewrite length_take. apply lookup_lt_Some in Hl. split_and!; [done|lia|lia|lia].
Qed.

Lemma vma_find_None es va v : vma_find es va = None → v ∈ es → ¬ (v_start v ≤ va < v_end v).
Proof.
  unfold vma_find. intros Hf%fmap_None Hv. apply list_find_None in Hf.
  rewrite Forall_forall in Hf. by apply Hf.
Qed.

Lemma fresh_ptr st es p v : Forall (vma_ok st) es → p ∉ km_live (kmem st) → v ∈ es → v_pages v ≠ p.
Proof.
  intros Hok Hp Hv E. rewrite Forall_forall in Hok.
  destruct (Hok v Hv) as (_&_&_&_&_&?&_). by rewrite E in *.
Qed.

Lemma wf_ptr_distinct st l1 v l2 w :
  NoDup (v_pages <$> l1 ++ v :: l2) → w ∈ l1 ∨ w ∈ l2 → v_pages w ≠ v_pages v.
Proof.
  rewrite fmap_app, fmap_cons. intros Hnd Hw E.
  apply NoDup_app in Hnd as (_ & Hx & Hnd). apply NoDup_cons in Hnd as [Hv _].
  destruct Hw as [Hw|Hw].
  - apply (Hx (v_pages w)); [by apply list_elem_of_fmap_2|]. rewrite E. by left.
  - apply Hv. rewrite <- E. by apply list_elem_of_fmap_2.
Qed.

Lemma free_array_ok m ar p :
  km_inv m → p ∈ km_live m →
  ∃ m', free_array (mk_kst m ar) p = Some (mk_kst m' (delete p ar)) ∧ km_inv m' ∧
    km_frames m' = km_frames m ∧ km_live m' = km_live m ∖ {[p]}.
Proof.
  intros Hi Hp. destruct (km_free_ok m p Hi Hp) as (m' & E & ?).
  exists m'. unfold free_array. simpl. by rewrite E.
Qed.

(** Splitting an area in the middle: the state with the tail's own array. *)
Section Split.
Context st (l1 l2 : list vma) (v : vma) (va p : Z) (m : M).
Context (Hwf : vma_wf st (l1 ++ v :: l2)).
Context (Hva : v_start v < va < v_end v) (Hal : va mod PAGE_SIZE = 0).
Context (Hi : km_inv m) (Hf : km_frames m = km_frames (kmem st)).
Context (Hp : p ∉ km_live (kmem st)) (Hl : km_live m = {[p]} ∪ km_live (kmem st)).

Let hd := mk_vma (v_start v) va (v_prot v) (v_flags v) (v_pages v) (v_next v).
Let tl := mk_vma va (v_end v) (v_prot v) (v_flags v) p 0.
Let upper := drop (Z.to_nat ((va - v_start v) / PAGE_SIZE)) (backing st v).
Let st' := mk_kst m (<[p := upper]> (arrs st)).
Let es' := l1 ++ hd :: tl :: l2.

Lemma split_v_ok : vma_ok st v.
Proof. destruct Hwf. rewrite Forall_app, Forall_cons in vw_ok0. tauto. Qed.

Lemma split_arrs w : w ∈ l1 ++ v :: l2 → arrs st' !! v_pages w = arrs st !! v_pages w.
Proof.
  intros Hw. simpl. rewrite lookup_insert_ne; [done|].
  apply not_eq_sym. eapply fresh_ptr; [apply Hwf|done|done].
Qed.

Lemma split_backing :
  backing st v = backing st' hd ++ backing st' tl ∧
  Z.of_nat (length (backing st' hd)) = (va - v_start v) / PAGE_SIZE ∧
  Z.of_nat (length (backing st' tl)) = vma_npages tl ∧ vma_npages tl = Z.of_nat (length upper).
Proof.
  pose proof split_v_ok as Hv. destruct (vma_npages_ok st v Hv) as (Hn & Hn' & Hend).
  pose proof (backing_length st v Hv) as Hlen.
  pose proof Hv as (?&?&?&?&?&Hlive& arr & Harr & Harrl).
  set (k := Z.to_nat ((va - v_start v) / PAGE_SIZE)).
  assert (Z.of_nat k = (va - v_start v) / PAGE_SIZE) as Hk by (unfold k, PAGE_SIZE in *; dlia).
  assert (vma_npages hd = Z.of_nat k) as Hh.
  { unfold vma_npages. simpl. rewrite sub64_small by lia. done. }
  assert (vma_npages tl = vma_npages v - Z.of_nat k) as Ht.
  { rewrite Hk, Hn. unfold vma_npages. simpl. rewrite sub64_small by lia.
    unfold PAGE_SIZE in *. dlia. }
  assert ((k < length (backing st v))%nat) as Hkl by (unfold PAGE_SIZE in *; dlia).
  assert (backing st' tl = upper) as Htl.
  { unfold backing. simpl. rewrite lookup_insert_eq. simpl. unfold upper. fold k.
    apply take_ge. rewrite length_drop, Ht. lia. }
  assert (backing st' hd = take k (backing st v)) as Hhd.
  { unfold backing at 1. rewrite Hh, Nat2Z.id. simpl. rewrite lookup_insert_ne.
    - unfold backing. rewrite take_take. f_equal. simpl in *.
      unfold backing in Hkl. rewrite Harr in Hkl. simpl in Hkl. rewrite length_take in Hkl. lia.
    - intros E. apply Hp. by rewrite E. }
  assert (length upper = (length (backing st v) - k)%nat) as Hul by (unfold upper; fold k; by rewrite length_drop).
  rewrite Htl, Hhd, length_take. split_and!.
  - unfold upper. fold k. by rewrite take_drop.
  - lia.
  - rewrite Ht, Hul. lia.
  - rewrite Ht, Hul. lia.
Qed.

Lemma split_maps a x : maps st' es' a x ↔ maps st (l1 ++ v :: l2) a x.
Proof.
  destruct split_backing as (Hb & Hlh & Hlt & _).
  pose proof split_v_ok as (?&?&?&?&?&_).
  unfold es'. rewrite !maps_app, !maps_cons, Hb.
  rewrite (maps_frame st st' l1), (maps_frame st st' l2) by (intros; apply split_arrs; set_solver).
  rewrite (one_maps_join hd tl v) by (done || simpl; lia). tauto.
Qed.

Lemma split_resident : resident st' es' = resident st (l1 ++ v :: l2).
Proof.
  destruct split_backing as (Hb & _).
  unfold es'. rewrite !resident_app, !resident_cons, Hb, filter_app.
  rewrite (resident_frame st st' l1), (resident_frame st st' l2)
    by (intros; apply split_arrs; set_solver).
  by rewrite <- !app_assoc.
Qed.

Lemma split_wf : (length (l1 ++ v :: l2) < VMA_MAX_PER_TASK)%nat → vma_wf st' es'.
Proof.
  intros Hc. pose proof Hwf as []. pose proof split_v_ok as Hv.
  destruct split_backing as (_ & Hlh & _ & Htn).
  pose proof Hv as (?&?&?&?&?&Hlive& arr & Harr & Harrl).
  destruct (vma_npages_ok st v Hv) as (Hn & Hn' & Hend).
  rewrite Forall_app, Forall_cons in vw_ok0. destruct vw_ok0 as (Hok1 & _ & Hok2).
  assert (∀ w, w ∈ l1 ++ v :: l2 → vma_ok st w → vma_ok st' w) as Hfr.
  { intros w Hw. apply vma_ok_frame; [by apply split_arrs|]. simpl. rewrite Hl. set_solver. }
  constructor; simpl.
  - done.
  - unfold es'. rewrite length_app in *. simpl in *. lia.
  - unfold es'. rewrite Forall_app, !Forall_cons, !Forall_forall in *. split_and!.
    + intros w Hw. apply Hfr; [set_solver|auto].
    + unfold vma_ok. simpl. split_and?; try done; try lia; [set_solver|].
      exists arr. rewrite lookup_insert_ne by (intros E; apply Hp; by rewrite E). split; [done|].
      unfold vma_npages in *. simpl in *. rewrite sub64_small by lia. rewrite Hn in Harrl.
      unfold PAGE_SIZE in *. dlia.
    + unfold vma_ok. simpl. split_and?; try done; try lia; [set_solver|].
      exists upper. rewrite lookup_insert_eq. split; [done|lia].
    + intros w Hw. apply Hfr; [set_solver|auto].
  - unfold es'. apply pairwise_app in vw_sorted0 as (Hs1 & [Hs2 Hs3] & Hs4).
    rewrite Forall_forall in Hs2. unfold vma_before in *. apply pairwise_app. split_and!; [done|..].
    + split; [|split; [|done]]; rewrite ?Forall_cons, Forall_forall; simpl; [|done].
      split; [lia|]. intros w Hw. specialize (Hs2 w Hw). lia.
    + intros x y Hx Hy. pose proof (Hs4 x v Hx ltac:(by left)). rewrite !elem_of_cons in Hy.
      destruct Hy as [->|[->|Hy]]; simpl; [done|lia|]. apply Hs4; [done|by right].
  - unfold es'. rewrite fmap_app, !fmap_cons in *. simpl.
    rewrite (Permutation_swap p (v_pages v)), <- Permutation_middle. apply NoDup_cons. split; [|done].
    rewrite <- fmap_cons, <- fmap_app. intros (w & -> & Hw)%list_elem_of_fmap.
    eapply (fresh_ptr st (l1 ++ v :: l2)); [apply Hwf|exact Hp|done|done].
  - intros x. rewrite split_resident, Hf. apply vw_frames0.
  - by rewrite split_resident.
Qed.
End Split.

(** A failed or unused allocation changes nothing the set depends on. *)
Lemma same_space_mem st es m :
  vma_wf st es → km_inv m → km_frames m = km_frames (kmem st) → km_live m = km_live (kmem st) →
  same_space st es (mk_kst m (arrs st)) es.
Proof.
  intros [] Hi Hf Hl. constructor; simpl; try done.
  - constructor; simpl; try done.
    + eapply Forall_impl; [exact vw_ok0|]. intros v Hv. eapply vma_ok_frame; [|..|exact Hv]; simpl; [done|].
      by rewrite Hl.
    + intros x Hx. rewrite Hf. by apply vw_frames0.
  - intros p Hp Hn. simpl. by rewrite Hl.
Qed.

Lemma vma_split_at_spec st es va :
  vma_wf st es →
  ∃ r st' es', vma_split_at st es va = Some (r, (st', es')) ∧ same_space st es st' es' ∧
    ((r = 0 ∧ es' = es ∧ arrs st' = arrs st) ∨
     (r = 1 ∧ va mod PAGE_SIZE = 0 ∧ (∀ v, v ∈ es' → ¬ (v_start v < va < v_end v)) ∧
       ∀ v, v ∈ es' → ∃ w, w ∈ es ∧ v_start w ≤ v_start v ∧ v_end v ≤ v_end w)).
Proof.
  intros Hwf. unfold vma_split_at.
  assert (∀ e : list vma, e = es → ∃ r st' es', Some (0, (st, e)) = Some (r, (st', es')) ∧
    same_space st es st' es' ∧
    ((r = 0 ∧ es' = es ∧ arrs st' = arrs st) ∨
     (r = 1 ∧ va mod PAGE_SIZE = 0 ∧ (∀ v, v ∈ es' → ¬ (v_start v < va < v_end v)) ∧
       ∀ v, v ∈ es' → ∃ w, w ∈ es ∧ v_start w ≤ v_start v ∧ v_end v ≤ v_end w))) as Hrefuse.
  { intros e ->. exists 0, st, es. split; [done|]. split; [by apply same_space_refl|]. by left. }
  case_decide as Hal; [by apply Hrefuse|].
  destruct (vma_find es va) as [i|] eqn:Hfind.
  2:{ exists 1, st, es. split; [done|]. split; [by apply same_space_refl|]. right.
      split; [done|]. split; [done|]. split; [|eauto with lia].
      intros v Hv ?. eapply vma_find_None; [done..|lia]. }
  destruct (vma_find_Some _ _ _ Hfind) as (l1 & v & l2 & -> & -> & Hva).
  rewrite list_lookup_middle by done. simpl. case_decide as Hb.
  { exists 1, st, (l1 ++ v :: l2). split; [done|]. split; [by apply same_space_refl|]. right.
    split; [done|]. split; [done|]. split; [|eauto with lia].
    intros w Hw Hin. pose proof Hwf as [].
    apply pairwise_app in vw_sorted0 as (_ & [Hvl _] & Hcross). rewrite Forall_forall in Hvl.
    apply elem_of_app in Hw as [Hw|[->|Hw]%elem_of_cons]; [|lia|].
    - specialize (Hcross w v Hw ltac:(by left)). unfold vma_before in Hcross. lia.
    - specialize (Hvl w Hw). unfold vma_before in Hvl. lia. }
  case_decide as Hfull; [by apply Hrefuse|].
  assert (vma_ok st v) as Hv.
  { pose proof (vw_ok _ _ Hwf) as Hok. rewrite Forall_app, Forall_cons in Hok. tauto. }
  pose proof Hv as (?&?&?&?&?&Hlive&arr&Harr&Harrl).
  destruct (vma_npages_ok st v Hv) as (Hn & Hn' & Hend).
  rewrite (sub64_small va) by lia. rewrite (sub64_small (v_end v)) by lia.
  destruct (km_malloc_ok (kmem st) ((v_end v - va) / PAGE_SIZE *w 8)) as (p & m & -> & Hi & Hf & Hc);
    [apply Hwf|apply wrap64_range|]. simpl.
  destruct Hc as [[-> Hl]|[Hp Hl]].
  { rewrite decide_True by done. eexists _, _, _. split; [done|]. split; [by apply same_space_mem|].
    by left. }
  assert (p ≠ 0) as Hp0.
  { intros ->. apply (km_null m) in Hi as [Hi _]. apply Hi. rewrite Hl. set_solver. }
  rewrite decide_False by done.
  assert (read_array st (v_pages v) ((va - v_start v) / PAGE_SIZE) ((v_end v - va) / PAGE_SIZE)
    = Some (drop (Z.to_nat ((va - v_start v) / PAGE_SIZE)) (backing st v))) as ->.
  { unfold read_array, backing. rewrite Harr. simpl. unfold PAGE_SIZE in *.
    rewrite decide_True by dlia. rewrite skipn_firstn_comm. do 2 f_equal. dlia. }
  simpl. set (hd := mk_vma (v_start v) va _ _ (v_pages v) _).
  set (tl := mk_vma va _ _ _ p 0).
  assert (vma_insert_sorted (<[length l1 := hd]> (l1 ++ v :: l2)) tl = l1 ++ hd :: tl :: l2) as Hins.
  { rewrite insert_app_r_alt, Nat.sub_diag by done. simpl.
    rewrite (cons_middle hd), app_assoc, insert_sorted_at; [by rewrite <- app_assoc|..].
    - pose proof (vw_sorted _ _ Hwf) as (_ & [Hvl _] & _)%pairwise_app.
      eapply Forall_impl; [exact Hvl|]. unfold vma_before. simpl. intros w. lia.
    - intros e He. rewrite last_snoc in He. simplify_eq. simpl. lia. }
  eexists _, _, _. split; [done|]. rewrite Hins. split.
  - constructor.
    + apply split_wf; try done; lia.
    + intros a x. apply split_maps; try done; lia.
    + apply split_resident; try done; lia.
    + done.
    + intros q Hq Hn2. simpl. split_and!.
      * rewrite Hl. set_solver.
      * rewrite fmap_app, !fmap_cons in *. simpl in *. set_solver.
      * rewrite lookup_insert_ne; [done|]. intros ->. done.
  - right. split; [done|]. split; [done|]. pose proof (vw_sorted _ _ Hwf) as Hs.
    split.
    2:{ intros w Hw. rewrite elem_of_app, !elem_of_cons in Hw.
        destruct Hw as [Hw|[->|[->|Hw]]]; [exists w|exists v|exists v|exists w]; simpl;
          (split; [set_solver|lia]). }
    apply pairwise_app in Hs as (_ & [Hvl _] & Hcross). rewrite Forall_forall in Hvl.
    intros w Hw Hin. rewrite elem_of_app, !elem_of_cons in Hw.
    destruct Hw as [Hw|[->|[->|Hw]]]; simpl in *; try lia.
    + specialize (Hcross w v Hw ltac:(by left)). unfold vma_before in Hcross. lia.
    + specialize (Hvl w Hw). unfold vma_before in Hvl. lia.
Qed.

(** Welding two neighbours: the merged array replaces both originals. *)
Section Merge.
Context st (l1 l2 : list vma) (a b : vma) (p : Z) (m2 : M).
Context (Hwf : vma_wf st (l1 ++ a :: b :: l2)).
Context (Hab : v_end a = v_start b) (Hpr : v_prot a = v_prot b) (Hfl : v_flags a = v_flags b).
Context (Hp : p ∉ km_live (kmem st)) (Hi : km_inv m2) (Hf : km_frames m2 = km_frames (kmem st)).
Context (Hl : km_live m2 = ({[p]} ∪ km_live (kmem st)) ∖ {[v_pages a]} ∖ {[v_pages b]}).

Let a' := mk_vma (v_start a) (v_end b) (v_prot a) (v_flags a) p (v_next a).
Let st' := mk_kst m2 (delete (v_pages b) (delete (v_pages a)
             (<[p := backing st a ++ backing st b]> (arrs st)))).

Lemma merge_ok_ab : vma_ok st a ∧ vma_ok st b.
Proof using Hwf.
  pose proof (vw_ok _ _ Hwf) as Hok. rewrite Forall_app, !Forall_cons in Hok. tauto.
Qed.

Lemma merge_distinct :
  v_pages a ≠ v_pages b ∧ p ≠ v_pages a ∧ p ≠ v_pages b ∧
  ∀ w, w ∈ l1 ∨ w ∈ l2 → v_pages w ≠ v_pages a ∧ v_pages w ≠ v_pages b ∧ v_pages w ≠ p.
Proof using Hwf Hp.
  clear -Hwf Hp.
  pose proof (vw_ptrs _ _ Hwf) as Hnd. pose proof (vw_ok _ _ Hwf) as Hok.
  assert (∀ w, w ∈ l1 ++ a :: b :: l2 → v_pages w ≠ p) as Hpw by (intros w; by eapply fresh_ptr).
  assert (v_pages b ≠ v_pages a) as Hba by (eapply (wf_ptr_distinct st); [done|set_solver]).
  split; [congruence|]. split; [apply not_eq_sym, Hpw; set_solver|].
  split; [apply not_eq_sym, Hpw; set_solver|]. intros w Hw. split_and!.
  - eapply (wf_ptr_distinct st); [done|]. set_solver.
  - rewrite (cons_middle a), app_assoc in Hnd. eapply (wf_ptr_distinct st); [done|]. set_solver.
  - apply Hpw. set_solver.
Qed.

Lemma merge_arrs w : w ∈ l1 ∨ w ∈ l2 → arrs st' !! v_pages w = arrs st !! v_pages w.
Proof.
  intros Hw. destruct merge_distinct as (_ & _ & _ & Hd). destruct (Hd w Hw) as (? & ? & ?). simpl.
  rewrite !lookup_delete_ne, lookup_insert_ne by congruence. done.
Qed.

Lemma merge_backing :
  backing st' a' = backing st a ++ backing st b ∧
  vma_npages a' = Z.of_nat (length (backing st a ++ backing st b)) ∧
  arrs st' !! p = Some (backing st a ++ backing st b).
Proof.
  destruct merge_ok_ab as [Ha Hb]. destruct merge_distinct as (_ & ? & ? & _).
  destruct (vma_npages_ok st a Ha) as (Hna & Hna' & Hea).
  destruct (vma_npages_ok st b Hb) as (Hnb & Hnb' & Heb).
  pose proof Ha as (?&?&?&?&?&_). pose proof Hb as (?&?&?&?&?&_).
  assert (vma_npages a' = Z.of_nat (length (backing st a ++ backing st b))) as Hn.
  { rewrite length_app, Nat2Z.inj_add, !backing_length by done.
    unfold vma_npages. simpl. rewrite !sub64_small by lia. unfold PAGE_SIZE in *. dlia. }
  assert (arrs st' !! p = Some (backing st a ++ backing st b)) as Hpp.
  { simpl. rewrite !lookup_delete_ne, lookup_insert_eq by congruence. done. }
  split_and!; [|done..]. unfold backing at 1. rewrite Hn, Nat2Z.id. change (v_pages a') with p.
  rewrite Hpp. simpl. by apply take_ge.
Qed.

Lemma merge_same_space : same_space st (l1 ++ a :: b :: l2) st' (l1 ++ a' :: l2).
Proof.
  pose proof Hwf as []. destruct merge_ok_ab as [Ha Hb].
  destruct merge_backing as (Hbk & Hnp & Hpp). pose proof merge_distinct as (Hne & Hpa & Hpb & Hd).
  pose proof Ha as (?&?&?&?&?&_). pose proof Hb as (?&?&?&?&?&_).
  assert (resident st' (l1 ++ a' :: l2) = resident st (l1 ++ a :: b :: l2)) as Hres.
  { rewrite !resident_app, !resident_cons, Hbk, filter_app.
    rewrite (resident_frame st st' l1), (resident_frame st st' l2)
      by (intros; apply merge_arrs; auto).
    by rewrite <- !app_assoc. }
  constructor; [|..|done|done|].
  - constructor; simpl; try done.
    + rewrite length_app in *. simpl in *. lia.
    + rewrite Forall_app, !Forall_cons, !Forall_forall in *. destruct vw_ok0 as (Ho1 & _ & _ & Ho2).
      assert (∀ w, w ∈ l1 ∨ w ∈ l2 → vma_ok st w → vma_ok st' w) as Hfr.
      { intros w Hw. apply vma_ok_frame; [by apply merge_arrs|]. simpl. rewrite Hl.
        destruct (Hd w Hw). set_solver. }
      split_and!; [intros; apply Hfr; auto| |intros; apply Hfr; auto].
      unfold vma_ok. simpl. split_and?; try done; try lia; [rewrite Hl; set_solver|].
      exists (backing st a ++ backing st b). split; [done|lia].
    + apply pairwise_app in vw_sorted0 as (Hs1 & [Hs2 [Hs3 Hs4]] & Hs5).
      apply pairwise_app. split; [done|]. split; [split; [|done]|].
      * eapply Forall_impl; [exact Hs3|]. unfold vma_before. simpl. done.
      * intros x y Hx [->|Hy]%elem_of_cons; [|apply Hs5; [done|set_solver]].
        specialize (Hs5 x a Hx ltac:(by left)). unfold vma_before in *. simpl. done.
    + rewrite fmap_app, !fmap_cons in *. simpl. rewrite <- Permutation_middle.
      rewrite <- !Permutation_middle in vw_ptrs0. apply NoDup_cons in vw_ptrs0 as [_ Hn2].
      apply NoDup_cons in Hn2 as [_ Hn2]. apply NoDup_cons. split; [|done].
      rewrite <- fmap_app. intros (w & E & Hw)%list_elem_of_fmap.
      apply elem_of_app in Hw. destruct (Hd w Hw) as (_ & _ & ?). congruence.
    + intros x. rewrite Hres, Hf. apply vw_frames0.
    + by rewrite Hres.
  - intros va x. rewrite !maps_app, !maps_cons, Hbk.
    rewrite (maps_frame st st' l1), (maps_frame st st' l2) by (intros; apply merge_arrs; auto).
    rewrite (one_maps_join a b a'); try done; try lia; [tauto|].
    rewrite backing_length by done. apply (vma_npages_ok st a Ha).
  - intros q Hq Hn2. rewrite fmap_app, !fmap_cons in *. simpl. split_and!.
    + rewrite Hl. set_solver.
    + set_solver.
    + rewrite !lookup_delete_ne, lookup_insert_ne; [done|set_solver..].
Qed.
End Merge.

Lemma merge_loop_spec fuel st es i n :
  vma_wf st es → (length es - i < fuel)%nat →
  ∃ n' st' es', merge_loop fuel st es i n = Some (n', (st', es')) ∧ same_space st es st' es' ∧
    n' - n = Z.of_nat (length es) - Z.of_nat (length es') ∧ (length es' ≤ length es)%nat.
Proof.
  revert st es i n. induction fuel as [|f IH]; intros st es i n Hwf Hfuel; [lia|]. cbn [merge_loop].
  destruct (es !! i) as [a|] eqn:Hia.
  2:{ exists n, st, es. split; [done|]. split; [by apply same_space_refl|]. lia. }
  destruct (es !! S i) as [b|] eqn:Hib.
  2:{ exists n, st, es. split; [done|]. split; [by apply same_space_refl|]. lia. }
  pose proof (lookup_lt_Some _ _ _ Hib) as Hlen.
  case_decide as Hneq; [apply IH; [done|lia]|].
  apply Decidable.not_or in Hneq as [Hab Hneq]. apply Decidable.not_or in Hneq as [Hpr Hfl].
  apply dec_stable in Hab, Hpr, Hfl.
  destruct (km_malloc_ok (kmem st)
    (((v_end a -w v_start a) / PAGE_SIZE +w (v_end b -w v_start b) / PAGE_SIZE) *w 8))
    as (p & m & -> & Hi & Hf & Hc); [apply Hwf|apply wrap64_range|]. simpl.
  destruct Hc as [[-> Hl]|[Hp Hl]].
  { rewrite decide_True by done.
    pose proof (same_space_mem st es m Hwf Hi Hf Hl) as Hss.
    destruct (IH _ es (S i) n (ss_wf _ _ _ _ Hss)) as (n' & st' & es' & E & Hss' & Hn); [lia|].
    exists n', st', es'. split; [done|]. split; [by eapply same_space_trans|done]. }
  assert (p ≠ 0) as Hp0.
  { intros ->. apply (km_null m) in Hi as [Hi _]. apply Hi. rewrite Hl. set_solver. }
  rewrite decide_False by done.
  assert (es = take i es ++ a :: b :: drop (S (S i)) es) as Hes.
  { by rewrite <- (take_drop_middle es i a Hia) at 1; rewrite (drop_S es b (S i) Hib). }
  set (l1 := take i es) in *. set (l2 := drop (S (S i)) es) in *.
  assert (length l1 = i) as Hl1 by (unfold l1; rewrite length_take; lia).
  rewrite Hes in Hwf |- *. destruct (merge_ok_ab st l1 l2 a b Hwf) as [Ha Hb].
  destruct (merge_distinct st l1 l2 a b p Hwf Hp) as (Hne & Hpa & Hpb & _).
  fold (vma_npages a) (vma_npages b). rewrite !read_array_ok by done. simpl.
  destruct (free_array_ok m (<[p := backing st a ++ backing st b]> (arrs st)) (v_pages a)) as (m1 & -> & Hi1 & Hf1 & Hl1'); [done|rewrite Hl|].
  { destruct Ha as (_&_&_&_&_&?&_). set_solver. }
  simpl. destruct (free_array_ok m1 (delete (v_pages a)
    (<[p := backing st a ++ backing st b]> (arrs st))) (v_pages b)) as (m2 & -> & Hi2 & Hf2 & Hl2'); [done|rewrite Hl1', Hl|].
  { destruct Hb as (_&_&_&_&_&?&_). set_solver. }
  simpl.
  pose proof (merge_same_space st l1 l2 a b p m2 Hwf Hab Hpr Hfl Hp Hi2) as Hss.
  rewrite Hf2, Hf1, Hl2', Hl1', Hl in Hss. specialize (Hss Hf eq_refl).
  set (st' := mk_kst m2 _) in *. set (a' := mk_vma (v_start a) _ _ _ p _) in *.
  assert (delete (S i) (<[i := a']> (l1 ++ a :: b :: l2)) = l1 ++ a' :: l2) as ->.
  { rewrite insert_app_r_alt by lia. replace (i - length l1)%nat with 0%nat by lia. simpl.
    rewrite (cons_middle a'), app_assoc. replace (S i) with (length (l1 ++ [a'])).
    - by rewrite delete_middle, <- app_assoc.
    - rewrite length_app. simpl. lia. }
  assert (length (l1 ++ a :: b :: l2) = S (length (l1 ++ a' :: l2))) as Hln.
  { rewrite !length_app. simpl. lia. }
  destruct (IH st' (l1 ++ a' :: l2) i (n + 1) (ss_wf _ _ _ _ Hss)) as (n' & st'' & es'' & E & Hss' & Hn & Hle).
  { rewrite Hes in Hfuel, Hlen. lia. }
  exists n', st'', es''. split; [done|]. split; [by eapply same_space_trans|]. lia.
Qed.

Lemma vma_merge_adjacent_spec st es :
  vma_wf st es →
  ∃ n st' es', vma_merge_adjacent st es = Some (n, (st', es')) ∧ same_space st es st' es' ∧
    n = Z.of_nat (length es) - Z.of_nat (length es') ∧ (length es' ≤ length es)%nat.
Proof.
  intros Hwf. destruct (merge_loop_spec (S (length es)) st es 0 0) as (n & st' & es' & E & Hs & Hn & Hl);
    [done|lia|]. exists n, st', es'. split; [done|]. split; [done|]. lia.
Qed.

(** ** Releasing areas *)

Lemma free_recorded_spec m ps r :
  km_inv m → NoDup (filter (λ x, x ≠ 0) ps) →
  (∀ x, x ∈ filter (λ x, x ≠ 0) ps → x ∈ km_frames m) →
  ∃ m', free_recorded m ps r = Some (m', r + Z.of_nat (length (filter (λ x, x ≠ 0) ps))) ∧
    km_inv m' ∧ km_live m' = km_live m ∧
    km_frames m' = km_frames m ∖ list_to_set (filter (λ x, x ≠ 0) ps).
Proof.
  revert m r. induction ps as [|x ps IH]; intros m r Hi Hnd Hin; cbn [free_recorded].
  - exists m. rewrite Z.add_0_r. split; [done|]. split; [done|]. split; [done|]. set_solver.
  - rewrite filter_cons in *. case_decide as Hx.
    + rewrite decide_False by done. apply NoDup_cons in Hnd as [Hx1 Hnd].
      destruct (km_free_page_ok m x) as (m1 & -> & Hi1 & Hl1 & Hf1); [done|apply Hin; by left|]. simpl.
      destruct (IH m1 (r + 1) Hi1 Hnd) as (m' & -> & Hi' & Hl' & Hf').
      { intros y Hy. rewrite Hf1. apply elem_of_difference. split; [apply Hin; by right|].
        set_solver. }
      exists m'. split; [f_equal; f_equal; lia|]. split; [done|]. split; [congruence|].
      rewrite Hf', Hf1. set_solver.
    + rewrite decide_True by done. by apply IH.
Qed.

(** An entry's pages go back to the page allocator and its array to the heap. *)
Lemma release_entry st l1 v l2 r :
  vma_wf st (l1 ++ v :: l2) →
  ∃ m st', free_recorded (kmem st) (backing st v) r
      = Some (m, r + Z.of_nat (length (filter (λ x, x ≠ 0) (backing st v)))) ∧
    free_array (mk_kst m (arrs st)) (v_pages v) = Some st' ∧
    vma_wf st' (l1 ++ l2) ∧
    arrs st' = delete (v_pages v) (arrs st) ∧ km_live (kmem st') = km_live (kmem st) ∖ {[v_pages v]} ∧
    km_frames (kmem st') = km_frames (kmem st) ∖ list_to_set (filter (λ x, x ≠ 0) (backing st v)).
Proof.
  intros Hwf. pose proof Hwf as [Hi Hc Hok Hs Hp Hfr Hnd].
  rewrite !resident_app, resident_cons in Hnd. setoid_rewrite resident_app in Hfr.
  setoid_rewrite resident_cons in Hfr.
  destruct (free_recorded_spec (kmem st) (backing st v) r Hi) as (m & E1 & Hi1 & Hl1 & Hf1).
  { apply NoDup_app in Hnd as (_ & _ & Hnd). by apply NoDup_app in Hnd as (Hnd & _ & _). }
  { intros x Hx. apply Hfr. set_solver. }
  pose proof Hok as Hok'. rewrite Forall_app, Forall_cons in Hok'. destruct Hok' as (Hok1 & Hv & Hok2).
  destruct (free_array_ok m (arrs st) (v_pages v) Hi1) as (m' & E2 & Hi2 & Hf2 & Hl2).
  { rewrite Hl1. apply Hv. }
  eexists m, _. split; [exact E1|]. split; [exact E2|]. simpl. rewrite Hf2, Hl2, Hl1, Hf1.
  split; [|done].
  assert (∀ w, w ∈ l1 ∨ w ∈ l2 → v_pages w ≠ v_pages v) as Hne by (intros w; by eapply wf_ptr_distinct).
  assert (∀ w, w ∈ l1 ++ l2 → delete (v_pages v) (arrs st) !! v_pages w = arrs st !! v_pages w) as Ha.
  { intros w Hw. apply elem_of_app in Hw. by rewrite lookup_delete_ne by (apply not_eq_sym; auto). }
  assert (resident (mk_kst m' (delete (v_pages v) (arrs st))) (l1 ++ l2) = resident st (l1 ++ l2)) as Hr
    by by apply resident_frame.
  constructor; rewrite ?Hr; simpl; try done.
  - rewrite length_app in *. simpl in *. lia.
  - rewrite Forall_forall. intros w Hw. eapply vma_ok_frame; [by apply Ha|..].
    + simpl. rewrite Hl2, Hl1. apply elem_of_app in Hw. specialize (Hne w Hw). set_solver.
    + rewrite Forall_forall in Hok. apply Hok. set_solver.
  - apply pairwise_app in Hs as (Hs1 & [_ Hs2] & Hs3). apply pairwise_app. split; [done|]. split; [done|].
    intros x y Hx Hy. apply Hs3; [done|by right].
  - rewrite fmap_app in *. simpl in Hp. rewrite <- Permutation_middle in Hp. by apply NoDup_cons in Hp as [_ ?].
  - intros x. rewrite resident_app, Hf2, Hf1. intros Hx. apply elem_of_difference.
    split; [apply Hfr; set_solver|]. rewrite elem_of_list_to_set. intros Hx'.
    apply NoDup_app in Hnd as (Hn1 & Hn2 & Hn3). apply NoDup_app in Hn3 as (_ & Hn3 & _).
    apply elem_of_app in Hx as [Hx|Hx]; [eapply Hn2|eapply Hn3]; set_solver.
  - rewrite resident_app. apply NoDup_app in Hnd as (Hn1 & Hn2 & Hn3).
    apply NoDup_app in Hn3 as (_ & _ & Hn3). apply NoDup_app. split; [done|]. split; [|done].
    intros x Hx Hx'. eapply Hn2; [done|]. set_solver.
Qed.

Definition inside (start en : Z) (v : vma) : Prop := start ≤ v_start v ∧ v_end v ≤ en.
#[global] Instance inside_dec start en v : Decision (inside start en v).
Proof. unfold inside. apply _. Defined.

Lemma unmap_loop_spec fuel st pre rest start en r :
  vma_wf st (pre ++ rest) → (length rest < fuel)%nat →
  ∃ st', unmap_loop fuel st (pre ++ rest) (length pre) start en r
      = Some (r + Z.of_nat (length (resident st (filter (inside start en) rest))),
              (st', pre ++ filter (λ v, ¬ inside start en v) rest)) ∧
    vma_wf st' (pre ++ filter (λ v, ¬ inside start en v) rest) ∧
    (∀ p, (p ∉ v_pages <$> filter (inside start en) rest) → arrs st' !! p = arrs st !! p) ∧
    km_live (kmem st') = km_live (kmem st) ∖ list_to_set (v_pages <$> filter (inside start en) rest) ∧
    km_frames (kmem st') = km_frames (kmem st) ∖ list_to_set (resident st (filter (inside start en) rest)).
Proof.
  revert st pre rest r. induction fuel as [|f IH]; intros st pre rest r Hwf Hfu; [lia|]. cbn [unmap_loop].
  destruct rest as [|v rest].
  { rewrite app_nil_r, lookup_ge_None_2 by done. exists st. rewrite !filter_nil, app_nil_r, Z.add_0_r.
    rewrite app_nil_r in Hwf. split; [done|]. split; [done|]. split; [done|]. set_solver. }
  rewrite list_lookup_middle by done. rewrite !filter_cons.
  change (start ≤ v_start v ∧ v_end v ≤ en) with (inside start en v).
  destruct (decide (inside start en v)) as [Hin|Hin].
  - rewrite decide_False by auto. rewrite delete_middle.
    destruct (release_entry st pre v rest r Hwf) as (m & st1 & E1 & E2 & Hwf1 & Ha1 & Hl1 & Hf1).
    rewrite read_array_ok; [|pose proof (vw_ok _ _ Hwf) as Hok; rewrite Forall_app, Forall_cons in Hok; tauto].
    simpl. rewrite E1. simpl. rewrite E2. simpl.
    destruct (IH st1 pre rest (r + Z.of_nat (length (filter (λ x, x ≠ 0) (backing st v)))))
      as (st' & -> & Hwf' & Ha' & Hl' & Hf'); [done|simpl in *; lia|].
    assert (resident st1 (filter (inside start en) rest) = resident st (filter (inside start en) rest)) as Hr.
    { apply resident_frame. intros w Hw. rewrite Ha1, lookup_delete_ne; [done|].
      apply not_eq_sym. eapply (wf_ptr_distinct st); [apply Hwf|]. right.
      by apply list_elem_of_filter in Hw as [_ ?]. }
    rewrite Hr in *. rewrite resident_cons, length_app. exists st'.
    split; [f_equal; f_equal; lia|]. split; [done|]. split; [|split].
    + intros p Hp. apply not_elem_of_cons in Hp. destruct Hp as [? ?].
      rewrite Ha', Ha1, lookup_delete_ne by done. done.
    + rewrite Hl', Hl1. set_solver.
    + rewrite Hf', Hf1. set_solver.
  - rewrite (cons_middle v), app_assoc. replace (S (length pre)) with (length (pre ++ [v]))
      by (rewrite length_app; simpl; lia).
    rewrite decide_True by done.
    rewrite (cons_middle v pre (filter _ _)), app_assoc.
    apply IH; [by rewrite <- app_assoc|simpl in *; lia].
Qed.

(** The recorded pages are the backing pages of the mapped addresses. *)
Lemma elem_of_resident st es x :
  Forall (vma_ok st) es →
  x ∈ resident st es ↔ x ≠ 0 ∧ ∃ a pr fl, maps st es a (pr, fl, x).
Proof.
  intros Hok. rewrite Forall_forall in Hok. unfold resident, maps, one_maps.
  rewrite list_elem_of_filter, list_elem_of_In, in_concat. split.
  - intros (Hx & l & Hl & Hxl). split; [done|]. apply list_elem_of_In in Hl, Hxl.
    apply list_elem_of_fmap in Hl as (v & -> & Hv). apply list_elem_of_lookup in Hxl as [i Hi].
    pose proof (lookup_lt_Some _ _ _ Hi) as Hlt. pose proof (backing_length st v (Hok v Hv)) as Hbl.
    destruct (vma_npages_ok st v (Hok v Hv)) as (_ & ? & He). unfold PAGE_SIZE in *.
    exists (v_start v + Z.of_nat i * 4096), (v_prot v), (v_flags v), v. split; [done|].
    split; [lia|]. exists x. split; [|done]. rewrite <- Hi. f_equal. dlia.
  - intros (Hx & a & pr & fl & v & Hv & _ & p & Hp & E). simplify_eq. split; [done|].
    exists (backing st v). split; [apply list_elem_of_In; by apply list_elem_of_fmap_2|].
    apply list_elem_of_In. by eapply list_elem_of_lookup_2.
Qed.

(** With both ends cut, an area is inside the range or disjoint from it. *)
Definition cut_at (va : Z) (es : list vma) : Prop := ∀ v, v ∈ es → ¬ (v_start v < va < v_end v).

Lemma cut_inside st es start en va x :
  start < en → cut_at start es → cut_at en es →
  maps st (filter (inside start en) es) va x ↔ maps st es va x ∧ start ≤ va < en.
Proof.
  intros Hse H1 H2. unfold maps, inside, one_maps, cut_at in *. setoid_rewrite list_elem_of_filter. split.
  - intros (v & [Hin Hv] & Hva & Hx). split; [exists v; eauto|lia].
  - intros [(v & Hv & Hva & Hx) Hr]. exists v. specialize (H1 v Hv). specialize (H2 v Hv).
    split; [|eauto]. split; [lia|done].
Qed.

Lemma cut_outside st es start en va x :
  start < en → cut_at start es → cut_at en es →
  maps st (filter (λ v, ¬ inside start en v) es) va x ↔ maps st es va x ∧ ¬ (start ≤ va < en).
Proof.
  intros Hse H1 H2. unfold maps, inside, one_maps, cut_at in *. setoid_rewrite list_elem_of_filter. split.
  - intros (v & [Hin Hv] & Hva & Hx). specialize (H1 v Hv). specialize (H2 v Hv).
    split; [exists v; eauto|lia].
  - intros [(v & Hv & Hva & Hx) Hr]. exists v. split; [|eauto]. split; [lia|done].
Qed.

(** The two boundary splits of munmap and mprotect. *)
Lemma two_splits st es start en :
  vma_wf st es → start < en →
  ∃ r1 st1 es1, vma_split_at st es start = Some (r1, (st1, es1)) ∧ same_space st es st1 es1 ∧
  (r1 = 0 ∨ r1 = 1 ∧
    ∃ r2 st2 es2, vma_split_at st1 es1 en = Some (r2, (st2, es2)) ∧ same_space st es st2 es2 ∧
    (r2 = 0 ∨ r2 = 1 ∧ start mod PAGE_SIZE = 0 ∧ en mod PAGE_SIZE = 0 ∧ cut_at start es2 ∧ cut_at en es2)).
Proof.
  intros Hwf Hse. destruct (vma_split_at_spec st es start Hwf) as (r1 & st1 & es1 & E1 & Hs1 & H1).
  exists r1, st1, es1. split; [done|]. split; [done|].
  destruct H1 as [(-> & _)|(-> & Hal1 & Hc1 & _)]; [by left|right]. split; [done|].
  destruct (vma_split_at_spec st1 es1 en) as (r2 & st2 & es2 & E2 & Hs2 & H2); [apply Hs1|].
  exists r2, st2, es2. split; [done|]. split; [by eapply same_space_trans|].
  destruct H2 as [(-> & _)|(-> & Hal2 & Hc2 & Hsub)]; [by left|right]. split; [done|].
  split; [done|]. split; [done|]. split; [|exact Hc2].
  intros v Hv Hin. destruct (Hsub v Hv) as (w & Hw & ? & ?). apply (Hc1 w Hw). lia.
Qed.

Lemma size_frames_removed (X : gset Z) (l : list Z) :
  NoDup l → (∀ x, x ∈ l → x ∈ X) → Z.of_nat (length l) = Z.of_nat (size X) - Z.of_nat (size (X ∖ list_to_set l)).
Proof.
  intros Hnd Hin. rewrite size_difference by set_solver. rewrite size_list_to_set by done.
  assert (size (list_to_set l : gset Z) ≤ size X)%nat as Hle by (apply subseteq_size; set_solver).
  rewrite size_list_to_set in Hle by done. lia.
Qed.

Lemma ok_filter st es (P : vma → Prop) `{!∀ v, Decision (P v)} :
  Forall (vma_ok st) es → Forall (vma_ok st) (filter P es).
Proof. rewrite !Forall_forall. intros Hok v [_ Hv]%list_elem_of_filter. auto. Qed.

Lemma resident_filter_nodup st es (P : vma → Prop) `{!∀ v, Decision (P v)} :
  NoDup (resident st es) → NoDup (resident st (filter P es)).
Proof.
  intros Hnd. eapply sublist_NoDup; [exact Hnd|]. unfold resident. clear Hnd.
  induction es as [|v es IH]; [done|]. rewrite filter_cons. simpl.
  rewrite filter_app. case_decide; simpl; [|by apply sublist_inserts_l].
  rewrite filter_app. by apply sublist_app.
Qed.

(** [unmap_loop] on a cut set. *)
Lemma unmap_cut st es start en :
  vma_wf st es → start < en → cut_at start es → cut_at en es →
  ∃ r st' es', unmap_loop (S (length es)) st es 0 start en 0 = Some (r, (st', es')) ∧ vma_wf st' es' ∧
    r = Z.of_nat (size (km_frames (kmem st))) - Z.of_nat (size (km_frames (kmem st'))) ∧
    (∀ a x, maps st' es' a x ↔ maps st es a x ∧ ¬ (start ≤ a < en)) ∧
    (∀ x, x ∈ km_frames (kmem st') ↔ x ∈ km_frames (kmem st) ∧
       ¬ ∃ a pr fl, start ≤ a < en ∧ maps st es a (pr, fl, x)) ∧ keeps st es st' es'.
Proof.
  intros Hwf Hse Hc1 Hc2.
  destruct (unmap_loop_spec (S (length es)) st [] es start en 0 Hwf) as (st' & E & Hwf' & Ha & Hl & Hf); [lia|].
  simpl in E, Hwf'. eexists _, st', _. split; [exact E|]. split; [done|].
  assert (∀ x, x ∈ resident st (filter (inside start en) es) → x ∈ km_frames (kmem st)) as Hsub.
  { intros x Hx. apply (vw_frames _ _ Hwf). revert Hx. unfold resident. rewrite !list_elem_of_filter.
    rewrite !list_elem_of_In, !in_concat. setoid_rewrite <- list_elem_of_In.
    setoid_rewrite list_elem_of_fmap. setoid_rewrite list_elem_of_filter. naive_solver. }
  split; [|split; [|split]].
  - rewrite Hf, <- size_frames_removed; [done| |done]. by apply resident_filter_nodup, Hwf.
  - intros a x. rewrite <- cut_outside by done. apply maps_frame. intros v Hv. apply Ha.
    apply list_elem_of_filter in Hv as [Hni Hv]. intros (w & Ew & Hw)%list_elem_of_fmap.
    apply list_elem_of_filter in Hw as [Hwi Hw]. pose proof (vw_ptrs _ _ Hwf) as Hnd.
    apply list_elem_of_lookup in Hv as [i Hi]. apply list_elem_of_lookup in Hw as [j Hj].
    assert (i = j) as ->; [|simplify_eq; done].
    apply (NoDup_lookup (v_pages <$> es) i j (v_pages w)); [done|..];
      rewrite list_lookup_fmap, ?Hi, ?Hj; simpl; congruence.
  - intros x. rewrite Hf, elem_of_difference, elem_of_list_to_set.
    rewrite elem_of_resident by (by apply ok_filter, Hwf). setoid_rewrite cut_inside; [|done..].
    destruct (km_null _ (vw_inv _ _ Hwf)) as [_ H0]. split.
    + intros [Hx Hn]. split; [done|]. intros (a & pr & fl & Hr & Hm). apply Hn. split; [|by eauto].
      intros ->. done.
    + intros [Hx Hn]. split; [done|]. intros (_ & a & pr & fl & Hm & Hr). apply Hn. eauto.
  - intros p Hp Hn. assert (p ∉ v_pages <$> filter (inside start en) es) as Hn1.
    { intros (w & -> & Hw)%list_elem_of_fmap. apply Hn, list_elem_of_fmap_2.
      by apply list_elem_of_filter in Hw as [_ ?]. }
    rewrite Ha by done. split; [rewrite Hl; set_solver|]. split; [|done].
    intros (w & -> & Hw)%list_elem_of_fmap. apply Hn, list_elem_of_fmap_2.
    by apply list_elem_of_filter in Hw as [_ ?].
Qed.

(** ** Re-protecting *)

Lemma protect_entry_same start en prot v :
  let v' := protect_entry start en prot v in
  v_start v' = v_start v ∧ v_end v' = v_end v ∧ v_flags v' = v_flags v ∧ v_pages v' = v_pages v.
Proof. unfold protect_entry. case_decide; done. Qed.

Lemma protect_backing st start en prot v : backing st (protect_entry start en prot v) = backing st v.
Proof.
  destruct (protect_entry_same start en prot v) as (E1 & E2 & _ & E3).
  unfold backing, vma_npages. by rewrite E1, E2, E3.
Qed.

Lemma protect_wf st es start en prot : vma_wf st es → vma_wf st (protect_entry start en prot <$> es).
Proof.
  intros [].
  assert (resident st (protect_entry start en prot <$> es) = resident st es) as Hr.
  { unfold resident. do 2 f_equal. rewrite <- list_fmap_compose. apply list_fmap_ext.
    intros i v _. apply protect_backing. }
  constructor; rewrite ?Hr; try done.
  - by rewrite length_fmap.
  - rewrite Forall_fmap. eapply Forall_impl; [exact vw_ok0|]. intros v.
    destruct (protect_entry_same start en prot v) as (E1 & E2 & _ & E3).
    unfold vma_ok, vma_npages. simpl. by rewrite E1, E2, E3.
  - clear -vw_sorted0. induction es as [|v es IH]; [done|]. destruct vw_sorted0 as [Hv Hs].
    split; [|by apply IH]. rewrite Forall_forall in *. intros w (u & -> & Hu)%list_elem_of_fmap.
    destruct (protect_entry_same start en prot v) as (E1 & E2 & _ & E3).
    destruct (protect_entry_same start en prot u) as (E1' & E2' & _ & E3').
    unfold vma_before. rewrite E2, E1'. by apply Hv.
  - rewrite <- list_fmap_compose. erewrite list_fmap_ext; [exact vw_ptrs0|].
    intros i v _. apply (protect_entry_same start en prot v).
Qed.

(** The view after a re-protect of [start, en). *)
Definition protected start en prot (P : Z → Z * Z * Z → Prop) (a : Z) (x : Z * Z * Z) : Prop :=
  if decide (start ≤ a < en) then x.1.1 = prot ∧ ∃ pr0, P a (pr0, x.1.2, x.2) else P a x.

Lemma protect_maps st es start en prot a x :
  start < en → cut_at start es → cut_at en es →
  maps st (protect_entry start en prot <$> es) a x ↔ protected start en prot (maps st es) a x.
Proof.
  intros Hse H1 H2. destruct x as [[pr fl] p]. unfold protected, maps, one_maps. simpl. split.
  - intros (v' & (v & -> & Hv)%list_elem_of_fmap & Hr & q & Hq & E). rewrite protect_backing in Hq.
    destruct (protect_entry_same start en prot v) as (E1 & E2 & E3 & E4).
    rewrite E1, E2, E3 in *. specialize (H1 v Hv). specialize (H2 v Hv).
    unfold protect_entry in E. case_decide as Hin; simpl in E; simplify_eq.
    + rewrite decide_True by lia. split; [done|]. exists (v_prot v), v. eauto.
    + rewrite decide_False by lia. exists v. eauto.
  - case_decide as Hr.
    + intros (-> & pr0 & v & Hv & Hva & q & Hq & E). simplify_eq.
      specialize (H1 v Hv). specialize (H2 v Hv).
      exists (protect_entry start en prot v). split; [by apply list_elem_of_fmap_2|].
      rewrite protect_backing. unfold protect_entry. rewrite decide_True by lia. simpl. eauto.
    + intros (v & Hv & Hva & q & Hq & E). simplify_eq.
      specialize (H1 v Hv). specialize (H2 v Hv).
      exists (protect_entry start en prot v). split; [by apply list_elem_of_fmap_2|].
      rewrite protect_backing. unfold protect_entry. rewrite decide_False by lia. eauto.
Qed.

Lemma keeps_protect st es start en prot st' es' :
  keeps st (protect_entry start en prot <$> es) st' es' → keeps st es st' es'.
Proof.
  intros Hk p Hp Hn. apply Hk; [done|]. rewrite <- list_fmap_compose.
  erewrite list_fmap_ext; [exact Hn|]. intros i v _. apply (protect_entry_same start en prot v).
Qed.

(** ** Adding an area *)

Lemma find_overlap_None es start en v :
  vma_find_overlap es start en = None → v ∈ es → ¬ (start < v_end v ∧ v_start v < en).
Proof.
  unfold vma_find_overlap. intros Hf%fmap_None Hv. apply list_find_None in Hf.
  rewrite Forall_forall in Hf. by apply Hf.
Qed.

(** A fresh array for a new area placed at its sorted position. *)
Lemma insert_area st l1 l2 c m ar :
  vma_wf st (l1 ++ l2) → (length (l1 ++ l2) < VMA_MAX_PER_TASK)%nat →
  0 ≤ v_start c < v_end c → v_end c < 2 ^ 64 →
  v_start c mod PAGE_SIZE = 0 → v_end c mod PAGE_SIZE = 0 →
  Forall (λ w, v_end w ≤ v_start c) l1 → Forall (λ w, v_end c ≤ v_start w) l2 →
  km_inv m → km_frames m = km_frames (kmem st) → (v_pages c ∉ km_live (kmem st)) →
  km_live m = {[v_pages c]} ∪ km_live (kmem st) →
  Z.of_nat (length ar) = vma_npages c → NoDup (filter (λ x, x ≠ 0) ar ++ resident st (l1 ++ l2)) →
  (∀ x, x ∈ filter (λ x, x ≠ 0) ar → x ∈ km_frames (kmem st)) →
  let st' := mk_kst m (<[v_pages c := ar]> (arrs st)) in
  vma_wf st' (l1 ++ c :: l2) ∧ keeps st (l1 ++ l2) st' (l1 ++ c :: l2) ∧ backing st' c = ar ∧
  ∀ a x, maps st' (l1 ++ c :: l2) a x ↔ maps st (l1 ++ l2) a x ∨ one_maps c ar a x.
Proof.
  intros [] Hc Hr Hb Ha1 Ha2 H1 H2 Hi Hf Hp Hl Hlen Hnd Hin st'.
  assert (∀ w, w ∈ l1 ++ l2 → arrs st' !! v_pages w = arrs st !! v_pages w) as Har.
  { intros w Hw. simpl. rewrite lookup_insert_ne; [done|]. apply not_eq_sym. by eapply fresh_ptr. }
  assert (backing st' c = ar) as Hbk.
  { unfold backing. simpl. rewrite lookup_insert_eq. simpl. apply take_ge. lia. }
  assert (resident st' (l1 ++ c :: l2) ≡ₚ filter (λ x, x ≠ 0) ar ++ resident st (l1 ++ l2)) as Hres.
  { rewrite !resident_app, resident_cons, Hbk.
    rewrite (resident_frame st st' l1), (resident_frame st st' l2) by (intros; apply Har; set_solver).
    rewrite !app_assoc. by rewrite (Permutation_app_comm (resident st l1)). }
  split; [|split; [|split; [done|]]].
  - constructor; rewrite ?Hres; simpl; try done.
    + rewrite length_app in *. simpl in *. lia.
    + rewrite Forall_app, Forall_cons. rewrite Forall_app in vw_ok0. rewrite !Forall_forall in *.
      destruct vw_ok0 as [Ho1 Ho2].
      assert (∀ w, w ∈ l1 ++ l2 → vma_ok st w → vma_ok st' w) as Hfr.
      { intros w Hw. apply vma_ok_frame; [by apply Har|]. simpl. rewrite Hl. set_solver. }
      split; [|split]; [intros w Hw; apply Hfr; [set_solver|auto]| |intros w Hw; apply Hfr; [set_solver|auto]].
      unfold vma_ok. simpl. split; [lia|]. split; [lia|]. split; [done|]. split; [done|]. split; [done|].
      split; [rewrite Hl; set_solver|]. exists ar. rewrite lookup_insert_eq. split; [done|lia].
    + apply pairwise_app in vw_sorted0 as (Hs1 & Hs2 & Hs3). apply pairwise_app.
      split; [done|]. rewrite Forall_forall in H1. split; [by split|].
      intros x y Hx [->|Hy]%elem_of_cons; [by apply H1|by apply Hs3].
    + rewrite fmap_app, fmap_cons, <- Permutation_middle, <- fmap_app. apply NoDup_cons. split; [|done].
      intros (w & E & Hw)%list_elem_of_fmap. by eapply fresh_ptr.
    + intros x. rewrite Hres, Hf. intros [Hx|Hx]%elem_of_app; auto.
  - intros q Hq Hn. rewrite fmap_app in *. simpl. rewrite Hl.
    assert (q ≠ v_pages c) by congruence. rewrite lookup_insert_ne by done. set_solver.
  - intros a x. rewrite !maps_app, maps_cons, Hbk.
    rewrite (maps_frame st st' l1), (maps_frame st st' l2) by (intros; apply Har; set_solver). tauto.
Qed.

Lemma filter_zeros n : filter (λ x : Z, x ≠ 0) (replicate n 0) = [].
Proof. induction n as [|n IH]; [done|]. cbn [replicate]. rewrite filter_cons, decide_False by auto. done. Qed.

Lemma replicate_lookup_zero n i p : replicate n 0 !! i = Some p → p = 0.
Proof. by intros [-> _]%lookup_replicate. Qed.

(** ** The operations *)

#[local] Arguments unmap_loop : simpl never.
#[local] Arguments vma_merge_adjacent : simpl never.

Definition add_post st es start en prot flags (r : option nat) st' es' : Prop :=
  vma_wf st' es' ∧ keeps st es st' es' ∧ km_frames (kmem st') = km_frames (kmem st) ∧
  match r with
  | None => es' = es ∧ arrs st' = arrs st
  | Some i =>
      (∃ p, es' !! i = Some (mk_vma start en prot flags p 0)) ∧
      start < en ∧ start mod PAGE_SIZE = 0 ∧ en mod PAGE_SIZE = 0 ∧
      (∀ a x, ¬ (start ≤ a < en ∧ maps st es a x)) ∧
      ∀ a x, maps st' es' a x ↔ maps st es a x ∨ (start ≤ a < en ∧ x = (prot, flags, 0))
  end.

(** [vma_add]: it never faults and keeps the representation invariant.
    Either it refuses (empty or unaligned range, table full, overlap with an
    existing area, range too large, no memory) and the set and every page
    array are as before, or it returns the new entry and the view gains
    exactly the range, with the given protection and flags and no backing
    page; no physical page is taken and no other heap object is touched. *)
Lemma vma_add_spec st es start en prot flags :
  vma_wf st es → is_u64 start → is_u64 en →
  ∃ r st' es', vma_add st es start en prot flags = Some (r, (st', es')) ∧
    add_post st es start en prot flags r st' es'.
Proof.
  intros Hwf Hus Hue. unfold vma_add.
  assert (∃ r st' es', Some (None, (st, es)) = Some (r, (st', es')) ∧
    add_post st es start en prot flags r st' es') as Hrefuse.
  { exists None, st, es. split; [done|]. split; [done|]. by split. }
  case_decide as Hse; [exact Hrefuse|]. case_decide as Hal; [exact Hrefuse|].
  case_decide as Hfull; [exact Hrefuse|].
  destruct (vma_find_overlap es start en) eqn:Hov; [exact Hrefuse|].
  case_decide as Hbig; [exact Hrefuse|]. clear Hrefuse.
  assert (start mod PAGE_SIZE = 0 ∧ en mod PAGE_SIZE = 0) as [Hal1 Hal2] by lia.
  destruct (km_malloc_ok (kmem st) ((en -w start) / PAGE_SIZE *w 8)) as (p & m & -> & Hi & Hf & Hc);
    [apply Hwf|apply wrap64_range|]. simpl.
  destruct Hc as [[-> Hl]|[Hp Hl]].
  { rewrite decide_True by done. destruct (same_space_mem st es m Hwf Hi Hf Hl).
    exists None, (mk_kst m (arrs st)), es. split; [done|]. split; [done|]. by split. }
  assert (p ≠ 0) as Hp0.
  { intros ->. apply (km_null m) in Hi as [Hi _]. apply Hi. rewrite Hl. set_solver. }
  rewrite decide_False by done.
  set (c := mk_vma start en prot flags p 0). unfold is_u64 in *.
  assert (∀ v, v ∈ es → v_start v < v_end v) as Hne.
  { intros v Hv. pose proof (vw_ok _ _ Hwf) as Hok. rewrite Forall_forall in Hok. apply (Hok v Hv). }
  destruct (sorted_split es start) as (l1 & l2 & -> & Hl1 & Hl2); [by apply Forall_forall|apply Hwf|].
  assert (vma_insert_sorted (l1 ++ l2) c = l1 ++ c :: l2) as ->.
  { apply insert_sorted_at; [done|]. rewrite Forall_forall in Hl1. intros e He.
    apply Hl1. by apply last_Some_elem_of. }
  rewrite Forall_forall in Hl1, Hl2.
  assert (vma_npages c = (en - start) / PAGE_SIZE) as Hnp.
  { unfold vma_npages. simpl. by rewrite sub64_small by lia. }
  assert (0 ≤ (en - start) / PAGE_SIZE) as Hpos by (unfold PAGE_SIZE; dlia).
  destruct (insert_area st l1 l2 c m (replicate (Z.to_nat ((en -w start) / PAGE_SIZE)) 0))
    as (Hwf' & Hk & Hb & Hm); try done; simpl; try lia.
  { apply Forall_forall. intros w Hw. assert (w ∈ l1 ++ l2) as Hin by (apply elem_of_app; auto).
    pose proof (find_overlap_None _ _ _ w Hov Hin). specialize (Hl1 w Hw). specialize (Hne w Hin). lia. }
  { apply Forall_forall. intros w Hw. assert (w ∈ l1 ++ l2) as Hin by (apply elem_of_app; auto).
    pose proof (find_overlap_None _ _ _ w Hov Hin). specialize (Hl2 w Hw). specialize (Hne w Hin). lia. }
  { rewrite length_replicate, sub64_small by lia. fold c. rewrite Hnp. lia. }
  { rewrite filter_zeros. apply Hwf. }
  { rewrite filter_zeros. set_solver. }
  eexists _, _, _. split; [done|]. split; [exact Hwf'|]. split; [exact Hk|]. split; [done|].
  destruct (vma_find (l1 ++ c :: l2) start) as [i|] eqn:Hfind.
  2:{ exfalso. eapply (vma_find_None _ _ c Hfind); [set_solver|simpl; lia]. }
  destruct (vma_find_Some _ _ _ Hfind) as (k1 & v & k2 & Ees & -> & Hv).
  assert (v = c) as ->.
  { assert (v ∈ l1 ++ c :: l2) as Hv2 by (rewrite Ees; set_solver).
    rewrite elem_of_app, elem_of_cons in Hv2.
    assert (v ∈ l1 ++ l2 → v = c); [|set_solver].
    intros Hin. exfalso. apply (find_overlap_None _ _ _ v Hov Hin). lia. }
  split; [exists p; rewrite Ees; by apply list_lookup_middle|].
  split; [lia|]. split; [done|]. split; [done|]. split.
  - intros a x [Ha (w & Hw & Hwa & _)]. apply (find_overlap_None _ _ _ w Hov Hw). lia.
  - intros a x. etrans; [apply Hm|]. unfold one_maps. simpl. split; (intros [?|[Ha Hx]]; [by left|right]).
    + destruct Hx as (q & Hq & ->). split; [done|]. by apply replicate_lookup_zero in Hq as ->.
    + split; [done|]. exists 0. split; [|done]. apply lookup_replicate_2.
      rewrite sub64_small by lia. unfold PAGE_SIZE in *. dlia.
Qed.

Lemma vma_unmap_range_spec st es start en :
  vma_wf st es →
  ∃ r st' es', vma_unmap_range st es start en = Some (r, (st', es')) ∧ vma_wf st' es' ∧
    keeps st es st' es' ∧
    ((r = -1 ∧ same_space st es st' es') ∨
     start < en ∧ start mod PAGE_SIZE = 0 ∧ en mod PAGE_SIZE = 0 ∧
     r = Z.of_nat (size (km_frames (kmem st))) - Z.of_nat (size (km_frames (kmem st'))) ∧
     (∀ a x, maps st' es' a x ↔ maps st es a x ∧ ¬ (start ≤ a < en)) ∧
     ∀ x, x ∈ km_frames (kmem st') ↔
       x ∈ km_frames (kmem st) ∧ ¬ ∃ a pr fl, start ≤ a < en ∧ maps st es a (pr, fl, x)).
Proof.
  intros Hwf. unfold vma_unmap_range. case_decide as Hse.
  { exists (-1), st, es. split; [done|]. split; [done|]. split; [done|]. left. split; [done|].
    by apply same_space_refl. }
  destruct (two_splits st es start en Hwf) as (r1 & st1 & es1 & -> & Hs1 & H1); [lia|]. simpl.
  destruct H1 as [->|(-> & r2 & st2 & es2 & -> & Hs2 & H2)].
  { exists (-1), st1, es1. split; [done|]. pose proof Hs1 as []. split; [done|]. split; [done|]. by left. }
  simpl. destruct H2 as [->|(-> & Ha1 & Ha2 & Hc1 & Hc2)].
  { exists (-1), st2, es2. split; [done|]. pose proof Hs2 as []. split; [done|]. split; [done|]. by left. }
  simpl. pose proof Hs2 as [Hwf2 Hm2 _ Hf2 Hk2].
  destruct (unmap_cut st2 es2 start en) as (r & st3 & es3 & -> & Hwf3 & Hr & Hm3 & Hf3 & Hk3); [done|lia|done..|].
  simpl. destruct (vma_merge_adjacent_spec st3 es3 Hwf3) as (n & st4 & es4 & -> & [Hwf4 Hm4 _ Hf4 Hk4] & _).
  simpl. exists r, st4, es4. split; [done|]. split; [done|].
  split; [by eapply keeps_trans, keeps_trans|]. right. rewrite Hf4. rewrite Hf2 in Hr.
  split; [lia|]. split; [done|]. split; [done|]. split; [done|]. split.
  - intros a x. by rewrite Hm4, Hm3, Hm2.
  - intros x. rewrite Hf3, Hf2. by setoid_rewrite Hm2.
Qed.

(** C9. [vma_unmap_range] never faults and keeps the representation
    invariant.  When it returns -1 the set still represents the same address
    space with the same pages (a boundary split may have been done).
    Otherwise the range is page aligned, exactly the addresses of the range
    disappear from the view, exactly the physical pages that backed them go
    back to the page allocator, the result is their number, and no other heap
    object is touched. *)
Theorem vma_unmap_range_correct st es start en :
  vma_wf st es →
  ∃ r st' es', vma_unmap_range st es start en = Some (r, (st', es')) ∧ vma_wf st' es' ∧
    keeps st es st' es' ∧
    ((r = -1 ∧ same_space st es st' es') ∨
     start < en ∧ start mod PAGE_SIZE = 0 ∧ en mod PAGE_SIZE = 0 ∧
     r = Z.of_nat (size (km_frames (kmem st))) - Z.of_nat (size (km_frames (kmem st'))) ∧
     (∀ a x, maps st' es' a x ↔ maps st es a x ∧ ¬ (start ≤ a < en)) ∧
     ∀ x, x ∈ km_frames (kmem st') ↔
       x ∈ km_frames (kmem st) ∧ ¬ ∃ a pr fl, start ≤ a < en ∧ maps st es a (pr, fl, x)).
Proof. apply vma_unmap_range_spec. Qed.

Lemma vma_protect_range_spec st es start en prot :
  vma_wf st es →
  ∃ r st' es', vma_protect_range st es start en prot = Some (r, (st', es')) ∧ vma_wf st' es' ∧
    keeps st es st' es' ∧ km_frames (kmem st') = km_frames (kmem st) ∧
    ((r = -1 ∧ same_space st es st' es') ∨
     0 ≤ r ∧ start < en ∧ start mod PAGE_SIZE = 0 ∧ en mod PAGE_SIZE = 0 ∧
     ∀ a x, maps st' es' a x ↔ protected start en prot (maps st es) a x).
Proof.
  intros Hwf. unfold vma_protect_range. case_decide as Hse.
  { exists (-1), st, es. split; [done|]. split; [done|]. split; [done|]. split; [done|]. left. split; [done|].
    by apply same_space_refl. }
  destruct (two_splits st es start en Hwf) as (r1 & st1 & es1 & -> & Hs1 & H1); [lia|]. simpl.
  destruct H1 as [->|(-> & r2 & st2 & es2 & -> & Hs2 & H2)].
  { exists (-1), st1, es1. split; [done|]. pose proof Hs1 as []. split; [done|]. split; [done|].
    split; [done|]. by left. }
  simpl. destruct H2 as [->|(-> & Ha1 & Ha2 & Hc1 & Hc2)].
  { exists (-1), st2, es2. split; [done|]. pose proof Hs2 as []. split; [done|]. split; [done|].
    split; [done|]. by left. }
  simpl. pose proof Hs2 as [Hwf2 Hm2 _ Hf2 Hk2].
  destruct (vma_merge_adjacent_spec st2 (protect_entry start en prot <$> es2))
    as (n & st4 & es4 & -> & [Hwf4 Hm4 _ Hf4 Hk4] & _); [by apply protect_wf|].
  simpl. eexists _, st4, es4. split; [done|]. split; [done|].
  split; [by eapply keeps_trans, keeps_protect|]. split; [congruence|]. right.
  split; [lia|]. split; [lia|]. split; [done|]. split; [done|].
  intros a x. rewrite Hm4, protect_maps by (done || lia). unfold protected.
  case_decide; [|by apply Hm2]. by setoid_rewrite Hm2.
Qed.

(** [vma_protect_range] never faults and keeps the invariant and every
    page.  When it returns -1 the view is unchanged; otherwise exactly the
    addresses of the (page aligned) range have their protection replaced. *)
Theorem vma_protect_range_correct st es start en prot :
  vma_wf st es →
  ∃ r st' es', vma_protect_range st es start en prot = Some (r, (st', es')) ∧ vma_wf st' es' ∧
    keeps st es st' es' ∧ km_frames (kmem st') = km_frames (kmem st) ∧
    ((r = -1 ∧ same_space st es st' es') ∨
     0 ≤ r ∧ start < en ∧ start mod PAGE_SIZE = 0 ∧ en mod PAGE_SIZE = 0 ∧
     ∀ a x, maps st' es' a x ↔ protected start en prot (maps st es) a x).
Proof. apply vma_protect_range_spec. Qed.

(** [vma_merge_adjacent] preserves the address space: same view, same
    pages in the same order, invariant kept; the result is the number of
    entries saved. *)
Theorem vma_merge_adjacent_correct st es :
  vma_wf st es →
  ∃ n st' es', vma_merge_adjacent st es = Some (n, (st', es')) ∧ same_space st es st' es' ∧
    n = vma_count es - vma_count es'.
Proof.
  intros Hwf. destruct (vma_merge_adjacent_spec st es Hwf) as (n & st' & es' & E & Hs & Hn & _).
  by exists n, st', es'.
Qed.

Lemma release_all_spec st es :
  vma_wf st es →
  ∃ st', release_all st es = Some st' ∧ km_inv (kmem st') ∧
    km_live (kmem st') = km_live (kmem st) ∖ list_to_set (v_pages <$> es) ∧
    km_frames (kmem st') = km_frames (kmem st) ∖ list_to_set (resident st es) ∧
    ∀ p, (p ∉ v_pages <$> es) → arrs st' !! p = arrs st !! p.
Proof.
  revert st. induction es as [|v es IH]; intros st Hwf; cbn [release_all].
  - exists st. split; [done|]. split; [apply Hwf|]. split; [set_solver|]. split; [set_solver|done].
  - pose proof Hwf as [Hi _ Hok _ _ _ _]. apply Forall_cons in Hok as [Hv _].
    destruct (release_entry st [] v es 0 Hwf) as (m & st1 & E1 & E2 & Hwf1 & Ha1 & Hl1 & Hf1).
    unfold vma_release_pages. rewrite decide_False.
    2:{ intros E. destruct (km_null _ Hi) as [H0 _]. apply H0. rewrite <- E. apply Hv. }
    rewrite read_array_ok by done. simpl. rewrite E1. simpl. rewrite E2. simpl.
    destruct (IH st1 Hwf1) as (st' & -> & Hi' & Hl' & Hf' & Ha'). exists st'.
    assert (resident st1 es = resident st es) as Hr.
    { apply resident_frame. intros w Hw. rewrite Ha1, lookup_delete_ne; [done|].
      apply not_eq_sym. eapply (wf_ptr_distinct st []); [apply Hwf|by right]. }
    split; [done|]. split; [done|]. rewrite Hl', Hf', Hl1, Hf1, resident_cons, Hr. split; [set_solver|].
    split; [set_solver|]. intros p [Hp1 Hp2]%not_elem_of_cons. by rewrite Ha', Ha1, lookup_delete_ne.
Qed.

(** [vma_destroy] empties the set, returns exactly its page arrays to the
    heap and exactly the pages it records to the page allocator, and touches
    nothing else. *)
Theorem vma_destroy_correct st es :
  vma_wf st es →
  ∃ st', vma_destroy st es = Some (st', []) ∧ vma_wf st' [] ∧ keeps st es st' [] ∧
    km_live (kmem st') = km_live (kmem st) ∖ list_to_set (v_pages <$> es) ∧
    ∀ x, x ∈ km_frames (kmem st') ↔ x ∈ km_frames (kmem st) ∧ ¬ ∃ a pr fl, maps st es a (pr, fl, x).
Proof.
  intros Hwf. unfold vma_destroy.
  destruct (release_all_spec st es Hwf) as (st' & -> & Hi & Hl & Hf & Ha). simpl. exists st'.
  split; [done|]. split; [|split; [|split; [done|]]].
  - constructor; simpl; try done; [unfold VMA_MAX_PER_TASK; lia|constructor| |constructor].
    intros x []%not_elem_of_nil.
  - intros p Hp Hn. rewrite Ha, Hl by done. set_solver.
  - intros x. rewrite Hf, elem_of_difference, elem_of_list_to_set, elem_of_resident by apply Hwf.
    destruct (km_null _ (vw_inv _ _ Hwf)) as [_ H0]. split.
    + intros [Hx Hn]. split; [done|]. intros Hm. apply Hn. split; [by intros ->|done].
    + intros [Hx Hn]. split; [done|]. tauto.
Qed.

(** ** Cloning *)

Definition copy_of (s d : vma) : Prop :=
  v_start d = v_start s ∧ v_end d = v_end s ∧ v_prot d = v_prot s ∧ v_flags d = v_flags s.

(** The live objects of [st0] are still live, with the same contents. *)
Definition extends st0 st : Prop :=
  km_inv (kmem st) ∧
  ∀ p, p ∈ km_live (kmem st0) → p ∈ km_live (kmem st) ∧ arrs st !! p = arrs st0 !! p.

(** [dst] is a copy of [done] with arrays of its own. *)
Record cloned st0 (don : list vma) st (dst : list vma) : Prop := {
  cl_ext : extends st0 st;
  cl_wf : vma_wf st dst;
  cl_copy : Forall2 copy_of don dst;
  cl_back : backing st <$> dst = backing st0 <$> don;
  cl_frames : km_frames (kmem st) = km_frames (kmem st0);
  cl_live : km_live (kmem st) = list_to_set (v_pages <$> dst) ∪ km_live (kmem st0);
  cl_fresh d : d ∈ dst → v_pages d ∉ km_live (kmem st0);
}.

Lemma cloned_resident st0 don st dst : cloned st0 don st dst → resident st dst = resident st0 don.
Proof. intros [_ _ _ Hb _ _ _]. unfold resident. by rewrite Hb. Qed.

Lemma cloned_maps st0 don st dst a x : cloned st0 don st dst → maps st dst a x ↔ maps st0 don a x.
Proof.
  intros [_ _ Hc Hb _ _ _]. revert Hb. induction Hc as [|s d don dst (E1 & E2 & E3 & E4) _ IH]; intros Hb.
  { by rewrite !maps_nil. }
  rewrite !fmap_cons in Hb. simplify_eq. rewrite !maps_cons, IH by done. apply or_iff_compat_r.
  rewrite H. unfold one_maps. by rewrite E1, E2, E3, E4.
Qed.

(** One more entry cloned. *)
Lemma clone_step st0 st don s rest dst p m :
  vma_wf st0 (don ++ s :: rest) → cloned st0 don st dst →
  km_inv m → km_frames m = km_frames (kmem st) → (p ∉ km_live (kmem st)) →
  km_live m = {[p]} ∪ km_live (kmem st) →
  let c := mk_vma (v_start s) (v_end s) (v_prot s) (v_flags s) p 0 in
  vma_insert_sorted dst c = dst ++ [c] ∧
  cloned st0 (don ++ [s]) (mk_kst m (<[p := backing st0 s]> (arrs st))) (dst ++ [c]).
Proof.
  intros Hwf0 Hcl Hi Hf Hp Hl c. pose proof Hcl as [Hext Hwf Hcp Hb Hfr Hlv Hfresh].
  pose proof (vw_ok _ _ Hwf0) as Hok0. rewrite Forall_app, Forall_cons in Hok0.
  destruct Hok0 as (Hokd & Hs & _). pose proof Hs as (?&?&?&?&?&_).
  pose proof (vw_sorted _ _ Hwf0) as (_ & _ & Hcross)%pairwise_app.
  assert (Forall (λ w, v_start w < v_end w ∧ v_end w ≤ v_start c) dst) as Hbef.
  { apply Forall_forall. intros d Hd. apply list_elem_of_lookup in Hd as [i Hd].
    destruct (Forall2_lookup_r _ _ _ _ _ Hcp Hd) as (w & Hw & E1 & E2 & _).
    apply list_elem_of_lookup_2 in Hw. specialize (Hcross w s Hw ltac:(by left)).
    rewrite Forall_forall in Hokd. destruct (Hokd w Hw) as (?&?&_).
    unfold vma_before in Hcross. simpl. lia. }
  rewrite Forall_forall in Hbef. pose proof (Forall2_length _ _ _ Hcp) as Hlen.
  pose proof (vw_count _ _ Hwf0) as Hcnt. rewrite length_app in Hcnt. simpl in Hcnt.
  split.
  { rewrite <- (app_nil_r dst) at 1. apply insert_sorted_at; [done|]. intros e He.
    apply last_Some_elem_of in He. specialize (Hbef e He). simpl in *. lia. }
  assert (resident st0 (don ++ s :: rest) =
    resident st0 don ++ filter (λ x, x ≠ 0) (backing st0 s) ++ resident st0 rest) as Hr0
    by by rewrite resident_app, resident_cons.
  pose proof (vw_nodup _ _ Hwf0) as Hnd0. rewrite Hr0, app_assoc in Hnd0.
  destruct (insert_area st dst [] c m (backing st0 s)) as (Hwf' & Hk & Hbk & _); try (simpl; done); try (simpl; lia).
  - by rewrite app_nil_r.
  - rewrite app_nil_r. lia.
  - apply Forall_forall. intros w Hw. apply (Hbef w Hw).
  - rewrite backing_length by done. done.
  - rewrite app_nil_r, (cloned_resident _ _ _ _ Hcl), Permutation_app_comm.
    by apply NoDup_app in Hnd0 as (? & _).
  - intros x Hx. rewrite Hfr. apply (vw_frames _ _ Hwf0). rewrite Hr0. set_solver.
  - destruct Hext as [_ Hext]. constructor; simpl; try done.
    + split; [done|]. intros q Hq. destruct (Hext q Hq) as [Hq1 Hq2]. simpl. rewrite Hl.
      split; [set_solver|]. rewrite lookup_insert_ne; [done|]. intros ->. done.
    + apply Forall2_app; [done|]. by repeat constructor.
    + rewrite !fmap_app, <- Hb. simpl. f_equal; [|by f_equal].
      apply list_fmap_ext. intros i d Hd. apply backing_frame. simpl. rewrite lookup_insert_ne; [done|].
      apply not_eq_sym. eapply fresh_ptr; [apply Hwf|done|]. by eapply list_elem_of_lookup_2.
    + congruence.
    + rewrite Hl, Hlv, fmap_app. simpl. rewrite list_to_set_app_L. set_solver.
    + intros d [Hd| ->%list_elem_of_singleton]%elem_of_app; [by apply Hfresh|]. simpl.
      intros Hq. apply Hp, Hext, Hq.
Qed.

(** A failed [kmalloc] leaves the clone as it is. *)
Lemma cloned_mem st0 don st dst m :
  cloned st0 don st dst → km_inv m → km_frames m = km_frames (kmem st) →
  km_live m = km_live (kmem st) → cloned st0 don (mk_kst m (arrs st)) dst.
Proof.
  intros [[_ He] Hwf Hcp Hb Hfr Hlv Hfresh] Hi Hf Hl. constructor; simpl; try done.
  - split; [done|]. simpl. by rewrite Hl.
  - by apply same_space_mem.
  - congruence.
  - congruence.
Qed.

(** The copy of [don] succeeded and the array for the entry after it could not be
    allocated. *)
Definition clone_stops st0 (src don : list vma) : Prop :=
  ∃ s rest st dst m, src = don ++ s :: rest ∧ vma_clone st0 don = Some (1, (st, dst)) ∧ km_malloc (kmem st) (vma_npages s *w 8) = Some (0, m).

(** What a clone that ran out of memory has done: the pages of all source entries
    it had copied are back in the page allocator. *)
Definition clone_failed st0 (src : list vma) st' (dst' : list vma) : Prop :=
  dst' = [] ∧ extends st0 st' ∧ km_live (kmem st') = km_live (kmem st0) ∧
  ∃ don, clone_stops st0 src don ∧ km_frames (kmem st') = km_frames (kmem st0) ∖ list_to_set (resident st0 don).

Lemma clone_loop_app st a b dst st1 dst1 :
  clone_loop st a dst = Some (1, (st1, dst1)) → clone_loop st (a ++ b) dst = clone_loop st1 b dst1.
Proof.
  revert st dst. induction a as [|s a IH]; intros st dst E; cbn [clone_loop app] in *; [by injection E as -> ->|].
  destruct (km_malloc (kmem st) (vma_npages s *w 8)) as [[p m]|]; [|done]. cbn [mbind option_bind] in *. case_decide.
  - destruct (vma_destroy (mk_kst m (arrs st)) dst) as [[st' dst']|]; [|done]. cbn in E. by injection E.
  - destruct (read_array st (v_pages s) 0 (vma_npages s)) as [ps|]; [|done]. cbn [mbind option_bind] in *. by apply IH.
Qed.

Lemma clone_fails st0 don s rest st dst :
  cloned st0 don st dst → clone_stops st0 (don ++ s :: rest) don →
  ∃ st', vma_destroy st dst = Some (st', []) ∧ clone_failed st0 (don ++ s :: rest) st' [].
Proof.
  intros Hcl Hst. pose proof Hcl as [[_ He] Hwf _ _ Hfr Hlv Hfresh]. unfold vma_destroy.
  destruct (release_all_spec st dst Hwf) as (st' & -> & Hi & Hl & Hf & Ha). simpl. exists st'.
  assert (km_live (kmem st') = km_live (kmem st0)) as Hlive.
  { rewrite Hl, Hlv. apply set_eq. intros q. rewrite elem_of_difference, elem_of_union, elem_of_list_to_set.
    split; [tauto|]. intros Hq. split; [by right|]. intros (d & -> & Hd)%list_elem_of_fmap.
    by apply (Hfresh d). }
  split; [done|]. split; [done|]. split; [|split; [done|]].
  - split; [done|]. intros q Hq. rewrite Hlive. split; [done|]. destruct (He q Hq) as [_ <-]. apply Ha.
    intros (d & -> & Hd)%list_elem_of_fmap. by apply (Hfresh d).
  - exists don. split; [done|]. by rewrite Hf, Hfr, (cloned_resident _ _ _ _ Hcl).
Qed.

Lemma clone_loop_spec st0 st don rest dst :
  vma_wf st0 (don ++ rest) → cloned st0 don st dst → vma_clone st0 don = Some (1, (st, dst)) →
  ∃ r st' dst', clone_loop st rest dst = Some (r, (st', dst')) ∧
    ((r = 1 ∧ cloned st0 (don ++ rest) st' dst') ∨ (r = 0 ∧ clone_failed st0 (don ++ rest) st' dst')).
Proof.
  revert st don dst. induction rest as [|s rest IH]; intros st don dst Hwf Hcl Hvc; cbn [clone_loop].
  { rewrite app_nil_r. exists 1, st, dst. split; [done|]. by left. }
  destruct (km_malloc_ok (kmem st) (vma_npages s *w 8)) as (p & m & Em & Hi & Hf & Hc);
    [apply Hcl|apply wrap64_range|]. rewrite Em. simpl.
  destruct Hc as [[-> Hl]|[Hp Hl]].
  { rewrite decide_True by done.
    destruct (clone_fails st0 don s rest (mk_kst m (arrs st)) dst) as (st' & -> & Hfail);
      [by apply cloned_mem|by exists s, rest, st, dst, m|]. simpl. exists 0, st', []. split; [done|]. by right. }
  assert (p ≠ 0) as Hp0.
  { intros ->. apply (km_null m) in Hi as [Hi _]. apply Hi. rewrite Hl. set_solver. }
  rewrite decide_False by done.
  assert (vma_ok st0 s) as Hs.
  { pose proof (vw_ok _ _ Hwf) as Hok. rewrite Forall_app, Forall_cons in Hok. tauto. }
  assert (backing st s = backing st0 s ∧ vma_ok st s) as [Hbs Hs'].
  { destruct (cl_ext _ _ _ _ Hcl) as [_ He]. pose proof Hs as (_&_&_&_&_&Hlv&_).
    destruct (He _ Hlv) as [? Ha]. split; [by apply backing_frame|]. by eapply vma_ok_frame. }
  rewrite read_array_ok, Hbs by done. simpl.
  destruct (clone_step st0 st don s rest dst p m) as [Eins Hcl']; try done. rewrite Eins.
  assert (vma_clone st0 (don ++ [s]) = Some (1, (mk_kst m (<[p := backing st0 s]> (arrs st)),
    dst ++ [mk_vma (v_start s) (v_end s) (v_prot s) (v_flags s) p 0]))) as Hvc'.
  { unfold vma_clone in *. rewrite (clone_loop_app _ _ _ _ _ _ Hvc). cbn [clone_loop]. rewrite Em. cbn [mbind option_bind].
    rewrite decide_False by done. rewrite read_array_ok, Hbs by done. cbn [mbind option_bind]. by rewrite Eins. }
  destruct (IH _ (don ++ [s]) (dst ++ [mk_vma (v_start s) (v_end s) (v_prot s) (v_flags s) p 0])
    ltac:(by rewrite <- app_assoc) Hcl' Hvc') as (r & st' & dst' & -> & Hr).
  rewrite <- app_assoc in Hr. by exists r, st', dst'.
Qed.

(** C16. [vma_clone] (fork): it never faults.  On success the copy has the
    same view and records the same pages in arrays of its own, none of them
    live before, and the source set, its arrays and every other heap object
    are as they were.  It fails exactly at the first entry whose array cannot be
    allocated; the copy is then empty and every array allocated on the way is
    released, but the pages recorded by all entries copied before, which the
    source still owns, are freed as well. *)
Theorem vma_clone_correct st src :
  vma_wf st src →
  ∃ r st' dst, vma_clone st src = Some (r, (st', dst)) ∧
    ((r = 1 ∧ vma_wf st' dst ∧ vma_wf st' src ∧ extends st st' ∧
      km_frames (kmem st') = km_frames (kmem st) ∧
      (∀ d, d ∈ dst → v_pages d ∉ km_live (kmem st)) ∧
      resident st' dst = resident st src ∧ (∀ a x, maps st' dst a x ↔ maps st src a x)) ∨
     (r = 0 ∧ clone_failed st src st' dst)).
Proof.
  intros Hwf. destruct (clone_loop_spec st st [] src []) as (r & st' & dst & E & Hr); [done|..].
  { constructor; simpl; try done.
    - split; [apply Hwf|]. done.
    - constructor; simpl; try done; [apply Hwf|unfold VMA_MAX_PER_TASK; lia|constructor| |constructor].
      intros x []%not_elem_of_nil.
    - set_solver.
    - intros d []%not_elem_of_nil. }
  { done. }
  exists r, st', dst. split; [done|]. destruct Hr as [[-> Hcl]|Hr]; [left|by right].
  simpl in Hcl. pose proof Hcl as [Hext Hwf' _ _ Hfr _ Hfresh]. split; [done|]. split; [done|].
  split; [|split; [done|split; [done|split; [done|split]]]].
  - pose proof Hwf as []. destruct Hext as [Hi He]. rewrite Forall_forall in vw_ok0.
    assert (∀ v, v ∈ src → v_pages v ∈ km_live (kmem st)) as Hlv by (intros v Hv; apply (vw_ok0 v Hv)).
    assert (resident st' src = resident st src) as Hres.
    { apply resident_frame. intros v Hv. by apply He, Hlv. }
    constructor; rewrite ?Hres; try done.
    + apply Forall_forall. intros v Hv. destruct (He _ (Hlv v Hv)).
      eapply vma_ok_frame; [done|done|by apply vw_ok0].
    + intros x. rewrite Hfr. apply vw_frames0.
  - by apply cloned_resident.
  - intros a x. by apply cloned_maps.
Qed.
End View.

(** ** Witnesses: three pages mapped, the first one backed *)

Definition demo_mem : option (Z * (Z * heap pmm)) :=
  '(p, m) ← km_malloc demo_heap 24; '(x, m') ← km_alloc_page m; Some (p, (x, m')).

Definition demo_st : kst (heap pmm) :=
  match demo_mem with
  | Some (p, (x, m)) => mk_kst m {[ p := [x; 0; 0] ]}
  | None => mk_kst demo_heap ∅
  end.

Definition demo_area : vma := mk_vma 0x400000 0x403000 3 1 0xFFFF000040003020 0.
Definition demo_set : list vma := [demo_area].

Lemma demo_arr : arrs demo_st !! v_pages demo_area = Some [0x40103000; 0; 0].
Proof. vm_compute. reflexivity. Qed.

Lemma demo_mem_eq :
  fst <$> demo_mem = Some 0xFFFF000040003020 ∧ (λ y, fst (snd y)) <$> demo_mem = Some 0x40103000.
Proof. split; vm_compute; reflexivity. Qed.

Lemma demo_wf (m : heap pmm) :
  km_inv m → 0xFFFF000040003020 ∈ km_live m → 0x40103000 ∈ km_frames m →
  vma_wf (mk_kst m {[ 0xFFFF000040003020 := [0x40103000; 0; 0] ]}) demo_set.
Proof.
  intros Hi Hl Hf.
  assert (resident (mk_kst m {[ 0xFFFF000040003020 := [0x40103000; 0; 0] ]}) demo_set = [0x40103000]) as Hr
    by (vm_compute; reflexivity).
  constructor; rewrite ?Hr; simpl; try done.
  - unfold VMA_MAX_PER_TASK. lia.
  - constructor; [|constructor]. unfold vma_ok, demo_area. simpl. do 6 (split; [done|]).
    eexists. split; [apply lookup_singleton_eq|]. vm_compute. discriminate.
  - apply NoDup_singleton.
  - by intros y ->%list_elem_of_singleton.
  - apply NoDup_singleton.
Qed.

Lemma demo_set_wf : vma_wf demo_st demo_set.
Proof.
  assert (is_u64 24) as H24 by done.
  destruct (km_malloc_ok demo_heap 24 demo_km_inv H24) as (p & m & E1 & Hi1 & Hf1 & Hc1).
  destruct (km_alloc_page_ok m Hi1) as (x & m' & E2 & Hi2 & Hl2 & Hc2).
  assert (demo_mem = Some (p, (x, m'))) as E by (unfold demo_mem; rewrite E1; cbn [mbind option_bind]; by rewrite E2).
  pose proof demo_mem_eq as Hpx. rewrite E in Hpx. simpl in Hpx. destruct Hpx as [[= Hp0] [= Hx0]].
  unfold demo_st. rewrite E, Hp0, Hx0.
  apply demo_wf; [exact Hi2|rewrite Hl2; destruct Hc1 as [[? _]|[_ ->]]|destruct Hc2 as [[? _]|[_ ->]]];
    [lia| |lia|]; rewrite <- ?Hp0, <- ?Hx0; apply elem_of_union_l, elem_of_singleton; reflexivity.
Qed.

Lemma result_eq {A B} (o : option (A * B)) r r' y : o = Some (r, y) → fst <$> o = Some r' → r = r'.
Proof. intros -> [= ->]. done. Qed.

(** A second area right behind the first. *)
Lemma vma_unmap_range_correct_witness :
  vma_wf demo_st demo_set ∧
  ∃ st' es', vma_unmap_range demo_st demo_set 0x400000 0x401000 = Some (1, (st', es')) ∧
    ∀ x, ¬ maps st' es' 0x400010 x.
Proof.
  split; [exact demo_set_wf|].
  destruct (vma_unmap_range_correct demo_st demo_set 0x400000 0x401000 demo_set_wf)
    as (r & st' & es' & E & _ & _ & Hr).
  assert (r = 1) as -> by (apply (result_eq _ _ _ _ E); vm_compute; reflexivity).
  exists st', es'. split; [exact E|].
  destruct Hr as [[? _]|(_ & _ & _ & _ & Hm & _)]; [lia|]. intros x Hx. apply Hm in Hx as [_ Hx].
  apply Hx. lia.
Defined.

Lemma vma_protect_range_correct_witness :
  vma_wf demo_st demo_set ∧
  ∃ st' es', vma_protect_range demo_st demo_set 0x401000 0x402000 1 = Some (1, (st', es')) ∧ vma_wf st' es' ∧
    ∀ x, maps st' es' 0x401010 x ↔ protected 0x401000 0x402000 1 (maps demo_st demo_set) 0x401010 x.
Proof.
  split; [exact demo_set_wf|].
  destruct (vma_protect_range_correct demo_st demo_set 0x401000 0x402000 1 demo_set_wf)
    as (r & st' & es' & E & Hwf & _ & _ & Hr).
  assert (r = 1) as -> by (apply (result_eq _ _ _ _ E); vm_compute; reflexivity).
  exists st', es'. split; [exact E|]. split; [exact Hwf|].
  destruct Hr as [[? _]|(_ & _ & _ & _ & Hm)]; [lia|]. intros x. apply Hm.
Defined.

Lemma vma_merge_adjacent_correct_witness :
  vma_wf demo_st demo_set ∧
  ∃ st' es', vma_merge_adjacent demo_st demo_set = Some (0, (st', es')) ∧ same_space demo_st demo_set st' es'.
Proof.
  split; [exact demo_set_wf|].
  destruct (vma_merge_adjacent_correct demo_st demo_set demo_set_wf) as (n & st' & es' & E & Hs & _).
  assert (n = 0) as -> by (apply (result_eq _ _ _ _ E); vm_compute; reflexivity).
  exists st', es'. split; [exact E|exact Hs].
Defined.

Lemma vma_destroy_correct_witness :
  vma_wf demo_st demo_set ∧
  ∃ st', vma_destroy demo_st demo_set = Some (st', []) ∧ 0x40103000 ∉ km_frames (kmem st').
Proof.
  split; [exact demo_set_wf|].
  destruct (vma_destroy_correct demo_st demo_set demo_set_wf) as (st' & E & _ & _ & _ & Hx).
  exists st'. split; [exact E|]. intros [_ Hn]%Hx. apply Hn. exists 0x400000, 3, 1, demo_area.
  split; [by left|]. split; [split; vm_compute; congruence|]. exists 0x40103000.
  split; vm_compute; reflexivity.
Defined.

(** A second area of 512 pages on a machine whose memory is almost used up: there is
    room for the array of the first area and not for that of the second. *)
Definition full_area : vma := mk_vma 0x500000 0x700000 3 1 0xFFFF000040003060 0.
Definition full_mem : option (Z * (Z * (Z * heap pmm))) :=
  '(p, (x, m)) ← demo_mem; '(q, m) ← km_malloc m 4096; '(_, m) ← km_malloc m (1024 * 1024 - 8300); '(_, m) ← km_malloc m (700 * 4096 - 64);
  Some (p, (x, (q, m))).
Definition full_arrs : gmap Z (list Z) := {[ 0xFFFF000040003020 := [0x40103000; 0; 0]; 0xFFFF000040003060 := replicate 512 0 ]}.
Definition full_st : kst (heap pmm) := match full_mem with Some (_, (_, (_, m))) => mk_kst m full_arrs | None => mk_kst demo_heap ∅ end.
Definition full_set : list vma := [demo_area; full_area].

Lemma full_mem_eq : (λ '(p, (x, (q, _))), (p, x, q)) <$> full_mem = Some (0xFFFF000040003020, 0x40103000, 0xFFFF000040003060).
Proof. vm_compute. reflexivity. Qed.

Lemma full_wf (m : heap pmm) :
  km_inv m → 0xFFFF000040003020 ∈ km_live m → 0xFFFF000040003060 ∈ km_live m → 0x40103000 ∈ km_frames m → vma_wf (mk_kst m full_arrs) full_set.
Proof.
  intros Hi Hp Hq Hf. assert (resident (mk_kst m full_arrs) full_set = [0x40103000]) as Hr by (vm_compute; reflexivity).
  constructor; rewrite ?Hr; simpl; try done.
  - unfold VMA_MAX_PER_TASK. lia.
  - apply Forall_cons. split; [|apply Forall_singleton]; unfold vma_ok; simpl; do 6 (split; [done|]);
      (eexists; split; [vm_compute; reflexivity|vm_compute; discriminate]).
  - split; [|by repeat constructor]. apply Forall_singleton. unfold vma_before. simpl. lia.
  - apply NoDup_cons. split; [by intros [=]%list_elem_of_singleton|apply NoDup_singleton].
  - by intros y ->%list_elem_of_singleton.
  - apply NoDup_singleton.
Qed.

(** What an allocation leaves. *)
Lemma malloc_keeps (m m' : heap pmm) n p :
  km_inv m → is_u64 n → km_malloc m n = Some (p, m') → km_inv m' ∧ km_live m ⊆ km_live m' ∧ km_frames m' = km_frames m ∧ (p ≠ 0 → p ∈ km_live m').
Proof.
  intros Hi Hn E. destruct (km_malloc_ok m n Hi Hn) as (p' & m1 & E' & Hi' & Hf & Hc). rewrite E in E'. injection E' as <- <-. split; [exact Hi'|].
  destruct Hc as [[-> Hl]|[_ Hl]]; rewrite Hl; [by split|]. split; [set_solver|]. split; [done|]. set_solver.
Qed.

Lemma full_set_wf : vma_wf full_st full_set.
Proof.
  assert (is_u64 24 ∧ is_u64 4096 ∧ is_u64 (1024 * 1024 - 8300) ∧ is_u64 (700 * 4096 - 64)) as (U1 & U2 & U3 & U4) by (unfold is_u64; lia).
  destruct (km_malloc_ok demo_heap 24 demo_km_inv U1) as (p & m1 & E1 & Hi1 & Hf1 & Hc1).
  destruct (km_alloc_page_ok m1 Hi1) as (x & m2 & E2 & Hi2 & Hl2 & Hc2).
  destruct (km_malloc_ok m2 _ Hi2 U2) as (q & m3 & E3 & _). destruct (malloc_keeps _ _ _ _ Hi2 U2 E3) as (Hi3 & L3 & F3 & Q3).
  destruct (km_malloc_ok m3 _ Hi3 U3) as (q4 & m4 & E4 & _). destruct (malloc_keeps _ _ _ _ Hi3 U3 E4) as (Hi4 & L4 & F4 & _).
  destruct (km_malloc_ok m4 _ Hi4 U4) as (q5 & m5 & E5 & _). destruct (malloc_keeps _ _ _ _ Hi4 U4 E5) as (Hi5 & L5 & F5 & _).
  assert (full_mem = Some (p, (x, (q, m5)))) as E.
  { unfold full_mem, demo_mem. rewrite E1. cbn [mbind option_bind]. rewrite E2. cbn [mbind option_bind]. rewrite E3. cbn [mbind option_bind].
    rewrite E4. cbn [mbind option_bind]. rewrite E5. reflexivity. }
  pose proof full_mem_eq as He. rewrite E in He. simpl in He. injection He as Hp Hx Hq. unfold full_st. rewrite E.
  assert (p ∈ km_live m2) as Hpl by (rewrite Hl2; destruct Hc1 as [[? _]|[_ ->]]; [lia|apply elem_of_union_l, elem_of_singleton; reflexivity]).
  assert (x ∈ km_frames m2) as Hxf by (destruct Hc2 as [[? _]|[_ ->]]; [lia|apply elem_of_union_l, elem_of_singleton; reflexivity]).
  apply full_wf; [exact Hi5|rewrite <- Hp; by apply L5, L4, L3|rewrite <- Hq; apply L5, L4, Q3; lia|rewrite <- Hx, F5, F4, F3; exact Hxf].
Qed.

Lemma clone_nil (st st1 : kst (heap pmm)) r dst : vma_clone st [] = Some (r, (st1, dst)) → st1 = st.
Proof. by intros [= _ <- _]. Qed.

(** The clone fails, and the page of the first area is free although the source
    still records it. *)
Lemma vma_clone_correct_witness :
  vma_wf full_st full_set ∧
  ∃ st', vma_clone full_st full_set = Some (0, (st', [])) ∧ (0x40103000 ∈ resident full_st full_set) ∧ (0x40103000 ∉ km_frames (kmem st')).
Proof.
  split; [exact full_set_wf|].
  destruct (vma_clone_correct full_st full_set full_set_wf) as (r & st' & dst & E & Hr).
  assert (r = 0) as -> by (apply (result_eq _ _ _ _ E); vm_compute; reflexivity).
  destruct Hr as [[? _]|(_ & -> & _ & _ & don & (s & rest & st1 & dst1 & m1 & Es & Ec & Em) & Hf)]; [lia|].
  exists st'. split; [exact E|]. split; [vm_compute; left|]. rewrite Hf. intros [_ Hn]%elem_of_difference. apply Hn. clear Hn Hf E.
  unfold full_set in Es. destruct don as [|d [|d2 don]]; cbn [app] in Es.
  - exfalso. injection Es as Es _. pose proof (clone_nil _ _ _ _ Ec) as Ec0.
    assert (fst <$> km_malloc (kmem full_st) (vma_npages demo_area *w 8) = Some 0) as E0 by (rewrite <- Ec0, Es, Em; reflexivity). vm_compute in E0. discriminate E0.
  - injection Es as Es _ _. rewrite <- Es. apply elem_of_list_to_set. vm_compute. left.
  - exfalso. injection Es as _ _ Es. destruct don; discriminate Es.
Defined.
