(* ===== verification/Mmu.v ===== *)
(** User page tables: [src/src/mm/mmu/mmu.c] and [mmu.h].

    The table pages are a memory of 512-word pages indexed by physical
    address; the code reaches them through the kernel's TTBR1 alias
    ([PHYS_TO_VIRT]), which [deref] undoes.  Pages come from the
    [PageAllocator] interface.  TLB maintenance is the log of the [tlbi vae1]
    operands.  [hw_pte] is the hardware's table walk, read from the same
    memory, and is what the theorems speak about: which descriptor the MMU
    finds for an address before and after every operation.

    Proof idea: [T] is the tree of table pages, a finite map from the path of
    indices to the page; [pt_wf] relates it to memory, one page per path. *)
From S2P Require Import Prelude Pmm PageAlloc.

Definition PTE_VALID : Z := Z.shiftl 1 0.
Definition PTE_TABLE : Z := Z.shiftl 1 1.
Definition PTE_AF : Z := Z.shiftl 1 10.
Definition PTE_SH_INNER : Z := Z.shiftl 3 8.
Definition PTE_AP_RW : Z := Z.shiftl 0 6.
Definition PTE_AP_RW_EL0 : Z := Z.shiftl 1 6.
Definition PTE_AP_RO : Z := Z.shiftl 2 6.
Definition PTE_AP_RO_EL0 : Z := Z.shiftl 3 6.
Definition PTE_ATTRIDX (idx : Z) : Z := Z.shiftl idx 2.
Definition PTE_UXN : Z := Z.shiftl 1 54.
Definition PTE_PXN : Z := Z.shiftl 1 53.
Definition PTE_NG : Z := Z.shiftl 1 11.
Definition PTE_ADDR_MASK : Z := 0x0000FFFFFFFFF000.
Definition _2MB : Z := 0x200000.
Definition VMA_PROT_READ : Z := 1.
Definition VMA_PROT_WRITE : Z := 2.
Definition VMA_PROT_EXEC : Z := 4.

Definition L0_INDEX (va : Z) : Z := Z.land (Z.shiftr va 39) 0x1FF.
Definition L1_INDEX (va : Z) : Z := Z.land (Z.shiftr va 30) 0x1FF.
Definition L2_INDEX (va : Z) : Z := Z.land (Z.shiftr va 21) 0x1FF.
Definition L3_INDEX (va : Z) : Z := Z.land (Z.shiftr va 12) 0x1FF.

Definition TTBR_BADDR_MASK : Z := 0x0000FFFFFFFFFFFF.
Definition ttbr_pack (baddr asid : Z) : Z :=
  Z.lor (Z.land baddr TTBR_BADDR_MASK) (shl64 asid 48).
Definition ttbr_baddr (ttbr : Z) : Z := Z.land ttbr TTBR_BADDR_MASK.
Definition ttbr_asid (ttbr : Z) : Z := Z.shiftr ttbr 48 mod 2 ^ 16.

Definition pte_next_table (entry : Z) : Z := Z.land entry PTE_ADDR_MASK.
Definition pte_valid (entry : Z) : bool := bool_decide (Z.land entry PTE_VALID ≠ 0).

Definition mmu_prot_to_flags (prot : Z) : Z :=
  let f := PTE_ATTRIDX 1 in
  let f := Z.lor f PTE_PXN in
  let f :=
    if decide (Z.land prot VMA_PROT_WRITE ≠ 0) then Z.lor f PTE_AP_RW_EL0
    else Z.lor f (if decide (Z.land prot VMA_PROT_READ ≠ 0) then PTE_AP_RO_EL0 else PTE_AP_RO) in
  if decide (Z.land prot VMA_PROT_EXEC = 0) then Z.lor f PTE_UXN else f.

(** The layout of a user address space. *)
Definition USER_STACK_TOP : Z := 0x00800000.
Definition USER_VA_TOP : Z := 0x40000000.

Record pt (S : Type) := mk_pt {
  frames : S;
  tabs : gmap Z (list Z);
  mmu_on : bool;
  tlbi_log : list Z;
}.
Arguments mk_pt {S}.
Arguments frames {S}.
Arguments tabs {S}.
Arguments mmu_on {S}.
Arguments tlbi_log {S}.

(** A cleared page of 512 descriptors. *)
Definition zero_table : list Z := replicate 512 0.
#[global] Arguments zero_table : simpl never.

Lemma zero_table_lookup i e : arr_get zero_table i = Some e → e = 0.
Proof. unfold arr_get, zero_table. case_decide; [|done]. by intros [-> _]%lookup_replicate. Qed.

Lemma zero_table_length : length zero_table = 512%nat.
Proof. done. Qed.

Section Ops.
Context {S : Type} `{!PageSource S}.
Implicit Types st : pt S.

(** The physical page behind a kernel pointer to a table. *)
Definition deref st (ptr : Z) : Z := if mmu_on st then VIRT_TO_PHYS ptr else ptr.

Definition read_entry st (table i : Z) : option Z :=
  t ← tabs st !! deref st table; arr_get t i.

Definition write_entry st (table i e : Z) : option (pt S) :=
  t ← tabs st !! deref st table; t' ← arr_set t i e;
  Some (mk_pt (frames st) (<[deref st table := t']> (tabs st)) (mmu_on st) (tlbi_log st)).

Definition alloc_table st : option (Z * pt S) :=
  '(table_phys, s) ← pa_alloc_page (frames st);
  if decide (table_phys = 0) then Some (0, mk_pt s (tabs st) (mmu_on st) (tlbi_log st))
  else
    let table_va := if mmu_on st then PHYS_TO_VIRT table_phys else table_phys in
    Some (table_phys,
      mk_pt s (<[deref st table_va := zero_table]> (tabs st)) (mmu_on st) (tlbi_log st)).

Definition mmu_create_user_tables st : option (Z * pt S) := alloc_table st.

(** One descent of [walk_levels]: the kernel pointer to the next table, or
    NULL ([None]). *)
Definition next_level st (table i : Z) (alloc : bool) : option (option Z * pt S) :=
  e ← read_entry st table i;
  if pte_valid e then Some (Some (PHYS_TO_VIRT (pte_next_table e)), st)
  else if negb alloc then Some (None, st)
  else
    '(phys, st1) ← alloc_table st;
    if decide (phys = 0) then Some (None, st1)
    else
      st2 ← write_entry st1 table i (Z.lor (Z.lor phys PTE_VALID) PTE_TABLE);
      Some (Some (PHYS_TO_VIRT phys), st2).

(** The result is a pointer into a table: its kernel address and the index. *)
Definition walk_levels st (l0_table va target_level : Z) (alloc : bool) :
    option (option (Z * Z) * pt S) :=
  '(r1, st1) ← next_level st (PHYS_TO_VIRT l0_table) (L0_INDEX va) alloc;
  match r1 with
  | None => Some (None, st1)
  | Some l1 =>
      '(r2, st2) ← next_level st1 l1 (L1_INDEX va) alloc;
      match r2 with
      | None => Some (None, st2)
      | Some l2 =>
          if decide (target_level = 2) then Some (Some (l2, L2_INDEX va), st2)
          else
            '(r3, st3) ← next_level st2 l2 (L2_INDEX va) alloc;
            match r3 with
            | None => Some (None, st3)
            | Some l3 => Some (Some (l3, L3_INDEX va), st3)
            end
      end
  end.

Definition page_desc (pa flags : Z) : Z :=
  Z.lor (Z.lor (Z.lor (Z.lor (Z.lor (Z.lor (Z.land pa PTE_ADDR_MASK)
    PTE_VALID) PTE_TABLE) PTE_AF) PTE_SH_INNER) PTE_NG) flags.

(** [n] iterations from index [i]. *)
Fixpoint map_loop st (l0 va pa flags i : Z) (n : nat) : option (pt S) :=
  match n with
  | O => Some st
  | Datatypes.S n' =>
      '(r, st1) ← walk_levels st l0 (va +w i *w PAGE_SIZE) 3 true;
      match r with
      | None => Some st1
      | Some (l3, l3i) =>
          st2 ← write_entry st1 l3 l3i (page_desc (pa +w i *w PAGE_SIZE) flags);
          map_loop st2 l0 va pa flags (i + 1) n'
      end
  end.

Definition mmu_map_user_range st (l0 va pa pages flags : Z) : option (pt S) :=
  map_loop st l0 va pa flags 0 (Z.to_nat pages).

(** The operands of the [tlbi vae1] loop. *)
Fixpoint span_operands (g granule_end : Z) (fuel : nat) : list Z :=
  match fuel with
  | O => []
  | Datatypes.S f =>
      if decide (g < granule_end) then Z.shiftr g 12 :: span_operands (g +w _2MB) granule_end f else []
  end.

Definition invalidate_user_span st (va pages : Z) : pt S :=
  if decide (pages = 0) then st
  else
    let granule_start := PAGE_ALIGN_DOWN va in
    let granule_end := PAGE_ALIGN_UP (va +w pages *w PAGE_SIZE) in
    let ops := span_operands granule_start granule_end (Z.to_nat (pages / 512 + 2)) in
    mk_pt (frames st) (tabs st) (mmu_on st) (tlbi_log st ++ ops).

Fixpoint unmap_pages st (l0 va i : Z) (n : nat) : option (pt S) :=
  match n with
  | O => Some st
  | Datatypes.S n' =>
      '(r, st1) ← walk_levels st l0 (va +w i *w PAGE_SIZE) 3 false;
      match r with
      | None => unmap_pages st1 l0 va (i + 1) n'
      | Some (l3, l3i) =>
          e ← read_entry st1 l3 l3i;
          if pte_valid e then
            st2 ← write_entry st1 l3 l3i 0; unmap_pages st2 l0 va (i + 1) n'
          else unmap_pages st1 l0 va (i + 1) n'
      end
  end.

Definition mmu_unmap_user_range st (l0 va pages : Z) : option (pt S) :=
  if decide (l0 = 0 ∨ pages = 0) then Some st
  else st' ← unmap_pages st l0 va 0 (Z.to_nat pages); Some (invalidate_user_span st' va pages).

Definition PERM_MASK : Z :=
  Z.lor (Z.lor (Z.lor (Z.shiftl 3 6) PTE_UXN) PTE_PXN) (PTE_ATTRIDX 3).

Fixpoint protect_pages st (l0 va flags i changed : Z) (n : nat) : option (Z * pt S) :=
  match n with
  | O => Some (changed, st)
  | Datatypes.S n' =>
      '(r, st1) ← walk_levels st l0 (va +w i *w PAGE_SIZE) 3 false;
      match r with
      | None => protect_pages st1 l0 va flags (i + 1) changed n'
      | Some (l3, l3i) =>
          e ← read_entry st1 l3 l3i;
          if pte_valid e then
            st2 ← write_entry st1 l3 l3i (Z.lor (Z.land e (not64 PERM_MASK)) (Z.land flags PERM_MASK));
            protect_pages st2 l0 va flags (i + 1) (changed + 1) n'
          else protect_pages st1 l0 va flags (i + 1) changed n'
      end
  end.

Definition mmu_protect_user_range st (l0 va pages flags : Z) : option (Z * pt S) :=
  if decide (l0 = 0 ∨ pages = 0) then Some (0, st)
  else
    '(changed, st') ← protect_pages st l0 va flags 0 0 (Z.to_nat pages);
    Some (changed, invalidate_user_span st' va pages).

End Ops.

Section FreeOps.
Context {S : Type} `{!PageAllocator S}.
Implicit Types st : pt S.

Definition free_frame st (phys : Z) : option (pt S) :=
  s ← pa_free_page (frames st) phys; Some (mk_pt s (tabs st) (mmu_on st) (tlbi_log st)).

(** The three nested loops of [mmu_free_user_tables]; [n] entries from [k]. *)
Fixpoint free_l3_tables st (l2 k : Z) (n : nat) : option (pt S) :=
  match n with
  | O => Some st
  | Datatypes.S n' =>
      e ← read_entry st l2 k;
      if negb (pte_valid e) then free_l3_tables st l2 (k + 1) n'
      else if decide (Z.land e PTE_TABLE = 0) then free_l3_tables st l2 (k + 1) n'
      else st1 ← free_frame st (pte_next_table e); free_l3_tables st1 l2 (k + 1) n'
  end.

Fixpoint free_l2_tables st (l1 j : Z) (n : nat) : option (pt S) :=
  match n with
  | O => Some st
  | Datatypes.S n' =>
      e ← read_entry st l1 j;
      if negb (pte_valid e) then free_l2_tables st l1 (j + 1) n'
      else if decide (Z.land e PTE_TABLE = 0) then free_l2_tables st l1 (j + 1) n'
      else
        let l2_phys := pte_next_table e in
        st1 ← free_l3_tables st (PHYS_TO_VIRT l2_phys) 0 512;
        st2 ← free_frame st1 l2_phys;
        free_l2_tables st2 l1 (j + 1) n'
  end.

Fixpoint free_l1_tables st (l0 i : Z) (n : nat) : option (pt S) :=
  match n with
  | O => Some st
  | Datatypes.S n' =>
      e ← read_entry st l0 i;
      if negb (pte_valid e) then free_l1_tables st l0 (i + 1) n'
      else
        let l1_phys := pte_next_table e in
        st1 ← free_l2_tables st (PHYS_TO_VIRT l1_phys) 0 512;
        st2 ← free_frame st1 l1_phys;
        free_l1_tables st2 l0 (i + 1) n'
  end.

Definition mmu_free_user_tables st (l0_phys : Z) : option (pt S) :=
  st1 ← free_l1_tables st (PHYS_TO_VIRT l0_phys) 0 512;
  free_frame st1 l0_phys.

End FreeOps.

Section Hardware.
Context {S : Type}.
Implicit Types st : pt S.

(** ** The hardware walk (4 KiB granule, four levels, page descriptors) *)

Definition hw_desc st (table i : Z) : option Z :=
  t ← tabs st !! table; e ← arr_get t i;
  if decide (Z.land e 3 = 3) then Some e else None.

Definition hw_pte st (l0 va : Z) : option Z :=
  e0 ← hw_desc st l0 (L0_INDEX va);
  e1 ← hw_desc st (pte_next_table e0) (L1_INDEX va);
  e2 ← hw_desc st (pte_next_table e1) (L2_INDEX va);
  hw_desc st (pte_next_table e2) (L3_INDEX va).
End Hardware.

(** ** Descriptors and indices *)

Lemma pt_index_range va :
  0 ≤ L0_INDEX va < 512 ∧ 0 ≤ L1_INDEX va < 512 ∧ 0 ≤ L2_INDEX va < 512 ∧ 0 ≤ L3_INDEX va < 512.
Proof.
  assert (∀ x, 0 ≤ Z.land x 0x1FF < 512) as H.
  { intros x. change 0x1FF with (Z.ones 9). rewrite Z.land_ones by lia. by apply Z.mod_pos_bound. }
  split; [apply H|]. split; [apply H|]. split; apply H.
Qed.

Lemma index_div va :
  L0_INDEX va = va / 2 ^ 39 mod 512 ∧ L1_INDEX va = va / 2 ^ 30 mod 512 ∧
  L2_INDEX va = va / 2 ^ 21 mod 512 ∧ L3_INDEX va = va / 2 ^ 12 mod 512.
Proof.
  unfold L0_INDEX, L1_INDEX, L2_INDEX, L3_INDEX. change 0x1FF with (Z.ones 9).
  rewrite !Z.land_ones, !Z.shiftr_div_pow2 by lia. done.
Qed.

(** The path to the L3 table of an address. *)
Definition path (va : Z) : list Z := [L0_INDEX va; L1_INDEX va; L2_INDEX va].

(** Path and L3 index determine the page. *)
Lemma path_inj va va' :
  0 ≤ va < 2 ^ 48 → 0 ≤ va' < 2 ^ 48 →
  path va = path va' → L3_INDEX va = L3_INDEX va' → va / PAGE_SIZE = va' / PAGE_SIZE.
Proof.
  intros Hv Hv' [= E0 E1 E2] E3.
  destruct (index_div va) as (H0 & H1 & H2 & H3), (index_div va') as (H0' & H1' & H2' & H3').
  rewrite H0, H0' in E0. rewrite H1, H1' in E1. rewrite H2, H2' in E2. rewrite H3, H3' in E3.
  unfold PAGE_SIZE. clear -Hv Hv' E0 E1 E2 E3.
  assert (∀ x, x / 2 ^ 39 = x / 2 ^ 12 / 512 / 512 / 512 ∧ x / 2 ^ 30 = x / 2 ^ 12 / 512 / 512 ∧
    x / 2 ^ 21 = x / 2 ^ 12 / 512) as Hd by (intros x; rewrite !Z.div_div by lia; done).
  destruct (Hd va) as (D0 & D1 & D2), (Hd va') as (D0' & D1' & D2').
  rewrite D0, D0' in E0. rewrite D1, D1' in E1. rewrite D2, D2' in E2. clear Hd D0 D1 D2 D0' D1' D2'.
  change 4096 with (2 ^ 12).
  assert (0 ≤ va / 2 ^ 12 < 2 ^ 36 ∧ 0 ≤ va' / 2 ^ 12 < 2 ^ 36) as [Hn Hn'] by (split; dlia).
  revert Hn Hn' E0 E1 E2 E3. generalize (va / 2 ^ 12) (va' / 2 ^ 12). clear.
  intros n n' Hn Hn' E0 E1 E2 E3.
  pose proof (Z.div_mod n 512). pose proof (Z.div_mod n' 512).
  pose proof (Z.div_mod (n / 512) 512). pose proof (Z.div_mod (n' / 512) 512).
  pose proof (Z.div_mod (n / 512 / 512) 512). pose proof (Z.div_mod (n' / 512 / 512) 512).
  assert (0 ≤ n / 512 / 512 / 512 < 512 ∧ 0 ≤ n' / 512 / 512 / 512 < 512) as [Hq Hq'].
  { rewrite !Z.div_div by lia. split; dlia. }
  rewrite (Z.mod_small (n / 512 / 512 / 512)), (Z.mod_small (n' / 512 / 512 / 512)) in E0 by done. lia.
Qed.

(** Conversely the page determines the indices. *)
Lemma path_page va va' :
  va / PAGE_SIZE = va' / PAGE_SIZE → path va = path va' ∧ L3_INDEX va = L3_INDEX va'.
Proof.
  intros Hp. unfold path. destruct (index_div va) as (-> & -> & -> & ->), (index_div va') as (-> & -> & -> & ->).
  assert (∀ x k, 0 ≤ k → x / 2 ^ (12 + k) = x / PAGE_SIZE / 2 ^ k) as Hd.
  { intros x k Hk. unfold PAGE_SIZE. rewrite Z.div_div by lia. by rewrite Z.pow_add_r by lia. }
  change 39 with (12 + 27). change 30 with (12 + 18). change 21 with (12 + 9).
  rewrite !Hd by lia. change (2 ^ 12) with PAGE_SIZE. by rewrite Hp.
Qed.

Definition table_desc (phys : Z) : Z := Z.lor (Z.lor phys PTE_VALID) PTE_TABLE.

Lemma land_addr_mask c : 0 ≤ c < 2 ^ 48 → c mod PAGE_SIZE = 0 → Z.land c PTE_ADDR_MASK = c.
Proof.
  intros Hc Ha. assert (c = Z.shiftl (c / 4096) 12) as E.
  { rewrite Z.shiftl_mul_pow2 by lia. unfold PAGE_SIZE in Ha. dlia. }
  rewrite E at 1. change PTE_ADDR_MASK with (Z.shiftl (Z.ones 36) 12).
  rewrite <- Z.shiftl_land, Z.land_ones, Z.mod_small by dlia. done.
Qed.

Lemma land_low_aligned c k : c mod PAGE_SIZE = 0 → 0 ≤ k < 4096 → Z.land c k = 0.
Proof.
  intros Ha Hk. assert (c = Z.shiftl (c / 4096) 12) as ->.
  { rewrite Z.shiftl_mul_pow2 by lia. unfold PAGE_SIZE in Ha. dlia. }
  apply Z.bits_inj'. intros n Hn. rewrite Z.land_spec, Z.bits_0, Z.shiftl_spec by lia.
  destruct (decide (n < 12)).
  - by rewrite Z.testbit_neg_r by lia.
  - rewrite (testbit_high k 12), andb_false_r by lia. done.
Qed.

Lemma table_desc_ok c :
  0 ≤ c < 2 ^ 48 → c mod PAGE_SIZE = 0 →
  pte_next_table (table_desc c) = c ∧ pte_valid (table_desc c) = true ∧
  Z.land (table_desc c) 3 = 3 ∧ Z.land (table_desc c) PTE_TABLE ≠ 0.
Proof.
  intros Hc Ha. unfold pte_next_table, pte_valid, table_desc.
  rewrite !Z.land_lor_distr_l, land_addr_mask, !(land_low_aligned c) by (done || vm_compute; done).
  simpl. rewrite !Z.lor_0_r. done.
Qed.

Lemma pte_valid_0 : pte_valid 0 = false.
Proof. done. Qed.

Lemma land3_valid e : Z.land e 3 = 3 → pte_valid e = true.
Proof.
  intros H. unfold pte_valid. apply bool_decide_eq_true. intros H1.
  assert (Z.land (Z.land e 3) 1 = 0) as H2 by (rewrite <- Z.land_assoc; exact H1).
  rewrite H in H2. done.
Qed.

Lemma page_desc_3 pa flags : Z.land (page_desc pa flags) 3 = 3.
Proof.
  unfold page_desc. apply Z.bits_inj'. intros n Hn. rewrite Z.land_spec, !Z.lor_spec.
  destruct (decide (n = 0)) as [->|]; [by rewrite orb_true_r|].
  destruct (decide (n = 1)) as [->|]; [simpl; by rewrite !orb_true_r|].
  rewrite (testbit_high 3 2), andb_false_r by lia. done.
Qed.

Lemma protect_desc_3 e flags :
  Z.land e 3 = 3 → Z.land (Z.lor (Z.land e (not64 PERM_MASK)) (Z.land flags PERM_MASK)) 3 = 3.
Proof.
  intros He. rewrite Z.land_lor_distr_l, <- !Z.land_assoc.
  change (Z.land PERM_MASK 3) with 0. change (Z.land (not64 PERM_MASK) 3) with 3.
  by rewrite Z.land_0_r, Z.lor_0_r.
Qed.

Lemma virt_phys c : is_u64 c → VIRT_TO_PHYS (PHYS_TO_VIRT c) = c.
Proof.
  intros Hc. unfold VIRT_TO_PHYS, PHYS_TO_VIRT, sub64, add64, wrap64, is_u64 in *.
  rewrite Zminus_mod_idemp_l. rewrite Z.add_simpl_r. by apply Z.mod_small.
Qed.

(** ** The tree of table pages *)

Abbreviation tree := (gmap (list Z) Z).

Section Tree.
Context {S : Type} `{!PageSource S}.
Implicit Types (st : pt S) (T : tree).

(** Entry [i] of the table at [q]. *)
Definition word st (q i : Z) : option Z := t ← tabs st !! q; arr_get t i.

Definition child_entry (c : option Z) (e : Z) : Prop :=
  match c with Some q => e = table_desc q | None => pte_valid e = false end.

Record pt_wf st (l0 : Z) T : Prop := {
  pw_inv : pa_inv (frames st);
  pw_on : mmu_on st = true;
  pw_root : T !! [] = Some l0;
  pw_inj π1 π2 q : T !! π1 = Some q → T !! π2 = Some q → π1 = π2;
  pw_parent π i q : T !! (π ++ [i]) = Some q → (length π < 3)%nat ∧ 0 ≤ i < 512 ∧ is_Some (T !! π);
  pw_frames π q : T !! π = Some q → q ∈ pa_frames (frames st);
  pw_table π q : T !! π = Some q → ∃ t, tabs st !! q = Some t ∧ length t = 512%nat;
  pw_entry π q i e :
    T !! π = Some q → (length π < 3)%nat → word st q i = Some e → child_entry (T !! (π ++ [i])) e;
  pw_leaf π q i e :
    T !! π = Some q → length π = 3%nat → word st q i = Some e → pte_valid e = true → Z.land e 3 = 3;
}.

(** The descriptor slot of an address. *)
Definition leaf st T (va : Z) : option Z := q ← T !! path va; word st q (L3_INDEX va).

Lemma wf_page st l0 T π q :
  pt_wf st l0 T → T !! π = Some q → 0 < q < 2 ^ 40 ∧ q mod PAGE_SIZE = 0 ∧ is_u64 q.
Proof.
  intros Hwf Hq. destruct (pa_frames_page (frames st) q) as (? & ? & ?);
    [apply Hwf|by eapply pw_frames|]. unfold PHYS_LIMIT, PAGE_SIZE, is_u64 in *. split; [lia|]. split; [done|lia].
Qed.

Lemma wf_deref st l0 T π q :
  pt_wf st l0 T → T !! π = Some q → deref st (PHYS_TO_VIRT q) = q.
Proof.
  intros Hwf Hq. unfold deref. rewrite (pw_on _ _ _ Hwf). apply virt_phys. by eapply wf_page.
Qed.

Lemma wf_word st l0 T π q i :
  pt_wf st l0 T → T !! π = Some q → 0 ≤ i < 512 → ∃ e, word st q i = Some e.
Proof.
  intros Hwf Hq Hi. destruct (pw_table _ _ _ Hwf π q Hq) as (t & Ht & Hl).
  unfold word. rewrite Ht. simpl. eexists. apply arr_get_lt. lia.
Qed.

Lemma wf_read st l0 T π q i :
  pt_wf st l0 T → T !! π = Some q → read_entry st (PHYS_TO_VIRT q) i = word st q i.
Proof. intros Hwf Hq. unfold read_entry. by rewrite (wf_deref st l0 T π). Qed.

(** Memory with one word changed. *)
Definition set_word st (q i e : Z) : pt S :=
  mk_pt (frames st) (alter (λ t, <[Z.to_nat i := e]> t) q (tabs st)) (mmu_on st) (tlbi_log st).

Lemma wf_write st l0 T π q i e :
  pt_wf st l0 T → T !! π = Some q → 0 ≤ i < 512 →
  write_entry st (PHYS_TO_VIRT q) i e = Some (set_word st q i e).
Proof.
  intros Hwf Hq Hi. unfold write_entry. rewrite (wf_deref st l0 T π) by done.
  destruct (pw_table _ _ _ Hwf π q Hq) as (t & Ht & Hl). rewrite Ht. simpl.
  rewrite arr_set_lt by lia. simpl. unfold set_word. do 2 f_equal.
  apply map_eq. intros k. destruct (decide (k = q)) as [->|].
  - by rewrite lookup_insert_eq, lookup_alter_eq, Ht.
  - by rewrite lookup_insert_ne, lookup_alter_ne.
Qed.

Lemma word_set_ne st q i e q' i' : (q', i') ≠ (q, i) → 0 ≤ i → word (set_word st q i e) q' i' = word st q' i'.
Proof.
  intros Hne Hi. unfold word. simpl. destruct (decide (q' = q)) as [->|].
  - rewrite lookup_alter_eq. destruct (tabs st !! q); [|done]. simpl. unfold arr_get. case_decide; [|done].
    rewrite list_lookup_insert_ne; [done|]. intros ?. apply Hne. f_equal. lia.
  - by rewrite lookup_alter_ne.
Qed.

Lemma word_set_eq st q i e e0 : word st q i = Some e0 → word (set_word st q i e) q i = Some e.
Proof.
  unfold word. simpl. rewrite lookup_alter_eq. destruct (tabs st !! q) as [t|]; [|done]. simpl.
  unfold arr_get. case_decide; [|done]. intros Hl%lookup_lt_Some. by apply list_lookup_insert_eq.
Qed.

Lemma word_range st l0 T π q i e :
  pt_wf st l0 T → T !! π = Some q → word st q i = Some e → 0 ≤ i < 512.
Proof.
  intros Hwf Hq. destruct (pw_table _ _ _ Hwf π q Hq) as (t & Ht & Hl).
  unfold word. rewrite Ht. simpl. unfold arr_get. case_decide; [|done]. intros ?%lookup_lt_Some. lia.
Qed.

Lemma set_word_table st q i e q' t :
  tabs st !! q' = Some t → length t = 512%nat →
  ∃ t', tabs (set_word st q i e) !! q' = Some t' ∧ length t' = 512%nat.
Proof.
  intros Ht Hl. simpl. destruct (decide (q' = q)) as [->|].
  - rewrite lookup_alter_eq, Ht. eexists. split; [done|]. by rewrite length_insert.
  - rewrite lookup_alter_ne by done. eauto.
Qed.

(** Writing an L3 slot. *)
Lemma wf_set_leaf st l0 T π q i e :
  pt_wf st l0 T → T !! π = Some q → length π = 3%nat → 0 ≤ i < 512 →
  (pte_valid e = true → Z.land e 3 = 3) → pt_wf (set_word st q i e) l0 T.
Proof.
  intros Hwf Hq Hl Hi He. pose proof Hwf as []. constructor; try done.
  - intros π' q' H'. destruct (pw_table0 π' q' H') as (t & ? & ?). by eapply set_word_table.
  - intros π' q' i' e' H' Hlt. rewrite word_set_ne; [by eapply pw_entry0| |lia].
    intros [= -> ->]. assert (π' = π) as -> by by eapply pw_inj0. lia.
  - intros π' q' i' e' H' Hl'. destruct (decide ((q', i') = (q, i))) as [[= -> ->]|Hne].
    + destruct (wf_word st l0 T π q i) as [e0 H0]; [done..|].
      rewrite (word_set_eq st q i e e0) by done. intros [= <-]. done.
    + rewrite word_set_ne by (done || lia). by eapply pw_leaf0.
Qed.

Lemma leaf_set st l0 T va e va' :
  pt_wf st l0 T → 0 ≤ va < 2 ^ 48 → 0 ≤ va' < 2 ^ 48 → ∀ q, T !! path va = Some q →
  leaf (set_word st q (L3_INDEX va) e) T va' =
    if decide (va' / PAGE_SIZE = va / PAGE_SIZE) then Some e else leaf st T va'.
Proof.
  intros Hwf Hv Hv' q Hq. unfold leaf. case_decide as Hp.
  - assert (path va' = path va ∧ L3_INDEX va' = L3_INDEX va) as [-> ->] by by apply path_page.
    rewrite Hq. simpl. destruct (wf_word st l0 T _ q (L3_INDEX va) Hwf Hq) as [e0 H0]; [apply pt_index_range|].
    by eapply word_set_eq.
  - destruct (T !! path va') as [q'|] eqn:Hq'; [|done]. simpl. apply word_set_ne; [|apply pt_index_range].
    intros [= -> E]. apply Hp. apply path_inj; try done. by eapply (pw_inj _ _ _ Hwf).
Qed.

(** ** The walk *)

Definition with_page st (s : S) (c : Z) : pt S :=
  mk_pt s (<[c := zero_table]> (tabs st)) (mmu_on st) (tlbi_log st).

Lemma word_with_page_ne st s c q i : q ≠ c → word (with_page st s c) q i = word st q i.
Proof. intros. unfold word. simpl. by rewrite lookup_insert_ne. Qed.

Lemma word_with_page_eq st s c i e : word (with_page st s c) c i = Some e → e = 0.
Proof.
  unfold word. simpl. rewrite lookup_insert_eq. simpl. apply zero_table_lookup.
Qed.

Lemma wf_not_fresh st l0 T c π q : pt_wf st l0 T → c ∉ pa_frames (frames st) → T !! π = Some q → q ≠ c.
Proof. intros Hwf Hc Hq ->. by apply Hc, (pw_frames _ _ _ Hwf π). Qed.

Lemma wf_with_page st l0 T s c :
  pt_wf st l0 T → pa_inv s → (c ∉ pa_frames (frames st)) → pa_frames s = {[c]} ∪ pa_frames (frames st) →
  pt_wf (with_page st s c) l0 T.
Proof.
  intros Hwf Hi Hc Hf. pose proof Hwf as [].
  assert (∀ π q, T !! π = Some q → q ≠ c) as Hne by (intros π q; by eapply wf_not_fresh).
  constructor; simpl; try done.
  - intros π q Hq. rewrite Hf. apply elem_of_union_r. eauto.
  - intros π q Hq. rewrite lookup_insert_ne by (apply not_eq_sym; eauto). eauto.
  - intros π q i e Hq. rewrite word_with_page_ne by eauto. eauto.
  - intros π q i e Hq. rewrite word_with_page_ne by eauto. eauto.
Qed.

(** Hooking the fresh page [c] into slot [i] of the table at [π]. *)
Lemma wf_link st l0 T π p i c :
  pt_wf st l0 T → T !! π = Some p → (length π < 3)%nat → 0 ≤ i < 512 → T !! (π ++ [i]) = None →
  c ∈ pa_frames (frames st) → (∀ π' q, T !! π' = Some q → q ≠ c) →
  tabs st !! c = Some (zero_table) →
  pt_wf (set_word st p i (table_desc c)) l0 (<[π ++ [i] := c]> T).
Proof.
  intros Hwf Hp Hl Hi Hno Hc Hne Hz. pose proof Hwf as [].
  assert (∀ j, T !! ((π ++ [i]) ++ [j]) = None) as Hnoc.
  { intros j. destruct (T !! ((π ++ [i]) ++ [j])) eqn:E; [|done].
    apply pw_parent0 in E as (_ & _ & [? E]). congruence. }
  assert (∀ j e, word st c j = Some e → e = 0) as Hw0.
  { intros j e. unfold word. rewrite Hz. simpl. apply zero_table_lookup. }
  assert (∀ π' j, π' ++ [j] = π ++ [i] ↔ π' = π ∧ j = i) as Hsnoc.
  { intros. split; [by intros [? [= ?]]%app_inj_tail|by intros [-> ->]]. }
  constructor; try done.
  - rewrite lookup_insert_ne; [done|]. by destruct π.
  - intros π1 π2 q. rewrite !lookup_insert_Some. intros [[<- <-]|[? H1]] [[<- ?]|[? H2]].
    + done.
    + by apply Hne in H2.
    + subst. by apply Hne in H1.
    + eauto.
  - intros π' j q. rewrite lookup_insert_Some. intros [[E <-]|[E H1]].
    + symmetry in E. apply Hsnoc in E as [-> ->]. split; [done|]. split; [done|].
      rewrite lookup_insert_ne; [eauto|]. intros E%(f_equal length). rewrite length_app in E. simpl in E. lia.
    + apply pw_parent0 in H1 as (? & ? & ?). split; [done|]. split; [done|].
      by apply lookup_insert_is_Some'; right.
  - intros π' q. rewrite lookup_insert_Some. intros [[_ <-]|[_ H1]]; [done|]. by eapply pw_frames0.
  - intros π' q. rewrite lookup_insert_Some. intros [[_ <-]|[_ H1]].
    + eapply set_word_table; [done|]. apply zero_table_length.
    + destruct (pw_table0 π' q H1) as (t & ? & ?). by eapply set_word_table.
  - intros π' q j e. rewrite lookup_insert_Some. intros [[<- <-]|[Hπ H1]] Hl' Hw.
    + rewrite lookup_insert_ne, Hnoc.
      2:{ intros E%(f_equal length). rewrite !length_app in E. simpl in E. lia. }
      rewrite word_set_ne in Hw; [|intros [= E _]; by apply (Hne π p)|lia].
      by apply Hw0 in Hw as ->.
    + destruct (decide ((q, j) = (p, i))) as [[= -> ->]|Hqj].
      * assert (π' = π) as -> by by eapply pw_inj0. rewrite lookup_insert_eq. simpl.
        destruct (wf_word st l0 T π p i) as [e0 H0]; [done..|].
        rewrite (word_set_eq st p i _ e0) in Hw by done. by simplify_eq.
      * rewrite word_set_ne in Hw by (done || lia). rewrite lookup_insert_ne; [by eapply pw_entry0|].
        intros E. symmetry in E. apply Hsnoc in E as [-> ->]. apply Hqj. congruence.
  - intros π' q j e. rewrite lookup_insert_Some. intros [[<- <-]|[Hπ H1]] Hl' Hw.
    + rewrite word_set_ne in Hw; [|intros [= E _]; by apply (Hne π p)|lia].
      by apply Hw0 in Hw as ->.
    + rewrite word_set_ne in Hw; [by eapply pw_leaf0| |lia]. intros [= -> ->].
      assert (π' = π) as -> by by eapply pw_inj0. lia.
Qed.

(** What the MMU would use of a slot. *)
Definition valid_leaf st T (va : Z) : option Z :=
  e ← leaf st T va; if pte_valid e then Some e else None.

(** The frames that are not pages of the tree. *)
Definition pt_others st T : gset Z := pa_frames (frames st) ∖ map_img T.

(** The walk only adds empty tables. *)
Record grown st l0 T st' T' : Prop := {
  gr_wf : pt_wf st' l0 T';
  gr_sub : T ⊆ T';
  gr_leaf va : valid_leaf st' T' va = valid_leaf st T va;
  gr_others : pt_others st' T' = pt_others st T;
  gr_log : tlbi_log st' = tlbi_log st;
  gr_tabs q : q ∈ pt_others st T → tabs st' !! q = tabs st !! q;
}.

Lemma grown_refl st l0 T : pt_wf st l0 T → grown st l0 T st T.
Proof. by constructor. Qed.

Lemma grown_trans st l0 T st1 T1 st2 T2 :
  grown st l0 T st1 T1 → grown st1 l0 T1 st2 T2 → grown st l0 T st2 T2.
Proof.
  intros [_ Hs1 Hl1 Ho1 Hg1 Ht1] [? Hs2 Hl2 Ho2 Hg2 Ht2]. constructor; [done|by etrans|..|congruence|congruence|].
  - intros va. by rewrite Hl2.
  - intros q Hq. rewrite Ht2, Ht1 by (done || by rewrite Ho1). done.
Qed.

Lemma path_length va : length (path va) = 3%nat.
Proof. done. Qed.

Lemma grown_link st l0 T π p i c s :
  pt_wf st l0 T → T !! π = Some p → (length π < 3)%nat → 0 ≤ i < 512 → T !! (π ++ [i]) = None →
  pa_inv s → (c ∉ pa_frames (frames st)) → pa_frames s = {[c]} ∪ pa_frames (frames st) →
  grown st l0 T (set_word (with_page st s c) p i (table_desc c)) (<[π ++ [i] := c]> T).
Proof.
  intros Hwf Hp Hl Hi Hno Hs Hc Hf. pose proof (wf_with_page st l0 T s c Hwf Hs Hc Hf) as Hwf1.
  assert (∀ π q, T !! π = Some q → q ≠ c) as Hne by (intros π' q; by eapply (wf_not_fresh st)).
  constructor; try done.
  - apply wf_link; try done.
    + simpl. rewrite Hf. set_solver.
    + simpl. by rewrite lookup_insert_eq.
  - by apply insert_subseteq.
  - intros va. unfold valid_leaf, leaf. destruct (decide (π ++ [i] = path va)) as [E|E].
    + rewrite <- E, lookup_insert_eq, Hno. simpl.
      rewrite word_set_ne; [|intros [= E1 _]; by apply (Hne π p)|lia].
      destruct (word _ c _) eqn:Hw; [|done]. by apply word_with_page_eq in Hw as ->.
    + rewrite lookup_insert_ne by done. destruct (T !! path va) as [q|] eqn:Hq; [|done]. simpl.
      rewrite word_set_ne; [|intros [= -> _]|lia].
      * by rewrite word_with_page_ne by by eapply Hne.
      * assert (path va = π) as Hpa by by eapply (pw_inj _ _ _ Hwf).
        rewrite <- Hpa in Hl. simpl in Hl. lia.
  - unfold pt_others. simpl. rewrite Hf, map_img_insert_notin_L by done. set_solver.
  - intros q Hq. unfold pt_others in Hq. apply elem_of_difference in Hq as [Hq Hn].
    assert (q ≠ p) by (intros ->; apply Hn, elem_of_map_img; eauto).
    unfold set_word, with_page. simpl. rewrite lookup_alter_ne, lookup_insert_ne by (done || set_solver). done.
Qed.

Lemma next_level_spec st l0 T π p i alloc :
  pt_wf st l0 T → T !! π = Some p → (length π < 3)%nat → 0 ≤ i < 512 →
  ∃ r st' T', next_level st (PHYS_TO_VIRT p) i alloc = Some (r, st') ∧ grown st l0 T st' T' ∧
    (alloc = false → st' = st ∧ T' = T) ∧
    match r with
    | Some tva => ∃ c, T' !! (π ++ [i]) = Some c ∧ tva = PHYS_TO_VIRT c
    | None => T !! (π ++ [i]) = None ∧ T' = T ∧
        (alloc = true → pa_alloc_page (frames st') = Some (0, frames st'))
    end.
Proof.
  intros Hwf Hp Hl Hi. unfold next_level. rewrite (wf_read st l0 T π p i) by done.
  destruct (wf_word st l0 T π p i) as [e He]; [done..|]. rewrite He. simpl.
  pose proof (pw_entry _ _ _ Hwf π p i e Hp Hl He) as Hch.
  destruct (T !! (π ++ [i])) as [c|] eqn:Hc; simpl in Hch.
  - subst e. destruct (wf_page st l0 T _ c Hwf Hc) as (? & ? & _).
    destruct (table_desc_ok c) as (-> & -> & _); [lia|done|].
    exists (Some (PHYS_TO_VIRT c)), st, T. split; [done|]. split; [by apply grown_refl|]. eauto.
  - rewrite Hch. destruct alloc; simpl.
    2:{ exists None, st, T. split; [done|]. split; [by apply grown_refl|]. done. }
    unfold alloc_table. destruct (pa_alloc_page_ok (frames st)) as (r & s & Ea & Hs & Hr); [apply Hwf|].
    rewrite Ea. simpl. destruct Hr as [[-> ->]|[Hfresh Hf]].
    { rewrite decide_True by done. simpl. exists None, st, T.
      split; [by destruct st|]. split; [by apply grown_refl|]. done. }
    destruct (pa_frames_page s r) as (? & ? & ?); [done|rewrite Hf; set_solver|].
    rewrite decide_False by lia. simpl. rewrite decide_False by lia.
    pose proof (pw_on _ _ _ Hwf) as Hon. unfold deref. rewrite Hon.
    rewrite virt_phys by (unfold is_u64, PHYS_LIMIT, PAGE_SIZE in *; lia).
    pose proof (wf_with_page st l0 T s r Hwf Hs Hfresh Hf) as Hwf1.
    unfold with_page in Hwf1. rewrite Hon in Hwf1.
    rewrite (wf_write _ l0 T π p i _ Hwf1 Hp Hi). simpl.
    eexists _, _, (<[π ++ [i] := r]> T). split; [done|]. split; [|split; [done|]].
    + pose proof (grown_link st l0 T π p i r s Hwf Hp Hl Hi Hc Hs Hfresh Hf) as Hg.
      unfold with_page in Hg. rewrite Hon in Hg. exact Hg.
    + exists r. by rewrite lookup_insert_eq.
Qed.

Lemma wf_no_child st l0 T π i : pt_wf st l0 T → T !! π = None → T !! (π ++ [i]) = None.
Proof.
  intros Hwf Hn. destruct (T !! (π ++ [i])) eqn:E; [|done].
  apply (pw_parent _ _ _ Hwf) in E as (_ & _ & [? ?]). congruence.
Qed.

Lemma walk_levels_spec st l0 T va alloc :
  pt_wf st l0 T →
  ∃ r st' T', walk_levels st l0 va 3 alloc = Some (r, st') ∧ grown st l0 T st' T' ∧
    (alloc = false → st' = st ∧ T' = T) ∧
    match r with
    | Some (tva, i) => i = L3_INDEX va ∧ ∃ q, T' !! path va = Some q ∧ tva = PHYS_TO_VIRT q
    | None => T !! path va = None ∧ (alloc = true → pa_alloc_page (frames st') = Some (0, frames st'))
    end.
Proof.
  intros Hwf. destruct (pt_index_range va) as (H0 & H1 & H2 & H3). unfold walk_levels.
  destruct (next_level_spec st l0 T [] l0 (L0_INDEX va) alloc) as (r1 & st1 & T1 & -> & G1 & A1 & R1);
    [done|apply Hwf|simpl; lia|done|]. cbn [mbind option_bind].
  destruct r1 as [l1|].
  2:{ destruct R1 as (Hn & -> & Hoom). exists None, st1, T. split; [done|]. split; [done|]. split; [done|].
      split; [|done]. apply (wf_no_child st l0 T [L0_INDEX va; L1_INDEX va]); [done|].
      by apply (wf_no_child st l0 T [L0_INDEX va]). }
  destruct R1 as (c1 & Hc1 & ->). simpl in Hc1.
  destruct (next_level_spec st1 l0 T1 [L0_INDEX va] c1 (L1_INDEX va) alloc)
    as (r2 & st2 & T2 & -> & G2 & A2 & R2); [apply G1|done|simpl; lia|done|]. cbn [mbind option_bind].
  assert (grown st l0 T st2 T2) as G12 by by eapply grown_trans.
  assert (alloc = false → st2 = st ∧ T2 = T) as A12.
  { intros Ha. destruct (A1 Ha) as [-> ->]. auto. }
  assert (∀ π, T1 !! π = None → T !! π = None) as Hsub1.
  { intros π Hπ. eapply lookup_weaken_None; [exact Hπ|apply G1]. }
  destruct r2 as [l2|].
  2:{ destruct R2 as (Hn & -> & Hoom). exists None, st2, T1. split; [done|]. split; [done|]. split; [done|].
      split; [|done]. apply Hsub1. apply (wf_no_child st1 l0 T1 [L0_INDEX va; L1_INDEX va]); [apply G1|done]. }
  destruct R2 as (c2 & Hc2 & ->). simpl in Hc2. rewrite decide_False by done.
  destruct (next_level_spec st2 l0 T2 [L0_INDEX va; L1_INDEX va] c2 (L2_INDEX va) alloc)
    as (r3 & st3 & T3 & -> & G3 & A3 & R3); [apply G2|done|simpl; lia|done|]. cbn [mbind option_bind].
  assert (grown st l0 T st3 T3) as G13 by by eapply grown_trans.
  assert (alloc = false → st3 = st ∧ T3 = T) as A13.
  { intros Ha. destruct (A12 Ha) as [-> ->]. auto. }
  destruct r3 as [l3|].
  - destruct R3 as (c3 & Hc3 & ->). eexists _, st3, T3. split; [done|]. split; [done|]. split; [done|].
    split; [done|]. by exists c3.
  - destruct R3 as (Hn & -> & Hoom). exists None, st3, T2. split; [done|]. split; [done|]. split; [done|].
    split; [|done]. eapply lookup_weaken_None; [exact Hn|]. apply G12.
Qed.

(** ** The hardware finds the leaves of the tree *)

Lemma hw_child st l0 T π q i :
  pt_wf st l0 T → T !! π = Some q → (length π < 3)%nat → 0 ≤ i < 512 →
  hw_desc st q i = table_desc <$> T !! (π ++ [i]).
Proof.
  intros Hwf Hq Hl Hi. destruct (wf_word st l0 T π q i) as [e He]; [done..|].
  pose proof (pw_entry _ _ _ Hwf π q i e Hq Hl He) as Hch.
  unfold hw_desc. unfold word in He. destruct (tabs st !! q); [|done]. simpl in *. rewrite He. simpl.
  destruct (T !! (π ++ [i])) as [c|] eqn:Hc; simpl in *.
  - subst e. destruct (wf_page st l0 T _ c Hwf Hc) as (? & ? & _).
    destruct (table_desc_ok c) as (_ & _ & -> & _); [lia|done|]. done.
  - rewrite decide_False; [done|]. intros H3%land3_valid. congruence.
Qed.

Lemma hw_pte_leaf st l0 T va : pt_wf st l0 T → hw_pte st l0 va = valid_leaf st T va.
Proof.
  intros Hwf. destruct (pt_index_range va) as (H0 & H1 & H2 & H3). unfold hw_pte, valid_leaf, leaf.
  assert (∀ π c, T !! π = Some c → pte_next_table (table_desc c) = c) as Hnext.
  { intros π c Hc. destruct (wf_page st l0 T _ c Hwf Hc) as (? & ? & _). apply table_desc_ok; [lia|done]. }
  rewrite (hw_child st l0 T []) by (done || apply Hwf || simpl; lia). simpl.
  destruct (T !! [L0_INDEX va]) as [c1|] eqn:Hc1; simpl.
  2:{ pose proof (wf_no_child _ _ _ _ (L1_INDEX va) Hwf Hc1) as Hc2.
      pose proof (wf_no_child _ _ _ _ (L2_INDEX va) Hwf Hc2) as Hc3. simpl in Hc3. unfold path. by rewrite Hc3. }
  rewrite (Hnext _ _ Hc1), (hw_child st l0 T [L0_INDEX va]) by (done || simpl; lia). simpl.
  destruct (T !! [L0_INDEX va; L1_INDEX va]) as [c2|] eqn:Hc2; simpl.
  2:{ pose proof (wf_no_child _ _ _ _ (L2_INDEX va) Hwf Hc2) as Hc3. simpl in Hc3. unfold path. by rewrite Hc3. }
  rewrite (Hnext _ _ Hc2), (hw_child st l0 T [L0_INDEX va; L1_INDEX va]) by (done || simpl; lia). simpl.
  unfold path. destruct (T !! [L0_INDEX va; L1_INDEX va; L2_INDEX va]) as [c3|] eqn:Hc3; simpl; [|done].
  rewrite (Hnext _ _ Hc3). unfold hw_desc.
  destruct (wf_word st l0 T _ c3 (L3_INDEX va) Hwf Hc3) as [e He]; [done|]. rewrite He. simpl.
  pose proof (pw_leaf _ _ _ Hwf _ c3 _ e Hc3 eq_refl He) as Hlf.
  unfold word in He. destruct (tabs st !! c3); [|done]. simpl in *. rewrite He. simpl.
  destruct (pte_valid e) eqn:Hv.
  - rewrite decide_True by auto. done.
  - rewrite decide_False; [done|]. intros H%land3_valid. congruence.
Qed.

(** ** Ranges of pages *)

Definition in_span (va lo hi va' : Z) : Prop := va + lo * PAGE_SIZE ≤ va' < va + hi * PAGE_SIZE.
#[global] Instance in_span_dec va lo hi va' : Decision (in_span va lo hi va').
Proof. unfold in_span. apply _. Defined.

Lemma in_span_0 va k va' : in_span va 0 (0 + k) va' ↔ va ≤ va' < va + k * PAGE_SIZE.
Proof. unfold in_span. lia. Qed.

Lemma same_page va i va' :
  va mod PAGE_SIZE = 0 → va' / PAGE_SIZE = (va + i * PAGE_SIZE) / PAGE_SIZE ↔ in_span va i (i + 1) va'.
Proof. unfold in_span, PAGE_SIZE. intros Ha. split; intros; dlia. Qed.

Lemma in_span_index va i va' :
  va mod PAGE_SIZE = 0 → in_span va i (i + 1) va' → (va' - va) / PAGE_SIZE = i.
Proof. unfold in_span, PAGE_SIZE. intros. dlia. Qed.

(** What the MMU sees of a slot after a valid write to it. *)
Lemma valid_leaf_set st l0 T va e va' q :
  pt_wf st l0 T → 0 ≤ va < 2 ^ 48 → 0 ≤ va' < 2 ^ 48 → T !! path va = Some q →
  valid_leaf (set_word st q (L3_INDEX va) e) T va' =
    if decide (va' / PAGE_SIZE = va / PAGE_SIZE) then (if pte_valid e then Some e else None)
    else valid_leaf st T va'.
Proof. intros. unfold valid_leaf. rewrite (leaf_set st l0) by done. by case_decide. Qed.

Lemma map_loop_spec st l0 T va pa flags i n :
  pt_wf st l0 T → va mod PAGE_SIZE = 0 → 0 ≤ va → 0 ≤ i → va + (i + Z.of_nat n) * PAGE_SIZE ≤ 2 ^ 48 →
  0 ≤ pa → pa + (i + Z.of_nat n) * PAGE_SIZE < 2 ^ 64 →
  ∃ st' T' k, map_loop st l0 va pa flags i n = Some st' ∧ pt_wf st' l0 T' ∧ T ⊆ T' ∧
    pt_others st' T' = pt_others st T ∧ tlbi_log st' = tlbi_log st ∧ 0 ≤ k ≤ Z.of_nat n ∧
    (k = Z.of_nat n ∨ pa_alloc_page (frames st') = Some (0, frames st')) ∧
    ∀ va', 0 ≤ va' < 2 ^ 48 → valid_leaf st' T' va' =
      if decide (in_span va i (i + k) va')
      then Some (page_desc (pa + (va' - va) / PAGE_SIZE * PAGE_SIZE) flags)
      else valid_leaf st T va'.
Proof.
  revert st T i. induction n as [|n IH]; intros st T i Hwf Hal Hva Hi Hb Hpa Hpb; cbn [map_loop].
  { exists st, T, 0. split; [done|]. split; [done|]. split; [done|]. split; [done|]. split; [done|].
    split; [lia|]. split; [by left|]. intros va' _. rewrite decide_False; [done|].
    unfold in_span. lia. }
  rewrite mul64_small, (add64_small va) by (unfold PAGE_SIZE in *; lia).
  destruct (walk_levels_spec st l0 T (va + i * PAGE_SIZE) true Hwf) as (r & st1 & T1 & -> & G1 & _ & R).
  pose proof G1 as [Hwf1 Hs1 Hl1 Ho1 Hg1 _]. cbn [mbind option_bind]. destruct r as [[tva l3i]|].
  2:{ exists st1, T1, 0. split; [done|]. split; [done|]. split; [done|]. split; [done|]. split; [done|].
      split; [lia|]. split; [right; by apply R|]. intros va' _. rewrite decide_False; [apply Hl1|].
      unfold in_span. lia. }
  destruct R as (-> & q & Hq & ->).
  rewrite (wf_write st1 l0 T1 _ q) by (done || apply pt_index_range). cbn [mbind option_bind].
  rewrite (add64_small pa) by (unfold PAGE_SIZE in *; lia). set (e := page_desc _ flags).
  assert (pte_valid e = true) as He by apply land3_valid, page_desc_3.
  assert (pt_wf (set_word st1 q (L3_INDEX (va + i * PAGE_SIZE)) e) l0 T1) as Hwf2.
  { eapply wf_set_leaf; [done|exact Hq|done|apply pt_index_range|]. intros _. apply page_desc_3. }
  destruct (IH _ T1 (i + 1) Hwf2) as (st' & T' & k & -> & Hwf' & Hs' & Ho' & Hg' & Hk & Hoom & Hl');
    [done|done|lia|lia|done|lia|].
  exists st', T', (k + 1). split; [done|]. split; [done|]. split; [by etrans|].
  split; [etrans; [exact Ho'|exact Ho1]|]. split; [etrans; [exact Hg'|exact Hg1]|]. split; [lia|]. split; [destruct Hoom; [left; lia|by right]|].
  intros va' Hva'. rewrite Hl' by done.
  rewrite (valid_leaf_set st1 l0) by (done || unfold PAGE_SIZE in *; lia). rewrite He, Hl1.
  destruct (decide (in_span va (i + 1) (i + 1 + k) va')) as [Hin|Hin].
  { rewrite decide_True; [done|]. unfold in_span, PAGE_SIZE in *. lia. }
  rewrite (decide_ext _ _ _ _ (same_page va i va' Hal)).
  destruct (decide (in_span va i (i + 1) va')) as [Hin1|Hin1].
  - rewrite decide_True by (unfold in_span, PAGE_SIZE in *; lia). unfold e.
    by rewrite (in_span_index va i va') by done.
  - rewrite decide_False by (unfold in_span, PAGE_SIZE in *; lia). done.
Qed.

(** A table page of the tree is not one of the other frames. *)
Lemma others_ne st T π p q : T !! π = Some p → q ∈ pt_others st T → p ≠ q.
Proof. intros Hp Hq ->. unfold pt_others in Hq. apply elem_of_difference in Hq as [_ Hn]. apply Hn, elem_of_map_img. eauto. Qed.

(** Mapping writes no page outside the tree. *)
Lemma map_loop_tabs st l0 T va pa flags i n st' :
  pt_wf st l0 T → map_loop st l0 va pa flags i n = Some st' →
  ∀ q, q ∈ pt_others st T → tabs st' !! q = tabs st !! q.
Proof.
  revert st T i. induction n as [|n IH]; intros st T i Hwf E q Hq; cbn [map_loop] in E; [by simplify_eq|].
  destruct (walk_levels_spec st l0 T (va +w i *w PAGE_SIZE) true Hwf) as (r & st1 & T1 & Ew & G1 & _ & R).
  rewrite Ew in E. cbn [mbind option_bind] in E. rewrite <- (gr_tabs _ _ _ _ _ G1 q Hq).
  rewrite <- (gr_others _ _ _ _ _ G1) in Hq. destruct r as [[tva l3i]|]; [|by simplify_eq].
  destruct R as (-> & p & Hp & ->).
  rewrite (wf_write st1 l0 T1 _ p) in E by (apply G1 || done || apply pt_index_range). cbn [mbind option_bind] in E.
  assert (pt_wf (set_word st1 p (L3_INDEX (va +w i *w PAGE_SIZE)) (page_desc (pa +w i *w PAGE_SIZE) flags)) l0 T1) as Hwf2.
  { eapply wf_set_leaf; [apply G1|exact Hp|done|apply pt_index_range|]. intros _. apply page_desc_3. }
  rewrite (IH _ T1 (i + 1) Hwf2 E q Hq). simpl. rewrite lookup_alter_ne; [done|]. by eapply others_ne.
Qed.

(** Looking a page up without allocating. *)
Lemma walk_lookup st l0 T va :
  pt_wf st l0 T →
  (walk_levels st l0 va 3 false = Some (None, st) ∧ valid_leaf st T va = None) ∨
  ∃ q e, walk_levels st l0 va 3 false = Some (Some (PHYS_TO_VIRT q, L3_INDEX va), st) ∧
    T !! path va = Some q ∧ read_entry st (PHYS_TO_VIRT q) (L3_INDEX va) = Some e ∧
    valid_leaf st T va = if pte_valid e then Some e else None.
Proof.
  intros Hwf. destruct (walk_levels_spec st l0 T va false Hwf) as (r & st1 & T1 & E & _ & A & R).
  destruct (A eq_refl) as [-> ->]. destruct r as [[tva i]|].
  - right. destruct R as (-> & q & Hq & ->).
    destruct (wf_word st l0 T _ q (L3_INDEX va) Hwf Hq) as [e He]; [apply pt_index_range|].
    exists q, e. split; [done|]. split; [done|]. rewrite (wf_read st l0 T _ q) by done. split; [done|].
    unfold valid_leaf, leaf. rewrite Hq. simpl. by rewrite He.
  - left. split; [done|]. destruct R as [Hn _]. unfold valid_leaf, leaf. by rewrite Hn.
Qed.

(** [st'] is [st] with the valid slots of pages [lo..hi) transformed by [f]. *)
Record rewritten st l0 T (va lo hi : Z) (f : Z → option Z) st' : Prop := {
  rw_wf : pt_wf st' l0 T;
  rw_frames : frames st' = frames st;
  rw_log : tlbi_log st' = tlbi_log st;
  rw_leaf va' : 0 ≤ va' < 2 ^ 48 → valid_leaf st' T va' =
    if decide (in_span va lo hi va') then valid_leaf st T va' ≫= f else valid_leaf st T va';
}.

Lemma rewritten_nil st l0 T va i f : pt_wf st l0 T → rewritten st l0 T va i i f st.
Proof.
  intros. constructor; try done. intros va' _. rewrite decide_False; [done|]. unfold in_span. lia.
Qed.

(** One more page in front. *)
Lemma rewritten_cons st l0 T va i hi f st1 st' :
  va mod PAGE_SIZE = 0 → i + 1 ≤ hi →
  rewritten st l0 T va i (i + 1) f st1 → rewritten st1 l0 T va (i + 1) hi f st' →
  rewritten st l0 T va i hi f st'.
Proof.
  intros Hal Hhi [_ Hf1 Hg1 Hl1] [? Hf2 Hg2 Hl2]. constructor; [done|congruence|congruence|].
  intros va' Hva'. rewrite Hl2, Hl1 by done. unfold in_span, PAGE_SIZE in *.
  repeat case_decide; done || (exfalso; lia).
Qed.

Lemma rewritten_one st l0 T va i f q e v :
  pt_wf st l0 T → va mod PAGE_SIZE = 0 → 0 ≤ va + i * PAGE_SIZE < 2 ^ 48 →
  T !! path (va + i * PAGE_SIZE) = Some q → valid_leaf st T (va + i * PAGE_SIZE) = Some e →
  f e = (if pte_valid v then Some v else None) → (pte_valid v = true → Z.land v 3 = 3) →
  rewritten st l0 T va i (i + 1) f (set_word st q (L3_INDEX (va + i * PAGE_SIZE)) v).
Proof.
  intros Hwf Hal Hva Hq He Hf H3. constructor; try done.
  - eapply wf_set_leaf; [done|exact Hq|done|apply pt_index_range|done].
  - intros va' Hva'. rewrite (valid_leaf_set st l0) by done.
    rewrite (decide_ext _ _ _ _ (same_page va i va' Hal)). case_decide as Hin; [|done].
    assert (valid_leaf st T va' = Some e) as ->; [|by simpl].
    rewrite <- He. apply same_page in Hin; [|done]. apply path_page in Hin as [E1 E2].
    unfold valid_leaf, leaf. by rewrite E1, E2.
Qed.

Lemma rewritten_skip st l0 T va i f :
  pt_wf st l0 T → va mod PAGE_SIZE = 0 → 0 ≤ va + i * PAGE_SIZE < 2 ^ 48 →
  valid_leaf st T (va + i * PAGE_SIZE) = None → rewritten st l0 T va i (i + 1) f st.
Proof.
  intros Hwf Hal Hva Hn. constructor; try done. intros va' _. case_decide as Hin; [|done].
  apply same_page in Hin; [|done]. apply path_page in Hin as [E1 E2].
  assert (valid_leaf st T va' = None) as ->; [|done].
  rewrite <- Hn. unfold valid_leaf, leaf. by rewrite E1, E2.
Qed.

Lemma unmap_pages_spec st l0 T va i n :
  pt_wf st l0 T → va mod PAGE_SIZE = 0 → 0 ≤ va → 0 ≤ i → va + (i + Z.of_nat n) * PAGE_SIZE ≤ 2 ^ 48 →
  ∃ st', unmap_pages st l0 va i n = Some st' ∧
    rewritten st l0 T va i (i + Z.of_nat n) (λ _, None) st'.
Proof.
  revert st i. induction n as [|n IH]; intros st i Hwf Hal Hva Hi Hb; cbn [unmap_pages].
  { exists st. split; [done|]. rewrite Z.add_0_r. by apply rewritten_nil. }
  rewrite mul64_small, (add64_small va) by (unfold PAGE_SIZE in *; lia).
  assert (0 ≤ va + i * PAGE_SIZE < 2 ^ 48) as Hr by (unfold PAGE_SIZE in *; lia).
  assert (∀ st1, rewritten st l0 T va i (i + 1) (λ _, None) st1 →
    ∃ st', unmap_pages st1 l0 va (i + 1) n = Some st' ∧
      rewritten st l0 T va i (i + Z.of_nat (Datatypes.S n)) (λ _, None) st') as Hnext.
  { intros st1 H1. destruct (IH st1 (i + 1)) as (st' & E & H2); [apply H1|done|done|lia|lia|].
    exists st'. split; [done|]. replace (i + Z.of_nat (Datatypes.S n)) with (i + 1 + Z.of_nat n) by lia.
    eapply rewritten_cons; [done|lia|done..]. }
  destruct (walk_lookup st l0 T (va + i * PAGE_SIZE) Hwf) as [(-> & Hn)|(q & e & -> & Hq & Hre & He)];
    cbn [mbind option_bind].
  { by apply Hnext, rewritten_skip. }
  rewrite Hre. cbn [mbind option_bind]. destruct (pte_valid e) eqn:Hv.
  - rewrite (wf_write st l0 T _ q) by (done || apply pt_index_range). cbn [mbind option_bind].
    apply Hnext. by eapply rewritten_one.
  - by apply Hnext, rewritten_skip.
Qed.

(** The new descriptor of a re-protected page. *)
Definition reprotect (flags e : Z) : Z := Z.lor (Z.land e (not64 PERM_MASK)) (Z.land flags PERM_MASK).

(** How many pages of the range are present. *)
Definition present st T (va lo n : Z) : Z :=
  Z.of_nat (length (filter (λ j, is_Some (valid_leaf st T (va + j * PAGE_SIZE))) (seqZ lo n))).

Lemma present_frame st st' T va lo n :
  (∀ j, lo ≤ j < lo + n → is_Some (valid_leaf st' T (va + j * PAGE_SIZE)) ↔ is_Some (valid_leaf st T (va + j * PAGE_SIZE))) →
  present st' T va lo n = present st T va lo n.
Proof.
  intros H. unfold present. do 2 f_equal. apply filter_ext_in. intros j Hj%elem_of_seqZ. apply H. lia.
Qed.

Lemma present_cons st T va lo n :
  0 ≤ n → present st T va lo (n + 1) =
    (if decide (is_Some (valid_leaf st T (va + lo * PAGE_SIZE))) then 1 else 0) + present st T va (lo + 1) n.
Proof.
  intros Hn. unfold present. rewrite seqZ_cons by lia. rewrite filter_cons.
  replace (Z.pred (n + 1)) with n by lia. replace (Z.succ lo) with (lo + 1) by lia.
  case_decide; simpl; lia.
Qed.

Lemma protect_pages_spec st l0 T va flags i c n :
  pt_wf st l0 T → va mod PAGE_SIZE = 0 → 0 ≤ va → 0 ≤ i → va + (i + Z.of_nat n) * PAGE_SIZE ≤ 2 ^ 48 →
  ∃ st', protect_pages st l0 va flags i c n = Some (c + present st T va i (Z.of_nat n), st') ∧
    rewritten st l0 T va i (i + Z.of_nat n) (λ e, Some (reprotect flags e)) st'.
Proof.
  revert st i c. induction n as [|n IH]; intros st i c Hwf Hal Hva Hi Hb; cbn [protect_pages].
  { exists st. split; [by rewrite Z.add_0_r|]. rewrite Z.add_0_r. by apply rewritten_nil. }
  rewrite mul64_small, (add64_small va) by (unfold PAGE_SIZE in *; lia).
  assert (0 ≤ va + i * PAGE_SIZE < 2 ^ 48) as Hr by (unfold PAGE_SIZE in *; lia).
  replace (Z.of_nat (Datatypes.S n)) with (Z.of_nat n + 1) in * by lia. rewrite present_cons by lia.
  assert (∀ st1 c1, rewritten st l0 T va i (i + 1) (λ e, Some (reprotect flags e)) st1 →
    ∃ st', protect_pages st1 l0 va flags (i + 1) c1 n
        = Some (c1 + present st T va (i + 1) (Z.of_nat n), st') ∧
      rewritten st l0 T va i (i + (Z.of_nat n + 1)) (λ e, Some (reprotect flags e)) st') as Hnext.
  { intros st1 c1 H1. destruct (IH st1 (i + 1) c1) as (st' & E & H2); [apply H1|done|done|lia|lia|].
    exists st'. rewrite E. split.
    - do 2 f_equal. f_equal. apply present_frame. intros j Hj.
      rewrite (rw_leaf _ _ _ _ _ _ _ _ H1) by (unfold PAGE_SIZE in *; lia).
      rewrite decide_False; [done|]. unfold in_span, PAGE_SIZE. lia.
    - replace (i + (Z.of_nat n + 1)) with (i + 1 + Z.of_nat n) by lia.
      eapply rewritten_cons; [done|lia|done..]. }
  destruct (walk_lookup st l0 T (va + i * PAGE_SIZE) Hwf) as [(-> & Hn)|(q & e & -> & Hq & Hre & He)];
    cbn [mbind option_bind].
  { rewrite Hn, decide_False, Z.add_0_l by (by intros [? ?]). by apply Hnext, rewritten_skip. }
  rewrite Hre. cbn [mbind option_bind]. destruct (pte_valid e) eqn:Hv.
  - rewrite (wf_write st l0 T _ q) by (done || apply pt_index_range). cbn [mbind option_bind].
    rewrite He, decide_True, Z.add_assoc by done. apply Hnext.
    assert (Z.land (reprotect flags e) 3 = 3) as H3.
    { apply protect_desc_3. unfold valid_leaf, leaf in He. rewrite Hq in He. simpl in He.
      destruct (word st q _) as [e'|] eqn:Hw; [|done]. simpl in He. destruct (pte_valid e') eqn:Hv'; [|done].
      simplify_eq. by eapply (pw_leaf _ _ _ Hwf). }
    eapply rewritten_one; try done. fold (reprotect flags e). by rewrite land3_valid.
  - rewrite He, decide_False, Z.add_0_l by (by intros [? ?]). by apply Hnext, rewritten_skip.
Qed.

End Tree.

(** ** Tearing the tree down *)

Section Teardown.
Context {S : Type} `{!PageAllocator S}.
Implicit Types (st : pt S) (T : tree).

(** The table pages are read while their frames are being released: the
    memory is that of [st0], only the allocator moves on. *)
Definition same_tables st0 st : Prop :=
  tabs st = tabs st0 ∧ mmu_on st = mmu_on st0 ∧ pa_inv (frames st).

Definition below T (π : list Z) (x : Z) : Prop := ∃ ρ, T !! (π ++ ρ) = Some x.

Section Free.
Context st0 l0 T (Hwf : pt_wf st0 l0 T).

Lemma free_frame_spec st x :
  same_tables st0 st →
  ∃ st', free_frame st x = Some st' ∧ same_tables st0 st' ∧
    pa_frames (frames st') = pa_frames (frames st) ∖ {[x]}.
Proof.
  intros (Ht & Hon & Hi). destruct (pa_free_page_ok (frames st) x Hi) as (s & E & Hi' & Hf & _).
  unfold free_frame. rewrite E. eexists. split; [done|]. done.
Qed.

Lemma free_read st π q i :
  same_tables st0 st → T !! π = Some q → (length π < 3)%nat → 0 ≤ i < 512 →
  ∃ e, read_entry st (PHYS_TO_VIRT q) i = Some e ∧
    match T !! (π ++ [i]) with
    | Some c => pte_valid e = true ∧ Z.land e PTE_TABLE ≠ 0 ∧ pte_next_table e = c
    | None => pte_valid e = false
    end.
Proof.
  intros (Ht & Hon & Hi) Hq Hl Hr. destruct (wf_word st0 l0 T π q i) as [e He]; [done..|].
  exists e. split.
  - unfold read_entry, deref. rewrite Ht, Hon. fold (deref st0 (PHYS_TO_VIRT q)).
    rewrite (wf_deref st0 l0 T π) by done. exact He.
  - pose proof (pw_entry _ _ _ Hwf π q i e Hq Hl He) as Hch.
    destruct (T !! (π ++ [i])) as [c|] eqn:Hc; simpl in Hch; [subst e|done].
    destruct (wf_page st0 l0 T _ c Hwf Hc) as (? & ? & _).
    destruct (table_desc_ok c) as (? & ? & ? & ?); [lia|done|]. done.
Qed.

Lemma below_step π j x : below T (π ++ [j]) x ↔ T !! (π ++ [j]) = Some x ∨ ∃ i, below T ((π ++ [j]) ++ [i]) x.
Proof.
  unfold below. split.
  - intros ([|i ρ] & H); [left; by rewrite app_nil_r in H|]. right. exists i, ρ. by rewrite <- !app_assoc in *.
  - intros [H|(i & ρ & H)]; [exists []; by rewrite app_nil_r|]. exists (i :: ρ). by rewrite <- !app_assoc in *.
Qed.

Lemma below_missing π x : T !! π = None → ¬ below T π x.
Proof.
  intros Hn [ρ H]. revert x H. induction ρ as [|i ρ IH] using rev_ind; intros x H.
  { rewrite app_nil_r in H. congruence. }
  rewrite app_assoc in H. apply (pw_parent _ _ _ Hwf) in H as (_ & _ & [y Hy]). by eapply IH.
Qed.

Lemma below_index π i x : below T (π ++ [i]) x → 0 ≤ i < 512 ∧ (length π < 3)%nat.
Proof.
  intros [ρ H]. revert x H. induction ρ as [|j ρ IH] using rev_ind; intros x H.
  { rewrite app_nil_r in H. by apply (pw_parent _ _ _ Hwf) in H as (? & ? & _). }
  rewrite app_assoc in H. apply (pw_parent _ _ _ Hwf) in H as (_ & _ & [y Hy]). by eapply IH.
Qed.

(** The loop over the slots of the table at [π] releases everything below the
    slots [k..k+n): what [free_slot] must do for each of them. *)
Definition released st π (k n : Z) st' : Prop :=
  same_tables st0 st' ∧
  ∀ x, x ∈ pa_frames (frames st') ↔
    x ∈ pa_frames (frames st) ∧ ¬ ∃ j, k ≤ j < k + n ∧ below T (π ++ [j]) x.

Lemma released_nil st π k : same_tables st0 st → released st π k 0 st.
Proof. intros H. split; [done|]. intros x. split; [|tauto]. intros Hx. split; [done|]. intros (j & ? & _). lia. Qed.

Lemma released_cons st π k n st1 st2 :
  0 ≤ n → released st π k 1 st1 → released st1 π (k + 1) n st2 → released st π k (n + 1) st2.
Proof.
  intros Hn [H1 F1] [H2 F2]. split; [done|]. intros x. rewrite F2, F1. split.
  - intros [[Hx Ha] Hb]. split; [done|]. intros (j & Hj & Hbl).
    destruct (decide (j = k)) as [->|]; [apply Ha|apply Hb]; eexists; (split; [|exact Hbl]); lia.
  - intros [Hx Hb]. split; [split; [done|]|]; intros (j & Hj & Hbl); apply Hb; exists j; (split; [lia|done]).
Qed.

Lemma released_skip st π k : same_tables st0 st → T !! (π ++ [k]) = None → released st π k 1 st.
Proof.
  intros H Hn. split; [done|]. intros x. split; [|tauto]. intros Hx. split; [done|]. intros (j & Hj & Hb).
  assert (j = k) as -> by lia. by eapply below_missing.
Qed.

(** The subtree first, then its root. *)
Lemma released_child st π k c st1 st2 :
  T !! (π ++ [k]) = Some c → released st (π ++ [k]) 0 512 st1 →
  same_tables st0 st2 → pa_frames (frames st2) = pa_frames (frames st1) ∖ {[c]} → released st π k 1 st2.
Proof.
  intros Hc [H1 F1] H2 F2. split; [done|]. intros x. rewrite F2, elem_of_difference, F1, elem_of_singleton. split.
  - intros [[Hx Ha] Hne]. split; [done|]. intros (j & Hj & Hb). assert (j = k) as -> by lia.
    apply below_step in Hb as [Hb|[i Hb]]; [congruence|]. apply Ha. exists i. split; [|done].
    apply below_index in Hb as [? _]. lia.
  - intros [Hx Hb]. split; [split; [done|]|].
    + intros (j & _ & Hj). apply Hb. exists k. split; [lia|]. apply below_step. eauto.
    + intros ->. apply Hb. exists k. split; [lia|]. apply below_step. by left.
Qed.

Lemma free_l3_spec st π q k n :
  same_tables st0 st → T !! π = Some q → length π = 2%nat → 0 ≤ k → k + Z.of_nat n ≤ 512 →
  ∃ st', free_l3_tables st (PHYS_TO_VIRT q) k n = Some st' ∧ released st π k (Z.of_nat n) st'.
Proof.
  revert st k. induction n as [|n IH]; intros st k Hs Hq Hl Hk Hn; cbn [free_l3_tables].
  { exists st. split; [done|]. by apply released_nil. }
  replace (Z.of_nat (Datatypes.S n)) with (Z.of_nat n + 1) in * by lia.
  assert (∀ st1, released st π k 1 st1 → ∃ st', free_l3_tables st1 (PHYS_TO_VIRT q) (k + 1) n = Some st' ∧
    released st π k (Z.of_nat n + 1) st') as Hnext.
  { intros st1 H1. destruct (IH st1 (k + 1)) as (st' & E & H2); [apply H1|done..|lia|lia|].
    exists st'. split; [done|]. eapply released_cons; [lia|done..]. }
  destruct (free_read st π q k) as (e & -> & He); [done..|lia|lia|]. cbn [mbind option_bind].
  destruct (T !! (π ++ [k])) as [c|] eqn:Hc.
  - destruct He as (-> & Ht & ->). simpl. rewrite decide_False by done.
    destruct (free_frame_spec st c Hs) as (st1 & -> & Hs1 & Hf1). simpl. apply Hnext.
    eapply (released_child st π k c st); [done| |done|done]. split; [done|]. intros x. split; [|tauto].
    intros Hx. split; [done|]. intros (j & _ & Hb). apply below_index in Hb as [_ Hb].
    rewrite length_app in Hb. simpl in Hb. lia.
  - rewrite He. simpl. by apply Hnext, released_skip.
Qed.

Lemma free_l2_spec st π q k n :
  same_tables st0 st → T !! π = Some q → length π = 1%nat → 0 ≤ k → k + Z.of_nat n ≤ 512 →
  ∃ st', free_l2_tables st (PHYS_TO_VIRT q) k n = Some st' ∧ released st π k (Z.of_nat n) st'.
Proof.
  revert st k. induction n as [|n IH]; intros st k Hs Hq Hl Hk Hn; cbn [free_l2_tables].
  { exists st. split; [done|]. by apply released_nil. }
  replace (Z.of_nat (Datatypes.S n)) with (Z.of_nat n + 1) in * by lia.
  assert (∀ st1, released st π k 1 st1 → ∃ st', free_l2_tables st1 (PHYS_TO_VIRT q) (k + 1) n = Some st' ∧
    released st π k (Z.of_nat n + 1) st') as Hnext.
  { intros st1 H1. destruct (IH st1 (k + 1)) as (st' & E & H2); [apply H1|done..|lia|lia|].
    exists st'. split; [done|]. eapply released_cons; [lia|done..]. }
  destruct (free_read st π q k) as (e & -> & He); [done..|lia|lia|]. cbn [mbind option_bind].
  destruct (T !! (π ++ [k])) as [c|] eqn:Hc.
  - destruct He as (-> & Ht & ->). cbn [negb]. rewrite decide_False by done.
    destruct (free_l3_spec st (π ++ [k]) c 0 512) as (st1 & -> & Hr1); [done..| |lia|lia|].
    { rewrite length_app. simpl. lia. }
    cbn [mbind option_bind]. destruct (free_frame_spec st1 c) as (st2 & -> & Hs2 & Hf2); [apply Hr1|].
    cbn [mbind option_bind]. apply Hnext. by eapply (released_child st π k c st1).
  - rewrite He. cbn [negb]. by apply Hnext, released_skip.
Qed.

Lemma free_l1_spec st k n :
  same_tables st0 st → 0 ≤ k → k + Z.of_nat n ≤ 512 →
  ∃ st', free_l1_tables st (PHYS_TO_VIRT l0) k n = Some st' ∧ released st [] k (Z.of_nat n) st'.
Proof.
  revert st k. induction n as [|n IH]; intros st k Hs Hk Hn; cbn [free_l1_tables].
  { exists st. split; [done|]. by apply released_nil. }
  replace (Z.of_nat (Datatypes.S n)) with (Z.of_nat n + 1) in * by lia.
  assert (∀ st1, released st [] k 1 st1 → ∃ st', free_l1_tables st1 (PHYS_TO_VIRT l0) (k + 1) n = Some st' ∧
    released st [] k (Z.of_nat n + 1) st') as Hnext.
  { intros st1 H1. destruct (IH st1 (k + 1)) as (st' & E & H2); [apply H1|lia|lia|].
    exists st'. split; [done|]. eapply released_cons; [lia|done..]. }
  destruct (free_read st [] l0 k) as (e & -> & He); [done|apply Hwf|simpl; lia|lia|]. cbn [mbind option_bind].
  destruct (T !! ([] ++ [k])) as [c|] eqn:Hc.
  - destruct He as (-> & Ht & ->). cbn [negb].
    destruct (free_l2_spec st [k] c 0 512) as (st1 & -> & Hr1); [done..|lia|lia|].
    cbn [mbind option_bind]. destruct (free_frame_spec st1 c) as (st2 & -> & Hs2 & Hf2); [apply Hr1|].
    cbn [mbind option_bind]. apply Hnext. by eapply (released_child st [] k c st1).
  - rewrite He. cbn [negb]. by apply Hnext, released_skip.
Qed.
End Free.
End Teardown.

(** ** TLB maintenance *)

(** The operands step by 2 MiB: one page number in 512. *)
Lemma span_operands_spec g en fuel :
  0 ≤ g → en + _2MB < 2 ^ 64 → en - g ≤ Z.of_nat fuel * _2MB →
  span_operands g en fuel =
    (λ j, (g + j * _2MB) / 4096) <$> seqZ 0 (if decide (g < en) then (en - g + _2MB - 1) / _2MB else 0).
Proof.
  revert g. induction fuel as [|f IH]; intros g Hg He Hf; cbn [span_operands].
  { rewrite decide_False by lia. done. }
  case_decide as Hlt; [|done]. rewrite add64_small by (unfold _2MB in *; lia).
  rewrite IH by (unfold _2MB in *; lia). rewrite Z.shiftr_div_pow2 by lia.
  assert (∃ m, (en - g + _2MB - 1) / _2MB = m + 1 ∧
    (if decide (g + _2MB < en) then (en - (g + _2MB) + _2MB - 1) / _2MB else 0) = m ∧ 0 ≤ m) as (m & E1 & E2 & Hm).
  { eexists. split; [|split; [reflexivity|]]; case_decide; unfold _2MB in *; dlia. }
  rewrite E1, E2, (seqZ_cons 0 (m + 1)) by lia. rewrite fmap_cons. f_equal; [by rewrite Z.add_0_r|].
  replace (Z.pred (m + 1)) with m by lia. rewrite <- (fmap_add_seqZ 1 0), <- list_fmap_compose.
  apply list_fmap_ext. intros i x _. simpl. f_equal. lia.
Qed.

(** The table base and the ASID survive packing into TTBR0. *)
Lemma ttbr_roundtrip baddr asid :
  0 ≤ baddr < 2 ^ 48 → 0 ≤ asid < 2 ^ 16 →
  ttbr_baddr (ttbr_pack baddr asid) = baddr ∧ ttbr_asid (ttbr_pack baddr asid) = asid.
Proof.
  intros Hb Ha. unfold ttbr_baddr, ttbr_asid, ttbr_pack, shl64, TTBR_BADDR_MASK.
  change 0x0000FFFFFFFFFFFF with (Z.ones 48). rewrite !Z.land_ones, Z.shiftl_mul_pow2 by lia.
  rewrite (Z.mod_small baddr), wrap64_small by lia.
  assert (Z.lor baddr (asid * 2 ^ 48) = baddr + asid * 2 ^ 48) as ->.
  { symmetry. rewrite <- Z.shiftl_mul_pow2 by lia.
    assert (Z.land baddr (Z.shiftl asid 48) = 0) as Hz.
    { apply Z.bits_inj'. intros n Hn. rewrite Z.land_spec, Z.bits_0, Z.shiftl_spec by lia.
      destruct (decide (n < 48)); [by rewrite (Z.testbit_neg_r asid), andb_false_r by lia|].
      by rewrite (testbit_high baddr 48) by lia. }
    rewrite Z.add_nocarry_lxor by done. by apply Z.lxor_lor. }
  rewrite Z.shiftr_div_pow2 by lia. split; [|rewrite Z.mod_small]; dlia.
Qed.

(** ** What EL0 and EL1 may do with a descriptor (AP[2:1], UXN, PXN) *)

Definition el0_read (e : Z) : bool := Z.testbit e 6.
Definition el0_write (e : Z) : bool := Z.testbit e 6 && negb (Z.testbit e 7).
Definition el0_exec (e : Z) : bool := negb (Z.testbit e 54).
Definition el1_exec (e : Z) : bool := negb (Z.testbit e 53).

Lemma land_pow2_testbit x k : 0 ≤ k → Z.land x (2 ^ k) ≠ 0 ↔ Z.testbit x k = true.
Proof.
  intros Hk. split.
  - intros H. destruct (Z.testbit x k) eqn:E; [done|]. destruct H. apply Z.bits_inj'. intros n Hn.
    rewrite Z.land_spec, Z.bits_0, Z.pow2_bits_eqb by lia.
    destruct (Z.eqb_spec k n) as [<-|]; [by rewrite E|by rewrite andb_false_r].
  - intros H E. assert (Z.testbit (Z.land x (2 ^ k)) k = true) as Hb.
    { rewrite Z.land_spec, H, Z.pow2_bits_eqb, Z.eqb_refl by lia. done. }
    by rewrite E, Z.bits_0 in Hb.
Qed.

Lemma prot_flags_rights prot :
  let f := mmu_prot_to_flags prot in
  el0_write f = Z.testbit prot 1 ∧ el0_read f = Z.testbit prot 0 || Z.testbit prot 1 ∧ el0_exec f = Z.testbit prot 2.
Proof.
  unfold mmu_prot_to_flags, VMA_PROT_WRITE, VMA_PROT_READ, VMA_PROT_EXEC.
  pose proof (land_pow2_testbit prot 0 ltac:(lia)) as H0. pose proof (land_pow2_testbit prot 1 ltac:(lia)) as H1.
  pose proof (land_pow2_testbit prot 2 ltac:(lia)) as H2.
  change (2 ^ 0) with 1 in H0. change (2 ^ 1) with 2 in H1. change (2 ^ 2) with 4 in H2.
  destruct (Z.testbit prot 0), (Z.testbit prot 1), (Z.testbit prot 2);
    repeat case_decide; try (exfalso; tauto); try (exfalso; intuition congruence); by vm_compute.
Qed.

Lemma prot_flags_perm prot : Z.land (mmu_prot_to_flags prot) PERM_MASK = mmu_prot_to_flags prot.
Proof. unfold mmu_prot_to_flags. repeat case_decide; by vm_compute. Qed.

(** [mmu_prot_to_flags]: EL0 may write exactly with PROT_WRITE, may read
    exactly with PROT_READ or PROT_WRITE, may execute exactly with PROT_EXEC;
    the kernel may never execute from the page; the memory type is index 1
    (normal memory); and the flags lie within the bits mprotect replaces. *)
Theorem mmu_prot_to_flags_correct prot :
  let f := mmu_prot_to_flags prot in
  el0_write f = Z.testbit prot 1 ∧ el0_read f = Z.testbit prot 0 || Z.testbit prot 1 ∧
  el0_exec f = Z.testbit prot 2 ∧ el1_exec f = false ∧
  Z.land (Z.shiftr f 2) 7 = 1 ∧ Z.land f PERM_MASK = f.
Proof.
  destruct (prot_flags_rights prot) as (Hw & Hr & Hx). split_and!; [done|done|done| | |apply prot_flags_perm];
    unfold mmu_prot_to_flags; repeat case_decide; by vm_compute.
Qed.

(** Re-protecting a page descriptor replaces its permission flags. *)
Lemma reprotect_desc pa f f' :
  0 ≤ pa < 2 ^ 64 → Z.land f PERM_MASK = f → Z.land f' PERM_MASK = f' →
  reprotect f' (page_desc pa f) = page_desc pa f'.
Proof.
  intros Hpa Hf Hf'. unfold reprotect, page_desc. rewrite Hf'.
  set (B := Z.lor (Z.lor (Z.lor (Z.lor (Z.lor (Z.land pa PTE_ADDR_MASK) PTE_VALID) PTE_TABLE) PTE_AF) PTE_SH_INNER) PTE_NG).
  assert (Z.land B PERM_MASK = 0) as HB.
  { unfold B. rewrite !Z.land_lor_distr_l, <- Z.land_assoc.
    replace (Z.land PTE_ADDR_MASK PERM_MASK) with 0 by (by vm_compute). rewrite Z.land_0_r. reflexivity. }
  assert (Z.land B (Z.ones 64) = B) as HB64.
  { unfold B. rewrite !Z.land_lor_distr_l, <- Z.land_assoc.
    replace (Z.land PTE_ADDR_MASK (Z.ones 64)) with PTE_ADDR_MASK by (by vm_compute).
    replace (Z.land PTE_VALID (Z.ones 64)) with PTE_VALID by (by vm_compute).
    replace (Z.land PTE_TABLE (Z.ones 64)) with PTE_TABLE by (by vm_compute).
    replace (Z.land PTE_AF (Z.ones 64)) with PTE_AF by (by vm_compute).
    replace (Z.land PTE_SH_INNER (Z.ones 64)) with PTE_SH_INNER by (by vm_compute).
    by replace (Z.land PTE_NG (Z.ones 64)) with PTE_NG by (by vm_compute). }
  assert (not64 PERM_MASK = Z.land (Z.ones 64) (Z.lnot PERM_MASK)) as Hn by (by vm_compute).
  rewrite Z.land_lor_distr_l.
  assert (Z.land B (not64 PERM_MASK) = B) as ->.
  { rewrite Hn, Z.land_assoc, HB64. apply Z.bits_inj'. intros n Hn0.
    rewrite Z.land_spec, Z.lnot_spec by done. destruct (Z.testbit B n) eqn:Eb; [|done].
    assert (Z.testbit (Z.land B PERM_MASK) n = false) as Hz by (rewrite HB; apply Z.bits_0).
    rewrite Z.land_spec, Eb in Hz. cbn in Hz. by rewrite Hz. }
  assert (Z.land f (not64 PERM_MASK) = 0) as ->.
  { rewrite <- Hf, <- Z.land_assoc. replace (Z.land PERM_MASK (not64 PERM_MASK)) with 0 by (by vm_compute). apply Z.land_0_r. }
  by rewrite Z.lor_0_r.
Qed.

Lemma reprotect_bit f e k : 0 ≤ k < 64 → Z.testbit (reprotect f e) k =
  if Z.testbit PERM_MASK k then Z.testbit f k else Z.testbit e k.
Proof.
  intros Hk. unfold reprotect. rewrite Z.lor_spec, !Z.land_spec.
  replace (not64 PERM_MASK) with (Z.land (Z.ones 64) (Z.lnot PERM_MASK)) by (by vm_compute).
  rewrite Z.land_spec, Z.lnot_spec, Z.ones_spec_low by lia.
  destruct (Z.testbit PERM_MASK k); cbn; [by rewrite !andb_false_r, andb_true_r|by rewrite !andb_false_r, andb_true_r, orb_false_r].
Qed.

Lemma reprotect_rights f e :
  el0_read (reprotect f e) = el0_read f ∧ el0_write (reprotect f e) = el0_write f ∧ el0_exec (reprotect f e) = el0_exec f ∧
  Z.land (reprotect f e) PTE_ADDR_MASK = Z.land e PTE_ADDR_MASK.
Proof.
  unfold el0_read, el0_write, el0_exec. rewrite !reprotect_bit by lia. split_and!; [done..|].
  apply Z.bits_inj'. intros n Hn. rewrite !Z.land_spec. destruct (Z.testbit PTE_ADDR_MASK n) eqn:En; [|by rewrite !andb_false_r].
  assert (n < 48) as Hlt.
  { destruct (Z.lt_ge_cases n 48) as [|Hge]; [done|]. exfalso.
    by rewrite (Z.bits_above_log2 PTE_ADDR_MASK) in En by (vm_compute (Z.log2 _); (lia || by vm_compute)). }
  rewrite reprotect_bit by lia. assert (Z.testbit (Z.land PTE_ADDR_MASK PERM_MASK) n = false) as Hz.
  { replace (Z.land PTE_ADDR_MASK PERM_MASK) with 0 by (by vm_compute). apply Z.bits_0. }
  rewrite Z.land_spec, En in Hz. cbn in Hz. by rewrite Hz.
Qed.

(** A page descriptor grants what its flags grant. *)
Lemma page_desc_rights pa f :
  el0_read (page_desc pa f) = el0_read f ∧ el0_write (page_desc pa f) = el0_write f ∧ el0_exec (page_desc pa f) = el0_exec f.
Proof.
  unfold el0_read, el0_write, el0_exec, page_desc. rewrite !Z.lor_spec, !Z.land_spec.
  repeat (match goal with |- context [Z.testbit ?c ?k] =>
    lazymatch c with context [pa] => fail | context [f] => fail | _ =>
      let b := eval vm_compute in (Z.testbit c k) in change (Z.testbit c k) with b end end).
  rewrite !andb_false_r. by cbn.
Qed.

Section Claims.
Context {S : Type} `{!PageSource S}.
Implicit Types (st : pt S) (T : tree).

Lemma wf_log st l0 T log : pt_wf st l0 T → pt_wf (mk_pt (frames st) (tabs st) (mmu_on st) log) l0 T.
Proof. intros []. by constructor. Qed.

Lemma wf_invalidate st l0 T va pages : pt_wf st l0 T → pt_wf (invalidate_user_span st va pages) l0 T.
Proof. intros H. unfold invalidate_user_span. case_decide; [done|]. by apply wf_log. Qed.

Lemma hw_invalidate st l0 va pages va' : hw_pte (invalidate_user_span st va pages) l0 va' = hw_pte st l0 va'.
Proof. unfold invalidate_user_span. by case_decide. Qed.

(** The tables read from memory that has moved on. *)
Lemma wf_frames st l0 T s :
  pt_wf st l0 T → pa_inv s → (∀ π q, T !! π = Some q → q ∈ pa_frames s) →
  pt_wf (mk_pt s (tabs st) (mmu_on st) (tlbi_log st)) l0 T.
Proof. intros [] Hi Hf. constructor; done. Qed.

(** What every page allocation keeps, mapping keeps. *)
Lemma map_frames_ind (P : S → Prop) :
  (∀ s r s', P s → pa_alloc_page s = Some (r, s') → P s') →
  ∀ st l0 va pa flags i n st', P (frames st) → map_loop st l0 va pa flags i n = Some st' → P (frames st').
Proof.
  intros HP.
  assert (∀ st r st', P (frames st) → alloc_table st = Some (r, st') → P (frames st')) as Ha.
  { intros st r st' Hp. unfold alloc_table. destruct (pa_alloc_page (frames st)) as [[x s]|] eqn:E; [|done]. cbn.
    case_decide; intros [= <- <-]; cbn; by eapply HP. }
  assert (∀ st t i e st', P (frames st) → write_entry st t i e = Some st' → P (frames st')) as Hw.
  { intros st t i e st' Hp. unfold write_entry. destruct (tabs st !! deref st t) as [tb|]; [|done]. cbn.
    destruct (arr_set tb i e); [|done]. cbn. by intros [= <-]. }
  assert (∀ st t i b r st', P (frames st) → next_level st t i b = Some (r, st') → P (frames st')) as Hn.
  { intros st t i b r st' Hp. unfold next_level. destruct (read_entry st t i) as [e|]; [|done]. cbn.
    destruct (pte_valid e); [by intros [= <- <-]|]. destruct (negb b); [by intros [= <- <-]|].
    destruct (alloc_table st) as [[x s1]|] eqn:E; [|done]. cbn. apply Ha in E; [|done].
    case_decide; [by intros [= <- <-]|].
    destruct (write_entry s1 t i _) as [s2|] eqn:E2; [|done]. cbn. intros [= <- <-]. by eapply Hw. }
  assert (∀ st l0 va b r st', P (frames st) → walk_levels st l0 va 3 b = Some (r, st') → P (frames st')) as Hk.
  { intros st l0 va b r st' Hp. unfold walk_levels.
    destruct (next_level st _ _ b) as [[[l1|] s1]|] eqn:E1; cbn; [|by intros [= <- <-]; eapply Hn|done]. apply Hn in E1; [|done].
    destruct (next_level s1 _ _ b) as [[[l2|] s2]|] eqn:E2; cbn; [|by intros [= <- <-]; eapply Hn|done]. apply Hn in E2; [|done].
    destruct (next_level s2 _ _ b) as [[[l3|] s3]|] eqn:E3; cbn; [| |done]; intros [= <- <-]; by eapply Hn. }
  intros st l0 va pa flags i n. revert st i. induction n as [|n IH]; intros st i st' Hp; cbn [map_loop]; [by intros [= <-]|].
  destruct (walk_levels st l0 _ 3 true) as [[[[l3 l3i]|] s1]|] eqn:E1; cbn; [| |done].
  - destruct (write_entry s1 l3 l3i _) as [s2|] eqn:E2; [|done]. cbn. apply IH. eapply Hw, E2. by eapply Hk.
  - intros [= <-]. by eapply Hk.
Qed.

(** A page-aligned range of user addresses. *)
Definition user_range (va pages : Z) : Prop :=
  0 ≤ va ∧ va mod PAGE_SIZE = 0 ∧ 0 ≤ pages ∧ va + pages * PAGE_SIZE ≤ 2 ^ 48.

Lemma map_user_range_spec st l0 T va pa pages flags :
  pt_wf st l0 T → user_range va pages → 0 ≤ pa → pa + pages * PAGE_SIZE < 2 ^ 64 →
  ∃ st' T' k, mmu_map_user_range st l0 va pa pages flags = Some st' ∧ pt_wf st' l0 T' ∧ T ⊆ T' ∧
    pt_others st' T' = pt_others st T ∧ 0 ≤ k ≤ pages ∧
    (k = pages ∨ pa_alloc_page (frames st') = Some (0, frames st')) ∧
    ∀ va', 0 ≤ va' < 2 ^ 48 → hw_pte st' l0 va' =
      if decide (va ≤ va' < va + k * PAGE_SIZE)
      then Some (page_desc (pa + (va' - va) / PAGE_SIZE * PAGE_SIZE) flags)
      else hw_pte st l0 va'.
Proof.
  intros Hwf (H1 & H2 & H3 & H4) Hpa Hpb.
  destruct (map_loop_spec st l0 T va pa flags 0 (Z.to_nat pages)) as (st' & T' & k & E & Hwf' & Hs & Ho & _ & Hk & Hoom & Hl);
    try done; try (unfold PAGE_SIZE in *; lia).
  exists st', T', k. split; [exact E|]. split; [done|]. split; [done|]. split; [done|]. split; [lia|].
  split; [destruct Hoom; [left; lia|by right]|]. intros va' Hva'.
  rewrite (hw_pte_leaf st' l0 T'), (hw_pte_leaf st l0 T), Hl by done.
  by rewrite (decide_ext _ _ _ _ (in_span_0 va k va')).
Qed.

Lemma map_user_range_tabs st l0 T va pa pages flags st' :
  pt_wf st l0 T → mmu_map_user_range st l0 va pa pages flags = Some st' →
  ∀ q, q ∈ pt_others st T → tabs st' !! q = tabs st !! q.
Proof. unfold mmu_map_user_range. apply map_loop_tabs. Qed.

(** [mmu_map_user_range] never faults and keeps the tree well formed.
    After it the hardware walk finds, for every address of the first [k]
    pages, the page descriptor of the corresponding physical page with the
    given flags, and for every other address what it found before.  Only
    tables are taken from the page allocator, and [k] is the whole range
    unless the allocator has run out. *)
Theorem mmu_map_user_range_correct st l0 T va pa pages flags :
  pt_wf st l0 T → user_range va pages → 0 ≤ pa → pa + pages * PAGE_SIZE < 2 ^ 64 →
  ∃ st' T' k, mmu_map_user_range st l0 va pa pages flags = Some st' ∧ pt_wf st' l0 T' ∧ T ⊆ T' ∧
    pt_others st' T' = pt_others st T ∧ 0 ≤ k ≤ pages ∧
    (k = pages ∨ pa_alloc_page (frames st') = Some (0, frames st')) ∧
    ∀ va', 0 ≤ va' < 2 ^ 48 → hw_pte st' l0 va' =
      if decide (va ≤ va' < va + k * PAGE_SIZE)
      then Some (page_desc (pa + (va' - va) / PAGE_SIZE * PAGE_SIZE) flags)
      else hw_pte st l0 va'.
Proof. apply map_user_range_spec. Qed.

(** [mmu_unmap_user_range] never faults, takes and releases no page, and
    removes exactly the range from what the hardware walk finds. *)
Lemma unmap_user_range_spec st l0 T va pages :
  pt_wf st l0 T → user_range va pages →
  ∃ st', mmu_unmap_user_range st l0 va pages = Some st' ∧ pt_wf st' l0 T ∧ frames st' = frames st ∧
    ∀ va', 0 ≤ va' < 2 ^ 48 → hw_pte st' l0 va' =
      if decide (va ≤ va' < va + pages * PAGE_SIZE) then None else hw_pte st l0 va'.
Proof.
  intros Hwf (H1 & H2 & H3 & H4). unfold mmu_unmap_user_range.
  destruct (wf_page st l0 T [] l0 Hwf (pw_root _ _ _ Hwf)) as (Hl0 & _).
  case_decide as H0.
  { exists st. split; [done|]. split; [done|]. split; [done|]. intros va' _. rewrite decide_False; [done|]. lia. }
  destruct (unmap_pages_spec st l0 T va 0 (Z.to_nat pages)) as (st' & -> & [Hwf' Hf _ Hl]); try done; try (unfold PAGE_SIZE in *; lia).
  simpl. eexists. split; [done|]. split; [by apply wf_invalidate|]. split.
  { unfold invalidate_user_span. by case_decide. }
  intros va' Hva'. rewrite hw_invalidate, (hw_pte_leaf st' l0 T), (hw_pte_leaf st l0 T), Hl by done.
  rewrite Z2Nat.id, (decide_ext _ _ _ _ (in_span_0 va pages va')) by lia.
  case_decide; [|done]. by destruct (valid_leaf st T va').
Qed.

(** [mmu_protect_user_range] never faults, takes and releases no page;
    every present page of the range keeps its physical page and gets exactly
    the permission bits of [flags], absent pages stay absent, other addresses
    are untouched, and the result counts the present pages. *)
Lemma protect_user_range_spec st l0 T va pages flags :
  pt_wf st l0 T → user_range va pages →
  ∃ n st', mmu_protect_user_range st l0 va pages flags = Some (n, st') ∧ pt_wf st' l0 T ∧
    frames st' = frames st ∧
    n = Z.of_nat (length (filter (λ j, is_Some (hw_pte st l0 (va + j * PAGE_SIZE))) (seqZ 0 pages))) ∧
    ∀ va', 0 ≤ va' < 2 ^ 48 → hw_pte st' l0 va' =
      if decide (va ≤ va' < va + pages * PAGE_SIZE)
      then (λ e, Z.lor (Z.land e (not64 PERM_MASK)) (Z.land flags PERM_MASK)) <$> hw_pte st l0 va'
      else hw_pte st l0 va'.
Proof.
  intros Hwf (H1 & H2 & H3 & H4). unfold mmu_protect_user_range.
  destruct (wf_page st l0 T [] l0 Hwf (pw_root _ _ _ Hwf)) as (Hl0 & _).
  case_decide as H0.
  { assert (pages = 0) as -> by lia. exists 0, st. split; [done|]. split; [done|]. split; [done|]. split; [done|].
    intros va' _. rewrite decide_False; [done|]. lia. }
  destruct (protect_pages_spec st l0 T va flags 0 0 (Z.to_nat pages)) as (st' & -> & [Hwf' Hf _ Hl]); try done; try (unfold PAGE_SIZE in *; lia).
  simpl. eexists _, _. split; [done|]. split; [by apply wf_invalidate|]. split.
  { unfold invalidate_user_span. by case_decide. }
  rewrite Z2Nat.id in * by lia. split.
  { unfold present. rewrite Z.add_0_l. do 2 f_equal. apply filter_ext_in. intros j _. by rewrite (hw_pte_leaf st l0 T). }
  intros va' Hva'. rewrite hw_invalidate, (hw_pte_leaf st' l0 T), (hw_pte_leaf st l0 T), Hl by done.
  by rewrite (decide_ext _ _ _ _ (in_span_0 va pages va')).
Qed.

Lemma create_spec st :
  pa_inv (frames st) → mmu_on st = true →
  ∃ l0 st', mmu_create_user_tables st = Some (l0, st') ∧
    (l0 = 0 ∨ pt_wf st' l0 {[ [] := l0 ]} ∧ pt_others st' {[ [] := l0 ]} = pa_frames (frames st)).
Proof.
  intros Hi Hon. unfold mmu_create_user_tables, alloc_table.
  destruct (pa_alloc_page_ok (frames st) Hi) as (r & s & -> & Hs & Hr). simpl.
  case_decide as H0; [eexists _, _; split; [done|]; by left|].
  destruct Hr as [[? _]|[Hfresh Hf]]; [done|]. eexists _, _. split; [done|]. right.
  destruct (pa_frames_page s r) as (? & ? & ?); [done|rewrite Hf; set_solver|].
  unfold deref. rewrite Hon, virt_phys by (unfold is_u64, PHYS_LIMIT, PAGE_SIZE in *; lia).
  split; [|unfold pt_others; simpl; rewrite map_img_singleton_L, Hf; set_solver].
  constructor; simpl; try done.
  - intros π1 π2 q. rewrite !lookup_singleton_Some. naive_solver.
  - intros π i q. rewrite lookup_singleton_Some. intros [E _]. by destruct π.
  - intros π q [_ <-]%lookup_singleton_Some. rewrite Hf. set_solver.
  - intros π q [_ <-]%lookup_singleton_Some. exists zero_table. by rewrite lookup_insert_eq.
  - intros π q i e [<- <-]%lookup_singleton_Some _. unfold word. simpl. rewrite lookup_insert_eq. simpl.
    intros ->%zero_table_lookup. by rewrite lookup_singleton_ne.
  - intros π q i e [<- <-]%lookup_singleton_Some. done.
Qed.

End Claims.

Section Lifecycle.
Context {S : Type} `{!PageAllocator S}.
Implicit Types (st : pt S) (T : tree).

Lemma mmu_free_full st l0 T :
  pt_wf st l0 T →
  ∃ st', mmu_free_user_tables st l0 = Some st' ∧ tabs st' = tabs st ∧ pa_inv (frames st') ∧
    pa_frames (frames st') = pa_frames (frames st) ∖ map_img T.
Proof.
  intros Hwf. unfold mmu_free_user_tables.
  destruct (free_l1_spec st l0 T Hwf st 0 512) as (st1 & -> & [Hs1 Hf1]); [|lia|lia|].
  { split; [done|]. split; [done|]. apply Hwf. }
  cbn [mbind option_bind]. destruct (free_frame_spec st st1 l0 Hs1) as (st' & -> & (Htab & _ & Hi) & Hf).
  exists st'. split; [done|]. split; [done|]. split; [done|]. apply set_eq. intros x.
  rewrite Hf, !elem_of_difference, Hf1, elem_of_singleton, elem_of_map_img. split.
  - intros [[Hx Hn] Hne]. split; [done|]. intros [π Hπ]. destruct π as [|j π].
    + rewrite (pw_root _ _ _ Hwf) in Hπ. congruence.
    + apply Hn. assert (below T ([] ++ [j]) x) as Hb by (exists π; done). exists j.
      split; [|done]. apply (below_index st l0 T Hwf) in Hb as [? _]. lia.
  - intros [Hx Hn]. split; [split; [done|]|].
    + intros (j & _ & ρ & Hρ). apply Hn. eauto.
    + intros ->. apply Hn. exists []. apply Hwf.
Qed.

Lemma mmu_free_spec st l0 T :
  pt_wf st l0 T →
  ∃ st', mmu_free_user_tables st l0 = Some st' ∧ pa_inv (frames st') ∧
    pa_frames (frames st') = pa_frames (frames st) ∖ map_img T.
Proof. intros Hwf. destruct (mmu_free_full st l0 T Hwf) as (st' & E & _ & ? & ?). by exists st'. Qed.

(** The life of an address space: what the kernel does to it between
    [mmu_create_user_tables] and [mmu_free_user_tables]. *)
Inductive pt_step (l0 : Z) : pt S → pt S → Prop :=
  | ps_map st st' va pa pages flags :
      user_range va pages → 0 ≤ pa → pa + pages * PAGE_SIZE < 2 ^ 64 →
      mmu_map_user_range st l0 va pa pages flags = Some st' → pt_step l0 st st'
  | ps_unmap st st' va pages :
      user_range va pages → mmu_unmap_user_range st l0 va pages = Some st' → pt_step l0 st st'
  | ps_protect st st' va pages flags n :
      user_range va pages → mmu_protect_user_range st l0 va pages flags = Some (n, st') → pt_step l0 st st'.

Lemma pt_step_wf l0 st st' T :
  pt_step l0 st st' → pt_wf st l0 T → ∃ T', pt_wf st' l0 T' ∧ pt_others st' T' = pt_others st T.
Proof.
  intros Hst Hwf. destruct Hst as [st st' va pa pages flags (H1 & H2 & H3 & H4) Hpa Hpb E
    |st st' va pages (H1 & H2 & H3 & H4) E|st st' va pages flags n (H1 & H2 & H3 & H4) E].
  - destruct (map_loop_spec st l0 T va pa flags 0 (Z.to_nat pages)) as (st2 & T' & k & E' & Hwf' & _ & Ho & _);
      try done; try (unfold PAGE_SIZE in *; lia).
    unfold mmu_map_user_range in E. rewrite E' in E. simplify_eq. eauto.
  - unfold mmu_unmap_user_range in E. case_decide; [simplify_eq; eauto|].
    destruct (unmap_pages_spec st l0 T va 0 (Z.to_nat pages)) as (st2 & E' & [Hwf' Hf _ _]);
      try done; try (unfold PAGE_SIZE in *; lia).
    rewrite E' in E. simpl in E. simplify_eq. exists T. split; [by apply wf_invalidate|].
    unfold pt_others, invalidate_user_span. case_decide; simpl; by rewrite Hf.
  - unfold mmu_protect_user_range in E. case_decide; [simplify_eq; eauto|].
    destruct (protect_pages_spec st l0 T va flags 0 0 (Z.to_nat pages)) as (st2 & E' & [Hwf' Hf _ _]);
      try done; try (unfold PAGE_SIZE in *; lia).
    rewrite E' in E. simpl in E. simplify_eq. exists T. split; [by apply wf_invalidate|].
    unfold pt_others, invalidate_user_span. case_decide; simpl; by rewrite Hf.
Qed.

(** C10. No address space leaks or steals a page: after
    [mmu_create_user_tables] and any sequence of maps (also ones that ran out
    of memory), unmaps and re-protects, [mmu_free_user_tables] does not fault
    and the page allocator has exactly the frames out that it had before the
    address space was created. *)
Theorem address_space_lifecycle st l0 st1 st2 :
  pa_inv (frames st) → mmu_on st = true → mmu_create_user_tables st = Some (l0, st1) → l0 ≠ 0 →
  rtc (pt_step l0) st1 st2 →
  ∃ st3, mmu_free_user_tables st2 l0 = Some st3 ∧ pa_inv (frames st3) ∧
    pa_frames (frames st3) = pa_frames (frames st).
Proof.
  intros Hi Hon E Hne Hsteps. destruct (create_spec st Hi Hon) as (l0' & st1' & E' & Hc).
  rewrite E in E'. simplify_eq. destruct Hc as [?|[Hwf Ho]]; [done|].
  assert (∃ T, pt_wf st2 l0' T ∧ pt_others st2 T = pa_frames (frames st)) as (T & Hwf2 & Ho2).
  { clear E. revert Hwf Ho. generalize ({[ [] := l0' ]} : tree). induction Hsteps as [|st1' st2 st3 Hst _ IH];
      intros T Hwf Ho; [by exists T|].
    destruct (pt_step_wf _ _ _ T Hst Hwf) as (T' & Hwf' & Ho'). apply (IH T'); [done|congruence]. }
  destruct (mmu_free_spec st2 l0' T Hwf2) as (st3 & -> & Hi3 & Hf3). exists st3. split; [done|]. split; [done|].
  by rewrite Hf3, <- Ho2.
Qed.

(** C17. The TLB maintenance of unmap and mprotect: for a page-aligned range
    of [pages] pages the [tlbi vae1] operands are exactly the page numbers
    [va/4096 + 512 j] below the end of the range.  An operand names one 4 KiB
    page, so of up to 512 unmapped pages only the first is invalidated. *)
Theorem invalidate_user_span_operands st va pages :
  user_range va pages → 0 < pages →
  tlbi_log (invalidate_user_span st va pages) =
    tlbi_log st ++ ((λ j, va / PAGE_SIZE + 512 * j) <$> seqZ 0 ((pages + 511) / 512)).
Proof.
  intros (H1 & H2 & H3 & H4) Hp. unfold invalidate_user_span. rewrite decide_False by lia. simpl. f_equal.
  assert (0 ≤ va + pages * PAGE_SIZE < 2 ^ 63) as Hr by (unfold PAGE_SIZE in *; lia).
  assert (PAGE_ALIGN_DOWN va = va) as ->.
  { unfold PAGE_ALIGN_DOWN, PAGE_SIZE in *. change 4096 with (2 ^ 12). rewrite land_not_low;
      [|lia|unfold is_u64; lia]. change (2 ^ 12) with 4096. lia. }
  assert (PAGE_ALIGN_UP (va +w pages *w PAGE_SIZE) = va + pages * PAGE_SIZE) as ->.
  { unfold PAGE_ALIGN_UP, PAGE_SIZE in *. cint. change 4096 with (2 ^ 12). rewrite land_not_low;
      [|lia|unfold is_u64; lia]. change (2 ^ 12) with 4096. dlia. }
  rewrite span_operands_spec; [|done|unfold _2MB, PAGE_SIZE in *; lia|unfold _2MB, PAGE_SIZE in *; dlia].
  rewrite decide_True by (unfold PAGE_SIZE; lia).
  replace ((va + pages * PAGE_SIZE - va + _2MB - 1) / _2MB) with ((pages + 511) / 512)
    by (unfold _2MB, PAGE_SIZE; dlia).
  apply list_fmap_ext. intros i j _. unfold _2MB, PAGE_SIZE in *. dlia.
Qed.
End Lifecycle.

(** ** Witnesses: an address space over the bitmap allocator *)

Definition demo_start : pt pmm := mk_pt demo_pages ∅ true [].

Definition demo_space : pt pmm := from_option snd demo_start (mmu_create_user_tables demo_start).
Definition demo_l0 : Z := from_option fst 0 (mmu_create_user_tables demo_start).

Lemma demo_l0_eq : demo_l0 = 0x40003000.
Proof. vm_compute. reflexivity. Qed.

Lemma demo_create : mmu_create_user_tables demo_start = Some (demo_l0, demo_space).
Proof.
  destruct (create_spec demo_start demo_pages_inv eq_refl) as (l0 & st & E & _).
  unfold demo_l0, demo_space. rewrite E. reflexivity.
Qed.

Lemma demo_space_wf : pt_wf demo_space demo_l0 {[ [] := demo_l0 ]}.
Proof.
  destruct (create_spec demo_start demo_pages_inv eq_refl) as (l0 & st & E & H).
  pose proof demo_l0_eq as Hl0. unfold demo_l0, demo_space in *. rewrite E in *.
  cbn [from_option fst snd] in *. destruct H as [H|[H _]]; [exfalso; lia|exact H].
Qed.

Lemma demo_range : user_range 0x400000 2.
Proof. unfold user_range, PAGE_SIZE. split_and!; (reflexivity || lia). Qed.

Lemma mmu_map_user_range_correct_witness :
  pt_wf demo_space demo_l0 {[ [] := demo_l0 ]} ∧
  (∃ st' T', mmu_map_user_range demo_space demo_l0 0x400000 0x40200000 2 64 = Some st' ∧ pt_wf st' demo_l0 T') ∧
  (st' ← mmu_map_user_range demo_space demo_l0 0x400000 0x40200000 2 64; hw_pte st' demo_l0 0x401008)
    = Some (page_desc 0x40201000 64).
Proof.
  split; [exact demo_space_wf|]. split.
  - destruct (mmu_map_user_range_correct demo_space demo_l0 _ 0x400000 0x40200000 2 64
      demo_space_wf demo_range) as (st' & T' & k & E & Hwf & _); [lia|unfold PAGE_SIZE; lia|].
    exists st', T'. split; [exact E|exact Hwf].
  - vm_compute. reflexivity.
Defined.

Lemma address_space_lifecycle_witness :
  pa_inv demo_pages ∧ mmu_create_user_tables demo_start = Some (demo_l0, demo_space) ∧
  ∃ st2 st3, mmu_map_user_range demo_space demo_l0 0x400000 0x40200000 2 64 = Some st2 ∧
    mmu_free_user_tables st2 demo_l0 = Some st3 ∧ pa_frames (frames st3) = pa_frames demo_pages.
Proof.
  split; [exact demo_pages_inv|]. split; [exact demo_create|].
  assert (demo_l0 ≠ 0) as Hne by (rewrite demo_l0_eq; lia).
  destruct (map_loop_spec demo_space demo_l0 _ 0x400000 0x40200000 64 0 2 demo_space_wf)
    as (st2 & T' & k & E & _); [reflexivity|lia|lia|unfold PAGE_SIZE; lia|lia|unfold PAGE_SIZE; lia|].
  destruct (address_space_lifecycle demo_start demo_l0 demo_space st2) as (st3 & E3 & _ & Hf).
  - exact demo_pages_inv.
  - reflexivity.
  - exact demo_create.
  - exact Hne.
  - apply rtc_once. apply (ps_map demo_l0 demo_space st2 0x400000 0x40200000 2 64);
      [exact demo_range|lia|unfold PAGE_SIZE; lia|exact E].
  - exists st2, st3. split; [exact E|]. split; [exact E3|exact Hf].
Defined.

Lemma invalidate_user_span_operands_witness :
  user_range 0x400000 2 ∧ tlbi_log (invalidate_user_span demo_start 0x400000 2) = [0x400].
Proof.
  split; [exact demo_range|].
  rewrite (invalidate_user_span_operands demo_start 0x400000 2 demo_range) by lia. reflexivity.
Defined.
