(* ===== verification/Elf.v ===== *)
(** The ELF loader of [src/src/syscall/elf.c].

    [elf_load] checks a file, takes pages for each PT_LOAD segment, fills them
    and maps them into a user address space.  The file is a list of bytes, read
    with its bounds; physical memory is a map from byte addresses to bytes; the
    page tables and the page allocator are those of [Mmu] and [PageAlloc];
    [None] is a fault.  CTR_EL0, the register with the cache line sizes, is a
    parameter, and the cache maintenance operations are logged.

    The reference definition is [image_byte]: what the file says a byte of a
    segment is. *)
From S2P Require Import Prelude Pmm PageAlloc Mmu.

Definition MAX_PHNUM : Z := 32.
Definition ELF_MAX_REGIONS : nat := 4.
Definition ET_EXEC : Z := 2.
Definition EM_AARCH64 : Z := 0xB7.
Definition ELFCLASS64 : Z := 2.
Definition ELFDATA2LSB : Z := 1.
Definition EV_CURRENT : Z := 1.
Definition PT_LOAD : Z := 1.
Definition PF_X : Z := 1.
Definition PF_W : Z := 2.
Definition PF_R : Z := 4.
Definition SIZEOF_EHDR : Z := 64.
Definition SIZEOF_PHDR : Z := 56.

Record Elf64_Ehdr := mk_ehdr {
  e_ident : list Z;
  e_type : Z;
  e_machine : Z;
  e_entry : Z;
  e_phoff : Z;
  e_phentsize : Z;
  e_phnum : Z;
}.

Record Elf64_Phdr := mk_phdr {
  p_type : Z;
  p_flags : Z;
  p_offset : Z;
  p_vaddr : Z;
  p_filesz : Z;
  p_memsz : Z;
}.

Record elf_region := mk_region { r_phys : Z; r_pages : Z; r_va : Z; r_flags : Z }.

(** [regions] holds the valid entries; [region_count] is its length. *)
Record elf_image := mk_image {
  i_entry : Z;
  i_regions : list elf_region;
  i_phdr_va : Z;
  i_phentsize : Z;
  i_phnum : Z;
}.

(** ** Reading the file *)

Definition bytes_at (b : list Z) (off n : Z) : option (list Z) :=
  if decide (0 ≤ off ∧ off + n ≤ Z.of_nat (length b)) then Some (slice b off n) else None.

Definition rd (b : list Z) (off n : Z) : option Z := le_value <$> bytes_at b off n.

Definition read_ehdr (b : list Z) : option Elf64_Ehdr :=
  id ← bytes_at b 0 16;
  ty ← rd b 16 2;
  mach ← rd b 18 2;
  entry ← rd b 24 8;
  phoff ← rd b 32 8;
  phentsize ← rd b 54 2;
  phnum ← rd b 56 2;
  Some (mk_ehdr id ty mach entry phoff phentsize phnum).

(** [&phs[i]] *)
Definition read_phdr (b : list Z) (phoff i : Z) : option Elf64_Phdr :=
  let o := phoff + i * SIZEOF_PHDR in
  ty ← rd b o 4;
  fl ← rd b (o + 4) 4;
  off ← rd b (o + 8) 8;
  va ← rd b (o + 16) 8;
  fsz ← rd b (o + 32) 8;
  msz ← rd b (o + 40) 8;
  Some (mk_phdr ty fl off va fsz msz).

(** Checks 1 to 3 of [elf_load]. *)
Definition header_ok (eh : Elf64_Ehdr) (size : Z) : bool :=
  if decide (take 4 (e_ident eh) ≠ [0x7F; 69; 76; 70]) then false
  else if decide (e_ident eh !! 4%nat ≠ Some ELFCLASS64) then false
  else if decide (e_ident eh !! 5%nat ≠ Some ELFDATA2LSB) then false
  else if decide (e_ident eh !! 6%nat ≠ Some EV_CURRENT) then false
  else if decide (e_type eh ≠ ET_EXEC) then false
  else if decide (e_machine eh ≠ EM_AARCH64) then false
  else if decide (e_phentsize eh ≠ SIZEOF_PHDR) then false
  else if decide (e_phnum eh = 0 ∨ MAX_PHNUM < e_phnum eh) then false
  else if decide (size < e_phoff eh ∨ size < e_phoff eh +w e_phnum eh *w SIZEOF_PHDR) then false
  else true.

(** ** Permissions *)

Definition elf_pflags_to_pte (pf : Z) : Z :=
  let f := Z.lor (PTE_ATTRIDX 1) PTE_PXN in
  let f := if decide (Z.land pf PF_W ≠ 0) then Z.lor f PTE_AP_RW_EL0 else Z.lor f PTE_AP_RO_EL0 in
  if decide (Z.land pf PF_X = 0) then Z.lor f PTE_UXN else f.

Definition parse_flags (pf : Z) : option Z :=
  let f := Z.lor (PTE_ATTRIDX 1) PTE_PXN in
  let f := if decide (Z.land pf PF_W ≠ 0) then Z.lor f PTE_AP_RW_EL0 else Z.lor f PTE_AP_RO_EL0 in
  let f := if decide (Z.land pf PF_X = 0) then Z.lor f PTE_UXN else f in
  if decide (Z.land pf PF_W ≠ 0 ∧ Z.land pf PF_X ≠ 0) then None
  else if decide (Z.land pf PF_R = 0) then None
  else Some f.

(** ** Cache maintenance *)

(** The operands of one [for] loop over cache lines. *)
Fixpoint cache_ops (p en line : Z) (fuel : nat) : option (list Z) :=
  match fuel with
  | O => None
  | S f => if decide (p < en) then ops ← cache_ops (p +w line) en line f; Some (p :: ops) else Some []
  end.

(** The [dc cvau] and [ic ivau] operands. *)
Definition cpu_sync_icache (ctr va size : Z) : option (list Z * list Z) :=
  if decide (size = 0) then Some ([], [])
  else
    let i_line := shl64 4 (Z.land ctr 0xF) in
    let d_line := shl64 4 (Z.land (Z.shiftr ctr 16) 0xF) in
    let en := va +w size in
    dc ← cache_ops (Z.land va (not64 (d_line -w 1))) en d_line (Z.to_nat (size / d_line + 3));
    ic ← cache_ops (Z.land va (not64 (i_line -w 1))) en i_line (Z.to_nat (size / i_line + 3));
    Some (dc, ic).

Record ldst (S : Type) := mk_ldst { ld_pt : pt S; ld_ram : gmap Z Z; ld_dc : list Z; ld_ic : list Z }.
Arguments mk_ldst {S}.
Arguments ld_pt {S}.
Arguments ld_ram {S}.
Arguments ld_dc {S}.
Arguments ld_ic {S}.

Section Ops.
Context {S : Type} `{!PageAllocator S}.
Implicit Types st : ldst S.

Definition with_frames st (s : S) : ldst S :=
  mk_ldst (mk_pt s (tabs (ld_pt st)) (mmu_on (ld_pt st)) (tlbi_log (ld_pt st))) (ld_ram st) (ld_dc st) (ld_ic st).

Fixpoint free_loop (s : S) (rs : list elf_region) : option S :=
  match rs with
  | [] => Some s
  | r :: rs' =>
      s' ← (if decide (r_phys r ≠ 0 ∧ r_pages r ≠ 0) then pa_free_pages s (r_phys r) (r_pages r) else Some s);
      free_loop s' rs'
  end.

(** [free_regions(out)], then [return -1]. *)
Definition free_regions st (img : elf_image) : option (Z * (elf_image * ldst S)) :=
  s ← free_loop (frames (ld_pt st)) (i_regions img);
  Some (-1, (mk_image (i_entry img) [] (i_phdr_va img) (i_phentsize img) (i_phnum img), with_frames st s)).

(** The checks a segment must pass before pages are taken for it: its flags. *)
Definition segment_flags (ph : Elf64_Phdr) (size : Z) (count : nat) : option Z :=
  if decide (p_memsz ph < p_filesz ph) then None
  else if decide (size < p_offset ph +w p_filesz ph ∨ p_offset ph +w p_filesz ph < p_offset ph) then None
  else if decide (USER_STACK_TOP ≤ p_vaddr ph ∨ USER_STACK_TOP < p_vaddr ph +w p_memsz ph ∨
                  p_vaddr ph +w p_memsz ph < p_vaddr ph) then None
  else if decide (ELF_MAX_REGIONS ≤ count)%nat then None
  else parse_flags (p_flags ph).

Definition va_lo (ph : Elf64_Phdr) : Z := Z.land (p_vaddr ph) (not64 (PAGE_SIZE - 1)).
Definition va_hi (ph : Elf64_Phdr) : Z :=
  Z.land (p_vaddr ph +w p_memsz ph +w PAGE_SIZE -w 1) (not64 (PAGE_SIZE - 1)).

(** One PT_LOAD segment: 0 when it was loaded. *)
Definition load_segment (ctr : Z) (kbuf : list Z) (size l0 : Z) (ph : Elf64_Phdr) (img : elf_image) st :
    option (Z * (elf_image * ldst S)) :=
  match segment_flags ph size (length (i_regions img)) with
  | None => free_regions st img
  | Some pte_flags =>
      let pages := (va_hi ph -w va_lo ph) / PAGE_SIZE in
      '(phys, s) ← pa_alloc_pages (frames (ld_pt st)) pages;
      let st := with_frames st s in
      if decide (phys = 0) then free_regions st img
      else
        let kva := PHYS_TO_VIRT phys in
        let ram := mem_write (ld_ram st) phys (replicate (Z.to_nat (pages *w PAGE_SIZE)) 0) in
        ram ← (if decide (0 < p_filesz ph) then
                 let intra := p_vaddr ph -w va_lo ph in
                 bs ← bytes_at kbuf (p_offset ph) (p_filesz ph);
                 Some (mem_write ram (phys +w intra) bs)
               else Some ram);
        '(dc, ic) ← (if decide (Z.land (p_flags ph) PF_X ≠ 0) then cpu_sync_icache ctr kva (pages *w PAGE_SIZE)
                     else Some ([], []));
        t ← mmu_map_user_range (ld_pt st) l0 (va_lo ph) phys pages pte_flags;
        let r := mk_region phys pages (va_lo ph) (p_flags ph) in
        Some (0, (mk_image (i_entry img) (i_regions img ++ [r]) (i_phdr_va img) (i_phentsize img) (i_phnum img),
                  mk_ldst t ram (ld_dc st ++ dc) (ld_ic st ++ ic)))
  end.

(** [n] iterations of the segment loop from [i]. *)
Fixpoint load_loop (ctr : Z) (kbuf : list Z) (size l0 phoff i : Z) (n : nat) (img : elf_image) st :
    option (Z * (elf_image * ldst S)) :=
  match n with
  | O => Some (0, (img, st))
  | Datatypes.S n' =>
      ph ← read_phdr kbuf phoff i;
      if decide (p_type ph ≠ PT_LOAD) then load_loop ctr kbuf size l0 phoff (i + 1) n' img st
      else
        '(r, (img', st')) ← load_segment ctr kbuf size l0 ph img st;
        if decide (r ≠ 0) then Some (r, (img', st'))
        else load_loop ctr kbuf size l0 phoff (i + 1) n' img' st'
  end.

(** The virtual address of the program-header table, 0 when no segment covers it. *)
Fixpoint find_phdr_va (kbuf : list Z) (phoff tbl_end i : Z) (n : nat) : option Z :=
  match n with
  | O => Some 0
  | Datatypes.S n' =>
      ph ← read_phdr kbuf phoff i;
      if decide (p_type ph ≠ PT_LOAD) then find_phdr_va kbuf phoff tbl_end (i + 1) n'
      else if decide (p_offset ph ≤ phoff ∧ tbl_end ≤ p_offset ph +w p_filesz ph)
           then Some (p_vaddr ph +w (phoff -w p_offset ph))
           else find_phdr_va kbuf phoff tbl_end (i + 1) n'
  end.

Fixpoint entry_ok (kbuf : list Z) (phoff entry i : Z) (n : nat) : option bool :=
  match n with
  | O => Some false
  | Datatypes.S n' =>
      ph ← read_phdr kbuf phoff i;
      if decide (p_type ph ≠ PT_LOAD) then entry_ok kbuf phoff entry (i + 1) n'
      else if decide (p_vaddr ph ≤ entry ∧ entry < p_vaddr ph +w p_memsz ph ∧ Z.land (p_flags ph) PF_X ≠ 0)
           then Some true
           else entry_ok kbuf phoff entry (i + 1) n'
  end.

Definition elf_load (ctr : Z) (kbuf : list Z) (size l0 : Z) (out : elf_image) st : option (Z * (elf_image * ldst S)) :=
  if decide (size < SIZEOF_EHDR) then Some (-1, (out, st))
  else
    eh ← read_ehdr kbuf;
    if negb (header_ok eh size) then Some (-1, (out, st))
    else
      let n := Z.to_nat (e_phnum eh) in
      let img := mk_image (e_entry eh) [] 0 (e_phentsize eh) (e_phnum eh) in
      '(r, (img, st)) ← load_loop ctr kbuf size l0 (e_phoff eh) 0 n img st;
      if decide (r ≠ 0) then Some (r, (img, st))
      else if decide (i_regions img = []) then Some (-1, (img, st))
      else
        let tbl_end := e_phoff eh +w e_phnum eh *w SIZEOF_PHDR in
        phdr ← (if decide (i_phentsize img = SIZEOF_PHDR) then find_phdr_va kbuf (e_phoff eh) tbl_end 0 n else Some 0);
        let img := mk_image (i_entry img) (i_regions img) phdr (i_phentsize img) (i_phnum img) in
        ok ← entry_ok kbuf (e_phoff eh) (e_entry eh) 0 n;
        if (ok : bool) then Some (0, (img, st)) else free_regions st img.
End Ops.

(** ** Reading *)

Lemma bytes_at_ok b off n : 0 ≤ off → off + n ≤ Z.of_nat (length b) → bytes_at b off n = Some (slice b off n).
Proof. intros. unfold bytes_at. by rewrite decide_True by lia. Qed.

Lemma file_slice_length b off n : 0 ≤ off → 0 ≤ n → off + n ≤ Z.of_nat (length b) → length (slice b off n) = Z.to_nat n.
Proof. intros. unfold slice. rewrite length_take, length_drop. lia. Qed.

Lemma file_slice_lookup b off n j :
  0 ≤ off → 0 ≤ j < n → off + n ≤ Z.of_nat (length b) → slice b off n !! Z.to_nat j = b !! Z.to_nat (off + j).
Proof. intros. unfold slice. rewrite lookup_take_lt, lookup_drop by lia. f_equal. lia. Qed.

Lemma rd_ok b off n :
  Forall is_byte b → 0 ≤ off → 0 ≤ n → off + n ≤ Z.of_nat (length b) → ∃ v, rd b off n = Some v ∧ 0 ≤ v < 256 ^ n.
Proof.
  intros Hb Ho Hn Hl. unfold rd. rewrite bytes_at_ok by lia. eexists. split; [done|].
  pose proof (le_value_range (slice b off n)) as Hr. rewrite file_slice_length, Z2Nat.id in Hr by lia. apply Hr.
  unfold slice. by apply Forall_take, Forall_drop.
Qed.

Definition phdr_u (ph : Elf64_Phdr) : Prop :=
  is_u32 (p_flags ph) ∧ is_u64 (p_offset ph) ∧ is_u64 (p_vaddr ph) ∧ is_u64 (p_filesz ph) ∧ is_u64 (p_memsz ph).

Lemma read_phdr_ok b phoff i :
  Forall is_byte b → 0 ≤ phoff → 0 ≤ i → phoff + (i + 1) * SIZEOF_PHDR ≤ Z.of_nat (length b) →
  ∃ ph, read_phdr b phoff i = Some ph ∧ phdr_u ph.
Proof.
  unfold SIZEOF_PHDR. intros Hb Hp Hi Hl. unfold read_phdr, SIZEOF_PHDR.
  destruct (rd_ok b (phoff + i * 56) 4) as (v1 & -> & _); [done|lia..|].
  destruct (rd_ok b (phoff + i * 56 + 4) 4) as (v2 & -> & ?); [done|lia..|].
  destruct (rd_ok b (phoff + i * 56 + 8) 8) as (v3 & -> & ?); [done|lia..|].
  destruct (rd_ok b (phoff + i * 56 + 16) 8) as (v4 & -> & ?); [done|lia..|].
  destruct (rd_ok b (phoff + i * 56 + 32) 8) as (v5 & -> & ?); [done|lia..|].
  destruct (rd_ok b (phoff + i * 56 + 40) 8) as (v6 & -> & ?); [done|lia..|].
  eexists. split; [done|]. unfold phdr_u, is_u32, is_u64. cbn. lia.
Qed.

Lemma read_ehdr_ok b :
  Forall is_byte b → SIZEOF_EHDR ≤ Z.of_nat (length b) →
  ∃ eh, read_ehdr b = Some eh ∧ is_u64 (e_phoff eh) ∧ is_u64 (e_entry eh) ∧ 0 ≤ e_phnum eh < 2 ^ 16.
Proof.
  unfold SIZEOF_EHDR. intros Hb Hl. unfold read_ehdr. rewrite bytes_at_ok by lia. cbn [mbind option_bind].
  destruct (rd_ok b 16 2) as (v1 & -> & _); [done|lia..|]. destruct (rd_ok b 18 2) as (v2 & -> & _); [done|lia..|].
  destruct (rd_ok b 24 8) as (v3 & -> & ?); [done|lia..|]. destruct (rd_ok b 32 8) as (v4 & -> & ?); [done|lia..|].
  destruct (rd_ok b 54 2) as (v5 & -> & _); [done|lia..|]. destruct (rd_ok b 56 2) as (v6 & -> & ?); [done|lia..|].
  eexists. split; [done|]. unfold is_u64. cbn. lia.
Qed.

(** ** Permissions: the two translations agree, and W excludes X *)

Lemma parse_flags_spec pf :
  parse_flags pf = if decide (Z.testbit pf 2 = true ∧ ¬ (Z.testbit pf 1 = true ∧ Z.testbit pf 0 = true))
                   then Some (elf_pflags_to_pte pf) else None.
Proof.
  pose proof (land_pow2_testbit pf 0 ltac:(lia)) as H0. pose proof (land_pow2_testbit pf 1 ltac:(lia)) as H1.
  pose proof (land_pow2_testbit pf 2 ltac:(lia)) as H2.
  change (2 ^ 0) with PF_X in H0. change (2 ^ 1) with PF_W in H1. change (2 ^ 2) with 4 in H2.
  unfold parse_flags, elf_pflags_to_pte, PF_R. cbv zeta.
  destruct (decide (Z.land pf PF_W ≠ 0 ∧ Z.land pf PF_X ≠ 0)) as [Hwx|Hwx];
    [|destruct (decide (Z.land pf 4 = 0)) as [Hr|Hr]];
    match goal with |- _ = (if ?d then _ else _) => destruct d end; try done; exfalso; tauto.
Qed.

Lemma pflags_rights pf :
  el0_write (elf_pflags_to_pte pf) = Z.testbit pf 1 ∧ el0_read (elf_pflags_to_pte pf) = true ∧
  el0_exec (elf_pflags_to_pte pf) = Z.testbit pf 0 ∧ el1_exec (elf_pflags_to_pte pf) = false.
Proof.
  pose proof (land_pow2_testbit pf 0 ltac:(lia)) as H0. pose proof (land_pow2_testbit pf 1 ltac:(lia)) as H1.
  change (2 ^ 0) with PF_X in H0. change (2 ^ 1) with PF_W in H1. unfold elf_pflags_to_pte.
  destruct (Z.testbit pf 0), (Z.testbit pf 1); repeat case_decide; try (exfalso; intuition congruence); by vm_compute.
Qed.

(** ** Cache maintenance *)

Lemma cache_ops_spec p en line fuel :
  0 ≤ p → 0 < line → en + line < 2 ^ 64 → en - p ≤ (Z.of_nat fuel - 1) * line → (0 < fuel)%nat →
  ∃ ops, cache_ops p en line fuel = Some ops ∧
    ∀ x, p ≤ x < en → ∃ j, 0 ≤ j ∧ p + j * line ∈ ops ∧ p + j * line ≤ x < p + (j + 1) * line.
Proof.
  intros Hp Hl Hen. revert p Hp. induction fuel as [|f IH]; intros p Hp Hf H0; [lia|]. cbn [cache_ops].
  case_decide as Hlt; [|exists []; split; [done|lia]]. rewrite add64_small by lia.
  destruct (IH (p + line)) as (ops & -> & Hops); [lia|lia|nia|]. eexists. split; [done|]. intros x Hx.
  destruct (decide (x < p + line)) as [Hn|Hn].
  - exists 0. split; [done|]. split; [|lia]. apply elem_of_cons. left. lia.
  - destruct (Hops x) as (j & Hj & Hin & Hjx); [lia|]. exists (j + 1). split; [lia|].
    replace (p + (j + 1) * line) with (p + line + j * line) by lia. split; [by apply elem_of_cons; right|lia].
Qed.

(** A power-of-two line size read from CTR_EL0. *)
Definition line_size (field : Z) : Z := 2 ^ (2 + field).

Lemma line_ops_spec va size k :
  0 ≤ k < 16 → 0 ≤ va → 0 < size → va + size + 2 ^ 18 < 2 ^ 64 →
  ∃ ops, cache_ops (Z.land va (not64 (shl64 4 k -w 1))) (va +w size) (shl64 4 k) (Z.to_nat (size / shl64 4 k + 3)) = Some ops ∧
    ∀ x, va ≤ x < va + size → ∃ q, q ∈ ops ∧ q mod line_size k = 0 ∧ q ≤ x < q + line_size k.
Proof.
  intros Hk Hva Hs Hb. assert (line_size k = 2 ^ (2 + k)) as El by done.
  assert (4 ≤ line_size k ≤ 2 ^ 17) as Hl.
  { rewrite El. split; [change 4 with (2 ^ 2)|]; apply Z.pow_le_mono_r; lia. }
  assert (shl64 4 k = line_size k) as ->.
  { unfold shl64. rewrite Z.shiftl_mul_pow2 by lia. rewrite wrap64_small; rewrite El, Z.pow_add_r in *; lia. }
  rewrite (sub64_small (line_size k)), (add64_small va) by lia.
  assert (Z.land va (not64 (line_size k - 1)) = va / line_size k * line_size k) as ->.
  { rewrite El, land_not_low by (unfold is_u64; lia). pose proof (Z.div_mod va (2 ^ (2 + k))). lia. }
  set (L := line_size k) in *. set (p := va / L * L).
  pose proof (Z.div_mod va L ltac:(lia)) as Hdm. pose proof (Z.mod_pos_bound va L ltac:(lia)) as Hm.
  pose proof (Z.div_mod size L ltac:(lia)) as Hds. pose proof (Z.mod_pos_bound size L ltac:(lia)) as Hms.
  pose proof (Z.div_pos size L ltac:(lia) ltac:(lia)). assert (va - L < p ≤ va) as Hp by (unfold p; lia).
  destruct (cache_ops_spec p (va + size) L (Z.to_nat (size / L + 3))) as (ops & E & Hops).
  - unfold p. pose proof (Z.div_pos va L ltac:(lia) ltac:(lia)). nia.
  - lia.
  - lia.
  - rewrite Z2Nat.id by lia. nia.
  - lia.
  - exists ops. split; [exact E|]. intros x Hx. destruct (Hops x) as (j & Hj & Hin & Hjx); [lia|].
    exists (p + j * L). split; [done|]. split; [|lia]. unfold p. rewrite <- Z.mul_add_distr_r. apply Z.mod_mul. lia.
Qed.

Definition dc_line (ctr : Z) : Z := line_size (Z.land (Z.shiftr ctr 16) 0xF).
Definition ic_line (ctr : Z) : Z := line_size (Z.land ctr 0xF).

(** Every byte of the range lies in a line that is cleaned and in one that is
    invalidated. *)
Definition synced (ctr : Z) (dc ic : list Z) (va size : Z) : Prop :=
  ∀ x, va ≤ x < va + size →
    (∃ q, q ∈ dc ∧ q mod dc_line ctr = 0 ∧ q ≤ x < q + dc_line ctr) ∧
    ∃ q, q ∈ ic ∧ q mod ic_line ctr = 0 ∧ q ≤ x < q + ic_line ctr.

Lemma cpu_sync_icache_spec ctr va size :
  0 ≤ va → 0 ≤ size → va + size + 2 ^ 18 < 2 ^ 64 →
  ∃ dc ic, cpu_sync_icache ctr va size = Some (dc, ic) ∧ synced ctr dc ic va size.
Proof.
  intros Hva Hs Hb. unfold cpu_sync_icache. case_decide as H0; [exists [], []; split; [done|]; intros x; lia|].
  assert (∀ y, 0 ≤ Z.land y 0xF < 16) as Hnib.
  { intros y. change 0xF with (Z.ones 4). rewrite Z.land_ones by lia. by apply Z.mod_pos_bound. }
  destruct (line_ops_spec va size (Z.land (Z.shiftr ctr 16) 0xF)) as (dc & -> & Hdc); [done|lia..|]. cbn [mbind option_bind].
  destruct (line_ops_spec va size (Z.land ctr 0xF)) as (ic & -> & Hic); [done|lia..|]. cbn [mbind option_bind].
  exists dc, ic. split; [done|]. intros x Hx. split; [by apply Hdc|by apply Hic].
Qed.

(** ** Segments *)

(** The pages a segment spans. *)
Definition seg_va (ph : Elf64_Phdr) : Z := p_vaddr ph / PAGE_SIZE * PAGE_SIZE.
Definition seg_pages (ph : Elf64_Phdr) : Z := (p_vaddr ph + p_memsz ph + PAGE_SIZE - 1) / PAGE_SIZE - p_vaddr ph / PAGE_SIZE.

(** What the file says about the byte at address [a] of a segment: file bytes,
    then zeros; the rest of its first and last page is zero too. *)
Definition image_byte (kbuf : list Z) (ph : Elf64_Phdr) (a : Z) : Z :=
  if decide (p_vaddr ph ≤ a < p_vaddr ph + p_filesz ph)
  then default 0 (kbuf !! Z.to_nat (p_offset ph + (a - p_vaddr ph))) else 0.

Definition seg_valid (kbuf : list Z) (ph : Elf64_Phdr) : Prop :=
  0 ≤ p_vaddr ph ∧ 0 ≤ p_offset ph ∧ 0 ≤ p_filesz ph ≤ p_memsz ph ∧
  p_offset ph + p_filesz ph ≤ Z.of_nat (length kbuf) ∧ p_vaddr ph + p_memsz ph ≤ USER_STACK_TOP ∧
  Z.testbit (p_flags ph) 2 = true ∧ ¬ (Z.testbit (p_flags ph) 1 = true ∧ Z.testbit (p_flags ph) 0 = true).

Lemma add64_nowrap a b : is_u64 a → is_u64 b → a ≤ a +w b → a +w b = a + b.
Proof.
  unfold is_u64, add64, wrap64. intros Ha Hb Hle. destruct (decide (a + b < 2 ^ 64)); [by rewrite Z.mod_small by lia|].
  exfalso. rewrite <- (Z.mod_add _ (-1)), Z.mod_small in Hle by lia. lia.
Qed.

Lemma segment_flags_spec kbuf ph cnt f :
  phdr_u ph → segment_flags ph (Z.of_nat (length kbuf)) cnt = Some f →
  seg_valid kbuf ph ∧ (cnt < ELF_MAX_REGIONS)%nat ∧ f = elf_pflags_to_pte (p_flags ph).
Proof.
  intros (H1 & H2 & H3 & H4 & H5). unfold segment_flags. case_decide as Hfm; [done|]. case_decide as Hoff; [done|].
  case_decide as Hva; [done|]. case_decide; [done|]. rewrite parse_flags_spec. case_decide as Hpf; [|done]. intros [= <-].
  rewrite !add64_nowrap in Hoff by (done || lia). rewrite !add64_nowrap in Hva by (done || lia).
  unfold seg_valid, is_u64 in *. split; [|split; [lia|done]]. split_and!; try lia; apply Hpf.
Qed.

Lemma seg_arith kbuf ph :
  seg_valid kbuf ph →
  va_lo ph = seg_va ph ∧ (va_hi ph -w va_lo ph) / PAGE_SIZE = seg_pages ph ∧ 0 ≤ seg_pages ph ≤ 2048 ∧
  0 ≤ seg_va ph ∧ seg_va ph mod PAGE_SIZE = 0 ∧ seg_va ph ≤ p_vaddr ph ∧
  p_vaddr ph + p_memsz ph ≤ seg_va ph + seg_pages ph * PAGE_SIZE ≤ USER_STACK_TOP.
Proof.
  intros (H1 & H2 & H3 & H4 & H5 & _). unfold va_lo, va_hi, seg_va, seg_pages, USER_STACK_TOP, PAGE_SIZE in *.
  change (4096 - 1) with (2 ^ 12 - 1). rewrite (add64_small (p_vaddr ph)) by lia. rewrite add64_small by lia.
  rewrite (sub64_small (_ + 4096)) by lia. rewrite !land_not_low by (unfold is_u64; lia). change (2 ^ 12) with 4096.
  rewrite sub64_small by dlia. split_and!; dlia.
Qed.

(** Clearing the pages and copying the file bytes in gives the image. *)
Lemma fill_ram kbuf ph phys ram x :
  seg_valid kbuf ph →
  (let ram1 := mem_write ram phys (replicate (Z.to_nat (seg_pages ph * PAGE_SIZE)) 0) in
   if decide (0 < p_filesz ph)
   then mem_write ram1 (phys + (p_vaddr ph - seg_va ph)) (slice kbuf (p_offset ph) (p_filesz ph)) else ram1) !! x =
    if decide (phys ≤ x < phys + seg_pages ph * PAGE_SIZE)
    then Some (image_byte kbuf ph (seg_va ph + (x - phys))) else ram !! x.
Proof.
  intros Hv. destruct (seg_arith kbuf ph Hv) as (_ & _ & Hp & _ & _ & Hlo & Hhi & _).
  destruct Hv as (H1 & H2 & H3 & H4 & _). unfold image_byte. cbv zeta.
  assert (∀ x, mem_write ram phys (replicate (Z.to_nat (seg_pages ph * PAGE_SIZE)) 0) !! x =
    if decide (phys ≤ x < phys + seg_pages ph * PAGE_SIZE) then Some 0 else ram !! x) as Hz.
  { intros y. rewrite mem_write_lookup, length_replicate, Z2Nat.id by (unfold PAGE_SIZE; lia).
    case_decide as Hy; [|done]. apply lookup_replicate_2. lia. }
  destruct (decide (0 < p_filesz ph)) as [Hf|Hf].
  - rewrite mem_write_lookup, file_slice_length, Z2Nat.id, Hz by lia.
    destruct (decide (phys + (p_vaddr ph - seg_va ph) ≤ x < phys + (p_vaddr ph - seg_va ph) + p_filesz ph)) as [Hin|Hin].
    + rewrite !decide_True by lia. rewrite file_slice_lookup by lia.
      replace (p_offset ph + (seg_va ph + (x - phys) - p_vaddr ph)) with (p_offset ph + (x - (phys + (p_vaddr ph - seg_va ph)))) by lia.
      destruct (lookup_lt_is_Some_2 kbuf (Z.to_nat (p_offset ph + (x - (phys + (p_vaddr ph - seg_va ph)))))) as [b ->]; [lia|done].
    + case_decide; [|done]. by rewrite decide_False by lia.
  - rewrite Hz. case_decide; [|done]. by rewrite decide_False by lia.
Qed.

(** ** The loader's invariant *)

Record seg := mk_seg { s_ph : Elf64_Phdr; s_r : elf_region; s_k : Z }.

Definition seg_frames (sg : seg) : gset Z := pages_at (r_phys (s_r sg)) (r_pages (s_r sg)).

(** What the hardware finds after mapping segments (the last one first), each
    for its first [s_k] pages. *)
Fixpoint view (segs : list seg) (old : Z → option Z) (a : Z) : option Z :=
  match segs with
  | [] => old a
  | sg :: rest =>
      let va := r_va (s_r sg) in
      if decide (va ≤ a < va + s_k sg * PAGE_SIZE)
      then Some (page_desc (r_phys (s_r sg) + (a - va) / PAGE_SIZE * PAGE_SIZE) (elf_pflags_to_pte (p_flags (s_ph sg))))
      else view rest old a
  end.

Section Spec.
Context {S : Type} `{!PageAllocator S}.
Implicit Types (st : ldst S) (T : tree).

(** The allocator has no page left. *)
Definition starved (s : S) : Prop := pa_alloc_page s = Some (0, s).

Definition seg_ok (kbuf : list Z) (sg : seg) : Prop :=
  let '(mk_seg ph r k) := sg in
  p_type ph = PT_LOAD ∧ seg_valid kbuf ph ∧ r_va r = seg_va ph ∧ r_pages r = seg_pages ph ∧ r_flags r = p_flags ph ∧
  0 < r_pages r ∧ 0 < r_phys r ∧ r_phys r mod PAGE_SIZE = 0 ∧ r_phys r + r_pages r * PAGE_SIZE ≤ PHYS_LIMIT ∧
  0 ≤ k ≤ r_pages r.

Record loaded (ctr : Z) (kbuf : list Z) (l0 : Z) st0 T0 (segs : list seg) (rs : list elf_region) st T : Prop := {
  ld_wf : pt_wf (ld_pt st) l0 T;
  ld_regions : rs = s_r <$> reverse segs;
  ld_segs : Forall (seg_ok kbuf) segs;
  ld_frames : ∀ x, x ∈ pt_others (ld_pt st) T ↔ (∃ sg, sg ∈ segs ∧ x ∈ seg_frames sg) ∨ x ∈ pt_others (ld_pt st0) T0;
  ld_disj : pairwise (λ x y, seg_frames x ## seg_frames y) segs;
  ld_fresh : ∀ sg, sg ∈ segs → seg_frames sg ## pt_others (ld_pt st0) T0;
  ld_hw : ∀ a, 0 ≤ a < 2 ^ 48 → hw_pte (ld_pt st) l0 a = view segs (hw_pte (ld_pt st0) l0) a;
  ld_bytes : ∀ sg j, sg ∈ segs → 0 ≤ j < r_pages (s_r sg) * PAGE_SIZE →
    ld_ram st !! (r_phys (s_r sg) + j) = Some (image_byte kbuf (s_ph sg) (r_va (s_r sg) + j));
  ld_rest : ∀ x, (∀ sg, sg ∈ segs → ¬ (r_phys (s_r sg) ≤ x < r_phys (s_r sg) + r_pages (s_r sg) * PAGE_SIZE)) →
    ld_ram st !! x = ld_ram st0 !! x;
  ld_sync : ∀ sg, sg ∈ segs → Z.testbit (p_flags (s_ph sg)) 0 = true →
    synced ctr (ld_dc st) (ld_ic st) (PHYS_TO_VIRT (r_phys (s_r sg))) (r_pages (s_r sg) * PAGE_SIZE);
  ld_full : ∀ sg, sg ∈ segs → s_k sg = r_pages (s_r sg) ∨ starved (frames (ld_pt st));
  ld_tabs : ∀ q, q ∈ pt_others (ld_pt st0) T0 → tabs (ld_pt st) !! q = tabs (ld_pt st0) !! q;
}.

Lemma loaded_nil ctr kbuf l0 st T : pt_wf (ld_pt st) l0 T → loaded ctr kbuf l0 st T [] [] st T.
Proof.
  intros Hwf. constructor; try done.
  - intros x. split; [by right|]. intros [(sg & Hs & _)|?]; [by apply elem_of_nil in Hs|done].
  - intros sg Hs. by apply elem_of_nil in Hs.
  - intros sg j Hs. by apply elem_of_nil in Hs.
  - intros sg Hs. by apply elem_of_nil in Hs.
  - intros sg Hs. by apply elem_of_nil in Hs.
Qed.

(** Pages that were taken before, and are no tables of this tree, are as they were. *)
Definition kept st0 T0 st : Prop :=
  (∀ q, q ∈ pt_others (ld_pt st0) T0 → tabs (ld_pt st) !! q = tabs (ld_pt st0) !! q) ∧
  (∀ x, x / PAGE_SIZE * PAGE_SIZE ∈ pt_others (ld_pt st0) T0 → ld_ram st !! x = ld_ram st0 !! x).

(** ** Giving everything back *)

Lemma free_loop_spec s rs :
  pa_inv s → Forall (λ r, 0 < r_phys r ∧ 0 < r_pages r ∧ r_phys r + r_pages r * PAGE_SIZE ≤ PHYS_LIMIT) rs →
  ∃ s', free_loop s rs = Some s' ∧ pa_inv s' ∧
    ∀ x, x ∈ pa_frames s' ↔ x ∈ pa_frames s ∧ ∀ r, r ∈ rs → x ∉ pages_at (r_phys r) (r_pages r).
Proof.
  intros Hi Hrs. revert s Hi. induction Hrs as [|r rs (H1 & H2 & H3) _ IH]; intros s Hi; cbn [free_loop].
  - exists s. split; [done|]. split; [done|]. intros x. split; [|tauto]. intros Hx. split; [done|].
    intros r Hr. by apply elem_of_nil in Hr.
  - rewrite decide_True by lia.
    destruct (pa_free_pages_ok s (r_phys r) (r_pages r)) as (s1 & -> & Hi1 & Hf1); [done|lia|done|]. cbn [mbind option_bind].
    destruct (IH s1 Hi1) as (s' & -> & Hi' & Hf'). exists s'. split; [done|]. split; [done|]. intros x. rewrite Hf', Hf1.
    setoid_rewrite elem_of_cons. rewrite elem_of_difference. split.
    + intros [[Hx Hn] Hr]. split; [done|]. intros r' [->|Hr']; [done|by apply Hr].
    + intros [Hx Hr]. split; [split; [done|]; apply Hr; by left|]. intros r' Hr'. apply Hr. by right.
Qed.

Lemma loaded_region ctr kbuf l0 st0 T0 segs rs st T r :
  loaded ctr kbuf l0 st0 T0 segs rs st T → r ∈ rs → ∃ sg, sg ∈ segs ∧ s_r sg = r ∧ seg_ok kbuf sg.
Proof.
  intros Hld Hr. rewrite (ld_regions _ _ _ _ _ _ _ _ _ Hld) in Hr. apply list_elem_of_fmap in Hr as (sg & -> & Hsg).
  rewrite elem_of_reverse in Hsg. pose proof (ld_segs _ _ _ _ _ _ _ _ _ Hld) as Hok. rewrite Forall_forall in Hok.
  exists sg. split; [done|]. split; [done|by apply Hok].
Qed.

Lemma free_regions_spec ctr kbuf l0 st0 T0 segs img st T :
  loaded ctr kbuf l0 st0 T0 segs (i_regions img) st T →
  ∃ img' st', free_regions st img = Some (-1, (img', st')) ∧ i_regions img' = [] ∧
    pt_wf (ld_pt st') l0 T ∧ pt_others (ld_pt st') T = pt_others (ld_pt st0) T0 ∧
    tabs (ld_pt st') = tabs (ld_pt st) ∧ ld_ram st' = ld_ram st.
Proof.
  intros Hld. pose proof (ld_wf _ _ _ _ _ _ _ _ _ Hld) as Hwf. unfold free_regions.
  destruct (free_loop_spec (frames (ld_pt st)) (i_regions img)) as (s & -> & Hi & Hf); [apply Hwf| |].
  { apply Forall_forall. intros r Hr. destruct (loaded_region _ _ _ _ _ _ _ _ _ r Hld Hr) as (sg & _ & <- & Hok).
    destruct sg as [ph r' k]. destruct Hok as (_ & _ & _ & _ & _ & ? & ? & _ & ? & _). cbn. done. }
  cbn [mbind option_bind]. eexists _, _. split; [done|]. split; [done|].
  assert (∀ x, (∃ sg, sg ∈ segs ∧ x ∈ seg_frames sg) ↔ ∃ r, r ∈ i_regions img ∧ x ∈ pages_at (r_phys r) (r_pages r)) as Hse.
  { intros x. rewrite (ld_regions _ _ _ _ _ _ _ _ _ Hld). split.
    - intros (sg & Hs & Hx). exists (s_r sg). split; [|done]. apply list_elem_of_fmap_2. by rewrite elem_of_reverse.
    - intros (r & (sg & -> & Hs)%list_elem_of_fmap & Hx). exists sg. split; [by rewrite elem_of_reverse in Hs|done]. }
  assert (∀ x, (∃ sg, sg ∈ segs ∧ x ∈ seg_frames sg) → (x ∉ (map_img T : gset Z)) ∧ (x ∉ pt_others (ld_pt st0) T0)) as Hseg.
  { intros x Hx. split.
    - assert (x ∈ pt_others (ld_pt st) T) as Hin by (apply (ld_frames _ _ _ _ _ _ _ _ _ Hld); by left).
      unfold pt_others in Hin. by apply elem_of_difference in Hin as [_ Hin].
    - destruct Hx as (sg & Hs & Hx). intros Ho. by apply (ld_fresh _ _ _ _ _ _ _ _ _ Hld sg Hs x). }
  split; [|split; [|done]].
  - apply wf_frames; [done|done|]. intros π q Hq. apply Hf. split; [by eapply (pw_frames _ _ _ Hwf)|].
    intros r Hr Hx. assert (q ∉ (map_img T : gset Z)) as Hn by (apply Hseg, Hse; by exists r).
    apply Hn, elem_of_map_img. by exists π.
  - apply set_eq. intros x. unfold pt_others at 1. cbn [ld_pt with_frames frames]. rewrite elem_of_difference, Hf.
    pose proof (ld_frames _ _ _ _ _ _ _ _ _ Hld x) as Hx. unfold pt_others at 1 in Hx. rewrite elem_of_difference in Hx. split.
    + intros [[Hin Hnr] Hnt]. destruct (proj1 Hx (conj Hin Hnt)) as [(r & Hr & Hp)%Hse|]; [|done]. by apply Hnr in Hr.
    + intros Ho. destruct (proj2 Hx (or_intror Ho)) as [Hin Hnt]. split; [|done]. split; [done|]. intros r Hr Hp.
      assert (x ∉ pt_others (ld_pt st0) T0) as Hn by (apply Hseg, Hse; by exists r). done.
Qed.

(** ** Loading one segment *)

Lemma with_frames_same st : with_frames st (frames (ld_pt st)) = st.
Proof. by destruct st as [[]]. Qed.

(** The pages a run of fresh frames covers. *)
Lemma fresh_run s s' phys n :
  pa_inv s' → 0 < n → (pages_at phys n ## pa_frames s) → pa_frames s' = pages_at phys n ∪ pa_frames s →
  0 < phys ∧ phys mod PAGE_SIZE = 0 ∧ phys + n * PAGE_SIZE ≤ PHYS_LIMIT.
Proof.
  intros Hi Hn Hd Hf.
  assert (∀ i, 0 ≤ i < n → phys + i * PAGE_SIZE ∈ pa_frames s') as Hin.
  { intros i Hin. rewrite Hf. apply elem_of_union_l, elem_of_pages_at. by exists i. }
  destruct (pa_frames_page s' (phys + 0 * PAGE_SIZE) Hi) as (H1 & H2 & _); [apply Hin; lia|].
  destruct (pa_frames_page s' (phys + (n - 1) * PAGE_SIZE) Hi) as (_ & _ & H3); [apply Hin; lia|].
  rewrite Z.mul_0_l, Z.add_0_r in *. split; [done|]. split; [done|]. lia.
Qed.

Lemma pages_at_bytes phys n x : phys mod PAGE_SIZE = 0 → phys ≤ x < phys + n * PAGE_SIZE → x / PAGE_SIZE * PAGE_SIZE ∈ pages_at phys n.
Proof.
  intros Ha Hx. apply elem_of_pages_at. exists ((x - phys) / PAGE_SIZE). unfold PAGE_SIZE in *. split; dlia.
Qed.

(** Regions with disjoint frames have disjoint bytes. *)
Lemma disjoint_bytes p1 n1 p2 n2 x :
  p1 mod PAGE_SIZE = 0 → p2 mod PAGE_SIZE = 0 → pages_at p1 n1 ## pages_at p2 n2 →
  p1 ≤ x < p1 + n1 * PAGE_SIZE → ¬ (p2 ≤ x < p2 + n2 * PAGE_SIZE).
Proof. intros H1 H2 Hd Hx Hy. apply (Hd (x / PAGE_SIZE * PAGE_SIZE)); by apply pages_at_bytes. Qed.

Lemma loaded_kept ctr kbuf l0 st0 T0 segs rs st T : loaded ctr kbuf l0 st0 T0 segs rs st T → kept st0 T0 st.
Proof.
  intros Hld. split; [apply Hld|]. intros x Hx. apply (ld_rest _ _ _ _ _ _ _ _ _ Hld). intros sg Hs Hin.
  pose proof (ld_segs _ _ _ _ _ _ _ _ _ Hld) as Hok. rewrite Forall_forall in Hok. specialize (Hok sg Hs).
  assert (r_phys (s_r sg) mod PAGE_SIZE = 0) as Hal.
  { destruct sg as [ph r k]. by destruct Hok as (_ & _ & _ & _ & _ & _ & _ & ? & _). }
  exact (ld_fresh _ _ _ _ _ _ _ _ _ Hld sg Hs _ (pages_at_bytes _ _ x Hal Hin) Hx).
Qed.

Lemma synced_app ctr dc dc' ic ic' va size :
  synced ctr dc ic va size ∨ synced ctr dc' ic' va size → synced ctr (dc ++ dc') (ic ++ ic') va size.
Proof.
  intros Hs x Hx. setoid_rewrite elem_of_app.
  destruct Hs as [Hs|Hs]; destruct (Hs x Hx) as [(q & Hq & ?) (q' & Hq' & ?)]; (split; [exists q|exists q']); tauto.
Qed.

Section Loaded_cons.
Context (ctr : Z) (kbuf : list Z) (l0 : Z) (st0 : ldst S) (T0 : tree) (segs : list seg) (rs : list elf_region) (st : ldst S) (T : tree).
Context (ph : Elf64_Phdr) (phys k : Z) (s : S) (t : pt S) (T' : tree) (ram' : gmap Z Z) (dc ic : list Z).
Context (Hld : loaded ctr kbuf l0 st0 T0 segs rs st T).
Context (Hty : p_type ph = PT_LOAD) (Hv : seg_valid kbuf ph) (Hpg : 0 < seg_pages ph).
Context (Hi : pa_inv s) (Hdisj : pages_at phys (seg_pages ph) ## pa_frames (frames (ld_pt st))).
Context (Hfr : pa_frames s = pages_at phys (seg_pages ph) ∪ pa_frames (frames (ld_pt st))).
Context (Hwf' : pt_wf t l0 T') (Ho : pt_others t T' = pt_others (ld_pt (with_frames st s)) T).
Context (Htabs : ∀ q, q ∈ pt_others (ld_pt (with_frames st s)) T → tabs t !! q = tabs (ld_pt st) !! q).
Context (Hk : 0 ≤ k ≤ seg_pages ph) (Hst : k = seg_pages ph ∨ starved (frames t)) (Hns : ¬ starved (frames (ld_pt st))).
Context (Hhw : ∀ a, 0 ≤ a < 2 ^ 48 → hw_pte t l0 a =
  if decide (seg_va ph ≤ a < seg_va ph + k * PAGE_SIZE)
  then Some (page_desc (phys + (a - seg_va ph) / PAGE_SIZE * PAGE_SIZE) (elf_pflags_to_pte (p_flags ph)))
  else hw_pte (ld_pt st) l0 a).
Context (Hram : ∀ x, ram' !! x = if decide (phys ≤ x < phys + seg_pages ph * PAGE_SIZE)
  then Some (image_byte kbuf ph (seg_va ph + (x - phys))) else ld_ram st !! x).
Context (Hsync : Z.testbit (p_flags ph) 0 = true → synced ctr dc ic (PHYS_TO_VIRT phys) (seg_pages ph * PAGE_SIZE)).

Let rg := mk_region phys (seg_pages ph) (seg_va ph) (p_flags ph).
Let sg := mk_seg ph rg k.
Let st' := mk_ldst t ram' (ld_dc st ++ dc) (ld_ic st ++ ic).

Lemma cons_old x : x ∈ segs → seg_frames sg ## seg_frames x ∧ r_phys (s_r x) mod PAGE_SIZE = 0.
Proof using Hld Hdisj.
  intros Hx. split.
  - intros y Hy Hy'. apply (Hdisj y); [exact Hy|].
    assert (y ∈ pt_others (ld_pt st) T) as Hin by (apply (ld_frames _ _ _ _ _ _ _ _ _ Hld); left; by exists x).
    unfold pt_others in Hin. by apply elem_of_difference in Hin as [Hin _].
  - pose proof (ld_segs _ _ _ _ _ _ _ _ _ Hld) as Hok. rewrite Forall_forall in Hok. specialize (Hok x Hx).
    destruct x as [ph' r' k']. by destruct Hok as (_ & _ & _ & _ & _ & _ & _ & ? & _).
Qed.

Lemma cons_others x : x ∈ pt_others t T' ↔ x ∈ seg_frames sg ∨ x ∈ pt_others (ld_pt st) T.
Proof using Hld Hdisj Hfr Ho.
  rewrite Ho. unfold pt_others. cbn [ld_pt with_frames frames]. rewrite Hfr, !elem_of_difference, elem_of_union.
  split; [intros [[Hx|Hx] Hn]; [by left|by right]|]. intros [Hx|[Hx Hn]]; [|split; [by right|done]].
  split; [by left|]. rewrite elem_of_map_img. intros [π Hπ]. apply (Hdisj x Hx).
  by eapply (pw_frames _ _ _ (ld_wf _ _ _ _ _ _ _ _ _ Hld)).
Qed.

Lemma cons_run : 0 < phys ∧ phys mod PAGE_SIZE = 0 ∧ phys + seg_pages ph * PAGE_SIZE ≤ PHYS_LIMIT.
Proof using Hi Hpg Hdisj Hfr. by apply (fresh_run (frames (ld_pt st)) s). Qed.

Lemma loaded_cons : loaded ctr kbuf l0 st0 T0 (sg :: segs) (rs ++ [rg]) st' T'.
Proof using All.
  destruct cons_run as (Hp1 & Hp2 & Hp3). constructor.
  - exact Hwf'.
  - rewrite (ld_regions _ _ _ _ _ _ _ _ _ Hld), reverse_cons, fmap_app. done.
  - constructor; [|apply Hld]. unfold sg, rg. cbn. tauto.
  - intros x. cbn [ld_pt st']. rewrite cons_others, (ld_frames _ _ _ _ _ _ _ _ _ Hld). setoid_rewrite elem_of_cons. split.
    + intros [Hx|[(y & Hy & Hx)|Hx]]; [left; exists sg; auto|left; exists y; auto|by right].
    + intros [(y & [->|Hy] & Hx)|Hx]; [by left|right; left; by exists y|right; by right].
  - split; [|apply Hld]. apply Forall_forall. intros x Hx. by apply cons_old.
  - intros x [->|Hx]%elem_of_cons; [|by eapply (ld_fresh _ _ _ _ _ _ _ _ _ Hld)].
    intros y Hy Hy'. apply (Hdisj y Hy).
    assert (y ∈ pt_others (ld_pt st) T) as Hin by (apply (ld_frames _ _ _ _ _ _ _ _ _ Hld); by right).
    unfold pt_others in Hin. by apply elem_of_difference in Hin as [Hin _].
  - intros a Ha. cbn [ld_pt st' view sg s_r s_ph s_k rg r_va r_phys]. rewrite Hhw by done. case_decide; [done|].
    by apply (ld_hw _ _ _ _ _ _ _ _ _ Hld).
  - intros x j [->|Hx]%elem_of_cons Hj; cbn [ld_ram st'].
    + cbn [sg s_r s_ph rg r_phys r_va r_pages] in *. rewrite Hram, decide_True by lia. do 3 f_equal. lia.
    + destruct (cons_old x Hx) as [Hd Hm]. rewrite Hram, decide_False; [by apply (ld_bytes _ _ _ _ _ _ _ _ _ Hld)|].
      intros Hy. apply (disjoint_bytes phys (seg_pages ph) (r_phys (s_r x)) (r_pages (s_r x)) (r_phys (s_r x) + j) Hp2 Hm Hd Hy). lia.
  - intros x Hx. cbn [ld_ram st']. rewrite Hram, decide_False.
    + apply (ld_rest _ _ _ _ _ _ _ _ _ Hld). intros y Hy. apply Hx. by apply elem_of_cons; right.
    + apply (Hx sg). by apply elem_of_cons; left.
  - intros x [->|Hx]%elem_of_cons Hex; cbn [ld_dc ld_ic st']; apply synced_app; [right; by apply Hsync|left].
    by apply (ld_sync _ _ _ _ _ _ _ _ _ Hld).
  - intros x [->|Hx]%elem_of_cons; cbn [ld_pt st']; [exact Hst|]. left. by destruct (ld_full _ _ _ _ _ _ _ _ _ Hld x Hx).
  - intros q Hq. cbn [ld_pt st']. rewrite Htabs; [by apply (ld_tabs _ _ _ _ _ _ _ _ _ Hld)|].
    rewrite <- Ho. apply cons_others. right. apply (ld_frames _ _ _ _ _ _ _ _ _ Hld). by right.
Qed.
End Loaded_cons.

(** The outcome of a failed load: every page is back. *)
Definition gave_back l0 st0 T0 (img : elf_image) st : Prop :=
  i_regions img = [] ∧ kept st0 T0 st ∧ ∃ T, pt_wf (ld_pt st) l0 T ∧ pt_others (ld_pt st) T = pt_others (ld_pt st0) T0.

Lemma free_gives_back ctr kbuf l0 st0 T0 segs img st T :
  loaded ctr kbuf l0 st0 T0 segs (i_regions img) st T →
  ∃ img' st', free_regions st img = Some (-1, (img', st')) ∧ gave_back l0 st0 T0 img' st'.
Proof.
  intros Hld. destruct (free_regions_spec _ _ _ _ _ _ _ _ _ Hld) as (img' & st' & E & H1 & H2 & H3 & H4 & H5).
  exists img', st'. split; [exact E|]. split; [done|]. split; [|by exists T].
  destruct (loaded_kept _ _ _ _ _ _ _ _ _ Hld) as [K1 K2]. unfold kept. rewrite H4, H5. done.
Qed.

Lemma load_segment_spec ctr kbuf l0 st0 T0 segs img st T ph :
  loaded ctr kbuf l0 st0 T0 segs (i_regions img) st T → p_type ph = PT_LOAD → phdr_u ph →
  ∃ r img' st', load_segment ctr kbuf (Z.of_nat (length kbuf)) l0 ph img st = Some (r, (img', st')) ∧
    (r = -1 ∧ gave_back l0 st0 T0 img' st' ∨
     r = 0 ∧ (length segs < ELF_MAX_REGIONS)%nat ∧ i_entry img' = i_entry img ∧ i_phentsize img' = i_phentsize img ∧
     ∃ sg T', s_ph sg = ph ∧ loaded ctr kbuf l0 st0 T0 (sg :: segs) (i_regions img') st' T').
Proof.
  intros Hld Hty Hu. unfold load_segment. pose proof (ld_wf _ _ _ _ _ _ _ _ _ Hld) as Hwf.
  assert (length (i_regions img) = length segs) as Hlen.
  { rewrite (ld_regions _ _ _ _ _ _ _ _ _ Hld), length_fmap, length_reverse. done. }
  assert (∃ r img' st', free_regions st img = Some (r, (img', st')) ∧
    (r = -1 ∧ gave_back l0 st0 T0 img' st' ∨
     r = 0 ∧ (length segs < ELF_MAX_REGIONS)%nat ∧ i_entry img' = i_entry img ∧ i_phentsize img' = i_phentsize img ∧
     ∃ sg T', s_ph sg = ph ∧ loaded ctr kbuf l0 st0 T0 (sg :: segs) (i_regions img') st' T')) as Hfail.
  { destruct (free_gives_back _ _ _ _ _ _ _ _ _ Hld) as (img' & st' & E & Hg).
    exists (-1), img', st'. split; [exact E|]. by left. }
  destruct (segment_flags ph (Z.of_nat (length kbuf)) (length (i_regions img))) as [f|] eqn:Ef; [|exact Hfail].
  destruct (segment_flags_spec kbuf ph _ f Hu Ef) as (Hv & Hcnt & ->). rewrite Hlen in Hcnt.
  destruct (seg_arith kbuf ph Hv) as (Elo & -> & Hpn & Hva & Hal & Hle & Hhi & Htop). rewrite Elo.
  destruct (decide (seg_pages ph = 0)) as [E0|Hnz].
  { rewrite E0, pa_alloc_pages_0. cbn [mbind option_bind]. rewrite decide_True by done. by rewrite with_frames_same. }
  assert (0 < seg_pages ph) as Hpg by lia.
  destruct (pa_alloc_pages_ok (frames (ld_pt st)) (seg_pages ph)) as (phys & s & Ealloc & Hi & Hc); [apply Hwf|done|]. rewrite Ealloc.
  cbn [mbind option_bind]. destruct Hc as [[-> ->]|[Hd Hf]]; [rewrite decide_True by done; by rewrite with_frames_same|].
  clear Hfail. destruct (fresh_run (frames (ld_pt st)) s phys (seg_pages ph) Hi Hpg Hd Hf) as (Hp1 & Hp2 & Hp3).
  rewrite decide_False by lia. unfold USER_STACK_TOP, PHYS_LIMIT, PAGE_SIZE in Htop, Hp3.
  assert (p_vaddr ph -w seg_va ph = p_vaddr ph - seg_va ph ∧ 0 ≤ p_vaddr ph - seg_va ph < 4096) as [Eintra Hintra].
  { destruct Hv as (H1 & _ & H3 & _ & H5 & _). unfold USER_STACK_TOP, seg_va, PAGE_SIZE in *.
    split; [apply sub64_small; dlia|dlia]. }
  rewrite Eintra, (add64_small phys) by lia. rewrite mul64_small by (unfold PAGE_SIZE; lia).
  rewrite bytes_at_ok by (destruct Hv as (_ & ? & _ & ? & _); lia). cbn [mbind option_bind].
  set (ram := if decide (0 < p_filesz ph) then _ else _).
  assert (∃ ram', ram = Some ram' ∧ ∀ x, ram' !! x = if decide (phys ≤ x < phys + seg_pages ph * PAGE_SIZE)
    then Some (image_byte kbuf ph (seg_va ph + (x - phys))) else ld_ram st !! x) as (ram' & -> & Hram).
  { pose proof (λ x, fill_ram kbuf ph phys (ld_ram st) x Hv) as Hfill. cbv zeta in Hfill. unfold ram. cbn [ld_ram with_frames].
    destruct (decide (0 < p_filesz ph)); eexists; (split; [done|exact Hfill]). }
  cbn [mbind option_bind].
  assert (0 ≤ PHYS_TO_VIRT phys ∧ PHYS_TO_VIRT phys + seg_pages ph * PAGE_SIZE + 2 ^ 18 < 2 ^ 64) as [Hkv1 Hkv2].
  { unfold PHYS_TO_VIRT, KERNEL_VA_OFFSET, PAGE_SIZE in *. rewrite add64_small by lia. lia. }
  set (sync := if decide (Z.land (p_flags ph) PF_X ≠ 0) then _ else _).
  assert (∃ dc ic, sync = Some (dc, ic) ∧
    (Z.testbit (p_flags ph) 0 = true → synced ctr dc ic (PHYS_TO_VIRT phys) (seg_pages ph * PAGE_SIZE))) as (dc & ic & -> & Hsync).
  { unfold sync. pose proof (land_pow2_testbit (p_flags ph) 0 ltac:(lia)) as Hx. change (2 ^ 0) with PF_X in Hx. case_decide as Hd0.
    - destruct (cpu_sync_icache_spec ctr (PHYS_TO_VIRT phys) (seg_pages ph * PAGE_SIZE)) as (dc & ic & E & Hs);
        [done|unfold PAGE_SIZE; lia|done|]. exists dc, ic. split; [exact E|done].
    - exists [], []. split; [done|]. intros Hb. by apply Hx in Hb. }
  cbn [mbind option_bind].
  destruct (map_user_range_spec (ld_pt (with_frames st s)) l0 T (seg_va ph) phys (seg_pages ph) (elf_pflags_to_pte (p_flags ph)))
    as (t & T' & k & Emap & Hwf' & _ & Ho & Hk & Hoom & Hhw).
  { apply wf_frames; [done|done|]. intros π q Hq. rewrite Hf. apply elem_of_union_r. by eapply (pw_frames _ _ _ Hwf). }
  { unfold user_range, PAGE_SIZE in *. split_and!; lia. } { lia. } { unfold PAGE_SIZE; lia. }
  assert (pt_wf (ld_pt (with_frames st s)) l0 T) as Hwf1.
  { apply wf_frames; [done|done|]. intros π q Hq. rewrite Hf. apply elem_of_union_r. by eapply (pw_frames _ _ _ Hwf). }
  pose proof (map_user_range_tabs _ _ _ _ _ _ _ _ Hwf1 Emap) as Htabs. rewrite Emap.
  cbn [mbind option_bind]. eexists _, _, _. split; [done|]. right. do 4 (split; [done|]).
  eexists _, T'. split; [|apply (loaded_cons ctr kbuf l0 st0 T0 segs (i_regions img) st T ph phys k s t T' ram' dc ic); try done]; [done|].
  intros Hsv. pose proof (pa_alloc_pages_none _ (seg_pages ph) (pw_inv _ _ _ Hwf) Hsv Hpg) as E0. rewrite E0 in Ealloc. injection Ealloc as <- <-. lia.
Qed.

(** ** The whole file *)

(** The PT_LOAD headers among [n] headers from the [i]-th. *)
Definition loads (kbuf : list Z) (phoff i n : Z) : list Elf64_Phdr :=
  filter (λ ph, p_type ph = PT_LOAD) (omap (read_phdr kbuf phoff) (seqZ i n)).

Lemma loads_cons kbuf phoff i n ph :
  read_phdr kbuf phoff i = Some ph → 0 ≤ n →
  loads kbuf phoff i (n + 1) = (if decide (p_type ph = PT_LOAD) then [ph] else []) ++ loads kbuf phoff (i + 1) n.
Proof.
  intros E Hn. unfold loads. rewrite seqZ_cons by lia. cbn [omap list_omap]. rewrite E.
  replace (Z.pred (n + 1)) with n by lia. replace (Z.succ i) with (i + 1) by lia. rewrite filter_cons. by case_decide.
Qed.

Lemma loads_nil kbuf phoff i : loads kbuf phoff i 0 = [].
Proof. done. Qed.

Section File.
Context (kbuf : list Z) (phoff : Z) (Hbytes : Forall is_byte kbuf) (Hoff : 0 ≤ phoff).

Lemma load_loop_spec ctr l0 st0 T0 i n segs img st T :
  0 ≤ i → phoff + (i + Z.of_nat n) * SIZEOF_PHDR ≤ Z.of_nat (length kbuf) →
  loaded ctr kbuf l0 st0 T0 segs (i_regions img) st T → (length segs ≤ ELF_MAX_REGIONS)%nat →
  ∃ r img' st', load_loop ctr kbuf (Z.of_nat (length kbuf)) l0 phoff i n img st = Some (r, (img', st')) ∧
    (r = -1 ∧ gave_back l0 st0 T0 img' st' ∨
     r = 0 ∧ i_entry img' = i_entry img ∧ i_phentsize img' = i_phentsize img ∧
     ∃ segs' T', loaded ctr kbuf l0 st0 T0 segs' (i_regions img') st' T' ∧ (length segs' ≤ ELF_MAX_REGIONS)%nat ∧
       s_ph <$> reverse segs' = (s_ph <$> reverse segs) ++ loads kbuf phoff i (Z.of_nat n)).
Proof using Hbytes Hoff.
  revert i segs img st T. induction n as [|n IH]; intros i segs img st T Hi Hn Hld Hlen; cbn [load_loop].
  - exists 0, img, st. split; [done|]. right. do 3 (split; [done|]). exists segs, T. split; [done|]. split; [done|].
    by rewrite loads_nil, app_nil_r.
  - destruct (read_phdr_ok kbuf phoff i) as (ph & E & Hu); [done..|unfold SIZEOF_PHDR in *; lia|]. rewrite E. cbn [mbind option_bind].
    assert (Z.of_nat (Datatypes.S n) = Z.of_nat n + 1) as -> by lia. rewrite (loads_cons kbuf phoff i _ ph) by (done || lia).
    destruct (decide (p_type ph = PT_LOAD)) as [Hty|Hty]; [rewrite decide_False by tauto|rewrite decide_True by done; cbn [app]; apply (IH (i + 1) segs img st T); [lia..|done|done]].
   
    destruct (load_segment_spec ctr kbuf l0 st0 T0 segs img st T ph Hld Hty Hu) as (r & img1 & st1 & -> & Hr). cbn [mbind option_bind].
    destruct Hr as [[-> Hg]|(-> & Hlt & He & Hs & sg & T1 & Hsg & Hld1)].
    { rewrite decide_True by done. exists (-1), img1, st1. split; [done|]. by left. }
    rewrite decide_False by tauto. destruct (IH (i + 1) (sg :: segs) img1 st1 T1) as (r & img' & st' & -> & Hr); [lia..|done|cbn; lia|].
    exists r, img', st'. split; [done|]. destruct Hr as [Hr|(-> & He' & Hs' & segs' & T' & Hld' & Hlen' & Hph)]; [by left|].
    right. split; [done|]. split; [congruence|]. split; [congruence|]. exists segs', T'. split; [done|]. split; [done|].
    rewrite Hph, reverse_cons, fmap_app. cbn. rewrite Hsg, <- app_assoc. done.
Qed.

Definition executable_at (entry : Z) (ph : Elf64_Phdr) : Prop :=
  p_vaddr ph ≤ entry < p_vaddr ph +w p_memsz ph ∧ Z.land (p_flags ph) PF_X ≠ 0.

Lemma entry_ok_spec entry i n :
  0 ≤ i → phoff + (i + Z.of_nat n) * SIZEOF_PHDR ≤ Z.of_nat (length kbuf) →
  ∃ b, entry_ok kbuf phoff entry i n = Some b ∧
    (b = true ↔ ∃ ph, ph ∈ loads kbuf phoff i (Z.of_nat n) ∧ executable_at entry ph).
Proof using Hbytes Hoff.
  revert i. induction n as [|n IH]; intros i Hi Hn; cbn [entry_ok].
  - exists false. split; [done|]. split; [done|]. rewrite loads_nil. by intros (ph & ?%elem_of_nil & _).
  - destruct (read_phdr_ok kbuf phoff i) as (ph & E & Hu); [done..|unfold SIZEOF_PHDR in *; lia|]. rewrite E. cbn [mbind option_bind].
    assert (Z.of_nat (Datatypes.S n) = Z.of_nat n + 1) as -> by lia. rewrite (loads_cons kbuf phoff i _ ph) by (done || lia).
    destruct (IH (i + 1)) as (b & Eb & Hb); [lia..|]. destruct (decide (p_type ph = PT_LOAD)) as [Hty|Hty]; [rewrite decide_False by tauto|rewrite decide_True by done; by exists b].
    case_decide as Hx.
    + exists true. split; [done|]. split; [|done]. intros _. exists ph. split; [by left|]. unfold executable_at. tauto.
    + exists b. split; [done|]. rewrite Hb. cbn [app]. split; intros (ph' & Hin & He).
      * exists ph'. split; [by right|done].
      * apply elem_of_cons in Hin as [->|Hin]; [|by exists ph']. exfalso. apply Hx. unfold executable_at in He. tauto.
Qed.

(** The header table is advertised only where a segment holds all of it. *)
Definition holds_table (tbl_end : Z) (ph : Elf64_Phdr) : Prop := p_offset ph ≤ phoff ∧ tbl_end ≤ p_offset ph +w p_filesz ph.

Lemma find_phdr_va_spec tbl_end i n :
  0 ≤ i → phoff + (i + Z.of_nat n) * SIZEOF_PHDR ≤ Z.of_nat (length kbuf) →
  ∃ v, find_phdr_va kbuf phoff tbl_end i n = Some v ∧
    ((∃ ph, ph ∈ loads kbuf phoff i (Z.of_nat n) ∧ holds_table tbl_end ph ∧ v = p_vaddr ph +w (phoff -w p_offset ph)) ∨
     v = 0 ∧ ∀ ph, ph ∈ loads kbuf phoff i (Z.of_nat n) → ¬ holds_table tbl_end ph).
Proof using Hbytes Hoff.
  revert i. induction n as [|n IH]; intros i Hi Hn; cbn [find_phdr_va].
  - exists 0. split; [done|]. right. split; [done|]. rewrite loads_nil. by intros ph ?%elem_of_nil.
  - destruct (read_phdr_ok kbuf phoff i) as (ph & E & Hu); [done..|unfold SIZEOF_PHDR in *; lia|]. rewrite E. cbn [mbind option_bind].
    assert (Z.of_nat (Datatypes.S n) = Z.of_nat n + 1) as -> by lia. rewrite (loads_cons kbuf phoff i _ ph) by (done || lia).
    destruct (IH (i + 1)) as (v & Ev & Hv); [lia..|]. destruct (decide (p_type ph = PT_LOAD)) as [Hty|Hty]; [rewrite decide_False by tauto|rewrite decide_True by done; by exists v].
    case_decide as Hx.
    + eexists. split; [done|]. left. exists ph. split; [by left|]. done.
    + exists v. split; [done|]. cbn [app]. destruct Hv as [(ph' & Hin & Hp)|[-> Hno]].
      * left. exists ph'. split; [by right|done].
      * right. split; [done|]. intros ph' [->|Hin]%elem_of_cons; [exact Hx|by apply Hno].
Qed.
End File.

Lemma header_bounds eh size :
  is_u64 (e_phoff eh) → 0 ≤ e_phnum eh < 2 ^ 16 → 0 ≤ size < 2 ^ 63 → header_ok eh size = true →
  e_phoff eh + e_phnum eh * SIZEOF_PHDR ≤ size ∧ 0 < e_phnum eh ≤ MAX_PHNUM ∧ e_phentsize eh = SIZEOF_PHDR.
Proof.
  unfold is_u64. intros Hp Hn Hs. unfold header_ok, SIZEOF_PHDR, MAX_PHNUM.
  do 6 (case_decide; [done|]). case_decide as Hes; [done|]. case_decide; [done|].
  case_decide as Ho; [done|]. intros _. rewrite mul64_small, add64_small in Ho by lia. lia.
Qed.

(** Nothing was loaded: nothing was taken. *)
Lemma loaded_none ctr kbuf l0 st0 T0 segs img st T :
  loaded ctr kbuf l0 st0 T0 segs (i_regions img) st T → i_regions img = [] → gave_back l0 st0 T0 img st.
Proof.
  intros Hld Hnil. split; [done|]. split; [by eapply loaded_kept|]. exists T. split; [apply Hld|].
  assert (segs = []) as ->.
  { pose proof (ld_regions _ _ _ _ _ _ _ _ _ Hld) as E. rewrite Hnil in E. apply (f_equal length) in E.
    rewrite length_fmap, length_reverse in E. by destruct segs. }
  apply set_eq. intros x. rewrite (ld_frames _ _ _ _ _ _ _ _ _ Hld). split; [|by right].
  intros [(sg & ?%elem_of_nil & _)|?]; done.
Qed.

Lemma loaded_valid ctr kbuf l0 st0 T0 segs rs st T phs ph :
  loaded ctr kbuf l0 st0 T0 segs rs st T → s_ph <$> reverse segs = phs → ph ∈ phs →
  ∃ sg, sg ∈ segs ∧ s_ph sg = ph ∧ seg_ok kbuf sg ∧ seg_valid kbuf ph.
Proof.
  intros Hld <- (sg & -> & Hsg)%list_elem_of_fmap. rewrite elem_of_reverse in Hsg. exists sg. split; [done|]. split; [done|].
  pose proof (ld_segs _ _ _ _ _ _ _ _ _ Hld) as Hok. rewrite Forall_forall in Hok. specialize (Hok sg Hsg). split; [done|].
  destruct sg as [ph r k]. apply Hok.
Qed.

(** A successful load. *)
Definition elf_loaded ctr kbuf l0 st0 T0 (eh : Elf64_Ehdr) segs (img : elf_image) st T : Prop :=
  let phs := loads kbuf (e_phoff eh) 0 (e_phnum eh) in
  header_ok eh (Z.of_nat (length kbuf)) = true ∧ loaded ctr kbuf l0 st0 T0 segs (i_regions img) st T ∧
  s_ph <$> reverse segs = phs ∧ (0 < length segs ≤ ELF_MAX_REGIONS)%nat ∧ i_entry img = e_entry eh ∧
  (∃ ph, ph ∈ phs ∧ p_vaddr ph ≤ e_entry eh < p_vaddr ph + p_memsz ph ∧ Z.testbit (p_flags ph) 0 = true) ∧
  ((∃ ph, ph ∈ phs ∧ p_offset ph ≤ e_phoff eh ∧
      e_phoff eh + e_phnum eh * SIZEOF_PHDR ≤ p_offset ph + p_filesz ph ∧
      i_phdr_va img = p_vaddr ph + (e_phoff eh - p_offset ph)) ∨
   i_phdr_va img = 0 ∧ ∀ ph, ph ∈ phs → ¬ (p_offset ph ≤ e_phoff eh ∧
      e_phoff eh + e_phnum eh * SIZEOF_PHDR ≤ p_offset ph + p_filesz ph)).

Lemma elf_load_spec ctr kbuf l0 out st T :
  Forall is_byte kbuf → Z.of_nat (length kbuf) < 2 ^ 63 → pt_wf (ld_pt st) l0 T →
  ∃ r img st', elf_load ctr kbuf (Z.of_nat (length kbuf)) l0 out st = Some (r, (img, st')) ∧
    (r = -1 ∧ (img = out ∧ st' = st ∨ gave_back l0 st T img st') ∨
     r = 0 ∧ ∃ eh segs T', read_ehdr kbuf = Some eh ∧ elf_loaded ctr kbuf l0 st T eh segs img st' T').
Proof.
  intros Hb Hsz Hwf. unfold elf_load. case_decide as Hshort.
  { exists (-1), out, st. split; [done|]. left. split; [done|]. by left. }
  destruct (read_ehdr_ok kbuf Hb) as (eh & Eeh & Hoff & Hent & Hnum); [lia|]. rewrite Eeh. cbn [mbind option_bind].
  destruct (header_ok eh (Z.of_nat (length kbuf))) eqn:Hok; cbn [negb].
  2:{ exists (-1), out, st. split; [done|]. left. split; [done|]. by left. }
  destruct (header_bounds eh (Z.of_nat (length kbuf)) Hoff Hnum ltac:(lia) Hok) as (Htab & Hn & Hes).
  assert (0 ≤ e_phoff eh) as Hoff0 by (unfold is_u64 in Hoff; lia).
  destruct (load_loop_spec kbuf (e_phoff eh) Hb Hoff0 ctr l0 st T 0 (Z.to_nat (e_phnum eh)) []
    (mk_image (e_entry eh) [] 0 (e_phentsize eh) (e_phnum eh)) st T) as (r & img & st1 & -> & Hr);
    [lia|rewrite Z2Nat.id by lia; lia|by apply loaded_nil|cbn; lia|]. cbn [mbind option_bind].
  destruct Hr as [[-> Hg]|(-> & He & Hps & segs & T1 & Hld & Hlen & Hph)].
  { rewrite decide_True by done. exists (-1), img, st1. split; [done|]. left. split; [done|]. by right. }
  rewrite decide_False by tauto. rewrite Z2Nat.id in Hph by lia. cbn [i_entry i_phentsize] in He, Hps. case_decide as Hnil.
  { exists (-1), img, st1. split; [done|]. left. split; [done|]. right. by eapply loaded_none. }
  rewrite Hps, decide_True by done.
  assert (e_phoff eh +w e_phnum eh *w SIZEOF_PHDR = e_phoff eh + e_phnum eh * SIZEOF_PHDR) as ->.
  { unfold SIZEOF_PHDR, is_u64 in *. rewrite mul64_small, add64_small by lia. done. }
  destruct (find_phdr_va_spec kbuf (e_phoff eh) Hb Hoff0 (e_phoff eh + e_phnum eh * SIZEOF_PHDR) 0 (Z.to_nat (e_phnum eh)))
    as (pv & -> & Hpv); [lia|rewrite Z2Nat.id by lia; lia|]. cbn [mbind option_bind].
  destruct (entry_ok_spec kbuf (e_phoff eh) Hb Hoff0 (e_entry eh) 0 (Z.to_nat (e_phnum eh)))
    as (b & -> & Hbe); [lia|rewrite Z2Nat.id by lia; lia|]. cbn [mbind option_bind]. rewrite Z2Nat.id in Hpv, Hbe by lia.
  destruct b.
  2:{ destruct (free_gives_back ctr kbuf l0 st T segs (mk_image (i_entry img) (i_regions img) pv (e_phentsize eh) (i_phnum img)) st1 T1 Hld)
        as (img' & st' & E & Hg). exists (-1), img', st'. split; [exact E|]. left. split; [done|]. by right. }
  eexists 0, _, st1. split; [done|]. right. split; [done|]. exists eh, segs, T1. split; [done|].
  assert (∀ ph, ph ∈ loads kbuf (e_phoff eh) 0 (e_phnum eh) → seg_valid kbuf ph) as Hval.
  { intros ph Hin. by destruct (loaded_valid _ _ _ _ _ _ _ _ _ _ ph Hld Hph Hin) as (_ & _ & _ & _ & ?). }
  assert (∀ ph, ph ∈ loads kbuf (e_phoff eh) 0 (e_phnum eh) → p_offset ph +w p_filesz ph = p_offset ph + p_filesz ph ∧
    p_vaddr ph +w p_memsz ph = p_vaddr ph + p_memsz ph) as Hnw.
  { intros ph (H1 & H2 & H3 & H4 & H5 & _)%Hval. unfold USER_STACK_TOP in H5. split; apply add64_small; lia. }
  split; [done|]. split; [exact Hld|]. split; [exact Hph|]. split.
  { split; [|done]. destruct segs; [|cbn; lia]. exfalso. apply Hnil. by rewrite (ld_regions _ _ _ _ _ _ _ _ _ Hld). }
  split; [done|]. split.
  - destruct (proj1 Hbe eq_refl) as (ph & Hin & [Hr Hx]). exists ph. split; [done|].
    destruct (Hnw ph Hin) as [_ E]. rewrite E in Hr. split; [done|]. by apply (land_pow2_testbit (p_flags ph) 0).
  - cbn [i_phdr_va]. destruct Hpv as [(ph & Hin & [Ho1 Ho2] & ->)|[-> Hno]].
    + left. exists ph. destruct (Hnw ph Hin) as [E _]. rewrite E in Ho2. split; [done|]. split; [done|]. split; [done|].
      destruct (Hval ph Hin) as (H1 & H2 & H3 & H4 & H5 & _). unfold USER_STACK_TOP, SIZEOF_PHDR in *.
      rewrite sub64_small, add64_small by lia. done.
    + right. split; [done|]. intros ph Hin Hc. apply (Hno ph Hin). unfold holds_table.
      destruct (Hnw ph Hin) as [-> _]. exact Hc.
Qed.
End Spec.

(** ** What the program sees *)

Definition spans_disjoint (p q : Elf64_Phdr) : Prop :=
  seg_va p + seg_pages p * PAGE_SIZE ≤ seg_va q ∨ seg_va q + seg_pages q * PAGE_SIZE ≤ seg_va p.

Lemma pairwise_reverse {A} (R : A → A → Prop) l : (∀ x y, R x y → R y x) → pairwise R (reverse l) → pairwise R l.
Proof.
  intros Hsym. induction l as [|x l IH]; [done|]. rewrite reverse_cons. intros (Hl & _ & Hx)%pairwise_app.
  split; [|by apply IH]. apply Forall_forall. intros y Hy. apply Hsym, Hx; [by apply elem_of_reverse|by left].
Qed.

Lemma pairwise_fmap_1 {A B} (f : A → B) (R : B → B → Prop) l : pairwise R (f <$> l) → pairwise (λ x y, R (f x) (f y)) l.
Proof.
  induction l as [|x l IH]; [done|]. intros [Hx Hl]. split; [|by apply IH]. by rewrite Forall_fmap in Hx.
Qed.

(** A page that only [sg] spans is mapped by [sg]. *)
Lemma view_hit kbuf segs (old : Z → option Z) sg a :
  Forall (λ x, r_va (s_r x) = seg_va (s_ph x) ∧ s_k x ≤ seg_pages (s_ph x)) segs →
  pairwise (λ x y, spans_disjoint (s_ph x) (s_ph y)) segs → sg ∈ segs →
  seg_valid kbuf (s_ph sg) → seg_va (s_ph sg) ≤ a < seg_va (s_ph sg) + s_k sg * PAGE_SIZE →
  view segs old a = Some (page_desc (r_phys (s_r sg) + (a - seg_va (s_ph sg)) / PAGE_SIZE * PAGE_SIZE)
                            (elf_pflags_to_pte (p_flags (s_ph sg)))).
Proof.
  intros Hok Hd Hin Hv Ha. induction segs as [|x segs IH]; [by apply elem_of_nil in Hin|].
  rewrite Forall_cons in Hok. destruct Hok as [[Hva Hk] Hok], Hd as [Hx Hd]. cbn [view]. apply elem_of_cons in Hin as [->|Hin].
  - rewrite Hva, decide_True by done. done.
  - rewrite Hva, decide_False; [by apply IH|]. rewrite Forall_forall in Hx. specialize (Hx sg Hin).
    rewrite Forall_forall in Hok. destruct (Hok sg Hin) as [_ Hks]. unfold spans_disjoint, PAGE_SIZE in *. lia.
Qed.

Lemma page_desc_addr pa f :
  0 ≤ pa < 2 ^ 48 → pa mod PAGE_SIZE = 0 → Z.land f PTE_ADDR_MASK = 0 → Z.land (page_desc pa f) PTE_ADDR_MASK = pa.
Proof.
  intros Hp Ha Hf. unfold page_desc. rewrite !Z.land_lor_distr_l, Hf, <- Z.land_assoc, Z.land_diag, land_addr_mask by done.
  replace (Z.land PTE_VALID PTE_ADDR_MASK) with 0 by (by vm_compute). replace (Z.land PTE_TABLE PTE_ADDR_MASK) with 0 by (by vm_compute).
  replace (Z.land PTE_AF PTE_ADDR_MASK) with 0 by (by vm_compute). replace (Z.land PTE_SH_INNER PTE_ADDR_MASK) with 0 by (by vm_compute).
  replace (Z.land PTE_NG PTE_ADDR_MASK) with 0 by (by vm_compute). by rewrite !Z.lor_0_r.
Qed.

Lemma pflags_addr pf : Z.land (elf_pflags_to_pte pf) PTE_ADDR_MASK = 0.
Proof. unfold elf_pflags_to_pte. repeat case_decide; by vm_compute. Qed.

Section Claims.
Context {S : Type} `{!PageAllocator S}.
Implicit Types (st : ldst S) (T : tree).

(** The rights of a page of a valid segment. *)
Lemma segment_rights pa ph :
  ¬ (Z.testbit (p_flags ph) 1 = true ∧ Z.testbit (p_flags ph) 0 = true) →
  let e := page_desc pa (elf_pflags_to_pte (p_flags ph)) in
  el0_read e = true ∧ el0_write e = Z.testbit (p_flags ph) 1 ∧ el0_exec e = Z.testbit (p_flags ph) 0 ∧ (el0_write e && el0_exec e) = false.
Proof.
  intros Hwx. cbv zeta. destruct (page_desc_rights pa (elf_pflags_to_pte (p_flags ph))) as (-> & -> & ->).
  destruct (pflags_rights (p_flags ph)) as (-> & -> & -> & _). do 3 (split; [done|]).
  destruct (Z.testbit _ 1), (Z.testbit _ 0); try done. exfalso. by apply Hwx.
Qed.

(** Where a byte of a segment is and what it holds. *)
Lemma loaded_byte ctr kbuf l0 st T segs rs st' T' phs ph a :
  loaded ctr kbuf l0 st T segs rs st' T' → s_ph <$> reverse segs = phs → pairwise spans_disjoint phs →
  ph ∈ phs → seg_va ph ≤ a < seg_va ph + seg_pages ph * PAGE_SIZE →
  starved (frames (ld_pt st')) ∨
  ∃ pa, view segs (hw_pte (ld_pt st) l0) a = Some (page_desc pa (elf_pflags_to_pte (p_flags ph))) ∧
    0 ≤ pa < 2 ^ 48 ∧ pa mod PAGE_SIZE = 0 ∧ (∃ sg, sg ∈ segs ∧ pa ∈ seg_frames sg) ∧
    ld_ram st' !! (pa + a mod PAGE_SIZE) = Some (image_byte kbuf ph a) ∧
    ¬ (Z.testbit (p_flags ph) 1 = true ∧ Z.testbit (p_flags ph) 0 = true) ∧ 0 ≤ a < 2 ^ 48.
Proof.
  intros Hld Hph Hd Hin Ha.
  destruct (loaded_valid _ _ _ _ _ _ _ _ _ _ ph Hld Hph Hin) as (sg & Hsg & <- & Hok & Hv).
  assert (r_va (s_r sg) = seg_va (s_ph sg) ∧ r_pages (s_r sg) = seg_pages (s_ph sg) ∧ 0 < r_phys (s_r sg) ∧ r_phys (s_r sg) mod PAGE_SIZE = 0 ∧
    r_phys (s_r sg) + r_pages (s_r sg) * PAGE_SIZE ≤ PHYS_LIMIT) as (Hva & Hpg & Hp1 & Hp2 & Hp3).
  { clear - Hok. destruct sg as [ph r k]. destruct Hok as (_ & _ & ? & ? & _ & _ & ? & ? & ? & _). done. }
  destruct (ld_full _ _ _ _ _ _ _ _ _ Hld sg Hsg) as [Hk|]; [right|by left].
  destruct (seg_arith kbuf _ Hv) as (_ & _ & Hpn & Hva0 & Hval & _ & _ & Htop). unfold USER_STACK_TOP in Htop.
  set (pa := r_phys (s_r sg) + (a - seg_va (s_ph sg)) / PAGE_SIZE * PAGE_SIZE).
  assert (0 ≤ pa < 2 ^ 48 ∧ pa mod PAGE_SIZE = 0 ∧ pa + a mod PAGE_SIZE = r_phys (s_r sg) + (a - seg_va (s_ph sg))) as (Hpa & Hpal & Hsum).
  { unfold pa, PHYS_LIMIT, PAGE_SIZE in *. rewrite Hpg in Hp3. split_and!; dlia. }
  exists pa. split; [|split; [done|split; [done|split; [|split; [|split]]]]].
  - apply (view_hit kbuf); [| |done|done|].
    + pose proof (ld_segs _ _ _ _ _ _ _ _ _ Hld) as Hf. eapply Forall_impl; [exact Hf|]. intros [ph r k] (_ & _ & Hx & Hy & _ & _ & _ & _ & _ & Hz).
      cbn in *. lia.
    + rewrite <- Hph in Hd. apply pairwise_fmap_1 in Hd. apply pairwise_reverse in Hd; [done|].
      unfold spans_disjoint. tauto.
    + rewrite Hk, Hpg. done.
  - exists sg. split; [done|]. unfold seg_frames. apply elem_of_pages_at. exists ((a - seg_va (s_ph sg)) / PAGE_SIZE). rewrite Hpg. unfold PAGE_SIZE in *. split; [dlia|done].
  - rewrite Hsum, (ld_bytes _ _ _ _ _ _ _ _ _ Hld sg) by (done || rewrite Hpg; lia). do 2 f_equal. rewrite Hva. lia.
  - by destruct Hv as (_ & _ & _ & _ & _ & _ & ?).
  - unfold PAGE_SIZE in *. lia.
Qed.

(** The byte an EL0 access to [a] reaches. *)
Definition user_byte st (l0 a : Z) : option Z :=
  e ← hw_pte (ld_pt st) l0 a; ld_ram st !! (Z.land e PTE_ADDR_MASK + a mod PAGE_SIZE).

(** C4. [elf_load] on any file: it never faults.  It returns -1 having changed
    nothing or having given every page it took for segments back; or 0, and
    then the header is valid, the regions are exactly the PT_LOAD segments in
    order, each inside the file and below the stack top, readable and not both
    writable and executable; their frames are fresh, disjoint and the only ones
    taken besides page tables; they hold the file bytes followed by zeros and
    no other memory changed; executable ones were cleaned from the data cache
    and invalidated in the instruction cache line by line; the entry point lies
    in an executable segment; the header table is advertised exactly when a
    segment holds all of it. *)
Theorem elf_load_correct ctr kbuf l0 out st T :
  Forall is_byte kbuf → Z.of_nat (length kbuf) < 2 ^ 63 → pt_wf (ld_pt st) l0 T →
  ∃ r img st', elf_load ctr kbuf (Z.of_nat (length kbuf)) l0 out st = Some (r, (img, st')) ∧
    (r = -1 ∧ (img = out ∧ st' = st ∨ gave_back l0 st T img st') ∨
     r = 0 ∧ ∃ eh segs T', read_ehdr kbuf = Some eh ∧ elf_loaded ctr kbuf l0 st T eh segs img st' T').
Proof. apply elf_load_spec. Qed.

(** C22. The loaded program sees its file: when [elf_load] succeeds and the page
    spans of the segments do not overlap, every address of a segment's pages
    reads as the file says (file bytes, zeros for the rest) with exactly the
    rights of the segment's flags, and no page is writable and executable; the
    only exception is that the allocator has no page left for the page tables,
    which [elf_load] does not report. *)
Theorem elf_image_memory ctr kbuf l0 out st T img st' eh ph a :
  Forall is_byte kbuf → Z.of_nat (length kbuf) < 2 ^ 63 → pt_wf (ld_pt st) l0 T →
  elf_load ctr kbuf (Z.of_nat (length kbuf)) l0 out st = Some (0, (img, st')) → read_ehdr kbuf = Some eh →
  pairwise spans_disjoint (loads kbuf (e_phoff eh) 0 (e_phnum eh)) →
  ph ∈ loads kbuf (e_phoff eh) 0 (e_phnum eh) → seg_va ph ≤ a < seg_va ph + seg_pages ph * PAGE_SIZE →
  starved (frames (ld_pt st')) ∨
  user_byte st' l0 a = Some (image_byte kbuf ph a) ∧
  ∃ e, hw_pte (ld_pt st') l0 a = Some e ∧ el0_read e = true ∧ el0_write e = Z.testbit (p_flags ph) 1 ∧
    el0_exec e = Z.testbit (p_flags ph) 0 ∧ (el0_write e && el0_exec e) = false.
Proof.
  intros Hb Hsz Hwf E Eeh Hd Hin Ha.
  destruct (elf_load_spec ctr kbuf l0 out st T Hb Hsz Hwf) as (r & img1 & st1 & E1 & Hr). rewrite E in E1. injection E1 as <- <- <-.
  destruct Hr as [[? _]|(_ & eh' & segs & T' & Eeh' & _ & Hld & Hph & _)]; [done|]. rewrite Eeh in Eeh'. injection Eeh' as <-.
  destruct (loaded_byte _ _ _ _ _ _ _ _ _ _ ph a Hld Hph Hd Hin Ha) as [?|(pa & Hhw & Hpa & Hal & _ & Hram & Hwx & Ha48)]; [by left|right].
  rewrite <- (ld_hw _ _ _ _ _ _ _ _ _ Hld) in Hhw by done. split.
  - unfold user_byte. rewrite Hhw. cbn [mbind option_bind]. by rewrite page_desc_addr by (done || apply pflags_addr).
  - eexists. split; [exact Hhw|]. by apply segment_rights.
Qed.
End Claims.

(** ** Witness: a one-segment program over the bitmap allocator *)

(** Header, one program header (all of the file at 0x400000, 5000 bytes in
    memory, R+X) and four bytes of code. *)
Definition demo_elf : list Z :=
  [0x7F; 69; 76; 70; 2; 1; 1] ++ replicate 9 0 ++ le_bytes 2 2 ++ le_bytes 2 0xB7 ++ le_bytes 4 1
    ++ le_bytes 8 0x400078 ++ le_bytes 8 64 ++ le_bytes 8 0 ++ le_bytes 4 0 ++ le_bytes 2 64 ++ le_bytes 2 56 ++ le_bytes 2 1
    ++ replicate 6 0
    ++ le_bytes 4 1 ++ le_bytes 4 5 ++ le_bytes 8 0 ++ le_bytes 8 0x400000 ++ le_bytes 8 0 ++ le_bytes 8 124 ++ le_bytes 8 5000
    ++ le_bytes 8 4096 ++ [0xC0; 0x03; 0x5F; 0xD6].

Definition demo_ctr : Z := 0x84448004.
Definition demo_ld : ldst pmm := mk_ldst demo_space ∅ [] [].
Definition demo_out : elf_image := mk_image 0 [] 0 0 0.
Definition demo_phdr : Elf64_Phdr := mk_phdr 1 5 0 0x400000 124 5000.
Lemma demo_elf_bytes : Forall is_byte demo_elf.
Proof.
  assert (Forall (λ b, bool_decide (is_byte b) = true) demo_elf) as H.
  { unfold is_byte. vm_compute. repeat constructor. }
  eapply Forall_impl; [exact H|]. intros b Hb. by apply bool_decide_eq_true in Hb.
Qed.

Lemma demo_elf_result : fst <$> elf_load demo_ctr demo_elf (Z.of_nat (length demo_elf)) demo_l0 demo_out demo_ld = Some 0.
Proof. vm_compute. reflexivity. Qed.

Lemma elf_load_correct_witness :
  Forall is_byte demo_elf ∧ pt_wf (ld_pt demo_ld) demo_l0 {[ [] := demo_l0 ]} ∧
  ∃ img st' eh segs T', elf_load demo_ctr demo_elf (Z.of_nat (length demo_elf)) demo_l0 demo_out demo_ld = Some (0, (img, st')) ∧
    elf_loaded demo_ctr demo_elf demo_l0 demo_ld {[ [] := demo_l0 ]} eh segs img st' T'.
Proof.
  split; [exact demo_elf_bytes|]. split; [exact demo_space_wf|].
  destruct (elf_load_correct demo_ctr demo_elf demo_l0 demo_out demo_ld _ demo_elf_bytes eq_refl demo_space_wf)
    as (r & img & st' & E & Hr). pose proof demo_elf_result as Hres. rewrite E in Hres. cbn [fmap option_fmap option_map fst] in Hres.
  destruct Hr as [[-> _]|(-> & eh & segs & T' & _ & H)]; [discriminate Hres|].
  exists img, st', eh, segs, T'. split; [exact E|exact H].
Defined.

Lemma elf_image_memory_witness :
  ∃ img st', elf_load demo_ctr demo_elf (Z.of_nat (length demo_elf)) demo_l0 demo_out demo_ld = Some (0, (img, st')) ∧
    (starved (frames (ld_pt st')) ∨ user_byte st' demo_l0 0x400078 = Some (image_byte demo_elf demo_phdr 0x400078)).
Proof.
  pose proof demo_elf_result as Hres.
  destruct (elf_load demo_ctr demo_elf (Z.of_nat (length demo_elf)) demo_l0 demo_out demo_ld) as [[r [img st']]|] eqn:E; [|discriminate Hres].
  cbn [fmap option_fmap option_map fst] in Hres. injection Hres as ->. exists img, st'. split; [reflexivity|].
  assert (∃ eh, read_ehdr demo_elf = Some eh ∧ loads demo_elf (e_phoff eh) 0 (e_phnum eh) = [demo_phdr]) as (eh & Eeh & Hph).
  { eexists. split; [vm_compute; reflexivity|]. vm_compute. reflexivity. }
  destruct (elf_image_memory demo_ctr demo_elf demo_l0 demo_out demo_ld {[ [] := demo_l0 ]} img st' eh demo_phdr 0x400078
    demo_elf_bytes eq_refl demo_space_wf E Eeh) as [H|[H _]]; [..|right; exact H].
  - rewrite Hph. apply pairwise_singleton.
  - rewrite Hph. apply elem_of_cons. left. reflexivity.
  - vm_compute. split; [discriminate|reflexivity].
  - left. exact H.
Defined.
