(* ===== verification/AddrSpace.v ===== *)
(** The address space of a user task: the memory system calls of
    [src/src/syscall/syscall.c] ([mmap], [munmap], [mprotect], [brk]) and the two
    demand-paging handlers of [src/src/sched/sched.c], with the dispatch of
    user aborts in [src/src/exception/exception.c].

    They join three components: the areas ([Vma]), the page tables ([Mmu]) and
    kernel memory, which is one state [M] below both: the areas allocate their
    page arrays in it and the tables take their pages from it.  [space] is the
    part of [task_t] these functions use, with the contents of the pages they
    hand out; [None] is a fault.

    The invariant that ties the parts together is [coherent]: what the areas
    record as resident is exactly what the hardware finds, with the recorded
    protection. *)
From S2P Require Import Prelude Pmm PageAlloc Heap KernelMem Vma Mmu.

Definition USER_STACK_PAGES : Z := 4.
Definition USER_STACK_PAGES_MAX : Z := 64.
Definition USER_STACK_GROWN_MAX : nat := 60.
Definition USER_MMAP_BASE : Z := 0x01000000.
Definition USER_BRK_BASE : Z := 0x20000000.
Definition USER_BRK_RESERVE_PAGES : Z := 4096.
Definition MM_MAX_USER_VA : Z := USER_VA_TOP.

Definition MAP_SHARED : Z := 0x01.
Definition MAP_FIXED : Z := 0x10.
Definition MAP_ANONYMOUS : Z := 0x20.

Definition ENOMEM : Z := 12.
Definition EINVAL : Z := 22.
Definition EOPNOTSUPP : Z := 95.

Definition PROT_ALL : Z := Z.lor (Z.lor Vma.VMA_PROT_READ Vma.VMA_PROT_WRITE) Vma.VMA_PROT_EXEC.

Record space (M : Type) := mk_space {
  sp_pt : pt M;
  sp_arrs : gmap Z (list Z);
  sp_es : list vma;
  sp_ram : gmap Z (list Z);
  sp_grown : list (Z * Z);
  sp_ttbr0 : Z;
  sp_brk_base : Z;
  sp_brk_cur : Z;
  sp_tls : Z;
  sp_errno : Z;
}.
Arguments mk_space {M}.
Arguments sp_pt {M}.
Arguments sp_arrs {M}.
Arguments sp_es {M}.
Arguments sp_ram {M}.
Arguments sp_grown {M}.
Arguments sp_ttbr0 {M}.
Arguments sp_brk_base {M}.
Arguments sp_brk_cur {M}.
Arguments sp_tls {M}.
Arguments sp_errno {M}.

(** A cleared page. *)
Definition zero_page : list Z := replicate 4096 0.
#[global] Arguments zero_page : simpl never.

Section Ops.
Context {M : Type} `{!KernelMem M}.
Implicit Types sp : space M.

(** The state the area operations work on, and their result put back. *)
Definition sp_kst sp : kst M := mk_kst (frames (sp_pt sp)) (sp_arrs sp).

Definition with_pt sp (t : pt M) : space M :=
  mk_space t (sp_arrs sp) (sp_es sp) (sp_ram sp) (sp_grown sp) (sp_ttbr0 sp) (sp_brk_base sp) (sp_brk_cur sp)
    (sp_tls sp) (sp_errno sp).

Definition with_areas sp (st : kst M) (es : list vma) : space M :=
  mk_space (mk_pt (kmem st) (tabs (sp_pt sp)) (mmu_on (sp_pt sp)) (tlbi_log (sp_pt sp))) (arrs st) es
    (sp_ram sp) (sp_grown sp) (sp_ttbr0 sp) (sp_brk_base sp) (sp_brk_cur sp) (sp_tls sp) (sp_errno sp).

Definition with_brk sp (c : Z) : space M :=
  mk_space (sp_pt sp) (sp_arrs sp) (sp_es sp) (sp_ram sp) (sp_grown sp) (sp_ttbr0 sp) (sp_brk_base sp) c
    (sp_tls sp) (sp_errno sp).

(** [memset(PHYS_TO_VIRT(pa), 0, PAGE_SIZE)] *)
Definition clear_page sp (pa : Z) : space M :=
  mk_space (sp_pt sp) (sp_arrs sp) (sp_es sp) (<[pa := zero_page]> (sp_ram sp)) (sp_grown sp) (sp_ttbr0 sp)
    (sp_brk_base sp) (sp_brk_cur sp) (sp_tls sp) (sp_errno sp).

Definition add_grown sp (pa va : Z) : space M :=
  mk_space (sp_pt sp) (sp_arrs sp) (sp_es sp) (sp_ram sp) (sp_grown sp ++ [(pa, va)]) (sp_ttbr0 sp)
    (sp_brk_base sp) (sp_brk_cur sp) (sp_tls sp) (sp_errno sp).

Definition alloc_page sp : option (Z * space M) :=
  '(pa, m) ← km_alloc_page (frames (sp_pt sp));
  Some (pa, with_pt sp (mk_pt m (tabs (sp_pt sp)) (mmu_on (sp_pt sp)) (tlbi_log (sp_pt sp)))).

(** [tlbi vae1] for one page of the task. *)
Definition flush_page sp (va : Z) : space M :=
  let arg := Z.lor (shl64 (ttbr_asid (sp_ttbr0 sp)) 48) (Z.shiftr va 12) in
  with_pt sp (mk_pt (frames (sp_pt sp)) (tabs (sp_pt sp)) (mmu_on (sp_pt sp)) (tlbi_log (sp_pt sp) ++ [arg])).

(** [fail(err)] *)
Definition fail sp (err : Z) : Z * space M :=
  (-1, if decide (sp_tls sp ≠ 0)
       then mk_space (sp_pt sp) (sp_arrs sp) (sp_es sp) (sp_ram sp) (sp_grown sp) (sp_ttbr0 sp) (sp_brk_base sp)
              (sp_brk_cur sp) (sp_tls sp) err
       else sp).

(** ** Demand paging *)

Definition sched_try_grow_stack sp (far : Z) : option (bool * space M) :=
  if decide (sp_ttbr0 sp = 0) then Some (false, sp)
  else
    let stack_max_lo := USER_STACK_TOP - USER_STACK_PAGES_MAX * PAGE_SIZE in
    let stack_initial_lo := USER_STACK_TOP - USER_STACK_PAGES * PAGE_SIZE in
    if decide (far < stack_max_lo ∨ stack_initial_lo ≤ far) then Some (false, sp)
    else if decide (USER_STACK_GROWN_MAX ≤ length (sp_grown sp))%nat then Some (false, sp)
    else
      '(pa, sp1) ← alloc_page sp;
      if decide (pa = 0) then Some (false, sp1)
      else
        let sp2 := clear_page sp1 pa in
        let va := Z.land far (not64 (PAGE_SIZE - 1)) in
        let flags := Z.lor (Z.lor (Z.lor (PTE_ATTRIDX 1) PTE_AP_RW_EL0) PTE_UXN) PTE_PXN in
        t ← mmu_map_user_range (sp_pt sp2) (ttbr_baddr (sp_ttbr0 sp)) va pa 1 flags;
        Some (true, add_grown (flush_page (with_pt sp2 t) va) pa va).

(** The access check against the recorded protection. *)
Definition access_ok (prot : Z) (is_write is_exec : bool) : bool :=
  if is_exec then bool_decide (Z.land prot Vma.VMA_PROT_EXEC ≠ 0)
  else if is_write then bool_decide (Z.land prot Vma.VMA_PROT_WRITE ≠ 0)
  else bool_decide (Z.land prot Vma.VMA_PROT_READ ≠ 0).

Definition sched_try_handle_vma_fault sp (far : Z) (is_write is_exec : bool) : option (bool * space M) :=
  if decide (sp_ttbr0 sp = 0) then Some (false, sp)
  else match vma_find (sp_es sp) far with
  | None => Some (false, sp)
  | Some i =>
      v ← sp_es sp !! i;
      if negb (access_ok (v_prot v) is_write is_exec) then Some (false, sp)
      else
        let va := Z.land far (not64 (PAGE_SIZE - 1)) in
        let idx := (va -w v_start v) / PAGE_SIZE in
        if decide ((v_end v -w v_start v) / PAGE_SIZE ≤ idx) then Some (false, sp)
        else
          arr ← sp_arrs sp !! v_pages v;
          old ← arr_get arr idx;
          if decide (old ≠ 0) then Some (false, sp)
          else
            '(pa, sp1) ← alloc_page sp;
            if decide (pa = 0) then Some (false, sp1)
            else
              let sp2 := clear_page sp1 pa in
              t ← mmu_map_user_range (sp_pt sp2) (ttbr_baddr (sp_ttbr0 sp)) va pa 1 (mmu_prot_to_flags (v_prot v));
              arr' ← arr_set arr idx pa;
              let sp3 := with_areas (with_pt sp2 t) (mk_kst (frames t) (<[v_pages v := arr']> (sp_arrs sp))) (sp_es sp) in
              Some (true, flush_page sp3 va)
  end.

(** A translation fault at level 1, 2 or 3. *)
Definition is_translation_fault (dfsc : Z) : bool := bool_decide (dfsc = 5 ∨ dfsc = 6 ∨ dfsc = 7).

(** EC_DATA_ABORT_LO and EC_INST_ABORT_LO: whether the task resumes. *)
Definition data_abort sp (dfsc wnr far : Z) : option (bool * space M) :=
  if is_translation_fault dfsc then
    '(b, sp1) ← sched_try_grow_stack sp far;
    if (b : bool) then Some (true, sp1) else sched_try_handle_vma_fault sp1 far (bool_decide (wnr ≠ 0)) false
  else Some (false, sp).

Definition inst_abort sp (dfsc far : Z) : option (bool * space M) :=
  if is_translation_fault dfsc then sched_try_handle_vma_fault sp far false true else Some (false, sp).

(** ** System calls *)

Definition mmap_range_ok (start en : Z) : bool :=
  if decide (en ≤ start) then false else if decide (MM_MAX_USER_VA < en) then false else true.

(** The search, from [candidate]; every step skips an area. *)
Fixpoint find_free (es : list vma) (candidate len : Z) (fuel : nat) : option Z :=
  match fuel with
  | O => None
  | S f =>
      if decide (candidate +w len ≤ MM_MAX_USER_VA) then
        match vma_find_overlap es candidate (candidate +w len) with
        | None => Some candidate
        | Some i => hit ← es !! i; find_free es (PAGE_ALIGN_UP (v_end hit)) len f
        end
      else Some 0
  end.

Definition mmap_find_free (es : list vma) (len : Z) : option Z :=
  find_free es USER_MMAP_BASE len (S (length es)).

(** The range of the new area, or an error number. *)
Definition mmap_place (es : list vma) (addr length flags : Z) : option (Z * Z + Z) :=
  if decide (Z.land flags MAP_FIXED ≠ 0) then
    if decide (Z.land addr (PAGE_SIZE - 1) ≠ 0) then Some (inr EINVAL)
    else
      let start := addr in
      let en := addr +w length in
      if negb (mmap_range_ok start en) then Some (inr EINVAL)
      else match vma_find_overlap es start en with
           | Some _ => Some (inr EINVAL)
           | None => Some (inl (start, en))
           end
  else
    let want := PAGE_ALIGN_UP length in
    if decide (want < length) then Some (inr ENOMEM)
    else
      start ← mmap_find_free es want;
      if decide (start = 0) then Some (inr ENOMEM)
      else
        let en := start +w want in
        if negb (mmap_range_ok start en) then Some (inr ENOMEM) else Some (inl (start, en)).

Definition sys_mmap sp (addr length prot flags fd offset : Z) : option (Z * space M) :=
  if decide (sp_ttbr0 sp = 0) then Some (fail sp EINVAL)
  else if decide (Z.land prot (not64 PROT_ALL) ≠ 0) then Some (fail sp EINVAL)
  else if decide (Z.land flags MAP_SHARED ≠ 0) then Some (fail sp EOPNOTSUPP)
  else if decide (Z.land flags MAP_ANONYMOUS = 0) then Some (fail sp EOPNOTSUPP)
  else if decide (offset ≠ 0 ∨ fd ≠ 2 ^ 64 - 1) then Some (fail sp EINVAL)
  else if decide (length = 0) then Some (fail sp EINVAL)
  else
    place ← mmap_place (sp_es sp) addr length flags;
    match place with
    | inr err => Some (fail sp err)
    | inl (start, en) =>
        '(r, (st, es)) ← vma_add (sp_kst sp) (sp_es sp) start en (wrap32 prot) (Z.lor VMA_ANONYMOUS VMA_SHARED);
        let sp1 := with_areas sp st es in
        match r with
        | None => Some (fail sp1 ENOMEM)
        | Some _ => Some (start, sp1)
        end
    end.

(** The common argument checks of [munmap] and [mprotect]: the end of the range. *)
Definition range_end (addr length : Z) : option Z :=
  if decide (MM_MAX_USER_VA < length ∨ MM_MAX_USER_VA -w length < addr) then None
  else
    let en := PAGE_ALIGN_DOWN (addr +w length -w 1) +w PAGE_SIZE in
    if decide (MM_MAX_USER_VA < en) then None else Some en.

Definition sys_munmap sp (addr length : Z) : option (Z * space M) :=
  if decide (sp_ttbr0 sp = 0) then Some (fail sp EINVAL)
  else if decide (Z.land addr (PAGE_SIZE - 1) ≠ 0 ∨ length = 0) then Some (fail sp EINVAL)
  else if decide (addr = 0) then Some (0, sp)
  else match range_end addr length with
  | None => Some (fail sp EINVAL)
  | Some en =>
      '(released, (st, es)) ← vma_unmap_range (sp_kst sp) (sp_es sp) addr en;
      let sp1 := with_areas sp st es in
      if decide (released < 0) then Some (fail sp1 ENOMEM)
      else
        t ← mmu_unmap_user_range (sp_pt sp1) (ttbr_baddr (sp_ttbr0 sp)) addr ((en -w addr) / PAGE_SIZE);
        Some (0, with_pt sp1 t)
  end.

Definition sys_mprotect sp (addr length prot : Z) : option (Z * space M) :=
  if decide (sp_ttbr0 sp = 0) then Some (fail sp EINVAL)
  else if decide (Z.land addr (PAGE_SIZE - 1) ≠ 0 ∨ length = 0) then Some (fail sp EINVAL)
  else if decide (Z.land prot (not64 PROT_ALL) ≠ 0) then Some (fail sp EINVAL)
  else if decide (addr = 0) then Some (0, sp)
  else match range_end addr length with
  | None => Some (fail sp EINVAL)
  | Some en =>
      '(touched, (st, es)) ← vma_protect_range (sp_kst sp) (sp_es sp) addr en (wrap32 prot);
      let sp1 := with_areas sp st es in
      if decide (touched < 0) then Some (fail sp1 ENOMEM)
      else
        '(_, t) ← mmu_protect_user_range (sp_pt sp1) (ttbr_baddr (sp_ttbr0 sp)) addr ((en -w addr) / PAGE_SIZE)
                    (mmu_prot_to_flags (wrap32 prot));
        Some (0, with_pt sp1 t)
  end.

(** Extending the heap area at index [i] in place. *)
Definition brk_extend sp (i : nat) (v : vma) (new_end : Z) : option (bool * space M) :=
  let grow := new_end -w v_end v in
  let old_n := (v_end v -w v_start v) / PAGE_SIZE in
  '(bigger, m) ← km_malloc (frames (sp_pt sp)) ((old_n +w grow / PAGE_SIZE) *w 8);
  if decide (bigger = 0) then Some (false, with_areas sp (mk_kst m (sp_arrs sp)) (sp_es sp))
  else
    old ← read_array (sp_kst sp) (v_pages v) 0 old_n;
    let arr := old ++ replicate (Z.to_nat (grow / PAGE_SIZE)) 0 in
    st ← free_array (mk_kst m (<[bigger := arr]> (sp_arrs sp))) (v_pages v);
    let v' := mk_vma (v_start v) new_end (v_prot v) (v_flags v) bigger (v_next v) in
    Some (true, with_areas sp st (<[i := v']> (sp_es sp))).

Definition sys_brk sp (addr : Z) : option (Z * space M) :=
  if decide (sp_ttbr0 sp = 0) then Some (sp_brk_cur sp, sp)
  else
    let lo := sp_brk_base sp in
    let hi := sp_brk_base sp +w USER_BRK_RESERVE_PAGES *w PAGE_SIZE in
    if decide (addr = 0) then Some (sp_brk_cur sp, sp)
    else if decide (addr < lo ∨ hi < addr) then Some (sp_brk_cur sp, sp)
    else if decide (addr < sp_brk_cur sp) then Some (sp_brk_cur sp, sp)
    else
      let new_end := PAGE_ALIGN_UP addr in
      match vma_find (sp_es sp) (sp_brk_cur sp) with
      | None =>
          if decide (lo < new_end) then
            '(_, (st, es)) ← vma_add (sp_kst sp) (sp_es sp) lo new_end
                               (Z.lor Vma.VMA_PROT_READ Vma.VMA_PROT_WRITE) VMA_ANONYMOUS;
            Some (addr, with_brk (with_areas sp st es) addr)
          else Some (addr, with_brk sp addr)
      | Some i =>
          v ← sp_es sp !! i;
          if decide (v_end v < new_end) then
            '(ok, sp1) ← brk_extend sp i v new_end;
            if (ok : bool) then Some (addr, with_brk sp1 addr) else Some (sp_brk_cur sp, sp1)
          else Some (addr, with_brk sp addr)
      end.
End Ops.

(** ** Recording a page in an area *)

Lemma insert_split {A} (l : list A) k x y :
  l !! k = Some x → l = take k l ++ x :: drop (S k) l ∧ <[k := y]> l = take k l ++ y :: drop (S k) l.
Proof.
  intros Hk. split; [symmetry; by apply take_drop_middle|].
  apply insert_take_drop. by eapply lookup_lt_Some.
Qed.

Section Record_page.
Context {M : Type} `{!KernelMem M}.
Context (st : kst M) (l1 l2 : list vma) (v : vma) (arr : list Z) (idx pa : Z) (m' : M).
Context (Hwf : vma_wf st (l1 ++ v :: l2)).
Context (Harr : arrs st !! v_pages v = Some arr) (Hidx : 0 ≤ idx < vma_npages v).
Context (Hold : arr !! Z.to_nat idx = Some 0) (Hpa : pa ≠ 0) (Hfresh : pa ∉ km_frames (kmem st)).
Context (Hi : km_inv m') (Hl : km_live m' = km_live (kmem st)).
Context (Hpa' : pa ∈ km_frames m').
Context (Hres : ∀ x, x ∈ resident st (l1 ++ v :: l2) → x ∈ km_frames m').

Definition recorded : kst M := mk_kst m' (<[v_pages v := <[Z.to_nat idx := pa]> arr]> (arrs st)).

Lemma recorded_ok : Forall (vma_ok st) (l1 ++ v :: l2).
Proof using Hwf. apply Hwf. Qed.

Lemma recorded_v : vma_ok st v.
Proof using Hwf. pose proof recorded_ok as H. rewrite Forall_forall in H. apply H, elem_of_app. right. by left. Qed.

Lemma recorded_other w : w ∈ l1 ∨ w ∈ l2 → arrs recorded !! v_pages w = arrs st !! v_pages w.
Proof using Hwf.
  intros Hw. cbn. rewrite lookup_insert_ne; [done|]. intros E.
  by eapply (wf_ptr_distinct st l1 v l2 w), eq_sym; [apply Hwf|..].
Qed.

Lemma recorded_backing : backing recorded v = <[Z.to_nat idx := pa]> (backing st v).
Proof using Harr Hidx.
  unfold backing. cbn. rewrite lookup_insert_eq, Harr. cbn. by rewrite take_insert_lt by lia.
Qed.

Lemma recorded_old : backing st v !! Z.to_nat idx = Some 0.
Proof using Harr Hidx Hold. unfold backing. rewrite Harr. cbn. by rewrite lookup_take_lt by lia. Qed.

Lemma recorded_resident : resident recorded (l1 ++ v :: l2) ≡ₚ pa :: resident st (l1 ++ v :: l2).
Proof using All.
  rewrite !resident_app, !resident_cons.
  rewrite (resident_frame st recorded l1), (resident_frame st recorded l2) by (intros w Hw; apply recorded_other; tauto).
  rewrite recorded_backing. destruct (insert_split _ _ _ pa recorded_old) as [E ->]. rewrite E at 3.
  rewrite !filter_app, !filter_cons, decide_True, decide_False by tauto.
  rewrite <- !app_assoc. cbn [app]. rewrite <- !Permutation_middle. done.
Qed.

Lemma recorded_wf : vma_wf recorded (l1 ++ v :: l2).
Proof using All.
  pose proof Hwf as [? Hcnt Hok Hsort Hptr Hfr Hnd]. constructor; [done|done| |done|done| |].
  - rewrite Forall_forall in Hok |- *. intros w Hw. pose proof (Hok w Hw) as Hokw.
    apply elem_of_app in Hw as [Hw|Hw]; [eapply vma_ok_frame; [apply recorded_other; by left|cbn; by rewrite Hl|done]|].
    apply elem_of_cons in Hw as [->|Hw]; [|eapply vma_ok_frame; [apply recorded_other; by right|cbn; by rewrite Hl|done]].
    destruct Hokw as (?&?&?&?&?&?& arr' & Ha & Hn). rewrite Harr in Ha. injection Ha as <-.
    split_and!; [done..|cbn; by rewrite Hl|]. exists (<[Z.to_nat idx := pa]> arr). split; [cbn; by rewrite lookup_insert_eq|].
    by rewrite length_insert.
  - intros x. rewrite recorded_resident. intros Hx. apply elem_of_cons in Hx as [->|Hx]; [done|]. by apply Hres.
  - rewrite recorded_resident. constructor; [|done]. intros Hx. by apply Hfresh, Hfr.
Qed.

Lemma recorded_maps a x :
  maps recorded (l1 ++ v :: l2) a x ↔
    if decide (v_start v + idx * PAGE_SIZE ≤ a < v_start v + (idx + 1) * PAGE_SIZE)
    then x = (v_prot v, v_flags v, pa) else maps st (l1 ++ v :: l2) a x.
Proof using Hwf Harr Hidx Hold.
  rewrite !maps_app, !maps_cons.
  rewrite (maps_frame st recorded l1), (maps_frame st recorded l2) by (intros w Hw; apply recorded_other; tauto).
  destruct (vma_npages_ok st v recorded_v) as (_ & Hn & He). pose proof (backing_length st v recorded_v) as Hlen.
  pose proof recorded_v as (Hs0 & Hse & _ & Hsa & _). unfold one_maps. rewrite recorded_backing.
  assert (∀ a, v_start v ≤ a < v_end v →
    (v_start v + idx * PAGE_SIZE ≤ a < v_start v + (idx + 1) * PAGE_SIZE ↔ Z.to_nat ((a - v_start v) / PAGE_SIZE) = Z.to_nat idx)) as Hpage.
  { intros b Hb. unfold PAGE_SIZE in *. split; intros Hx; [f_equal; dlia|].
    assert ((b - v_start v) / 4096 = idx) by (apply Z2Nat.inj; [dlia|lia|done]). dlia. }
  case_decide as Hin.
  - assert (v_start v ≤ a < v_end v) as Hav by (unfold PAGE_SIZE in *; nia).
    assert (∀ l, (∀ w, w ∈ l → vma_before w v ∨ vma_before v w) → ¬ maps st l a x) as Hno.
    { intros l Hb (w & Hw & Ha & _). destruct (Hb w Hw) as [Hbw|Hbw]; unfold vma_before in Hbw; lia. }
    pose proof (vw_sorted _ _ Hwf) as Hsort. apply pairwise_app in Hsort as (_ & [Hv2 _] & Hb).
    rewrite Forall_forall in Hv2.
    assert (¬ maps st l1 a x) as H1 by (apply Hno; intros w Hw; left; apply Hb; [done|by left]).
    assert (¬ maps st l2 a x) as H2 by (apply Hno; intros w Hw; right; by apply Hv2).
    rewrite (proj1 (Hpage a Hav) Hin). rewrite list_lookup_insert_eq by (eapply lookup_lt_Some, recorded_old).
    split; [intros [?|[(_ & p & [= <-] & ->)|?]]; done|]. intros ->. right. left. split; [done|]. by exists pa.
  - rewrite maps_app, maps_cons. unfold one_maps.
    split; (intros [?|[(Hr & p & Hp & ->)|?]]; [by left| |right; by right]); right; left; (split; [done|]);
      exists p; (split; [|done]); [rewrite list_lookup_insert_ne in Hp|rewrite list_lookup_insert_ne]; try done;
      intros E; by apply Hin, Hpage.
Qed.
End Record_page.

(** ** Extending an area in place *)

Section Extend.
Context {M : Type} `{!KernelMem M}.
Context (st : kst M) (l1 l2 : list vma) (v : vma) (ne p : Z) (m' : M).
Context (Hwf : vma_wf st (l1 ++ v :: l2)).
Context (Hne : v_end v < ne < 2 ^ 64) (Hal : ne mod PAGE_SIZE = 0) (Hroom : ∀ w, w ∈ l2 → ne ≤ v_start w).
Context (Hi : km_inv m') (Hf : km_frames m' = km_frames (kmem st)).
Context (Hp : p ∉ km_live (kmem st)) (Hl : km_live m' = ({[p]} ∪ km_live (kmem st)) ∖ {[v_pages v]}).

Let grown := backing st v ++ replicate (Z.to_nat ((ne - v_end v) / PAGE_SIZE)) 0.
Let v' := mk_vma (v_start v) ne (v_prot v) (v_flags v) p (v_next v).
Let st' := mk_kst m' (delete (v_pages v) (<[p := grown]> (arrs st))).

Lemma extend_v : vma_ok st v.
Proof using Hwf.
  pose proof (vw_ok _ _ Hwf) as H. rewrite Forall_forall in H. apply H, elem_of_app. right. by left.
Qed.

Lemma extend_ptr w : w ∈ l1 ∨ w ∈ l2 → v_pages w ≠ v_pages v ∧ v_pages w ≠ p.
Proof using Hwf Hp.
  intros Hw. split; [by apply (wf_ptr_distinct st l1 v l2 w); [apply Hwf|]|].
  eapply fresh_ptr; [apply Hwf|done|]. rewrite elem_of_app, elem_of_cons. destruct Hw; [by left|right; by right].
Qed.

Lemma extend_arrs w : w ∈ l1 ∨ w ∈ l2 → arrs st' !! v_pages w = arrs st !! v_pages w.
Proof using Hwf Hp.
  intros Hw. destruct (extend_ptr w Hw). cbn. by rewrite lookup_delete_ne, lookup_insert_ne by done.
Qed.

Lemma extend_array : arrs st' !! p = Some grown.
Proof using Hwf Hp.
  cbn. rewrite lookup_delete_ne; [by rewrite lookup_insert_eq|]. intros E. apply Hp. rewrite <- E. apply extend_v.
Qed.

Lemma extend_npages : vma_npages v' = Z.of_nat (length grown).
Proof using Hwf Hne Hal.
  pose proof (backing_length _ _ extend_v) as Hb. destruct (vma_npages_ok _ _ extend_v) as (Hn & _ & _).
  destruct extend_v as (? & ? & ? & ? & ? & _). unfold grown. rewrite length_app, length_replicate.
  unfold vma_npages at 1. cbn. rewrite sub64_small by lia. unfold PAGE_SIZE in *. dlia.
Qed.

Lemma extend_backing : backing st' v' = grown.
Proof using Hwf Hne Hal Hp.
  unfold backing. rewrite extend_npages, Nat2Z.id. cbn [v_pages v']. rewrite extend_array. apply take_ge. done.
Qed.

Lemma extend_resident : resident st' (l1 ++ v' :: l2) = resident st (l1 ++ v :: l2).
Proof using Hwf Hne Hal Hp.
  rewrite !resident_app, !resident_cons, extend_backing.
  rewrite (resident_frame st st' l1), (resident_frame st st' l2) by (intros w Hw; apply extend_arrs; (by left) || by right).
  unfold grown. rewrite filter_app. do 2 f_equal.
  assert (∀ n, filter (λ x, x ≠ 0) (replicate n 0) = []) as -> by (induction n; cbn; [done|by rewrite decide_False by tauto]).
  by rewrite app_nil_r.
Qed.

Lemma extend_wf : vma_wf st' (l1 ++ v' :: l2).
Proof using All.
  pose proof Hwf as [Hinv Hcnt Hok Hsort Hptr Hfr Hnd]. pose proof extend_v as (H1 & H2 & _ & H4 & _ & Hlv & _).
  constructor; [done| | | | | |by rewrite extend_resident].
  - rewrite length_app in *. done.
  - rewrite Forall_forall in Hok |- *. intros w Hw.
    assert (w ∈ l1 ∨ w ∈ l2 → vma_ok st' w) as Ho.
    { intros Hw'. apply (vma_ok_frame st); [by apply extend_arrs| |apply Hok; destruct Hw'; set_solver].
      cbn. rewrite Hl. destruct (extend_ptr w Hw'). set_solver. }
    apply elem_of_app in Hw as [Hw|[->|Hw]%elem_of_cons]; [by apply Ho; left| |by apply Ho; right].
    unfold vma_ok. cbn. split_and!; [done|lia|lia|done|done| |].
    + rewrite Hl. set_solver.
    + exists grown. split; [apply extend_array|]. pose proof extend_npages. lia.
  - apply pairwise_app in Hsort as (Hs1 & [_ Hs3] & Hs5). apply pairwise_app. split; [done|].
    split; [split; [|done]|].
    + apply Forall_forall. intros w Hw. unfold vma_before. cbn. by apply Hroom.
    + intros x y Hx [->|Hy]%elem_of_cons; [|apply Hs5; [done|by right]].
      specialize (Hs5 x v Hx ltac:(by left)). done.
  - rewrite fmap_app, fmap_cons in *. cbn. rewrite <- Permutation_middle in *. apply NoDup_cons in Hptr as [_ Hptr].
    apply NoDup_cons. split; [|done]. rewrite <- fmap_app. intros (w & E & Hw%elem_of_app)%list_elem_of_fmap.
    destruct (extend_ptr w Hw). congruence.
  - intros x. rewrite extend_resident. cbn. rewrite Hf. apply Hfr.
Qed.

Lemma extend_maps a x :
  maps st' (l1 ++ v' :: l2) a x ↔
    maps st (l1 ++ v :: l2) a x ∨ (v_end v ≤ a < ne ∧ x = (v_prot v, v_flags v, 0)).
Proof using Hwf Hne Hal Hp.
  rewrite !maps_app, !maps_cons, extend_backing.
  rewrite (maps_frame st st' l1), (maps_frame st st' l2) by (intros w Hw; apply extend_arrs; (by left) || by right).
  pose proof (backing_length _ _ extend_v) as Hb. destruct (vma_npages_ok _ _ extend_v) as (Hn & _ & _).
  pose proof extend_v as (? & ? & ? & ? & ? & _). unfold grown.
  rewrite (one_maps_join v (mk_vma (v_end v) ne (v_prot v) (v_flags v) 0 0)); cbn; try done; try lia.
  enough (one_maps (mk_vma (v_end v) ne (v_prot v) (v_flags v) 0 0)
    (replicate (Z.to_nat ((ne - v_end v) / PAGE_SIZE)) 0) a x ↔ (v_end v ≤ a < ne ∧ x = (v_prot v, v_flags v, 0))) by tauto.
  unfold one_maps. cbn. split.
  - intros (Ha & q & [-> _]%lookup_replicate & ->). done.
  - intros [Ha ->]. split; [done|]. exists 0. split; [|done]. apply lookup_replicate. split; [done|].
    unfold PAGE_SIZE in *. dlia.
Qed.
End Extend.

(** ** The invariant *)

Section Space.
Context {M : Type} `{!KernelMem M}.
Implicit Types (sp : space M) (T : tree).

(** What the hardware finds, and what the areas say. *)
Definition hw sp (a : Z) : option Z := hw_pte (sp_pt sp) (ttbr_baddr (sp_ttbr0 sp)) a.
Definition area sp (a : Z) (x : Z * Z * Z) : Prop := maps (sp_kst sp) (sp_es sp) a x.

Record sp_wf sp T : Prop := {
  sw_vma : vma_wf (sp_kst sp) (sp_es sp);
  sw_pt : pt_wf (sp_pt sp) (ttbr_baddr (sp_ttbr0 sp)) T;
  sw_ttbr : sp_ttbr0 sp ≠ 0;
  sw_data x : x ∈ resident (sp_kst sp) (sp_es sp) → x ∉ (map_img T : gset Z);
  sw_top a x : area sp a x → a < USER_VA_TOP;
}.

(** Resident pages are mapped with exactly the recorded protection, and in the
    window above [USER_MMAP_BASE] nothing else is mapped. *)
Record coherent sp : Prop := {
  coh_resident a pr fl p :
    area sp a (pr, fl, p) → p ≠ 0 → hw sp a = Some (page_desc p (mmu_prot_to_flags pr));
  coh_window a e :
    USER_MMAP_BASE ≤ a < USER_VA_TOP → hw sp a = Some e → ∃ pr fl p, area sp a (pr, fl, p) ∧ p ≠ 0;
}.

Lemma area_nonneg sp T a x : sp_wf sp T → area sp a x → 0 ≤ a.
Proof.
  intros Hwf (v & Hv & Ha & _). pose proof (vw_ok _ _ (sw_vma _ _ Hwf)) as Hok. rewrite Forall_forall in Hok.
  destruct (Hok v Hv) as (? & _). lia.
Qed.

Lemma elem_of_sp_resident sp T x :
  sp_wf sp T → x ∈ resident (sp_kst sp) (sp_es sp) ↔ x ≠ 0 ∧ ∃ a pr fl, area sp a (pr, fl, x).
Proof. intros Hwf. apply elem_of_resident. apply (sw_vma _ _ Hwf). Qed.

(** Errors only set [errno]. *)
Lemma fail_eq sp err : ∃ sp', fail sp err = (-1, sp') ∧ sp_pt sp' = sp_pt sp ∧ sp_arrs sp' = sp_arrs sp ∧
  sp_es sp' = sp_es sp ∧ sp_ttbr0 sp' = sp_ttbr0 sp.
Proof. unfold fail. eexists. split; [done|]. by case_decide. Qed.

Lemma same_wf sp sp' T :
  sp_pt sp' = sp_pt sp → sp_arrs sp' = sp_arrs sp → sp_es sp' = sp_es sp → sp_ttbr0 sp' = sp_ttbr0 sp →
  sp_wf sp T → sp_wf sp' T.
Proof.
  intros E1 E2 E3 E4 [H1 H2 H3 H4 H5]. unfold area, sp_kst in *.
  constructor; unfold area, sp_kst; by rewrite ?E1, ?E2, ?E3, ?E4.
Qed.

Lemma same_coherent sp sp' :
  (∀ a, hw sp' a = hw sp a) → (∀ a x, area sp' a x ↔ area sp a x) → coherent sp → coherent sp'.
Proof.
  intros Hh Ha [H1 H2]. constructor.
  - intros a pr fl p. rewrite Hh, Ha. apply H1.
  - intros a e. rewrite Hh. setoid_rewrite Ha. apply H2.
Qed.

(** The areas move on while the tables stay: the pages that go were recorded. *)
Lemma with_areas_wf sp T st es :
  sp_wf sp T → vma_wf st es →
  (∀ q, q ∈ km_frames (frames (sp_pt sp)) → (q ∉ resident (sp_kst sp) (sp_es sp)) → q ∈ km_frames (kmem st)) →
  (∀ a x, maps st es a x → (x.2 = 0 ∧ a < USER_VA_TOP) ∨ ∃ pr, area sp a (pr, x.1.2, x.2)) →
  sp_wf (with_areas sp st es) T.
Proof.
  intros Hwf Hv Hfr Hm.
  assert (vma_wf (sp_kst (with_areas sp st es)) es) as Hv' by (unfold sp_kst, with_areas; by destruct st).
  constructor; [done| |apply Hwf| |].
  - apply wf_frames; [apply Hwf|apply Hv|]. intros π q Hq. apply Hfr.
    + by eapply (pw_frames _ _ _ (sw_pt _ _ Hwf)).
    + intros Hr. apply (sw_data _ _ Hwf q Hr). apply elem_of_map_img. eauto.
  - intros x Hx. apply elem_of_resident in Hx as (Hx0 & a & pr & fl & Hx); [|apply Hv'].
    destruct (Hm a (pr, fl, x)) as [[? _]|(pr' & Ha)]; [by destruct st|done|]. apply (sw_data _ _ Hwf).
    apply (elem_of_sp_resident sp T); [done|]. split; [done|]. by exists a, pr', fl.
  - intros a x Hx. destruct (Hm a x) as [[_ ?]|(pr' & Ha)]; [by destruct st|done|]. by eapply (sw_top _ _ Hwf).
Qed.

Lemma with_pt_wf sp T t T' :
  sp_wf sp T → pt_wf t (ttbr_baddr (sp_ttbr0 sp)) T' → km_live (frames t) = km_live (frames (sp_pt sp)) →
  pt_others t T' = pt_others (sp_pt sp) T → sp_wf (with_pt sp t) T'.
Proof.
  intros [Hv Hp Ht Hd Htop] Hp' Hl Ho.
  assert (∀ x, x ∈ resident (sp_kst sp) (sp_es sp) → x ∈ km_frames (frames t) ∧ x ∉ (map_img T' : gset Z)) as Hr.
  { intros x Hx. assert (x ∈ pt_others (sp_pt sp) T) as Hin.
    { unfold pt_others. apply elem_of_difference. split; [by apply (vw_frames _ _ Hv)|by apply Hd]. }
    rewrite <- Ho in Hin. unfold pt_others in Hin. by apply elem_of_difference in Hin. }
  constructor; [|done|done|intros x Hx; by apply Hr|done].
  destruct Hv as [Hinv Hcnt Hok Hsort Hptr Hfr Hnd]. constructor; [apply Hp'|done| |done|done| |done].
  - rewrite Forall_forall in Hok |- *. intros v Hin. apply (vma_ok_frame (sp_kst sp)); [done| |by apply Hok]. cbn. by rewrite Hl.
  - intros x Hx. by apply Hr.
Qed.

Lemma range_end_spec addr length en :
  is_u64 addr → is_u64 length → Z.land addr (PAGE_SIZE - 1) = 0 → length ≠ 0 → addr ≠ 0 →
  range_end addr length = Some en →
  user_range addr ((en -w addr) / PAGE_SIZE) ∧ addr < en ≤ USER_VA_TOP ∧ en mod PAGE_SIZE = 0 ∧
  addr + (en -w addr) / PAGE_SIZE * PAGE_SIZE = en ∧ en - PAGE_SIZE < addr + length ≤ en.
Proof.
  unfold is_u64. intros Ha Hl Hal Hl0 Ha0. unfold range_end, MM_MAX_USER_VA, USER_VA_TOP. case_decide as H1; [done|].
  assert (length ≤ 0x40000000) by lia. rewrite sub64_small in H1 by lia.
  assert (addr mod 4096 = 0) as Hal'.
  { unfold PAGE_SIZE in Hal. change (4096 - 1) with (Z.ones 12) in Hal. by rewrite Z.land_ones in Hal by lia. }
  assert (PAGE_ALIGN_DOWN (addr +w length -w 1) = (addr + length - 1) / 4096 * 4096) as Hd.
  { unfold PAGE_ALIGN_DOWN, PAGE_SIZE. cint. change 4096 with (2 ^ 12). rewrite land_not_low by (unfold is_u64; lia).
    change (2 ^ 12) with 4096. dlia. }
  rewrite Hd. unfold PAGE_SIZE. rewrite add64_small by dlia. case_decide as H2; [done|]. intros [= <-].
  set (en := (addr + length - 1) / 4096 * 4096 + 4096) in *. assert (addr < en ∧ en mod 4096 = 0) as [Hlt Hen] by (unfold en; split; dlia).
  rewrite sub64_small by lia. unfold user_range, PAGE_SIZE.
  assert (addr + (en - addr) / 4096 * 4096 = en) as Hpg by dlia. split_and!; try lia; try (unfold en; dlia).
Qed.

(** [sp'] is well formed and shows the same memory as [sp]. *)
Record unchanged sp sp' T : Prop := {
  un_wf : sp_wf sp' T;
  un_coherent : coherent sp';
  un_hw a : hw sp' a = hw sp a;
  un_area a x : area sp' a x ↔ area sp a x;
}.

Lemma unchanged_trans sp sp1 sp2 T : unchanged sp sp1 T → unchanged sp1 sp2 T → unchanged sp sp2 T.
Proof.
  intros [_ _ H1 H2] [? ? H3 H4]. constructor; [done|done|..].
  - intros a. by rewrite H3, H1.
  - intros a x. by rewrite H4, H2.
Qed.

Lemma fail_step sp T err :
  sp_wf sp T → coherent sp → ∃ sp', fail sp err = (-1, sp') ∧ unchanged sp sp' T.
Proof.
  intros Hwf Hco. destruct (fail_eq sp err) as (sp' & -> & E1 & E2 & E3 & E4). exists sp'. split; [done|].
  assert (∀ a, hw sp' a = hw sp a) as Hh by (intros a; unfold hw; by rewrite E1, E4).
  assert (∀ a x, area sp' a x ↔ area sp a x) as Ha by (intros a x; unfold area, sp_kst; by rewrite E1, E2, E3).
  constructor; [by eapply same_wf|by eapply same_coherent|done|done].
Qed.

(** An area operation that gave up. *)
Lemma same_space_step sp T st es :
  sp_wf sp T → coherent sp → vma_wf st es → km_frames (kmem st) = km_frames (frames (sp_pt sp)) →
  (∀ a x, maps st es a x ↔ area sp a x) → unchanged sp (with_areas sp st es) T.
Proof.
  intros Hwf Hco Hv Hf Hm.
  assert (∀ a x, area (with_areas sp st es) a x ↔ area sp a x) as Ha.
  { intros a x. rewrite <- Hm. unfold area, sp_kst. cbn. by destruct st. }
  constructor; [|by apply (same_coherent sp)|done|done]. apply with_areas_wf; [done|done| |].
  - intros q Hq _. by rewrite Hf.
  - intros a [[pr fl] p] Hx. right. exists pr. by apply Hm.
Qed.

(** What [munmap] does when it goes through. *)
Definition unmapped sp sp' (addr en : Z) : Prop :=
  (∀ a, 0 ≤ a < 2 ^ 48 → hw sp' a = if decide (addr ≤ a < en) then None else hw sp a) ∧
  (∀ a x, area sp' a x ↔ area sp a x ∧ ¬ (addr ≤ a < en)) ∧
  ∀ x, x ∈ km_frames (frames (sp_pt sp')) ↔
    x ∈ km_frames (frames (sp_pt sp)) ∧ ¬ ∃ a pr fl, addr ≤ a < en ∧ area sp a (pr, fl, x).

Lemma unmapped_coherent sp sp' T addr en :
  sp_wf sp' T → coherent sp → unmapped sp sp' addr en → coherent sp'.
Proof.
  intros Hwf Hco (Hh & Har & _). constructor.
  - intros a pr fl p Ha Hp. pose proof (sw_top _ _ Hwf a _ Ha) as Ht. pose proof (area_nonneg _ _ _ _ Hwf Ha).
    apply Har in Ha as [Ha Hni]. rewrite Hh, decide_False by (unfold USER_VA_TOP in *; lia || done).
    by eapply coh_resident.
  - intros a e Hw He. rewrite Hh in He by (unfold USER_MMAP_BASE, USER_VA_TOP in *; lia). case_decide as Hin; [done|].
    destruct (coh_window _ Hco a e Hw He) as (pr & fl & p & Ha & Hp). exists pr, fl, p. split; [|done]. by apply Har.
Qed.

Lemma munmap_step sp T addr length :
  sp_wf sp T → coherent sp → is_u64 addr → is_u64 length →
  ∃ r sp', sys_munmap sp addr length = Some (r, sp') ∧ sp_wf sp' T ∧ coherent sp' ∧
    ((r = -1 ∨ r = 0 ∧ addr = 0) ∧ unchanged sp sp' T ∨
     r = 0 ∧ ∃ en, range_end addr length = Some en ∧ unmapped sp sp' addr en).
Proof.
  intros Hwf Hco Hua Hul. unfold sys_munmap. rewrite decide_False by apply Hwf.
  assert (∀ sp1 err, unchanged sp sp1 T → ∃ r sp', Some (fail sp1 err) = Some (r, sp') ∧ sp_wf sp' T ∧ coherent sp' ∧
    ((r = -1 ∨ r = 0 ∧ addr = 0) ∧ unchanged sp sp' T ∨
     r = 0 ∧ ∃ en, range_end addr length = Some en ∧ unmapped sp sp' addr en)) as Hfail.
  { intros sp1 err Hun. destruct (fail_step sp1 T err) as (sp' & -> & Hun'); [apply Hun..|]. exists (-1), sp'.
    split; [done|]. split; [apply Hun'|]. split; [apply Hun'|]. left. split; [by left|]. by eapply unchanged_trans. }
  assert (unchanged sp sp T) as Hrefl by done.
  case_decide as H1; [by apply Hfail|]. case_decide as H2.
  { exists 0, sp. split_and!; [done..|]. left. split; [by right|done]. }
  destruct (range_end addr length) as [en|] eqn:Een; [|by apply Hfail].
  destruct (range_end_spec addr length en) as (Hur & Hen & Hal & Hpg & _); [done|done|lia|lia|done|done|].
  destruct (vma_unmap_range_spec (sp_kst sp) (sp_es sp) addr en (sw_vma _ _ Hwf)) as (r & st & es & -> & Hv & _ & Hr).
  cbn [mbind option_bind]. destruct Hr as [[-> [_ Hm _ Hfr _]]|(_ & _ & _ & Hr & Hm & Hf)].
  { rewrite decide_True by lia. apply Hfail. by apply same_space_step. }
  clear Hfail Hrefl. set (sp1 := with_areas sp st es).
  assert (sp_wf sp1 T) as Hwf1.
  { apply with_areas_wf; [done|done| |].
    - intros q Hq Hnr. apply Hf. split; [exact Hq|]. intros (a & pr & fl & _ & Ha). apply Hnr.
      apply (elem_of_sp_resident sp T); [done|]. split; [|by exists a, pr, fl].
      intros ->. by eapply km_null; [apply (sw_vma _ _ Hwf)|exact Hq].
    - intros a [[pr fl] p] Hx. right. exists pr. by apply Hm in Hx as [Hx _]. }
  rewrite decide_False.
  2:{ assert (size (km_frames (kmem st)) ≤ size (km_frames (kmem (sp_kst sp))))%nat; [|lia].
      apply subseteq_size. intros x Hx. by apply Hf in Hx as [Hx _]. }
  destruct (unmap_user_range_spec (sp_pt sp1) _ T addr ((en -w addr) / PAGE_SIZE) (sw_pt _ _ Hwf1) Hur)
    as (t & E & Hp' & Hfr & Hhw). cbn [sp_ttbr0 with_areas sp1] in E. rewrite E. cbn [mbind option_bind].
  rewrite Hpg in Hhw. exists 0, (with_pt sp1 t). split; [done|].
  assert (sp_wf (with_pt sp1 t) T) as Hwf2.
  { eapply with_pt_wf; [exact Hwf1|exact Hp'|by rewrite Hfr|]. unfold pt_others. by rewrite Hfr. }
  assert (unmapped sp (with_pt sp1 t) addr en) as Hun.
  { split; [|split].
    - intros a Ha. unfold hw. cbn [sp_pt with_pt sp_ttbr0]. by rewrite Hhw by done.
    - intros a x. unfold area at 2. rewrite <- (Hm a x). unfold area, sp_kst. cbn. rewrite Hfr. cbn. by destruct st.
    - intros x. cbn [sp_pt with_pt]. rewrite Hfr. cbn. apply Hf. }
  split; [done|]. split; [by eapply unmapped_coherent|]. right. split; [done|]. by exists en.
Qed.

(** What [mprotect] does when it goes through: every page present in the range,
    recorded by an area or not, gets the new permissions. *)
Definition reprotected sp sp' (addr en prot : Z) : Prop :=
  (∀ a, 0 ≤ a < 2 ^ 48 → hw sp' a =
    if decide (addr ≤ a < en) then reprotect (mmu_prot_to_flags prot) <$> hw sp a else hw sp a) ∧
  (∀ a x, area sp' a x ↔ protected addr en prot (area sp) a x) ∧
  km_frames (frames (sp_pt sp')) = km_frames (frames (sp_pt sp)).

Lemma reprotected_coherent sp sp' T T' addr en prot :
  sp_wf sp T → sp_wf sp' T' → coherent sp → reprotected sp sp' addr en prot → coherent sp'.
Proof.
  intros Hwf0 Hwf Hco (Hh & Har & _).
  assert (∀ pr, Z.land (mmu_prot_to_flags pr) PERM_MASK = mmu_prot_to_flags pr) as Hperm by (apply prot_flags_perm).
  constructor.
  - intros a pr fl p Ha Hp. pose proof (sw_top _ _ Hwf a _ Ha) as Ht. pose proof (area_nonneg _ _ _ _ Hwf Ha).
    apply Har in Ha. rewrite Hh by (unfold USER_VA_TOP in *; lia). unfold protected in Ha. cbn in Ha.
    case_decide as Hin; [|by eapply coh_resident]. destruct Ha as (-> & pr0 & Ha).
    rewrite (coh_resident _ Hco _ _ _ _ Ha Hp). cbn. f_equal. apply reprotect_desc; [|done..].
    assert (p ∈ resident (sp_kst sp) (sp_es sp)) as Hr.
    { apply (elem_of_sp_resident sp T); [done|]. split; [done|]. by exists a, pr0, fl. }
    apply (vw_frames _ _ (sw_vma _ _ Hwf0)) in Hr. apply km_frames_page in Hr; [|apply (sw_vma _ _ Hwf0)].
    unfold PHYS_LIMIT, PAGE_SIZE in Hr. lia.
  - intros a e Hw He. rewrite Hh in He by (unfold USER_MMAP_BASE, USER_VA_TOP in *; lia).
    assert (∃ e0, hw sp a = Some e0) as [e0 He0] by (case_decide; [apply fmap_Some in He as (x & -> & _)|]; eauto).
    destruct (coh_window _ Hco a e0 Hw He0) as (pr & fl & p & Ha & Hp).
    destruct (decide (addr ≤ a < en)) as [Hin|Hni].
    + exists prot, fl, p. split; [|done]. apply Har. unfold protected. rewrite decide_True by done. split; [done|]. eauto.
    + exists pr, fl, p. split; [|done]. apply Har. unfold protected. by rewrite decide_False.
Qed.

Lemma mprotect_step sp T addr length prot :
  sp_wf sp T → coherent sp → is_u64 addr → is_u64 length →
  ∃ r sp', sys_mprotect sp addr length prot = Some (r, sp') ∧ sp_wf sp' T ∧ coherent sp' ∧
    ((r = -1 ∨ r = 0 ∧ addr = 0) ∧ unchanged sp sp' T ∨
     r = 0 ∧ ∃ en, range_end addr length = Some en ∧ reprotected sp sp' addr en (wrap32 prot)).
Proof.
  intros Hwf Hco Hua Hul. unfold sys_mprotect. rewrite decide_False by apply Hwf.
  assert (∀ sp1 err, unchanged sp sp1 T → ∃ r sp', Some (fail sp1 err) = Some (r, sp') ∧ sp_wf sp' T ∧ coherent sp' ∧
    ((r = -1 ∨ r = 0 ∧ addr = 0) ∧ unchanged sp sp' T ∨
     r = 0 ∧ ∃ en, range_end addr length = Some en ∧ reprotected sp sp' addr en (wrap32 prot))) as Hfail.
  { intros sp1 err Hun. destruct (fail_step sp1 T err) as (sp' & -> & Hun'); [apply Hun..|]. exists (-1), sp'.
    split; [done|]. split; [apply Hun'|]. split; [apply Hun'|]. left. split; [by left|]. by eapply unchanged_trans. }
  assert (unchanged sp sp T) as Hrefl by done.
  case_decide as H1; [by apply Hfail|]. case_decide as H2; [by apply Hfail|]. case_decide as H3.
  { exists 0, sp. split_and!; [done..|]. left. split; [by right|done]. }
  destruct (range_end addr length) as [en|] eqn:Een; [|by apply Hfail].
  destruct (range_end_spec addr length en) as (Hur & Hen & Hal & Hpg & _); [done|done|lia|lia|done|done|].
  destruct (vma_protect_range_spec (sp_kst sp) (sp_es sp) addr en (wrap32 prot) (sw_vma _ _ Hwf))
    as (r & st & es & -> & Hv & _ & Hf & Hr).
  cbn [mbind option_bind]. destruct Hr as [[-> [_ Hm _ Hfr _]]|(Hr & _ & _ & _ & Hm)].
  { rewrite decide_True by lia. apply Hfail. by apply same_space_step. }
  clear Hfail Hrefl. rewrite decide_False by lia. set (sp1 := with_areas sp st es).
  assert (sp_wf sp1 T) as Hwf1.
  { apply with_areas_wf; [done|done| |].
    - intros q Hq _. by rewrite Hf.
    - intros a [[pr fl] p] Hx. right. apply Hm in Hx. unfold protected in Hx. cbn in *. case_decide; [|by exists pr].
      by destruct Hx as [_ Hx]. }
  destruct (protect_user_range_spec (sp_pt sp1) _ T addr ((en -w addr) / PAGE_SIZE) (mmu_prot_to_flags (wrap32 prot))
    (sw_pt _ _ Hwf1) Hur) as (c & t & E & Hp' & Hfr & _ & Hhw). cbn [sp_ttbr0 with_areas sp1] in E. rewrite E. cbn [mbind option_bind].
  rewrite Hpg in Hhw. exists 0, (with_pt sp1 t). split; [done|].
  assert (sp_wf (with_pt sp1 t) T) as Hwf2.
  { eapply with_pt_wf; [exact Hwf1|exact Hp'|by rewrite Hfr|]. unfold pt_others. by rewrite Hfr. }
  assert (reprotected sp (with_pt sp1 t) addr en (wrap32 prot)) as Hun.
  { split; [|split].
    - intros a Ha. unfold hw. cbn [sp_pt with_pt sp_ttbr0]. by rewrite Hhw by done.
    - intros a x. rewrite <- (Hm a x). unfold area, sp_kst. cbn. rewrite Hfr. cbn. by destruct st.
    - cbn [sp_pt with_pt]. rewrite Hfr. cbn. apply Hf. }
  split; [done|]. split; [by eapply (reprotected_coherent sp)|]. right. split; [done|]. by exists en.
Qed.

(** ** Finding room *)

Definition overlapping (es : list vma) (c len : Z) : Prop := ∃ v, v ∈ es ∧ c < v_end v ∧ v_start v < c + len.

Lemma overlap_Some es start en i :
  vma_find_overlap es start en = Some i → ∃ v, es !! i = Some v ∧ v ∈ es ∧ start < v_end v ∧ v_start v < en.
Proof.
  unfold vma_find_overlap. intros ((j & v) & Hf & ->)%fmap_Some. apply list_find_Some in Hf as (Hl & Hv & _).
  exists v. split; [done|]. split; [by eapply list_elem_of_lookup_2|done].
Qed.

Lemma overlap_None es start en v : vma_find_overlap es start en = None → v ∈ es → ¬ (start < v_end v ∧ v_start v < en).
Proof.
  unfold vma_find_overlap. intros Hf%fmap_None Hv. apply list_find_None in Hf. rewrite Forall_forall in Hf. by apply Hf.
Qed.

Lemma filter_length_lt {A} (P Q : A → Prop) `{!∀ x, Decision (P x), !∀ x, Decision (Q x)} (l : list A) r :
  r ∈ l → P r → ¬ Q r → (∀ x, Q x → P x) → (length (filter Q l) < length (filter P l))%nat.
Proof.
  intros Hr Hp Hq Hqp. assert (∀ k, length (filter Q k) ≤ length (filter P k))%nat as Hle.
  { intros k. induction k as [|x k IH]; [done|]. rewrite !filter_cons.
    destruct (decide (Q x)) as [Hx|Hx]; [rewrite decide_True by auto; simpl; lia|]. case_decide; simpl; lia. }
  induction l as [|x l IH]; [by apply elem_of_nil in Hr|]. rewrite !filter_cons.
  apply elem_of_cons in Hr as [->|Hr].
  - rewrite decide_False, decide_True by done. simpl. pose proof (Hle l). lia.
  - specialize (IH Hr). destruct (decide (Q x)) as [Hx|Hx]; [rewrite decide_True by auto; simpl; lia|].
    case_decide; simpl; lia.
Qed.

(** The search ends, and finds the lowest address with room. *)
Lemma find_free_spec es len c fuel :
  Forall (λ v, 0 ≤ v_start v ∧ v_end v ≤ USER_VA_TOP ∧ v_end v mod PAGE_SIZE = 0) es → is_u64 len →
  0 < c ≤ USER_VA_TOP → c mod PAGE_SIZE = 0 → (length (filter (λ v, (c < v_end v)%Z) es) < fuel)%nat →
  ∃ r, find_free es c len fuel = Some r ∧ (r = 0 ∨ c ≤ r ∧ r ≤ USER_VA_TOP ∧ r mod PAGE_SIZE = 0) ∧
    (0 < len ≤ USER_VA_TOP →
      (∀ c', c ≤ c' → (r = 0 ∨ c' < r) → c' + len ≤ USER_VA_TOP → overlapping es c' len) ∧
      (r ≠ 0 → r + len ≤ USER_VA_TOP ∧ ¬ overlapping es r len)).
Proof.
  intros Hes Hlen. revert c. induction fuel as [|f IH]; intros c Hc Hal Hf; [lia|]. cbn [find_free].
  unfold MM_MAX_USER_VA. unfold is_u64, USER_VA_TOP in *. case_decide as Hfit.
  2:{ exists 0. split; [done|]. split; [by left|]. intros Hl. rewrite add64_small in Hfit by lia. split; [|done].
      intros c' Hcc _ Hle. lia. }
  destruct (vma_find_overlap es c (c +w len)) as [i|] eqn:Ho.
  - apply overlap_Some in Ho as (v & Hi & Hv & Hce & Hvs). rewrite Hi. cbn [mbind option_bind].
    rewrite Forall_forall in Hes. destruct (Hes v Hv) as (Hs0 & Htop & Hva).
    assert (PAGE_ALIGN_UP (v_end v) = v_end v) as ->.
    { rewrite PAGE_ALIGN_UP_spec by lia. unfold PAGE_SIZE in *. dlia. }
    destruct (IH (v_end v)) as (r & E & Hr & Hlow); [lia|done| |].
    { assert (length (filter (λ w, (v_end v < v_end w)%Z) es) < length (filter (λ w, (c < v_end w)%Z) es))%nat; [|lia].
      apply filter_length_lt with v; [done|lia|lia|]. intros w Hw. lia. }
    exists r. split; [done|]. split; [destruct Hr; [by left|right; lia]|]. intros Hl. rewrite add64_small in Hvs by lia.
    destruct (Hlow Hl) as [H1 H2]. split; [|done]. intros c' Hcc Hrr Hle.
    destruct (decide (v_end v ≤ c')) as [|Hlt]; [by apply H1|]. exists v. split; [done|]. lia.
  - exists c. split; [done|]. split; [right; lia|]. intros Hl. rewrite add64_small in Ho, Hfit by lia. split; [lia|].
    intros _. split; [done|]. intros (v & Hv & Hov). by apply (overlap_None _ _ _ v Ho Hv).
Qed.

Lemma area_end sp T v : sp_wf sp T → v ∈ sp_es sp → 0 ≤ v_start v ∧ v_end v ≤ USER_VA_TOP ∧ v_end v mod PAGE_SIZE = 0.
Proof.
  intros Hwf Hv. pose proof (vw_ok _ _ (sw_vma _ _ Hwf)) as Hok. rewrite Forall_forall in Hok. specialize (Hok v Hv).
  destruct (vma_npages_ok _ _ Hok) as (Hnp & Hn & He). pose proof (backing_length _ _ Hok) as Hlen.
  destruct Hok as (Hs & Hse & _ & _ & Hal & _). split; [done|]. split; [|done].
  assert (∃ p, backing (sp_kst sp) v !! Z.to_nat ((v_end v - 1 - v_start v) / PAGE_SIZE) = Some p) as [p Hp].
  { apply lookup_lt_is_Some_2. unfold PAGE_SIZE in *. dlia. }
  assert (area sp (v_end v - 1) (v_prot v, v_flags v, p)) as Ha.
  { exists v. split; [done|]. split; [lia|]. by exists p. }
  apply (sw_top _ _ Hwf) in Ha. lia.
Qed.

(** Where a new area may go. *)
Definition place_ok (es : list vma) (addr length flags s e : Z) : Prop :=
  0 ≤ s < e ∧ e ≤ USER_VA_TOP ∧
  if decide (Z.land flags MAP_FIXED ≠ 0) then s = addr ∧ e = addr + length
  else USER_MMAP_BASE ≤ s ∧ e = s + PAGE_ALIGN_UP length ∧
    ∀ c, USER_MMAP_BASE ≤ c < s → overlapping es c (PAGE_ALIGN_UP length).

Lemma mmap_range_ok_true s e : mmap_range_ok s e = true ↔ s < e ≤ USER_VA_TOP.
Proof. unfold mmap_range_ok, MM_MAX_USER_VA. repeat case_decide; split; try done; lia. Qed.

Lemma mmap_place_spec sp T addr length flags :
  sp_wf sp T → is_u64 addr → is_u64 length → length ≠ 0 →
  ∃ pl, mmap_place (sp_es sp) addr length flags = Some pl ∧
    match pl with inl (s, e) => place_ok (sp_es sp) addr length flags s e | inr _ => True end.
Proof.
  intros Hwf Ha Hl Hl0. unfold mmap_place, place_ok. destruct (decide (Z.land flags MAP_FIXED ≠ 0)) as [Hfx|Hfx].
  - case_decide; [by eexists|]. destruct (mmap_range_ok addr (addr +w length)) eqn:Hr; cbn [negb]; [|by eexists].
    apply mmap_range_ok_true in Hr. destruct (vma_find_overlap (sp_es sp) addr (addr +w length)); [by eexists|].
    eexists. split; [done|]. unfold is_u64, USER_VA_TOP in *. unfold add64, wrap64 in *.
    assert ((addr + length) mod 2 ^ 64 = addr + length) as E.
    { destruct (decide (addr + length < 2 ^ 64)); [by rewrite Z.mod_small by lia|].
      rewrite <- (Z.mod_add _ (-1)), Z.mod_small in Hr |- * by lia. lia. }
    rewrite E in *. lia.
  - case_decide as Hwrap; [by eexists|].
    assert (PAGE_ALIGN_UP length = (length + 4095) / 4096 * 4096 ∧ length + 4095 < 2 ^ 64) as [Eup Hb].
    { assert (PAGE_ALIGN_UP length = wrap64 (length + 4095) - wrap64 (length + 4095) mod 4096) as Eup.
      { unfold PAGE_ALIGN_UP, PAGE_SIZE. change (4096 - 1) with (2 ^ 12 - 1).
        assert (length +w 4096 -w 1 = wrap64 (length + 4095)) as ->.
        { unfold add64, sub64, wrap64. rewrite Zminus_mod_idemp_l. f_equal. lia. }
        by rewrite land_not_low by (lia || apply wrap64_range). }
      unfold wrap64, is_u64 in *. destruct (decide (length + 4095 < 2 ^ 64)) as [Hb|Hb].
      - split; [|done]. rewrite Eup, (Z.mod_small (length + 4095)) by lia. dlia.
      - exfalso. apply Hwrap. rewrite Eup. rewrite <- (Z.mod_add (length + 4095) (-1)) by lia.
        rewrite (Z.mod_small (_ + -1 * _)) by lia. dlia. }
    destruct (find_free_spec (sp_es sp) (PAGE_ALIGN_UP length) USER_MMAP_BASE (S (Datatypes.length (sp_es sp))))
      as (r & E & Hr & Hlow).
    { apply Forall_forall. intros v Hv. by eapply area_end. }
    { unfold is_u64 in *. rewrite Eup. dlia. }
    { unfold USER_MMAP_BASE, USER_VA_TOP. lia. } { done. } { pose proof (length_filter (λ v, USER_MMAP_BASE < v_end v) (sp_es sp)). lia. }
    unfold mmap_find_free. rewrite E. cbn [mbind option_bind]. case_decide as Hr0; [by eexists|].
    destruct (mmap_range_ok r (r +w PAGE_ALIGN_UP length)) eqn:Hrok; cbn [negb]; [|by eexists].
    apply mmap_range_ok_true in Hrok. eexists. split; [done|]. destruct Hr as [|(Hr1 & Hr2 & _)]; [done|].
    unfold is_u64, USER_MMAP_BASE, USER_VA_TOP in *.
    assert (0 < PAGE_ALIGN_UP length < 2 ^ 64) as Hup by (rewrite Eup; dlia).
    assert (r +w PAGE_ALIGN_UP length = r + PAGE_ALIGN_UP length) as Esum.
    { unfold add64, wrap64 in *. destruct (decide (r + PAGE_ALIGN_UP length < 2 ^ 64)); [by rewrite Z.mod_small by lia|].
      rewrite <- (Z.mod_add _ (-1)), Z.mod_small in Hrok by lia. lia. }
    rewrite Esum in *. split; [lia|]. split; [lia|]. split; [done|]. split; [done|]. intros c Hc.
    destruct Hlow as [H1 _]; [lia|]. apply H1; lia.
Qed.

(** ** Creating an area *)

Definition mmapped sp sp' (s e prot : Z) : Prop :=
  (∀ a, hw sp' a = hw sp a) ∧ (∀ a x, ¬ (s ≤ a < e ∧ area sp a x)) ∧
  ∀ a x, area sp' a x ↔ area sp a x ∨ (s ≤ a < e ∧ x = (prot, Z.lor VMA_ANONYMOUS VMA_SHARED, 0)).

(** New empty pages in the areas. *)
Lemma add_zero_step sp T st es s e pr fl :
  sp_wf sp T → coherent sp → vma_wf st es → km_frames (kmem st) = km_frames (frames (sp_pt sp)) → e ≤ USER_VA_TOP →
  (∀ a x, maps st es a x ↔ area sp a x ∨ (s ≤ a < e ∧ x = (pr, fl, 0))) →
  sp_wf (with_areas sp st es) T ∧ coherent (with_areas sp st es) ∧
  ∀ a x, area (with_areas sp st es) a x ↔ area sp a x ∨ (s ≤ a < e ∧ x = (pr, fl, 0)).
Proof.
  intros Hwf Hco Hv Hf He Hm.
  assert (∀ a x, area (with_areas sp st es) a x ↔ area sp a x ∨ (s ≤ a < e ∧ x = (pr, fl, 0))) as Ha.
  { intros a x. rewrite <- (Hm a x). unfold area, sp_kst. cbn. by destruct st. }
  split; [|split; [constructor|done]].
  - apply with_areas_wf; [done|done|intros q Hq _; by rewrite Hf|].
    intros a [[pr' fl'] p] Hx. apply Hm in Hx as [Hx|[Hin [= -> -> ->]]]; [right; by exists pr'|].
    left. cbn. split; [done|lia].
  - intros a pr' fl' p Hx Hp. apply Ha in Hx as [Hx|[_ [= -> -> ->]]]; [|done].
    change (hw (with_areas sp st es) a) with (hw sp a). by eapply (coh_resident sp Hco).
  - intros a d Hw Hd. destruct (coh_window sp Hco a d Hw Hd) as (pr' & fl' & p & Hx & Hp). exists pr', fl', p.
    split; [|done]. apply Ha. by left.
Qed.

Lemma mmap_step sp T addr length prot flags fd offset :
  sp_wf sp T → coherent sp → is_u64 addr → is_u64 length →
  ∃ r sp', sys_mmap sp addr length prot flags fd offset = Some (r, sp') ∧ sp_wf sp' T ∧ coherent sp' ∧
    (r = -1 ∧ unchanged sp sp' T ∨
     ∃ e, place_ok (sp_es sp) addr length flags r e ∧ r mod PAGE_SIZE = 0 ∧ e mod PAGE_SIZE = 0 ∧
       mmapped sp sp' r e (wrap32 prot)).
Proof.
  intros Hwf Hco Hua Hul. unfold sys_mmap. rewrite decide_False by apply Hwf.
  assert (∀ sp1 err, unchanged sp sp1 T → ∃ r sp', Some (fail sp1 err) = Some (r, sp') ∧ sp_wf sp' T ∧ coherent sp' ∧
    (r = -1 ∧ unchanged sp sp' T ∨
     ∃ e, place_ok (sp_es sp) addr length flags r e ∧ r mod PAGE_SIZE = 0 ∧ e mod PAGE_SIZE = 0 ∧
       mmapped sp sp' r e (wrap32 prot))) as Hfail.
  { intros sp1 err Hun. destruct (fail_step sp1 T err) as (sp' & -> & Hun'); [apply Hun..|]. exists (-1), sp'.
    split; [done|]. split; [apply Hun'|]. split; [apply Hun'|]. left. split; [done|]. by eapply unchanged_trans. }
  assert (unchanged sp sp T) as Hrefl by done.
  do 4 (case_decide; [by apply Hfail|]). case_decide as Hl0; [by apply Hfail|].
  destruct (mmap_place_spec sp T addr length flags Hwf Hua Hul Hl0) as (pl & -> & Hpl). cbn [mbind option_bind].
  destruct pl as [[s e]|err]; [|by apply Hfail]. pose proof Hpl as (Hse & He & _). unfold USER_VA_TOP in He.
  destruct (vma_add_spec (sp_kst sp) (sp_es sp) s e (wrap32 prot) (Z.lor VMA_ANONYMOUS VMA_SHARED) (sw_vma _ _ Hwf))
    as (r & st & es & -> & Hv & _ & Hf & Hr); [unfold is_u64; lia..|]. cbn [mbind option_bind]. destruct r as [i|].
  - destruct Hr as (_ & _ & Hs1 & Hs2 & Hno & Hm). exists s, (with_areas sp st es). split; [done|].
    destruct (add_zero_step sp T st es s e (wrap32 prot) (Z.lor VMA_ANONYMOUS VMA_SHARED) Hwf Hco Hv Hf) as (Hwf' & Hco' & Ha);
      [unfold USER_VA_TOP; lia|exact Hm|].
    split; [done|]. split; [done|]. right. exists e. split; [done|]. split; [done|]. split; [done|].
    split; [done|]. by split.
  - apply Hfail. destruct Hr as [-> Har]. apply same_space_step; [done|done|done|done|].
    intros a x. unfold area. apply maps_frame. intros v _. by rewrite Har.
Qed.

(** ** Faulting a page in *)

Lemma sp_eta sp : with_pt sp (mk_pt (frames (sp_pt sp)) (tabs (sp_pt sp)) (mmu_on (sp_pt sp)) (tlbi_log (sp_pt sp))) = sp.
Proof. by destruct sp as [[]]. Qed.

Lemma page_base far : is_u64 far → Z.land far (not64 (PAGE_SIZE - 1)) = far / PAGE_SIZE * PAGE_SIZE.
Proof.
  intros Hf. unfold PAGE_SIZE. change (4096 - 1) with (2 ^ 12 - 1). rewrite land_not_low by (lia || done).
  change (2 ^ 12) with 4096. dlia.
Qed.

(** Taking a page, clearing it and mapping it: what both handlers do. *)
Lemma map_fresh sp T pa sp1 va flags :
  sp_wf sp T → alloc_page sp = Some (pa, sp1) → pa ≠ 0 → va mod PAGE_SIZE = 0 → 0 ≤ va < USER_VA_TOP →
  let sp2 := clear_page sp1 pa in
  ∃ t T' k, mmu_map_user_range (sp_pt sp2) (ttbr_baddr (sp_ttbr0 sp)) va pa 1 flags = Some t ∧
    sp_wf (with_pt sp2 t) T' ∧ pa ∈ km_frames (frames t) ∧ (pa ∉ (map_img T' : gset Z)) ∧
    (pa ∉ km_frames (frames (sp_pt sp))) ∧ km_live (frames t) = km_live (frames (sp_pt sp)) ∧
    (k = 1 ∨ k = 0 ∧ km_alloc_page (frames t) = Some (0, frames t)) ∧
    (∀ a, 0 ≤ a < 2 ^ 48 → hw (with_pt sp2 t) a =
      if decide (va ≤ a < va + k * PAGE_SIZE) then Some (page_desc pa flags) else hw sp a) ∧
    ∀ a x, area (with_pt sp2 t) a x ↔ area sp a x.
Proof.
  intros Hwf Hal Hpa Hva Hrange. unfold alloc_page in Hal.
  destruct (km_alloc_page_ok (frames (sp_pt sp))) as (r & m & E & Hi & Hl & Hc); [apply (sw_vma _ _ Hwf)|].
  rewrite E in Hal. cbn in Hal. injection Hal as -> <-. destruct Hc as [[-> _]|[Hfresh Hf]]; [done|]. cbn zeta.
  set (t0 := mk_pt m (tabs (sp_pt sp)) (mmu_on (sp_pt sp)) (tlbi_log (sp_pt sp))).
  assert (∀ q, q ∈ km_frames (frames (sp_pt sp)) → q ∈ km_frames m) as Hsub by (rewrite Hf; set_solver +).
  assert (pt_wf t0 (ttbr_baddr (sp_ttbr0 sp)) T) as Ht0.
  { apply wf_frames; [apply Hwf|exact Hi|]. intros π q Hq. apply Hsub. by eapply (pw_frames _ _ _ (sw_pt _ _ Hwf)). }
  assert (pa ∉ (map_img T : gset Z)) as Hpt.
  { rewrite elem_of_map_img. intros [π Hπ]. apply Hfresh. by eapply (pw_frames _ _ _ (sw_pt _ _ Hwf)). }
  assert (0 < pa ∧ pa + PAGE_SIZE ≤ PHYS_LIMIT) as Hpr.
  { destruct (km_frames_page m pa Hi) as (? & _ & ?); [rewrite Hf; set_solver +|done]. }
  unfold USER_VA_TOP, PHYS_LIMIT, PAGE_SIZE in *.
  destruct (map_user_range_spec t0 _ T va pa 1 flags Ht0) as (t & T' & k & Em & Ht & Hsub' & Ho & Hk & Hoom & Hhw).
  { unfold user_range, PAGE_SIZE. lia. } { lia. } { unfold PAGE_SIZE. lia. }
  exists t, T', k. split; [exact Em|].
  assert (km_inv (frames t) ∧ km_live (frames t) = km_live m) as [_ Hlt].
  { apply (map_frames_ind (λ s, km_inv s ∧ km_live s = km_live m)) with (3 := Em); [|done].
    intros s r s' [Hs1 Hs2] Hal. destruct (km_alloc_page_ok s Hs1) as (r' & s'' & E' & Hi' & Hl' & _).
    change (pa_alloc_page s) with (km_alloc_page s) in Hal. rewrite E' in Hal. injection Hal as <- <-. split; [done|congruence]. }
  assert (pa ∈ pt_others t T') as Hpo.
  { rewrite Ho. unfold pt_others. apply elem_of_difference. split; [|done]. cbn. rewrite Hf. set_solver +. }
  unfold pt_others in Hpo. apply elem_of_difference in Hpo as [Hpf Hpt'].
  split; [|split; [done|]; split; [done|]; split; [done|]; split; [by rewrite Hlt|]; split; [|split]].
  - apply (with_pt_wf (clear_page (with_pt sp t0) pa) T); [|done|done|done].
    destruct Hwf as [Hv Hp Htt Hd Htop]. constructor; [|done|done|done|done].
    destruct Hv as [Hinv Hcnt Hok Hsort Hptr Hfr Hnd]. constructor; [done|done| |done|done| |done].
    + rewrite Forall_forall in Hok |- *. intros v Hv. apply (vma_ok_frame (sp_kst sp)); [done| |by apply Hok]. cbn. by rewrite Hl.
    + intros x Hx. apply Hsub. by apply Hfr.
  - destruct Hoom as [->|Hoom]; [by left|]. destruct (decide (k = 1)); [by left|]. right. split; [lia|done].
  - intros a Ha. unfold hw. cbn [sp_pt with_pt sp_ttbr0 clear_page]. rewrite Hhw by done.
    unfold PAGE_SIZE in *. case_decide as Hin; [|done]. do 2 f_equal. assert ((a - va) / 4096 = 0) as -> by dlia. lia.
  - intros a x. unfold area. by apply maps_frame.
Qed.

(** A page taken for the area at [far]: fresh, cleared, recorded in the area
    and, unless the tables ran out of memory ([k = 0]), mapped with the area's
    protection; nothing else changes. *)
Definition faulted_in sp sp' (far pr fl pa k : Z) : Prop :=
  let base := far / PAGE_SIZE * PAGE_SIZE in
  pa ≠ 0 ∧ (pa ∉ km_frames (frames (sp_pt sp))) ∧ sp_ram sp' !! pa = Some zero_page ∧
  (k = 1 ∨ k = 0 ∧ km_alloc_page (frames (sp_pt sp')) = Some (0, frames (sp_pt sp'))) ∧
  (∀ a, 0 ≤ a < 2 ^ 48 → hw sp' a =
    if decide (base ≤ a < base + k * PAGE_SIZE) then Some (page_desc pa (mmu_prot_to_flags pr)) else hw sp a) ∧
  ∀ a x, area sp' a x ↔ if decide (base ≤ a < base + PAGE_SIZE) then x = (pr, fl, pa) else area sp a x.

Lemma faulted_coherent sp sp' T far pr fl pa :
  sp_wf sp' T → coherent sp → faulted_in sp sp' far pr fl pa 1 → coherent sp'.
Proof.
  intros Hwf Hco (Hpa & _ & _ & _ & Hh & Ha). set (base := far / PAGE_SIZE * PAGE_SIZE) in *. constructor.
  - intros a pr' fl' p Hx Hp. pose proof (sw_top _ _ Hwf a _ Hx) as Ht. pose proof (area_nonneg _ _ _ _ Hwf Hx).
    rewrite Hh by (unfold USER_VA_TOP in *; lia). apply Ha in Hx. rewrite Z.mul_1_l. case_decide; [by simplify_eq|].
    by eapply coh_resident.
  - intros a e Hw He. rewrite Hh, Z.mul_1_l in He by (unfold USER_MMAP_BASE, USER_VA_TOP in *; lia).
    setoid_rewrite Ha. case_decide; [by exists pr, fl, pa|]. by eapply coh_window.
Qed.

Lemma flush_wf sp T va : sp_wf sp T → sp_wf (flush_page sp va) T.
Proof. intros [Hv Hp Ht Hd Htop]. constructor; try done. by apply wf_log. Qed.

Lemma fault_step sp T far is_write is_exec :
  sp_wf sp T → is_u64 far →
  ∃ b sp', sched_try_handle_vma_fault sp far is_write is_exec = Some (b, sp') ∧
    (b = false ∧ sp' = sp ∨
     b = true ∧ ∃ T' pr fl pa k, sp_wf sp' T' ∧ area sp far (pr, fl, 0) ∧ access_ok pr is_write is_exec = true ∧
       faulted_in sp sp' far pr fl pa k).
Proof.
  intros Hwf Hfar. unfold sched_try_handle_vma_fault. rewrite decide_False by apply Hwf.
  assert (∃ b sp', Some (false, sp) = Some (b, sp') ∧ (b = false ∧ sp' = sp ∨
     b = true ∧ ∃ T' pr fl pa k, sp_wf sp' T' ∧ area sp far (pr, fl, 0) ∧ access_ok pr is_write is_exec = true ∧
       faulted_in sp sp' far pr fl pa k)) as Hno by (exists false, sp; auto).
  destruct (vma_find (sp_es sp) far) as [i|] eqn:Hfind; [|exact Hno].
  apply vma_find_Some in Hfind as (l1 & v & l2 & Ees & -> & Hin).
  rewrite Ees, list_lookup_middle by done. cbn [mbind option_bind].
  destruct (access_ok (v_prot v) is_write is_exec) eqn:Hacc; cbn [negb]; [|exact Hno].
  assert (v ∈ sp_es sp) as Hv by (rewrite Ees; set_solver +).
  pose proof (vw_ok _ _ (sw_vma _ _ Hwf)) as Hok. rewrite Forall_forall in Hok. specialize (Hok v Hv).
  destruct (vma_npages_ok _ _ Hok) as (Hnp & Hn & He). pose proof Hok as (Hs & Hse & H64 & Hal & _ & _ & arr & Harr & Hlen).
  destruct (area_end _ _ _ Hwf Hv) as (_ & Htop & _).
  rewrite page_base by done. set (base := far / PAGE_SIZE * PAGE_SIZE). unfold USER_VA_TOP in Htop.
  assert (base mod PAGE_SIZE = 0 ∧ v_start v ≤ base ≤ far ∧ far < base + PAGE_SIZE) as (Hb1 & Hb2 & Hb3)
    by (unfold base, PAGE_SIZE in *; split_and!; dlia).
  rewrite !sub64_small by lia. set (idx := (base - v_start v) / PAGE_SIZE).
  assert (0 ≤ idx < vma_npages v ∧ v_start v + idx * PAGE_SIZE = base) as [Hidx Hbase].
  { rewrite Hnp. unfold idx, PAGE_SIZE in *. split; dlia. }
  rewrite decide_False by lia. change (sp_arrs sp) with (arrs (sp_kst sp)). rewrite Harr. cbn [mbind option_bind].
  destruct (lookup_lt_is_Some_2 arr (Z.to_nat idx)) as [old Hold]; [lia|].
  assert (arr_get arr idx = Some old) as -> by (unfold arr_get; by rewrite decide_True by lia).
  cbn [mbind option_bind]. case_decide as Hz; [exact Hno|].
  assert (old = 0) as -> by lia.
  destruct (km_alloc_page_ok (frames (sp_pt sp))) as (pa & m & Ealloc & _ & _ & Hc); [apply (sw_vma _ _ Hwf)|].
  set (sp1 := with_pt sp (mk_pt m (tabs (sp_pt sp)) (mmu_on (sp_pt sp)) (tlbi_log (sp_pt sp)))).
  assert (alloc_page sp = Some (pa, sp1)) as Ea by (unfold alloc_page; by rewrite Ealloc).
  rewrite Ea. cbn [mbind option_bind]. case_decide as Hpa.
  { destruct Hc as [[_ Hm]|[Hfr Hc]].
    - unfold sp1. rewrite Hm, sp_eta. exact Hno.
    - exfalso. destruct (km_alloc_page_ok (frames (sp_pt sp))) as (pa' & m' & E' & Hi' & _); [apply (sw_vma _ _ Hwf)|].
      rewrite Ealloc in E'. injection E' as <- <-. apply (km_null m); [done|]. rewrite Hc, Hpa. set_solver +. }
  clear Hno. destruct (map_fresh sp T pa sp1 base (mmu_prot_to_flags (v_prot v)) Hwf Ea Hpa Hb1)
    as (t & T' & k & Em & Hwf2 & Hpf & Hpt & Hfresh & Hlive & Hk & Hhw & Har); [unfold USER_VA_TOP; lia|].
  rewrite Em. cbn [mbind option_bind]. unfold arr_set. rewrite decide_True by lia. cbn [mbind option_bind].
  set (sp2 := with_pt (clear_page sp1 pa) t) in *. eexists true, _. split; [done|]. right. split; [done|].
  exists T', (v_prot v), (v_flags v), pa, k.
  set (es := l1 ++ v :: l2) in *. set (st' := recorded (sp_kst sp) v arr idx pa (frames t)).
  assert (vma_wf (sp_kst sp) es) as Hv1 by (rewrite <- Ees; apply (sw_vma _ _ Hwf)).
  assert (∀ x, x ∈ resident (sp_kst sp) es → x ∈ km_frames (frames t) ∧ x ∉ (map_img T' : gset Z)) as Hres.
  { intros x Hx. assert (x ∈ resident (sp_kst sp2) (sp_es sp2)) as Hx2 by (rewrite <- Ees in Hx; exact Hx).
    split; [by apply (vw_frames _ _ (sw_vma _ _ Hwf2))|by apply (sw_data _ _ Hwf2)]. }
  assert (vma_wf st' es) as Hv'.
  { apply recorded_wf; try done; [apply (sw_vma _ _ Hwf2)|]. intros x Hx. by apply Hres. }
  assert (resident st' es ≡ₚ pa :: resident (sp_kst sp) es) as Hperm.
  { apply recorded_resident; try done; [apply (sw_vma _ _ Hwf2)|]. intros x Hx. by apply Hres. }
  assert (∀ a x, maps st' es a x ↔
    if decide (base ≤ a < base + PAGE_SIZE) then x = (v_prot v, v_flags v, pa) else area sp a x) as Hm.
  { intros a x. unfold st', es. rewrite recorded_maps by done.
    unfold area. rewrite Ees. repeat case_decide; [done|exfalso; lia..|done]. }
  split; [|split; [|split; [done|]]].
  - apply flush_wf. constructor; [done|apply wf_log, (sw_pt _ _ Hwf2)|apply Hwf| |].
    + intros x. change (x ∈ resident st' es → x ∉ (map_img T' : gset Z)). rewrite Hperm. intros Hx.
      apply elem_of_cons in Hx as [->|Hx]; [done|]. by apply Hres.
    + intros a x Hx. change (maps st' es a x) in Hx. apply Hm in Hx. unfold USER_VA_TOP. case_decide as Hp.
      * unfold PAGE_SIZE in *. dlia.
      * by apply (sw_top _ _ Hwf) in Hx.
  - exists v. split; [done|]. split; [done|]. exists 0. split; [|done].
    assert ((far - v_start v) / PAGE_SIZE = idx) as -> by (unfold idx, PAGE_SIZE in *; dlia).
    unfold backing. rewrite Harr. cbn. by rewrite lookup_take_lt by lia.
  - split; [done|]. split; [done|]. split; [cbn; by rewrite lookup_insert_eq|]. split; [done|]. split; [exact Hhw|].
    intros a x. apply Hm.
Qed.

(** ** Growing the stack *)

Definition stack_flags : Z := Z.lor (Z.lor (Z.lor (PTE_ATTRIDX 1) PTE_AP_RW_EL0) PTE_UXN) PTE_PXN.

Definition stack_zone (far : Z) : Prop :=
  USER_STACK_TOP - USER_STACK_PAGES_MAX * PAGE_SIZE ≤ far < USER_STACK_TOP - USER_STACK_PAGES * PAGE_SIZE.

(** The hardware's view is constant on a page. *)
Lemma hw_page sp a b : a / PAGE_SIZE = b / PAGE_SIZE → hw sp a = hw sp b.
Proof.
  intros Hp. destruct (path_page a b Hp) as [[= E0 E1 E2] E3]. unfold hw, hw_pte. by rewrite E0, E1, E2, E3.
Qed.

Definition stack_grown sp sp' (far pa k : Z) : Prop :=
  let base := far / PAGE_SIZE * PAGE_SIZE in
  pa ≠ 0 ∧ (pa ∉ km_frames (frames (sp_pt sp))) ∧ sp_ram sp' !! pa = Some zero_page ∧
  sp_grown sp' = sp_grown sp ++ [(pa, base)] ∧
  (k = 1 ∨ k = 0 ∧ km_alloc_page (frames (sp_pt sp')) = Some (0, frames (sp_pt sp'))) ∧
  (∀ a, 0 ≤ a < 2 ^ 48 → hw sp' a =
    if decide (base ≤ a < base + k * PAGE_SIZE) then Some (page_desc pa stack_flags) else hw sp a) ∧
  ∀ a x, area sp' a x ↔ area sp a x.

Lemma grown_coherent sp sp' T far pa k :
  sp_wf sp T → coherent sp → stack_zone far → hw sp far = None → stack_grown sp sp' far pa k → coherent sp'.
Proof.
  intros Hwf Hco Hz Hnone (_ & _ & _ & _ & Hk & Hh & Ha). set (base := far / PAGE_SIZE * PAGE_SIZE) in *.
  assert (base ≤ far < base + PAGE_SIZE) as Hb by (unfold base, PAGE_SIZE; dlia).
  unfold stack_zone, USER_STACK_TOP, USER_STACK_PAGES_MAX, USER_STACK_PAGES, PAGE_SIZE in *. constructor.
  - intros a pr fl p Hx Hp. apply Ha in Hx. pose proof (sw_top _ _ Hwf a _ Hx). pose proof (area_nonneg _ _ _ _ Hwf Hx).
    rewrite Hh by (unfold USER_VA_TOP in *; lia). case_decide as Hin; [|by eapply coh_resident]. exfalso.
    pose proof (coh_resident sp Hco a pr fl p Hx Hp) as Hs. rewrite (hw_page sp a far), Hnone in Hs; [done|].
    unfold base, PAGE_SIZE in *. assert (k ≤ 1) by lia. dlia.
  - intros a e Hw He. rewrite Hh in He by (unfold USER_MMAP_BASE, USER_VA_TOP in *; lia).
    setoid_rewrite Ha. case_decide as Hin; [|by eapply coh_window]. exfalso. unfold USER_MMAP_BASE in Hw. lia.
Qed.

Lemma grow_step sp T far :
  sp_wf sp T → is_u64 far →
  ∃ b sp', sched_try_grow_stack sp far = Some (b, sp') ∧
    (b = false ∧ sp' = sp ∨
     b = true ∧ stack_zone far ∧ (length (sp_grown sp) < USER_STACK_GROWN_MAX)%nat ∧
     ∃ T' pa k, sp_wf sp' T' ∧ stack_grown sp sp' far pa k).
Proof.
  intros Hwf Hfar. unfold sched_try_grow_stack. rewrite decide_False by apply Hwf.
  assert (∃ b sp', Some (false, sp) = Some (b, sp') ∧ (b = false ∧ sp' = sp ∨
     b = true ∧ stack_zone far ∧ (length (sp_grown sp) < USER_STACK_GROWN_MAX)%nat ∧
     ∃ T' pa k, sp_wf sp' T' ∧ stack_grown sp sp' far pa k)) as Hno by (exists false, sp; auto).
  case_decide as Hz; [exact Hno|]. assert (stack_zone far) as Hzone by (unfold stack_zone; lia).
  case_decide as Hmax; [exact Hno|].
  destruct (km_alloc_page_ok (frames (sp_pt sp))) as (pa & m & Ealloc & Hi & _ & Hc); [apply (sw_vma _ _ Hwf)|].
  set (sp1 := with_pt sp (mk_pt m (tabs (sp_pt sp)) (mmu_on (sp_pt sp)) (tlbi_log (sp_pt sp)))).
  assert (alloc_page sp = Some (pa, sp1)) as Ea by (unfold alloc_page; by rewrite Ealloc).
  rewrite Ea. cbn [mbind option_bind]. case_decide as Hpa.
  { destruct Hc as [[_ Hm]|[Hfr Hc]]; [unfold sp1; rewrite Hm, sp_eta; exact Hno|].
    exfalso. apply (km_null m); [done|]. rewrite Hc, Hpa. set_solver +. }
  clear Hno. rewrite page_base by done. set (base := far / PAGE_SIZE * PAGE_SIZE).
  assert (base mod PAGE_SIZE = 0 ∧ 0 ≤ base < USER_VA_TOP) as [Hb1 Hb2].
  { unfold base, stack_zone, USER_STACK_TOP, USER_STACK_PAGES_MAX, USER_STACK_PAGES, USER_VA_TOP, PAGE_SIZE in *. split; dlia. }
  destruct (map_fresh sp T pa sp1 base stack_flags Hwf Ea Hpa Hb1 Hb2)
    as (t & T' & k & Em & Hwf2 & Hpf & Hpt & Hfresh & Hlive & Hk & Hhw & Har).
  unfold stack_flags in Em. rewrite Em. cbn [mbind option_bind]. eexists true, _. split; [done|]. right.
  split; [done|]. split; [done|]. split; [lia|]. exists T', pa, k. split.
  - apply (same_wf (flush_page (with_pt (clear_page sp1 pa) t) base)); [done..|]. by apply flush_wf.
  - split; [done|]. split; [done|]. split; [cbn; by rewrite lookup_insert_eq|]. split; [done|]. split; [done|].
    split; [exact Hhw|exact Har].
Qed.

(** ** The program break *)

Lemma with_brk_wf sp T c : sp_wf sp T → sp_wf (with_brk sp c) T.
Proof. by apply same_wf. Qed.

Lemma with_brk_coherent sp c : coherent sp → coherent (with_brk sp c).
Proof. by apply same_coherent. Qed.

(** The growth of the area that holds the break stays clear of the next area. *)
Definition brk_room sp (addr : Z) : Prop :=
  ∀ i v w, vma_find (sp_es sp) (sp_brk_cur sp) = Some i → sp_es sp !! i = Some v → w ∈ sp_es sp →
    v_end v ≤ v_start w → PAGE_ALIGN_UP addr ≤ v_start w.

(** [sp'] has the areas of [sp] and empty pages from [lo] to [hi]. *)
Definition brk_grown sp sp' (lo hi pr fl : Z) : Prop :=
  ∀ a x, area sp' a x ↔ area sp a x ∨ (lo ≤ a < hi ∧ x = (pr, fl, 0)).

Lemma brk_extend_spec sp T l1 v l2 ne :
  sp_wf sp T → coherent sp → sp_es sp = l1 ++ v :: l2 → v_end v < ne ≤ USER_VA_TOP → ne mod PAGE_SIZE = 0 →
  (∀ w, w ∈ l2 → ne ≤ v_start w) →
  ∃ ok sp', brk_extend sp (length l1) v ne = Some (ok, sp') ∧ sp_wf sp' T ∧ coherent sp' ∧
    (∀ a, hw sp' a = hw sp a) ∧ sp_brk_base sp' = sp_brk_base sp ∧ sp_brk_cur sp' = sp_brk_cur sp ∧
    ∀ a x, area sp' a x ↔ area sp a x ∨ (ok = true ∧ v_end v ≤ a < ne ∧ x = (v_prot v, v_flags v, 0)).
Proof.
  intros Hwf Hco Ees Hne Hal Hroom. pose proof (sw_vma _ _ Hwf) as Hv. rewrite Ees in Hv.
  assert (vma_ok (sp_kst sp) v) as Hok.
  { pose proof (vw_ok _ _ Hv) as H. rewrite Forall_forall in H. apply H. set_solver +. }
  destruct (vma_npages_ok _ _ Hok) as (Hn & Hnb & _). pose proof Hok as (Hs0 & Hse & H64 & _ & _ & Hlive & _).
  unfold USER_VA_TOP in Hne. unfold brk_extend. rewrite (sub64_small ne) by lia.
  change ((v_end v -w v_start v) / PAGE_SIZE) with (vma_npages v). rewrite read_array_ok by done.
  destruct (km_malloc_ok (frames (sp_pt sp)) ((vma_npages v +w (ne - v_end v) / PAGE_SIZE) *w 8))
    as (p & m & -> & Hi & Hf & Hc); [apply Hv|apply wrap64_range|]. cbn [mbind option_bind]. case_decide as Hp0.
  - assert (km_live m = km_live (frames (sp_pt sp))) as Hl.
    { destruct Hc as [[_ ?]|[_ Hl]]; [done|]. exfalso. apply (km_null m) in Hi as [Hi _]. apply Hi. rewrite Hl, Hp0. set_solver +. }
    eexists false, _. split; [done|].
    destruct (same_space_step sp T (mk_kst m (sp_arrs sp)) (sp_es sp) Hwf Hco) as [H1 H2 H3 H4]; [|done|done|].
    { rewrite Ees. by apply (same_space_mem (sp_kst sp)). }
    do 5 (split; [done|]). intros a x. rewrite H4. intuition done.
  - destruct Hc as [[? _]|[Hp Hl]]; [done|].
    destruct (free_array_ok m (<[p := backing (sp_kst sp) v ++ replicate (Z.to_nat ((ne - v_end v) / PAGE_SIZE)) 0]> (sp_arrs sp))
      (v_pages v)) as (m' & -> & Hi' & Hf' & Hl'); [done|rewrite Hl; set_solver +Hlive|]. cbn [mbind option_bind].
    eexists true, _. split; [done|]. rewrite Ees, insert_app_r_alt, Nat.sub_diag by done. cbn [list_insert insert].
    destruct (add_zero_step sp T
      (mk_kst m' (delete (v_pages v) (<[p := backing (sp_kst sp) v ++ replicate (Z.to_nat ((ne - v_end v) / PAGE_SIZE)) 0]> (sp_arrs sp))))
      (l1 ++ mk_vma (v_start v) ne (v_prot v) (v_flags v) p (v_next v) :: l2) (v_end v) ne (v_prot v) (v_flags v))
      as (H1 & H2 & H3); [done|done| | |unfold USER_VA_TOP; lia| |].
    + apply extend_wf; try done; [lia|cbn; by rewrite Hf', Hf|by rewrite Hl', Hl].
    + cbn. by rewrite Hf', Hf.
    + intros a x. unfold area. rewrite Ees. apply extend_maps; try done. lia.
    + do 5 (split; [done|]). intros a x. rewrite H3. intuition done.
Qed.

(** A break moved to [addr]: the area that holds it grows in place; without one,
    an area is made from the base of the arena, or nothing changes. *)
Definition brk_moved sp sp' (addr : Z) : Prop :=
  match vma_find (sp_es sp) (sp_brk_cur sp) with
  | Some i => ∃ v, sp_es sp !! i = Some v ∧ brk_grown sp sp' (v_end v) (PAGE_ALIGN_UP addr) (v_prot v) (v_flags v)
  | None => (∀ a x, area sp' a x ↔ area sp a x) ∨
      brk_grown sp sp' USER_BRK_BASE (PAGE_ALIGN_UP addr) (Z.lor Vma.VMA_PROT_READ Vma.VMA_PROT_WRITE) VMA_ANONYMOUS
  end.

Lemma brk_step sp T addr :
  sp_wf sp T → coherent sp → is_u64 addr → sp_brk_base sp = USER_BRK_BASE → brk_room sp addr →
  ∃ r sp', sys_brk sp addr = Some (r, sp') ∧ sp_wf sp' T ∧ coherent sp' ∧ (∀ a, hw sp' a = hw sp a) ∧
    sp_brk_base sp' = sp_brk_base sp ∧ sp_brk_cur sp' = r ∧
    (r = sp_brk_cur sp ∧ (∀ a x, area sp' a x ↔ area sp a x) ∨
     r = addr ∧ sp_brk_cur sp ≤ addr ∧ USER_BRK_BASE ≤ addr ≤ USER_BRK_BASE + USER_BRK_RESERVE_PAGES * PAGE_SIZE ∧
     brk_moved sp sp' addr).
Proof.
  intros Hwf Hco Ha Hbase Hroom. unfold sys_brk. rewrite decide_False by apply Hwf. rewrite Hbase.
  change (USER_BRK_BASE +w USER_BRK_RESERVE_PAGES *w PAGE_SIZE) with (USER_BRK_BASE + USER_BRK_RESERVE_PAGES * PAGE_SIZE).
  do 3 (case_decide; [eexists _, _; split; [done|]; do 5 (split; [done|]); by left|]).
  assert (USER_BRK_BASE ≤ addr ≤ USER_BRK_BASE + USER_BRK_RESERVE_PAGES * PAGE_SIZE) as Hr by lia.
  assert (PAGE_ALIGN_UP addr = (addr + 4095) / 4096 * 4096) as Eup by (apply PAGE_ALIGN_UP_spec; unfold USER_BRK_BASE, USER_BRK_RESERVE_PAGES, PAGE_SIZE in Hr; lia).
  assert (USER_BRK_BASE ≤ PAGE_ALIGN_UP addr ≤ USER_VA_TOP ∧ PAGE_ALIGN_UP addr mod PAGE_SIZE = 0) as [Hup Hal].
  { rewrite Eup. unfold USER_BRK_BASE, USER_BRK_RESERVE_PAGES, USER_VA_TOP, PAGE_SIZE in *. split; dlia. }
  unfold brk_moved. destruct (vma_find (sp_es sp) (sp_brk_cur sp)) as [i|] eqn:Hfind.
  - pose proof Hfind as (l1 & v & l2 & Ees & -> & Hin)%vma_find_Some.
    assert (sp_es sp !! length l1 = Some v) as Hi by (rewrite Ees; by apply list_lookup_middle). rewrite Hi. cbn [mbind option_bind].
    case_decide as Hend.
    + destruct (brk_extend_spec sp T l1 v l2 (PAGE_ALIGN_UP addr)) as (ok & sp1 & -> & Hwf1 & Hco1 & Hhw & Hb1 & Hc1 & Har);
        [done|done|done|lia|done| |].
      { intros w Hw. apply (Hroom (length l1) v w); [done|done|rewrite Ees; set_solver +Hw|].
        pose proof (vw_sorted _ _ (sw_vma _ _ Hwf)) as Hs. rewrite Ees in Hs. apply pairwise_app in Hs as (_ & [Hs _] & _).
        rewrite Forall_forall in Hs. by apply Hs. }
      cbn [mbind option_bind]. destruct ok; eexists _, _; (split; [done|]).
      * split; [by apply with_brk_wf|]. split; [by apply with_brk_coherent|]. split; [exact Hhw|]. split; [by rewrite <- Hbase|].
        split; [done|]. right. split; [done|]. split; [lia|]. split; [done|]. exists v. split; [done|]. intros a x.
        change (area (with_brk sp1 addr) a x) with (area sp1 a x). rewrite Har. intuition done.
      * do 3 (split; [done|]). split; [by rewrite <- Hbase|]. split; [done|]. left. split; [done|]. intros a x. rewrite Har. intuition done.
    + eexists _, _. split; [done|]. split; [by apply with_brk_wf|]. split; [by apply with_brk_coherent|].
      do 3 (split; [done|]). right. split; [done|]. split; [lia|]. split; [done|]. exists v. split; [done|].
      intros a x. change (area (with_brk sp addr) a x) with (area sp a x). split; [by left|]. intros [?|[? _]]; [done|lia].
  - case_decide as Hlo.
    + destruct (vma_add_spec (sp_kst sp) (sp_es sp) USER_BRK_BASE (PAGE_ALIGN_UP addr)
        (Z.lor Vma.VMA_PROT_READ Vma.VMA_PROT_WRITE) VMA_ANONYMOUS (sw_vma _ _ Hwf))
        as (r & st & es & -> & Hv & _ & Hf & Hr'); [unfold USER_BRK_BASE; by vm_compute|unfold is_u64, USER_BRK_BASE, USER_VA_TOP in *; lia|].
      cbn [mbind option_bind]. eexists _, _. split; [done|]. destruct r as [i|].
      * destruct Hr' as (_ & _ & Hs1 & Hs2 & Hno & Hm).
        destruct (add_zero_step sp T st es _ _ _ _ Hwf Hco Hv Hf (proj2 Hup) Hm) as (Hwf' & Hco' & Har).
        split; [by apply with_brk_wf|]. split; [by apply with_brk_coherent|]. do 3 (split; [done|]). right.
        split; [done|]. split; [lia|]. split; [done|]. right. exact Har.
      * destruct Hr' as [-> Har]. destruct (same_space_step sp T st (sp_es sp)) as [Hwf' Hco' _ Har']; [done..| |].
        { intros a x. unfold area. apply maps_frame. intros v _. by rewrite Har. }
        split; [by apply with_brk_wf|]. split; [by apply with_brk_coherent|]. do 3 (split; [done|]). right.
        split; [done|]. split; [lia|]. split; [done|]. left. exact Har'.
    + eexists _, _. split; [done|]. split; [by apply with_brk_wf|]. split; [by apply with_brk_coherent|].
      do 3 (split; [done|]). right. split; [done|]. split; [lia|]. split; [done|]. by left.
Qed.

(** ** User aborts *)

(** What a user access needs. *)
Definition grants (is_write is_exec : bool) (e : Z) : bool :=
  if is_exec then el0_exec e else if is_write then el0_write e else el0_read e.

Lemma access_grants prot w x pa : access_ok prot w x = true → grants w x (page_desc pa (mmu_prot_to_flags prot)) = true.
Proof.
  destruct (page_desc_rights pa (mmu_prot_to_flags prot)) as (Er & Ew & Ex).
  destruct (prot_flags_rights prot) as (Hw & Hr & Hx).
  unfold access_ok, grants, Vma.VMA_PROT_EXEC, Vma.VMA_PROT_WRITE, Vma.VMA_PROT_READ. rewrite Er, Ew, Ex, Hw, Hr, Hx.
  destruct x; [|destruct w]; intros H%bool_decide_eq_true.
  - by apply (land_pow2_testbit prot 2).
  - by apply (land_pow2_testbit prot 1).
  - apply (land_pow2_testbit prot 0) in H; [|lia]. by rewrite H.
Qed.

(** The outcome of an abort that resumes the task: the page at [far] is backed
    by a fresh cleared page, by stack growth or because an area grants the
    access.  Unless the page tables ran out of memory, the access now succeeds. *)
Definition resolved sp sp' (far : Z) (is_write is_exec : bool) : Prop :=
  ∃ T' pa k, sp_wf sp' T' ∧
    (is_exec = false ∧ stack_zone far ∧ stack_grown sp sp' far pa k ∨
     ∃ pr fl, area sp far (pr, fl, 0) ∧ access_ok pr is_write is_exec = true ∧ faulted_in sp sp' far pr fl pa k) ∧
    (k = 1 → ∃ e, hw sp' far = Some e ∧ grants is_write is_exec e = true) ∧
    (k = 0 → hw sp' far = hw sp far ∧ km_alloc_page (frames (sp_pt sp')) = Some (0, frames (sp_pt sp'))).

Lemma far_page far : is_u64 far → far / PAGE_SIZE * PAGE_SIZE ≤ far < far / PAGE_SIZE * PAGE_SIZE + 1 * PAGE_SIZE.
Proof. unfold PAGE_SIZE, is_u64. dlia. Qed.

Lemma fault_resolved sp T far w x sp' :
  sp_wf sp T → is_u64 far → sched_try_handle_vma_fault sp far w x = Some (true, sp') → resolved sp sp' far w x.
Proof.
  intros Hwf Hfar E. destruct (fault_step sp T far w x Hwf Hfar) as (b & sp1 & E1 & Hb). rewrite E in E1. injection E1 as <- <-.
  destruct Hb as [[? _]|(_ & T' & pr & fl & pa & k & Hwf' & Ha & Hacc & Hin)]; [done|].
  exists T', pa, k. split; [done|]. split; [right; by exists pr, fl|].
  pose proof (sw_top _ _ Hwf _ _ Ha) as Htop. unfold USER_VA_TOP in Htop. pose proof (far_page far Hfar) as Hp.
  pose proof Hin as (_ & _ & _ & Hk & Hhw & _). rewrite Hhw by (unfold is_u64 in Hfar; lia). split; intros ->.
  - rewrite decide_True by done. eexists. split; [done|]. by apply access_grants.
  - rewrite decide_False by lia. split; [done|]. by destruct Hk as [?|[_ ?]].
Qed.

Lemma grow_resolved sp T far w sp' :
  sp_wf sp T → is_u64 far → sched_try_grow_stack sp far = Some (true, sp') → resolved sp sp' far w false.
Proof.
  intros Hwf Hfar E. destruct (grow_step sp T far Hwf Hfar) as (b & sp1 & E1 & Hb). rewrite E in E1. injection E1 as <- <-.
  destruct Hb as [[? _]|(_ & Hz & _ & T' & pa & k & Hwf' & Hin)]; [done|].
  exists T', pa, k. split; [done|]. split; [by left|]. pose proof (far_page far Hfar) as Hp.
  pose proof Hin as (_ & _ & _ & _ & Hk & Hhw & _).
  rewrite Hhw by (unfold stack_zone, USER_STACK_TOP, USER_STACK_PAGES_MAX, USER_STACK_PAGES, PAGE_SIZE in Hz; lia). split; intros ->.
  - rewrite decide_True by done. eexists. split; [done|]. destruct (page_desc_rights pa stack_flags) as (Er & Ew & _).
    unfold grants. rewrite Er, Ew. by destruct w.
  - rewrite decide_False by lia. split; [done|]. by destruct Hk as [?|[_ ?]].
Qed.

Lemma resolved_coherent sp sp' T far w x e :
  sp_wf sp T → coherent sp → hw sp far = None → hw sp' far = Some e → resolved sp sp' far w x → coherent sp'.
Proof.
  intros Hwf Hco Hn He (T' & pa & k & Hwf' & Hcase & _ & H0).
  destruct Hcase as [(_ & Hz & Hg)|(pr & fl & _ & _ & Hin)]; [exact (grown_coherent sp sp' T far pa k Hwf Hco Hz Hn Hg)|].
  pose proof Hin as (_ & _ & _ & [->|[-> _]] & _); [exact (faulted_coherent sp sp' T' far pr fl pa Hwf' Hco Hin)|].
  destruct (H0 eq_refl) as [E _]. congruence.
Qed.

Lemma data_abort_step sp T dfsc wnr far :
  sp_wf sp T → is_u64 far →
  ∃ b sp', data_abort sp dfsc wnr far = Some (b, sp') ∧
    (b = false ∧ sp' = sp ∨ b = true ∧ is_translation_fault dfsc = true ∧ resolved sp sp' far (bool_decide (wnr ≠ 0)) false).
Proof.
  intros Hwf Hfar. unfold data_abort. destruct (is_translation_fault dfsc); [|exists false, sp; auto].
  destruct (grow_step sp T far Hwf Hfar) as (b & sp1 & E & Hb). rewrite E. cbn [mbind option_bind].
  destruct b; [exists true, sp1; split; [done|]; right; do 2 (split; [done|]); by eapply grow_resolved|].
  destruct Hb as [[_ ->]|[? _]]; [|done].
  destruct (fault_step sp T far (bool_decide (wnr ≠ 0)) false Hwf Hfar) as (b & sp' & E' & Hb).
  exists b, sp'. split; [done|]. destruct b; [right|left; by destruct Hb as [?|[? _]]].
  do 2 (split; [done|]). by eapply fault_resolved.
Qed.

Lemma inst_abort_step sp T dfsc far :
  sp_wf sp T → is_u64 far →
  ∃ b sp', inst_abort sp dfsc far = Some (b, sp') ∧
    (b = false ∧ sp' = sp ∨ b = true ∧ is_translation_fault dfsc = true ∧ resolved sp sp' far false true).
Proof.
  intros Hwf Hfar. unfold inst_abort. destruct (is_translation_fault dfsc); [|exists false, sp; auto].
  destruct (fault_step sp T far false true Hwf Hfar) as (b & sp' & E & Hb). exists b, sp'. split; [done|].
  destruct b; [right|left; by destruct Hb as [?|[? _]]]. do 2 (split; [done|]). by eapply fault_resolved.
Qed.

(** ** Histories of an address space *)

(** A new task starts with fresh tables and no areas. *)
Lemma new_space_ok sp l0 :
  ttbr_baddr (sp_ttbr0 sp) = l0 → sp_ttbr0 sp ≠ 0 → sp_es sp = [] → pt_wf (sp_pt sp) l0 {[ [] := l0 ]} →
  sp_wf sp {[ [] := l0 ]} ∧ coherent sp.
Proof.
  intros Hl Hne Hes Hwf.
  assert (∀ a x, ¬ area sp a x) as Hno by (intros a x (v & Hv & _); rewrite Hes in Hv; by apply elem_of_nil in Hv).
  assert (∀ x, x ∉ resident (sp_kst sp) (sp_es sp)) as Hnr by (intros x; rewrite Hes; apply not_elem_of_nil).
  split; constructor.
  - constructor; rewrite ?Hes; [apply Hwf|cbn; lia|constructor|done|constructor| |constructor].
    intros x Hx. by apply elem_of_nil in Hx.
  - by rewrite Hl.
  - done.
  - intros x Hx. by apply Hnr in Hx.
  - intros a x Hx. by apply Hno in Hx.
  - intros a pr fl p Hx. by apply Hno in Hx.
  - intros a e _ He. exfalso. unfold hw, hw_pte in He. rewrite Hl in He. destruct (pt_index_range a) as (Hi & _).
    rewrite (hw_child _ l0 {[ [] := l0 ]} [] l0), lookup_singleton_ne in He; try done. cbn. lia.
Qed.

(** The operations a running task performs on its address space.  Two kinds are
    left out, because they break the agreement of areas and page tables: a [brk]
    that grows its area into another one, which [sys_brk] does not check
    ([brk_room]), and an abort that resumes the task although the page tables ran
    out of memory, after which the page is recorded but not mapped. *)
Inductive vm_step : space M → space M → Prop :=
  | vs_mmap sp r sp' addr length prot flags fd offset :
      is_u64 addr → is_u64 length → sys_mmap sp addr length prot flags fd offset = Some (r, sp') → vm_step sp sp'
  | vs_munmap sp r sp' addr length :
      is_u64 addr → is_u64 length → sys_munmap sp addr length = Some (r, sp') → vm_step sp sp'
  | vs_mprotect sp r sp' addr length prot :
      is_u64 addr → is_u64 length → sys_mprotect sp addr length prot = Some (r, sp') → vm_step sp sp'
  | vs_brk sp r sp' addr :
      is_u64 addr → sp_brk_base sp = USER_BRK_BASE → brk_room sp addr → sys_brk sp addr = Some (r, sp') → vm_step sp sp'
  | vs_data sp sp' dfsc wnr far e :
      is_u64 far → hw sp far = None → data_abort sp dfsc wnr far = Some (true, sp') → hw sp' far = Some e → vm_step sp sp'
  | vs_inst sp sp' dfsc far e :
      is_u64 far → hw sp far = None → inst_abort sp dfsc far = Some (true, sp') → hw sp' far = Some e → vm_step sp sp'.

Lemma vm_step_inv sp sp' T : vm_step sp sp' → sp_wf sp T → coherent sp → ∃ T', sp_wf sp' T' ∧ coherent sp'.
Proof.
  intros Hst Hwf Hco.
  destruct Hst as [sp r sp' addr length prot flags fd offset Ha Hl E|sp r sp' addr length Ha Hl E|sp r sp' addr length prot Ha Hl E
    |sp r sp' addr Ha Hb Hroom E|sp sp' dfsc wnr far e Hfar Hn E He|sp sp' dfsc far e Hfar Hn E He].
  - destruct (mmap_step sp T addr length prot flags fd offset) as (r' & sp1 & E1 & H1 & H2 & _); [done..|].
    rewrite E in E1. simplify_eq. eauto.
  - destruct (munmap_step sp T addr length) as (r' & sp1 & E1 & H1 & H2 & _); [done..|]. rewrite E in E1. simplify_eq. eauto.
  - destruct (mprotect_step sp T addr length prot) as (r' & sp1 & E1 & H1 & H2 & _); [done..|]. rewrite E in E1. simplify_eq. eauto.
  - destruct (brk_step sp T addr) as (r' & sp1 & E1 & H1 & H2 & _); [done..|]. rewrite E in E1. simplify_eq. eauto.
  - destruct (data_abort_step sp T dfsc wnr far Hwf Hfar) as (b & sp1 & E1 & Hb). rewrite E in E1. injection E1 as <- <-.
    destruct Hb as [[? _]|(_ & _ & Hr)]; [done|]. pose proof Hr as (T' & _ & _ & Hwf' & _). exists T'. split; [done|].
    by apply (resolved_coherent sp sp' T far (bool_decide (wnr ≠ 0)) false e).
  - destruct (inst_abort_step sp T dfsc far Hwf Hfar) as (b & sp1 & E1 & Hb). rewrite E in E1. injection E1 as <- <-.
    destruct Hb as [[? _]|(_ & _ & Hr)]; [done|]. pose proof Hr as (T' & _ & _ & Hwf' & _). exists T'. split; [done|].
    by apply (resolved_coherent sp sp' T far false true e).
Qed.

Lemma vm_steps_inv sp sp' T : rtc vm_step sp sp' → sp_wf sp T → coherent sp → ∃ T', sp_wf sp' T' ∧ coherent sp'.
Proof.
  intros Hs. revert T. induction Hs as [sp|sp sp1 sp2 Hst _ IH]; intros T Hwf Hco; [by exists T|].
  destruct (vm_step_inv sp sp1 T Hst Hwf Hco) as (T1 & H1 & H2). by apply (IH T1).
Qed.

(** What the hardware lets EL0 do in the window is what an area says. *)
Lemma coherent_rights sp a e :
  coherent sp → USER_MMAP_BASE ≤ a < USER_VA_TOP → hw sp a = Some e →
  ∃ pr fl p, area sp a (pr, fl, p) ∧ p ≠ 0 ∧ e = page_desc p (mmu_prot_to_flags pr) ∧
    el0_write e = Z.testbit pr 1 ∧ el0_read e = Z.testbit pr 0 || Z.testbit pr 1 ∧ el0_exec e = Z.testbit pr 2.
Proof.
  intros Hco Ha He. destruct (coh_window _ Hco a e Ha He) as (pr & fl & p & Hx & Hp). exists pr, fl, p.
  pose proof (coh_resident _ Hco a pr fl p Hx Hp) as E. rewrite He in E. injection E as ->.
  destruct (page_desc_rights p (mmu_prot_to_flags pr)) as (-> & -> & ->). destruct (prot_flags_rights pr) as (-> & -> & ->). done.
Qed.
End Space.

(** ** Properties *)

Section Claims.
Context {M : Type} `{!KernelMem M}.
Implicit Types (sp : space M) (T : tree).

(** C2. A history of a task's address space, made of mmap, munmap and mprotect calls
    with any arguments, of brk calls that do not grow the heap into another area,
    and of aborts on unmapped pages that resume the task with the page mapped,
    keeps areas and page tables in step: the area list stays sorted and disjoint
    and owns its frames, every resident page is mapped with exactly its recorded
    protection, and in the mmap/brk window EL0 can read, write or execute an
    address only as the area covering it records.  The two steps left out break
    this: [sys_brk] does not look for the next area, and the abort handlers resume
    the task also when the page tables ran out of memory. *)
Theorem address_space_histories_coherent sp sp' T :
  sp_wf sp T → coherent sp → rtc vm_step sp sp' →
  (∃ T', sp_wf sp' T') ∧ coherent sp' ∧
  ∀ a e, USER_MMAP_BASE ≤ a < USER_VA_TOP → hw sp' a = Some e →
    ∃ pr fl p, area sp' a (pr, fl, p) ∧ p ≠ 0 ∧ e = page_desc p (mmu_prot_to_flags pr) ∧
      el0_write e = Z.testbit pr 1 ∧ el0_read e = Z.testbit pr 0 || Z.testbit pr 1 ∧ el0_exec e = Z.testbit pr 2.
Proof.
  intros Hwf Hco Hs. destruct (vm_steps_inv sp sp' T Hs Hwf Hco) as (T' & Hwf' & Hco').
  split; [by exists T'|]. split; [done|]. intros a e. by apply coherent_rights.
Qed.

(** [sys_mmap] never faults.  It either returns -1 and changes no memory
    (only [errno], or heap bookkeeping), or it returns the page-aligned start
    of a range inside the user window that no area overlapped, and the areas
    become the old ones plus that range, empty, with the requested protection.
    With MAP_FIXED the range is exactly the one asked for; otherwise it is the
    lowest range of the rounded length at or above USER_MMAP_BASE: every lower
    start overlaps an area.  The page tables do not change. *)
Theorem sys_mmap_correct sp T addr length prot flags fd offset :
  sp_wf sp T → coherent sp → is_u64 addr → is_u64 length →
  ∃ r sp', sys_mmap sp addr length prot flags fd offset = Some (r, sp') ∧ sp_wf sp' T ∧ coherent sp' ∧
    (r = -1 ∧ unchanged sp sp' T ∨
     ∃ e, place_ok (sp_es sp) addr length flags r e ∧ r mod PAGE_SIZE = 0 ∧ e mod PAGE_SIZE = 0 ∧
       mmapped sp sp' r e (wrap32 prot)).
Proof. apply mmap_step. Qed.

(** C18. [sys_munmap] never faults.  It either fails with -1 (or is the no-op at
    address 0) and changes no memory, or it unmaps exactly the whole pages of
    the range: there the hardware finds nothing and no area remains, elsewhere
    hardware and areas are as before, and exactly the frames recorded in the
    range go back to the page allocator. *)
Theorem sys_munmap_correct sp T addr length :
  sp_wf sp T → coherent sp → is_u64 addr → is_u64 length →
  ∃ r sp', sys_munmap sp addr length = Some (r, sp') ∧ sp_wf sp' T ∧ coherent sp' ∧
    ((r = -1 ∨ r = 0 ∧ addr = 0) ∧ unchanged sp sp' T ∨
     r = 0 ∧ ∃ en, range_end addr length = Some en ∧ unmapped sp sp' addr en).
Proof. apply munmap_step. Qed.

(** C19. [sys_mprotect] never faults.  When it goes through, every page present
    in the range keeps its physical address and gets exactly the EL0 rights of
    [prot], whether an area covers it or not; the areas in the range record
    [prot]; everything else is as before.  So a task can also re-protect the
    pages no area describes (its text window and initial stack). *)
Theorem sys_mprotect_correct sp T addr length prot :
  sp_wf sp T → coherent sp → is_u64 addr → is_u64 length →
  ∃ r sp', sys_mprotect sp addr length prot = Some (r, sp') ∧ sp_wf sp' T ∧ coherent sp' ∧
    ((r = -1 ∨ r = 0 ∧ addr = 0) ∧ unchanged sp sp' T ∨
     r = 0 ∧ ∃ en, range_end addr length = Some en ∧
       (∀ a e, addr ≤ a < en → hw sp a = Some e → ∃ e', hw sp' a = Some e' ∧
          Z.land e' PTE_ADDR_MASK = Z.land e PTE_ADDR_MASK ∧ el0_write e' = Z.testbit (wrap32 prot) 1 ∧
          el0_read e' = Z.testbit (wrap32 prot) 0 || Z.testbit (wrap32 prot) 1 ∧ el0_exec e' = Z.testbit (wrap32 prot) 2) ∧
       (∀ a, 0 ≤ a < 2 ^ 48 → ¬ (addr ≤ a < en) → hw sp' a = hw sp a) ∧
       ∀ a x, area sp' a x ↔ protected addr en (wrap32 prot) (area sp) a x).
Proof.
  intros Hwf Hco Ha Hl. destruct (mprotect_step sp T addr length prot Hwf Hco Ha Hl) as (r & sp' & E & Hwf' & Hco' & Hr).
  exists r, sp'. split; [done|]. split; [done|]. split; [done|]. destruct Hr as [Hr|(-> & en & Een & Hhw & Har & _)]; [by left|].
  right. split; [done|]. exists en. split; [done|]. split; [|split; [|done]].
  - intros a e Hin He.
    assert (0 ≤ a < 2 ^ 48) as Hb.
    { assert (en ≤ MM_MAX_USER_VA).
      { unfold range_end in Een. repeat case_decide; simplify_eq. lia. }
      unfold is_u64, MM_MAX_USER_VA, USER_VA_TOP in *. lia. }
    rewrite Hhw, decide_True, He by done. eexists. split; [done|].
    destruct (reprotect_rights (mmu_prot_to_flags (wrap32 prot)) e) as (-> & -> & -> & ->).
    destruct (prot_flags_rights (wrap32 prot)) as (-> & -> & ->). done.
  - intros a Hb Hni. by rewrite Hhw, decide_False by done.
Qed.

(** C20. A user abort: the handler never faults in the kernel; either it gives
    the task up and has changed nothing, or the abort was a translation fault
    and the page is now backed by a fresh cleared page, in the stack growth
    zone or where an area grants the access.  Then the retried access succeeds,
    except when the page tables ran out of memory: the handler reports success
    although nothing was mapped. *)
Theorem user_abort_correct sp T dfsc wnr far :
  sp_wf sp T → is_u64 far →
  (∃ b sp', data_abort sp dfsc wnr far = Some (b, sp') ∧
    (b = false ∧ sp' = sp ∨
     b = true ∧ is_translation_fault dfsc = true ∧ resolved sp sp' far (bool_decide (wnr ≠ 0)) false)) ∧
  ∃ b sp', inst_abort sp dfsc far = Some (b, sp') ∧
    (b = false ∧ sp' = sp ∨ b = true ∧ is_translation_fault dfsc = true ∧ resolved sp sp' far false true).
Proof. intros Hwf Hfar. split; [by eapply data_abort_step|by eapply inst_abort_step]. Qed.

(** [sys_brk] never faults and reports the break it leaves.  It never moves
    the break down nor out of the reserved arena, and never touches the page
    tables.  When an area holds the old break, moving the break grows that area
    in place, with its own protection, to the page that holds the new break;
    otherwise a fresh read-write area from the base of the arena is made, or
    nothing is. *)
Theorem sys_brk_correct sp T addr :
  sp_wf sp T → coherent sp → is_u64 addr → sp_brk_base sp = USER_BRK_BASE → brk_room sp addr →
  ∃ r sp', sys_brk sp addr = Some (r, sp') ∧ sp_wf sp' T ∧ coherent sp' ∧ (∀ a, hw sp' a = hw sp a) ∧
    sp_brk_base sp' = sp_brk_base sp ∧ sp_brk_cur sp' = r ∧
    (r = sp_brk_cur sp ∧ (∀ a x, area sp' a x ↔ area sp a x) ∨
     r = addr ∧ sp_brk_cur sp ≤ addr ∧ USER_BRK_BASE ≤ addr ≤ USER_BRK_BASE + USER_BRK_RESERVE_PAGES * PAGE_SIZE ∧
     brk_moved sp sp' addr).
Proof. apply brk_step. Qed.

(** C21. Heap growth from a page-aligned break is lost: when the heap area ends
    exactly at the break and nothing follows, [sys_brk] reports the new break,
    but the areas are what they were and the first access to the new memory is
    refused by the fault handler. *)
Theorem sys_brk_growth_lost sp T addr v is_write is_exec :
  sp_wf sp T → coherent sp → sp_brk_base sp = USER_BRK_BASE → v ∈ sp_es sp → v_start v = USER_BRK_BASE →
  v_end v = sp_brk_cur sp → (∀ w, w ∈ sp_es sp → v_start w ≠ sp_brk_cur sp) →
  sp_brk_cur sp < addr ≤ USER_BRK_BASE + USER_BRK_RESERVE_PAGES * PAGE_SIZE →
  ∃ sp', sys_brk sp addr = Some (addr, sp') ∧ sp_brk_cur sp' = addr ∧ (∀ a x, area sp' a x ↔ area sp a x) ∧
    sched_try_handle_vma_fault sp' (sp_brk_cur sp) is_write is_exec = Some (false, sp').
Proof.
  intros Hwf Hco Hbase Hv Hs Hend Hnext Haddr. pose proof (sw_vma _ _ Hwf) as Hvw.
  pose proof (vw_ok _ _ Hvw) as Hok. rewrite Forall_forall in Hok. destruct (Hok v Hv) as (_ & Hse & _ & _ & Hal & _).
  assert (vma_find (sp_es sp) (sp_brk_cur sp) = None) as Hnone.
  { destruct (vma_find (sp_es sp) (sp_brk_cur sp)) as [i|] eqn:E; [|done]. exfalso.
    apply vma_find_Some in E as (l1 & w & l2 & Ees & _ & Hin). assert (w ∈ sp_es sp) as Hw by (rewrite Ees; set_solver +).
    destruct (decide (w = v)) as [->|Hne]; [lia|]. pose proof (Hnext w Hw).
    destruct (pairwise_elem vma_before (sp_es sp) v w) as [Hb|Hb]; [apply Hvw|done|done|congruence|..]; unfold vma_before in Hb; lia. }
  assert (PAGE_ALIGN_UP addr = (addr + 4095) / 4096 * 4096) as Eup.
  { pose proof (area_end _ _ _ Hwf Hv). apply PAGE_ALIGN_UP_spec; unfold USER_BRK_BASE, USER_BRK_RESERVE_PAGES, PAGE_SIZE in *; lia. }
  assert (USER_BRK_BASE < PAGE_ALIGN_UP addr) as Hgt by (rewrite Eup; dlia).
  assert (vma_find_overlap (sp_es sp) USER_BRK_BASE (PAGE_ALIGN_UP addr) ≠ None) as Hov.
  { intros Hn. apply (overlap_None _ _ _ v Hn Hv). lia. }
  unfold sys_brk. rewrite decide_False by apply Hwf. rewrite Hbase, Hnone.
  change (USER_BRK_BASE +w USER_BRK_RESERVE_PAGES *w PAGE_SIZE) with (USER_BRK_BASE + USER_BRK_RESERVE_PAGES * PAGE_SIZE).
  rewrite !decide_False by (unfold USER_BRK_BASE in *; lia). rewrite decide_True by done.
  unfold vma_add. destruct (vma_find_overlap (sp_es sp) USER_BRK_BASE (PAGE_ALIGN_UP addr)) eqn:Eo; [|done].
  exists (with_brk (with_areas sp (sp_kst sp) (sp_es sp)) addr).
  split; [by repeat case_decide|]. split; [done|]. split; [done|].
  unfold sched_try_handle_vma_fault. rewrite decide_False by apply Hwf.
  cbn [sp_es with_brk with_areas]. by rewrite Hnone.
Qed.
End Claims.

(** ** Witnesses: a fresh address space over the bitmap allocator and the heap *)

Definition demo_t0 : pt (heap pmm) := mk_pt demo_heap ∅ true [].
Definition demo_sp0 : space (heap pmm) :=
  let '(l0, t) := default (0, demo_t0) (mmu_create_user_tables demo_t0) in
  mk_space t ∅ [] ∅ [] l0 USER_BRK_BASE USER_BRK_BASE 0 0.
Definition demo_ttbr : Z := sp_ttbr0 demo_sp0.

(** [mmap(NULL, 8192, PROT_READ|PROT_WRITE, MAP_ANONYMOUS, -1, 0)], then a store to its second page. *)
Definition demo_sp1 : space (heap pmm) :=
  from_option snd demo_sp0 (sys_mmap demo_sp0 0 8192 3 MAP_ANONYMOUS (2 ^ 64 - 1) 0).
Definition demo_sp2 : space (heap pmm) := from_option snd demo_sp1 (data_abort demo_sp1 7 1 0x1001234).

Lemma demo_ttbr_eq : demo_ttbr = 0x40103000.
Proof. vm_compute. reflexivity. Qed.

Lemma demo_sp0_ok : sp_wf demo_sp0 {[ [] := demo_ttbr ]} ∧ coherent demo_sp0.
Proof.
  pose proof (create_spec demo_t0) as Hc. destruct (Hc demo_km_inv eq_refl) as (l0 & t & E & H). clear Hc.
  pose proof demo_ttbr_eq as Hr. unfold demo_ttbr, demo_sp0 in *. rewrite E in *. cbn [default from_option id sp_ttbr0] in *.
  apply new_space_ok; cbn [sp_ttbr0 sp_es sp_pt]; [by rewrite Hr|lia|done|].
  destruct H as [H|[H _]]; [exfalso; lia|exact H].
Qed.

Lemma demo_mmap : sys_mmap demo_sp0 0 8192 3 MAP_ANONYMOUS (2 ^ 64 - 1) 0 = Some (0x1000000, demo_sp1).
Proof. vm_compute. reflexivity. Qed.

Lemma demo_abort : data_abort demo_sp1 7 1 0x1001234 = Some (true, demo_sp2).
Proof. vm_compute. reflexivity. Qed.

Lemma demo_vm_steps : rtc vm_step demo_sp0 demo_sp2.
Proof.
  eapply rtc_l; [eapply vs_mmap; [| |exact demo_mmap]; unfold is_u64; lia|].
  eapply rtc_l; [|apply rtc_refl]. apply (vs_data demo_sp1 demo_sp2 7 1 0x1001234 0x60000040104f47).
  - unfold is_u64. lia.
  - vm_compute. reflexivity.
  - exact demo_abort.
  - vm_compute. reflexivity.
Qed.

Lemma demo_sp2_ok : ∃ T, sp_wf demo_sp2 T ∧ coherent demo_sp2.
Proof. destruct demo_sp0_ok as [Hwf Hco]. exact (vm_steps_inv demo_sp0 demo_sp2 _ demo_vm_steps Hwf Hco). Qed.

Lemma address_space_histories_coherent_witness :
  rtc vm_step demo_sp0 demo_sp2 ∧ (∃ T, sp_wf demo_sp2 T) ∧ coherent demo_sp2 ∧
  (el0_write <$> hw demo_sp2 0x1001234) = Some true ∧ (el0_exec <$> hw demo_sp2 0x1001234) = Some false ∧ hw demo_sp2 0x1000000 = None.
Proof.
  split; [exact demo_vm_steps|].
  destruct (address_space_histories_coherent demo_sp0 demo_sp2 _ (proj1 demo_sp0_ok) (proj2 demo_sp0_ok) demo_vm_steps) as (H1 & H2 & _).
  split; [exact H1|]. split; [exact H2|]. split_and!; vm_compute; reflexivity.
Defined.

Lemma sys_mmap_correct_witness :
  (∃ r sp', sys_mmap demo_sp0 0 8192 3 MAP_ANONYMOUS (2 ^ 64 - 1) 0 = Some (r, sp') ∧ coherent sp') ∧
  (fst <$> sys_mmap demo_sp0 0 8192 3 MAP_ANONYMOUS (2 ^ 64 - 1) 0) = Some USER_MMAP_BASE.
Proof.
  split; [|vm_compute; reflexivity].
  destruct (sys_mmap_correct demo_sp0 _ 0 8192 3 MAP_ANONYMOUS (2 ^ 64 - 1) 0 (proj1 demo_sp0_ok) (proj2 demo_sp0_ok))
    as (r & sp' & E & _ & H & _); [unfold is_u64; lia..|]. exists r, sp'. split; [exact E|exact H].
Defined.

Lemma sys_munmap_correct_witness :
  (∃ r sp', sys_munmap demo_sp2 0x1001000 1 = Some (r, sp') ∧ coherent sp') ∧
  ('(r, sp') ← sys_munmap demo_sp2 0x1001000 1; Some (r, hw sp' 0x1001234, length (sp_es sp'))) = Some (0, None, 1%nat).
Proof.
  split; [|vm_compute; reflexivity]. destruct demo_sp2_ok as (T & Hwf & Hco).
  destruct (sys_munmap_correct demo_sp2 T 0x1001000 1 Hwf Hco) as (r & sp' & E & _ & H & _); [unfold is_u64; lia..|].
  exists r, sp'. split; [exact E|exact H].
Defined.

Lemma sys_mprotect_correct_witness :
  (∃ r sp', sys_mprotect demo_sp2 0x1001000 4096 1 = Some (r, sp') ∧ coherent sp') ∧
  ('(r, sp') ← sys_mprotect demo_sp2 0x1001000 4096 1; el0_write <$> hw sp' 0x1001234) = Some false.
Proof.
  split; [|vm_compute; reflexivity]. destruct demo_sp2_ok as (T & Hwf & Hco).
  destruct (sys_mprotect_correct demo_sp2 T 0x1001000 4096 1 Hwf Hco) as (r & sp' & E & _ & H & _); [unfold is_u64; lia..|].
  exists r, sp'. split; [exact E|exact H].
Defined.

Lemma user_abort_correct_witness :
  (∃ b sp', data_abort demo_sp2 7 1 0x7F0008 = Some (b, sp')) ∧ (∃ b sp', inst_abort demo_sp2 7 0x1000000 = Some (b, sp')) ∧
  (fst <$> data_abort demo_sp2 7 1 0x7F0008) = Some true ∧ (fst <$> inst_abort demo_sp2 7 0x1000000) = Some false ∧
  (fst <$> data_abort demo_sp2 7 0 0x1000000) = Some true ∧ (fst <$> data_abort demo_sp2 7 0 0x1001234) = Some false.
Proof.
  destruct demo_sp2_ok as (T & Hwf & Hco).
  destruct (user_abort_correct demo_sp2 T 7 1 0x7F0008 Hwf) as ((b & sp' & E & _) & _); [unfold is_u64; lia|].
  destruct (user_abort_correct demo_sp2 T 7 1 0x1000000 Hwf) as (_ & b' & sp'' & E' & _); [unfold is_u64; lia|].
  split; [exists b, sp'; exact E|]. split; [exists b', sp''; exact E'|]. split_and!; vm_compute; reflexivity.
Defined.

(** [brk] to one page, and then from that aligned break to a second. *)
Definition demo_sp3 : space (heap pmm) := from_option snd demo_sp0 (sys_brk demo_sp0 (USER_BRK_BASE + 4096)).

Lemma demo_brk : sys_brk demo_sp0 (USER_BRK_BASE + 4096) = Some (USER_BRK_BASE + 4096, demo_sp3).
Proof. vm_compute. reflexivity. Qed.

Lemma demo_brk_room addr : brk_room demo_sp0 addr.
Proof. intros i v w Hf. vm_compute in Hf. discriminate Hf. Qed.

Lemma sys_brk_correct_witness :
  brk_room demo_sp0 (USER_BRK_BASE + 100) ∧
  (∃ r sp', sys_brk demo_sp0 (USER_BRK_BASE + 100) = Some (r, sp') ∧ sp_brk_cur sp' = r ∧ coherent sp') ∧
  (fst <$> sys_brk demo_sp0 (USER_BRK_BASE + 100)) = Some (USER_BRK_BASE + 100).
Proof.
  split; [apply demo_brk_room|]. split; [|vm_compute; reflexivity].
  destruct (sys_brk_correct demo_sp0 _ (USER_BRK_BASE + 100) (proj1 demo_sp0_ok) (proj2 demo_sp0_ok)) as (r & sp' & E & _ & Hc & _ & _ & Hr & _);
    [unfold is_u64, USER_BRK_BASE; lia|vm_compute; reflexivity|apply demo_brk_room|]. exists r, sp'. split; [exact E|]. split; [exact Hr|exact Hc].
Defined.

Lemma demo_sp3_ok : ∃ T, sp_wf demo_sp3 T ∧ coherent demo_sp3.
Proof.
  destruct demo_sp0_ok as [Hwf Hco]. refine (vm_step_inv demo_sp0 demo_sp3 _ _ Hwf Hco).
  apply (vs_brk demo_sp0 (USER_BRK_BASE + 4096) demo_sp3 (USER_BRK_BASE + 4096)).
  - unfold is_u64, USER_BRK_BASE. lia.
  - vm_compute. reflexivity.
  - apply demo_brk_room.
  - exact demo_brk.
Qed.

Lemma sys_brk_growth_lost_witness :
  ∃ sp', sys_brk demo_sp3 (USER_BRK_BASE + 8192) = Some (USER_BRK_BASE + 8192, sp') ∧
    sched_try_handle_vma_fault sp' (sp_brk_cur demo_sp3) true false = Some (false, sp').
Proof.
  destruct demo_sp3_ok as (T & Hwf & Hco).
  assert (∃ v, sp_es demo_sp3 = [v] ∧ v_start v = USER_BRK_BASE ∧ v_end v = USER_BRK_BASE + 4096) as (v & Ees & Hs & He).
  { eexists. split; [vm_compute; reflexivity|]. split; vm_compute; reflexivity. }
  assert (sp_brk_cur demo_sp3 = USER_BRK_BASE + 4096) as Hc by (vm_compute; reflexivity).
  destruct (sys_brk_growth_lost demo_sp3 T (USER_BRK_BASE + 8192) v true false Hwf Hco) as (sp' & E & _ & _ & Hf).
  - vm_compute. reflexivity.
  - rewrite Ees. apply elem_of_cons. left. reflexivity.
  - exact Hs.
  - rewrite Hc. exact He.
  - intros w Hw. rewrite Ees in Hw. apply elem_of_cons in Hw as [->|Hw]; [rewrite Hs, Hc; clear; lia|apply elem_of_nil in Hw; destruct Hw].
  - rewrite Hc. clear. unfold USER_BRK_RESERVE_PAGES, PAGE_SIZE. lia.
  - exists sp'. split; [exact E|exact Hf].
Defined.
