(* ===== verification/Vnode.v ===== *)
(** The vnode tree: the first half of [src/src/fs/vfs/vfs.c].

    [node_pool] is the list of the nodes handed out so far, a [vnode_t *] is
    an index into it, and a name is the bytes before its NUL.  [None] as a
    result is a fault: a dereferenced NULL, an index outside the pool or
    outside a name array, or fuel running out.  The callback a filesystem
    installs in [v_ops->lookup] is the [lookup] of the class [DirOps], with
    what the resolver relies on; [no_dir_ops] is the instance without
    filesystems, and the theorems hold for every instance. *)
From S2P Require Import Prelude.

Inductive vnode_type := VNODE_REG | VNODE_DIR | VNODE_CHR | VNODE_BLK.
#[global] Instance vnode_type_eq_dec : EqDecision vnode_type.
Proof. solve_decision. Defined.

(** [v_ops]: the table of the in-memory directories, or a filesystem's. *)
Inductive dir_ops := builtin_dir_ops | fs_dir_ops (fs : Z).

Definition MAX_VNODES : nat := 128.
Definition NAME_ARRAY : nat := 64.

Record vnode := mk_vnode {
  vn_name : list Z;
  vn_type : vnode_type;
  vn_ops : Z;
  vn_vops : option dir_ops;
  vn_priv : Z;
  vn_size : Z;
  vn_parent : option nat;
  vn_children : option nat;
  vn_next : option nat;
}.

Record vfs := mk_vfs { node_pool : list vnode; vroot : option nat }.

Definition SLASH : Z := 47.
Definition DOT : Z := 46.

(** ** Building the tree *)

Definition alloc_vnode (st : vfs) (name : list Z) (ty : vnode_type) : option (nat * vfs) :=
  if decide (MAX_VNODES ≤ length (node_pool st))%nat then None
  else
    let n := mk_vnode (take 63 name) ty 0 None 0 0 None None None in
    Some (length (node_pool st), mk_vfs (node_pool st ++ [n]) (vroot st)).

Definition set_vops (o : option dir_ops) (n : vnode) : vnode :=
  mk_vnode (vn_name n) (vn_type n) (vn_ops n) o (vn_priv n) (vn_size n) (vn_parent n) (vn_children n) (vn_next n).
Definition set_ops (o : Z) (n : vnode) : vnode :=
  mk_vnode (vn_name n) (vn_type n) o (vn_vops n) (vn_priv n) (vn_size n) (vn_parent n) (vn_children n) (vn_next n).
Definition set_links (p nx : option nat) (n : vnode) : vnode :=
  mk_vnode (vn_name n) (vn_type n) (vn_ops n) (vn_vops n) (vn_priv n) (vn_size n) p (vn_children n) nx.
Definition set_children (c : option nat) (n : vnode) : vnode :=
  mk_vnode (vn_name n) (vn_type n) (vn_ops n) (vn_vops n) (vn_priv n) (vn_size n) (vn_parent n) c (vn_next n).

Definition upd (st : vfs) (i : nat) (f : vnode → vnode) : vfs :=
  mk_vfs (alter f i (node_pool st)) (vroot st).

Definition vfs_init : vfs :=
  match alloc_vnode (mk_vfs [] None) [SLASH] VNODE_DIR with
  | Some (r, st) => upd (mk_vfs (node_pool st) (Some r)) r (set_vops (Some builtin_dir_ops))
  | None => mk_vfs [] None
  end.

Definition vfs_root (st : vfs) : option nat := vroot st.

(** [None] for the node is the NULL the C function returns. *)
Definition vfs_create_node (st : vfs) (parent : option nat) (name : list Z) (ty : vnode_type) :
    option (option nat * vfs) :=
  match alloc_vnode st name ty with
  | None => Some (None, st)
  | Some (n, st1) =>
      let st2 := upd st1 n (set_links parent None) in
      let st3 := if decide (ty = VNODE_DIR) then upd st2 n (set_vops (Some builtin_dir_ops)) else st2 in
      match parent with
      | None => Some (Some n, st3)
      | Some p =>
          pn ← node_pool st3 !! p;
          let st4 := upd st3 n (set_links parent (vn_children pn)) in
          Some (Some n, upd st4 p (set_children (Some n)))
      end
  end.

(** ** Looking names up *)

(** [node_name[i]] of a [char name[64]]. *)
Definition name_at (name : list Z) (i : nat) : option Z :=
  if decide (i < NAME_ARRAY)%nat then Some (default 0 (name !! i)) else None.

(** The comparison loop from index [i]; [s] are the bytes still to compare. *)
Fixpoint name_match_from (node_name s : list Z) (i : nat) : option bool :=
  match s with
  | [] => c ← name_at node_name i; Some (bool_decide (c = 0))
  | x :: s' =>
      c ← name_at node_name i;
      if decide (c ≠ x) then Some false else name_match_from node_name s' (S i)
  end.
Definition name_match (node_name s : list Z) : option bool := name_match_from node_name s 0.

(** The child list from [c]; [fuel] bounds its length. *)
Fixpoint find_in_chain (st : vfs) (c : option nat) (s : list Z) (fuel : nat) : option (option nat) :=
  match c with
  | None => Some None
  | Some i =>
      match fuel with
      | O => None
      | S f =>
          n ← node_pool st !! i;
          b ← name_match (vn_name n) s;
          if (b : bool) then Some (Some i) else find_in_chain st (vn_next n) s f
      end
  end.

(** Representation invariant of the pool. *)
Fixpoint chain (st : vfs) (c : option nat) (l : list nat) : Prop :=
  match l with
  | [] => c = None
  | i :: l' => c = Some i ∧ ∃ n, node_pool st !! i = Some n ∧ chain st (vn_next n) l'
  end.

Definition name_ok (s : list Z) : Prop := (length s < NAME_ARRAY)%nat ∧ 0 ∉ s.

Record vfs_wf (st : vfs) : Prop := {
  vf_max : (length (node_pool st) ≤ MAX_VNODES)%nat;
  vf_root r : vroot st = Some r → (r < length (node_pool st))%nat;
  vf_names i n : node_pool st !! i = Some n → name_ok (vn_name n);
  vf_parent i n p : node_pool st !! i = Some n → vn_parent n = Some p → (p < length (node_pool st))%nat;
  vf_kids i n : node_pool st !! i = Some n → ∃ l, chain st (vn_children n) l ∧ NoDup l ∧
    ∀ c m, c ∈ l → node_pool st !! c = Some m → vn_parent m = Some i;
}.

Record vfs_dirent := mk_dirent { de_name : list Z; de_size : Z; de_is_dir : bool; de_id : Z }.

(** What the resolver relies on of a filesystem's [lookup]; [readdir] is only called. *)
Class DirOps := {
  lookup_fn : Z → vfs → nat → list Z → option (option nat * vfs);
  lookup_ok fs st dir s :
    vfs_wf st → (dir < length (node_pool st))%nat → 0 ∉ s →
    ∃ r st', lookup_fn fs st dir s = Some (r, st') ∧ vfs_wf st' ∧
      (length (node_pool st) ≤ length (node_pool st'))%nat ∧ vroot st' = vroot st ∧
      ∀ c, r = Some c → (c < length (node_pool st'))%nat;
  readdir_fn : Z → vfs → nat → Z → Z → option (Z * list vfs_dirent * Z * bool);
}.

Section Resolve.
Context `{!DirOps}.

Definition find_child (st : vfs) (dir : nat) (s : list Z) : option (option nat * vfs) :=
  d ← node_pool st !! dir;
  r ← find_in_chain st (vn_children d) s (length (node_pool st));
  match r with
  | Some c => Some (Some c, st)
  | None =>
      match vn_vops d with
      | Some (fs_dir_ops fs) => lookup_fn fs st dir s
      | _ => Some (None, st)
      end
  end.

Fixpoint skip_slashes (path : list Z) : list Z :=
  match path with
  | c :: path' => if decide (c = SLASH) then skip_slashes path' else path
  | [] => []
  end.

(** The bytes up to the next slash and what follows. *)
Fixpoint span_component (path : list Z) : list Z * list Z :=
  match path with
  | c :: path' =>
      if decide (c = SLASH) then ([], path)
      else let '(a, b) := span_component path' in (c :: a, b)
  | [] => ([], [])
  end.

(** One component: the [.], [..] and lookup cases of the loop body. *)
Definition resolve_step (st : vfs) (cur : nat) (comp : list Z) : option (option nat * vfs) :=
  n ← node_pool st !! cur;
  if decide (vn_type n ≠ VNODE_DIR) then Some (None, st)
  else if decide (comp = [DOT]) then Some (Some cur, st)
  else if decide (comp = [DOT; DOT]) then Some (Some (default cur (vn_parent n)), st)
  else find_child st cur comp.

(** [cur] is [None] only when the root was never allocated. *)
Fixpoint resolve_loop (st : vfs) (cur : option nat) (path : list Z) (fuel : nat) : option (option nat * vfs) :=
  match fuel with
  | O => None
  | S f =>
      match skip_slashes path with
      | [] => Some (cur, st)
      | path1 =>
          let '(comp, rest) := span_component path1 in
          c ← cur;
          '(r, st') ← resolve_step st c comp;
          match r with
          | None => Some (None, st')
          | Some _ => resolve_loop st' r rest f
          end
      end
  end.

Definition vfs_resolve_at (st : vfs) (base : option nat) (path : list Z) : option (option nat * vfs) :=
  let base_or_root := match base with Some b => Some b | None => vroot st end in
  match path with
  | c :: path' =>
      if decide (c = SLASH) then resolve_loop st (vroot st) path' (S (length path'))
      else resolve_loop st base_or_root path (S (length path))
  | [] => resolve_loop st base_or_root [] 1
  end.

Definition vfs_resolve (st : vfs) (path : list Z) : option (option nat * vfs) :=
  vfs_resolve_at st (vroot st) path.

Definition DEV : list Z := [100; 101; 118].

(** [vfs_register_chardev] and [vfs_register_blockdev] differ in the type only. *)
Definition register_dev (ty : vnode_type) (st : vfs) (name : list Z) (ops : Z) : option (option nat * vfs) :=
  '(dev, st1) ← vfs_resolve st (SLASH :: DEV);
  '(dev', st2) ← match dev with
                 | Some d => Some (Some d, st1)
                 | None => vfs_create_node st1 (vfs_root st1) DEV VNODE_DIR
                 end;
  '(node, st3) ← vfs_create_node st2 dev' name ty;
  match node with
  | Some n => Some (Some n, upd st3 n (set_ops ops))
  | None => Some (None, st3)
  end.
Definition vfs_register_chardev := register_dev VNODE_CHR.
Definition vfs_register_blockdev := register_dev VNODE_BLK.
End Resolve.

(** ** Enumeration *)

Definition dirent_of (i : nat) (n : vnode) : vfs_dirent :=
  mk_dirent (take 255 (vn_name n)) (vn_size n) (bool_decide (vn_type n = VNODE_DIR)) (Z.of_nat i).

(** The loop of [vfs_builtin_readdir]: entries, [seen] and [exhausted]. *)
Fixpoint readdir_loop (st : vfs) (c : option nat) (offset seen max : Z) (out : list vfs_dirent) (fuel : nat) :
    option (list vfs_dirent * Z * bool) :=
  match c with
  | None => Some (out, seen, true)
  | Some i =>
      match fuel with
      | O => None
      | S f =>
          n ← node_pool st !! i;
          if decide (seen < offset) then readdir_loop st (vn_next n) offset (seen + 1) max out f
          else if decide (Z.of_nat (length out) = max) then Some (out, seen, false)
          else readdir_loop st (vn_next n) offset (seen + 1) max (out ++ [dirent_of i n]) f
      end
  end.

(** Result code, entries, new cookie, [*eof]. *)
Definition vfs_builtin_readdir (st : vfs) (dir : option nat) (offset max : Z) :
    option (Z * list vfs_dirent * Z * bool) :=
  match dir with
  | None => Some (-1, [], offset, false)
  | Some d =>
      n ← node_pool st !! d;
      if decide (vn_type n ≠ VNODE_DIR) then Some (-1, [], offset, false)
      else
        '(out, seen, exhausted) ← readdir_loop st (vn_children n) offset 0 max [] (length (node_pool st));
        Some (Z.of_nat (length out), out, seen, exhausted)
  end.

Definition vfs_readdir `{!DirOps} (st : vfs) (dir : option nat) (offset max : Z) :
    option (Z * list vfs_dirent * Z * bool) :=
  match dir with
  | None => Some (-1, [], offset, false)
  | Some d =>
      n ← node_pool st !! d;
      if decide (vn_type n ≠ VNODE_DIR) then Some (-1, [], offset, false)
      else match vn_vops n with
           | None => Some (-1, [], offset, false)
           | Some builtin_dir_ops => vfs_builtin_readdir st dir offset max
           | Some (fs_dir_ops fs) => readdir_fn fs st d offset max
           end
  end.

(** A kernel without mounted filesystems. *)
#[export] Instance no_dir_ops : DirOps.
Proof.
  refine {| lookup_fn _ st _ _ := Some (None, st); readdir_fn _ _ _ offset _ := Some (-1, [], offset, false) |}.
  intros _ st dir s Hwf _ _. exists None, st. split; [done|]. split; [done|]. split; [done|]. by split.
Defined.

(** ** Names *)

Lemma name_match_from_ok name s i :
  name_ok name → 0 ∉ s → (i ≤ length name)%nat →
  name_match_from name s i = Some (bool_decide (drop i name = s)).
Proof.
  intros [Hl H0]. revert i. induction s as [|x s IH]; intros i Hs Hi; cbn [name_match_from];
    unfold name_at; rewrite decide_True by lia; simpl.
  - f_equal. apply bool_decide_ext. destruct (name !! i) as [c|] eqn:Hc; simpl.
    + rewrite (drop_S _ _ _ Hc). split; [|done]. intros ->. destruct H0. by eapply list_elem_of_lookup_2.
    + apply lookup_ge_None in Hc. by rewrite drop_ge.
  - apply not_elem_of_cons in Hs as [Hx Hs]. destruct (name !! i) as [c|] eqn:Hc; simpl.
    + rewrite (drop_S _ _ _ Hc). case_decide as Hcx.
      * rewrite bool_decide_eq_false_2; [done|]. by intros [= -> _].
      * apply lookup_lt_Some in Hc. rewrite IH by (done || lia). f_equal. apply bool_decide_ext.
        split; [by intros ->; f_equal|by intros [= _ ?]].
    + apply lookup_ge_None in Hc. rewrite decide_True by done. rewrite drop_ge by done. done.
Qed.

Lemma name_match_ok name s : name_ok name → 0 ∉ s → name_match name s = Some (bool_decide (name = s)).
Proof. intros. unfold name_match. rewrite name_match_from_ok by (done || lia). done. Qed.

(** ** Child lists *)

Lemma chain_fun st c l l' : chain st c l → chain st c l' → l = l'.
Proof.
  revert c l'. induction l as [|i l IH]; intros c [|j l'] H1 H2; simpl in *; try done.
  - destruct H2 as [H2 _]. congruence.
  - destruct H1 as [H1 _]. congruence.
  - destruct H1 as (-> & n & Hn & H1), H2 as ([= <-] & m & Hm & H2). simplify_eq. f_equal. by eapply IH.
Qed.

Lemma chain_elem st c l i : chain st c l → i ∈ l → (i < length (node_pool st))%nat.
Proof.
  revert c. induction l as [|j l IH]; intros c Hc; [by intros ?%not_elem_of_nil|].
  destruct Hc as (_ & n & Hn & Hc). intros [->|Hi]%elem_of_cons; [by eapply lookup_lt_Some|by eapply IH].
Qed.

Lemma chain_length st c l : chain st c l → NoDup l → (length l ≤ length (node_pool st))%nat.
Proof.
  intros Hc Hnd. rewrite <- (length_seq (length (node_pool st)) 0). apply submseteq_length.
  apply NoDup_submseteq; [done|]. intros i Hi%(chain_elem st c l); [|done]. apply elem_of_seq. lia.
Qed.

(** A chain only depends on the links of its nodes. *)
Lemma chain_frame st st' c l :
  (∀ i n, i ∈ l → node_pool st !! i = Some n → ∃ n', node_pool st' !! i = Some n' ∧ vn_next n' = vn_next n) →
  chain st c l → chain st' c l.
Proof.
  revert c. induction l as [|i l IH]; intros c Hf Hc; [done|]. destruct Hc as (-> & n & Hn & Hc).
  split; [done|]. destruct (Hf i n) as (n' & Hn' & E); [by left|done|]. exists n'. split; [done|].
  rewrite E. apply IH; [|done]. intros j m Hj. apply Hf. by right.
Qed.

(** The first node of a list with a given name. *)
Definition named (st : vfs) (s : list Z) (i : nat) : Prop := vn_name <$> node_pool st !! i = Some s.
#[global] Instance named_dec st s i : Decision (named st s i).
Proof. unfold named. apply _. Defined.

Definition first_named (st : vfs) (l : list nat) (s : list Z) : option nat :=
  snd <$> list_find (named st s) l.

Lemma first_named_cons st i l s :
  first_named st (i :: l) s = if decide (named st s i) then Some i else first_named st l s.
Proof.
  unfold first_named. cbn [list_find]. case_decide; [done|]. by destruct (list_find _ l) as [[]|].
Qed.

Lemma find_in_chain_spec st c l s fuel :
  vfs_wf st → 0 ∉ s → chain st c l → (length l ≤ fuel)%nat →
  find_in_chain st c s fuel = Some (first_named st l s).
Proof.
  intros Hwf Hs. revert c fuel. induction l as [|i l IH]; intros c fuel Hc Hf.
  { simpl in Hc. subst c. by destruct fuel. }
  destruct fuel as [|f]; [simpl in Hf; lia|]. destruct Hc as (-> & n & Hn & Hc).
  cbn [find_in_chain]. rewrite Hn. simpl. rewrite name_match_ok by (done || by eapply vf_names). simpl.
  rewrite first_named_cons.
  destruct (bool_decide_reflect (vn_name n = s)) as [E|Hne].
  - rewrite decide_True; [done|]. unfold named. rewrite Hn. simpl. by f_equal.
  - rewrite decide_False; [apply IH; [done|simpl in Hf; lia]|]. unfold named. rewrite Hn. simpl. congruence.
Qed.

(** ** Creating nodes *)

Definition new_node (p : option nat) (nx : option nat) (name : list Z) (ty : vnode_type) : vnode :=
  mk_vnode name ty 0 (if decide (ty = VNODE_DIR) then Some builtin_dir_ops else None) 0 0 p None nx.

Lemma create_node_pool st p pn name ty :
  (length (node_pool st) < MAX_VNODES)%nat → name_ok name → node_pool st !! p = Some pn →
  vfs_create_node st (Some p) name ty = Some (Some (length (node_pool st)),
    mk_vfs (alter (set_children (Some (length (node_pool st)))) p (node_pool st)
      ++ [new_node (Some p) (vn_children pn) name ty]) (vroot st)).
Proof.
  intros Hlen [Hn _] Hp. unfold vfs_create_node, alloc_vnode. rewrite decide_False by lia.
  rewrite take_ge by (unfold NAME_ARRAY in Hn; lia). pose proof (lookup_lt_Some _ _ _ Hp) as Hlt.
  assert (∀ (x : vnode) f, alter f (length (node_pool st)) (node_pool st ++ [x]) = node_pool st ++ [f x]) as Ha.
  { intros x f. replace (length (node_pool st)) with (length (node_pool st) + 0)%nat by lia.
    by rewrite alter_app_r. }
  set (n0 := mk_vnode name ty 0 None 0 0 None None None).
  assert ((if decide (ty = VNODE_DIR)
    then upd (upd (mk_vfs (node_pool st ++ [n0]) (vroot st)) (length (node_pool st)) (set_links (Some p) None))
           (length (node_pool st)) (set_vops (Some builtin_dir_ops))
    else upd (mk_vfs (node_pool st ++ [n0]) (vroot st)) (length (node_pool st)) (set_links (Some p) None))
    = mk_vfs (node_pool st ++ [new_node (Some p) None name ty]) (vroot st)) as ->.
  { unfold upd, new_node. case_decide; simpl; by rewrite !Ha. }
  cbn [node_pool]. rewrite lookup_app_l, Hp by done. simpl. unfold upd. simpl. rewrite Ha.
  do 3 f_equal. rewrite alter_app_l by done. done.
Qed.

(** Updates that leave names and links alone. *)
Definition keeps_links (f : vnode → vnode) : Prop :=
  ∀ n, vn_name (f n) = vn_name n ∧ vn_parent (f n) = vn_parent n ∧ vn_children (f n) = vn_children n ∧
    vn_next (f n) = vn_next n.

Lemma upd_lookup v i f j m' :
  keeps_links f → node_pool (upd v i f) !! j = Some m' →
  ∃ m, node_pool v !! j = Some m ∧ vn_name m' = vn_name m ∧ vn_parent m' = vn_parent m ∧
    vn_children m' = vn_children m ∧ vn_next m' = vn_next m.
Proof.
  intros Hf. simpl. rewrite list_lookup_alter. destruct (decide (i = j)) as [->|]; [|naive_solver].
  destruct (node_pool v !! j) as [m|]; [|done]. simpl. intros [= <-]. exists m. split; [done|]. apply Hf.
Qed.

Lemma upd_wf v i f : keeps_links f → vfs_wf v → vfs_wf (upd v i f).
Proof.
  intros Hf [Hmax Hroot Hn Hp Hk]. constructor; simpl; rewrite ?length_alter; try done.
  - intros j m' (m & Hm & -> & _)%(upd_lookup v i f j m' Hf). by eapply Hn.
  - intros j m' p (m & Hm & _ & -> & _)%(upd_lookup v i f j m' Hf). by eapply Hp.
  - intros j m' (m & Hm & _ & _ & -> & _)%(upd_lookup v i f j m' Hf). destruct (Hk j m Hm) as (l & Hl & Hnd & Hq).
    exists l. split; [|split; [done|]].
    + eapply chain_frame; [|exact Hl]. intros c n _ Hc. simpl. rewrite list_lookup_alter.
      destruct (decide (i = c)) as [->|]; rewrite Hc; simpl; [|eauto]. eexists. split; [done|]. apply Hf.
    + intros c n Hc (n0 & Hn0 & _ & -> & _)%(upd_lookup v i f c n Hf). by eapply Hq.
Qed.

(** The node that is found for [s] in the children of [d]. *)
Definition cached (st : vfs) (d : nat) (s : list Z) (r : option nat) : Prop :=
  ∃ n l, node_pool st !! d = Some n ∧ chain st (vn_children n) l ∧ first_named st l s = r.

Section Create.
Context (st : vfs) (p : nat) (pn : vnode) (name : list Z) (ty : vnode_type) (lp : list nat).
Context (Hwf : vfs_wf st) (Hlen : (length (node_pool st) < MAX_VNODES)%nat) (Hname : name_ok name).
Context (Hp : node_pool st !! p = Some pn) (Hlp : chain st (vn_children pn) lp).

Let n := length (node_pool st).
Let st' := mk_vfs (alter (set_children (Some n)) p (node_pool st) ++
  [new_node (Some p) (vn_children pn) name ty]) (vroot st).

Lemma create_old i m : node_pool st !! i = Some m →
  ∃ m', node_pool st' !! i = Some m' ∧ vn_next m' = vn_next m ∧ vn_name m' = vn_name m ∧
    vn_parent m' = vn_parent m ∧ vn_vops m' = vn_vops m ∧
    vn_children m' = if decide (i = p) then Some n else vn_children m.
Proof using Hlen Hp.
  intros Hi. pose proof (lookup_lt_Some _ _ _ Hi) as Hlt. simpl.
  rewrite lookup_app_l by (by rewrite length_alter). rewrite list_lookup_alter.
  destruct (decide (i = p)) as [->|Hne]; simplify_option_eq; eauto 10.
Qed.

Lemma create_new : node_pool st' !! n = Some (new_node (Some p) (vn_children pn) name ty).
Proof using Type. simpl. rewrite lookup_app_r; rewrite length_alter; [|done]. by rewrite Nat.sub_diag. Qed.

Lemma create_inv i m' : node_pool st' !! i = Some m' →
  (i = n ∧ m' = new_node (Some p) (vn_children pn) name ty) ∨
  ∃ m, node_pool st !! i = Some m ∧ vn_name m' = vn_name m ∧ vn_parent m' = vn_parent m ∧
    vn_next m' = vn_next m ∧ vn_children m' = if decide (i = p) then Some n else vn_children m.
Proof using Hlen Hp.
  intros Hi. destruct (decide (i < n)%nat) as [Hlt|Hge].
  - right. destruct (lookup_lt_is_Some_2 (node_pool st) i Hlt) as [m Hm]. exists m.
    destruct (create_old i m Hm) as (m2 & Hm2 & ? & ? & ? & _ & ?). simplify_eq. done.
  - left. pose proof (lookup_lt_Some _ _ _ Hi) as Hlt. simpl in Hlt. rewrite length_app, length_alter in Hlt.
    simpl in Hlt. assert (i = n) as -> by (unfold n in *; lia). rewrite create_new in Hi. by simplify_eq.
Qed.

Lemma create_chain c l : chain st c l → chain st' c l.
Proof using Hlen Hp.
  apply chain_frame. intros i m _ Hm. destruct (create_old i m Hm) as (m' & ? & ? & _). eauto.
Qed.

Lemma create_chain_p : chain st' (Some n) (n :: lp).
Proof using Hlen Hp Hlp. split; [done|]. eexists. split; [apply create_new|]. simpl. by apply create_chain. Qed.

Lemma create_wf : NoDup lp → (∀ c m, c ∈ lp → node_pool st !! c = Some m → vn_parent m = Some p) → vfs_wf st'.
Proof.
  intros Hnd Hpar. pose proof Hwf as [Hmax Hroot Hnames Hparent Hkids].
  assert (length (node_pool st') = S n) as Hl.
  { simpl. rewrite length_app, length_alter. simpl. unfold n. lia. }
  constructor; rewrite ?Hl.
  - unfold n in *. lia.
  - intros r Hr. apply Hroot in Hr. fold n in Hr. lia.
  - intros i m' [[-> ->]|(m & Hm & -> & _)]%create_inv; [done|]. by eapply Hnames.
  - intros i m' q [[-> ->]|(m & Hm & _ & -> & _)]%create_inv.
    + intros [= <-]. apply lookup_lt_Some in Hp. fold n in Hp. lia.
    + intros Hq. specialize (Hparent i m q Hm Hq). fold n in Hparent. lia.
  - intros i m' Hi. pose proof Hi as [[-> ->]|(m & Hm & _ & _ & _ & Hch)]%create_inv.
    { exists []. split; [done|]. split; [constructor|]. by intros c m0 ?%not_elem_of_nil. }
    rewrite Hch. case_decide as Hip.
    + subst i. simplify_eq. exists (n :: lp). split; [apply create_chain_p|]. split.
      * constructor; [|done]. intros Hn%(chain_elem st _ _ _ Hlp). unfold n in Hn. lia.
      * intros c m0 [->|Hc]%elem_of_cons Hm0; [rewrite create_new in Hm0; by simplify_eq|].
        apply create_inv in Hm0 as [[-> ->]|(m1 & Hm1 & _ & -> & _)]; [done|]. by eapply Hpar.
    + destruct (Hkids i m Hm) as (l & Hc & Hn & Hq). exists l. split; [by apply create_chain|]. split; [done|].
      intros c m0 Hcl Hm0. apply create_inv in Hm0 as [[-> ->]|(m1 & Hm1 & _ & -> & _)]; [|by eapply Hq].
      apply (chain_elem st _ _ _ Hc) in Hcl. unfold n in Hcl. lia.
Qed.

Lemma create_first_named l s : (∀ i, i ∈ l → (i < n)%nat) → first_named st' l s = first_named st l s.
Proof using Hlen Hp.
  intros Hl. induction l as [|i l IH]; [done|]. rewrite !first_named_cons, IH by (intros j Hj; apply Hl; by right).
  assert (named st' s i ↔ named st s i) as Hiff.
  { unfold named. destruct (lookup_lt_is_Some_2 (node_pool st) i) as [m Hm]; [apply Hl; by left|].
    destruct (create_old i m Hm) as (m' & Hm' & _ & E & _). rewrite Hm, Hm'. simpl. by rewrite E. }
  by rewrite (decide_ext _ _ _ _ Hiff).
Qed.
End Create.

(** ** Paths *)

(** The reference: split at the slashes, drop the empty pieces, take one step
    per component. *)
Fixpoint split_slash (path : list Z) : list (list Z) :=
  match path with
  | [] => [[]]
  | c :: p =>
      if decide (c = SLASH) then [] :: split_slash p
      else match split_slash p with
           | a :: r => (c :: a) :: r
           | [] => [[c]]
           end
  end.

Definition components (path : list Z) : list (list Z) := filter (λ c, c ≠ []) (split_slash path).

Fixpoint walk `{!DirOps} (st : vfs) (cur : option nat) (cs : list (list Z)) : option (option nat * vfs) :=
  match cs with
  | [] => Some (cur, st)
  | c :: cs' =>
      d ← cur;
      '(r, st') ← resolve_step st d c;
      match r with
      | None => Some (None, st')
      | Some _ => walk st' r cs'
      end
  end.

Lemma split_slash_ne path : ∃ a r, split_slash path = a :: r.
Proof.
  destruct path as [|c p]; simpl; [eauto|]. case_decide; [eauto|]. destruct (split_slash p); eauto.
Qed.

Lemma components_skip path : components (skip_slashes path) = components path.
Proof.
  induction path as [|c p IH]; [done|]. simpl. case_decide as Hc; [|done]. subst c. rewrite IH.
  unfold components. cbn [split_slash]. by rewrite decide_True.
Qed.

Lemma skip_slashes_length path : (length (skip_slashes path) ≤ length path)%nat.
Proof. induction path as [|c p IH]; simpl; [lia|]. case_decide; simpl; lia. Qed.

Lemma skip_slashes_head path c p : skip_slashes path = c :: p → c ≠ SLASH.
Proof.
  induction path as [|d q IH]; simpl; [done|]. case_decide as Hd; [done|]. by intros [= <- _].
Qed.

Lemma split_span path :
  ∃ r, split_slash path = (span_component path).1 :: r ∧
    filter (λ c, c ≠ []) r = components (span_component path).2.
Proof.
  induction path as [|c p IH]; cbn [split_slash span_component]; [by exists []|].
  case_decide as Hc.
  - exists (split_slash p). split; [done|]. subst c. unfold components. cbn [snd split_slash].
    by rewrite decide_True.
  - destruct IH as (r & E & Hr). rewrite E. destruct (span_component p) as [a b]. by exists r.
Qed.

Lemma span_length path : (length (span_component path).2 ≤ length path)%nat.
Proof.
  induction path as [|c p IH]; cbn [span_component]; [done|]. case_decide; [done|].
  destruct (span_component p) as [a b]. simpl in *. lia.
Qed.

Lemma span_head c p : c ≠ SLASH →
  (span_component (c :: p)).1 ≠ [] ∧ (length (span_component (c :: p)).2 ≤ length p)%nat.
Proof.
  intros Hc. cbn [span_component]. rewrite decide_False by done. pose proof (span_length p) as Hl.
  destruct (span_component p) as [a b]. done.
Qed.

Lemma resolve_loop_walk `{!DirOps} st cur path fuel :
  (length path < fuel)%nat → resolve_loop st cur path fuel = walk st cur (components path).
Proof.
  revert st cur path. induction fuel as [|f IH]; intros st cur path Hf; [lia|]. cbn [resolve_loop].
  rewrite <- components_skip. pose proof (skip_slashes_length path) as Hl.
  destruct (skip_slashes path) as [|c p] eqn:Es; [done|].
  destruct (span_head c p (skip_slashes_head _ _ _ Es)) as [Hne Hlen].
  destruct (split_span (c :: p)) as (r & E & Hr). unfold components. rewrite E, filter_cons, decide_True by done.
  rewrite Hr. destruct (span_component (c :: p)) as [comp rest]. simpl fst in *. simpl snd in *. cbn [walk].
  destruct cur as [cur|]; [|done]. simpl.
  destruct (resolve_step st cur comp) as [[[d|] st']|]; simpl; [|done|done].
  apply IH. simpl in Hl. lia.
Qed.

(** C23. [vfs_resolve_at] takes one step per path component: empty components
    (doubled, leading and trailing slashes) are dropped, an absolute path
    starts at the root and a relative one at [base]; every step is [.], [..]
    or a lookup in a directory. *)
Theorem vfs_resolve_at_components `{!DirOps} st base path :
  vfs_resolve_at st base path =
    walk st (if decide (head path = Some SLASH) then vroot st
             else match base with Some b => Some b | None => vroot st end) (components path).
Proof.
  unfold vfs_resolve_at. destruct path as [|c p]; [by rewrite resolve_loop_walk by (simpl; lia)|].
  case_decide as Hc.
  - subst c. rewrite decide_True by done. rewrite resolve_loop_walk by lia.
    unfold components at 2. cbn [split_slash]. by rewrite decide_True.
  - rewrite decide_False by (simpl; congruence). by rewrite resolve_loop_walk by (simpl; lia).
Qed.

Lemma not_zero_components path comp : 0 ∉ path → comp ∈ components path → 0 ∉ comp.
Proof.
  intros H0 [_ Hc]%list_elem_of_filter. revert comp Hc. induction path as [|c p IH]; cbn [split_slash].
  { intros comp ->%list_elem_of_singleton. apply not_elem_of_nil. }
  apply not_elem_of_cons in H0 as [Hc0 H0]. specialize (IH H0). intros comp. case_decide.
  - intros [->|Hin]%elem_of_cons; [apply not_elem_of_nil|by apply IH].
  - destruct (split_slash_ne p) as (a & r & E). rewrite E in *. intros [->|Hin]%elem_of_cons.
    + apply not_elem_of_cons. split; [done|]. apply IH. by left.
    + apply IH. by right.
Qed.

Section Safe.
Context `{!DirOps}.

Lemma find_child_safe st dir s :
  vfs_wf st → (dir < length (node_pool st))%nat → 0 ∉ s →
  ∃ r st', find_child st dir s = Some (r, st') ∧ vfs_wf st' ∧
    (length (node_pool st) ≤ length (node_pool st'))%nat ∧ vroot st' = vroot st ∧
    ∀ c, r = Some c → (c < length (node_pool st'))%nat.
Proof.
  intros Hwf Hd Hs. destruct (lookup_lt_is_Some_2 _ _ Hd) as [n Hn]. unfold find_child. rewrite Hn. simpl.
  destruct (vf_kids st Hwf dir n Hn) as (l & Hl & Hnd & _).
  rewrite (find_in_chain_spec st _ l) by (done || by eapply chain_length). simpl.
  destruct (first_named st l s) as [c|] eqn:Hf.
  - exists (Some c), st. split; [done|]. split; [done|]. split; [done|]. split; [done|]. intros ? [= <-].
    unfold first_named in Hf. apply fmap_Some in Hf as ([j c'] & Hf & ->). apply list_find_Some in Hf as (Hf & _).
    eapply chain_elem; [done|]. by eapply list_elem_of_lookup_2.
  - destruct (vn_vops n) as [[|fs]|]; [|by apply lookup_ok|]; exists None, st; naive_solver.
Qed.

Lemma resolve_step_safe st cur comp :
  vfs_wf st → (cur < length (node_pool st))%nat → 0 ∉ comp →
  ∃ r st', resolve_step st cur comp = Some (r, st') ∧ vfs_wf st' ∧
    (length (node_pool st) ≤ length (node_pool st'))%nat ∧ vroot st' = vroot st ∧
    ∀ c, r = Some c → (c < length (node_pool st'))%nat.
Proof.
  intros Hwf Hc Hs. destruct (lookup_lt_is_Some_2 _ _ Hc) as [n Hn]. unfold resolve_step. rewrite Hn. simpl.
  case_decide; [exists None, st; naive_solver|]. case_decide; [exists (Some cur), st; naive_solver|].
  case_decide; [|by apply find_child_safe].
  eexists _, st. split; [done|]. split; [done|]. split; [done|]. split; [done|]. intros c [= <-].
  destruct (vn_parent n) as [p|] eqn:Hp; simpl; [|done]. by eapply vf_parent.
Qed.

Lemma resolve_at_total st base path :
  vfs_wf st → vroot st ≠ None → (∀ b, base = Some b → (b < length (node_pool st))%nat) → 0 ∉ path →
  ∃ r st', vfs_resolve_at st base path = Some (r, st') ∧ vfs_wf st' ∧ vroot st' = vroot st ∧
    ∀ c, r = Some c → (c < length (node_pool st'))%nat.
Proof.
  intros Hwf Hr Hb H0.
  assert (∀ st cur cs, vfs_wf st → (cur < length (node_pool st))%nat → (∀ c, c ∈ cs → 0 ∉ c) →
    ∃ r st', walk st (Some cur) cs = Some (r, st') ∧ vfs_wf st' ∧ vroot st' = vroot st ∧
      ∀ c, r = Some c → (c < length (node_pool st'))%nat) as Hw.
  { clear. intros st cur cs. revert st cur. induction cs as [|c cs IH]; intros st cur Hwf Hcur Hcs; simpl.
    { exists (Some cur), st. naive_solver. }
    destruct (resolve_step_safe st cur c Hwf Hcur) as (r & st1 & -> & Hwf1 & Hl1 & Hr1 & Hc1); [apply Hcs; by left|].
    simpl. destruct r as [d|]; [|exists None, st1; naive_solver].
    destruct (IH st1 d Hwf1 (Hc1 d eq_refl)) as (r & st2 & E & Hwf2 & Hr2 & Hc2).
    { intros x Hx. apply Hcs. by right. }
    exists r, st2. split; [done|]. split; [done|]. split; [congruence|done]. }
  assert (∃ start, vfs_resolve_at st base path = walk st (Some start) (components path) ∧
    (start < length (node_pool st))%nat) as (start & -> & Hst).
  { destruct (vroot st) as [r|] eqn:Er; [|done]. pose proof (vf_root st Hwf r Er) as Hrl.
    unfold vfs_resolve_at. rewrite Er. destruct path as [|c p]; [|case_decide as Hc].
    - destruct base as [b|]; [exists b|exists r]; split; auto.
    - subst c. exists r. split; [|done]. rewrite resolve_loop_walk by lia. unfold components at 2.
      cbn [split_slash]. by rewrite decide_True.
    - destruct base as [b|]; [exists b|exists r]; (split; [|by auto]); by rewrite resolve_loop_walk by (simpl; lia). }
  apply Hw; [done|done|]. intros c. by apply not_zero_components.
Qed.
(** Path resolution is safe: with a well-formed pool, a root and a NUL-free
    path it returns (no fault, no NULL dereference, no unbounded loop) for
    every path and any filesystem lookup that keeps the pool well formed, and
    the node it returns is a node of the pool. *)
Theorem vfs_resolve_at_safe st base path :
  vfs_wf st → vroot st ≠ None → (∀ b, base = Some b → (b < length (node_pool st))%nat) → 0 ∉ path →
  ∃ r st', vfs_resolve_at st base path = Some (r, st') ∧ vfs_wf st' ∧ vroot st' = vroot st ∧
    ∀ c, r = Some c → (c < length (node_pool st'))%nat.
Proof. apply resolve_at_total. Qed.
End Safe.

(** Create and look up: a node created in a directory with room in the
    pool is found there under its name, with the given type and parent; every
    other cached name in every directory still resolves to the node it
    resolved to; and the pool stays well formed. *)
Theorem vfs_create_lookup `{!DirOps} st p name ty :
  vfs_wf st → (length (node_pool st) < MAX_VNODES)%nat → name_ok name → (p < length (node_pool st))%nat →
  ∃ n st', vfs_create_node st (Some p) name ty = Some (Some n, st') ∧ vfs_wf st' ∧
    find_child st' p name = Some (Some n, st') ∧
    (∃ m, node_pool st' !! n = Some m ∧ vn_name m = name ∧ vn_type m = ty ∧ vn_parent m = Some p) ∧
    ∀ d s r, cached st d s r → (d, s) ≠ (p, name) → cached st' d s r.
Proof.
  intros Hwf Hlen Hname Hp. destruct (lookup_lt_is_Some_2 _ _ Hp) as [pn Hpn].
  destruct (vf_kids st Hwf p pn Hpn) as (lp & Hlp & Hnd & Hpar).
  rewrite (create_node_pool st p pn name ty) by done. eexists _, _. split; [done|].
  pose proof (create_wf st p pn name ty lp Hwf Hlen Hname Hpn Hlp Hnd Hpar) as Hwf'.
  pose proof (create_new st p pn name ty) as Hnew.
  pose proof (create_chain_p st p pn name ty lp Hlen Hpn Hlp) as Hch.
  destruct (create_old st p pn name ty Hlen Hpn p pn Hpn) as (pn' & Hpn' & _ & _ & _ & _ & Hchild).
  rewrite decide_True in Hchild by done.
  set (st' := mk_vfs _ (vroot st)) in *. set (n := length (node_pool st)) in *.
  split; [done|]. split; [|split].
  - unfold find_child. rewrite Hpn'. simpl. rewrite Hchild.
    rewrite (find_in_chain_spec st' _ (n :: lp)); [|done|apply Hname|done|].
    + rewrite first_named_cons, decide_True; [done|]. unfold named. by rewrite Hnew.
    + apply (chain_length st' (Some n)); [done|]. constructor; [|done].
      intros Hn%(chain_elem st _ _ _ Hlp). unfold n in Hn. lia.
  - eexists. split; [exact Hnew|]. done.
  - intros d s r (dn & l & Hdn & Hl & Hr) Hne.
    destruct (create_old st p pn name ty Hlen Hpn d dn Hdn) as (dn' & Hdn' & _ & _ & _ & _ & Hc).
    assert (∀ i, i ∈ l → (i < n)%nat) as Hin by (intros i; by eapply chain_elem).
    case_decide as Hdp.
    + subst d. simplify_eq. assert (l = lp) as -> by by eapply chain_fun.
      exists pn', (n :: lp). split; [done|]. rewrite Hchild. split; [done|].
      rewrite first_named_cons, decide_False.
      * by apply (create_first_named st p pn name ty Hlen Hpn).
      * unfold named. rewrite Hnew. simpl. congruence.
    + exists dn', l. split; [done|]. rewrite Hc. split; [by apply (create_chain st p pn name ty Hlen Hpn)|].
      rewrite <- Hr. by apply (create_first_named st p pn name ty Hlen Hpn).
Qed.

(** ** Enumeration *)

Definition dirents (st : vfs) (l : list nat) : list vfs_dirent :=
  omap (λ i, dirent_of i <$> node_pool st !! i) l.

Lemma chain_nodes st c l i : chain st c l → i ∈ l → is_Some (node_pool st !! i).
Proof. intros Hc Hi. by eapply lookup_lt_is_Some_2, chain_elem. Qed.

(** Batches of [max] entries from cookie [offset], as a caller reads a
    directory: until [*eof]. *)
Fixpoint read_batches (st : vfs) (dir : nat) (offset max : Z) (fuel : nat) : option (list vfs_dirent) :=
  match fuel with
  | O => None
  | S f =>
      '(_, out, offset', eof) ← vfs_builtin_readdir st (Some dir) offset max;
      if (eof : bool) then Some out
      else rest ← read_batches st dir offset' max f; Some (out ++ rest)
  end.

Lemma readdir_loop_spec st c l offset seen max out fuel :
  chain st c l → (length l ≤ fuel)%nat → Z.of_nat (length out) ≤ max → (seen < offset → out = []) →
  let l' := drop (Z.to_nat (offset - seen)) l in
  let m := Z.to_nat (max - Z.of_nat (length out)) in
  readdir_loop st c offset seen max out fuel = Some (out ++ dirents st (take m l'),
    seen + Z.of_nat (length l) - Z.of_nat (length (drop m l')), bool_decide (length l' ≤ m)%nat).
Proof.
  revert c seen out fuel. induction l as [|i l IH]; intros c seen out fuel Hc Hf Hm Hs; simpl.
  { simpl in Hc. subst c. rewrite drop_nil, take_nil, drop_nil. simpl. rewrite app_nil_r.
    destruct fuel; simpl; do 3 f_equal; lia. }
  destruct Hc as (-> & n & Hn & Hc). destruct fuel as [|f]; [simpl in Hf; lia|]. cbn [readdir_loop].
  rewrite Hn. simpl. simpl in Hf. case_decide as Hlt.
  - rewrite IH by (done || lia || (intros; by apply Hs)).
    replace (Z.to_nat (offset - seen)) with (S (Z.to_nat (offset - (seen + 1)))) by lia. simpl.
    do 3 f_equal. lia.
  - replace (Z.to_nat (offset - seen)) with 0%nat by lia. simpl. case_decide as Hfull.
    + replace (Z.to_nat (max - Z.of_nat (length out))) with 0%nat by lia. simpl. rewrite app_nil_r.
      do 3 f_equal. lia.
    + assert (Z.of_nat (length (out ++ [dirent_of i n])) = Z.of_nat (length out) + 1) as Hlen.
      { rewrite length_app. simpl. lia. }
      rewrite IH by (done || lia). rewrite Hlen.
      replace (Z.to_nat (offset - (seen + 1))) with 0%nat by lia.
      replace (Z.to_nat (max - Z.of_nat (length out)))
        with (S (Z.to_nat (max - (Z.of_nat (length out) + 1)))) by lia. simpl.
      rewrite Hn, <- app_assoc. simpl.
      set (k := Z.to_nat (max - (Z.of_nat (length out) + 1))).
      rewrite drop_0, (bool_decide_ext (length l ≤ k)%nat (S (length l) ≤ S k)%nat) by lia.
      do 3 f_equal. lia.
Qed.

(** Reading a directory of the in-memory tree in batches of any positive
    size returns every child exactly once, in order, and terminates: no entry
    is skipped or repeated at a batch boundary. *)
Theorem readdir_batches_complete st dir n l max :
  vfs_wf st → node_pool st !! dir = Some n → vn_type n = VNODE_DIR → chain st (vn_children n) l → 0 < max →
  read_batches st dir 0 max (S (length l)) = Some (dirents st l).
Proof.
  intros Hwf Hn Hty Hl Hmax.
  assert ((length l ≤ length (node_pool st))%nat) as Hlen.
  { destruct (vf_kids st Hwf dir n Hn) as (l' & Hl' & Hnd & _).
    rewrite (chain_fun st _ l l' Hl Hl'). by eapply chain_length. }
  assert (∀ k fuel, (length l - k < fuel)%nat → (k ≤ length l)%nat →
    read_batches st dir (Z.of_nat k) max fuel = Some (dirents st (drop k l))) as H; [|apply (H 0%nat); lia].
  intros k fuel. revert k. induction fuel as [|f IH]; intros k Hf Hk; [lia|]. cbn [read_batches].
  unfold vfs_builtin_readdir. rewrite Hn. simpl. rewrite decide_False by auto.
  rewrite (readdir_loop_spec st _ l) by (done || simpl; lia). simpl.
  rewrite !Z.sub_0_r, Nat2Z.id. destruct (bool_decide_reflect (length (drop k l) ≤ Z.to_nat max)%nat) as [Hle|Hgt].
  - by rewrite take_ge.
  - rewrite length_drop in Hgt.
    replace (0 + Z.of_nat (length l) - Z.of_nat (length (drop (Z.to_nat max) (drop k l))))
      with (Z.of_nat (k + Z.to_nat max)) by (rewrite !length_drop; lia).
    rewrite IH by lia. simpl. f_equal. rewrite <- drop_drop. unfold dirents.
    by rewrite <- omap_app, take_drop.
Qed.

(** ** Witnesses: [/], [/dev], [/dev/rng] *)

Definition demo_vfs : vfs := from_option snd vfs_init (register_dev VNODE_CHR vfs_init [114; 110; 103] 1).

Definition demo_vfs_pool : list vnode :=
  [mk_vnode [47] VNODE_DIR 0 (Some builtin_dir_ops) 0 0 None (Some 1%nat) None;
   mk_vnode [100; 101; 118] VNODE_DIR 0 (Some builtin_dir_ops) 0 0 (Some 0%nat) (Some 2%nat) None;
   mk_vnode [114; 110; 103] VNODE_CHR 1 None 0 0 (Some 1%nat) None None].

Lemma demo_vfs_eq : demo_vfs = mk_vfs demo_vfs_pool (Some 0%nat).
Proof. vm_compute. reflexivity. Qed.

Lemma demo_vfs_wf : vfs_wf demo_vfs.
Proof.
  rewrite demo_vfs_eq. unfold demo_vfs_pool. constructor; simpl.
  - unfold MAX_VNODES. lia.
  - intros r [= <-]. lia.
  - intros i n Hi. unfold name_ok, NAME_ARRAY.
    do 3 (destruct i as [|i]; [injection Hi as <-; simpl; split; [lia|set_solver]|]). done.
  - intros i n p Hi Hp. do 3 (destruct i as [|i]; [injection Hi as <-; simpl in Hp; simplify_eq; lia|]). done.
  - intros i n Hi. destruct i as [|[|[|i]]]; [injection Hi as <-..|done]; simpl;
      [exists [1%nat]|exists [2%nat]|exists []]; simpl.
    + split; [eauto|]. split; [apply NoDup_singleton|]. intros c m ->%list_elem_of_singleton [= <-]. done.
    + split; [eauto|]. split; [apply NoDup_singleton|]. intros c m ->%list_elem_of_singleton [= <-]. done.
    + split; [done|]. split; [constructor|]. by intros c m ?%not_elem_of_nil.
Qed.

(** [/dev//./rng] *)
Lemma vfs_resolve_at_safe_witness :
  vfs_wf demo_vfs ∧
  vfs_resolve demo_vfs [47; 100; 101; 118; 47; 47; 46; 47; 114; 110; 103] = Some (Some 2%nat, demo_vfs) ∧
  ∃ r st', vfs_resolve_at demo_vfs (Some 1%nat) [46; 46] = Some (r, st') ∧ vfs_wf st'.
Proof.
  split; [apply demo_vfs_wf|]. split; [vm_compute; reflexivity|].
  destruct (vfs_resolve_at_safe demo_vfs (Some 1%nat) [46; 46] demo_vfs_wf) as (r & st' & E & Hwf & _).
  - rewrite demo_vfs_eq. done.
  - intros b [= <-]. rewrite demo_vfs_eq. simpl. lia.
  - set_solver.
  - by exists r, st'.
Defined.

Lemma vfs_create_lookup_witness :
  vfs_wf demo_vfs ∧
  ∃ n st', vfs_create_node demo_vfs (Some 0%nat) [109; 110; 116] VNODE_DIR = Some (Some n, st') ∧
    find_child st' 0 [109; 110; 116] = Some (Some n, st').
Proof.
  split; [apply demo_vfs_wf|].
  destruct (vfs_create_lookup demo_vfs 0 [109; 110; 116] VNODE_DIR demo_vfs_wf) as (n & st' & E & _ & Hf & _).
  - rewrite demo_vfs_eq. unfold MAX_VNODES. simpl. lia.
  - unfold name_ok, NAME_ARRAY. simpl. split; [lia|set_solver].
  - rewrite demo_vfs_eq. simpl. lia.
  - by exists n, st'.
Defined.

Lemma readdir_batches_complete_witness :
  vfs_wf demo_vfs ∧ read_batches demo_vfs 0 0 1 2 = Some [mk_dirent [100; 101; 118] 0 true 1].
Proof.
  split; [apply demo_vfs_wf|].
  apply (readdir_batches_complete demo_vfs 0 (mk_vnode [47] VNODE_DIR 0 (Some builtin_dir_ops) 0 0 None (Some 1%nat) None)
    [1%nat] 1 demo_vfs_wf).
  - by rewrite demo_vfs_eq.
  - done.
  - rewrite demo_vfs_eq. simpl. eauto.
  - lia.
Defined.
