(* ===== verification/Fd.v ===== *)
(** Open files and descriptor tables: the second half of
    [src/src/fs/vfs/vfs.c] with [vfs.h].

    A [file_t *] and an [fd_table_t *] are kernel-heap pointers: [files] and
    [tables] hold what they point to, so sharing a description between two
    descriptors (also of different tables, after fork) is aliasing of the same
    key, and a use after free is [None].  Signed overflow, which C leaves
    undefined, is [None] too.

    The vnode layer and the filesystems below are the class [FileBackend]:
    they have a state [V], may allocate and free kernel memory of their own
    ([fb_owned]), and must leave everybody else's alone.  The theorems hold for
    every such backend over every [KernelMem]. *)
From S2P Require Import Prelude Pmm PageAlloc Heap KernelMem Vnode.

Definition MAX_FDS : nat := 64.
Definition SEEK_SET : Z := 0.
Definition SEEK_CUR : Z := 1.
Definition SEEK_END : Z := 2.
Definition O_RDONLY : Z := 0.
Definition O_WRONLY : Z := 1.
Definition O_RDWR : Z := 2.
Definition O_CREAT : Z := 0x40.
Definition O_EXCL : Z := 0x80.
Definition O_TRUNC : Z := 0x200.
Definition O_APPEND : Z := 0x400.
Definition O_ACCMODE : Z := 3.
Definition INT_MAX : Z := 2 ^ 31 - 1.
Definition INT64_MAX : Z := 2 ^ 63 - 1.

Record file := mk_file { f_vnode : nat; f_offset : Z; f_flags : Z; f_refcount : Z }.

Definition SIZEOF_FILE : Z := 24.
Definition SIZEOF_FD_TABLE : Z := 512.

(** What the descriptor layer uses of the vnode layer. *)
Class FileBackend (M V : Type) `{!KernelMem M} := {
  fb_resolve : V → M → list Z → option (option nat * (V * M));
  fb_create_file : V → M → list Z → option (Z * (V * M));
  (** [None] when [ops->truncate] is NULL. *)
  fb_truncate : V → nat → option (M → option (Z * (V * M)));
  fb_set_size : V → nat → Z → V;
  fb_size : V → nat → Z;
  fb_is_chr : V → nat → bool;
  fb_is_reg : V → nat → bool;
  (** [None] when the operation is NULL; the new offset, the result and the data. *)
  fb_read : V → nat → option (file → Z → M → option (Z * Z * (V * M)));
  fb_write : V → nat → option (file → list Z → M → option (Z * Z * (V * M)));
  fb_owned : V → gset Z;
  fb_inv : V → M → Prop;
  fb_inv_owned v m : fb_inv v m → fb_owned v ⊆ km_live m;
  fb_inv_mem v m m' : fb_inv v m → fb_owned v ⊆ km_live m' → fb_inv v m';
  fb_resolve_ok v m path :
    fb_inv v m → km_inv m → ∃ r v' m', fb_resolve v m path = Some (r, (v', m')) ∧ fb_inv v' m' ∧ km_inv m' ∧
      km_frames m' = km_frames m ∧ km_live m' ∖ fb_owned v' = km_live m ∖ fb_owned v;
  fb_create_ok v m path :
    fb_inv v m → km_inv m → ∃ r v' m', fb_create_file v m path = Some (r, (v', m')) ∧ fb_inv v' m' ∧ km_inv m' ∧
      km_frames m' = km_frames m ∧ km_live m' ∖ fb_owned v' = km_live m ∖ fb_owned v;
  fb_truncate_ok v n f m :
    fb_truncate v n = Some f → fb_inv v m → km_inv m →
    ∃ r v' m', f m = Some (r, (v', m')) ∧ fb_inv v' m' ∧ km_inv m' ∧
      km_frames m' = km_frames m ∧ km_live m' ∖ fb_owned v' = km_live m ∖ fb_owned v;
  fb_read_ok v n f g c m :
    fb_read v n = Some f → fb_inv v m → km_inv m →
    ∃ r off v' m', f g c m = Some (r, off, (v', m')) ∧ fb_inv v' m' ∧ km_inv m' ∧
      km_frames m' = km_frames m ∧ km_live m' ∖ fb_owned v' = km_live m ∖ fb_owned v;
  fb_write_ok v n f g b m :
    fb_write v n = Some f → fb_inv v m → km_inv m →
    ∃ r off v' m', f g b m = Some (r, off, (v', m')) ∧ fb_inv v' m' ∧ km_inv m' ∧
      km_frames m' = km_frames m ∧ km_live m' ∖ fb_owned v' = km_live m ∖ fb_owned v;
  fb_set_size_ok v n x m : fb_inv v m → fb_inv (fb_set_size v n x) m;
  fb_set_size_owned v n x : fb_owned (fb_set_size v n x) = fb_owned v;
}.

(** A zeroed table. *)
Definition empty_table : list Z := replicate MAX_FDS 0.
#[global] Arguments empty_table : simpl never.

Lemma elem_of_empty_table e : e ∈ empty_table → e = 0.
Proof. by intros [-> _]%elem_of_replicate. Qed.

Record fdst (M V : Type) := mk_fdst {
  fmem : M;
  fvfs : V;
  files : gmap Z file;
  tables : gmap Z (list Z);
}.
Arguments mk_fdst {M V}.
Arguments fmem {M V}.
Arguments fvfs {M V}.
Arguments files {M V}.
Arguments tables {M V}.

Section Ops.
Context {M V : Type} `{!KernelMem M} `{!FileBackend M V}.
Implicit Types st : fdst M V.

Definition set_file st (p : Z) (f : file) : fdst M V :=
  mk_fdst (fmem st) (fvfs st) (<[p := f]> (files st)) (tables st).
Definition set_table st (t : Z) (l : list Z) : fdst M V :=
  mk_fdst (fmem st) (fvfs st) (files st) (<[t := l]> (tables st)).
Definition set_backend st (v : V) (m : M) : fdst M V := mk_fdst m v (files st) (tables st).

Definition fd_table_create st : option (Z * fdst M V) :=
  '(t, m) ← km_malloc (fmem st) SIZEOF_FD_TABLE;
  if decide (t = 0) then Some (0, mk_fdst m (fvfs st) (files st) (tables st))
  else Some (t, mk_fdst m (fvfs st) (files st) (<[t := empty_table]> (tables st))).

(** [--f->refcount > 0] *)
Definition fd_release st (p : Z) : option (fdst M V) :=
  if decide (p = 0) then Some st
  else
    f ← files st !! p;
    let f' := mk_file (f_vnode f) (f_offset f) (f_flags f) (f_refcount f - 1) in
    if decide (0 < f_refcount f') then Some (set_file st p f')
    else
      m ← km_free (fmem st) p;
      Some (mk_fdst m (fvfs st) (delete p (files st)) (tables st)).

(** [t->fds[fd]] and [t->fds[fd] = x]. *)
Definition get_slot st (t : Z) (i : nat) : option Z := l ← tables st !! t; l !! i.
Definition put_slot st (t : Z) (i : nat) (x : Z) : option (fdst M V) :=
  l ← tables st !! t;
  if decide (i < length l)%nat then Some (set_table st t (<[i := x]> l)) else None.

Fixpoint destroy_loop st (t : Z) (i n : nat) : option (fdst M V) :=
  match n with
  | O => Some st
  | S n' =>
      e ← get_slot st t i;
      if decide (e = 0) then destroy_loop st t (S i) n'
      else
        st1 ← fd_release st e;
        st2 ← put_slot st1 t i 0;
        destroy_loop st2 t (S i) n'
  end.

Definition fd_table_destroy st (t : Z) : option (fdst M V) :=
  if decide (t = 0) then Some st
  else
    st1 ← destroy_loop st t 0 MAX_FDS;
    m ← km_free (fmem st1) t;
    Some (mk_fdst m (fvfs st1) (files st1) (delete t (tables st1))).

Fixpoint alloc_fd_from (l : list Z) (i : nat) : option nat :=
  match l with
  | [] => None
  | e :: l' => if decide (e = 0) then Some i else alloc_fd_from l' (S i)
  end.

(** -1 is [None]. *)
Definition alloc_fd st (t : Z) : option (option nat) := l ← tables st !! t; Some (alloc_fd_from l 0).

Fixpoint fd_clone_loop st (src dst : Z) (i n : nat) : option (fdst M V) :=
  match n with
  | O => Some st
  | S n' =>
      e ← get_slot st src i;
      if decide (e = 0) then fd_clone_loop st src dst (S i) n'
      else
        st1 ← put_slot st dst i e;
        f ← files st1 !! e;
        if decide (INT_MAX ≤ f_refcount f) then None
        else
          fd_clone_loop (set_file st1 e (mk_file (f_vnode f) (f_offset f) (f_flags f) (f_refcount f + 1)))
            src dst (S i) n'
  end.

Definition fd_table_clone st (src : Z) : option (Z * fdst M V) :=
  if decide (src = 0) then Some (0, st)
  else
    '(dst, st1) ← fd_table_create st;
    if decide (dst = 0) then Some (0, st1)
    else st2 ← fd_clone_loop st1 src dst 0 MAX_FDS; Some (dst, st2).

(** Everything of [fd_open_ex] up to the vnode: resolution, creation and the
    O_EXCL test.  [None] for the node is [return -1]. *)
Definition open_node st (path : list Z) (flags : Z) : option (option nat * fdst M V) :=
  '(node, (v, m)) ← fb_resolve (fvfs st) (fmem st) path;
  let st1 := set_backend st v m in
  match node with
  | None =>
      if decide (Z.land flags O_CREAT = 0) then Some (None, st1)
      else
        '(rc, (v2, m2)) ← fb_create_file v m path;
        if decide (rc < 0) then Some (None, set_backend st v2 m2)
        else
          '(node2, (v3, m3)) ← fb_resolve v2 m2 path;
          Some (node2, set_backend st v3 m3)
  | Some n =>
      if decide (Z.land flags O_CREAT ≠ 0 ∧ Z.land flags O_EXCL ≠ 0) then Some (None, st1)
      else Some (Some n, st1)
  end.

(** O_TRUNC: [false] is [return -1]. *)
Definition open_trunc st (n : nat) (flags : Z) : option (bool * fdst M V) :=
  if decide (Z.land flags O_TRUNC = 0) then Some (true, st)
  else match fb_truncate (fvfs st) n with
       | None => Some (true, st)
       | Some trunc =>
           '(rc, (v, m)) ← trunc (fmem st);
           if decide (rc < 0) then Some (false, set_backend st v m)
           else Some (true, set_backend st (fb_set_size v n 0) m)
       end.

Definition fd_open_ex st (t : Z) (path : list Z) (flags mode : Z) : option (Z * fdst M V) :=
  if decide (O_RDWR < Z.land flags O_ACCMODE) then Some (-1, st)
  else if decide (Z.land flags O_EXCL ≠ 0 ∧ Z.land flags O_CREAT = 0) then Some (-1, st)
  else
    '(node, st1) ← open_node st path flags;
    match node with
    | None => Some (-1, st1)
    | Some n =>
        '(ok, st2) ← open_trunc st1 n flags;
        if negb ok then Some (-1, st2)
        else
          fd ← alloc_fd st2 t;
          match fd with
          | None => Some (-1, st2)
          | Some i =>
              '(p, m) ← km_malloc (fmem st2) SIZEOF_FILE;
              let st3 := mk_fdst m (fvfs st2) (files st2) (tables st2) in
              if decide (p = 0) then Some (-1, st3)
              else
                let off := if decide (Z.land flags O_APPEND ≠ 0) then fb_size (fvfs st2) n else 0 in
                st4 ← put_slot (set_file st3 p (mk_file n off (Z.land flags O_ACCMODE) 1)) t i p;
                Some (Z.of_nat i, st4)
          end
    end.

Definition fd_open st (t : Z) (path : list Z) : option (Z * fdst M V) := fd_open_ex st t path O_RDONLY 0.

(** The common guard: the file behind a descriptor, or NULL. *)
Definition fd_file st (t fd : Z) : option (option Z) :=
  if decide (fd < 0 ∨ Z.of_nat MAX_FDS ≤ fd) then Some None
  else e ← get_slot st t (Z.to_nat fd); Some (if decide (e = 0) then None else Some e).

Definition fd_read st (t fd count : Z) : option (Z * fdst M V) :=
  r ← fd_file st t fd;
  match r with
  | None => Some (-1, st)
  | Some p =>
      f ← files st !! p;
      if decide (f_flags f = O_WRONLY) then Some (-1, st)
      else match fb_read (fvfs st) (f_vnode f) with
           | None => Some (-1, st)
           | Some rd =>
               '(rc, off, (v, m)) ← rd f count (fmem st);
               Some (rc, set_file (set_backend st v m) p
                 (mk_file (f_vnode f) off (f_flags f) (f_refcount f)))
           end
  end.

Definition fd_write st (t fd : Z) (buf : list Z) : option (Z * fdst M V) :=
  r ← fd_file st t fd;
  match r with
  | None => Some (-1, st)
  | Some p =>
      f ← files st !! p;
      if decide (f_flags f = O_RDONLY) then Some (-1, st)
      else match fb_write (fvfs st) (f_vnode f) with
           | None => Some (-1, st)
           | Some wr =>
               '(rc, off, (v, m)) ← wr f buf (fmem st);
               Some (rc, set_file (set_backend st v m) p
                 (mk_file (f_vnode f) off (f_flags f) (f_refcount f)))
           end
  end.

Definition fd_vnode st (t fd : Z) : option (option nat) :=
  r ← fd_file st t fd;
  match r with None => Some None | Some p => f ← files st !! p; Some (Some (f_vnode f)) end.

Definition fd_size st (t fd : Z) : option Z :=
  r ← fd_file st t fd;
  match r with None => Some (-1) | Some p => f ← files st !! p; Some (fb_size (fvfs st) (f_vnode f)) end.

Definition fd_close st (t fd : Z) : option (Z * fdst M V) :=
  r ← fd_file st t fd;
  match r with
  | None => Some (-1, st)
  | Some p =>
      st1 ← put_slot st t (Z.to_nat fd) 0;
      st2 ← fd_release st1 p;
      Some (0, st2)
  end.

(** Signed 64-bit addition; overflow is undefined. *)
Definition sadd64 (a b : Z) : option Z :=
  if decide (- 2 ^ 63 ≤ a + b ≤ INT64_MAX) then Some (a + b) else None.

Definition fd_seek st (t fd offset whence : Z) : option (Z * fdst M V) :=
  r ← fd_file st t fd;
  match r with
  | None => Some (-1, st)
  | Some p =>
      f ← files st !! p;
      if fb_is_chr (fvfs st) (f_vnode f) then Some (-1, st)
      else
        let store (new_off : Z) :=
          if decide (new_off < 0) then Some (-1, st)
          else Some (new_off, set_file st p (mk_file (f_vnode f) new_off (f_flags f) (f_refcount f))) in
        if decide (whence = SEEK_SET) then store offset
        else if decide (whence = SEEK_CUR) then o ← sadd64 (f_offset f) offset; store o
        else if decide (whence = SEEK_END) then
          if negb (fb_is_reg (fvfs st) (f_vnode f)) then Some (-1, st)
          else o ← sadd64 (fb_size (fvfs st) (f_vnode f)) offset; store o
        else Some (-1, st)
  end.
End Ops.

(** ** Counting references *)

Definition cnt (p : Z) (l : list Z) : Z := Z.of_nat (length (filter (λ x, x = p) l)).

Definition refs (ts : gmap Z (list Z)) (p : Z) : Z := map_fold (λ _ l acc, cnt p l + acc) 0 ts.

Lemma cnt_app p l1 l2 : cnt p (l1 ++ l2) = cnt p l1 + cnt p l2.
Proof. unfold cnt. rewrite filter_app, length_app. lia. Qed.

Lemma cnt_cons p x l : cnt p (x :: l) = (if decide (x = p) then 1 else 0) + cnt p l.
Proof. unfold cnt. rewrite filter_cons. case_decide; simpl; lia. Qed.

Lemma cnt_nonneg p l : 0 ≤ cnt p l.
Proof. unfold cnt. lia. Qed.

Lemma cnt_pos p l : p ∈ l → 0 < cnt p l.
Proof.
  intros (l1 & l2 & ->)%list_elem_of_split. rewrite cnt_app, cnt_cons, decide_True by done.
  pose proof (cnt_nonneg p l1). pose proof (cnt_nonneg p l2). lia.
Qed.

Lemma cnt_zero p l : p ∉ l → cnt p l = 0.
Proof.
  induction l as [|x l IH]; intros H; [done|]. apply not_elem_of_cons in H as [? ?].
  rewrite cnt_cons, decide_False, IH by congruence. done.
Qed.

Lemma cnt_insert p l i e x :
  l !! i = Some e →
  cnt p (<[i := x]> l) = cnt p l - (if decide (e = p) then 1 else 0) + (if decide (x = p) then 1 else 0).
Proof.
  intros H. destruct (insert_take_drop_eq l i x e H) as [E1 E2]. rewrite E2.
  pose proof (f_equal (cnt p) E1) as E. rewrite cnt_app, cnt_cons in *. lia.
Qed.

Lemma refs_insert_new ts t l p : ts !! t = None → refs (<[t := l]> ts) p = cnt p l + refs ts p.
Proof. intros H. unfold refs. rewrite map_fold_insert_L; [done| |done]. intros. lia. Qed.

Lemma refs_delete ts t l p : ts !! t = Some l → refs ts p = cnt p l + refs (delete t ts) p.
Proof.
  intros H. rewrite <- (refs_insert_new (delete t ts) t l) by apply lookup_delete_eq. by rewrite insert_delete_id.
Qed.

Lemma refs_update ts t l l' p : ts !! t = Some l → refs (<[t := l']> ts) p = refs ts p - cnt p l + cnt p l'.
Proof.
  intros H. rewrite (refs_delete (<[t := l']> ts) t l' p) by apply lookup_insert_eq.
  rewrite delete_insert_eq, (refs_delete ts t l p H). lia.
Qed.

Lemma refs_nonneg ts p : 0 ≤ refs ts p.
Proof.
  induction ts as [|t l ts Ht IH] using map_ind; [done|].
  rewrite refs_insert_new by done. pose proof (cnt_nonneg p l). lia.
Qed.

Lemma refs_pos ts t l p : ts !! t = Some l → p ∈ l → 0 < refs ts p.
Proof.
  intros Ht Hp. rewrite (refs_delete _ _ _ _ Ht). pose proof (cnt_pos p l Hp).
  pose proof (refs_nonneg (delete t ts) p). lia.
Qed.

Lemma refs_none ts p : (∀ t l, ts !! t = Some l → p ∉ l) → refs ts p = 0.
Proof.
  induction ts as [|t l ts Ht IH] using map_ind; intros H; [done|].
  rewrite refs_insert_new, IH, cnt_zero by (done || (intros t' l' H'; apply (H t'); rewrite lookup_insert_ne;
    [done|congruence]) || (apply (H t); apply lookup_insert_eq)). done.
Qed.

(** One slot of one table changes. *)
Lemma refs_slot ts t l i e x p :
  ts !! t = Some l → l !! i = Some e →
  refs (<[t := <[i := x]> l]> ts) p =
    refs ts p - (if decide (e = p) then 1 else 0) + (if decide (x = p) then 1 else 0).
Proof. intros Ht Hi. rewrite (refs_update ts t l), (cnt_insert p l i e x) by done. lia. Qed.

(** ** The invariant *)

Section Inv.
Context {M V : Type} `{!KernelMem M} `{!FileBackend M V}.
Implicit Types st : fdst M V.

Record fd_wf st : Prop := {
  fw_mem : km_inv (fmem st);
  fw_fb : fb_inv (fvfs st) (fmem st);
  fw_tab t l : tables st !! t = Some l →
    t ∈ km_live (fmem st) ∖ fb_owned (fvfs st) ∧ files st !! t = None ∧ length l = MAX_FDS ∧
    ∀ e, e ∈ l → e ≠ 0 → is_Some (files st !! e);
  fw_file p f : files st !! p = Some f →
    p ∈ km_live (fmem st) ∖ fb_owned (fvfs st) ∧ f_refcount f = refs (tables st) p ∧ 0 < f_refcount f;
}.

(** What belongs to the rest of the kernel: its page frames and its live heap
    objects. *)
Definition others st : gset Z * gset Z :=
  (km_frames (fmem st), km_live (fmem st) ∖ fb_owned (fvfs st) ∖ dom (files st) ∖ dom (tables st)).

Lemma wf_file_ne0 st p f : fd_wf st → files st !! p = Some f → p ≠ 0.
Proof.
  intros Hwf Hf ->. destruct (fw_file _ Hwf _ _ Hf) as [[Hl _]%elem_of_difference _].
  by destruct (km_null _ (fw_mem _ Hwf)).
Qed.

Lemma wf_table_ne0 st t l : fd_wf st → tables st !! t = Some l → t ≠ 0.
Proof.
  intros Hwf Hf ->. destruct (fw_tab _ Hwf _ _ Hf) as [[Hl _]%elem_of_difference _].
  by destruct (km_null _ (fw_mem _ Hwf)).
Qed.

Lemma wf_slot st t l i e :
  fd_wf st → tables st !! t = Some l → l !! i = Some e → e ≠ 0 → ∃ f, files st !! e = Some f.
Proof.
  intros Hwf Ht Hi He. destruct (fw_tab _ Hwf _ _ Ht) as (_ & _ & _ & Hs).
  apply Hs; [by eapply list_elem_of_lookup_2|done].
Qed.

Lemma wf_get_slot st t l i :
  fd_wf st → tables st !! t = Some l → (i < MAX_FDS)%nat → ∃ e, l !! i = Some e ∧ get_slot st t i = Some e.
Proof.
  intros Hwf Ht Hi. destruct (fw_tab _ Hwf _ _ Ht) as (_ & _ & Hl & _).
  destruct (lookup_lt_is_Some_2 l i) as [e He]; [lia|]. exists e. split; [done|].
  unfold get_slot. by rewrite Ht.
Qed.

Lemma put_slot_ok st t l i e x :
  tables st !! t = Some l → l !! i = Some e → put_slot st t i x = Some (set_table st t (<[i := x]> l)).
Proof.
  intros Ht Hi. unfold put_slot. rewrite Ht. simpl. rewrite decide_True; [done|]. by eapply lookup_lt_Some.
Qed.

(** Entries of a table with one slot rewritten. *)
Lemma slot_elem (l : list Z) i x e : e ∈ <[i := x]> l → e = x ∨ e ∈ l.
Proof.
  intros [j Hj]%list_elem_of_lookup. destruct (decide (i = j)) as [<-|Hne].
  - left. assert (is_Some (<[i := x]> l !! i)) as Hl%lookup_lt_is_Some by eauto.
    rewrite length_insert in Hl. rewrite list_lookup_insert_eq in Hj by done. by simplify_eq.
  - rewrite list_lookup_insert_ne in Hj by done. right. by eapply list_elem_of_lookup_2.
Qed.

(** The other tables of [<[t := l']> tables]. *)
Lemma tab_update st t l l' u k :
  fd_wf st → tables st !! t = Some l → length l' = length l →
  (<[t := l']> (tables st)) !! u = Some k →
  ∃ k0, tables st !! u = Some k0 ∧ length k = MAX_FDS ∧ (u = t ∧ k = l' ∨ u ≠ t ∧ k = k0).
Proof.
  intros Hwf Ht Hl. destruct (fw_tab _ Hwf _ _ Ht) as (_ & _ & Hlen & _).
  rewrite lookup_insert_Some. intros [[<- <-]|[Hne Hu]].
  - exists l. split; [done|]. split; [congruence|by left].
  - exists k. split; [done|]. destruct (fw_tab _ Hwf _ _ Hu) as (_ & _ & ? & _). auto.
Qed.

(** *** A descriptor is dropped *)

Definition with_refs (f : file) (n : Z) : file := mk_file (f_vnode f) (f_offset f) (f_flags f) n.

Definition dropped st (t : Z) (l : list Z) (i : nat) (e : Z) (f : file) : option (fdst M V) :=
  let ts := <[t := <[i := 0]> l]> (tables st) in
  if decide (0 < f_refcount f - 1)
  then Some (mk_fdst (fmem st) (fvfs st) (<[e := with_refs f (f_refcount f - 1)]> (files st)) ts)
  else m ← km_free (fmem st) e; Some (mk_fdst m (fvfs st) (delete e (files st)) ts).

Lemma close_dropped st t l i e f :
  tables st !! t = Some l → l !! i = Some e → e ≠ 0 → files st !! e = Some f →
  (st1 ← put_slot st t i 0; fd_release st1 e) = dropped st t l i e f.
Proof.
  intros Ht Hi He Hf. rewrite (put_slot_ok st t l i e) by done. simpl. unfold fd_release, dropped.
  rewrite decide_False by done. simpl. rewrite Hf. simpl. by case_decide.
Qed.

Lemma destroy_dropped st t l i e f :
  tables st !! t = Some l → l !! i = Some e → e ≠ 0 → files st !! e = Some f →
  (st1 ← fd_release st e; put_slot st1 t i 0) = dropped st t l i e f.
Proof.
  intros Ht Hi He Hf. unfold fd_release, dropped. rewrite decide_False by done. rewrite Hf. simpl.
  case_decide; simpl.
  - by rewrite (put_slot_ok _ t l i e).
  - destruct (km_free (fmem st) e); simpl; [|done]. by rewrite (put_slot_ok _ t l i e).
Qed.

(** The description at [p] when the tables are [ts]: gone without references. *)
Definition retained st (ts : gmap Z (list Z)) (p : Z) : option file :=
  f ← files st !! p; if decide (refs ts p = 0) then None else Some (with_refs f (refs ts p)).

Lemma retained_same st p ts : fd_wf st → refs ts p = refs (tables st) p → retained st ts p = files st !! p.
Proof.
  intros Hwf Hr. unfold retained. destruct (files st !! p) as [f|] eqn:Hf; [|done]. simpl.
  destruct (fw_file _ Hwf p f Hf) as (_ & Hrc & ?). rewrite Hr, decide_False by lia.
  rewrite <- Hrc. by destruct f.
Qed.

(** What is true after slot [i] of [t] is cleared. *)
Record drop_post st (t : Z) (l : list Z) (i : nat) st' : Prop := {
  dp_wf : fd_wf st';
  dp_tables : tables st' = <[t := <[i := 0]> l]> (tables st);
  dp_vfs : fvfs st' = fvfs st;
  dp_others : others st' = others st;
  dp_files p : files st' !! p = retained st (tables st') p;
}.

Lemma drop_slot st t l i e f :
  fd_wf st → tables st !! t = Some l → l !! i = Some e → e ≠ 0 → files st !! e = Some f →
  ∃ st', dropped st t l i e f = Some st' ∧ drop_post st t l i st'.
Proof.
  intros Hwf Ht Hi He Hf. pose proof Hwf as [Hm Hfb Htab Hfile].
  destruct (Hfile e f Hf) as (Hel & Hrc & Hpos). destruct (Htab t l Ht) as (Htl & Htn & Hlen & Hents).
  assert (∀ p, p ≠ 0 → refs (<[t := <[i := 0]> l]> (tables st)) p
    = refs (tables st) p - (if decide (e = p) then 1 else 0)) as Hrefs.
  { intros p Hp. rewrite (refs_slot _ t l i e) by done. rewrite (decide_False (P := 0 = p)) by done. lia. }
  assert (length (<[i := 0]> l) = length l) as Hlen' by apply length_insert.
  assert (∀ p, p ≠ e → retained st (<[t := <[i := 0]> l]> (tables st)) p = files st !! p) as Hkeep.
  { intros p Hpe. destruct (decide (p = 0)) as [->|Hp0].
    - unfold retained. destruct (files st !! 0) eqn:H0; [|done]. by apply (wf_file_ne0 st 0) in H0.
    - apply retained_same; [done|]. rewrite Hrefs, decide_False by congruence. lia. }
  unfold dropped. case_decide as Hgt.
  - eexists. split; [done|]. constructor; simpl; try done.
    + constructor; simpl; try done.
      * intros u k Hk. destruct (tab_update st t l _ u k Hwf Ht Hlen' Hk) as (k0 & Hk0 & Hkl & Hc).
        destruct (Htab u k0 Hk0) as (? & ? & ? & Hs). split; [done|].
        rewrite lookup_insert_ne by congruence. split; [done|]. split; [done|].
        intros x Hx Hx0. rewrite lookup_insert_is_Some'. right.
        destruct Hc as [[-> ->]|[_ ->]]; [|by apply Hs]. simplify_eq.
        apply slot_elem in Hx as [->|Hx]; [done|by apply Hents].
      * intros p g. rewrite lookup_insert_Some. intros [[<- <-]|[Hne Hg]].
        -- simpl. rewrite Hrefs, decide_True by done. split; [done|]. lia.
        -- destruct (Hfile p g Hg) as (? & Hrg & ?). rewrite Hrefs, decide_False by (done || by eapply wf_file_ne0).
           split; [done|]. split; [lia|done].
    + unfold others. simpl. rewrite !dom_insert_lookup_L by eauto. done.
    + intros p. destruct (decide (p = e)) as [->|Hne].
      * unfold retained. rewrite lookup_insert_eq, Hf. simpl. rewrite Hrefs, (decide_True (P := e = e)), <- Hrc by done.
        by rewrite decide_False by lia.
      * rewrite lookup_insert_ne by done. symmetry. by apply Hkeep.
  - apply elem_of_difference in Hel as [Hel Heo].
    destruct (km_free_ok (fmem st) e Hm Hel) as (m & -> & Hm' & Hfr & Hl'). simpl. eexists. split; [done|].
    assert (refs (<[t := <[i := 0]> l]> (tables st)) e = 0) as Hz by (rewrite Hrefs, decide_True by done; lia).
    constructor; simpl; try done.
    + constructor; simpl; try done.
      * eapply fb_inv_mem; [done|]. pose proof (fb_inv_owned _ _ Hfb). rewrite Hl'. set_solver.
      * intros u k Hk. destruct (tab_update st t l _ u k Hwf Ht Hlen' Hk) as (k0 & Hk0 & Hkl & Hc).
        destruct (Htab u k0 Hk0) as (Hu & Hun & ? & Hs). assert (u ≠ e) by congruence.
        rewrite Hl', lookup_delete_ne by done. split; [set_solver|]. split; [done|]. split; [done|].
        intros x Hx Hx0. assert (x ≠ e) as Hxe.
        { intros ->. pose proof (refs_pos _ _ _ _ Hk Hx). lia. }
        rewrite lookup_delete_ne by done.
        destruct Hc as [[-> ->]|[_ ->]]; [|by apply Hs]. simplify_eq.
        apply slot_elem in Hx as [->|Hx]; [done|by apply Hents].
      * intros p g [Hne Hg]%lookup_delete_Some. destruct (Hfile p g Hg) as (? & Hrg & ?).
        rewrite Hrefs, decide_False by (done || by eapply wf_file_ne0). rewrite Hl'.
        split; [set_solver|]. split; [lia|done].
    + unfold others. simpl. rewrite dom_insert_lookup_L, dom_delete_L, Hl', Hfr by eauto.
      assert (e ∈ dom (files st)) by (apply elem_of_dom; eauto). f_equal. apply set_eq. intros x.
      rewrite !elem_of_difference, elem_of_singleton. destruct (decide (x = e)) as [->|]; tauto.
    + intros p. destruct (decide (p = e)) as [->|Hne].
      * unfold retained. rewrite lookup_delete_eq, Hf, Hz. done.
      * rewrite lookup_delete_ne by done. symmetry. by apply Hkeep.
Qed.

(** *** A descriptor is shared *)

Lemma share_slot st t l i e f :
  fd_wf st → tables st !! t = Some l → l !! i = Some 0 → files st !! e = Some f →
  let st' := mk_fdst (fmem st) (fvfs st) (<[e := with_refs f (f_refcount f + 1)]> (files st))
               (<[t := <[i := e]> l]> (tables st)) in
  fd_wf st' ∧ others st' = others st.
Proof.
  intros Hwf Ht Hi Hf st'. pose proof Hwf as [Hm Hfb Htab Hfile].
  destruct (Hfile e f Hf) as (Hel & Hrc & Hpos). destruct (Htab t l Ht) as (Htl & Htn & Hlen & Hents).
  pose proof (wf_file_ne0 st e f Hwf Hf) as He.
  assert (∀ p, p ≠ 0 → refs (<[t := <[i := e]> l]> (tables st)) p
    = refs (tables st) p + (if decide (e = p) then 1 else 0)) as Hrefs.
  { intros p Hp. rewrite (refs_slot _ t l i 0) by done. rewrite (decide_False (P := 0 = p)) by done. lia. }
  split.
  - constructor; simpl; try done.
    + intros u k Hk. destruct (tab_update st t l _ u k Hwf Ht (length_insert _ _ _) Hk) as (k0 & Hk0 & Hkl & Hc).
      destruct (Htab u k0 Hk0) as (? & ? & ? & Hs). split; [done|].
      rewrite lookup_insert_ne by congruence. split; [done|]. split; [done|].
      intros x Hx Hx0. rewrite lookup_insert_is_Some'.
      destruct Hc as [[-> ->]|[_ ->]]; [|right; by apply Hs]. simplify_eq.
      apply slot_elem in Hx as [->|Hx]; [by left|right; by apply Hents].
    + intros p g. rewrite lookup_insert_Some. intros [[<- <-]|[Hne Hg]].
      * simpl. rewrite Hrefs, decide_True by done. split; [done|]. lia.
      * destruct (Hfile p g Hg) as (? & Hrg & ?). rewrite Hrefs, decide_False by (done || by eapply wf_file_ne0).
        split; [done|]. split; [lia|done].
  - unfold others. simpl. rewrite !dom_insert_lookup_L by eauto. done.
Qed.

(** *** A description is created *)

Lemma open_slot st t l i p g m :
  fd_wf st → tables st !! t = Some l → l !! i = Some 0 → f_refcount g = 1 →
  km_inv m → km_frames m = km_frames (fmem st) → p ∉ km_live (fmem st) → km_live m = {[p]} ∪ km_live (fmem st) →
  let st' := mk_fdst m (fvfs st) (<[p := g]> (files st)) (<[t := <[i := p]> l]> (tables st)) in
  fd_wf st' ∧ others st' = others st.
Proof.
  intros Hwf Ht Hi Hg Hm' Hfr Hp Hl st'. pose proof Hwf as [Hm Hfb Htab Hfile].
  destruct (Htab t l Ht) as (Htl & Htn & Hlen & Hents). pose proof (fb_inv_owned _ _ Hfb) as Hown.
  assert (files st !! p = None) as Hpf.
  { destruct (files st !! p) as [f|] eqn:Hf; [|done]. destruct (Hfile p f Hf) as ([? _]%elem_of_difference & _). done. }
  assert (tables st !! p = None) as Hpt.
  { destruct (tables st !! p) as [f|] eqn:Hf; [|done]. destruct (Htab p f Hf) as ([? _]%elem_of_difference & _). done. }
  assert (p ≠ 0) as Hp0.
  { intros ->. destruct (km_null _ Hm') as [H0 _]. apply H0. rewrite Hl. set_solver. }
  assert (refs (tables st) p = 0) as Hz.
  { apply refs_none. intros u k Hk Hpk. destruct (Htab u k Hk) as (_ & _ & _ & Hs).
    destruct (Hs p Hpk Hp0) as [? ?]. congruence. }
  assert (∀ q, q ≠ 0 → refs (<[t := <[i := p]> l]> (tables st)) q
    = refs (tables st) q + (if decide (p = q) then 1 else 0)) as Hrefs.
  { intros q Hq. rewrite (refs_slot _ t l i 0) by done. rewrite (decide_False (P := 0 = q)) by done. lia. }
  split.
  - constructor; simpl; try done.
    + eapply fb_inv_mem; [done|]. rewrite Hl. set_solver.
    + intros u k Hk. destruct (tab_update st t l _ u k Hwf Ht (length_insert _ _ _) Hk) as (k0 & Hk0 & Hkl & Hc).
      destruct (Htab u k0 Hk0) as (? & ? & ? & Hs). rewrite Hl. split; [set_solver|].
      rewrite lookup_insert_ne by congruence. split; [done|]. split; [done|].
      intros x Hx Hx0. rewrite lookup_insert_is_Some'.
      destruct Hc as [[-> ->]|[_ ->]]; [|right; by apply Hs]. simplify_eq.
      apply slot_elem in Hx as [->|Hx]; [by left|right; by apply Hents].
    + intros q h. rewrite lookup_insert_Some. intros [[<- <-]|[Hne Hh]].
      * simpl. rewrite Hrefs, decide_True, Hl by done. split; [set_solver|]. lia.
      * destruct (Hfile q h Hh) as (? & Hrg & ?). rewrite Hrefs, decide_False by (done || by eapply wf_file_ne0).
        rewrite Hl. split; [set_solver|]. split; [lia|done].
  - unfold others. simpl. rewrite (dom_insert_lookup_L (tables st)) by eauto. rewrite dom_insert_L, Hl, Hfr.
    f_equal. apply set_eq. intros x. rewrite !elem_of_difference, !elem_of_union, elem_of_singleton.
    destruct (decide (x = p)) as [->|]; tauto.
Qed.

(** *** Tables come and go *)

Lemma new_table st t m :
  fd_wf st → km_inv m → km_frames m = km_frames (fmem st) → t ∉ km_live (fmem st) → km_live m = {[t]} ∪ km_live (fmem st) →
  let st' := mk_fdst m (fvfs st) (files st) (<[t := empty_table]> (tables st)) in
  fd_wf st' ∧ others st' = others st.
Proof.
  intros Hwf Hm' Hfr Hp Hl st'. pose proof Hwf as [Hm Hfb Htab Hfile]. pose proof (fb_inv_owned _ _ Hfb) as Hown.
  assert (files st !! t = None) as Hpf.
  { destruct (files st !! t) as [f|] eqn:Hf; [|done]. destruct (Hfile t f Hf) as ([? _]%elem_of_difference & _). done. }
  assert (tables st !! t = None) as Hpt.
  { destruct (tables st !! t) as [f|] eqn:Hf; [|done]. destruct (Htab t f Hf) as ([? _]%elem_of_difference & _). done. }
  split.
  - constructor; simpl; try done.
    + eapply fb_inv_mem; [done|]. rewrite Hl. set_solver.
    + intros u k. rewrite lookup_insert_Some, Hl. intros [[<- <-]|[Hne Hu]].
      * split; [set_solver|]. split; [done|]. split; [done|].
        intros e ->%elem_of_empty_table. done.
      * destruct (Htab u k Hu) as (? & ? & ? & ?). split; [set_solver|done].
    + intros p f Hf. destruct (Hfile p f Hf) as (? & ? & ?). rewrite refs_insert_new by done.
      rewrite cnt_zero.
      * rewrite Hl. split; [set_solver|done].
      * intros ->%elem_of_empty_table. by eapply (wf_file_ne0 st 0 f).
  - unfold others. simpl. rewrite dom_insert_L, Hl, Hfr. f_equal. apply set_eq. intros x.
    rewrite !elem_of_difference, !elem_of_union, elem_of_singleton.
    destruct (decide (x = t)) as [->|]; tauto.
Qed.

Lemma free_table st t m :
  fd_wf st → tables st !! t = Some (empty_table) →
  km_inv m → km_frames m = km_frames (fmem st) → km_live m = km_live (fmem st) ∖ {[t]} →
  let st' := mk_fdst m (fvfs st) (files st) (delete t (tables st)) in
  fd_wf st' ∧ others st' = others st.
Proof.
  intros Hwf Ht Hm' Hfr Hl st'. pose proof Hwf as [Hm Hfb Htab Hfile]. pose proof (fb_inv_owned _ _ Hfb) as Hown.
  destruct (Htab t _ Ht) as ([Htl Hto]%elem_of_difference & Htn & _).
  split.
  - constructor; simpl; try done.
    + eapply fb_inv_mem; [done|]. rewrite Hl. set_solver.
    + intros u k [Hne Hu]%lookup_delete_Some. destruct (Htab u k Hu) as (? & ? & ? & ?).
      rewrite Hl. split; [set_solver|done].
    + intros p f Hf. destruct (Hfile p f Hf) as (? & Hr & ?). assert (p ≠ t) by congruence.
      rewrite Hl. split; [set_solver|]. rewrite (refs_delete _ t _ p Ht), cnt_zero in Hr; [done|].
      intros ->%elem_of_empty_table. by eapply (wf_file_ne0 st 0 f).
  - unfold others. simpl. rewrite dom_delete_L, Hl, Hfr. assert (t ∈ dom (tables st)) by (apply elem_of_dom; eauto).
    f_equal. apply set_eq. intros x. rewrite !elem_of_difference, elem_of_singleton. destruct (decide (x = t)) as [->|]; tauto.
Qed.

(** The backend works on its own memory. *)
Lemma wf_backend st v m :
  fd_wf st → fb_inv v m → km_inv m → km_frames m = km_frames (fmem st) → km_live m ∖ fb_owned v = km_live (fmem st) ∖ fb_owned (fvfs st) →
  fd_wf (set_backend st v m) ∧ others (set_backend st v m) = others st.
Proof.
  intros [Hm Hfb Htab Hfile] Hv Hm' Hfr Hl. split; [|unfold others; simpl; by rewrite Hl, Hfr].
  constructor; simpl; rewrite ?Hl; done.
Qed.

Lemma wf_set_offset st p f o :
  fd_wf st → files st !! p = Some f →
  let st' := set_file st p (mk_file (f_vnode f) o (f_flags f) (f_refcount f)) in
  fd_wf st' ∧ others st' = others st.
Proof.
  intros [Hm Hfb Htab Hfile] Hf st'. split; [|unfold others; simpl; by rewrite dom_insert_lookup_L by eauto].
  constructor; simpl; try done.
  - intros t l Ht. destruct (Htab t l Ht) as (? & ? & ? & Hs). split; [done|].
    rewrite lookup_insert_ne by congruence. split; [done|]. split; [done|]. intros e He He0.
    rewrite lookup_insert_is_Some'. right. by apply Hs.
  - intros q g. rewrite lookup_insert_Some. intros [[<- <-]|[_ Hg]]; [exact (Hfile p f Hf)|exact (Hfile q g Hg)].
Qed.

(** ** The operations *)

#[local] Arguments fd_table_create : simpl never.
#[local] Arguments put_slot : simpl never.
#[local] Arguments get_slot : simpl never.

Lemma fd_table_create_spec st :
  fd_wf st →
  ∃ t st', fd_table_create st = Some (t, st') ∧ fd_wf st' ∧ others st' = others st ∧
    files st' = files st ∧ fvfs st' = fvfs st ∧
    ((t = 0 ∧ tables st' = tables st) ∨
     (t ≠ 0 ∧ tables st !! t = None ∧ tables st' = <[t := empty_table]> (tables st))).
Proof.
  intros Hwf. unfold fd_table_create.
  destruct (km_malloc_ok (fmem st) SIZEOF_FD_TABLE) as (t & m & -> & Hm & Hfr & Hc); [apply Hwf|done|].
  cbn [mbind option_bind]. destruct Hc as [[-> Hl]|[Hp Hl]].
  - rewrite decide_True by done. eexists _, _. split; [done|].
    destruct (wf_backend st (fvfs st) m Hwf) as [Hwf' Ho].
    { eapply fb_inv_mem; [apply Hwf|]. rewrite Hl. apply fb_inv_owned, Hwf. }
    { done. }
    { done. }
    { by rewrite Hl. }
    split; [exact Hwf'|]. split; [exact Ho|]. split; [done|]. split; [done|]. by left.
  - assert (t ≠ 0) as Ht0.
    { intros ->. destruct (km_null _ Hm) as [H0 _]. apply H0. rewrite Hl. set_solver. }
    rewrite decide_False by done. destruct (new_table st t m Hwf Hm Hfr Hp Hl) as [Hwf' Ho].
    eexists _, _. split; [done|]. split; [exact Hwf'|]. split; [exact Ho|]. split; [done|]. split; [done|].
    right. split; [done|]. split; [|done].
    destruct (tables st !! t) as [l|] eqn:E; [|done].
    destruct (fw_tab _ Hwf t l E) as ([? _]%elem_of_difference & _). done.
Qed.

(** Clearing the slots [i..i+n) of [t], one after the other. *)
Lemma destroy_loop_spec st t l i n :
  fd_wf st → tables st !! t = Some l → (i + n = MAX_FDS)%nat → take i l = replicate i 0 →
  ∃ st', destroy_loop st t i n = Some st' ∧ fd_wf st' ∧ others st' = others st ∧ fvfs st' = fvfs st ∧
    tables st' = <[t := empty_table]> (tables st) ∧ ∀ p, files st' !! p = retained st (tables st') p.
Proof.
  revert st l i. induction n as [|n IH]; intros st l i Hwf Ht Hin Hz; cbn [destroy_loop].
  { exists st. split; [done|]. split; [done|]. split; [done|]. split; [done|].
    destruct (fw_tab _ Hwf t l Ht) as (_ & _ & Hlen & _). split; [|intros p; symmetry; by apply retained_same].
    rewrite take_ge in Hz by lia. rewrite insert_id; [done|]. rewrite Ht, Hz. unfold empty_table. do 2 f_equal. lia. }
  destruct (wf_get_slot st t l i Hwf Ht) as (e & He & ->); [lia|]. cbn [mbind option_bind].
  destruct (decide (e = 0)) as [->|He0].
  { apply (IH st l (S i)); [done|done|lia|]. rewrite (take_S_r _ _ _ He), Hz. by rewrite replicate_S_end. }
  destruct (wf_slot st t l i e Hwf Ht He He0) as [f Hf].
  pose proof (destroy_dropped st t l i e f Ht He He0 Hf) as Hd.
  destruct (drop_slot st t l i e f Hwf Ht He He0 Hf) as (st1 & E & [Hwf1 Ht1 Hv1 Ho1 Hf1]).
  rewrite E in Hd. destruct (fd_release st e) as [st0|]; [|done]. cbn [mbind option_bind] in *.
  rewrite Hd. cbn [mbind option_bind].
  assert (tables st1 !! t = Some (<[i := 0]> l)) as Htl1 by by rewrite Ht1, lookup_insert_eq.
  destruct (IH st1 (<[i := 0]> l) (S i) Hwf1 Htl1) as (st' & -> & Hwf' & Ho' & Hv' & Ht' & Hf'); [lia|..].
  { rewrite (take_S_r _ _ 0) by (apply list_lookup_insert_eq; by eapply lookup_lt_Some).
    rewrite take_insert_ge, Hz by lia. by rewrite replicate_S_end. }
  exists st'. split; [done|]. split; [done|]. split; [congruence|]. split; [congruence|].
  split; [by rewrite Ht', Ht1, insert_insert_eq|]. intros p. rewrite Hf'. unfold retained at 1. rewrite Hf1.
  unfold retained. destruct (files st !! p) as [g|] eqn:Hg; [|done]. simpl.
  destruct (decide (refs (tables st1) p = 0)) as [Hr1|]; [|done]. simpl.
  assert (p ≠ 0) as Hp0 by by eapply (wf_file_ne0 st).
  rewrite decide_True; [done|]. rewrite Ht', (refs_update _ t _ _ _ Htl1), (cnt_zero p empty_table).
  - pose proof (cnt_nonneg p (<[i := 0]> l)). pose proof (refs_nonneg (<[t := empty_table]> (tables st1)) p) as Hn.
    rewrite (refs_update _ t _ _ _ Htl1), (cnt_zero p empty_table) in Hn; [lia|]. by intros ?%elem_of_empty_table.
  - by intros ?%elem_of_empty_table.
Qed.

Lemma fd_table_destroy_spec st t :
  fd_wf st → is_Some (tables st !! t) →
  ∃ st', fd_table_destroy st t = Some st' ∧ fd_wf st' ∧ others st' = others st ∧ fvfs st' = fvfs st ∧
    tables st' = delete t (tables st) ∧ ∀ p, files st' !! p = retained st (tables st') p.
Proof.
  intros Hwf [l Ht]. unfold fd_table_destroy. rewrite decide_False by by eapply wf_table_ne0.
  destruct (destroy_loop_spec st t l 0 MAX_FDS Hwf Ht) as (st1 & -> & Hwf1 & Ho1 & Hv1 & Ht1 & Hf1); [done|done|].
  cbn [mbind option_bind].
  assert (tables st1 !! t = Some empty_table) as Htl1 by by rewrite Ht1, lookup_insert_eq.
  destruct (fw_tab _ Hwf1 t _ Htl1) as ([Hlv _]%elem_of_difference & _).
  destruct (km_free_ok (fmem st1) t (fw_mem _ Hwf1) Hlv) as (m & -> & Hm & Hfr & Hl). cbn [mbind option_bind].
  destruct (free_table st1 t m Hwf1 Htl1 Hm Hfr Hl) as [Hwf' Ho'].
  eexists. split; [done|]. split; [exact Hwf'|]. split; [by rewrite Ho'|]. split; [done|].
  assert (delete t (tables st1) = delete t (tables st)) as Hdel by by rewrite Ht1, delete_insert_eq.
  split; [exact Hdel|]. intros p. simpl. rewrite Hf1, Hdel. unfold retained.
  destruct (files st !! p) as [g|] eqn:Hg; [|done]. simpl. assert (p ≠ 0) as Hp0 by by eapply (wf_file_ne0 st).
  rewrite (refs_delete _ t _ p Htl1), Hdel, cnt_zero, Z.add_0_l; [done|]. by intros ?%elem_of_empty_table.
Qed.

Lemma refs_bound (ts : gmap Z (list Z)) p :
  (∀ t l, ts !! t = Some l → length l = MAX_FDS) → refs ts p ≤ 64 * Z.of_nat (size ts).
Proof.
  induction ts as [|t l ts Ht IH] using map_ind; intros H; [done|].
  rewrite refs_insert_new, map_size_insert_None by done.
  assert (cnt p l ≤ 64).
  { unfold cnt. pose proof (length_filter (λ x, x = p) l) as Hf.
    rewrite (H t l) in Hf by apply lookup_insert_eq. unfold MAX_FDS in Hf. lia. }
  assert (refs ts p ≤ 64 * Z.of_nat (size ts)); [|lia].
  apply IH. intros t' l' H'. apply (H t'). rewrite lookup_insert_ne; [done|congruence].
Qed.

(** The description at [p] with its count for the tables [ts]. *)
Definition recounted st (ts : gmap Z (list Z)) (p : Z) : option file :=
  (λ f, with_refs f (refs ts p)) <$> files st !! p.

Lemma recounted_same st p ts : fd_wf st → refs ts p = refs (tables st) p → recounted st ts p = files st !! p.
Proof.
  intros Hwf Hr. unfold recounted. destruct (files st !! p) as [f|] eqn:Hf; [|done]. simpl.
  destruct (fw_file _ Hwf p f Hf) as (_ & Hrc & _). rewrite Hr, <- Hrc. by destruct f.
Qed.

Lemma fd_clone_loop_spec st src dst ls ld i n :
  fd_wf st → tables st !! src = Some ls → tables st !! dst = Some ld → src ≠ dst → (i + n = MAX_FDS)%nat →
  ld = take i ls ++ replicate n 0 → 64 * Z.of_nat (size (tables st)) < INT_MAX →
  ∃ st', fd_clone_loop st src dst i n = Some st' ∧ fd_wf st' ∧ others st' = others st ∧ fvfs st' = fvfs st ∧
    tables st' = <[dst := ls]> (tables st) ∧ ∀ p, files st' !! p = recounted st (tables st') p.
Proof.
  revert st ld i. induction n as [|n IH]; intros st ld i Hwf Hs Hd Hne Hin Hld Hb; cbn [fd_clone_loop];
    destruct (fw_tab _ Hwf src ls Hs) as (_ & _ & Hlen & Hents).
  { exists st. split; [done|]. split; [done|]. split; [done|]. split; [done|].
    assert (tables st = <[dst := ls]> (tables st)) as E.
    { rewrite insert_id; [done|]. rewrite Hd, Hld, app_nil_r, take_ge by lia. done. }
    split; [exact E|]. intros p. symmetry. by apply recounted_same. }
  destruct (wf_get_slot st src ls i Hwf Hs) as (e & He & ->); [lia|]. cbn [mbind option_bind].
  assert (length (take i ls) = i) as Hti by (rewrite length_take; lia).
  assert (ld !! i = Some 0) as Hdi.
  { rewrite Hld, lookup_app_r, Hti, Nat.sub_diag by lia. done. }
  assert (<[i := e]> ld = take (S i) ls ++ replicate n 0) as Hld'.
  { rewrite Hld, insert_app_r_alt, Hti, Nat.sub_diag by lia. simpl.
    rewrite (take_S_r _ _ _ He), <- app_assoc. done. }
  destruct (decide (e = 0)) as [->|He0].
  { apply (IH st ld (S i)); try done; [lia|]. rewrite <- Hld', list_insert_id by done. done. }
  rewrite (put_slot_ok st dst ld i 0) by done. cbn [mbind option_bind].
  destruct (wf_slot st src ls i e Hwf Hs He He0) as [f Hf]. cbn [files set_table]. rewrite Hf. cbn [mbind option_bind].
  destruct (fw_file _ Hwf e f Hf) as (_ & Hrc & _).
  rewrite decide_False.
  2:{ pose proof (refs_bound (tables st) e) as Hrb. rewrite Hrc. cut (refs (tables st) e < INT_MAX); [lia|].
      eapply Z.le_lt_trans; [apply Hrb|done]. intros t l Ht. apply (fw_tab _ Hwf t l Ht). }
  destruct (share_slot st dst ld i e f Hwf Hd Hdi Hf) as [Hwf1 Ho1].
  set (st1 := mk_fdst (fmem st) (fvfs st) _ _) in Hwf1, Ho1.
  change (set_file _ e _) with st1.
  destruct (IH st1 (<[i := e]> ld) (S i)) as (st' & -> & Hwf' & Ho' & Hv' & Ht' & Hf'); try done.
  - simpl. by rewrite lookup_insert_ne by congruence.
  - simpl. by rewrite lookup_insert_eq.
  - lia.
  - simpl. by rewrite map_size_insert_Some by eauto.
  - exists st'. split; [done|]. split; [done|]. split; [by rewrite Ho'|]. split; [by rewrite Hv'|].
    split; [rewrite Ht'; simpl; by rewrite insert_insert_eq|]. intros p. rewrite Hf'. unfold recounted. simpl.
    destruct (decide (p = e)) as [->|Hpe]; [by rewrite lookup_insert_eq, Hf|by rewrite lookup_insert_ne].
Qed.

Lemma fd_table_clone_spec st src l :
  fd_wf st → tables st !! src = Some l → 64 * Z.of_nat (size (tables st) + 1) < INT_MAX →
  ∃ t st', fd_table_clone st src = Some (t, st') ∧ fd_wf st' ∧ others st' = others st ∧ fvfs st' = fvfs st ∧
    ((t = 0 ∧ tables st' = tables st ∧ files st' = files st) ∨
     (t ≠ 0 ∧ tables st !! t = None ∧ tables st' = <[t := l]> (tables st) ∧
      ∀ p, files st' !! p = recounted st (tables st') p)).
Proof.
  intros Hwf Hs Hb. unfold fd_table_clone. rewrite decide_False by by eapply wf_table_ne0.
  destruct (fd_table_create_spec st Hwf) as (t & st1 & -> & Hwf1 & Ho1 & Hf1 & Hv1 & Hc). cbn [mbind option_bind].
  destruct Hc as [[-> Ht1]|(Ht0 & Htn & Ht1)].
  { rewrite decide_True by done. exists 0, st1. split; [done|]. split; [done|]. split; [done|]. split; [done|]. by left. }
  rewrite decide_False by done. assert (src ≠ t) as Hne by congruence.
  destruct (fd_clone_loop_spec st1 src t l empty_table 0 MAX_FDS) as (st2 & -> & Hwf2 & Ho2 & Hv2 & Ht2 & Hf2); try done.
  - by rewrite Ht1, lookup_insert_ne.
  - by rewrite Ht1, lookup_insert_eq.
  - rewrite Ht1, map_size_insert_None by done. lia.
  - cbn [mbind option_bind]. exists t, st2. split; [done|]. split; [done|]. split; [congruence|]. split; [congruence|].
    right. split; [done|]. split; [done|]. split; [by rewrite Ht2, Ht1, insert_insert_eq|].
    intros p. rewrite Hf2. unfold recounted. by rewrite Hf1.
Qed.

(** *** Opening *)

Lemma alloc_fd_from_spec l i :
  match alloc_fd_from l i with
  | Some j => ∃ k, j = (i + k)%nat ∧ l !! k = Some 0 ∧ ∀ k', (k' < k)%nat → l !! k' ≠ Some 0
  | None => 0 ∉ l
  end.
Proof.
  revert i. induction l as [|e l IH]; intros i; cbn [alloc_fd_from]; [apply not_elem_of_nil|].
  destruct (decide (e = 0)) as [->|He].
  - exists 0%nat. split; [lia|]. split; [done|]. intros k' ?. lia.
  - specialize (IH (S i)). destruct (alloc_fd_from l (S i)) as [j|].
    + destruct IH as (k & -> & Hk & Hlt). exists (S k). split; [lia|]. split; [done|].
      intros [|k'] Hk'; [simpl; congruence|]. apply Hlt. lia.
    + by apply not_elem_of_cons.
Qed.

(** Backend calls keep descriptors and descriptions. *)
Definition same_fds st st' : Prop :=
  fd_wf st' ∧ others st' = others st ∧ files st' = files st ∧ tables st' = tables st.

Lemma same_fds_backend st v m :
  fd_wf st → fb_inv v m → km_inv m → km_frames m = km_frames (fmem st) → km_live m ∖ fb_owned v = km_live (fmem st) ∖ fb_owned (fvfs st) →
  same_fds st (set_backend st v m).
Proof. intros Hwf H1 H2 Hf H3. destruct (wf_backend st v m Hwf H1 H2 Hf H3). done. Qed.

Lemma open_node_spec st path flags :
  fd_wf st → ∃ r st', open_node st path flags = Some (r, st') ∧ same_fds st st'.
Proof.
  intros Hwf. unfold open_node.
  destruct (fb_resolve_ok (fvfs st) (fmem st) path) as (r & v & m & -> & Hi & Hm & Hfr & Hl); [apply Hwf..|].
  cbn [mbind option_bind]. destruct r as [n|].
  { case_decide; eexists _, _; (split; [done|]); by apply same_fds_backend. }
  case_decide; [eexists _, _; split; [done|]; by apply same_fds_backend|].
  destruct (fb_create_ok v m path Hi Hm) as (rc & v2 & m2 & -> & Hi2 & Hm2 & Hfr2 & Hl2). cbn [mbind option_bind].
  case_decide; [eexists _, _; split; [done|]; apply same_fds_backend; try done; congruence|].
  destruct (fb_resolve_ok v2 m2 path Hi2 Hm2) as (r & v3 & m3 & -> & Hi3 & Hm3 & Hfr3 & Hl3). cbn [mbind option_bind].
  eexists _, _. split; [done|]. apply same_fds_backend; try done; congruence.
Qed.

Lemma open_trunc_spec st n flags :
  fd_wf st → ∃ r st', open_trunc st n flags = Some (r, st') ∧ same_fds st st'.
Proof.
  intros Hwf. unfold open_trunc. case_decide; [by exists true, st|].
  destruct (fb_truncate (fvfs st) n) as [trunc|] eqn:Et; [|by exists true, st].
  destruct (fb_truncate_ok _ _ _ (fmem st) Et) as (rc & v & m & -> & Hi & Hm & Hfr & Hl); [apply Hwf..|].
  cbn [mbind option_bind]. case_decide.
  - eexists _, _. split; [done|]. by apply same_fds_backend.
  - eexists _, _. split; [done|]. apply same_fds_backend; [done|by apply fb_set_size_ok|done|done|].
    by rewrite fb_set_size_owned.
Qed.

(** What [fd_open_ex] leaves behind. *)
Definition open_post st (t : Z) (l : list Z) (flags r : Z) st' : Prop :=
  fd_wf st' ∧ others st' = others st ∧
  ((r = -1 ∧ tables st' = tables st ∧ files st' = files st) ∨
   ∃ i p n off, r = Z.of_nat i ∧ l !! i = Some 0 ∧ (∀ k, (k < i)%nat → l !! k ≠ Some 0) ∧
     files st !! p = None ∧ tables st' = <[t := <[i := p]> l]> (tables st) ∧
     files st' = <[p := mk_file n off (Z.land flags O_ACCMODE) 1]> (files st)).

Lemma fd_open_ex_spec st t l path flags mode :
  fd_wf st → tables st !! t = Some l →
  ∃ r st', fd_open_ex st t path flags mode = Some (r, st') ∧ open_post st t l flags r st'.
Proof.
  intros Hwf Ht. unfold fd_open_ex.
  assert (∀ st', same_fds st st' → open_post st t l flags (-1) st') as Hfail.
  { intros st' (? & ? & ? & ?). split; [done|]. split; [done|]. by left. }
  case_decide; [exists (-1), st; split; [done|]; by apply Hfail|].
  case_decide; [exists (-1), st; split; [done|]; by apply Hfail|].
  destruct (open_node_spec st path flags Hwf) as (r & st1 & -> & Hs1). cbn [mbind option_bind].
  destruct r as [n|]; [|eexists _, _; split; [done|]; by apply Hfail].
  destruct (open_trunc_spec st1 n flags) as (ok & st2 & -> & Hs2); [apply Hs1|]. cbn [mbind option_bind].
  assert (same_fds st st2) as Hs12.
  { destruct Hs1 as (? & ? & ? & ?), Hs2 as (? & ? & ? & ?). split; [done|]. split_and!; congruence. }
  destruct ok; cbn [negb]; [|eexists _, _; split; [done|]; by apply Hfail].
  pose proof Hs12 as (Hwf2 & Ho2 & Hf2 & Ht2). unfold alloc_fd.
  rewrite <- Ht2 in Ht. rewrite Ht. cbn [mbind option_bind].
  pose proof (alloc_fd_from_spec l 0) as Hfd.
  destruct (alloc_fd_from l 0) as [j|]; [|eexists _, _; split; [done|]; by apply Hfail].
  destruct Hfd as (i & -> & Hi & Hlow). rewrite Nat.add_0_l.
  destruct (km_malloc_ok (fmem st2) SIZEOF_FILE) as (p & m & -> & Hm & Hfr & Hc); [apply Hwf2|done|].
  cbn [mbind option_bind]. destruct Hc as [[-> Hl]|[Hp Hl]].
  { rewrite decide_True by done. eexists _, _. split; [done|]. apply Hfail.
    destruct (wf_backend st2 (fvfs st2) m Hwf2) as [Hwf' Ho'].
    { eapply fb_inv_mem; [apply Hwf2|]. rewrite Hl. apply fb_inv_owned, Hwf2. }
    { done. }
    { done. }
    { by rewrite Hl. }
    split; [exact Hwf'|]. split; [by rewrite <- Ho2|]. done. }
  assert (p ≠ 0) as Hp0.
  { intros ->. destruct (km_null _ Hm) as [Hz _]. apply Hz. rewrite Hl. set_solver. }
  rewrite decide_False by done.
  set (g := mk_file n _ _ 1). rewrite (put_slot_ok _ t l i 0) by done. cbn [mbind option_bind].
  destruct (open_slot st2 t l i p g m Hwf2 Ht Hi eq_refl Hm Hfr Hp Hl) as [Hwf' Ho'].
  eexists _, _. split; [done|]. split; [exact Hwf'|]. split; [by rewrite <- Ho2|]. right.
  eexists i, p, n, _. split; [done|]. split; [done|]. split; [done|]. split.
  - rewrite <- Hf2. destruct (files st2 !! p) as [f|] eqn:Hf; [|done].
    destruct (fw_file _ Hwf2 p f Hf) as ([? _]%elem_of_difference & _). done.
  - split; [by rewrite <- Ht2|]. by rewrite <- Hf2.
Qed.

(** [fd_open_ex] never faults.  When it returns -1 (bad flags, no such
    file, creation or truncation refused, table full, no memory) no
    descriptor and no description has changed.  Otherwise it returns the
    lowest free descriptor, which now names a fresh description with one
    reference; every other descriptor and description is untouched, and so is
    every heap object and page frame of the rest of the kernel. *)
Theorem fd_open_ex_correct st t l path flags mode :
  fd_wf st → tables st !! t = Some l →
  ∃ r st', fd_open_ex st t path flags mode = Some (r, st') ∧ fd_wf st' ∧ others st' = others st ∧
    ((r = -1 ∧ tables st' = tables st ∧ files st' = files st) ∨
     ∃ i p n off, r = Z.of_nat i ∧ l !! i = Some 0 ∧ (∀ k, (k < i)%nat → l !! k ≠ Some 0) ∧
       files st !! p = None ∧ tables st' = <[t := <[i := p]> l]> (tables st) ∧
       files st' = <[p := mk_file n off (Z.land flags O_ACCMODE) 1]> (files st)).
Proof.
  intros Hwf Ht. destruct (fd_open_ex_spec st t l path flags mode Hwf Ht) as (r & st' & E & Hp).
  exists r, st'. split; [done|]. exact Hp.
Qed.

Lemma fd_file_spec st t l fd :
  fd_wf st → tables st !! t = Some l →
  (fd_file st t fd = Some None ∧ ∀ e, 0 ≤ fd → l !! Z.to_nat fd = Some e → e = 0) ∨
  ∃ p f, fd_file st t fd = Some (Some p) ∧ 0 ≤ fd < 64 ∧ l !! Z.to_nat fd = Some p ∧ p ≠ 0 ∧ files st !! p = Some f.
Proof.
  intros Hwf Ht. unfold fd_file. destruct (fw_tab _ Hwf t l Ht) as (_ & _ & Hlen & _). case_decide as Hr.
  { left. split; [done|]. intros e H0 He%lookup_lt_Some. unfold MAX_FDS in *. lia. }
  destruct (wf_get_slot st t l (Z.to_nat fd) Hwf Ht) as (e & He & ->); [unfold MAX_FDS in *; lia|].
  cbn [mbind option_bind]. case_decide as He0.
  - left. split; [done|]. intros e' _ He'. congruence.
  - right. destruct (wf_slot st t l _ e Hwf Ht He He0) as [f Hf]. exists e, f.
    split; [done|]. split; [unfold MAX_FDS in *; lia|]. done.
Qed.

Lemma fd_close_spec st t l fd :
  fd_wf st → tables st !! t = Some l →
  ∃ r st', fd_close st t fd = Some (r, st') ∧
    ((r = -1 ∧ st' = st ∧ ∀ e, 0 ≤ fd → l !! Z.to_nat fd = Some e → e = 0) ∨
     (r = 0 ∧ 0 ≤ fd < 64 ∧ (∃ p, l !! Z.to_nat fd = Some p ∧ p ≠ 0) ∧
      drop_post st t l (Z.to_nat fd) st')).
Proof.
  intros Hwf Ht. unfold fd_close.
  destruct (fd_file_spec st t l fd Hwf Ht) as [(-> & Hn)|(p & f & -> & Hr & Hl & Hp & Hf)]; cbn [mbind option_bind].
  { exists (-1), st. split; [done|]. by left. }
  pose proof (close_dropped st t l (Z.to_nat fd) p f Ht Hl Hp Hf) as Hd.
  destruct (drop_slot st t l (Z.to_nat fd) p f Hwf Ht Hl Hp Hf) as (st' & E & Hpost). rewrite E in Hd.
  destruct (put_slot st t (Z.to_nat fd) 0) as [st1|]; [|done]. cbn [mbind option_bind] in *.
  rewrite Hd. cbn [mbind option_bind]. exists 0, st'. split; [done|]. right.
  split; [done|]. split; [done|]. split; [by exists p|done].
Qed.

(** [fd_close] never faults.  On a descriptor that is not open it returns
    -1 and changes nothing.  Otherwise it clears exactly that slot; the
    description is freed exactly when no descriptor of any table refers to it
    any more, and else stays with its count lowered to the number of
    remaining references. *)
Theorem fd_close_correct st t l fd :
  fd_wf st → tables st !! t = Some l →
  ∃ r st', fd_close st t fd = Some (r, st') ∧ fd_wf st' ∧ others st' = others st ∧
    ((r = -1 ∧ st' = st ∧ ∀ e, 0 ≤ fd → l !! Z.to_nat fd = Some e → e = 0) ∨
     (r = 0 ∧ 0 ≤ fd < 64 ∧ (∃ p, l !! Z.to_nat fd = Some p ∧ p ≠ 0) ∧
      tables st' = <[t := <[Z.to_nat fd := 0]> l]> (tables st) ∧
      ∀ p, files st' !! p =
        (f ← files st !! p; if decide (refs (tables st') p = 0) then None
                            else Some (with_refs f (refs (tables st') p))))).
Proof.
  intros Hwf Ht. destruct (fd_close_spec st t l fd Hwf Ht) as (r & st' & E & Hc). exists r, st'. split; [done|].
  destruct Hc as [(-> & -> & Hn)|(-> & Hr & Hp & [Hwf' Ht' Hv' Ho' Hf'])].
  - split; [done|]. split; [done|]. by left.
  - split; [done|]. split; [done|]. by right.
Qed.

(** [fd_table_clone] (fork): with fewer than 2^31/64 tables it never
    faults and no counter overflows.  On failure nothing has changed.  On
    success the new table has the same entries, so parent and child share
    every description (one offset), nobody's vnode, offset or mode changes,
    and every count is again the number of references. *)
Theorem fd_table_clone_correct st src l :
  fd_wf st → tables st !! src = Some l → 64 * Z.of_nat (size (tables st) + 1) < INT_MAX →
  ∃ t st', fd_table_clone st src = Some (t, st') ∧ fd_wf st' ∧ others st' = others st ∧
    ((t = 0 ∧ tables st' = tables st ∧ files st' = files st) ∨
     (t ≠ 0 ∧ tables st !! t = None ∧ tables st' = <[t := l]> (tables st) ∧
      ∀ p, files st' !! p = (λ f, with_refs f (refs (tables st') p)) <$> files st !! p)).
Proof.
  intros Hwf Ht Hb. destruct (fd_table_clone_spec st src l Hwf Ht Hb) as (t & st' & E & ? & ? & _ & Hc).
  exists t, st'. split; [done|]. split; [done|]. split; [done|]. exact Hc.
Qed.

(** ** Every history of the descriptor layer *)

Inductive fd_step : fdst M V → fdst M V → Prop :=
  | fs_create st t st' : fd_table_create st = Some (t, st') → fd_step st st'
  | fs_destroy st t st' : is_Some (tables st !! t) → fd_table_destroy st t = Some st' → fd_step st st'
  | fs_clone st src t st' :
      is_Some (tables st !! src) → 64 * Z.of_nat (size (tables st) + 1) < INT_MAX →
      fd_table_clone st src = Some (t, st') → fd_step st st'
  | fs_open st t path flags mode r st' :
      is_Some (tables st !! t) → fd_open_ex st t path flags mode = Some (r, st') → fd_step st st'
  | fs_close st t fd r st' : is_Some (tables st !! t) → fd_close st t fd = Some (r, st') → fd_step st st'
  | fs_read st t fd count r st' : is_Some (tables st !! t) → fd_read st t fd count = Some (r, st') → fd_step st st'
  | fs_write st t fd buf r st' : is_Some (tables st !! t) → fd_write st t fd buf = Some (r, st') → fd_step st st'
  | fs_seek st t fd off whence r st' :
      is_Some (tables st !! t) → fd_seek st t fd off whence = Some (r, st') → fd_step st st'.

(** Storing an offset after a backend call. *)
Lemma wf_io st p f v m o :
  fd_wf st → files st !! p = Some f → fb_inv v m → km_inv m → km_frames m = km_frames (fmem st) →
  km_live m ∖ fb_owned v = km_live (fmem st) ∖ fb_owned (fvfs st) →
  let st' := set_file (set_backend st v m) p (mk_file (f_vnode f) o (f_flags f) (f_refcount f)) in
  fd_wf st' ∧ others st' = others st.
Proof.
  intros Hwf Hf Hi Hm Hfr Hl st'. destruct (wf_backend st v m Hwf Hi Hm Hfr Hl) as [Hwf1 Ho1].
  destruct (wf_set_offset (set_backend st v m) p f o Hwf1 Hf) as [? Ho2]. split; [done|]. by rewrite <- Ho1.
Qed.

Lemma fd_step_wf st st' : fd_step st st' → fd_wf st → fd_wf st' ∧ others st' = others st.
Proof.
  intros Hs Hwf. destruct Hs as [st t st' E|st t st' Ht E|st src t st' [l Ht] Hb E|st t path flags mode r st' [l Ht] E
    |st t fd r st' [l Ht] E|st t fd count r st' [l Ht] E|st t fd buf r st' [l Ht] E|st t fd off wh r st' [l Ht] E].
  - destruct (fd_table_create_spec st Hwf) as (? & ? & E' & ? & ? & _). rewrite E in E'. by injection E' as <- <-.
  - destruct (fd_table_destroy_spec st t Hwf Ht) as (? & E' & ? & ? & _). rewrite E in E'. by injection E' as <-.
  - destruct (fd_table_clone_spec st src l Hwf Ht Hb) as (? & ? & E' & ? & ? & _). rewrite E in E'. by injection E' as <- <-.
  - destruct (fd_open_ex_spec st t l path flags mode Hwf Ht) as (? & ? & E' & ? & ? & _). rewrite E in E'. by injection E' as <- <-.
  - destruct (fd_close_spec st t l fd Hwf Ht) as (? & ? & E' & Hc). simplify_eq.
    destruct Hc as [(_ & -> & _)|(_ & _ & _ & [])]; done.
  - unfold fd_read in E. destruct (fd_file_spec st t l fd Hwf Ht) as [(Ef & _)|(p & f & Ef & _ & _ & _ & Hf)];
      rewrite Ef in E; cbn [mbind option_bind] in E; [by simplify_eq|]. rewrite Hf in E. cbn [mbind option_bind] in E.
    case_decide; [by simplify_eq|]. destruct (fb_read (fvfs st) (f_vnode f)) as [rd|] eqn:Erd; [|by simplify_eq].
    destruct (fb_read_ok _ _ _ f count (fmem st) Erd) as (rc & o & v & m & Er & Hi & Hm & Hfr & Hl); [apply Hwf..|].
    rewrite Er in E. cbn [mbind option_bind] in E. simplify_eq. by apply wf_io.
  - unfold fd_write in E. destruct (fd_file_spec st t l fd Hwf Ht) as [(Ef & _)|(p & f & Ef & _ & _ & _ & Hf)];
      rewrite Ef in E; cbn [mbind option_bind] in E; [by simplify_eq|]. rewrite Hf in E. cbn [mbind option_bind] in E.
    case_decide; [by simplify_eq|]. destruct (fb_write (fvfs st) (f_vnode f)) as [wr|] eqn:Ewr; [|by simplify_eq].
    destruct (fb_write_ok _ _ _ f buf (fmem st) Ewr) as (rc & o & v & m & Er & Hi & Hm & Hfr & Hl); [apply Hwf..|].
    rewrite Er in E. cbn [mbind option_bind] in E. simplify_eq. by apply wf_io.
  - unfold fd_seek in E. destruct (fd_file_spec st t l fd Hwf Ht) as [(Ef & _)|(p & f & Ef & _ & _ & _ & Hf)];
      rewrite Ef in E; cbn [mbind option_bind] in E; [by simplify_eq|]. rewrite Hf in E. cbn [mbind option_bind] in E.
    assert (∀ o, (if decide (o < 0) then Some (-1, st)
      else Some (o, set_file st p (mk_file (f_vnode f) o (f_flags f) (f_refcount f)))) = Some (r, st') →
      fd_wf st' ∧ others st' = others st) as Hstore.
    { intros o Eo. case_decide; simplify_eq; [done|]. by apply wf_set_offset. }
    destruct (fb_is_chr (fvfs st) (f_vnode f)); [by simplify_eq|].
    destruct (decide (wh = SEEK_SET)); [by eapply Hstore|].
    destruct (decide (wh = SEEK_CUR)).
    { unfold sadd64 in E. destruct (decide (- 2 ^ 63 ≤ f_offset f + off ≤ INT64_MAX)); [|done]. by eapply Hstore. }
    destruct (decide (wh = SEEK_END)); [|by simplify_eq].
    destruct (fb_is_reg (fvfs st) (f_vnode f)); cbn [negb] in E; [|by simplify_eq]. unfold sadd64 in E.
    destruct (decide (- 2 ^ 63 ≤ fb_size (fvfs st) (f_vnode f) + off ≤ INT64_MAX)); [|done]. by eapply Hstore.
Qed.

(** C12. Reference counting is right in every history: starting from a kernel
    with no tables, after any sequence of table creations, forks, opens,
    closes, reads, writes, seeks and table destructions, every count is the
    number of descriptors (over all tables) that name the description, every
    description in use is live and no description without a descriptor
    exists; no other heap object and no page frame is lost or taken.  When all tables are gone,
    all the memory of the layer has been given back. *)
Theorem fd_histories_safe st0 st :
  km_inv (fmem st0) → fb_inv (fvfs st0) (fmem st0) → files st0 = ∅ → tables st0 = ∅ →
  rtc fd_step st0 st →
  (∀ p f, files st !! p = Some f → p ∈ km_live (fmem st) ∧ f_refcount f = refs (tables st) p ∧ 0 < f_refcount f) ∧
  (∀ t l e, tables st !! t = Some l → t ∈ km_live (fmem st) ∧ (e ∈ l → e ≠ 0 → is_Some (files st !! e))) ∧
  others st = (km_frames (fmem st0), km_live (fmem st0) ∖ fb_owned (fvfs st0)) ∧
  (tables st = ∅ → files st = ∅ ∧ km_live (fmem st) ∖ fb_owned (fvfs st) = km_live (fmem st0) ∖ fb_owned (fvfs st0)).
Proof.
  intros Hm Hfb Hf0 Ht0 Hsteps.
  assert (fd_wf st0 ∧ others st0 = (km_frames (fmem st0), km_live (fmem st0) ∖ fb_owned (fvfs st0))) as [Hwf0 Ho0].
  { split; [constructor; rewrite ?Hf0, ?Ht0; done|]. unfold others. rewrite Hf0, Ht0. f_equal. set_solver. }
  assert (fd_wf st ∧ others st = others st0) as [Hwf Ho].
  { clear -Hsteps Hwf0. induction Hsteps as [|st0 st1 st2 Hs _ IH]; [done|].
    destruct (fd_step_wf _ _ Hs Hwf0) as [? ?]. destruct IH as [? ?]; [done|]. split; [done|congruence]. }
  pose proof Hwf as [_ _ Htab Hfile]. split; [|split; [|split; [congruence|]]].
  - intros p f Hf. destruct (Hfile p f Hf) as ([? _]%elem_of_difference & ? & ?). done.
  - intros t l e Ht. destruct (Htab t l Ht) as ([? _]%elem_of_difference & _ & _ & Hs). auto.
  - intros Ht. assert (files st = ∅) as Hf.
    { apply map_empty. intros p. destruct (files st !! p) as [f|] eqn:Hf; [|done].
      destruct (Hfile p f Hf) as (_ & Hr & ?). rewrite Ht in Hr. unfold refs in Hr. rewrite map_fold_empty in Hr. lia. }
    split; [done|]. rewrite Ho0 in Ho. injection Ho as _ Ho. rewrite <- Ho, Hf, Ht. set_solver.
Qed.

(** The offset [whence] and [offset] ask for, when the descriptor allows it. *)
Definition seek_target (v : V) (f : file) (offset whence : Z) : option Z :=
  if fb_is_chr v (f_vnode f) then None
  else if decide (whence = SEEK_SET) then Some offset
  else if decide (whence = SEEK_CUR) then Some (f_offset f + offset)
  else if decide (whence = SEEK_END) then
    (if fb_is_reg v (f_vnode f) then Some (fb_size v (f_vnode f) + offset) else None)
  else None.

(** [fd_seek] on an open descriptor, when the target fits a signed 64-bit
    integer: it returns -1 and changes nothing for a device, an unknown
    [whence] or a negative target; otherwise it stores the target in the
    shared description, for every descriptor of it, and returns it. *)
Theorem fd_seek_correct st t l fd p f offset whence :
  fd_wf st → tables st !! t = Some l → 0 ≤ fd < 64 → l !! Z.to_nat fd = Some p → p ≠ 0 → files st !! p = Some f →
  (∀ o, seek_target (fvfs st) f offset whence = Some o → - 2 ^ 63 ≤ o ≤ INT64_MAX) →
  fd_seek st t fd offset whence =
    match seek_target (fvfs st) f offset whence with
    | Some o => if decide (o < 0) then Some (-1, st)
                else Some (o, set_file st p (mk_file (f_vnode f) o (f_flags f) (f_refcount f)))
    | None => Some (-1, st)
    end.
Proof.
  intros Hwf Ht Hfd Hl Hp Hf Hb. unfold fd_seek, seek_target in *.
  destruct (fd_file_spec st t l fd Hwf Ht) as [(_ & Hn)|(q & g & -> & _ & Hq & _ & Hg)].
  { exfalso. apply Hp, Hn; [lia|done]. }
  simplify_eq. cbn [mbind option_bind]. rewrite Hf. cbn [mbind option_bind].
  destruct (fb_is_chr (fvfs st) (f_vnode f)); [done|].
  destruct (decide (whence = SEEK_SET)); [done|]. unfold sadd64.
  destruct (decide (whence = SEEK_CUR)); [by rewrite (decide_True (P := _ ≤ _ ≤ _)) by by apply Hb|].
  destruct (decide (whence = SEEK_END)); [|done].
  destruct (fb_is_reg (fvfs st) (f_vnode f)); [|done]. cbn [negb].
  by rewrite (decide_True (P := _ ≤ _ ≤ _)) by by apply Hb.
Qed.
End Inv.

(** ** vfs.c's own vnode layer is a backend *)

(** A C string ends at its first NUL. *)
Fixpoint cstr (s : list Z) : list Z :=
  match s with
  | c :: s' => if decide (c = 0) then [] else c :: cstr s'
  | [] => []
  end.

Lemma cstr_no_nul s : 0 ∉ cstr s.
Proof.
  induction s as [|c s IH]; simpl; [apply not_elem_of_nil|]. case_decide; [apply not_elem_of_nil|].
  apply not_elem_of_cons. split; [congruence|done].
Qed.

Definition set_size (x : Z) (n : vnode) : vnode :=
  mk_vnode (vn_name n) (vn_type n) (vn_ops n) (vn_vops n) (vn_priv n) x (vn_parent n) (vn_children n) (vn_next n).

Lemma set_size_wf v i x : vfs_wf v → vfs_wf (upd v i (set_size x)).
Proof. by apply upd_wf. Qed.

Section Backend.
Context {M : Type} `{!KernelMem M} `{!DirOps}.

(** The vnode layer keeps its nodes in a static pool and owns no heap memory;
    without a mounted filesystem there is no create hook, no truncation, and no
    driver behind the nodes. *)
#[export] Program Instance vfs_backend : FileBackend M vfs := {|
  fb_resolve v m path := '(r, v') ← vfs_resolve v (cstr path); Some (r, (v', m));
  fb_create_file v m _ := Some (-1, (v, m));
  fb_truncate _ _ := None;
  fb_set_size v n x := upd v n (set_size x);
  fb_size v n := from_option vn_size 0 (node_pool v !! n);
  fb_is_chr v n := bool_decide (vn_type <$> node_pool v !! n = Some VNODE_CHR);
  fb_is_reg v n := bool_decide (vn_type <$> node_pool v !! n = Some VNODE_REG);
  fb_read _ _ := None;
  fb_write _ _ := None;
  fb_owned _ := ∅;
  fb_inv v _ := vfs_wf v ∧ vroot v ≠ None;
|}.
Next Obligation. intros. set_solver. Qed.
Next Obligation. done. Qed.
Next Obligation.
  intros v m path [Hwf Hr] Hm. unfold vfs_resolve.
  destruct (resolve_at_total v (vroot v) (cstr path) Hwf Hr) as (r & v' & -> & Hwf' & Hr' & _).
  - intros b Hb. by apply vf_root.
  - apply cstr_no_nul.
  - cbn [mbind option_bind]. exists r, v', m. split; [done|]. split; [split; [done|congruence]|]. done.
Qed.
Next Obligation. intros v m path Hi Hm. by exists (-1), v, m. Qed.
Next Obligation. done. Qed.
Next Obligation. done. Qed.
Next Obligation. done. Qed.
Next Obligation. intros v n x m [Hwf Hr]. split; [by apply set_size_wf|done]. Qed.
Next Obligation. done. Qed.
End Backend.

(** ** Witnesses *)

Definition demo_fd0 : fdst (heap pmm) vfs := mk_fdst demo_heap demo_vfs ∅ ∅.

Lemma demo_fd0_inv : fb_inv (M := heap pmm) demo_vfs demo_heap.
Proof. split; [exact demo_vfs_wf|]. rewrite demo_vfs_eq. discriminate. Qed.

Lemma demo_fd0_wf : fd_wf demo_fd0.
Proof.
  constructor; [exact demo_km_inv|exact demo_fd0_inv|..].
  - intros t l. simpl. rewrite lookup_empty. discriminate.
  - intros p f. simpl. rewrite lookup_empty. discriminate.
Qed.

Definition demo_tab : Z := 0xFFFF000040003020.
Definition demo_file : Z := 0xFFFF000040003240.
Definition rng_path : list Z := [47; 100; 101; 118; 47; 114; 110; 103].

(** One table with [/dev/rng] open as descriptor 0. *)
Definition demo_fd1 : fdst (heap pmm) vfs := from_option snd demo_fd0 (fd_table_create demo_fd0).
Definition demo_fd2 : fdst (heap pmm) vfs := from_option snd demo_fd1 (fd_open demo_fd1 demo_tab rng_path).

Lemma demo_fd1_eq :
  fst <$> fd_table_create demo_fd0 = Some demo_tab ∧ tables demo_fd1 !! demo_tab = Some empty_table.
Proof. split; vm_compute; reflexivity. Qed.

Lemma demo_fd1_wf : fd_wf demo_fd1.
Proof.
  destruct (fd_table_create_spec demo_fd0 demo_fd0_wf) as (t & st & E & Hwf & _).
  unfold demo_fd1. rewrite E. exact Hwf.
Qed.

Lemma demo_fd2_eq :
  fst <$> fd_open demo_fd1 demo_tab rng_path = Some 0 ∧
  tables demo_fd2 !! demo_tab = Some (<[0%nat := demo_file]> empty_table) ∧
  files demo_fd2 !! demo_file = Some (mk_file 2 0 0 1) ∧ size (tables demo_fd2) = 1%nat.
Proof. split; [|split; [|split]]; vm_compute; reflexivity. Qed.

Lemma demo_fd2_wf : fd_wf demo_fd2.
Proof.
  destruct demo_fd1_eq as [_ Ht].
  destruct (fd_open_ex_spec demo_fd1 demo_tab empty_table rng_path O_RDONLY 0 demo_fd1_wf Ht) as (r & st & E & Hwf & _).
  unfold demo_fd2, fd_open. rewrite E. exact Hwf.
Qed.

Lemma fd_open_ex_correct_witness :
  fd_wf demo_fd1 ∧ tables demo_fd1 !! demo_tab = Some empty_table ∧
  ∃ st', fd_open_ex demo_fd1 demo_tab rng_path O_RDONLY 0 = Some (0, st') ∧ fd_wf st'.
Proof.
  destruct demo_fd1_eq as [_ Ht]. split; [exact demo_fd1_wf|]. split; [exact Ht|].
  destruct (fd_open_ex_correct demo_fd1 demo_tab empty_table rng_path O_RDONLY 0 demo_fd1_wf Ht)
    as (r & st' & E & Hwf & _).
  destruct demo_fd2_eq as [Er _]. unfold fd_open in Er. rewrite E in Er. injection Er as ->.
  exists st'. split; [exact E|exact Hwf].
Defined.

Lemma fd_close_correct_witness :
  fd_wf demo_fd2 ∧ ∃ st', fd_close demo_fd2 demo_tab 0 = Some (0, st') ∧ files st' !! demo_file = None.
Proof.
  split; [exact demo_fd2_wf|]. destruct demo_fd2_eq as (_ & Ht & _).
  destruct (fd_close_correct demo_fd2 demo_tab _ 0 demo_fd2_wf Ht) as (r & st' & E & _ & _ & Hc).
  assert (fst <$> fd_close demo_fd2 demo_tab 0 = Some 0 ∧
    ((λ y, files (snd y) !! demo_file) <$> fd_close demo_fd2 demo_tab 0) = Some None) as [E1 E2]
    by (split; vm_compute; reflexivity).
  rewrite E in E1, E2. injection E1 as ->. injection E2 as E2. exists st'. split; [exact E|exact E2].
Defined.

Lemma fd_table_clone_correct_witness :
  fd_wf demo_fd2 ∧
  ∃ t st', fd_table_clone demo_fd2 demo_tab = Some (t, st') ∧
    t = 0xFFFF000040003280 ∧ files st' !! demo_file = Some (mk_file 2 0 0 2) ∧ fd_wf st'.
Proof.
  split; [exact demo_fd2_wf|]. destruct demo_fd2_eq as (_ & Ht & _ & Hs).
  destruct (fd_table_clone_correct demo_fd2 demo_tab _ demo_fd2_wf Ht) as (t & st' & E & Hwf & _).
  { rewrite Hs. unfold INT_MAX. lia. }
  assert (((λ y, (fst y, files (snd y) !! demo_file)) <$> fd_table_clone demo_fd2 demo_tab)
    = Some (0xFFFF000040003280, Some (mk_file 2 0 0 2))) as E1 by (vm_compute; reflexivity).
  rewrite E in E1. injection E1 as -> E1. exists 0xFFFF000040003280, st'.
  split; [exact E|]. split; [reflexivity|]. split; [exact E1|exact Hwf].
Defined.

Lemma fd_histories_safe_witness :
  km_inv demo_heap ∧ fb_inv (M := heap pmm) demo_vfs demo_heap ∧ rtc fd_step demo_fd0 demo_fd2 ∧
  (∀ p f, files demo_fd2 !! p = Some f → f_refcount f = refs (tables demo_fd2) p).
Proof.
  assert (rtc fd_step demo_fd0 demo_fd2) as Hs.
  { apply (rtc_l _ _ demo_fd1); [|apply rtc_once].
    - apply (fs_create _ demo_tab). destruct (fd_table_create_spec demo_fd0 demo_fd0_wf) as (t & st & E & _).
      destruct demo_fd1_eq as [E1 _]. unfold demo_fd1. rewrite E in *. injection E1 as ->. reflexivity.
    - destruct demo_fd1_eq as [_ Ht]. apply (fs_open _ demo_tab rng_path O_RDONLY 0 0); [eauto|].
      destruct (fd_open_ex_spec demo_fd1 demo_tab _ rng_path O_RDONLY 0 demo_fd1_wf Ht) as (r & st & E & _).
      destruct demo_fd2_eq as [Er _]. unfold demo_fd2, fd_open in *. rewrite E in *. injection Er as ->. reflexivity. }
  split; [exact demo_km_inv|]. split; [exact demo_fd0_inv|]. split; [exact Hs|].
  destruct (fd_histories_safe demo_fd0 demo_fd2 demo_km_inv demo_fd0_inv eq_refl eq_refl Hs) as [H _].
  intros p f Hf. apply (H p f Hf).
Defined.

Lemma fd_seek_correct_witness :
  fd_wf demo_fd2 ∧ fd_seek demo_fd2 demo_tab 0 5 SEEK_SET = Some (-1, demo_fd2).
Proof.
  split; [exact demo_fd2_wf|]. destruct demo_fd2_eq as (_ & Ht & Hf & _).
  rewrite (fd_seek_correct demo_fd2 demo_tab _ 0 demo_file (mk_file 2 0 0 1) 5 SEEK_SET demo_fd2_wf Ht); [reflexivity|lia|reflexivity|..].
  - discriminate.
  - exact Hf.
  - intros o Ho. vm_compute in Ho. discriminate Ho.
Defined.
