(* ===== verification/CString.v ===== *)
(** The C string library of the kernel: [src/src/lib/strings/strings.c].

    Memory is a list of bytes and a pointer an index into it; an access outside
    the list is [None].  The functions that only read take the object a pointer
    points into, from the pointer on.  [kvsnprintf] takes the format without its
    terminator and the arguments as a list of typed values; a conversion whose
    argument is missing or of another type is undefined in C and [None] here. *)
From S2P Require Import Prelude.

(** ** Blocks of memory *)

(** [for (i = 0; i < n; i++) d[i] = s[i]] from index [i]. *)
Fixpoint copy_up (mem : list Z) (d s i : Z) (n : nat) : option (list Z) :=
  match n with
  | O => Some mem
  | S n' => x ← arr_get mem (s + i); mem' ← arr_set mem (d + i) x; copy_up mem' d s (i + 1) n'
  end.

(** [for (i = n; i > 0; i--) d[i - 1] = s[i - 1]] *)
Fixpoint copy_down (mem : list Z) (d s : Z) (n : nat) : option (list Z) :=
  match n with
  | O => Some mem
  | S n' => x ← arr_get mem (s + Z.of_nat n'); mem' ← arr_set mem (d + Z.of_nat n') x; copy_down mem' d s n'
  end.

Definition memcpy (mem : list Z) (dest src : Z) (n : nat) : option (list Z) := copy_up mem dest src 0 n.

Definition memmove (mem : list Z) (dest src : Z) (n : nat) : option (list Z) :=
  if decide (dest = src ∨ n = 0%nat) then Some mem
  else if decide (dest < src) then copy_up mem dest src 0 n
  else copy_down mem dest src n.

Fixpoint set_from (mem : list Z) (d i c : Z) (n : nat) : option (list Z) :=
  match n with
  | O => Some mem
  | S n' => mem' ← arr_set mem (d + i) c; set_from mem' d (i + 1) c n'
  end.

Definition memset (mem : list Z) (dest c : Z) (n : nat) : option (list Z) := set_from mem dest 0 (c mod 256) n.

(** ** Comparing and measuring *)

Fixpoint memcmp (a b : list Z) (n : nat) {struct n} : option Z :=
  match n with
  | O => Some 0
  | S n' =>
      match a, b with
      | x :: a', y :: b' => if decide (x ≠ y) then Some (x - y) else memcmp a' b' n'
      | _, _ => None
      end
  end.

Fixpoint strlen (s : list Z) : option Z :=
  match s with
  | [] => None
  | c :: s' => if decide (c = 0) then Some 0 else n ← strlen s'; Some (n + 1)
  end.

Fixpoint strnlen (s : list Z) (maxlen : nat) {struct maxlen} : option Z :=
  match maxlen with
  | O => Some 0
  | S m =>
      match s with
      | [] => None
      | c :: s' => if decide (c = 0) then Some 0 else n ← strnlen s' m; Some (n + 1)
      end
  end.

Fixpoint strcmp (a b : list Z) : option Z :=
  match a, b with
  | x :: a', y :: b' => if decide (x ≠ 0 ∧ x = y) then strcmp a' b' else Some (x - y)
  | _, _ => None
  end.

Fixpoint strncmp (a b : list Z) (n : nat) {struct n} : option Z :=
  match n with
  | O => Some 0
  | S n' =>
      match a, b with
      | x :: a', y :: b' =>
          if decide (x ≠ y) then Some (x - y) else if decide (x = 0) then Some 0 else strncmp a' b' n'
      | _, _ => None
      end
  end.

(** Index of the first occurrence; the outer [None] is running off the object. *)
Fixpoint strchr_from (s : list Z) (target : Z) : option (option Z) :=
  match s with
  | [] => None
  | x :: s' =>
      if decide (x = 0) then Some (if decide (target = 0) then Some 0 else None)
      else if decide (x = target) then Some (Some 0)
      else r ← strchr_from s' target; Some (i ← r; Some (i + 1))
  end.

Definition strchr (s : list Z) (c : Z) : option (option Z) := strchr_from s (c mod 256).

(** The two loops of [strncpy]: what is stored in [dest[0..n)]. *)
Fixpoint strncpy_bytes (src : list Z) (n : nat) {struct n} : option (list Z) :=
  match n with
  | O => Some []
  | S n' =>
      match src with
      | [] => None
      | c :: src' =>
          if decide (c = 0) then Some (replicate n 0)
          else r ← strncpy_bytes src' n'; Some (c :: r)
      end
  end.

Fixpoint store_bytes (dest : list Z) (i : Z) (l : list Z) : option (list Z) :=
  match l with
  | [] => Some dest
  | x :: l' => dest' ← arr_set dest i x; store_bytes dest' (i + 1) l'
  end.

Definition strncpy (dest src : list Z) (n : nat) : option (list Z) :=
  l ← strncpy_bytes src n; store_bytes dest 0 l.

(** ** Formatted output *)

(** The buffer and the position, threaded through the [buf_*] helpers. *)
Record out := mk_out { o_buf : list Z; o_pos : Z }.

Definition buf_putc (buflen : Z) (o : out) (c : Z) : option out :=
  if decide (o_pos o +w 1 < buflen)
  then b ← arr_set (o_buf o) (o_pos o) c; Some (mk_out b (o_pos o +w 1))
  else Some (mk_out (o_buf o) (o_pos o +w 1)).

Fixpoint buf_puts (buflen : Z) (o : out) (s : list Z) : option out :=
  match s with
  | [] => Some o
  | c :: s' => o' ← buf_putc buflen o c; buf_puts buflen o' s'
  end.

(** [digits[d]] *)
Definition digit_char (d : Z) : Z := if decide (d < 10) then 48 + d else 87 + d.

(** [while (val > 0) tmp[i++] = ...]: the digits, least significant first.
    [tmp] has 24 bytes; [None] is an overrun. *)
Fixpoint rev_digits (base val : Z) (room : nat) : option (list Z) :=
  if decide (val ≤ 0) then Some []
  else match room with
  | O => None
  | S r => l ← rev_digits base (val / base) r; Some (digit_char (val mod base) :: l)
  end.

Definition buf_putu (buflen : Z) (o : out) (val base : Z) : option out :=
  if decide (val = 0) then buf_putc buflen o 48
  else tmp ← rev_digits base val 24; buf_puts buflen o (rev tmp).

Inductive varg := VStr (s : option (list Z)) | VInt (x : Z) | VU64 (x : Z).

Definition NULL_STR : list Z := [40; 110; 117; 108; 108; 41].
Definition PERCENT : Z := 37.

(** One conversion; [rest] are the arguments left. *)
Definition put_conv (buflen : Z) (o : out) (c : Z) (args : list varg) : option (out * list varg) :=
  if decide (c = 115) then
    match args with
    | VStr s :: rest => o' ← buf_puts buflen o (default NULL_STR s); Some (o', rest)
    | _ => None
    end
  else if decide (c = 100) then
    match args with
    | VInt x :: rest =>
        o' ← (if decide (x < 0) then o1 ← buf_putc buflen o 45; buf_putu buflen o1 (0 -w wrap64 x) 10
              else buf_putu buflen o x 10);
        Some (o', rest)
    | _ => None
    end
  else if decide (c = 117) then
    match args with
    | VU64 x :: rest => o' ← buf_putu buflen o x 10; Some (o', rest)
    | _ => None
    end
  else if decide (c = 120) then
    match args with
    | VU64 x :: rest => o' ← buf_putu buflen o x 16; Some (o', rest)
    | _ => None
    end
  else if decide (c = 99) then
    match args with
    | VInt x :: rest => o' ← buf_putc buflen o (x mod 256); Some (o', rest)
    | _ => None
    end
  else if decide (c = PERCENT) then o' ← buf_putc buflen o PERCENT; Some (o', args)
  else o1 ← buf_putc buflen o PERCENT; o2 ← buf_putc buflen o1 c; Some (o2, args).

Fixpoint kv_loop (buflen : Z) (o : out) (fmt : list Z) (args : list varg) : option out :=
  match fmt with
  | [] => Some o
  | c :: fmt' =>
      if decide (c ≠ PERCENT) then o' ← buf_putc buflen o c; kv_loop buflen o' fmt' args
      else match fmt' with
           | [] => Some o
           | k :: fmt'' => '(o', rest) ← put_conv buflen o k args; kv_loop buflen o' fmt'' rest
           end
  end.

Definition kvsnprintf (buf : list Z) (buflen : Z) (fmt : list Z) (args : list varg) : option (Z * list Z) :=
  o ← kv_loop buflen (mk_out buf 0) fmt args;
  if decide (0 < buflen)
  then b ← arr_set (o_buf o) (if decide (o_pos o < buflen) then o_pos o else buflen - 1) 0; Some (to_int (o_pos o), b)
  else Some (to_int (o_pos o), o_buf o).

Definition ksnprintf (buf : list Z) (buflen : Z) (fmt : list Z) (args : list varg) : option (Z * list Z) :=
  kvsnprintf buf buflen fmt args.

(** ** Copying *)

Lemma lookup_splice l o data (j : nat) :
  0 ≤ o → (Z.to_nat o + length data ≤ length l)%nat →
  splice l o data !! j =
    if decide (Z.to_nat o ≤ j < Z.to_nat o + length data)%nat then data !! (j - Z.to_nat o)%nat else l !! j.
Proof.
  intros Ho Hl. unfold splice.
  assert (length (take (Z.to_nat o) l) = Z.to_nat o) as Ht by (rewrite length_take; lia). case_decide as Hj.
  - rewrite lookup_app_r, lookup_app_l by lia. by rewrite Ht.
  - destruct (decide (j < Z.to_nat o)%nat).
    + by rewrite lookup_app_l, lookup_take_lt by lia.
    + rewrite lookup_app_r, lookup_app_r, lookup_drop by lia. f_equal. lia.
Qed.

Lemma lookup_slice l s (n j : nat) :
  0 ≤ s → (j < n)%nat → slice l s (Z.of_nat n) !! j = l !! (Z.to_nat s + j)%nat.
Proof. intros Hs Hj. unfold slice. by rewrite lookup_take_lt, lookup_drop by lia. Qed.

Lemma slice_length l s (n : nat) : 0 ≤ s → (Z.to_nat s + n ≤ length l)%nat → length (slice l s (Z.of_nat n)) = n.
Proof. intros Hs Hl. unfold slice. rewrite length_take, length_drop. lia. Qed.

(** What a copy does: byte [j] of the destination range comes from the source. *)
Definition copied (mem mem' : list Z) (d s : Z) (n : nat) : Prop :=
  length mem' = length mem ∧
  ∀ j : nat, mem' !! j =
    if decide (d ≤ Z.of_nat j < d + Z.of_nat n) then mem !! Z.to_nat (Z.of_nat j - d + s) else mem !! j.

Lemma copied_splice mem mem' d s n :
  0 ≤ d → 0 ≤ s → (Z.to_nat d + n ≤ length mem)%nat → (Z.to_nat s + n ≤ length mem)%nat →
  copied mem mem' d s n → mem' = splice mem d (slice mem s (Z.of_nat n)).
Proof.
  intros Hd Hs Hdl Hsl [Hlen Hj]. pose proof (slice_length mem s n Hs Hsl) as Hsn.
  apply list_eq. intros j. rewrite Hj, lookup_splice, Hsn by (rewrite ?Hsn; lia).
  repeat case_decide; try lia; [|done]. rewrite lookup_slice by lia. f_equal. lia.
Qed.

Lemma arr_step (mem : list Z) (i j : Z) :
  0 ≤ i < Z.of_nat (length mem) → 0 ≤ j < Z.of_nat (length mem) →
  ∃ x, arr_get mem i = Some x ∧ mem !! Z.to_nat i = Some x ∧ arr_set mem j x = Some (<[Z.to_nat j := x]> mem).
Proof.
  intros Hi Hj. destruct (lookup_lt_is_Some_2 mem (Z.to_nat i)) as [x Hx]; [lia|]. exists x.
  unfold arr_get, arr_set. rewrite !decide_True by lia. done.
Qed.

Lemma copy_up_spec mem d s i n :
  0 ≤ d → 0 ≤ s → 0 ≤ i → d + i + Z.of_nat n ≤ Z.of_nat (length mem) → s + i + Z.of_nat n ≤ Z.of_nat (length mem) →
  d ≤ s ∨ s + i + Z.of_nat n ≤ d →
  ∃ mem', copy_up mem d s i n = Some mem' ∧ copied mem mem' (d + i) (s + i) n.
Proof.
  intros Hd Hs. revert mem i. induction n as [|n IH]; intros mem i Hi Hdl Hsl Hov; cbn [copy_up].
  { exists mem. split; [done|]. split; [done|]. intros j. by rewrite decide_False by lia. }
  destruct (arr_step mem (s + i) (d + i)) as (x & -> & Hx & Hset); [lia..|].
  cbn [mbind option_bind]. rewrite Hset. cbn [mbind option_bind].
  destruct (IH (<[Z.to_nat (d + i) := x]> mem) (i + 1)) as (mem' & -> & Hlen & Hj);
    [lia|rewrite length_insert; lia|rewrite length_insert; lia|lia|].
  exists mem'. split; [done|]. rewrite length_insert in Hlen. split; [done|]. intros j. rewrite Hj.
  destruct (decide (j = Z.to_nat (d + i))) as [->|Hne].
  - rewrite decide_False, decide_True by lia. rewrite list_lookup_insert_eq by lia. rewrite <- Hx. f_equal. lia.
  - repeat case_decide; try lia; rewrite list_lookup_insert_ne by lia; [f_equal; lia|done].
Qed.

Lemma copy_down_spec mem d s n :
  0 ≤ s → s ≤ d → d + Z.of_nat n ≤ Z.of_nat (length mem) →
  ∃ mem', copy_down mem d s n = Some mem' ∧ copied mem mem' d s n.
Proof.
  intros Hs Hd. revert mem. induction n as [|n IH]; intros mem Hl; cbn [copy_down].
  { exists mem. split; [done|]. split; [done|]. intros j. by rewrite decide_False by lia. }
  destruct (arr_step mem (s + Z.of_nat n) (d + Z.of_nat n)) as (x & -> & Hx & Hset); [lia..|].
  cbn [mbind option_bind]. rewrite Hset. cbn [mbind option_bind].
  destruct (IH (<[Z.to_nat (d + Z.of_nat n) := x]> mem)) as (mem' & -> & Hlen & Hj); [rewrite length_insert; lia|].
  exists mem'. split; [done|]. rewrite length_insert in Hlen. split; [done|]. intros j. rewrite Hj.
  destruct (decide (j = Z.to_nat (d + Z.of_nat n))) as [->|Hne].
  - rewrite decide_False, decide_True by lia. rewrite list_lookup_insert_eq by lia. rewrite <- Hx. f_equal. lia.
  - repeat case_decide; try lia; rewrite list_lookup_insert_ne by lia; done.
Qed.

(** Block moves: for any two in-bounds ranges, however they overlap,
    [memmove] stays inside memory and leaves in the destination exactly the
    bytes the source had before, every other byte unchanged; and [memcpy] does
    the same when the ranges do not overlap or the destination starts first. *)
Theorem memmove_correct mem dest src n :
  0 ≤ dest → 0 ≤ src → dest + Z.of_nat n ≤ Z.of_nat (length mem) → src + Z.of_nat n ≤ Z.of_nat (length mem) →
  memmove mem dest src n = Some (splice mem dest (slice mem src (Z.of_nat n))) ∧
  (dest ≤ src ∨ src + Z.of_nat n ≤ dest →
   memcpy mem dest src n = Some (splice mem dest (slice mem src (Z.of_nat n)))).
Proof.
  intros Hd Hs Hdl Hsl. split.
  - unfold memmove. case_decide as Heq.
    + f_equal. apply (copied_splice mem mem dest src n); [lia..|]. split; [done|]. intros j.
      case_decide; [|done]. destruct Heq as [-> | ->]; [|lia]. f_equal. lia.
    + case_decide as Hlt.
      * destruct (copy_up_spec mem dest src 0 n) as (mem' & -> & Hc); [lia..|].
        rewrite !Z.add_0_r in Hc. f_equal. apply copied_splice; (done || lia).
      * destruct (copy_down_spec mem dest src n) as (mem' & -> & Hc); [lia..|].
        f_equal. apply copied_splice; (done || lia).
  - intros Hov. unfold memcpy. destruct (copy_up_spec mem dest src 0 n) as (mem' & -> & Hc); [lia..|].
    rewrite !Z.add_0_r in Hc. f_equal. apply copied_splice; (done || lia).
Qed.

Lemma memmove_correct_witness : memmove [1; 2; 3; 4; 5] 1 0 3 = Some [1; 1; 2; 3; 5].
Proof. apply (memmove_correct [1; 2; 3; 4; 5] 1 0 3); simpl; lia. Defined.

(** ** What formatted output should be *)

(** A number in a base. *)
Definition show_num (base val : Z) : list Z :=
  if decide (val = 0) then [48] else rev (default [] (rev_digits base val 24)).

(** The text of one conversion, and the arguments left. *)
Definition render_conv (c : Z) (args : list varg) : option (list Z * list varg) :=
  if decide (c = 115) then
    match args with VStr s :: rest => Some (default NULL_STR s, rest) | _ => None end
  else if decide (c = 100) then
    match args with
    | VInt x :: rest => Some ((if decide (x < 0) then [45] else []) ++ show_num 10 (Z.abs x), rest)
    | _ => None
    end
  else if decide (c = 117) then
    match args with VU64 x :: rest => Some (show_num 10 x, rest) | _ => None end
  else if decide (c = 120) then
    match args with VU64 x :: rest => Some (show_num 16 x, rest) | _ => None end
  else if decide (c = 99) then
    match args with VInt x :: rest => Some ([x mod 256], rest) | _ => None end
  else if decide (c = PERCENT) then Some ([PERCENT], args)
  else Some ([PERCENT; c], args).

(** The whole text, without a bound. *)
Fixpoint render (fmt : list Z) (args : list varg) : option (list Z) :=
  match fmt with
  | [] => Some []
  | c :: fmt' =>
      if decide (c ≠ PERCENT) then t ← render fmt' args; Some (c :: t)
      else match fmt' with
           | [] => Some []
           | k :: fmt'' => '(s, rest) ← render_conv k args; t ← render fmt'' rest; Some (s ++ t)
           end
  end.

(** Arguments within their C types. *)
Definition varg_ok (a : varg) : Prop :=
  match a with
  | VStr _ => True
  | VInt x => - 2 ^ 31 ≤ x < 2 ^ 31
  | VU64 x => is_u64 x
  end.

(** *** Numbers *)

(** Twenty digits are enough in base 10 and sixteen in base 16. *)
Lemma rev_digits_weak base val (room : nat) :
  0 < base → val < base ^ Z.of_nat room → is_Some (rev_digits base val room).
Proof.
  intros Hb. revert val. induction room as [|r IH]; intros val Hv; cbn [rev_digits].
  - rewrite decide_True by (simpl in Hv; lia). done.
  - case_decide; [done|]. destruct (IH (val / base)) as [l ->]; [|done].
    rewrite Nat2Z.inj_succ, Z.pow_succ_r in Hv by lia. apply Z.div_lt_upper_bound; lia.
Qed.

Lemma rev_digits_u64 base val : base = 10 ∨ base = 16 → is_u64 val → is_Some (rev_digits base val 24).
Proof.
  intros [-> | ->] [_ Hv]; (apply rev_digits_weak; [lia|]); (eapply Z.lt_le_trans; [exact Hv|]); vm_compute; discriminate.
Qed.

Definition char_digit (c : Z) : Z := if decide (c < 58) then c - 48 else c - 87.

Lemma char_digit_char d : 0 ≤ d < 16 → char_digit (digit_char d) = d.
Proof. intros Hd. unfold char_digit, digit_char. repeat case_decide; lia. Qed.

(** The value of a digit string. *)
Definition num_value (base : Z) (s : list Z) : Z := foldl (λ acc c, acc * base + char_digit c) 0 s.

Lemma rev_digits_value base val room l :
  2 ≤ base ≤ 16 → 0 ≤ val → rev_digits base val room = Some l →
  num_value base (rev l) = val ∧ (val ≠ 0 → last l ≠ None ∧ last l ≠ Some 48) ∧
  Forall (λ c, 48 ≤ c ≤ 57 ∨ 97 ≤ c ≤ 102) l.
Proof.
  intros Hb. revert val l. induction room as [|r IH]; intros val l Hv; cbn [rev_digits].
  { case_decide; [|done]. intros [= <-]. split; [unfold num_value; simpl; lia|]. split; [lia|done]. }
  case_decide; [intros [= <-]; split; [unfold num_value; simpl; lia|split; [lia|done]]|].
  destruct (rev_digits base (val / base) r) as [l'|] eqn:E; [|done]. intros [= <-].
  destruct (IH (val / base) l' ltac:(apply Z.div_pos; lia) E) as (Hval & Hlast & Hall).
  pose proof (Z.mod_pos_bound val base ltac:(lia)) as Hm. split; [|split].
  - simpl. unfold num_value in *. rewrite foldl_app, Hval. simpl. rewrite char_digit_char by lia.
    pose proof (Z.div_mod val base ltac:(lia)). lia.
  - intros _. destruct (decide (val / base = 0)) as [E0|Hne].
    + rewrite E0 in E. assert (l' = []) as ->.
      { destruct r; simpl in E; congruence. }
      simpl. split; [done|]. pose proof (Z.div_mod val base ltac:(lia)).
      unfold digit_char. case_decide; intros [= H48]; lia.
    + destruct l' as [|y l'']; [by destruct (Hlast Hne) as [? _]|]. by rewrite last_cons_cons; apply Hlast.
  - constructor; [|done]. unfold digit_char. case_decide; lia.
Qed.

(** *** The bounded output *)

(** The state after the text [l] has been put. *)
Definition emit (buf : list Z) (buflen : Z) (l : list Z) : out :=
  mk_out (splice buf 0 (take (Z.to_nat (buflen - 1)) l)) (Z.of_nat (length l)).

Section Emit.
Context (buf : list Z) (buflen : Z) (Hbuf : 0 ≤ buflen ≤ Z.of_nat (length buf)).

Lemma buf_putc_emit l c :
  Z.of_nat (length l) + 1 < 2 ^ 64 → buf_putc buflen (emit buf buflen l) c = Some (emit buf buflen (l ++ [c])).
Proof using Hbuf.
  intros Hl. unfold buf_putc, emit. cbn [o_pos o_buf]. rewrite add64_small by lia. rewrite length_app. simpl length.
  replace (Z.of_nat (length l + 1)) with (Z.of_nat (length l) + 1) by lia. case_decide as Hin.
  - rewrite !take_ge by (rewrite ?length_app; simpl; lia).
    unfold arr_set. rewrite decide_True by (rewrite splice_length; lia). cbn [mbind option_bind]. do 2 f_equal.
    apply list_eq. intros j. rewrite lookup_splice by (rewrite ?length_app; simpl; lia).
    rewrite length_app. simpl length. change (Z.to_nat 0) with 0%nat. rewrite Nat.sub_0_r.
    destruct (decide (j = length l)) as [->|Hne].
    + rewrite Nat2Z.id, list_lookup_insert_eq by (rewrite splice_length; lia). rewrite decide_True by lia.
      by rewrite lookup_app_r, Nat.sub_diag by lia.
    + rewrite list_lookup_insert_ne by lia. rewrite lookup_splice by lia. change (Z.to_nat 0) with 0%nat.
      rewrite Nat.sub_0_r. repeat case_decide; try lia; [|done]. by rewrite lookup_app_l by lia.
  - do 3 f_equal. rewrite take_app_le by lia. done.
Qed.

Lemma buf_puts_emit l s :
  Z.of_nat (length l + length s) < 2 ^ 64 → buf_puts buflen (emit buf buflen l) s = Some (emit buf buflen (l ++ s)).
Proof using Hbuf.
  revert l. induction s as [|c s IH]; intros l Hl; cbn [buf_puts]; [by rewrite app_nil_r|].
  simpl in Hl. rewrite buf_putc_emit by lia. cbn [mbind option_bind]. rewrite IH by (rewrite length_app; simpl; lia).
  by rewrite <- app_assoc.
Qed.

Lemma buf_putu_emit l val base :
  base = 10 ∨ base = 16 → is_u64 val → Z.of_nat (length l + length (show_num base val)) < 2 ^ 64 →
  buf_putu buflen (emit buf buflen l) val base = Some (emit buf buflen (l ++ show_num base val)).
Proof using Hbuf.
  intros Hb Hv Hl. unfold buf_putu. unfold show_num in Hl |- *. case_decide.
  { apply buf_putc_emit. cbn [length] in Hl. lia. }
  destruct (rev_digits_u64 base val Hb Hv) as [d Hd]. rewrite Hd in Hl |- *. cbn [mbind option_bind default id] in Hl |- *.
  apply buf_puts_emit. exact Hl.
Qed.

Lemma put_conv_emit l c args s rest :
  Forall varg_ok args → render_conv c args = Some (s, rest) → Z.of_nat (length l + length s) < 2 ^ 64 →
  put_conv buflen (emit buf buflen l) c args = Some (emit buf buflen (l ++ s), rest) ∧ Forall varg_ok rest.
Proof using Hbuf.
  intros Hargs. unfold render_conv, put_conv.
  repeat (case_decide; [destruct args as [|[] rest']; try done; apply Forall_cons in Hargs as [Ha Hargs];
    intros [= <- <-] Hl; (split; [|done])|]).
  - by rewrite buf_puts_emit.
  - simpl in Ha. rewrite length_app in Hl. case_decide as Hneg.
    + simpl length in Hl. rewrite buf_putc_emit by lia. cbn [mbind option_bind].
      assert (0 -w wrap64 x = Z.abs x) as ->.
      { unfold sub64, wrap64. rewrite Zminus_mod_idemp_r. rewrite Z.mod_small by lia. lia. }
      rewrite buf_putu_emit; [by rewrite <- app_assoc|by left|unfold is_u64; lia|rewrite length_app; simpl; lia].
    + rewrite Z.abs_eq by lia. rewrite Z.abs_eq in Hl by lia. rewrite buf_putu_emit; [done|by left|unfold is_u64; lia|simpl in Hl; lia].
  - by rewrite buf_putu_emit by (done || by left).
  - by rewrite buf_putu_emit by (done || by right).
  - simpl in Hl. by rewrite buf_putc_emit by lia.
  - case_decide.
    + intros [= <- <-] Hl. simpl in Hl. split; [|done]. by rewrite buf_putc_emit by lia.
    + intros [= <- <-] Hl. simpl in Hl. split; [|done]. rewrite buf_putc_emit by lia. cbn [mbind option_bind].
      rewrite buf_putc_emit by (rewrite length_app; simpl; lia). by rewrite <- app_assoc.
Qed.

Lemma kv_loop_emit l fmt args t :
  Forall varg_ok args → render fmt args = Some t → Z.of_nat (length l + length t) < 2 ^ 64 →
  kv_loop buflen (emit buf buflen l) fmt args = Some (emit buf buflen (l ++ t)).
Proof using Hbuf.
  remember (length fmt) as n eqn:En. revert fmt En l args t.
  induction n as [n IH] using (well_founded_induction lt_wf). intros fmt -> l args t Hargs Hr Hl.
  destruct fmt as [|c fmt]; cbn [kv_loop render] in *.
  { injection Hr as <-. by rewrite app_nil_r. }
  case_decide as Hc.
  - destruct (render fmt args) as [t'|] eqn:Er; [|done]. injection Hr as <-. simpl in Hl.
    rewrite buf_putc_emit by lia. cbn [mbind option_bind].
    rewrite (IH (length fmt)) with (t := t'); [by rewrite <- app_assoc|simpl; lia|done|done|done|].
    rewrite length_app. simpl. lia.
  - destruct fmt as [|k fmt]; [injection Hr as <-; by rewrite app_nil_r|].
    destruct (render_conv k args) as [[s rest]|] eqn:Ec; [|done]. cbn [mbind option_bind] in Hr.
    destruct (render fmt rest) as [t'|] eqn:Er; [|done]. injection Hr as <-. rewrite length_app in Hl.
    destruct (put_conv_emit l k args s rest Hargs Ec) as [-> Hrest]; [lia|]. cbn [mbind option_bind].
    rewrite (IH (length fmt)) with (t := t'); [by rewrite <- app_assoc|simpl; lia|done|done|done|].
    rewrite length_app. lia.
Qed.
End Emit.

Lemma emit_nil buf buflen : mk_out buf 0 = emit buf buflen [].
Proof. unfold emit. by rewrite take_nil, splice_nil by lia. Qed.

(** Storing the terminator behind the kept prefix. *)
Lemma emit_terminated buf buflen t :
  0 < buflen ≤ Z.of_nat (length buf) →
  arr_set (splice buf 0 (take (Z.to_nat (buflen - 1)) t))
    (if decide (Z.of_nat (length t) < buflen) then Z.of_nat (length t) else buflen - 1) 0
  = Some (splice buf 0 (take (Z.to_nat (buflen - 1)) t ++ [0])).
Proof.
  intros Hb. set (k := take (Z.to_nat (buflen - 1)) t).
  assert (length k = Z.to_nat (Z.min (buflen - 1) (Z.of_nat (length t)))) as Hk by (unfold k; rewrite length_take; lia).
  assert ((if decide (Z.of_nat (length t) < buflen) then Z.of_nat (length t) else buflen - 1) = Z.of_nat (length k)) as ->
    by (case_decide; lia).
  unfold arr_set. rewrite decide_True by (rewrite splice_length; lia). rewrite Nat2Z.id. f_equal.
  apply list_eq. intros j. rewrite lookup_splice by (rewrite ?length_app; simpl; lia). rewrite length_app. simpl length.
  change (Z.to_nat 0) with 0%nat. rewrite Nat.sub_0_r. destruct (decide (j = length k)) as [->|Hne].
  - rewrite list_lookup_insert_eq by (rewrite splice_length; lia). rewrite decide_True by lia.
    by rewrite lookup_app_r, Nat.sub_diag by lia.
  - rewrite list_lookup_insert_ne by lia. rewrite lookup_splice by lia. change (Z.to_nat 0) with 0%nat.
    rewrite Nat.sub_0_r. repeat case_decide; try lia; [|done]. by rewrite lookup_app_l by lia.
Qed.

(** C33. [ksnprintf] implements bounded printing: for a buffer of at least
    [buflen] bytes and a format whose conversions match the arguments, it
    never writes outside the first [buflen] bytes; it returns the length of
    the full text; the buffer starts with the longest prefix of the text that
    leaves room for a terminator, followed by the terminator, and the rest of
    the buffer is unchanged.  With [buflen = 0] nothing is written. *)
Theorem ksnprintf_correct buf buflen fmt args t :
  0 ≤ buflen ≤ Z.of_nat (length buf) → Forall varg_ok args → render fmt args = Some t →
  Z.of_nat (length t) < 2 ^ 31 →
  ksnprintf buf buflen fmt args = Some (Z.of_nat (length t),
    if decide (0 < buflen) then splice buf 0 (take (Z.to_nat (buflen - 1)) t ++ [0]) else buf).
Proof.
  intros Hb Hargs Hr Ht. unfold ksnprintf, kvsnprintf.
  rewrite (emit_nil buf buflen).
  rewrite (kv_loop_emit buf buflen Hb [] fmt args t) by (done || simpl; lia). cbn [mbind option_bind].
  unfold emit. cbn [o_pos o_buf app].
  rewrite to_int_small by lia.
  case_decide as Hpos.
  - rewrite emit_terminated by lia. done.
  - do 2 f_equal. replace (Z.to_nat (buflen - 1)) with 0%nat by lia. rewrite take_0, splice_nil by lia. done.
Qed.

Lemma ksnprintf_correct_witness :
  ksnprintf [9; 9; 9; 9; 9; 9] 5 [97; 37; 100; 37; 120] [VInt (-42); VU64 255] =
    Some (6, [97; 45; 52; 50; 0; 9]).
Proof.
  apply (ksnprintf_correct [9; 9; 9; 9; 9; 9] 5 [97; 37; 100; 37; 120] [VInt (-42); VU64 255] [97; 45; 52; 50; 102; 102]).
  - simpl. lia.
  - repeat constructor; simpl; lia.
  - vm_compute. reflexivity.
  - simpl. lia.
Defined.

(** Numbers are printed faithfully: the text of a 64-bit value in base 10
    or 16 reads back as the value, uses the digits [0-9a-f] only, is not
    empty and has no leading zero unless the value is zero; and it fits the
    24-byte scratch buffer of [buf_putu]. *)
Theorem show_num_roundtrip base val :
  base = 10 ∨ base = 16 → is_u64 val →
  num_value base (show_num base val) = val ∧
  Forall (λ c, 48 ≤ c ≤ 57 ∨ 97 ≤ c ≤ 102) (show_num base val) ∧
  (head (show_num base val) = Some 48 ↔ val = 0) ∧ (0 < length (show_num base val) ≤ 24)%nat ∧
  buf_putu 64 (mk_out (replicate 64 0) 0) val base =
    Some (mk_out (show_num base val ++ replicate (64 - length (show_num base val)) 0) (Z.of_nat (length (show_num base val)))).
Proof.
  intros Hb Hv. destruct (rev_digits_u64 base val Hb Hv) as [d Hd].
  assert (2 ≤ base ≤ 16) as Hb2 by lia. destruct Hv as [Hv0 Hv1].
  destruct (rev_digits_value base val 24 d Hb2 Hv0 Hd) as (Hval & Hlast & Hall).
  assert (length d ≤ 24)%nat as Hlen.
  { clear -Hd. revert val d Hd. generalize 24%nat. intros n. induction n as [|n IH]; intros val d; cbn [rev_digits].
    - case_decide; [|done]. by intros [= <-].
    - case_decide; [intros [= <-]; simpl; lia|]. destruct (rev_digits base (val / base) n) as [l|] eqn:E; [|done].
      intros [= <-]. simpl. specialize (IH _ _ E). lia. }
  assert (0 < length (show_num base val) ≤ 24)%nat as Hlen2.
  { unfold show_num. case_decide as H0; [simpl; lia|]. rewrite Hd. cbn [default id]. rewrite length_rev.
    destruct (Hlast H0) as [Hne _]. clear -Hne Hlen. destruct d; [done|]. cbn [length] in *. lia. }
  split; [|split; [|split; [|split; [done|]]]].
  - unfold show_num. case_decide as H0; [by rewrite H0|]. by rewrite Hd.
  - unfold show_num. case_decide; [constructor; [lia|done]|]. rewrite Hd. cbn [default id]. by apply Forall_rev.
  - unfold show_num. case_decide as H0; [done|]. rewrite Hd. cbn [default id]. split; [|done].
    destruct (Hlast H0) as [_ Hne]. rewrite <- (reverse_involutive (rev d)), head_reverse. unfold reverse. rewrite <- rev_alt, rev_involutive. done.
  - rewrite (emit_nil (replicate 64 0) 64), (buf_putu_emit (replicate 64 0) 64); [|rewrite length_replicate; lia|done|done|simpl; lia]. unfold emit. cbn [app].
    rewrite take_ge by lia. unfold splice. change (Z.to_nat 0) with 0%nat. cbn [take app]. by rewrite drop_replicate.
Qed.

Lemma show_num_roundtrip_witness : num_value 16 (show_num 16 48879) = 48879.
Proof. apply (show_num_roundtrip 16 48879); [right; reflexivity|unfold is_u64; lia]. Defined.

(** ** Strings *)

Lemma strlen_spec s rest : 0 ∉ s → strlen (s ++ 0 :: rest) = Some (Z.of_nat (length s)).
Proof.
  induction s as [|c s IH]; intros Hs; [done|]. apply not_elem_of_cons in Hs as [Hc Hs]. cbn [app strlen].
  rewrite decide_False by done. rewrite IH by done. cbn [mbind option_bind length]. f_equal. lia.
Qed.

(** [strcmp] of two strings returns the difference at the first place where
    they differ, zero exactly for equal strings. *)
Lemma strcmp_spec a b ra rb :
  0 ∉ a → 0 ∉ b → ∃ r, strcmp (a ++ 0 :: ra) (b ++ 0 :: rb) = Some r ∧ (r = 0 ↔ a = b).
Proof.
  revert b. induction a as [|x a IH]; intros b Ha Hb; destruct b as [|y b]; cbn [app strcmp].
  - eexists. rewrite decide_False by lia. done.
  - apply not_elem_of_cons in Hb as [Hy _]. eexists. rewrite decide_False by lia. split; [done|]. split; [lia|done].
  - apply not_elem_of_cons in Ha as [Hx _]. eexists. rewrite decide_False by lia. split; [done|]. split; [lia|done].
  - apply not_elem_of_cons in Ha as [Hx Ha]. apply not_elem_of_cons in Hb as [Hy Hb]. case_decide as Hxy.
    + destruct Hxy as [_ ->]. destruct (IH b Ha Hb) as (r & -> & Hr). exists r. split; [done|]. rewrite Hr. naive_solver.
    + eexists. split; [done|]. split; [intros; lia|]. intros [= -> ->]. lia.
Qed.

Lemma strncpy_bytes_spec s rest n :
  0 ∉ s → strncpy_bytes (s ++ 0 :: rest) n = Some (take n (s ++ replicate n 0)).
Proof.
  revert n. induction s as [|c s IH]; intros n Hs; destruct n as [|n]; try done; cbn [app strncpy_bytes].
  - rewrite decide_True by done. by rewrite take_ge by (rewrite length_replicate; lia).
  - apply not_elem_of_cons in Hs as [Hc Hs]. rewrite decide_False by done. rewrite IH by done. cbn [mbind option_bind take].
    do 2 f_equal.
    destruct (decide (n ≤ length s)%nat).
    + by rewrite !take_app_le by done.
    + rewrite !take_app_ge, !take_replicate by lia. do 2 f_equal. lia.
Qed.

Lemma store_bytes_spec dest i l :
  0 ≤ i → i + Z.of_nat (length l) ≤ Z.of_nat (length dest) → store_bytes dest i l = Some (splice dest i l).
Proof.
  revert dest i. induction l as [|x l IH]; intros dest i Hi Hl; cbn [store_bytes]; [by rewrite splice_nil|].
  cbn [length] in Hl. unfold arr_set. rewrite decide_True by lia. cbn [mbind option_bind].
  rewrite IH by (rewrite ?length_insert; lia). f_equal.
  change (x :: l) with ([x] ++ l). rewrite <- splice_splice by (simpl; lia). do 2 f_equal.
  apply list_eq. intros j. rewrite lookup_splice by (simpl; lia). cbn [length].
  destruct (decide (j = Z.to_nat i)) as [->|Hne].
  - rewrite list_lookup_insert_eq by lia. rewrite decide_True by lia. by rewrite Nat.sub_diag.
  - rewrite list_lookup_insert_ne by done. by rewrite decide_False by lia.
Qed.

(** [strncpy] stores exactly [n] bytes: the string, cut at [n] or padded
    with zeros, so the result is terminated exactly when it is shorter than
    [n]; bytes behind are unchanged. *)
Theorem strncpy_correct dest s rest n :
  0 ∉ s → (n ≤ length dest)%nat →
  strncpy dest (s ++ 0 :: rest) n = Some (take n (s ++ replicate n 0) ++ drop n dest).
Proof.
  intros Hs Hn. unfold strncpy. rewrite strncpy_bytes_spec by done. cbn [mbind option_bind].
  assert (length (take n (s ++ replicate n 0)) = n) as Hl by (rewrite length_take, length_app, length_replicate; lia).
  rewrite store_bytes_spec by lia. unfold splice. simpl Z.to_nat. by rewrite Hl, take_0.
Qed.
