(* ===== verification/Fat32.v ===== *)
(** The FAT32 driver: [src/src/fs/fat32/fat32.c] and [fat32.h].

    The block device is the class [BlockDev]: a device state whose sectors are
    lists of 512 bytes, with a read and a write that may report an error
    (blk.c hands sectors to the virtio device; what the disk does with them is
    the class's laws).  [vol] is the mounted volume.  All the driver's
    arithmetic is 32-bit and wraps.

    The driver follows cluster chains with unbounded loops; here they take
    [fuel], and [None] means that the loop did not end (a cyclic FAT) or that
    the C code would dereference NULL.  The theorems give the fuel that is
    enough: one more than the length of the chain. *)
From S2P Require Import Prelude Vnode.

Definition SECTOR : Z := 512.
Definition DIR_ENTRY_SIZE : Z := 32.
Definition ATTR_LFN : Z := 0x0F.
Definition ATTR_VOLUME_ID : Z := 0x08.
Definition ATTR_DIRECTORY : Z := 0x10.
Definition FAT32_EOC : Z := 0x0FFFFFF8.
Definition SPACE : Z := 32.

Record fat_vol := mk_vol {
  fat_start_sector : Z;
  data_start_sector : Z;
  sectors_per_cluster : Z;
  root_cluster : Z;
  bytes_per_cluster : Z;
}.

Class BlockDev (D : Type) := {
  (** [None] and [false] are the driver's EERROR. *)
  blk_read : D → Z → option (list Z);
  blk_write : D → Z → list Z → bool * D;
  (** The capacity in sectors and the contents. *)
  bd_cap : Z;
  bd_sector : D → Z → list Z;
  (** The device is working: no request within its capacity fails. *)
  bd_ok : D → Prop;
  bd_sector_length d s : length (bd_sector d s) = 512%nat;
  bd_read_ok d s : bd_ok d → 0 ≤ s < bd_cap → blk_read d s = Some (bd_sector d s);
  bd_write_ok d s l : bd_ok d → 0 ≤ s < bd_cap → length l = 512%nat →
    ∃ d', blk_write d s l = (true, d') ∧ bd_ok d' ∧ bd_sector d' s = l ∧
      ∀ s', s' ≠ s → bd_sector d' s' = bd_sector d s';
}.

Arguments bd_cap D {_}.

(** ** Bytes *)

Definition byte_at (l : list Z) (i : Z) : Z := default 0 (arr_get l i).

(** Little-endian fields, as [memcpy] to and from integers sees them. *)
Definition get16 (l : list Z) (o : Z) : Z := byte_at l o + 256 * byte_at l (o + 1).
Definition get32 (l : list Z) (o : Z) : Z :=
  byte_at l o + 2 ^ 8 * byte_at l (o + 1) + 2 ^ 16 * byte_at l (o + 2) + 2 ^ 24 * byte_at l (o + 3).
Definition le16 (x : Z) : list Z := [x mod 256; x / 2 ^ 8 mod 256].
Definition le32 (x : Z) : list Z := [x mod 256; x / 2 ^ 8 mod 256; x / 2 ^ 16 mod 256; x / 2 ^ 24 mod 256].

(** ** Short names *)

Definition upcase (c : Z) : Z := if decide (97 ≤ c ∧ c ≤ 122) then c - 32 else c.

(** Up to [n] bytes before a dot; the bytes and where the scan stopped. *)
Fixpoint take_base (n : nat) (name : list Z) : list Z * list Z :=
  match n, name with
  | S n', c :: name' =>
      if decide (c = DOT) then ([], name)
      else let '(a, b) := take_base n' name' in (upcase c :: a, b)
  | _, _ => ([], name)
  end.

Fixpoint skip_to_dot (name : list Z) : list Z :=
  match name with
  | c :: name' => if decide (c = DOT) then name else skip_to_dot name'
  | [] => []
  end.

Definition pad (n : nat) (l : list Z) : list Z := l ++ replicate (n - length l) SPACE.

Definition to_83 (name : list Z) : list Z :=
  let '(base, rest) := take_base 8 name in
  let rest := match skip_to_dot rest with c :: r => r | [] => [] end in
  pad 8 base ++ pad 3 (upcase <$> take 3 rest).

Fixpoint until_space (l : list Z) : list Z :=
  match l with
  | c :: l' => if decide (c = SPACE) then [] else c :: until_space l'
  | [] => []
  end.

Definition shortname_to_display (raw : list Z) : list Z :=
  until_space (take 8 raw) ++
  (if decide (byte_at raw 8 = SPACE) then [] else DOT :: until_space (take 3 (drop 8 raw))).

(** ** Directory entries, as the 32 bytes on disk *)

Definition de_name (e : list Z) : list Z := take 11 e.
Definition de_first (e : list Z) : Z := byte_at e 0.
Definition de_attr (e : list Z) : Z := byte_at e 11.
Definition de_cluster (e : list Z) : Z := Z.lor (Z.shiftl (get16 e 20) 16) (get16 e 26).
Definition de_fsize (e : list Z) : Z := get32 e 28.

Definition mk_dir_entry (name83 : list Z) (attr first_cluster len : Z) : list Z :=
  name83 ++ [attr] ++ replicate 8 0 ++ le16 (Z.shiftr first_cluster 16 mod 2 ^ 16) ++ replicate 4 0
    ++ le16 (Z.land first_cluster 0xFFFF) ++ le32 len.

Section Ops.
Context {D : Type} `{!BlockDev D}.
Context (v : fat_vol).

Definition cluster_to_sector (cluster : Z) : Z :=
  add32 (data_start_sector v) (mul32 (sub32 cluster 2) (sectors_per_cluster v)).

Definition fat_sector (cluster : Z) : Z := add32 (fat_start_sector v) (mul32 cluster 4 / SECTOR).
Definition fat_index (cluster : Z) : Z := mul32 cluster 4 mod SECTOR.

Definition fat_next (d : D) (cluster : Z) : Z :=
  match blk_read d (fat_sector cluster) with
  | None => FAT32_EOC
  | Some sec_buf => Z.land (get32 sec_buf (fat_index cluster)) 0x0FFFFFFF
  end.

Definition fat_write (d : D) (cluster value : Z) : bool * D :=
  match blk_read d (fat_sector cluster) with
  | None => (false, d)
  | Some sec_buf =>
      let existing := get32 sec_buf (fat_index cluster) in
      let value := Z.lor (Z.land existing 0xF0000000) (Z.land value 0x0FFFFFFF) in
      blk_write d (fat_sector cluster) (splice sec_buf (fat_index cluster) (le32 value))
  end.

(** The scan from cluster [c]; 0 is failure. *)
Fixpoint fat_alloc_from (d : D) (c : Z) (fuel : nat) : option (Z * D) :=
  match fuel with
  | O => None
  | S f =>
      if decide (data_start_sector v ≤ fat_sector c) then Some (0, d)
      else match blk_read d (fat_sector c) with
      | None => Some (0, d)
      | Some sec_buf =>
          if decide (Z.land (get32 sec_buf (fat_index c)) 0x0FFFFFFF = 0) then
            let '(ok, d') := fat_write d c 0x0FFFFFFF in
            Some (if (ok : bool) then c else 0, d')
          else fat_alloc_from d (c + 1) f
      end
  end.

(** Every FAT sector holds 128 entries. *)
Definition alloc_fuel : nat := Z.to_nat ((data_start_sector v - fat_start_sector v) * 128 + 1).
Definition fat_alloc_cluster (d : D) : option (Z * D) := fat_alloc_from d 2 alloc_fuel.

(** *** Walking directories *)

(** What one slot tells a directory scan. *)
Inductive scan (A : Type) := Hit (a : A) | Stop | Next.
Arguments Hit {A}.
Arguments Stop {A}.
Arguments Next {A}.

(** [for off]: [n] entries of a sector from byte [off]. *)
Fixpoint scan_entries {A} (f : list Z → scan A) (sec_buf : list Z) (off : Z) (n : nat) : scan A :=
  match n with
  | O => Next
  | S n' =>
      match f (slice sec_buf off DIR_ENTRY_SIZE) with
      | Next => scan_entries f sec_buf (off + DIR_ENTRY_SIZE) n'
      | r => r
      end
  end.

(** [for s]: [n] sectors of a cluster from [base + s]. *)
Fixpoint scan_sectors {A} (f : list Z → scan A) (d : D) (base s : Z) (n : nat) : scan A :=
  match n with
  | O => Next
  | S n' =>
      match blk_read d (add32 base s) with
      | None => Stop
      | Some sec_buf =>
          match scan_entries f sec_buf 0 16 with
          | Next => scan_sectors f d base (s + 1) n'
          | r => r
          end
      end
  end.

(** [while (cluster < FAT32_EOC)]; the inner [None] is EERROR. *)
Fixpoint scan_dir {A} (f : list Z → scan A) (d : D) (cluster : Z) (fuel : nat) : option (option A) :=
  if decide (FAT32_EOC ≤ cluster) then Some None
  else match fuel with
  | O => None
  | S fu =>
      match scan_sectors f d (cluster_to_sector cluster) 0 (Z.to_nat (sectors_per_cluster v)) with
      | Hit a => Some (Some a)
      | Stop => Some None
      | Next => scan_dir f d (fat_next d cluster) fu
      end
  end.

Definition lookup_slot (target : list Z) (e : list Z) : scan (Z * Z * Z) :=
  if decide (de_first e = 0) then Stop
  else if decide (de_first e = 0xE5) then Next
  else if decide (de_attr e = ATTR_LFN) then Next
  else if decide (Z.land (de_attr e) ATTR_VOLUME_ID ≠ 0) then Next
  else if decide (de_name e = target) then Hit (de_cluster e, de_fsize e, de_attr e)
  else Next.

Definition dir_lookup (fuel : nat) (d : D) (dir_cluster : Z) (target : list Z) : option (option (Z * Z * Z)) :=
  scan_dir (lookup_slot target) d dir_cluster fuel.

Definition fat32_lookup_in_dir (fuel : nat) (d : D) (dir_cluster : Z) (name : list Z) :
    option (option (Z * Z * bool)) :=
  r ← dir_lookup fuel d dir_cluster (to_83 name);
  Some ('(cluster, size, attr) ← r; Some (cluster, size, bool_decide (Z.land attr ATTR_DIRECTORY ≠ 0))).

Definition fat32_root_cluster : Z := root_cluster v.

(** The component loop of [fat32_find]; [path] starts at a component.
    [has_size] says whether the caller passed a non-NULL [out_size]. *)
Fixpoint find_loop (fuel : nat) (d : D) (cur : Z) (path : list Z) (has_size : bool) (n : nat) :
    option (option (Z * Z)) :=
  match n with
  | O => None
  | S n' =>
      match path with
      | [] => Some None
      | _ =>
          let '(seg, rest) := span_component path in
          let rest := skip_slashes rest in
          r ← dir_lookup fuel d cur (to_83 (take 12 seg));
          match r with
          | None => Some None
          | Some (cluster, size, attr) =>
              match rest with
              | _ :: _ =>
                  if decide (Z.land attr ATTR_DIRECTORY = 0) then Some None
                  else find_loop fuel d cluster rest has_size n'
              | [] => if has_size then Some (Some (cluster, size)) else None
              end
          end
      end
  end.

Definition fat32_find (fuel : nat) (d : D) (path : list Z) (has_size : bool) : option (option (Z * Z)) :=
  let path := skip_slashes path in
  find_loop fuel d (root_cluster v) path has_size (S (length path)).
End Ops.
Arguments Hit {A}.
Arguments Stop {A}.
Arguments Next {A}.

(** ** Writing, reading, creating *)

Section FileOps.
Context {D : Type} `{!BlockDev D}.
Context (v : fat_vol).

(** The first sector slot whose entry satisfies [f] gets [upd] applied and the
    sector is written back: the common shape of [dir_add_entry] and
    [fat32_truncate_path].  [None]: not in this sector. *)
Fixpoint update_entry (f : list Z → bool) (upd : list Z → list Z) (sec_buf : list Z) (off : Z) (n : nat) :
    option (list Z) :=
  match n with
  | O => None
  | S n' =>
      let e := slice sec_buf off DIR_ENTRY_SIZE in
      if f e then Some (splice sec_buf off (upd e))
      else update_entry f upd sec_buf (off + DIR_ENTRY_SIZE) n'
  end.

(** [Some ok] when the scan is over. *)
Fixpoint update_sectors (f : list Z → bool) (upd : list Z → list Z) (d : D) (base s : Z) (n : nat) :
    option bool * D :=
  match n with
  | O => (None, d)
  | S n' =>
      match blk_read d (add32 base s) with
      | None => (Some false, d)
      | Some sec_buf =>
          match update_entry f upd sec_buf 0 16 with
          | Some sec_buf' => let '(ok, d') := blk_write d (add32 base s) sec_buf' in (Some ok, d')
          | None => update_sectors f upd d base (s + 1) n'
          end
      end
  end.

Fixpoint update_dir (f : list Z → bool) (upd : list Z → list Z) (d : D) (cluster : Z) (fuel : nat) :
    option (bool * D) :=
  if decide (FAT32_EOC ≤ cluster) then Some (false, d)
  else match fuel with
  | O => None
  | S fu =>
      match update_sectors f upd d (cluster_to_sector v cluster) 0 (Z.to_nat (sectors_per_cluster v)) with
      | (Some ok, d') => Some (ok, d')
      | (None, d') => update_dir f upd d' (fat_next v d' cluster) fu
      end
  end.

Definition dir_add_entry (fuel : nat) (d : D) (dir_cluster : Z) (entry : list Z) : option (bool * D) :=
  update_dir (λ e, bool_decide (de_first e = 0 ∨ de_first e = 0xE5)) (λ _, entry) d dir_cluster fuel.

(** *** Data *)

(** [for s] of [cluster_write_data]: sectors [s..] while bytes remain; what is
    left of [src], [None] on EERROR. *)
Fixpoint write_sectors (d : D) (base s : Z) (n : nat) (src : list Z) : option (list Z) * D :=
  match n, src with
  | O, _ | _, [] => (Some src, d)
  | S n', _ =>
      let chunk := take 512 src in
      let '(ok, d') := blk_write d (add32 base s) (chunk ++ replicate (512 - length chunk) 0) in
      if (ok : bool) then write_sectors d' base (s + 1) n' (drop 512 src) else (None, d')
  end.

Fixpoint cluster_write_data (fuel : nat) (d : D) (cluster : Z) (src : list Z) : option (bool * D) :=
  if decide (src = [] ∨ FAT32_EOC ≤ cluster) then Some (true, d)
  else match fuel with
  | O => None
  | S fu =>
      match write_sectors d (cluster_to_sector v cluster) 0 (Z.to_nat (sectors_per_cluster v)) src with
      | (None, d') => Some (false, d')
      | (Some src', d') => cluster_write_data fu d' (fat_next v d' cluster) src'
      end
  end.

(** [for s] of [fat32_read]: the bytes collected and the number remaining. *)
Fixpoint read_sectors (d : D) (base s : Z) (n : nat) (out : list Z) (remaining : Z) : option (list Z * Z) :=
  match n with
  | O => Some (out, remaining)
  | S n' =>
      if decide (remaining ≤ 0) then Some (out, remaining)
      else
        sec_buf ← blk_read d (add32 base s);
        let chunk := if decide (remaining < SECTOR) then remaining else SECTOR in
        read_sectors d base (s + 1) n' (out ++ take (Z.to_nat chunk) sec_buf) (remaining - chunk)
  end.

Fixpoint read_loop (fuel : nat) (d : D) (cluster : Z) (out : list Z) (remaining : Z) :
    option (option (list Z * Z)) :=
  if decide (remaining ≤ 0 ∨ FAT32_EOC ≤ cluster) then Some (Some (out, remaining))
  else match fuel with
  | O => None
  | S fu =>
      match read_sectors d (cluster_to_sector v cluster) 0 (Z.to_nat (sectors_per_cluster v)) out remaining with
      | None => Some None
      | Some (out', remaining') => read_loop fu d (fat_next v d cluster) out' remaining'
      end
  end.

(** Result code and the bytes stored in [buf]. *)
Definition fat32_read (fuel : nat) (d : D) (first_cluster size buf_len : Z) : option (Z * list Z) :=
  let size := if decide (buf_len < size) then buf_len else size in
  r ← read_loop fuel d first_cluster [] size;
  Some (match r with
        | None => (-1, [])
        | Some (out, remaining) => (to_int (size - remaining), out)
        end).

(** *** Growing chains *)

Fixpoint extend_loop (d : D) (first_new cur : Z) (count : nat) : option (Z * D) :=
  match count with
  | O =>
      if decide (first_new ≠ 0) then Some (first_new, snd (fat_write v d cur FAT32_EOC))
      else Some (first_new, d)
  | S n =>
      '(nc, d1) ← fat_alloc_cluster v d;
      if decide (nc = 0) then Some (first_new, d1)
      else
        let '(ok, d2) := fat_write v d1 cur nc in
        if (ok : bool) then extend_loop d2 (if decide (first_new = 0) then nc else first_new) nc n
        else Some (first_new, d2)
  end.
Definition fat_extend_chain (d : D) (last : Z) (count : nat) : option (Z * D) := extend_loop d 0 last count.

(** [want] steps along the chain from [cluster]; the inner [None] is EERROR. *)
Fixpoint seek_loop (d : D) (cluster : Z) (create : bool) (want : nat) : option (option Z * D) :=
  match want with
  | O => Some (Some cluster, d)
  | S n =>
      let next := fat_next v d cluster in
      if decide (FAT32_EOC ≤ next) then
        if negb create then Some (None, d)
        else
          '(chain_grown, d') ← fat_extend_chain d cluster 1;
          if decide (chain_grown = 0) then Some (None, d') else seek_loop d' chain_grown create n
      else seek_loop d next create n
  end.

(** Cluster and offset within it.  A volume with zero sectors per cluster
    divides by zero. *)
Definition fat_seek_cluster (d : D) (first_cluster offset : Z) (create : bool) : option (option (Z * Z) * D) :=
  let bpc := mul32 (sectors_per_cluster v) SECTOR in
  if decide (bpc = 0) then None
  else
    match seek_loop d first_cluster create (Z.to_nat (offset / bpc)) with
    | None => None
    | Some (None, d') => Some (None, d')
    | Some (Some c, d') => Some (Some (c, offset mod bpc), d')
    end.

(** The inner loop of [fat32_write_at]: sector by sector to the end of the
    cluster.  What is left of [src]; [None] is EERROR. *)
Fixpoint write_inner (d : D) (base inner : Z) (src : list Z) (n : nat) : option (list Z) * D :=
  match n with
  | O => (Some src, d)
  | S n' =>
      if decide (mul32 (sectors_per_cluster v) SECTOR ≤ inner ∨ src = []) then (Some src, d)
      else
        let sector := add32 base (inner / SECTOR) in
        let inner_off := inner mod SECTOR in
        let chunk := Z.min (SECTOR - inner_off) (Z.of_nat (length src)) in
        let data := take (Z.to_nat chunk) src in
        match (if decide (inner_off ≠ 0 ∨ chunk ≠ SECTOR)
               then b ← blk_read d sector; Some (splice b inner_off data) else Some data) with
        | None => (None, d)
        | Some sec_buf =>
            let '(ok, d') := blk_write d sector sec_buf in
            if (ok : bool) then write_inner d' base (inner + chunk) (drop (Z.to_nat chunk) src) n' else (None, d')
        end
  end.

(** The outer loop; [n] clusters at most.  Result: [*out_new_size] or EERROR. *)
Fixpoint write_loop (d : D) (first_cluster offset : Z) (src : list Z) (n : nat) : option (option Z * D) :=
  match src with
  | [] => Some (Some offset, d)
  | _ =>
      match n with
      | O => None
      | S n' =>
          '(r, d1) ← fat_seek_cluster d first_cluster offset true;
          match r with
          | None => Some (None, d1)
          | Some (cluster, inner) =>
              match write_inner d1 (cluster_to_sector v cluster) inner src (Z.to_nat (sectors_per_cluster v)) with
              | (None, d2) => Some (None, d2)
              | (Some src', d2) =>
                  write_loop d2 first_cluster
                    (add32 offset (Z.of_nat (length src) - Z.of_nat (length src'))) src' n'
              end
          end
      end
  end.

(** Each round of the outer loop writes at least one byte. *)
Definition fat32_write_at (d : D) (first_cluster offset : Z) (data : list Z) : option (option Z * D) :=
  if decide (first_cluster = 0) then Some (None, d)
  else write_loop d first_cluster offset data (length data).

(** *** Paths *)

(** The bytes before and after the last slash. *)
Fixpoint split_last (path : list Z) : option (list Z * list Z) :=
  match path with
  | [] => None
  | c :: p =>
      match split_last p with
      | Some (a, b) => Some (c :: a, b)
      | None => if decide (c = SLASH) then Some ([], p) else None
      end
  end.

(** The parent walk of [fat32_create]; the inner [None] is EERROR. *)
Fixpoint create_walk (fuel : nat) (d : D) (dir_cluster : Z) (walk : list Z) (n : nat) : option (option Z) :=
  match walk with
  | [] => Some (Some dir_cluster)
  | _ =>
      match n with
      | O => None
      | S n' =>
          let '(seg, rest) := span_component walk in
          r ← dir_lookup v fuel d dir_cluster (to_83 (take 12 seg));
          match r with
          | None => Some None
          | Some (cluster, _, attr) =>
              if decide (Z.land attr ATTR_DIRECTORY = 0) then Some None
              else create_walk fuel d cluster (skip_slashes rest) n'
          end
      end
  end.

(** The allocation loop: first and previous cluster so far. *)
Fixpoint create_chain_loop (d : D) (first_cluster prev_cluster : Z) (n : nat) : option (option Z * D) :=
  match n with
  | O => Some (Some first_cluster, d)
  | S n' =>
      '(c, d1) ← fat_alloc_cluster v d;
      if decide (c = 0) then Some (None, d1)
      else
        let '(ok, d2) := if decide (prev_cluster ≠ 0) then fat_write v d1 prev_cluster c else (true, d1) in
        if (ok : bool)
        then create_chain_loop d2 (if decide (prev_cluster = 0) then c else first_cluster) c n'
        else Some (None, d2)
  end.

(** Division by zero is undefined. *)
Definition clusters_needed (len : Z) : option Z :=
  if decide (len = 0) then Some 1
  else if decide (bytes_per_cluster v = 0) then None
  else Some (sub32 (add32 len (bytes_per_cluster v)) 1 / bytes_per_cluster v).

Definition fat32_create (fuel : nat) (d : D) (path data : list Z) : option (bool * D) :=
  let p := skip_slashes path in
  let '(dirpart, fname) := match split_last p with Some (a, b) => (a, b) | None => ([], p) end in
  dir ← create_walk fuel d (root_cluster v) dirpart (S (length dirpart));
  match dir with
  | None => Some (false, d)
  | Some dir_cluster =>
      let len := Z.of_nat (length data) in
      needed ← clusters_needed len;
      '(first, d1) ← create_chain_loop d 0 0 (Z.to_nat needed);
      match first with
      | None => Some (false, d1)
      | Some first_cluster =>
          '(ok, d2) ← (if decide (0 < len ∧ first_cluster ≠ 0) then cluster_write_data fuel d1 first_cluster data
                       else Some (true, d1));
          if negb ok then Some (false, d2)
          else dir_add_entry fuel d2 dir_cluster
                 (mk_dir_entry (to_83 (take 12 fname)) 0x20 first_cluster len)
      end
  end.

Definition truncate_match (target e : list Z) : bool :=
  bool_decide (de_first e ≠ 0 ∧ de_first e ≠ 0xE5 ∧ de_attr e ≠ ATTR_LFN ∧ de_name e = target).

(** The directory of the file; [fat32_find] is called with a NULL [out_size]. *)
Definition truncate_dir (fuel : nat) (d : D) (dirpath : list Z) : option (option Z) :=
  match dirpath with
  | [] => Some (Some (root_cluster v))
  | _ =>
      match fat32_find v fuel d dirpath false with
      | None => None
      | Some None => Some None
      | Some (Some (c, _)) => Some (Some c)
      end
  end.

(** Offset 28 is the size field. *)
Definition fat32_truncate_path (fuel : nat) (d : D) (path : list Z) (new_size : Z) : option (bool * D) :=
  let path := skip_slashes path in
  let '(dirpath, base) := match split_last path with Some (a, b) => (a, b) | None => ([], path) end in
  if decide (256 ≤ length dirpath)%nat then Some (false, d)
  else if decide (13 ≤ length base)%nat then Some (false, d)
  else
    dir ← truncate_dir fuel d dirpath;
    match dir with
    | None => Some (false, d)
    | Some dir_cluster =>
        update_dir (truncate_match (to_83 base)) (λ e, splice e 28 (le32 new_size)) d dir_cluster fuel
    end.
End FileOps.

(** ** Mounting and iterating *)

(** The boot sector's fields at their offsets in [struct bpb]. *)
Definition fat32_mount {D} `{!BlockDev D} (d : D) : option fat_vol :=
  b ← blk_read d 0;
  if decide (get16 b 11 ≠ SECTOR) then None
  else if decide (get16 b 22 ≠ 0 ∨ get16 b 17 ≠ 0) then None
  else Some (mk_vol (get16 b 14) (add32 (get16 b 14) (mul32 (byte_at b 16) (get32 b 36)))
               (byte_at b 13) (get32 b 44) (mul32 (byte_at b 13) SECTOR)).

Record fat_dirent := mk_fat_dirent {
  fd_name : list Z;
  fd_fsize : Z;
  fd_first_cluster : Z;
  fd_attr : Z;
  fd_is_dir : bool;
}.

Definition dirent_synth (name : list Z) (cluster : Z) : fat_dirent :=
  mk_fat_dirent name 0 cluster ATTR_DIRECTORY true.

Definition dirent_of_entry (e : list Z) : fat_dirent :=
  mk_fat_dirent (shortname_to_display (de_name e)) (de_fsize e) (de_cluster e) (de_attr e)
    (bool_decide (Z.land (de_attr e) ATTR_DIRECTORY ≠ 0)).

Section Iterate.
Context {D : Type} `{!BlockDev D}.
Context (v : fat_vol).

(** One slot at or after [start]: an entry, the end, or skipped. *)
Definition iter_slot (e : list Z) : scan fat_dirent :=
  if decide (de_first e = 0) then Stop
  else if decide (de_first e = 0xE5) then Next
  else if decide (de_attr e = ATTR_LFN) then Next
  else if decide (Z.land (de_attr e) ATTR_VOLUME_ID ≠ 0) then Next
  else Hit (dirent_of_entry e).

(** The entry loop: the result (an entry or the end) with the new cookie. *)
Fixpoint iter_entries (start this_slot : Z) (sec_buf : list Z) (off : Z) (n : nat) :
    option (option fat_dirent * Z) :=
  match n with
  | O => None
  | S n' =>
      if decide (this_slot < start) then iter_entries start (this_slot + 1) sec_buf (off + DIR_ENTRY_SIZE) n'
      else match iter_slot (slice sec_buf off DIR_ENTRY_SIZE) with
           | Hit e => Some (Some e, this_slot + 1)
           | Stop => Some (None, this_slot)
           | Next => iter_entries start (this_slot + 1) sec_buf (off + DIR_ENTRY_SIZE) n'
           end
  end.

Fixpoint iter_sectors (d : D) (start slot base s : Z) (n : nat) : option (option fat_dirent * Z) :=
  match n with
  | O => None
  | S n' =>
      let sec_first := slot + s * 16 in
      if decide (sec_first + 16 ≤ start) then iter_sectors d start slot base (s + 1) n'
      else match blk_read d (add32 base s) with
           | None => Some (None, sec_first)
           | Some sec_buf =>
               match iter_entries start sec_first sec_buf 0 16 with
               | Some r => Some r
               | None => iter_sectors d start slot base (s + 1) n'
               end
           end
  end.

Fixpoint iter_clusters (d : D) (start slot cluster : Z) (fuel : nat) : option (option fat_dirent * Z) :=
  if decide (FAT32_EOC ≤ cluster) then Some (None, slot)
  else match fuel with
  | O => None
  | S f =>
      match iter_sectors d start slot (cluster_to_sector v cluster) 0 (Z.to_nat (sectors_per_cluster v)) with
      | Some r => Some r
      | None => iter_clusters d start (slot + sectors_per_cluster v * 16) (fat_next v d cluster) f
      end
  end.

(** The entry ([None] is EERROR) and the new [*io_offset]. *)
Definition fat32_dir_iterate (fuel : nat) (d : D) (dir_cluster io_offset : Z) : option (option fat_dirent * Z) :=
  let at_root := bool_decide (dir_cluster = fat32_root_cluster v) in
  if at_root && bool_decide (io_offset = 0) then Some (Some (dirent_synth [DOT] dir_cluster), 1)
  else if at_root && bool_decide (io_offset = 1) then Some (Some (dirent_synth [DOT; DOT] dir_cluster), 2)
  else
    let base := if at_root then 2 else 0 in
    let start := if decide (io_offset < base) then base else io_offset in
    iter_clusters d start 0 dir_cluster fuel.
End Iterate.

(** ** Bytes of spliced buffers *)

(** Reading a byte of a spliced buffer. *)
Lemma byte_splice l o data i :
  0 ≤ o → (Z.to_nat o + length data ≤ length l)%nat → 0 ≤ i →
  byte_at (splice l o data) i =
    if decide (o ≤ i < o + Z.of_nat (length data)) then byte_at data (i - o) else byte_at l i.
Proof.
  intros Ho Hl Hi. unfold byte_at, arr_get, splice. rewrite !(decide_True (P := 0 ≤ i)) by done.
  assert (length (take (Z.to_nat o) l) = Z.to_nat o) as Ht by (rewrite length_take; lia).
  case_decide as Hin.
  - rewrite decide_True by lia. rewrite lookup_app_r, lookup_app_l by lia. do 2 f_equal. lia.
  - destruct (decide (i < o)).
    + rewrite lookup_app_l, lookup_take_lt by lia. done.
    + rewrite lookup_app_r, lookup_app_r, lookup_drop by lia. do 2 f_equal. lia.
Qed.

Lemma get32_le32 x : is_u32 x → get32 (le32 x) 0 = x.
Proof. unfold is_u32, get32, le32, byte_at. simpl. intros H. dlia. Qed.

Lemma get32_splice_eq l o x :
  0 ≤ o → (Z.to_nat o + 4 ≤ length l)%nat → is_u32 x → get32 (splice l o (le32 x)) o = x.
Proof.
  intros Ho Hl Hx. rewrite <- (get32_le32 x Hx) at 2. unfold get32.
  rewrite !byte_splice by (simpl; lia). simpl length.
  rewrite !decide_True by lia. repeat f_equal; lia.
Qed.

Lemma get32_splice_ne l o x o' :
  0 ≤ o → (Z.to_nat o + 4 ≤ length l)%nat → 0 ≤ o' → o' + 4 ≤ o ∨ o + 4 ≤ o' →
  get32 (splice l o (le32 x)) o' = get32 l o'.
Proof.
  intros Ho Hl Ho' Hd. unfold get32. rewrite !byte_splice by (simpl; lia). simpl length.
  by rewrite !decide_False by lia.
Qed.

(** ** The FAT *)

Section Fat.
Context {D : Type} `{!BlockDev D}.
Context (v : fat_vol).
Implicit Types d : D.

(** The geometry a mounted volume has: nothing wraps. *)
Record vol_ok : Prop := {
  vo_fat : 0 ≤ fat_start_sector v < 2 ^ 16;
  vo_data : fat_start_sector v ≤ data_start_sector v ≤ bd_cap D;
  vo_cap : bd_cap D ≤ 2 ^ 32;
  vo_spc : 0 < sectors_per_cluster v < 256;
  vo_bpc : bytes_per_cluster v = sectors_per_cluster v * 512;
}.

(** A number whose entry lies in the FAT area. *)
Definition in_fat (c : Z) : Prop :=
  0 ≤ c < FAT32_EOC ∧ fat_start_sector v + c / 128 < data_start_sector v.

(** A cluster number whose FAT entry and whose data lie on the volume. *)
Definition cluster_ok (c : Z) : Prop :=
  2 ≤ c ∧ in_fat c ∧ data_start_sector v + (c - 1) * sectors_per_cluster v ≤ bd_cap D.

(** The 32-bit FAT entry of a cluster. *)
Definition fat_entry d (c : Z) : Z := get32 (bd_sector d (fat_sector v c)) (fat_index c).

Lemma fat_sector_eq c : vol_ok → 0 ≤ c < FAT32_EOC →
  fat_sector v c = fat_start_sector v + c / 128 ∧ fat_index c = 4 * (c mod 128).
Proof.
  intros [] Hc. unfold fat_sector, fat_index, mul32, add32, SECTOR, FAT32_EOC in *.
  rewrite (wrap32_small (c * 4)) by lia. rewrite wrap32_small by dlia. split; dlia.
Qed.

Lemma fat_sector_cap c : vol_ok → in_fat c → 0 ≤ fat_sector v c < bd_cap D.
Proof.
  intros Hv [Hc Hin]. destruct (fat_sector_eq c Hv Hc) as [-> _]. destruct Hv. dlia.
Qed.

Lemma fat_next_entry d c : vol_ok → bd_ok d → in_fat c → fat_next v d c = Z.land (fat_entry d c) 0x0FFFFFFF.
Proof. intros Hv Hd Hc. unfold fat_next. by rewrite bd_read_ok by (done || by apply fat_sector_cap). Qed.

(** The value [fat_write] stores. *)
Definition fat_merge (existing value : Z) : Z :=
  Z.lor (Z.land existing 0xF0000000) (Z.land value 0x0FFFFFFF).

Lemma land_u32 x m : 0 ≤ m < 2 ^ 32 → is_u32 (Z.land x m).
Proof.
  intros Hm. unfold is_u32. assert (Z.land x m = Z.land x m mod 2 ^ 32) as ->; [|by apply Z.mod_pos_bound].
  apply Z.bits_inj'. intros n Hn. destruct (decide (n < 32)).
  - by rewrite Z.mod_pow2_bits_low by lia.
  - rewrite Z.mod_pow2_bits_high, Z.land_spec, (testbit_high m 32), andb_false_r by lia. done.
Qed.

Lemma fat_merge_spec existing value :
  is_u32 (fat_merge existing value) ∧
  Z.land (fat_merge existing value) 0x0FFFFFFF = Z.land value 0x0FFFFFFF ∧
  Z.land (fat_merge existing value) 0xF0000000 = Z.land existing 0xF0000000.
Proof.
  unfold fat_merge. rewrite !Z.land_lor_distr_l, <- !Z.land_assoc.
  change (Z.land 0xF0000000 0x0FFFFFFF) with 0. change (Z.land 0x0FFFFFFF 0xF0000000) with 0.
  change (Z.land 0x0FFFFFFF 0x0FFFFFFF) with 0x0FFFFFFF. change (Z.land 0xF0000000 0xF0000000) with 0xF0000000.
  rewrite !Z.land_0_r, Z.lor_0_l, Z.lor_0_r. split; [|done].
  pose proof (land_u32 existing 0xF0000000 ltac:(lia)) as [? ?].
  pose proof (land_u32 value 0x0FFFFFFF ltac:(lia)) as [? ?].
  split; [apply Z.lor_nonneg; lia|]. set (a := Z.land existing _) in *. set (b := Z.land value _) in *.
  destruct (decide (Z.lor a b = 0)) as [->|]; [lia|].
  apply Z.log2_lt_pow2; [pose proof (proj2 (Z.lor_nonneg a b)); lia|]. rewrite Z.log2_lor by lia.
  apply Z.max_lub_lt; (destruct (decide (a = 0)), (decide (b = 0)); subst; simpl;
    try (apply Z.log2_lt_pow2; lia); try lia).
  all: rewrite ?e, ?e0; simpl; lia.
Qed.

(** What a FAT update does to the disk. *)
Record fat_updated d c value d' : Prop := {
  fu_ok : bd_ok d';
  fu_next : fat_next v d' c = Z.land value 0x0FFFFFFF;
  fu_reserved : Z.land (fat_entry d' c) 0xF0000000 = Z.land (fat_entry d c) 0xF0000000;
  fu_others c' : 0 ≤ c' < FAT32_EOC → c' ≠ c → fat_entry d' c' = fat_entry d c';
  fu_data s : s ≠ fat_start_sector v + c / 128 → bd_sector d' s = bd_sector d s;
}.

Lemma fat_write_spec d c value :
  vol_ok → bd_ok d → in_fat c → ∃ d', fat_write v d c value = (true, d') ∧ fat_updated d c value d'.
Proof.
  intros Hv Hd Hc. pose proof (fat_sector_cap c Hv Hc) as Hcap.
  destruct (fat_sector_eq c Hv (proj1 Hc)) as [Es Ei]. unfold fat_write. rewrite bd_read_ok by done.
  fold (fat_entry d c). fold (fat_merge (fat_entry d c) value).
  destruct (fat_merge_spec (fat_entry d c) value) as (Hu & Hlo & Hhi).
  set (x := fat_merge (fat_entry d c) value) in *.
  assert (0 ≤ fat_index c ∧ (Z.to_nat (fat_index c) + 4 ≤ length (bd_sector d (fat_sector v c)))%nat) as [Hi Hil].
  { rewrite bd_sector_length, Ei. dlia. }
  destruct (bd_write_ok d (fat_sector v c) (splice (bd_sector d (fat_sector v c)) (fat_index c) (le32 x)) Hd Hcap)
    as (d' & -> & Hd' & Hs & Ho).
  { by rewrite splice_length, bd_sector_length. }
  exists d'. split; [done|].
  assert (fat_entry d' c = x) as Hx by (unfold fat_entry; rewrite Hs; by apply get32_splice_eq).
  constructor; [done|..].
  - by rewrite fat_next_entry, Hx.
  - by rewrite Hx.
  - intros c' Hc' Hne. destruct (fat_sector_eq c' Hv Hc') as [Es' Ei']. unfold fat_entry.
    destruct (decide (fat_sector v c' = fat_sector v c)) as [E|Hns]; [|by rewrite Ho].
    rewrite E, Hs. apply get32_splice_ne; try done; [rewrite Ei'; dlia|]. rewrite Ei, Ei', Es, Es' in *. dlia.
  - intros s Hs'. apply Ho. by rewrite Es.
Qed.

(** *** Allocation *)

Lemma fat_alloc_from_spec d c fuel :
  vol_ok → bd_ok d → 2 ≤ c → (data_start_sector v - fat_start_sector v) * 128 ≤ FAT32_EOC - 1 →
  (data_start_sector v - fat_start_sector v) * 128 - c < Z.of_nat fuel → c ≤ (data_start_sector v - fat_start_sector v) * 128 →
  ∃ r d', fat_alloc_from v d c fuel = Some (r, d') ∧
    ((r = 0 ∧ d' = d ∧ ∀ x, c ≤ x → fat_start_sector v + x / 128 < data_start_sector v → Z.land (fat_entry d x) 0x0FFFFFFF ≠ 0) ∨
     (c ≤ r ∧ fat_start_sector v + r / 128 < data_start_sector v ∧ Z.land (fat_entry d r) 0x0FFFFFFF = 0 ∧
      (∀ x, c ≤ x < r → Z.land (fat_entry d x) 0x0FFFFFFF ≠ 0) ∧ fat_updated d r 0x0FFFFFFF d')).
Proof.
  intros Hv Hd. revert c. induction fuel as [|f IH]; intros c Hc Hsz Hf Hcle; [lia|]. cbn [fat_alloc_from].
  destruct (decide (c = (data_start_sector v - fat_start_sector v) * 128)) as [Heq|Hne].
  - assert (data_start_sector v ≤ fat_sector v c) as Hge.
    { destruct (fat_sector_eq c Hv) as [-> _]; [unfold FAT32_EOC in *; lia|]. subst c. rewrite Z.div_mul by lia. lia. }
    rewrite decide_True by done. exists 0, d. split; [done|]. left. split; [done|]. split; [done|].
    intros x Hx Hlt. exfalso. subst c. dlia.
  - destruct (fat_sector_eq c Hv) as [Es Ei]; [unfold FAT32_EOC in *; lia|].
    assert (fat_start_sector v + c / 128 < data_start_sector v) as Hin by dlia.
    rewrite decide_False by lia. assert (in_fat c) as Hcf by (split; [unfold FAT32_EOC in *; lia|done]).
    rewrite bd_read_ok by (done || by apply fat_sector_cap). fold (fat_entry d c). case_decide as Hz.
    + destruct (fat_write_spec d c 0x0FFFFFFF Hv Hd Hcf) as (d' & -> & Hu).
      exists c, d'. split; [done|]. right. split; [lia|]. split; [done|]. split; [done|]. split; [|done]. intros x ?. lia.
    + destruct (IH (c + 1)) as (r & d' & -> & Hr); [lia|done|lia|lia|]. exists r, d'. split; [done|].
      destruct Hr as [(-> & -> & Hall)|(Hle & Hlt & Hfree & Hall & Hu)]; [left|right].
      * split; [done|]. split; [done|]. intros x Hx Hxl. destruct (decide (x = c)) as [->|]; [done|].
        apply Hall; [lia|done].
      * split; [lia|]. split; [done|]. split; [done|]. split; [|done].
        intros x Hx. destruct (decide (x = c)) as [->|]; [done|]. apply Hall. lia.
Qed.

(** Cluster allocation: on a working device [fat_alloc_cluster] ends
    within the size of the FAT area.  It returns 0, changing nothing, exactly
    when no entry of the area is free; otherwise it returns the lowest free
    cluster number from 2 on, now marked end-of-chain, and no other entry and
    no data sector has changed. *)
Theorem fat_alloc_cluster_correct d :
  vol_ok → bd_ok d → fat_start_sector v < data_start_sector v →
  (data_start_sector v - fat_start_sector v) * 128 ≤ FAT32_EOC - 1 →
  ∃ r d', fat_alloc_cluster v d = Some (r, d') ∧
    ((r = 0 ∧ d' = d ∧ ∀ x, 2 ≤ x → in_fat x → fat_next v d x ≠ 0) ∨
     (2 ≤ r ∧ in_fat r ∧ fat_next v d r = 0 ∧
      (∀ x, 2 ≤ x < r → fat_next v d x ≠ 0) ∧ fat_next v d' r = 0x0FFFFFFF ∧
      (∀ x, in_fat x → x ≠ r → fat_next v d' x = fat_next v d x) ∧
      ∀ s, data_start_sector v ≤ s → bd_sector d' s = bd_sector d s)).
Proof.
  intros Hv Hd Hlt Hsz. unfold fat_alloc_cluster, alloc_fuel.
  destruct (fat_alloc_from_spec d 2 (Z.to_nat ((data_start_sector v - fat_start_sector v) * 128 + 1)) Hv Hd)
    as (r & d' & -> & Hr); [lia..|]. exists r, d'. split; [done|].
  destruct Hr as [(-> & -> & Hall)|(Hle & Hrl & Hfree & Hall & [Hok Hn _ Ho Hs])]; [left|right].
  - split; [done|]. split; [done|]. intros x Hx Hxl. rewrite fat_next_entry by done. by apply Hall, Hxl.
  - assert (∀ x, 2 ≤ x ≤ r → in_fat x) as Hin.
    { intros x Hx. unfold in_fat, FAT32_EOC in *. dlia. }
    split; [done|]. split; [apply Hin; lia|]. rewrite fat_next_entry by (done || apply Hin; lia). split; [done|].
    split; [intros x Hx; rewrite fat_next_entry by (done || apply Hin; lia); by apply Hall|]. split; [done|]. split.
    + intros x Hx Hne. rewrite !fat_next_entry by done. by rewrite Ho by (done || apply Hx).
    + intros s Hse. apply Hs. lia.
Qed.
End Fat.

(** ** Files as cluster chains *)

Section File.
Context {D : Type} `{!BlockDev D}.
Context (v : fat_vol) (Hv : vol_ok v).
Implicit Types d : D.

(** [cs] are the clusters the FAT links from [c] to end-of-chain. *)
Fixpoint is_chain d (c : Z) (cs : list Z) : Prop :=
  match cs with
  | [] => FAT32_EOC ≤ c
  | x :: cs' => c = x ∧ c < FAT32_EOC ∧ is_chain d (fat_next v d c) cs'
  end.

Definition sectors_of (c : Z) : list Z :=
  (λ s, data_start_sector v + (c - 2) * sectors_per_cluster v + s) <$> seqZ 0 (sectors_per_cluster v).

Definition cluster_bytes d (c : Z) : list Z := concat (bd_sector d <$> sectors_of c).

(** The bytes of a file. *)
Definition content d (cs : list Z) : list Z := concat (cluster_bytes d <$> cs).

Record file_ok d (c : Z) (cs : list Z) : Prop := {
  fo_dev : bd_ok d;
  fo_chain : is_chain d c cs;
  fo_nodup : NoDup cs;
  fo_clusters : Forall (cluster_ok v) cs;
}.

Lemma cluster_sector c : cluster_ok v c →
  cluster_to_sector v c = data_start_sector v + (c - 2) * sectors_per_cluster v.
Proof.
  intros (Hc & [Hc2 _] & Hm). destruct Hv. unfold cluster_to_sector, add32, mul32, sub32, FAT32_EOC in *.
  assert (0 ≤ (c - 2) * sectors_per_cluster v) by nia.
  rewrite (wrap32_small (c - 2)) by lia. rewrite (wrap32_small ((c - 2) * _)) by nia.
  rewrite wrap32_small by nia. done.
Qed.

Lemma cluster_sector_add c s : cluster_ok v c → 0 ≤ s < sectors_per_cluster v →
  add32 (cluster_to_sector v c) s = data_start_sector v + (c - 2) * sectors_per_cluster v + s.
Proof.
  intros Hc Hs. rewrite cluster_sector by done. destruct Hc as (? & _ & ?). destruct Hv.
  unfold add32. apply wrap32_small. nia.
Qed.

Lemma sectors_blocks d c : Forall (λ l, length l = 512%nat) (bd_sector d <$> sectors_of c).
Proof. apply Forall_fmap, Forall_forall. intros s _. apply bd_sector_length. Qed.

Lemma sectors_of_length c : length (sectors_of c) = Z.to_nat (sectors_per_cluster v).
Proof. unfold sectors_of. by rewrite length_fmap, length_seqZ. Qed.

Definition bpc : nat := 512 * Z.to_nat (sectors_per_cluster v).

Lemma cluster_bytes_length d c : length (cluster_bytes d c) = bpc.
Proof.
  unfold cluster_bytes. rewrite (concat_length 512) by apply sectors_blocks.
  by rewrite length_fmap, sectors_of_length.
Qed.

Lemma content_blocks d cs : Forall (λ l, length l = bpc) (cluster_bytes d <$> cs).
Proof. apply Forall_fmap, Forall_forall. intros c _. apply cluster_bytes_length. Qed.

Lemma content_length d cs : length (content d cs) = (bpc * length cs)%nat.
Proof. unfold content. rewrite (concat_length bpc) by apply content_blocks. by rewrite length_fmap. Qed.

Lemma elem_of_sectors c x : x ∈ sectors_of c ↔
  data_start_sector v + (c - 2) * sectors_per_cluster v ≤ x < data_start_sector v + (c - 1) * sectors_per_cluster v.
Proof.
  unfold sectors_of. rewrite list_elem_of_fmap. setoid_rewrite elem_of_seqZ. split.
  - intros (s & -> & Hs). nia.
  - intros Hx. exists (x - (data_start_sector v + (c - 2) * sectors_per_cluster v)). split; [lia|nia].
Qed.

Lemma sectors_cap c s : cluster_ok v c → 0 ≤ s < sectors_per_cluster v →
  0 ≤ data_start_sector v + (c - 2) * sectors_per_cluster v + s < bd_cap D.
Proof. destruct Hv. intros (? & _ & ?) ?. nia. Qed.

(** Different clusters share no sector; no cluster overlaps the FAT. *)
Lemma sectors_disjoint c c' x : x ∈ sectors_of c → x ∈ sectors_of c' → c = c'.
Proof. rewrite !elem_of_sectors. destruct Hv. intros ? ?. nia. Qed.

Lemma sectors_data c x : cluster_ok v c → x ∈ sectors_of c → data_start_sector v ≤ x.
Proof. rewrite elem_of_sectors. destruct Hv. intros (? & _) ?. nia. Qed.

Lemma cluster_bytes_frame d d' c :
  (∀ s, s ∈ sectors_of c → bd_sector d' s = bd_sector d s) → cluster_bytes d' c = cluster_bytes d c.
Proof.
  intros H. unfold cluster_bytes. f_equal. apply list_fmap_ext. intros i s Hs. apply H.
  by eapply list_elem_of_lookup_2.
Qed.

(** The chain only depends on the FAT area. *)
Lemma chain_frame_fat d d' c cs :
  bd_ok d → bd_ok d' → Forall (cluster_ok v) cs →
  (∀ s, s < data_start_sector v → bd_sector d' s = bd_sector d s) → is_chain d c cs → is_chain d' c cs.
Proof.
  intros Hd Hd' Hcs Hs. revert c. induction Hcs as [|x cs Hx _ IH]; intros c Hc; [done|].
  destruct Hc as (-> & Hlt & Hc). split; [done|]. split; [done|].
  assert (fat_next v d' x = fat_next v d x) as ->; [|by apply IH].
  rewrite !fat_next_entry by (done || apply Hx). unfold fat_entry. destruct Hx as (Hr & [Hx Hin] & _).
  destruct (fat_sector_eq v x Hv Hx) as [-> _]. rewrite Hs by done. done.
Qed.

(** *** Reading *)

(** The bytes of a cluster from its [s]-th sector on. *)
Lemma cluster_bytes_split d c s :
  0 ≤ s < sectors_per_cluster v →
  drop (512 * Z.to_nat s) (cluster_bytes d c) =
    bd_sector d (data_start_sector v + (c - 2) * sectors_per_cluster v + s)
      ++ drop (512 * Z.to_nat (s + 1)) (cluster_bytes d c).
Proof.
  intros Hs. set (sec := bd_sector d _). unfold cluster_bytes.
  destruct (concat_blocks 512 (bd_sector d <$> sectors_of c) (Z.to_nat s) sec) as (a & b & -> & Ha & _).
  - apply sectors_blocks.
  - rewrite list_lookup_fmap. unfold sectors_of. rewrite list_lookup_fmap, lookup_seqZ_lt by lia. simpl.
    unfold sec. do 2 f_equal. lia.
  - rewrite <- Ha, drop_app_length. f_equal.
    replace (512 * Z.to_nat (s + 1))%nat with (length a + 512)%nat by lia.
    assert (length sec = 512%nat) as Hsl by apply bd_sector_length.
    rewrite drop_app_add, <- Hsl, drop_app_length. done.
Qed.

Lemma read_sectors_spec d c out rem s n :
  bd_ok d → cluster_ok v c → 0 ≤ s → s + Z.of_nat n = sectors_per_cluster v →
  let bytes := drop (512 * Z.to_nat s) (cluster_bytes d c) in
  let k := Z.min (Z.max rem 0) (Z.of_nat (length bytes)) in
  read_sectors d (cluster_to_sector v c) s n out rem = Some (out ++ take (Z.to_nat k) bytes, rem - k).
Proof.
  intros Hd Hc. revert s out rem. induction n as [|n IH]; intros s out rem Hs Hn bytes k; cbn [read_sectors].
  - assert (bytes = []) as Hb.
    { unfold bytes. apply drop_ge. rewrite cluster_bytes_length. unfold bpc. lia. }
    assert (k = 0) as Hk by (unfold k; rewrite Hb; simpl; lia).
    by rewrite Hk, Hb, app_nil_r, Z.sub_0_r.
  - case_decide as Hr.
    { unfold k. rewrite Z.max_r, Z.min_l by lia. simpl. by rewrite take_0, app_nil_r, Z.sub_0_r. }
    rewrite cluster_sector_add by (done || lia). rewrite bd_read_ok by (done || apply sectors_cap; done || lia). simpl.
    set (sec := bd_sector d _). set (chunk := if decide (rem < SECTOR) then rem else SECTOR).
    assert (bytes = sec ++ drop (512 * Z.to_nat (s + 1)) (cluster_bytes d c)) as Hb by (apply cluster_bytes_split; lia).
    rewrite IH by lia. clearbody bytes. set (rest := drop (512 * Z.to_nat (s + 1)) (cluster_bytes d c)) in *.
    assert (length sec = 512%nat) as Hsl by apply bd_sector_length.
    assert (Z.of_nat (length bytes) = 512 + Z.of_nat (length rest)) as Hlb by (rewrite Hb, length_app; lia).
    unfold chunk, k. unfold SECTOR in *. case_decide as Hcs.
    + rewrite Z.max_r, Z.min_l by lia. simpl. rewrite take_0, app_nil_r, Z.sub_0_r.
      rewrite Z.max_l, Z.min_l by lia. rewrite Hb, take_app_le by lia. done.
    + rewrite <- app_assoc. f_equal. f_equal; [|lia]. f_equal. rewrite Hb.
      replace (Z.to_nat (Z.min (Z.max rem 0) (Z.of_nat (length (sec ++ rest)))))
        with (length sec + Z.to_nat (Z.min (Z.max (rem - 512) 0) (Z.of_nat (length rest))))%nat
        by (rewrite length_app; lia).
      rewrite take_app_add, take_ge by (rewrite Hsl; lia). done.
Qed.

Lemma read_loop_spec d c cs out rem fuel :
  file_ok d c cs → (length cs < fuel)%nat →
  let k := Z.min (Z.max rem 0) (Z.of_nat (length (content d cs))) in
  read_loop v fuel d c out rem = Some (Some (out ++ take (Z.to_nat k) (content d cs), rem - k)).
Proof.
  intros [Hd Hch _ Hok]. revert c out rem fuel Hch. induction Hok as [|x cs Hx _ IH]; intros c out rem fuel Hch Hf k.
  - simpl in Hch. unfold k. simpl. destruct fuel; simpl; rewrite decide_True by (right; done);
      rewrite Z.min_r, take_0, app_nil_r, Z.sub_0_r by lia; done.
  - destruct Hch as (-> & Hlt & Hch). destruct fuel as [|f]; [simpl in Hf; lia|]. cbn [read_loop].
    case_decide as Hr.
    { assert (rem ≤ 0) by (destruct Hr; [done|lia]). unfold k. rewrite Z.max_r, Z.min_l by lia. simpl.
      by rewrite take_0, app_nil_r, Z.sub_0_r. }
    pose proof (vo_spc v Hv). rewrite read_sectors_spec by (done || lia).
    change (512 * Z.to_nat 0)%nat with 0%nat. rewrite drop_0.
    rewrite IH by (done || simpl in Hf; lia).
    change (content d (x :: cs)) with (cluster_bytes d x ++ content d cs) in *.
    set (a := cluster_bytes d x) in *. set (b := content d cs) in *.
    assert (length (a ++ b) = length a + length b)%nat as Hab by apply length_app.
    do 2 f_equal. f_equal; [|unfold k; lia]. rewrite <- app_assoc. f_equal. unfold k.
    destruct (decide (rem ≤ Z.of_nat (length a))).
    + replace (Z.to_nat (Z.min (Z.max (rem - Z.min (Z.max rem 0) (Z.of_nat (length a))) 0) (Z.of_nat (length b))))
        with 0%nat by lia. rewrite take_0, app_nil_r, take_app_le by lia. f_equal. lia.
    + rewrite (take_ge a) by lia.
      replace (Z.to_nat (Z.min (Z.max rem 0) (Z.of_nat (length (a ++ b)))))
        with (length a + Z.to_nat (Z.min (Z.max (rem - Z.min (Z.max rem 0) (Z.of_nat (length a))) 0) (Z.of_nat (length b))))%nat
        by lia. by rewrite take_app_add.
Qed.

(** Reading from the start of a file. *)
Lemma fat32_read_spec d c cs fuel size buf_len :
  file_ok d c cs → (length cs < fuel)%nat → 0 ≤ size ≤ Z.of_nat (length (content d cs)) → 0 ≤ buf_len →
  fat32_read v fuel d c size buf_len =
    Some (to_int (Z.min size buf_len), take (Z.to_nat (Z.min size buf_len)) (content d cs)).
Proof using Hv.
  intros Hf Hfuel Hs Hb. unfold fat32_read.
  rewrite (read_loop_spec d c cs) by done. cbn [mbind option_bind app].
  assert ((if decide (buf_len < size) then buf_len else size) = Z.min size buf_len) as -> by (case_decide; lia).
  assert (0 ≤ Z.min size buf_len ≤ Z.of_nat (length (content d cs))) as Hk by lia.
  generalize dependent (Z.min size buf_len). intros k Hk. rewrite Z.max_l, Z.min_l by lia.
  by replace (k - (k - k)) with k by lia.
Qed.

(** *** Writing *)

Lemma bpc_mul32 : mul32 (sectors_per_cluster v) SECTOR = Z.of_nat bpc ∧ 0 < Z.of_nat bpc < 2 ^ 17.
Proof.
  destruct Hv. unfold mul32, SECTOR, bpc. rewrite wrap32_small by lia. lia.
Qed.

(** One sector of a cluster is replaced. *)
Lemma cluster_bytes_write d d' c j x :
  0 ≤ j < sectors_per_cluster v →
  bd_sector d' (data_start_sector v + (c - 2) * sectors_per_cluster v + j) = x →
  (∀ s, s ≠ data_start_sector v + (c - 2) * sectors_per_cluster v + j → bd_sector d' s = bd_sector d s) →
  bd_sector d' <$> sectors_of c = <[Z.to_nat j := x]> (bd_sector d <$> sectors_of c).
Proof.
  intros Hj Hx Ho. apply list_eq. intros i. rewrite list_lookup_fmap.
  destruct (decide (i = Z.to_nat j)) as [->|Hne].
  - rewrite list_lookup_insert_eq by (rewrite length_fmap, sectors_of_length; lia).
    unfold sectors_of. rewrite list_lookup_fmap, lookup_seqZ_lt by lia. simpl. rewrite <- Hx. do 2 f_equal. lia.
  - rewrite list_lookup_insert_ne, list_lookup_fmap by done. unfold sectors_of. rewrite list_lookup_fmap.
    destruct (seqZ 0 (sectors_per_cluster v) !! i) as [k|] eqn:Hk; [|done]. simpl.
    apply lookup_seqZ in Hk as [-> Hlt]. rewrite Ho by lia. done.
Qed.

Lemma write_inner_spec d c inner src n :
  bd_ok d → cluster_ok v c → 0 ≤ inner ≤ Z.of_nat bpc →
  src = [] ∨ sectors_per_cluster v - inner / 512 ≤ Z.of_nat n →
  let m := Z.to_nat (Z.min (Z.of_nat bpc - inner) (Z.of_nat (length src))) in
  ∃ d', write_inner v d (cluster_to_sector v c) inner src n = (Some (drop m src), d') ∧ bd_ok d' ∧
    cluster_bytes d' c = splice (cluster_bytes d c) inner (take m src) ∧
    ∀ s, s ∉ sectors_of c → bd_sector d' s = bd_sector d s.
Proof.
  intros Hd Hc. revert d Hd inner src. induction n as [|n IH]; intros d Hd inner src Hin Hn m;
    destruct bpc_mul32 as [Ebpc Hbpc]; cbn [write_inner].
  { assert (m = 0%nat) as Hm.
    { unfold m. destruct Hn as [->|Hn]; [simpl; lia|].
      assert (Z.of_nat bpc ≤ inner); [|lia]. unfold bpc in *. dlia. }
    rewrite Hm, drop_0, take_0, splice_nil by lia. eauto. }
  rewrite Ebpc. case_decide as Hend.
  { assert (m = 0%nat) as Hm by (unfold m; destruct Hend; subst; simpl; lia).
    rewrite Hm, drop_0, take_0, splice_nil by lia. eauto. }
  apply Decidable.not_or in Hend as [Hlt Hne].
  assert (0 < length src)%nat as Hsrc by (destruct src; [done|simpl; lia]).
  set (j := inner / SECTOR). set (io := inner mod SECTOR).
  assert (0 ≤ j < sectors_per_cluster v ∧ 0 ≤ io < 512 ∧ inner = 512 * j + io) as (Hj & Hio & Ein).
  { unfold j, io, SECTOR, bpc in *. dlia. }
  rewrite cluster_sector_add by done.
  set (chunk := Z.min (SECTOR - io) (Z.of_nat (length src))).
  assert (0 < chunk ≤ 512 - io ∧ chunk ≤ Z.of_nat (length src)) as [Hch1 Hch2] by (unfold chunk, SECTOR; lia).
  assert (length (take (Z.to_nat chunk) src) = Z.to_nat chunk) as Htl by (rewrite length_take; lia).
  set (sec := data_start_sector v + (c - 2) * sectors_per_cluster v + j).
  assert (0 ≤ sec < bd_cap D) as Hcap by by apply sectors_cap.
  assert ((if decide (io ≠ 0 ∨ chunk ≠ SECTOR)
    then b ← blk_read d sec; Some (splice b io (take (Z.to_nat chunk) src))
    else Some (take (Z.to_nat chunk) src)) = Some (splice (bd_sector d sec) io (take (Z.to_nat chunk) src))) as ->.
  { case_decide as Hfull; [by rewrite bd_read_ok by done|]. unfold SECTOR in Hfull.
    assert (io = 0 ∧ chunk = 512) as [-> Hc512] by lia. f_equal. symmetry. apply splice_full.
    rewrite Htl, bd_sector_length. lia. }
  destruct (bd_write_ok d sec (splice (bd_sector d sec) io (take (Z.to_nat chunk) src)) Hd Hcap) as (d1 & -> & Hd1 & Hs1 & Ho1).
  { rewrite splice_length, bd_sector_length; [done|lia|]. rewrite bd_sector_length. lia. }
  assert (cluster_bytes d1 c = splice (cluster_bytes d c) inner (take (Z.to_nat chunk) src)) as Hcb1.
  { unfold cluster_bytes at 1. rewrite (cluster_bytes_write d d1 c j _ Hj Hs1 Ho1).
    rewrite (concat_splice 512); [|apply sectors_blocks| |lia|lia].
    - fold (cluster_bytes d c). f_equal. lia.
    - rewrite list_lookup_fmap. unfold sectors_of. rewrite list_lookup_fmap, lookup_seqZ_lt by lia. simpl.
      unfold sec. do 2 f_equal. lia. }
  destruct (IH d1 Hd1 (inner + chunk) (drop (Z.to_nat chunk) src)) as (d' & -> & Hd' & Hcb & Ho).
  { unfold chunk, SECTOR, bpc in *. lia. }
  { assert (chunk = 512 - io ∨ chunk = Z.of_nat (length src)) as [->| Hall] by (unfold chunk, SECTOR; lia).
    - right. replace ((inner + (512 - io)) / 512) with (j + 1) by (rewrite Ein; dlia).
      destruct Hn as [->|Hn]; [done|]. unfold j, SECTOR in *. lia.
    - left. apply drop_ge. lia. }
  exists d'. rewrite length_drop in Hcb |- *. rewrite Hcb1 in Hcb.
  set (m' := Z.to_nat (Z.min (Z.of_nat bpc - (inner + chunk)) (Z.of_nat (length src - Z.to_nat chunk)))) in *.
  assert (m = Z.to_nat chunk + m')%nat as Em by (unfold m, m', chunk, SECTOR, bpc in *; lia).
  split; [by rewrite drop_drop, Em|]. split; [done|]. split.
  - rewrite Hcb, Em, <- take_take_drop, <- splice_splice; [by rewrite Htl, Z2Nat.id by lia|lia|].
    rewrite Htl, length_take, length_drop, cluster_bytes_length. unfold m'. lia.
  - intros s Hs. rewrite Ho, Ho1; [done| |done]. intros ->. apply Hs. unfold sectors_of, sec.
    apply list_elem_of_fmap. exists j. split; [lia|]. apply elem_of_seqZ. lia.
Qed.

(** *** Growing *)

Lemma fat_next_frame d d' x :
  bd_ok d → bd_ok d' → in_fat v x → (∀ s, s < data_start_sector v → bd_sector d' s = bd_sector d s) →
  fat_next v d' x = fat_next v d x.
Proof using Hv.
  intros Hd Hd' Hx Hs. rewrite !fat_next_entry by done. unfold fat_entry.
  destruct (fat_sector_eq v x Hv (proj1 Hx)) as [-> _]. rewrite Hs by apply Hx. done.
Qed.

(** The successor of a cluster of the chain. *)
Lemma chain_next d c cs i x :
  is_chain d c cs → cs !! i = Some x →
  match cs !! S i with
  | Some y => fat_next v d x = y ∧ y < FAT32_EOC
  | None => FAT32_EOC ≤ fat_next v d x
  end.
Proof.
  revert c i. induction cs as [|z cs IH]; intros c i Hc Hi; [done|]. destruct Hc as (-> & Hlt & Hc).
  destruct i as [|i]; [|by apply (IH (fat_next v d z))]. injection Hi as ->. simpl.
  destruct cs as [|y cs]; [done|]. by destruct Hc as (-> & ? & _).
Qed.

Lemma chain_head d c cs x : is_chain d c cs → cs !! 0%nat = Some x → c = x.
Proof. destruct cs; [done|]. intros (-> & _) [= ->]. done. Qed.

Lemma chain_nonzero d c cs : file_ok d c cs → cs ≠ [] → c ≠ 0.
Proof.
  intros [_ Hc _ Hok] Hne. destruct cs as [|x cs]; [done|]. destruct Hc as [-> _].
  apply Forall_cons in Hok as [[? _] _]. lia.
Qed.

(** No cluster of a file is marked free. *)
Lemma chain_used d c cs x : file_ok d c cs → x ∈ cs → fat_next v d x ≠ 0.
Proof.
  intros [_ Hc _ Hok] [i Hi]%list_elem_of_lookup_1. pose proof (chain_next d c cs i x Hc Hi) as Hn.
  destruct (cs !! S i) as [y|] eqn:Hy; [|unfold FAT32_EOC in *; lia].
  destruct Hn as [-> _]. rewrite Forall_lookup in Hok. destruct (Hok _ _ Hy). lia.
Qed.

Lemma chain_snoc d d' c cs x y :
  is_chain d c (cs ++ [x]) → NoDup (cs ++ [x]) → (∀ z, z ∈ cs → fat_next v d' z = fat_next v d z) →
  fat_next v d' x = y → y < FAT32_EOC → FAT32_EOC ≤ fat_next v d' y → is_chain d' c ((cs ++ [x]) ++ [y]).
Proof.
  revert c. induction cs as [|z cs IH]; intros c Hc Hnd Ho Hx Hy Hend.
  - destruct Hc as (-> & Hlt & _). simpl. by rewrite Hx.
  - destruct Hc as (-> & Hlt & Hc). simpl in Hnd. apply NoDup_cons in Hnd as [_ Hnd].
    split; [done|]. split; [done|]. rewrite Ho by by left. apply IH; try done. intros w Hw. apply Ho. by right.
Qed.

(** The free clusters below [limit]. *)
Definition free_count d (limit : Z) : nat := length (filter (λ x, fat_next v d x = 0) (seqZ 2 (limit - 2))).

(** The FAT area is addressable, and the clusters below [limit] are on the
    volume. *)
Context (limit : Z).
Record room_ok : Prop := {
  ro_area : (data_start_sector v - fat_start_sector v) * 128 ≤ FAT32_EOC - 1;
  ro_limit x : 2 ≤ x < limit → cluster_ok v x;
}.
Context (Hroom : room_ok).

Lemma free_count_same d d' :
  (∀ x, 2 ≤ x < limit → fat_next v d' x = 0 ↔ fat_next v d x = 0) → free_count d' limit = free_count d limit.
Proof.
  intros H. unfold free_count. f_equal. apply filter_ext_in. intros x Hx%elem_of_seqZ. apply H. lia.
Qed.

Lemma free_count_taken d d' r :
  2 ≤ r < limit → fat_next v d r = 0 → fat_next v d' r ≠ 0 →
  (∀ x, 2 ≤ x < limit → x ≠ r → fat_next v d' x = fat_next v d x) →
  free_count d limit = S (free_count d' limit).
Proof.
  intros Hr H0 H1 Ho. unfold free_count. apply filter_length_drop_one with r; try done.
  - apply NoDup_seqZ.
  - apply elem_of_seqZ. lia.
  - intros x Hx%elem_of_seqZ Hne. rewrite Ho by (done || lia). done.
Qed.

Lemma alloc_room d :
  bd_ok d → (0 < free_count d limit)%nat →
  ∃ r d', fat_alloc_cluster v d = Some (r, d') ∧ 2 ≤ r < limit ∧ fat_next v d r = 0 ∧ fat_updated v d r 0x0FFFFFFF d'.
Proof using Hv Hroom.
  intros Hd Hfree. unfold free_count in Hfree.
  destruct (filter (λ x, fat_next v d x = 0) (seqZ 2 (limit - 2))) as [|f fs] eqn:Ef; [simpl in Hfree; lia|].
  assert (f ∈ filter (λ x, fat_next v d x = 0) (seqZ 2 (limit - 2))) as Hf by (rewrite Ef; by left).
  apply list_elem_of_filter in Hf as [Hf0 Hf%elem_of_seqZ].
  assert (cluster_ok v f) as Hfok by (apply Hroom; lia). destruct Hfok as (_ & Hff & _).
  pose proof Hroom as [Harea _]. unfold fat_alloc_cluster, alloc_fuel.
  assert (2 ≤ (data_start_sector v - fat_start_sector v) * 128) by (destruct Hff; dlia).
  destruct (fat_alloc_from_spec v d 2 (Z.to_nat ((data_start_sector v - fat_start_sector v) * 128 + 1)) Hv Hd)
    as (r & d' & -> & Hr); [lia..|]. exists r, d'. split; [done|].
  destruct Hr as [(-> & -> & Hall)|(Hle & Hrl & Hz & Hall & Hu)].
  - destruct (Hall f); [lia|apply Hff|]. by rewrite <- fat_next_entry.
  - assert (r ≤ f).
    { destruct (decide (r ≤ f)); [done|]. destruct (Hall f); [lia|]. by rewrite <- fat_next_entry. }
    split; [lia|]. split; [|done]. rewrite fat_next_entry; [done|done|done|]. apply Hroom. lia.
Qed.

(** A file that has got the clusters [ext]: they were free, the clusters of
    other files keep their successors, and no data sector is touched. *)
Record chain_grown (c : Z) d (cs : list Z) d' (ext : list Z) : Prop := {
  gr_file : file_ok d' c (cs ++ ext);
  gr_data s : data_start_sector v ≤ s → bd_sector d' s = bd_sector d s;
  gr_others x : in_fat v x → fat_next v d x ≠ 0 → x ∉ cs → fat_next v d' x = fat_next v d x;
  gr_fresh : Forall (λ x, fat_next v d x = 0) ext;
  gr_count : (free_count d' limit + length ext)%nat = free_count d limit;
}.

Lemma chain_grown_refl c d cs : file_ok d c cs → chain_grown c d cs d [].
Proof. intros H. constructor; simpl; try done; by rewrite app_nil_r. Qed.

Lemma chain_grown_trans c d cs d1 e1 d2 e2 :
  chain_grown c d cs d1 e1 → chain_grown c d1 (cs ++ e1) d2 e2 → chain_grown c d cs d2 (e1 ++ e2).
Proof.
  intros [F1 D1 O1 Fr1 C1] [F2 D2 O2 Fr2 C2]. constructor.
  - by rewrite app_assoc.
  - intros s Hs. by rewrite D2, D1.
  - intros x Hx Hnz Hcs. assert (x ∉ e1).
    { intros Hin. rewrite Forall_forall in Fr1. by apply Hnz, Fr1. }
    rewrite O2, O1; try done; [by rewrite O1|]. by intros [?|?]%elem_of_app.
  - apply Forall_app. split; [done|]. apply Forall_forall. intros x Hx.
    rewrite Forall_forall in Fr2. destruct (decide (fat_next v d x = 0)) as [|Hnz]; [done|].
    destruct (decide (x ∈ cs)) as [Hin|Hni].
    + destruct (chain_used d1 c (cs ++ e1) x F1); [by apply elem_of_app; left|]. by apply Fr2.
    + destruct F2 as [_ _ _ Hok]. apply Forall_app in Hok as [_ Hok]. rewrite Forall_forall in Hok.
      rewrite <- (O1 x); [by apply Fr2|apply (Hok x Hx)|done|done].
  - rewrite length_app. lia.
Qed.

Lemma fat_updated_next d c0 value d' x :
  bd_ok d → fat_updated v d c0 value d' → in_fat v x → x ≠ c0 → fat_next v d' x = fat_next v d x.
Proof using Hv.
  intros Hd [Hd' _ _ Ho _] Hx Hne. rewrite !fat_next_entry by done. by rewrite Ho by (done || apply Hx).
Qed.

Lemma land28 x : 0 ≤ x < 2 ^ 28 → Z.land x 0x0FFFFFFF = x.
Proof. intros Hx. change 0x0FFFFFFF with (Z.ones 28). rewrite Z.land_ones by lia. by apply Z.mod_small. Qed.

(** One more cluster behind the last one. *)
Lemma fat_extend_chain_spec d c cs cur :
  file_ok d c (cs ++ [cur]) → (0 < free_count d limit)%nat →
  ∃ nc d', fat_extend_chain v d cur 1 = Some (nc, d') ∧ nc ≠ 0 ∧ chain_grown c d (cs ++ [cur]) d' [nc].
Proof using Hv Hroom.
  intros Hf Hfree. pose proof Hf as [Hd Hch Hnd Hok].
  destruct (alloc_room d Hd Hfree) as (nc & d1 & Ea & Hnc & Hz & U1).
  unfold fat_extend_chain. cbn [extend_loop]. rewrite Ea. cbn [mbind option_bind].
  rewrite decide_False by lia. pose proof (ro_limit Hroom nc Hnc) as Hncok.
  assert (nc ∉ cs ++ [cur]) as Hfresh by (intros Hin; by apply (chain_used _ _ _ _ Hf Hin)).
  assert (∀ x, x ∈ cs ++ [cur] → in_fat v x ∧ x ≠ nc) as Hin.
  { intros x Hx. rewrite Forall_forall in Hok. split; [apply (Hok x Hx)|by intros ->]. }
  assert (cur ∈ cs ++ [cur]) as Hcur by (apply elem_of_app; right; by left).
  destruct (fat_write_spec v d1 cur nc Hv (fu_ok _ _ _ _ _ U1) (proj1 (Hin cur Hcur))) as (d2 & -> & U2).
  rewrite (decide_True (P := 0 = 0)) by done. rewrite decide_True by lia.
  destruct (fat_write_spec v d2 nc FAT32_EOC Hv (fu_ok _ _ _ _ _ U2)) as (d3 & -> & U3); [apply Hncok|].
  exists nc, d3. split; [done|]. split; [lia|].
  pose proof (fu_ok _ _ _ _ _ U1) as Hd1. pose proof (fu_ok _ _ _ _ _ U2) as Hd2. pose proof (fu_ok _ _ _ _ _ U3) as Hd3.
  assert (∀ x, in_fat v x → x ≠ nc → x ≠ cur → fat_next v d3 x = fat_next v d x) as Hsame.
  { intros x Hx H1 H2. by rewrite (fat_updated_next _ _ _ _ _ Hd2 U3), (fat_updated_next _ _ _ _ _ Hd1 U2), (fat_updated_next _ _ _ _ _ Hd U1). }
  assert (fat_next v d3 cur = nc) as Hc3.
  { rewrite (fat_updated_next _ _ _ _ _ Hd2 U3), (fu_next _ _ _ _ _ U2) by (done || apply (Hin cur Hcur)).
    apply land28. destruct Hncok as (_ & [? _] & _). unfold FAT32_EOC in *. lia. }
  assert (fat_next v d3 nc = FAT32_EOC) as Hn3 by (rewrite (fu_next _ _ _ _ _ U3); done).
  constructor.
  - constructor; [done|..].
    + apply (chain_snoc d d3); try done.
      * intros z Hz'. apply NoDup_app in Hnd as (_ & Hnd & _). apply Hsame; [|by apply Hin, elem_of_app; left..|].
        -- apply Hin, elem_of_app. by left.
        -- intros ->. apply (Hnd cur Hz'). by left.
      * apply Hncok.
      * by rewrite Hn3.
    + apply NoDup_app. split; [done|]. split; [|apply NoDup_singleton]. intros x Hx ->%list_elem_of_singleton. done.
    + apply Forall_app. split; [done|]. by apply Forall_singleton.
  - intros s Hs. destruct U1, U2, U3. destruct Hncok as (_ & [_ ?] & _). destruct (Hin cur Hcur) as [[_ ?] _].
    rewrite fu_data2, fu_data1, fu_data0; [done|lia..].
  - intros x Hx Hnz Hx2. apply Hsame; [done|by intros ->|by intros ->].
  - by apply Forall_singleton.
  - rewrite (free_count_taken d d1 nc); [|done|done| |].
    + simpl. rewrite Nat.add_1_r. f_equal. apply free_count_same. intros x Hx.
      destruct (decide (x = nc)) as [->|]; [rewrite Hn3, (fu_next _ _ _ _ _ U1); done|].
      pose proof (ro_limit Hroom x Hx) as (_ & Hxf & _).
      destruct (decide (x = cur)) as [->|]; [|by rewrite Hsame, (fat_updated_next _ _ _ _ _ Hd U1) by done].
      rewrite Hc3, (fat_updated_next _ _ _ _ _ Hd U1) by done. pose proof (chain_used _ _ _ _ Hf Hcur). lia.
    + rewrite (fu_next _ _ _ _ _ U1). done.
    + intros x Hx Hne. apply (fat_updated_next _ _ _ _ _ Hd U1); [|done]. apply (ro_limit Hroom x Hx).
Qed.

(** Walking [n] links from the [i]-th cluster of a file, growing it on the way. *)
Lemma seek_loop_spec n d c cs i x :
  file_ok d c cs → cs !! i = Some x → (i + n + 1 - length cs ≤ free_count d limit)%nat →
  ∃ y d' ext, seek_loop v d x true n = Some (Some y, d') ∧ chain_grown c d cs d' ext ∧
    (cs ++ ext) !! (i + n)%nat = Some y ∧ length ext = (i + n + 1 - length cs)%nat.
Proof using Hv Hroom.
  revert d cs i x. induction n as [|n IH]; intros d cs i x Hf Hi Hfree; cbn [seek_loop].
  - exists x, d, []. split; [done|]. split; [by apply chain_grown_refl|]. apply lookup_lt_Some in Hi as Hlt.
    rewrite app_nil_r, Nat.add_0_r. split; [done|]. simpl. lia.
  - pose proof (chain_next d c cs i x (fo_chain _ _ _ Hf) Hi) as Hn. destruct (cs !! S i) as [y|] eqn:Hy.
    + destruct Hn as [-> Hlt]. rewrite decide_False by lia.
      replace (i + S n)%nat with (S i + n)%nat in * by lia. by apply IH.
    + rewrite decide_True by done. cbn [negb]. apply lookup_ge_None in Hy. apply lookup_lt_Some in Hi as Hlt.
      destruct (exists_last (l := cs)) as (cs0 & cur & ->); [by intros ->|].
      rewrite length_app in *. simpl in *. assert (i = length cs0) as -> by lia.
      assert (x = cur) as -> by (rewrite lookup_app_r, Nat.sub_diag in Hi by lia; by injection Hi).
      destruct (fat_extend_chain_spec d c cs0 cur Hf) as (nc & d1 & -> & Hne & G1); [lia|].
      cbn [mbind option_bind]. rewrite decide_False by done.
      destruct (IH d1 ((cs0 ++ [cur]) ++ [nc]) (S (length cs0)) nc (gr_file _ _ _ _ _ G1)) as (y & d2 & ext & -> & G2 & Hl & Hlen).
      * rewrite lookup_app_r, length_app by (rewrite length_app; simpl; lia). simpl.
        by replace (S (length cs0) - (length cs0 + 1))%nat with 0%nat by lia.
      * pose proof (gr_count _ _ _ _ _ G1) as Hc. rewrite !length_app. simpl in *. lia.
      * exists y, d2, ([nc] ++ ext). split; [done|]. split; [by apply (chain_grown_trans _ _ _ d1)|].
        rewrite <- app_assoc in Hl. rewrite !length_app in Hlen. simpl in *. split; [|lia].
        rewrite <- Hl. rewrite <- !app_assoc. f_equal. lia.
Qed.

(** One cluster of a file is changed. *)
Lemma content_write d d' cs j x inner data :
  NoDup cs → cs !! j = Some x → 0 ≤ inner → (Z.to_nat inner + length data ≤ bpc)%nat →
  cluster_bytes d' x = splice (cluster_bytes d x) inner data →
  (∀ s, s ∉ sectors_of x → bd_sector d' s = bd_sector d s) →
  content d' cs = splice (content d cs) (Z.of_nat (bpc * j) + inner) data.
Proof using Hv.
  intros Hnd Hj Hin Hl Hx Ho. unfold content.
  assert (cluster_bytes d' <$> cs = <[j := splice (cluster_bytes d x) inner data]> (cluster_bytes d <$> cs)) as ->.
  { apply list_eq. intros i. rewrite list_lookup_fmap. destruct (decide (i = j)) as [->|Hne].
    - rewrite list_lookup_insert_eq by (rewrite length_fmap; by eapply lookup_lt_Some). rewrite Hj. simpl. by rewrite Hx.
    - rewrite list_lookup_insert_ne, list_lookup_fmap by done. destruct (cs !! i) as [y|] eqn:Hi; [|done]. simpl.
      f_equal. apply cluster_bytes_frame. intros s Hs. apply Ho. intros Hs'.
      pose proof (sectors_disjoint _ _ _ Hs Hs') as ->. by apply Hne, (NoDup_lookup cs i j x). }
  rewrite (concat_splice bpc); [done|apply content_blocks| |done|done].
  rewrite list_lookup_fmap, Hj. done.
Qed.

(** What writing [data] at [offset] does to the file of clusters [cs]: it may
    get new clusters [ext]. *)
Record written (c : Z) d (cs : list Z) (offset : Z) (data : list Z) d' (ext : list Z) : Prop := {
  wr_file : file_ok d' c (cs ++ ext);
  wr_content : content d' (cs ++ ext) = splice (content d (cs ++ ext)) offset data;
  wr_data s : data_start_sector v ≤ s → (∀ x, x ∈ cs ++ ext → s ∉ sectors_of x) → bd_sector d' s = bd_sector d s;
  wr_others x : in_fat v x → fat_next v d x ≠ 0 → x ∉ cs → fat_next v d' x = fat_next v d x;
  wr_fresh : Forall (λ x, fat_next v d x = 0) ext;
  wr_count : (free_count d' limit + length ext)%nat = free_count d limit;
}.

(** Clusters a write needs beyond the [n] the file has. *)
Definition new_clusters (offset : Z) (data : list Z) (n : nat) : nat :=
  match data with
  | [] => 0
  | _ => Z.to_nat ((offset + Z.of_nat (length data) - 1) / Z.of_nat bpc + 1) - n
  end.

(** Writing into one existing cluster. *)
Lemma write_cluster d c cs j x inner src :
  file_ok d c cs → cs !! j = Some x → 0 ≤ inner < Z.of_nat bpc →
  let m := Z.to_nat (Z.min (Z.of_nat bpc - inner) (Z.of_nat (length src))) in
  ∃ d', write_inner v d (cluster_to_sector v x) inner src (Z.to_nat (sectors_per_cluster v)) = (Some (drop m src), d') ∧
    bd_ok d' ∧ (∀ s, s < data_start_sector v → bd_sector d' s = bd_sector d s) ∧
    (∀ s, s ∉ sectors_of x → bd_sector d' s = bd_sector d s) ∧
    ∀ all, NoDup all → all !! j = Some x →
      content d' all = splice (content d all) (Z.of_nat (bpc * j) + inner) (take m src).
Proof using Hv.
  intros [Hd _ _ Hok] Hj Hin m. rewrite Forall_lookup in Hok. pose proof (Hok _ _ Hj) as Hx.
  destruct (write_inner_spec d x inner src (Z.to_nat (sectors_per_cluster v)) Hd Hx) as (d' & E & Hd' & Hcb & Ho).
  { lia. } { right. destruct Hv. dlia. }
  exists d'. split; [done|]. split; [done|]. split; [|split; [done|]].
  - intros s Hs. apply Ho. intros Hs'%(sectors_data _ _ Hx). lia.
  - intros all Hnd Hall. apply (content_write d d' all j x); try done; [lia|]. fold m. rewrite length_take. lia.
Qed.

Lemma new_clusters_step offset src (n : nat) :
  0 ≤ offset → src ≠ [] →
  let m := Z.to_nat (Z.min (Z.of_nat bpc - offset mod Z.of_nat bpc) (Z.of_nat (length src))) in
  let e := (Z.to_nat (offset / Z.of_nat bpc) + 1 - n)%nat in
  (new_clusters (offset + Z.of_nat m) (drop m src) (n + e) + e)%nat = new_clusters offset src n.
Proof using Hv.
  intros Ho Hne m e. destruct bpc_mul32 as [_ Hb]. set (B := Z.of_nat bpc) in *.
  pose proof (Z.div_mod offset B ltac:(lia)) as Edm. pose proof (Z.mod_pos_bound offset B ltac:(lia)) as Hmod.
  assert (0 < length src)%nat as Hlen by (destruct src; [done|simpl; lia]).
  assert (0 ≤ offset / B) by (apply Z.div_pos; lia).
  assert (new_clusters offset src n = Z.to_nat ((offset + Z.of_nat (length src) - 1) / B + 1) - n)%nat as ->
    by (destruct src; done).
  destruct (decide (m = length src)) as [Hm|Hm].
  - rewrite drop_ge by lia. simpl.
    assert ((offset + Z.of_nat (length src) - 1) / B = offset / B) as ->; [|lia].
    symmetry. apply Z.div_unique_pos with (offset mod B + Z.of_nat (length src) - 1); lia.
  - assert (Z.of_nat m = B - offset mod B) as Em by lia.
    assert (length (drop m src) = (length src - m)%nat) as Hd by apply length_drop.
    assert (new_clusters (offset + Z.of_nat m) (drop m src) (n + e)
      = Z.to_nat ((offset + Z.of_nat (length src) - 1) / B + 1) - (n + e))%nat as ->.
    { unfold new_clusters. destruct (drop m src) eqn:E; [simpl in Hd; lia|]. rewrite Hd. fold B. do 4 f_equal. lia. }
    assert (offset / B ≤ (offset + Z.of_nat (length src) - 1) / B) by (apply Z.div_le_mono; lia). lia.
Qed.

Lemma new_clusters_fits offset src (n : nat) :
  0 ≤ offset → src ≠ [] →
  offset + Z.of_nat (length src) ≤ Z.of_nat (bpc * (n + new_clusters offset src n)).
Proof using Hv.
  intros Ho Hne. destruct bpc_mul32 as [_ Hb].
  assert (new_clusters offset src n = Z.to_nat ((offset + Z.of_nat (length src) - 1) / Z.of_nat bpc + 1) - n)%nat as ->
    by (destruct src; done).
  assert (0 < length src)%nat as Hlen by (destruct src; [done|simpl; lia]).
  set (B := Z.of_nat bpc) in *. set (k := (offset + Z.of_nat (length src) - 1) / B).
  assert (0 ≤ k) by (apply Z.div_pos; lia).
  pose proof (Z.div_mod (offset + Z.of_nat (length src) - 1) B ltac:(lia)) as E. fold k in E.
  pose proof (Z.mod_pos_bound (offset + Z.of_nat (length src) - 1) B ltac:(lia)). rewrite Nat2Z.inj_mul. fold B.
  assert (k + 1 ≤ Z.of_nat (n + (Z.to_nat (k + 1) - n))) by lia. nia.
Qed.

Lemma content_frame d d' cs :
  Forall (cluster_ok v) cs → (∀ s, data_start_sector v ≤ s → bd_sector d' s = bd_sector d s) →
  content d' cs = content d cs.
Proof using Hv.
  intros Hok Ho. unfold content. f_equal. apply list_fmap_ext. intros i x Hx. rewrite Forall_lookup in Hok.
  apply cluster_bytes_frame. intros s Hs. apply Ho. by eapply sectors_data, Hs; eapply Hok.
Qed.

Lemma fat_seek_cluster_spec d c cs offset :
  file_ok d c cs → cs ≠ [] → 0 ≤ offset →
  (Z.to_nat (offset / Z.of_nat bpc) + 1 - length cs ≤ free_count d limit)%nat →
  ∃ x d' ext, fat_seek_cluster v d c offset true = Some (Some (x, offset mod Z.of_nat bpc), d') ∧
    chain_grown c d cs d' ext ∧ (cs ++ ext) !! Z.to_nat (offset / Z.of_nat bpc) = Some x ∧
    length ext = (Z.to_nat (offset / Z.of_nat bpc) + 1 - length cs)%nat.
Proof using Hv Hroom.
  intros Hf Hne Ho Hfree. destruct bpc_mul32 as [Ebpc Hb]. unfold fat_seek_cluster. rewrite Ebpc.
  rewrite decide_False by lia. destruct cs as [|c0 cs0] eqn:Ecs; [done|]. rewrite <- Ecs in *.
  assert (cs !! 0%nat = Some c) as Hc0 by (rewrite Ecs in *; destruct Hf as [_ [-> _] _ _]; done).
  destruct (seek_loop_spec (Z.to_nat (offset / Z.of_nat bpc)) d c cs 0 c Hf Hc0) as (x & d' & ext & -> & G & Hl & Hlen); [lia|].
  exists x, d', ext. done.
Qed.

(** The file after one round of the outer loop. *)
Lemma file_frame_fat d d' c cs :
  file_ok d c cs → bd_ok d' → (∀ s, s < data_start_sector v → bd_sector d' s = bd_sector d s) → file_ok d' c cs.
Proof using Hv. intros [Hd Hch Hnd Hok] Hd' Hs. constructor; try done. by apply (chain_frame_fat d d'). Qed.

Lemma written_refl c d cs offset : 0 ≤ offset → file_ok d c cs → written c d cs offset [] d [].
Proof. intros Ho Hf. constructor; rewrite ?app_nil_r; try done. by rewrite splice_nil. Qed.

(** A round that grew the file and wrote the prefix [a], then the rest. *)
Lemma written_step c d cs d1 e1 d2 offset a b d3 e2 :
  0 ≤ offset → chain_grown c d cs d1 e1 → bd_ok d2 →
  (∀ s, s < data_start_sector v → bd_sector d2 s = bd_sector d1 s) →
  (∀ s, (∀ x, x ∈ cs ++ e1 → s ∉ sectors_of x) → bd_sector d2 s = bd_sector d1 s) →
  (∀ ext, NoDup ((cs ++ e1) ++ ext) → content d2 ((cs ++ e1) ++ ext) = splice (content d1 ((cs ++ e1) ++ ext)) offset a) →
  written c d2 (cs ++ e1) (offset + Z.of_nat (length a)) b d3 e2 →
  offset + Z.of_nat (length a + length b) ≤ Z.of_nat (bpc * length ((cs ++ e1) ++ e2)) →
  written c d cs offset (a ++ b) d3 (e1 ++ e2).
Proof using Hv Hroom.
  intros Ho G Hd2 Hfat Hdata Hcont [F C Dt O Fr Cn] Hfit. pose proof G as [F1 D1 O1 Fr1 C1].
  assert (∀ x, in_fat v x → fat_next v d2 x = fat_next v d1 x) as Hnext.
  { intros x Hx. apply fat_next_frame; try done. apply F1. }
  assert (free_count d2 limit = free_count d1 limit) as Hfc.
  { apply free_count_same. intros x Hx. rewrite Hnext; [done|]. apply (ro_limit Hroom x Hx). }
  constructor; rewrite ?app_assoc.
  - done.
  - rewrite C, (Hcont e2) by apply F. rewrite (content_frame d d1) by (done || apply F).
    apply splice_splice; [done|]. rewrite content_length. lia.
  - intros s Hs Hn. rewrite Dt, Hdata, D1; [done|done| |done|done].
    intros x Hx. apply Hn, elem_of_app. by left.
  - intros x Hx Hnz Hni. assert (x ∉ e1).
    { intros Hin. rewrite Forall_forall in Fr1. by apply Hnz, Fr1. }
    rewrite O; [by rewrite Hnext, O1|done| |]; [by rewrite Hnext, O1|]. by intros [?|?]%elem_of_app.
  - apply Forall_app. split; [done|]. apply Forall_forall. intros x Hx. rewrite Forall_forall in Fr.
    destruct F as [_ _ _ Hok]. apply Forall_app in Hok as [_ Hok]. rewrite Forall_forall in Hok.
    destruct (Hok x Hx) as (_ & Hxf & _). specialize (Fr x Hx). rewrite Hnext in Fr by done.
    destruct (decide (fat_next v d x = 0)) as [|Hnz]; [done|]. destruct (decide (x ∈ cs)) as [Hin|Hni].
    + destruct (chain_used d1 c (cs ++ e1) x F1); [by apply elem_of_app; left|done].
    + by rewrite <- (O1 x).
  - rewrite length_app. lia.
Qed.

Lemma write_loop_spec n d c cs offset src :
  file_ok d c cs → cs ≠ [] → 0 ≤ offset → offset + Z.of_nat (length src) < 2 ^ 32 → (length src ≤ n)%nat →
  (new_clusters offset src (length cs) ≤ free_count d limit)%nat →
  ∃ d' ext, write_loop v d c offset src n = Some (Some (offset + Z.of_nat (length src)), d') ∧
    written c d cs offset src d' ext ∧ length ext = new_clusters offset src (length cs).
Proof using Hv Hroom.
  revert d cs offset src. induction n as [|n IH]; intros d cs offset src Hf Hcs Ho H32 Hn Hfree.
  { destruct src; [|simpl in Hn; lia]. exists d, []. simpl. rewrite Z.add_0_r.
    split; [done|]. split; [by apply written_refl|done]. }
  destruct (decide (src = [])) as [->|Hne].
  { exists d, []. simpl. rewrite Z.add_0_r. split; [done|]. split; [by apply written_refl|done]. }
  pose proof (new_clusters_step offset src (length cs) Ho Hne) as Hstep. cbv zeta in Hstep.
  pose proof (new_clusters_fits offset src (length cs) Ho Hne) as Hfit.
  destruct bpc_mul32 as [_ Hb]. assert (0 < length src)%nat as Hlen by (destruct src; [done|simpl; lia]).
  destruct (fat_seek_cluster_spec d c cs offset Hf Hcs Ho) as (x & d1 & e1 & Eseek & G & Hx & He1); [lia|].
  destruct (write_cluster d1 c (cs ++ e1) (Z.to_nat (offset / Z.of_nat bpc)) x (offset mod Z.of_nat bpc) src)
    as (d2 & Ew & Hd2 & Hfat & Hdata & Hcont); [apply G|done|by apply Z.mod_pos_bound; lia|].
  set (m := Z.to_nat (Z.min (Z.of_nat bpc - offset mod Z.of_nat bpc) (Z.of_nat (length src)))) in *.
  pose proof (Z.mod_pos_bound offset (Z.of_nat bpc) ltac:(lia)).
  assert (0 < m ≤ length src)%nat as Hm by lia.
  assert (length (take m src) = m) as Htm by (rewrite length_take; lia).
  assert (length (drop m src) = length src - m)%nat as Hdm by apply length_drop.
  cbn [write_loop]. destruct src as [|s0 src0] eqn:Esrc; [done|]. rewrite <- Esrc in *. rewrite Eseek.
  cbn [mbind option_bind]. rewrite Ew.
  replace (add32 offset (Z.of_nat (length src) - Z.of_nat (length (drop m src)))) with (offset + Z.of_nat m)
    by (rewrite Hdm; unfold add32; rewrite wrap32_small by lia; lia).
  assert (file_ok d2 c (cs ++ e1)) as Hf2 by (eapply (file_frame_fat d1); [apply G|done|done]).
  assert (free_count d2 limit = free_count d1 limit) as Hfc.
  { apply free_count_same. intros y Hy. rewrite (fat_next_frame d1 d2); [done|apply G|done| |done].
    apply (ro_limit Hroom y Hy). }
  pose proof (gr_count _ _ _ _ _ G) as Hc1.
  destruct (IH d2 (cs ++ e1) (offset + Z.of_nat m) (drop m src)) as (d3 & e2 & -> & Hwr & He2);
    [done|by destruct cs|lia|lia|lia|rewrite length_app, He1, Hfc; lia|].
  exists d3, (e1 ++ e2). split.
  { replace (offset + Z.of_nat m + Z.of_nat (length (drop m src))) with (offset + Z.of_nat (length src)) by lia. done. }
  rewrite length_app, He1 in He2.
  split; [|rewrite length_app; lia]. rewrite <- (take_drop m src) at 1.
  apply (written_step c d cs d1 e1 d2); try done.
  - intros s Hs. apply Hdata. apply Hs. by eapply list_elem_of_lookup_2.
  - intros ext Hnd. rewrite Hcont; [|done|by apply lookup_app_l_Some]. f_equal.
    rewrite Nat2Z.inj_mul, Z2Nat.id by (apply Z.div_pos; lia). symmetry. apply Z.div_mod. lia.
  - by rewrite Htm.
  - rewrite Htm, Hdm, !length_app. lia.
Qed.

(** Files with clusters other than [cs] are not affected by writing to [cs]. *)
Lemma written_others c d cs offset data d' ext c2 cs2 :
  written c d cs offset data d' ext → file_ok d c2 cs2 → (∀ x, x ∈ cs2 → x ∉ cs) →
  file_ok d' c2 cs2 ∧ content d' cs2 = content d cs2.
Proof using Hv.
  intros [F C Dt O Fr _] F2 Hdis. pose proof F2 as [Hd2 Hch2 Hnd2 Hok2].
  assert (∀ x, x ∈ cs2 → x ∉ cs ++ ext) as Hdis2.
  { intros x Hx [Hin|Hin]%elem_of_app; [by apply (Hdis x)|]. rewrite Forall_forall in Fr.
    by apply (chain_used d c2 cs2 x F2 Hx), Fr. }
  rewrite Forall_forall in Hok2. split.
  - constructor; [apply F| |done|by apply Forall_forall].
    assert (∀ x, x ∈ cs2 → fat_next v d' x = fat_next v d x) as Hn.
    { intros x Hx. apply O; [apply (Hok2 x Hx)|by eapply chain_used|by apply Hdis]. }
    clear -Hch2 Hn. revert c2 Hch2. induction cs2 as [|y cs2 IH]; intros c2; [done|]. intros (-> & ? & Hc). split; [done|].
    split; [done|]. rewrite Hn by by left. apply IH; [|done]. intros x Hx. apply Hn. by right.
  - unfold content. f_equal. apply list_fmap_ext. intros i x Hx%list_elem_of_lookup_2. apply cluster_bytes_frame.
    intros s Hs. apply Dt; [by apply (sectors_data x s (Hok2 x Hx))|]. intros y Hy Hs'.
    pose proof (sectors_disjoint _ _ _ Hs Hs') as ->. by apply (Hdis2 y).
Qed.

(** C11. Writing at an offset: if the free clusters cover what the file has to
    grow by, [fat32_write_at] succeeds and returns the offset behind the last
    byte.  The clusters of the file are kept and followed by exactly the
    needed new ones, which were free; the bytes of the file are the old ones
    with [data] written over them at [offset]; every file on other clusters
    keeps its chain and its bytes; and reading the file back returns the bytes
    up to the size asked for. *)
Theorem fat32_write_at_correct d c cs offset data :
  file_ok d c cs → cs ≠ [] → 0 ≤ offset → offset + Z.of_nat (length data) < 2 ^ 32 →
  (new_clusters offset data (length cs) ≤ free_count d limit)%nat →
  ∃ d' ext, fat32_write_at v d c offset data = Some (Some (offset + Z.of_nat (length data)), d') ∧
    file_ok d' c (cs ++ ext) ∧ length ext = new_clusters offset data (length cs) ∧
    Forall (λ x, fat_next v d x = 0) ext ∧
    content d' (cs ++ ext) = splice (content d cs ++ content d ext) offset data ∧
    (∀ c2 cs2, file_ok d c2 cs2 → (∀ x, x ∈ cs2 → x ∉ cs) → file_ok d' c2 cs2 ∧ content d' cs2 = content d cs2) ∧
    ∀ size buf_len, 0 ≤ size ≤ Z.of_nat (length (content d' (cs ++ ext))) → 0 ≤ buf_len →
      fat32_read v (S (length (cs ++ ext))) d' c size buf_len =
        Some (to_int (Z.min size buf_len), take (Z.to_nat (Z.min size buf_len)) (content d' (cs ++ ext))).
Proof using Hv Hroom.
  intros Hf Hcs Ho H32 Hfree. unfold fat32_write_at.
  rewrite decide_False by by eapply chain_nonzero.
  destruct (write_loop_spec (length data) d c cs offset data) as (d' & ext & E & W & Hlen); [done|done|lia..|].
  exists d', ext. split; [done|]. split; [apply W|]. split; [done|]. split; [apply W|]. split.
  { rewrite (wr_content _ _ _ _ _ _ _ W). unfold content. by rewrite fmap_app, concat_app. }
  split; [intros c2 cs2; by apply (written_others c d cs offset data d' ext)|].
  intros size buf_len Hs Hb. apply fat32_read_spec; [apply W|lia|done|done].
Qed.
End File.

(** ** Directories as lists of slots *)

(** The first [n] 32-byte slots. *)
Fixpoint slots (n : nat) (l : list Z) : list (list Z) :=
  match n with
  | O => []
  | S n' => take 32 l :: slots n' (drop 32 l)
  end.

Lemma slots_length n l : length (slots n l) = n.
Proof. revert l. induction n as [|n IH]; intros l; simpl; [done|]. by rewrite IH. Qed.

Lemma slots_app n m l : slots (n + m) l = slots n l ++ slots m (drop (32 * n) l).
Proof.
  revert l. induction n as [|n IH]; intros l; [done|]. cbn [slots Nat.add app]. f_equal.
  rewrite IH, drop_drop. do 3 f_equal. lia.
Qed.

Lemma slots_prefix n a b : (32 * n ≤ length a)%nat → slots n (a ++ b) = slots n a.
Proof.
  revert a. induction n as [|n IH]; intros a Hl; [done|]. cbn [slots].
  rewrite take_app_le, drop_app_le by lia. f_equal. apply IH. rewrite length_drop. lia.
Qed.

Lemma slots_concat n a b : length a = (32 * n)%nat → ∀ m, slots (n + m) (a ++ b) = slots n a ++ slots m b.
Proof.
  intros Ha m. rewrite slots_app, slots_prefix by lia. do 2 f_equal. rewrite <- Ha. apply drop_app_length.
Qed.

Lemma slots_elem_length n l : (32 * n ≤ length l)%nat → Forall (λ e, length e = 32%nat) (slots n l).
Proof.
  revert l. induction n as [|n IH]; intros l Hl; [constructor|]. cbn [slots]. constructor.
  - rewrite length_take. lia.
  - apply IH. rewrite length_drop. lia.
Qed.

(** Overwriting one slot. *)
Lemma slots_splice n l i x :
  (i < n)%nat → (32 * n ≤ length l)%nat → length x = 32%nat →
  slots n (splice l (Z.of_nat (32 * i)) x) = <[i := x]> (slots n l).
Proof.
  revert l i. induction n as [|n IH]; intros l i Hi Hl Hx; [lia|]. destruct i as [|i].
  - unfold splice. simpl Z.to_nat. rewrite Hx, take_0. cbn [slots app]. simpl list_insert.
    rewrite <- Hx, take_app_length, drop_app_length. rewrite Hx. done.
  - cbn [slots list_insert]. rewrite <- (take_drop 32 l) at 1 2.
    assert (length (take 32 l) = 32%nat) as Ht by (rewrite length_take; lia).
    pose proof (splice_app (take 32 l) (drop 32 l) [] x (Z.of_nat (32 * i))) as Hs.
    rewrite !app_nil_r, Ht in Hs. rewrite length_drop in Hs.
    replace (Z.of_nat (32 * S i)) with (Z.of_nat 32 + Z.of_nat (32 * i)) by lia. rewrite Hs by lia.
    change (<[S i := x]> (take 32 l :: slots n (drop 32 l))) with (take 32 l :: <[i := x]> (slots n (drop 32 l))).
    rewrite <- (IH (drop 32 l) i) by (rewrite ?length_drop; lia).
    f_equal; [by rewrite <- Ht at 1; rewrite take_app_length|]. f_equal. rewrite <- Ht at 1. apply drop_app_length.
Qed.

(** The slot scan as a function of the list of slots. *)
Fixpoint scan_list {A} (f : list Z → scan A) (l : list (list Z)) : scan A :=
  match l with
  | [] => Next
  | e :: l' => match f e with Next => scan_list f l' | r => r end
  end.

Definition scan_result {A} (r : scan A) : option A := match r with Hit a => Some a | _ => None end.

Lemma scan_list_app {A} (f : list Z → scan A) l k :
  scan_list f (l ++ k) = match scan_list f l with Next => scan_list f k | r => r end.
Proof. induction l as [|e l IH]; simpl; [done|]. destruct (f e); done. Qed.

Lemma scan_entries_spec {A} (f : list Z → scan A) sec off n :
  0 ≤ off → scan_entries f sec off n = scan_list f (slots n (drop (Z.to_nat off) sec)).
Proof.
  revert off. induction n as [|n IH]; intros off Ho; [done|]. cbn [scan_entries slots scan_list].
  unfold slice at 1, DIR_ENTRY_SIZE. change (Z.to_nat 32) with 32%nat. destruct (f _); try done.
  rewrite IH by lia. rewrite drop_drop. do 3 f_equal. lia.
Qed.

Lemma update_entry_spec (f : list Z → bool) upd sec off n :
  0 ≤ off → off + 32 * Z.of_nat n ≤ 512 →
  match list_find f (slots n (drop (Z.to_nat off) sec)) with
  | Some (i, e) => update_entry f upd sec off n = Some (splice sec (off + 32 * Z.of_nat i) (upd e))
  | None => update_entry f upd sec off n = None
  end.
Proof.
  revert off. induction n as [|n IH]; intros off Ho Hn; [done|]. cbn [update_entry slots list_find].
  unfold slice, DIR_ENTRY_SIZE. change (Z.to_nat 32) with 32%nat. case_decide as Hf.
  - apply Is_true_true in Hf. rewrite Hf. simpl. by rewrite Z.add_0_r.
  - destruct (f (take 32 (drop (Z.to_nat off) sec))); [done|]. specialize (IH (off + 32) ltac:(lia) ltac:(lia)).
    rewrite drop_drop in *. replace (Z.to_nat (off + 32)) with (Z.to_nat off + 32)%nat in IH by lia.
    destruct (list_find f _) as [[i e]|]; simpl; rewrite IH; [|done]. do 2 f_equal. lia.
Qed.

Section Dir.
Context {D : Type} `{!BlockDev D}.
Context (v : fat_vol) (Hv : vol_ok v).
Implicit Types d : D.

(** The slots of a cluster and of a directory. *)
Definition cluster_slots d (c : Z) : list (list Z) :=
  slots (16 * Z.to_nat (sectors_per_cluster v)) (cluster_bytes v d c).
Definition dir_slots d (cs : list Z) : list (list Z) := concat (cluster_slots d <$> cs).

Lemma cluster_slots_split d c s :
  0 ≤ s < sectors_per_cluster v →
  slots (16 * Z.to_nat (sectors_per_cluster v - s)) (drop (512 * Z.to_nat s) (cluster_bytes v d c)) =
    slots 16 (bd_sector d (data_start_sector v + (c - 2) * sectors_per_cluster v + s)) ++
    slots (16 * Z.to_nat (sectors_per_cluster v - (s + 1))) (drop (512 * Z.to_nat (s + 1)) (cluster_bytes v d c)).
Proof.
  intros Hs. rewrite cluster_bytes_split by done.
  replace (16 * Z.to_nat (sectors_per_cluster v - s))%nat
    with (16 + 16 * Z.to_nat (sectors_per_cluster v - (s + 1)))%nat by lia.
  apply slots_concat. by rewrite bd_sector_length.
Qed.

Lemma scan_sectors_spec {A} (f : list Z → scan A) d c s n :
  bd_ok d → cluster_ok v c → 0 ≤ s → s + Z.of_nat n = sectors_per_cluster v →
  scan_sectors f d (cluster_to_sector v c) s n =
    scan_list f (slots (16 * Z.to_nat (sectors_per_cluster v - s)) (drop (512 * Z.to_nat s) (cluster_bytes v d c))).
Proof using Hv.
  intros Hd Hc. revert s. induction n as [|n IH]; intros s Hs Hn; cbn [scan_sectors].
  - replace (16 * Z.to_nat (sectors_per_cluster v - s))%nat with 0%nat by lia. done.
  - rewrite cluster_sector_add by (done || lia). rewrite bd_read_ok by (done || apply sectors_cap; done || lia).
    rewrite cluster_slots_split, scan_list_app, scan_entries_spec by lia. change (Z.to_nat 0) with 0%nat.
    rewrite drop_0. destruct (scan_list f _); try done. rewrite IH by lia. done.
Qed.

Lemma scan_dir_spec {A} (f : list Z → scan A) d c cs fuel :
  file_ok v d c cs → (length cs < fuel)%nat →
  scan_dir v f d c fuel = Some (scan_result (scan_list f (dir_slots d cs))).
Proof using Hv.
  intros [Hd Hch _ Hok]. revert c fuel Hch. induction Hok as [|x cs Hx _ IH]; intros c fuel Hch Hf.
  - simpl in Hch. destruct fuel; simpl; by rewrite decide_True.
  - destruct Hch as (-> & Hlt & Hch). destruct fuel as [|fu]; [simpl in Hf; lia|]. cbn [scan_dir].
    rewrite decide_False by lia. pose proof (vo_spc v Hv). rewrite scan_sectors_spec by (done || lia).
    rewrite Z.sub_0_r. change (512 * Z.to_nat 0)%nat with 0%nat. rewrite drop_0. fold (cluster_slots d x).
    change (dir_slots d (x :: cs)) with (cluster_slots d x ++ dir_slots d cs). rewrite scan_list_app.
    destruct (scan_list f (cluster_slots d x)); try done. apply IH; [done|simpl in Hf; lia].
Qed.

(** A slot of one sector of a cluster is overwritten. *)
Lemma cluster_slot_write d d' c s i x :
  0 ≤ s < sectors_per_cluster v → (i < 16)%nat → length x = 32%nat →
  let sec := data_start_sector v + (c - 2) * sectors_per_cluster v + s in
  bd_sector d' sec = splice (bd_sector d sec) (Z.of_nat (32 * i)) x →
  (∀ s', s' ≠ sec → bd_sector d' s' = bd_sector d s') →
  cluster_slots d' c = <[(16 * Z.to_nat s + i)%nat := x]> (cluster_slots d c).
Proof using Hv.
  intros Hs Hi Hx sec Hsec Ho. unfold cluster_slots. unfold cluster_bytes at 1.
  rewrite (cluster_bytes_write v d d' c s _ Hs Hsec Ho), (concat_splice 512); [|apply sectors_blocks| |lia|lia].
  - fold (cluster_bytes v d c). rewrite <- slots_splice; [|lia| |done].
    + do 2 f_equal. lia.
    + rewrite cluster_bytes_length. unfold bpc. lia.
  - rewrite list_lookup_fmap. unfold sectors_of. rewrite list_lookup_fmap, lookup_seqZ_lt by lia. simpl.
    unfold sec. do 2 f_equal. lia.
Qed.

Lemma update_sectors_spec (f : list Z → bool) upd d c s n :
  bd_ok d → cluster_ok v c → (∀ e, length e = 32%nat → length (upd e) = 32%nat) → 0 ≤ s → s + Z.of_nat n = sectors_per_cluster v →
  match list_find f (slots (16 * Z.to_nat (sectors_per_cluster v - s)) (drop (512 * Z.to_nat s) (cluster_bytes v d c))) with
  | Some (i, e) => ∃ d', update_sectors f upd d (cluster_to_sector v c) s n = (Some true, d') ∧ bd_ok d' ∧
      cluster_slots d' c = <[(16 * Z.to_nat s + i)%nat := upd e]> (cluster_slots d c) ∧
      ∀ s', s' ∉ sectors_of v c → bd_sector d' s' = bd_sector d s'
  | None => update_sectors f upd d (cluster_to_sector v c) s n = (None, d)
  end.
Proof using Hv.
  intros Hd Hc Hu. revert s. induction n as [|n IH]; intros s Hs Hn; cbn [update_sectors].
  { replace (16 * Z.to_nat (sectors_per_cluster v - s))%nat with 0%nat by lia. done. }
  rewrite cluster_sector_add by (done || lia). rewrite bd_read_ok by (done || apply sectors_cap; done || lia).
  rewrite cluster_slots_split by lia. set (sec := data_start_sector v + (c - 2) * sectors_per_cluster v + s).
  pose proof (update_entry_spec f upd (bd_sector d sec) 0 16 ltac:(lia) ltac:(lia)) as Hue.
  change (Z.to_nat 0) with 0%nat in Hue. rewrite drop_0 in Hue.
  destruct (list_find f (slots 16 (bd_sector d sec))) as [[i e]|] eqn:Ef.
  - rewrite (list_find_app_l _ _ _ _ _ Ef), Hue.
    assert (i < 16 ∧ length e = 32)%nat as [Hi He].
    { apply list_find_Some in Ef as (Hl & _). split.
      - apply lookup_lt_Some in Hl. by rewrite slots_length in Hl.
      - refine (Forall_lookup_1 (λ e, length e = 32%nat) _ i e _ Hl). apply slots_elem_length. by rewrite bd_sector_length. }
    specialize (Hu e He).
    destruct (bd_write_ok d sec (splice (bd_sector d sec) (0 + 32 * Z.of_nat i) (upd e)) Hd) as (d' & -> & Hd' & Hs1 & Ho1).
    { apply sectors_cap; (done || lia). }
    { rewrite splice_length, bd_sector_length; [done|lia|]. rewrite Hu, bd_sector_length. lia. }
    exists d'. split; [done|]. split; [done|]. split.
    + apply cluster_slot_write; try done; [lia|]. fold sec. rewrite Hs1. f_equal. lia.
    + intros s' Hs'. apply Ho1. intros ->. apply Hs'. apply elem_of_sectors. unfold sec. lia.
  - rewrite list_find_app_r by done. rewrite Hue.
    specialize (IH (s + 1) ltac:(lia) ltac:(lia)). rewrite slots_length.
    destruct (list_find f (slots _ _)) as [[i e]|]; simpl; [|done].
    destruct IH as (d' & E & Hd' & Hc' & Ho'). exists d'. split; [done|]. split; [done|]. split; [|done].
    rewrite Hc'. f_equal. lia.
Qed.

Lemma cluster_slots_frame d d' c :
  (∀ s, s ∈ sectors_of v c → bd_sector d' s = bd_sector d s) → cluster_slots d' c = cluster_slots d c.
Proof. intros H. unfold cluster_slots. by rewrite (cluster_bytes_frame v d d'). Qed.

Lemma cluster_slots_length d c : length (cluster_slots d c) = (16 * Z.to_nat (sectors_per_cluster v))%nat.
Proof. apply slots_length. Qed.

(** The clusters of one file are disjoint, so a change in one of them leaves
    the slots of the others alone. *)
Lemma dir_slots_frame d d' x cs :
  x ∉ cs → (∀ s, s ∉ sectors_of v x → bd_sector d' s = bd_sector d s) → dir_slots d' cs = dir_slots d cs.
Proof using Hv.
  intros Hx Ho. unfold dir_slots. f_equal. apply list_fmap_ext. intros i y Hy%list_elem_of_lookup_2.
  apply cluster_slots_frame. intros s Hs. apply Ho. intros Hs'. by pose proof (sectors_disjoint v Hv _ _ _ Hs Hs') as ->.
Qed.

Lemma update_dir_spec (f : list Z → bool) upd d c cs fuel :
  file_ok v d c cs → (length cs < fuel)%nat → (∀ e, length e = 32%nat → length (upd e) = 32%nat) →
  match list_find f (dir_slots d cs) with
  | Some (i, e) => ∃ d', update_dir v f upd d c fuel = Some (true, d') ∧ bd_ok d' ∧
      dir_slots d' cs = <[i := upd e]> (dir_slots d cs) ∧
      ∀ s, (∀ x, x ∈ cs → s ∉ sectors_of v x) → bd_sector d' s = bd_sector d s
  | None => update_dir v f upd d c fuel = Some (false, d)
  end.
Proof using Hv.
  intros [Hd Hch Hnd Hok] Hf Hu. revert c fuel Hch Hnd Hf. induction Hok as [|x cs Hx _ IH]; intros c fuel Hch Hnd Hf.
  { simpl in Hch |- *. destruct fuel; simpl; by rewrite decide_True. }
  destruct Hch as (-> & Hlt & Hch). destruct fuel as [|fu]; [simpl in Hf; lia|]. cbn [update_dir].
  rewrite decide_False by lia. pose proof (vo_spc v Hv).
  apply NoDup_cons in Hnd as [Hxcs Hnd].
  pose proof (update_sectors_spec f upd d x 0 (Z.to_nat (sectors_per_cluster v)) Hd Hx Hu ltac:(lia) ltac:(lia)) as Hus.
  rewrite Z.sub_0_r in Hus. change (512 * Z.to_nat 0)%nat with 0%nat in Hus. rewrite drop_0 in Hus.
  fold (cluster_slots d x) in Hus. change (16 * Z.to_nat 0)%nat with 0%nat in Hus.
  change (dir_slots d (x :: cs)) with (cluster_slots d x ++ dir_slots d cs).
  destruct (list_find f (cluster_slots d x)) as [[i e]|] eqn:Ef.
  - rewrite (list_find_app_l _ _ _ _ _ Ef). destruct Hus as (d' & -> & Hd' & Hc' & Ho'). exists d'.
    split; [done|]. split; [done|]. split.
    + change (dir_slots d' (x :: cs)) with (cluster_slots d' x ++ dir_slots d' cs).
      rewrite (dir_slots_frame d d' x cs Hxcs Ho'), Hc', insert_app_l; [done|].
      apply list_find_Some in Ef as (Hl & _). by eapply lookup_lt_Some.
    + intros s Hs. apply Ho', Hs. by left.
  - rewrite list_find_app_r by done. rewrite Hus. specialize (IH (fat_next v d x) fu Hch Hnd ltac:(simpl in Hf; lia)).
    destruct (list_find f (dir_slots d cs)) as [[i e]|]; cbn [fmap option_fmap option_map prod_map fst snd]; [|done].
    destruct IH as (d' & E & Hd' & Hc' & Ho'). exists d'. split; [done|]. split; [done|]. split.
    + change (dir_slots d' (x :: cs)) with (cluster_slots d' x ++ dir_slots d' cs).
      rewrite Hc', Nat.add_comm, insert_app_r. f_equal. apply cluster_slots_frame. intros s Hs. apply Ho'.
      intros y Hy Hs'. by pose proof (sectors_disjoint v Hv _ _ _ Hs Hs') as ->.
    + intros s Hs. apply Ho'. intros y Hy. apply Hs. by right.
Qed.

(** A slot a lookup can find. *)
Definition live (e : list Z) : Prop :=
  de_first e ≠ 0 ∧ de_first e ≠ 0xE5 ∧ de_attr e ≠ ATTR_LFN ∧ Z.land (de_attr e) ATTR_VOLUME_ID = 0.

Lemma lookup_slot_hit t e r :
  lookup_slot t e = Hit r ↔ live e ∧ de_name e = t ∧ r = (de_cluster e, de_fsize e, de_attr e).
Proof. unfold lookup_slot, live. repeat case_decide; naive_solver. Qed.

Lemma lookup_slot_stop t e : lookup_slot t e = Stop ↔ de_first e = 0.
Proof. unfold lookup_slot. repeat case_decide; naive_solver. Qed.

(** Directory lookup: in a well-formed directory [dir_lookup] ends, and
    it finds an entry exactly when some slot holds a live entry of that name
    with no end marker and no other such entry before it; the result is that
    slot's first cluster, size and attributes. *)
Theorem dir_lookup_correct d c cs fuel target :
  file_ok v d c cs → (length cs < fuel)%nat →
  ∃ r, dir_lookup v fuel d c target = Some r ∧
    ∀ q, r = Some q ↔ ∃ k e, dir_slots d cs !! k = Some e ∧ live e ∧ de_name e = target ∧
      q = (de_cluster e, de_fsize e, de_attr e) ∧
      ∀ j e', (j < k)%nat → dir_slots d cs !! j = Some e' → de_first e' ≠ 0 ∧ ¬ (live e' ∧ de_name e' = target).
Proof using Hv.
  intros Hf Hfuel. unfold dir_lookup. rewrite (scan_dir_spec _ d c cs) by done. eexists. split; [done|].
  intros q. generalize (dir_slots d cs). clear. intros l. induction l as [|e l IH]; simpl.
  { split; [done|]. by intros (k & e & ? & _). }
  destruct (lookup_slot target e) as [a| |] eqn:El; simpl.
  - apply lookup_slot_hit in El as (Hl & Hn & ->). split.
    + intros [= <-]. exists 0%nat, e. repeat (split; [done|]). intros j e' Hj. lia.
    + intros (k & e' & Hk & Hl' & Hn' & -> & Hb). destruct k as [|k]; [by injection Hk as ->|].
      destruct (Hb 0%nat e ltac:(lia) eq_refl) as [_ []]. done.
  - apply lookup_slot_stop in El. split; [done|]. intros (k & e' & Hk & Hl' & Hn' & -> & Hb).
    destruct k as [|k]; [injection Hk as ->; by destruct Hl' as [? _]|].
    by destruct (Hb 0%nat e ltac:(lia) eq_refl) as [? _].
  - assert (de_first e ≠ 0 ∧ ¬ (live e ∧ de_name e = target)) as [He Hnm].
    { split; [intros H0%(lookup_slot_stop target); congruence|]. intros [Hl Hn].
      pose proof (proj2 (lookup_slot_hit target e _) (conj Hl (conj Hn eq_refl))). congruence. }
    rewrite IH. split.
    + intros (k & e' & Hk & Hl' & Hn' & -> & Hb). exists (S k), e'. repeat (split; [done|]).
      intros [|j] e'' Hj; [by intros [= <-]|]. apply Hb. lia.
    + intros (k & e' & Hk & Hl' & Hn' & -> & Hb). destruct k as [|k]; [injection Hk as ->; tauto|].
      exists k, e'. repeat (split; [done|]). intros j e'' Hj Hj'. apply (Hb (S j)); [lia|done].
Qed.

(** *** Adding an entry *)

Definition slot_free (e : list Z) : bool := bool_decide (de_first e = 0 ∨ de_first e = 0xE5).

Lemma scan_add t entry l i e :
  list_find slot_free l = Some (i, e) →
  match lookup_slot t entry with
  | Hit r => scan_result (scan_list (lookup_slot t) l) = None → scan_list (lookup_slot t) (<[i := entry]> l) = Hit r
  | Next => ∀ q, scan_list (lookup_slot t) l = Hit q → scan_list (lookup_slot t) (<[i := entry]> l) = Hit q
  | Stop => True
  end.
Proof.
  revert i. induction l as [|e0 l IH]; intros i Hi; [done|]. cbn [list_find] in Hi. case_decide as Hfree.
  - injection Hi as <- ->. cbn [insert list_insert scan_list]. destruct (lookup_slot t entry) as [r| |]; [done|done|].
    intros q. unfold slot_free in Hfree. apply bool_decide_unpack in Hfree as [H0|HE].
    + rewrite (proj2 (lookup_slot_stop t e) H0). done.
    + assert (lookup_slot t e = Next) as ->; [|done]. unfold lookup_slot. rewrite HE. repeat case_decide; done.
  - apply fmap_Some in Hi as ([i' e'] & Hi & [= -> ->]). specialize (IH i' Hi).
    change (<[S i' := entry]> (e0 :: l)) with (e0 :: <[i' := entry]> l). cbn [scan_list].
    destruct (lookup_slot t e0) as [a| |] eqn:E0; [by destruct (lookup_slot t entry)| |done].
    apply lookup_slot_stop in E0. destruct Hfree. apply bool_decide_pack. by left.
Qed.

Lemma le16_get lo hi : 0 ≤ lo < 2 ^ 16 → 0 ≤ hi < 2 ^ 16 → Z.lor (Z.shiftl hi 16) lo = hi * 2 ^ 16 + lo.
Proof.
  intros Hlo Hhi. rewrite Z.shiftl_mul_pow2 by lia.
  rewrite <- Z.lxor_lor, <- Z.add_nocarry_lxor; [done|..].
  all: apply Z.bits_inj'; intros n Hn; rewrite Z.land_spec, Z.bits_0; destruct (decide (n < 16));
    [rewrite Z.mul_pow2_bits_low by lia; done|rewrite (testbit_high lo 16) by lia; apply andb_false_r].
Qed.

(** The fields of a fresh entry read back. *)
Lemma mk_dir_entry_fields name attr fc len :
  length name = 11%nat → is_u32 fc → is_u32 len →
  let e := mk_dir_entry name attr fc len in
  length e = 32%nat ∧ de_name e = name ∧ de_first e = byte_at name 0 ∧ de_attr e = attr ∧
  de_cluster e = fc ∧ de_fsize e = len.
Proof.
  intros Hn Hfc Hlen e.
  do 11 (destruct name as [|? name]; [done|]). destruct name; [|done]. clear Hn.
  split; [done|]. split; [done|]. split; [done|]. split; [done|]. split.
  - unfold e, de_cluster, mk_dir_entry, get16, byte_at, le16, is_u32 in *. simpl.
    rewrite Z.shiftr_div_pow2 by lia. change 65535 with (Z.ones 16). rewrite Z.land_ones by lia.
    rewrite le16_get by dlia. dlia.
  - unfold e, de_fsize. rewrite <- (get32_le32 len Hlen) at 2. unfold get32, byte_at, mk_dir_entry. simpl. done.
Qed.

(** Adding a directory entry: if no slot is free the call fails and
    nothing changes.  Otherwise the new entry replaces the first free slot and
    nothing else on the disk changes; a name that was absent is then found
    with the cluster, size and attributes that were stored, and every other
    name that was found before is found as before. *)
Theorem dir_add_entry_correct d c cs fuel name fc len :
  file_ok v d c cs → (length cs < fuel)%nat → length name = 11%nat → byte_at name 0 ≠ 0 → byte_at name 0 ≠ 0xE5 →
  is_u32 fc → is_u32 len →
  let entry := mk_dir_entry name 0x20 fc len in
  match list_find slot_free (dir_slots d cs) with
  | None => dir_add_entry v fuel d c entry = Some (false, d)
  | Some (i, _) => ∃ d', dir_add_entry v fuel d c entry = Some (true, d') ∧ file_ok v d' c cs ∧
      dir_slots d' cs = <[i := entry]> (dir_slots d cs) ∧
      (∀ s, (∀ x, x ∈ cs → s ∉ sectors_of v x) → bd_sector d' s = bd_sector d s) ∧
      (dir_lookup v fuel d c name = Some None → dir_lookup v fuel d' c name = Some (Some (fc, len, 0x20))) ∧
      ∀ other q, other ≠ name → dir_lookup v fuel d c other = Some (Some q) →
        dir_lookup v fuel d' c other = Some (Some q)
  end.
Proof using Hv.
  intros Hf Hfuel Hn H0 HE Hfc Hlen entry.
  destruct (mk_dir_entry_fields name 0x20 fc len Hn Hfc Hlen) as (Hl & En & Ef & Ea & Ec & Es). fold entry in Hl, En, Ef, Ea, Ec, Es.
  assert (live entry) as Hlive by (unfold live; rewrite Ef, Ea; done).
  pose proof (update_dir_spec slot_free (λ _, entry) d c cs fuel Hf Hfuel (λ _ _, Hl)) as Hu.
  unfold dir_add_entry. fold slot_free. destruct (list_find slot_free (dir_slots d cs)) as [[i e]|] eqn:Efind; [|done].
  destruct Hu as (d' & E & Hd' & Hs & Ho). exists d'. split; [done|].
  assert (file_ok v d' c cs) as Hf'.
  { apply (file_frame_fat v Hv d); [done|done|]. intros s Hlt. apply Ho. intros x Hx Hin.
    destruct Hf as [_ _ _ Hok]. rewrite Forall_forall in Hok. pose proof (sectors_data v Hv x s (Hok x Hx) Hin). lia. }
  split; [done|]. split; [done|]. split; [done|].
  unfold dir_lookup. pose proof (λ t, scan_dir_spec (lookup_slot t) d c cs fuel Hf Hfuel) as S1.
  pose proof (λ t, scan_dir_spec (lookup_slot t) d' c cs fuel Hf' Hfuel) as S2. split.
  - rewrite S1, S2, Hs. intros [= Hnone]. pose proof (scan_add name entry _ i e Efind) as Hadd.
    rewrite (proj2 (lookup_slot_hit name entry (fc, len, 0x20))) in Hadd by (rewrite Ec, Es, Ea; done).
    by rewrite Hadd.
  - intros other q Hne. rewrite S1, S2, Hs. intros [= Hq]. pose proof (scan_add other entry _ i e Efind) as Hadd.
    assert (lookup_slot other entry = Next) as Enext.
    { destruct Hlive as (? & ? & ? & ?). unfold lookup_slot. rewrite En. repeat case_decide; done || congruence. }
    rewrite Enext in Hadd. rewrite (Hadd q); [done|].
    destruct (scan_list (lookup_slot other) (dir_slots d cs)); simpl in Hq; congruence.
Qed.

(** *** Listing *)

(** The listing as a function of the slots, numbered from [k]. *)
Fixpoint iter_list (start k : Z) (l : list (list Z)) : option fat_dirent * Z :=
  match l with
  | [] => (None, k)
  | e :: l' =>
      if decide (k < start) then iter_list start (k + 1) l'
      else match iter_slot e with
           | Hit r => (Some r, k + 1)
           | Stop => (None, k)
           | Next => iter_list start (k + 1) l'
           end
  end.

(** The same without an answer when the slots run out. *)
Fixpoint iter_part (start k : Z) (l : list (list Z)) : option (option fat_dirent * Z) :=
  match l with
  | [] => None
  | e :: l' =>
      if decide (k < start) then iter_part start (k + 1) l'
      else match iter_slot e with
           | Hit r => Some (Some r, k + 1)
           | Stop => Some (None, k)
           | Next => iter_part start (k + 1) l'
           end
  end.

Lemma iter_list_app start k l1 l2 :
  iter_list start k (l1 ++ l2) =
    match iter_part start k l1 with Some r => r | None => iter_list start (k + Z.of_nat (length l1)) l2 end.
Proof.
  revert k. induction l1 as [|e l1 IH]; intros k; [by rewrite Z.add_0_r|].
  cbn [app iter_list iter_part length].
  replace (k + Z.of_nat (S (length l1))) with (k + 1 + Z.of_nat (length l1)) by lia.
  case_decide; [apply IH|]. by destruct (iter_slot e).
Qed.

Lemma iter_part_app start k l1 l2 :
  iter_part start k (l1 ++ l2) =
    match iter_part start k l1 with Some r => Some r | None => iter_part start (k + Z.of_nat (length l1)) l2 end.
Proof.
  revert k. induction l1 as [|e l1 IH]; intros k; [by rewrite Z.add_0_r|].
  cbn [app iter_part length].
  replace (k + Z.of_nat (S (length l1))) with (k + 1 + Z.of_nat (length l1)) by lia.
  case_decide; [apply IH|]. by destruct (iter_slot e).
Qed.

Lemma iter_part_skip start k l : k + Z.of_nat (length l) ≤ start → iter_part start k l = None.
Proof.
  revert k. induction l as [|e l IH]; intros k Hk; [done|]. cbn [iter_part length] in *.
  rewrite decide_True by lia. apply IH. lia.
Qed.

Lemma iter_entries_spec start k sec off n :
  0 ≤ off → iter_entries start k sec off n = iter_part start k (slots n (drop (Z.to_nat off) sec)).
Proof.
  revert k off. induction n as [|n IH]; intros k off Ho; [done|]. cbn [iter_entries slots iter_part].
  unfold slice at 1, DIR_ENTRY_SIZE. change (Z.to_nat 32) with 32%nat.
  assert (iter_entries start (k + 1) sec (off + 32) n = iter_part start (k + 1) (slots n (drop 32 (drop (Z.to_nat off) sec)))) as ->.
  { rewrite IH by lia. rewrite drop_drop. do 3 f_equal. lia. }
  done.
Qed.

Lemma iter_sectors_spec d c start k s n :
  bd_ok d → cluster_ok v c → 0 ≤ s → s + Z.of_nat n = sectors_per_cluster v →
  iter_sectors d start k (cluster_to_sector v c) s n =
    iter_part start (k + 16 * s)
      (slots (16 * Z.to_nat (sectors_per_cluster v - s)) (drop (512 * Z.to_nat s) (cluster_bytes v d c))).
Proof using Hv.
  intros Hd Hc. revert s. induction n as [|n IH]; intros s Hs Hn; cbn [iter_sectors].
  { replace (16 * Z.to_nat (sectors_per_cluster v - s))%nat with 0%nat by lia. done. }
  rewrite cluster_slots_split, iter_part_app, slots_length by lia. rewrite IH by lia.
  replace (k + 16 * (s + 1)) with (k + 16 * s + Z.of_nat 16) by lia. rewrite (Z.mul_comm s 16).
  rewrite cluster_sector_add by (done || lia). case_decide as Hskip.
  - rewrite (iter_part_skip start (k + 16 * s)) by (rewrite slots_length; lia). done.
  - rewrite bd_read_ok by (done || apply sectors_cap; done || lia). rewrite iter_entries_spec by lia.
    change (Z.to_nat 0) with 0%nat. rewrite drop_0. done.
Qed.

Lemma iter_clusters_spec d c cs start k fuel :
  file_ok v d c cs → (length cs < fuel)%nat →
  iter_clusters v d start k c fuel = Some (iter_list start k (dir_slots d cs)).
Proof using Hv.
  intros [Hd Hch _ Hok]. revert c k fuel Hch. induction Hok as [|x cs Hx _ IH]; intros c k fuel Hch Hf.
  - simpl in Hch. destruct fuel; simpl; by rewrite decide_True.
  - destruct Hch as (-> & Hlt & Hch). destruct fuel as [|fu]; [simpl in Hf; lia|]. cbn [iter_clusters].
    rewrite decide_False by lia. pose proof (vo_spc v Hv). rewrite iter_sectors_spec by (done || lia).
    rewrite Z.sub_0_r, Z.mul_0_r, Z.add_0_r. change (512 * Z.to_nat 0)%nat with 0%nat. rewrite drop_0.
    fold (cluster_slots d x). change (dir_slots d (x :: cs)) with (cluster_slots d x ++ dir_slots d cs).
    rewrite iter_list_app. destruct (iter_part start k (cluster_slots d x)); [done|].
    rewrite IH by (done || simpl in Hf; lia). rewrite cluster_slots_length. do 2 f_equal. lia.
Qed.

Lemma iter_slot_cases e :
  (iter_slot e = Hit (dirent_of_entry e) ∧ live e) ∨ (iter_slot e = Stop ∧ de_first e = 0) ∨
  (iter_slot e = Next ∧ de_first e ≠ 0 ∧ ¬ live e).
Proof. unfold iter_slot, live. repeat case_decide; naive_solver. Qed.

Lemma live_not_end e : live e → de_first e ≠ 0.
Proof. by intros [? _]. Qed.

Lemma iter_list_spec start k l r k' :
  iter_list start k l = (r, k') →
  match r with
  | Some x => ∃ i e, l !! i = Some e ∧ start ≤ k + Z.of_nat i ∧ live e ∧ x = dirent_of_entry e ∧
      k' = k + Z.of_nat i + 1 ∧
      ∀ j e', (j < i)%nat → start ≤ k + Z.of_nat j → l !! j = Some e' → de_first e' ≠ 0 ∧ ¬ live e'
  | None => ∀ i e, l !! i = Some e → start ≤ k + Z.of_nat i → live e →
      ∃ j e', (j < i)%nat ∧ start ≤ k + Z.of_nat j ∧ l !! j = Some e' ∧ de_first e' = 0
  end.
Proof.
  revert k. induction l as [|e l IH]; intros k; cbn [iter_list].
  { intros [= <- _]. by intros i e ?. }
  (* one slot that is passed over *)
  assert ((k < start ∨ (de_first e ≠ 0 ∧ ¬ live e)) → iter_list start (k + 1) l = (r, k') →
    match r with
    | Some x => ∃ i e0, (e :: l) !! i = Some e0 ∧ start ≤ k + Z.of_nat i ∧ live e0 ∧ x = dirent_of_entry e0 ∧
        k' = k + Z.of_nat i + 1 ∧
        ∀ j e', (j < i)%nat → start ≤ k + Z.of_nat j → (e :: l) !! j = Some e' → de_first e' ≠ 0 ∧ ¬ live e'
    | None => ∀ i e0, (e :: l) !! i = Some e0 → start ≤ k + Z.of_nat i → live e0 →
        ∃ j e', (j < i)%nat ∧ start ≤ k + Z.of_nat j ∧ (e :: l) !! j = Some e' ∧ de_first e' = 0
    end) as Hpass.
  { intros Hskip Hr. specialize (IH (k + 1) Hr). destruct r as [x|].
    - destruct IH as (i & e0 & Hi & Hge & Hl & -> & -> & Hb). exists (S i), e0. split; [done|]. split; [lia|].
      split; [done|]. split; [done|]. split; [lia|]. intros [|j] e' Hj Hgej Hj'.
      + injection Hj' as <-. destruct Hskip; [lia|done].
      + apply (Hb j e'); [lia|lia|done].
    - intros [|i] e0 Hi Hge Hl.
      + injection Hi as <-. destruct Hskip as [?|[_ ?]]; [lia|done].
      + destruct (IH i e0 Hi ltac:(lia) Hl) as (j & e' & Hj & Hgej & Hj' & H0). exists (S j), e'.
        split; [lia|]. split; [lia|]. done. }
  case_decide as Hk; [apply Hpass; by left|].
  destruct (iter_slot_cases e) as [[-> Hl]|[[-> H0]|(-> & H0 & Hl)]]; [..|apply Hpass; by right].
  - intros [= <- <-]. exists 0%nat, e. split; [done|]. split; [lia|]. split; [done|]. split; [done|].
    split; [lia|]. intros j e' Hj. lia.
  - intros [= <- <-]. intros [|i] e0 Hi Hge Hl.
    + injection Hi as <-. by apply live_not_end in Hl.
    + exists 0%nat, e. split; [lia|]. split; [lia|]. done.
Qed.

(** C24. Listing a directory.  Every call ends.  In the root directory the cookies 0
    and 1 give the entries "." and ".." and lead to the next cookie.  Otherwise
    a call returns the first live slot at or after the cookie with no end marker
    in between, and the cookie behind it; or, when there is none, the end.  The
    real slots of the root are numbered from 0 like those of any directory, so
    whatever the cookie, its first two slots are never listed. *)
Theorem fat32_dir_iterate_correct d c cs fuel offset :
  file_ok v d c cs → (length cs < fuel)%nat → 0 ≤ offset →
  ∃ r offset', fat32_dir_iterate v fuel d c offset = Some (r, offset') ∧
    if decide (c = root_cluster v ∧ offset < 2)
    then r = Some (dirent_synth (replicate (Z.to_nat offset + 1) DOT) c) ∧ offset' = offset + 1
    else match r with
    | Some x => ∃ i e, dir_slots d cs !! i = Some e ∧ offset ≤ Z.of_nat i ∧ live e ∧ x = dirent_of_entry e ∧
        offset' = Z.of_nat i + 1 ∧ (c = root_cluster v → 2 ≤ Z.of_nat i) ∧
        ∀ j e', (j < i)%nat → offset ≤ Z.of_nat j → dir_slots d cs !! j = Some e' → de_first e' ≠ 0 ∧ ¬ live e'
    | None => ∀ i e, dir_slots d cs !! i = Some e → offset ≤ Z.of_nat i → live e →
        ∃ j e', (j < i)%nat ∧ offset ≤ Z.of_nat j ∧ dir_slots d cs !! j = Some e' ∧ de_first e' = 0
    end.
Proof using Hv.
  intros Hf Hfuel Ho. destruct (decide (c = root_cluster v ∧ offset < 2)) as [[Hc Hlt]|Hn].
  { unfold fat32_dir_iterate, fat32_root_cluster. rewrite bool_decide_eq_true_2 by done. assert (offset = 0 ∨ offset = 1) as [-> | ->] by lia; eexists _, _; by split. }
  assert (c = root_cluster v → 2 ≤ offset) as Hroot by (intros Hc; destruct (decide (offset < 2)); [by destruct Hn|lia]). clear Hn.
  destruct (iter_list offset 0 (dir_slots d cs)) as [r offset'] eqn:E. exists r, offset'.
  assert (fat32_dir_iterate v fuel d c offset = Some (r, offset')) as ->.
  { unfold fat32_dir_iterate, fat32_root_cluster. case_bool_decide as Hc; simpl.
    - rewrite !bool_decide_eq_false_2 by (specialize (Hroot Hc); lia).
      rewrite decide_False by (specialize (Hroot Hc); lia). rewrite (iter_clusters_spec d c cs) by done. by rewrite E.
    - rewrite decide_False by lia. rewrite (iter_clusters_spec d c cs) by done. by rewrite E. }
  split; [done|]. pose proof (iter_list_spec offset 0 _ r offset' E) as H. destruct r as [x|]; [|exact H].
  destruct H as (i & e & Hi & Hge & Hl & -> & -> & Hb). exists i, e.
  split; [done|]. split; [lia|]. split; [done|]. split; [done|]. split; [lia|].
  split; [intros Hc; specialize (Hroot Hc); lia|]. exact Hb.
Qed.
End Dir.

(** ** Short names *)

Definition name_char (c : Z) : Prop := c ≠ SPACE ∧ c ≠ DOT.

Lemma upcase_char c : name_char c → name_char (upcase c).
Proof. unfold name_char, upcase, SPACE, DOT. case_decide; lia. Qed.

Lemma upcase_idem c : upcase (upcase c) = upcase c.
Proof. unfold upcase. repeat case_decide; lia. Qed.

Lemma until_space_pad n l : Forall name_char l → until_space (l ++ replicate n SPACE) = l.
Proof.
  induction 1 as [|c l [Hc _] _ IH]; simpl; [by destruct n|]. rewrite decide_False by done. by rewrite IH.
Qed.

Lemma pad_length n l : (length l ≤ n)%nat → length (pad n l) = n.
Proof. intros Hl. unfold pad. rewrite length_app, length_replicate. lia. Qed.

Lemma take_base_spec n base rest :
  Forall name_char base → (length base ≤ n)%nat → rest = [] ∨ head rest = Some DOT →
  take_base n (base ++ rest) = (upcase <$> base, rest).
Proof.
  intros Hb. revert n. induction Hb as [|c base [_ Hc] _ IH]; intros n Hn Hr; simpl in *.
  - destruct n, rest as [|x rest]; try done. destruct Hr as [?|[= ->]]; [done|]. done.
  - destruct n as [|n]; [lia|]. simpl. rewrite decide_False by done. rewrite IH by (done || lia). done.
Qed.

(** A name in "BASE.EXT" form. *)
Definition dotted (base ext : list Z) : list Z :=
  base ++ match ext with [] => [] | _ => DOT :: ext end.

Lemma to_83_dotted base ext :
  Forall name_char base → (length base ≤ 8)%nat → (length ext ≤ 3)%nat →
  to_83 (dotted base ext) = pad 8 (upcase <$> base) ++ pad 3 (upcase <$> ext).
Proof.
  intros Hb Hl He. unfold to_83, dotted. rewrite take_base_spec; [|done|done|destruct ext; auto].
  destruct ext as [|x ext]; [done|]. cbn [skip_to_dot]. rewrite decide_True by done.
  by rewrite (take_ge (x :: ext)) by done.
Qed.

Lemma display_pad base ext :
  Forall name_char base → Forall name_char ext → (length base ≤ 8)%nat → (length ext ≤ 3)%nat →
  shortname_to_display (pad 8 base ++ pad 3 ext) = dotted base ext.
Proof.
  intros Hb He Hlb Hle. unfold shortname_to_display, dotted.
  pose proof (pad_length 8 base Hlb) as H8. pose proof (pad_length 3 ext Hle) as H3.
  rewrite <- H8 at 1. rewrite take_app_length.
  assert (drop 8 (pad 8 base ++ pad 3 ext) = pad 3 ext) as -> by (rewrite <- H8 at 1; apply drop_app_length).
  rewrite (take_ge (pad 3 ext)) by lia.
  assert (byte_at (pad 8 base ++ pad 3 ext) 8 = default SPACE (head ext)) as ->.
  { unfold byte_at, arr_get. rewrite decide_True by lia. change (Z.to_nat 8) with 8%nat.
    rewrite lookup_app_r by lia. rewrite H8, Nat.sub_diag. by destruct ext. }
  unfold pad. rewrite !until_space_pad by done. f_equal. destruct ext as [|x ext]; [done|]. simpl.
  apply Forall_cons in He as [[Hx _] _]. by rewrite decide_False.
Qed.

Lemma upcase_chars l : Forall name_char l → Forall name_char (upcase <$> l).
Proof. intros H. apply Forall_fmap. eapply Forall_impl; [done|]. intros c. apply upcase_char. Qed.

(** 8.3 names: for a base of at most eight and an extension of at most
    three characters, neither blank nor dot, the stored form is eleven bytes,
    the name shown in a listing is the upper-case name, and looking up the
    name shown gives the stored form again. *)
Theorem shortname_roundtrip base ext :
  Forall name_char base → Forall name_char ext → (length base ≤ 8)%nat → (length ext ≤ 3)%nat →
  length (to_83 (dotted base ext)) = 11%nat ∧
  shortname_to_display (to_83 (dotted base ext)) = dotted (upcase <$> base) (upcase <$> ext) ∧
  to_83 (shortname_to_display (to_83 (dotted base ext))) = to_83 (dotted base ext).
Proof.
  intros Hb He Hlb Hle. rewrite to_83_dotted by done.
  rewrite display_pad; [|by apply upcase_chars|by apply upcase_chars|by rewrite length_fmap|by rewrite length_fmap].
  rewrite to_83_dotted; [|by apply upcase_chars|by rewrite length_fmap|by rewrite length_fmap].
  split; [rewrite length_app, !pad_length by (rewrite length_fmap; done); done|]. split; [done|].
  rewrite <- !list_fmap_compose. f_equal; f_equal; apply list_fmap_ext; intros; apply upcase_idem.
Qed.

Lemma shortname_roundtrip_witness :
  shortname_to_display (to_83 (dotted [102; 111] [98; 99])) = dotted [70; 79] [66; 67].
Proof.
  apply (shortname_roundtrip [102; 111] [98; 99]); try (simpl; lia);
    repeat constructor; unfold SPACE, DOT; lia.
Defined.

(** ** A small disk *)

(** Sixty-four sectors; unwritten ones are zero. *)
Abbreviation ram_disk := (gmap Z (list Z)).
Definition ram_sector (d : ram_disk) (s : Z) : list Z := take 512 (default [] (d !! s) ++ replicate 512 0).
Definition ram_read (d : ram_disk) (s : Z) : option (list Z) :=
  if decide (0 ≤ s < 64) then Some (ram_sector d s) else None.
Definition ram_write (d : ram_disk) (s : Z) (l : list Z) : bool * ram_disk :=
  if decide (0 ≤ s < 64) then (true, <[s := l]> d) else (false, d).

Lemma ram_sector_length d s : length (ram_sector d s) = 512%nat.
Proof. unfold ram_sector. rewrite length_take, length_app, length_replicate. lia. Qed.

#[export] Instance ram_block_dev : BlockDev ram_disk.
Proof.
  refine {| blk_read := ram_read; blk_write := ram_write; bd_cap := 64; bd_sector := ram_sector;
    bd_ok := λ _, True; bd_sector_length := ram_sector_length |}.
  - intros d s _ Hs. unfold ram_read. by rewrite decide_True.
  - intros d s l _ Hs Hl. unfold ram_write. rewrite decide_True by done. eexists. split; [done|].
    split; [done|]. unfold ram_sector. split.
    + rewrite lookup_insert_eq. simpl. rewrite <- Hl at 1. apply take_app_length.
    + intros s' Hne. by rewrite lookup_insert_ne.
Defined.

(** The FAT in sectors 1 and 2, one sector per cluster, the root directory in
    cluster 2 and a file in cluster 3. *)
Definition demo_vol : fat_vol := mk_vol 1 3 1 2 512.
Definition demo_entry : list Z := mk_dir_entry (to_83 [65; 46; 66]) 0x20 3 600.
Definition demo_ram : ram_disk :=
  <[1 := le32 FAT32_EOC ++ le32 FAT32_EOC ++ le32 FAT32_EOC ++ le32 FAT32_EOC]>
    (<[3 := demo_entry ++ demo_entry ++ demo_entry]> ∅).

Lemma demo_vol_ok : vol_ok (D := ram_disk) demo_vol.
Proof. constructor; simpl; unfold bd_cap; simpl; lia. Qed.

Lemma demo_cluster c : 2 ≤ c < 10 → cluster_ok (D := ram_disk) demo_vol c.
Proof.
  intros Hc. unfold cluster_ok, in_fat, FAT32_EOC. simpl. assert (c / 128 = 0) as -> by (apply Z.div_small; lia). lia.
Qed.

Lemma demo_room : room_ok (D := ram_disk) demo_vol 10.
Proof. constructor; [simpl; unfold FAT32_EOC; lia|]. intros x Hx. by apply demo_cluster. Qed.

Lemma demo_next c : c = 2 ∨ c = 3 → fat_next demo_vol demo_ram c = FAT32_EOC.
Proof. intros [-> | ->]; vm_compute; reflexivity. Qed.

Lemma demo_file c : c = 2 ∨ c = 3 → file_ok demo_vol demo_ram c [c].
Proof.
  intros Hc. constructor.
  - exact I.
  - cbn [is_chain]. rewrite demo_next by done. unfold FAT32_EOC. lia.
  - apply NoDup_singleton.
  - apply Forall_singleton, demo_cluster. lia.
Qed.

Lemma demo_free : free_count demo_vol demo_ram 10 = 6%nat.
Proof. vm_compute. reflexivity. Qed.

Lemma fat_alloc_cluster_correct_witness :
  ∃ r d', fat_alloc_cluster demo_vol demo_ram = Some (r, d').
Proof.
  destruct (fat_alloc_cluster_correct demo_vol demo_ram) as (r & d' & E & _).
  - exact demo_vol_ok.
  - exact I.
  - simpl. lia.
  - simpl. unfold FAT32_EOC. lia.
  - exists r, d'. exact E.
Defined.

(** Three bytes across the end of the first cluster. *)
Lemma fat32_write_at_correct_witness :
  ∃ d' ext, fat32_write_at demo_vol demo_ram 3 510 [7; 8; 9] = Some (Some 513, d') ∧
    file_ok demo_vol d' 3 ([3] ++ ext) ∧ length ext = 1%nat.
Proof.
  destruct (fat32_write_at_correct demo_vol demo_vol_ok 10 demo_room demo_ram 3 [3] 510 [7; 8; 9])
    as (d' & ext & E & F & L & _).
  - apply demo_file. right. reflexivity.
  - discriminate.
  - lia.
  - simpl. lia.
  - rewrite demo_free. vm_compute. lia.
  - exists d', ext. split; [exact E|]. split; [exact F|exact L].
Defined.

Lemma dir_lookup_correct_witness :
  ∃ r, dir_lookup demo_vol 2 demo_ram 2 (to_83 [97; 46; 98]) = Some r.
Proof.
  destruct (dir_lookup_correct demo_vol demo_vol_ok demo_ram 2 [2] 2 (to_83 [97; 46; 98])) as (r & E & _).
  - apply demo_file. left. reflexivity.
  - simpl. lia.
  - exists r. exact E.
Defined.

Lemma demo_slot_free : list_find slot_free (dir_slots demo_vol demo_ram [2]) = Some (3%nat, replicate 32 0).
Proof. vm_compute. reflexivity. Qed.

Lemma dir_add_entry_correct_witness :
  ∃ d', dir_add_entry demo_vol 2 demo_ram 2 (mk_dir_entry (to_83 [67]) 0x20 5 9) = Some (true, d').
Proof.
  pose proof (dir_add_entry_correct demo_vol demo_vol_ok demo_ram 2 [2] 2 (to_83 [67]) 5 9
    (demo_file 2 (or_introl eq_refl)) ltac:(simpl; lia) ltac:(reflexivity) ltac:(discriminate)
    ltac:(discriminate) ltac:(unfold is_u32; lia) ltac:(unfold is_u32; lia)) as H.
  cbv zeta in H. rewrite demo_slot_free in H. destruct H as (d' & E & _). exists d'. exact E.
Defined.

Lemma fat32_dir_iterate_correct_witness :
  fat32_dir_iterate demo_vol 2 demo_ram 2 1 = Some (Some (dirent_synth [DOT; DOT] 2), 2) ∧
  ∃ r o, fat32_dir_iterate demo_vol 2 demo_ram 2 2 = Some (r, o) ∧ fd_name <$> r = Some [65; 46; 66].
Proof.
  assert (file_ok demo_vol demo_ram 2 [2]) as Hf by (apply demo_file; left; reflexivity). split.
  - destruct (fat32_dir_iterate_correct demo_vol demo_vol_ok demo_ram 2 [2] 2 1 Hf) as (r & o & E & H); [simpl; lia|lia|].
    rewrite decide_True in H by (split; [reflexivity|lia]). destruct H as [-> ->]. exact E.
  - destruct (fat32_dir_iterate_correct demo_vol demo_vol_ok demo_ram 2 [2] 2 2 Hf) as (r & o & E & _); [simpl; lia|lia|].
    exists r, o. split; [exact E|].
    assert (fst <$> fat32_dir_iterate demo_vol 2 demo_ram 2 2 = Some (Some (mk_fat_dirent [65; 46; 66] 600 3 32 false))) as E0 by (vm_compute; reflexivity).
    rewrite E in E0. injection E0 as E0. rewrite E0. reflexivity.
Defined.
