(* ===== verification/Fat32Vfs.v ===== *)
(** FAT32 behind the VFS: [src/src/fs/fat32/fat32_vfs.c].

    The state joins what the adapter touches: the vnode pool, kernel memory,
    the disk, the [fat32_priv_t] records by their heap address, the remembered
    mount path and whether the create hook is installed.  [None] is a fault
    (NULL or a dangling record dereferenced, a cyclic chain).  Buffers given
    and returned are lists of bytes; the scratch buffers are bounded as in the
    code and an operation that would overrun one reports -1 as the code does. *)
From S2P Require Import Prelude Pmm PageAlloc Heap KernelMem Vnode Fat32 CString.

Record fat32_priv := mk_priv { first_cluster : Z; priv_size : Z }.

Definition SIZEOF_PRIV : Z := 8.
(** The addresses of [fat32_file_ops] and [fat32_dir_ops]. *)
Definition FAT32_FILE_OPS : Z := 1.
Definition FAT32_DIR_OPS : Z := 1.
Definition MOUNT_PATH_SIZE : nat := 64.

Record fsst (M D : Type) := mk_fsst {
  s_vfs : vfs;
  s_mem : M;
  s_disk : D;
  s_priv : gmap Z fat32_priv;
  s_mount : list Z;
  s_hook : bool;
}.
Arguments mk_fsst {M D}.
Arguments s_vfs {M D}.
Arguments s_mem {M D}.
Arguments s_disk {M D}.
Arguments s_priv {M D}.
Arguments s_mount {M D}.
Arguments s_hook {M D}.

Definition set_priv (p : Z) (n : vnode) : vnode :=
  mk_vnode (vn_name n) (vn_type n) (vn_ops n) (vn_vops n) p (vn_size n) (vn_parent n) (vn_children n) (vn_next n).
Definition set_vsize (x : Z) (n : vnode) : vnode :=
  mk_vnode (vn_name n) (vn_type n) (vn_ops n) (vn_vops n) (vn_priv n) x (vn_parent n) (vn_children n) (vn_next n).

Section Ops.
Context {M D : Type} `{!KernelMem M} `{!BlockDev D} `{!DirOps}.
Context (v : fat_vol) (fuel : nat).
Implicit Types st : fsst M D.

Definition with_vfs st (f : vfs) := mk_fsst f (s_mem st) (s_disk st) (s_priv st) (s_mount st) (s_hook st).
Definition with_mem st (m : M) := mk_fsst (s_vfs st) m (s_disk st) (s_priv st) (s_mount st) (s_hook st).
Definition with_disk st (d : D) := mk_fsst (s_vfs st) (s_mem st) d (s_priv st) (s_mount st) (s_hook st).
Definition with_priv st (p : gmap Z fat32_priv) := mk_fsst (s_vfs st) (s_mem st) (s_disk st) p (s_mount st) (s_hook st).

(** [(fat32_priv_t * )n->private_data]: the inner [None] is NULL. *)
Definition get_priv st (n : nat) : option (option fat32_priv) :=
  vn ← node_pool (s_vfs st) !! n;
  if decide (vn_priv vn = 0) then Some None else pd ← s_priv st !! vn_priv vn; Some (Some pd).

(** *** Directories *)

Definition dirent_of_fat (de : fat_dirent) : vfs_dirent :=
  mk_dirent (take 255 (fd_name de)) (fd_fsize de) (fd_is_dir de)
    (Z.lor (fd_first_cluster de) (if fd_is_dir de then 2 ^ 63 else 0)).

(** [while (written < max)]: the entries, the slot and [*eof]. *)
Fixpoint fat_readdir_loop st (c slot : Z) (out : list vfs_dirent) (n : nat) : option (list vfs_dirent * Z * bool) :=
  match n with
  | O => Some (out, slot, false)
  | S n' =>
      '(r, slot') ← fat32_dir_iterate v fuel (s_disk st) c slot;
      match r with
      | None => Some (out, slot', true)
      | Some de => fat_readdir_loop st c slot' (out ++ [dirent_of_fat de]) n'
      end
  end.

(** Result code, entries, new cookie, [*eof]. *)
Definition fat32_readdir st (dir : nat) (offset max : Z) : option (Z * list vfs_dirent * Z * bool) :=
  pd ← get_priv st dir;
  match pd with
  | None => Some (-1, [], offset, true)
  | Some pd =>
      '(out, slot, eof) ← fat_readdir_loop st (first_cluster pd) offset [] (Z.to_nat max);
      Some (Z.of_nat (length out), out, slot, eof)
  end.

Definition fat32_lookup st (dir : nat) (name : list Z) : option (option nat * fsst M D) :=
  pd ← get_priv st dir;
  match pd with
  | None => Some (None, st)
  | Some pd =>
      if decide (12 < length name)%nat then Some (None, st)
      else
        r ← fat32_lookup_in_dir v fuel (s_disk st) (first_cluster pd) name;
        match r with
        | None => Some (None, st)
        | Some (cluster, size, is_dir) =>
            '(cpd, m1) ← km_malloc (s_mem st) SIZEOF_PRIV;
            let st1 := with_mem st m1 in
            if decide (cpd = 0) then Some (None, st1)
            else
              '(child, f2) ← vfs_create_node (s_vfs st1) (Some dir) name
                                (if (is_dir : bool) then VNODE_DIR else VNODE_REG);
              match child with
              | None => m2 ← km_free (s_mem st1) cpd; Some (None, with_vfs (with_mem st1 m2) f2)
              | Some c =>
                  let f3 := upd (upd f2 c (set_priv cpd)) c (set_vsize size) in
                  let f4 := if (is_dir : bool) then upd f3 c (set_vops (Some (fs_dir_ops FAT32_DIR_OPS)))
                            else upd f3 c (set_ops FAT32_FILE_OPS) in
                  Some (Some c, with_priv (with_vfs st1 f4) (<[cpd := mk_priv cluster size]> (s_priv st1)))
              end
        end
  end.

(** *** Paths *)

(** The parent walk: the nodes below the root, leaf first; the inner [None] is -1. *)
Fixpoint path_chain (f : vfs) (p : option nat) (depth : nat) : option (option (list nat)) :=
  match p with
  | None => Some (Some [])
  | Some i =>
      n ← node_pool f !! i;
      match vn_parent n with
      | None => Some (Some [])
      | Some _ =>
          match depth with
          | O => Some None
          | S d => r ← path_chain f (vn_parent n) d; Some (l ← r; Some (i :: l))
          end
      end
  end.

(** Appending the names, root first, with the bound [buflen]. *)
Fixpoint path_emit (f : vfs) (l : list nat) (buflen : nat) (buf : list Z) : option (option (list Z)) :=
  match l with
  | [] => Some (if decide (buflen < length buf + 1)%nat then None else Some buf)
  | i :: l' =>
      n ← node_pool f !! i;
      if decide (buflen < length buf + length (vn_name n) + 2)%nat then Some None
      else path_emit f l' buflen (buf ++ SLASH :: vn_name n)
  end.

Definition fat32_build_vnode_path (f : vfs) (n : nat) (buflen : nat) : option (option (list Z)) :=
  r ← path_chain f (Some n) 16;
  match r with
  | None => Some None
  | Some l => path_emit f (reverse l) buflen []
  end.

(** [None] is -1. *)
Definition fat32_rel_path (mount vpath : list Z) (outlen : nat) : option (list Z) :=
  if decide (mount = []) then None
  else if decide (strncmp (vpath ++ [0]) (mount ++ [0]) (length mount) ≠ Some 0) then None
  else
    let rest := skip_slashes (drop (length mount) vpath) in
    if decide (outlen < length rest + 1)%nat then None else Some rest.

(** The path of a node relative to the volume: the common prefix of the write
    and truncate operations.  The inner [None] is -1. *)
Definition node_rel_path st (n : nat) : option (option (list Z)) :=
  path ← fat32_build_vnode_path (s_vfs st) n 256;
  Some (p ← path; fat32_rel_path (s_mount st) p 128).

(** *** Files *)

(** Result, the bytes copied to [buf], the new offset. *)
Definition fat32_file_read st (n : nat) (offset count : Z) : option (Z * list Z * Z * fsst M D) :=
  pd ← get_priv st n;
  match pd with
  | None => Some (-1, [], offset, st)
  | Some pd =>
      if decide (priv_size pd ≤ offset) then Some (0, [], offset, st)
      else
        let remaining := priv_size pd -w offset in
        let to_read := wrap32 (if decide (remaining < count) then remaining else count) in
        let total_needed := add32 (wrap32 offset) to_read in
        '(tmp, m1) ← km_malloc (s_mem st) total_needed;
        if decide (tmp = 0) then Some (-1, [], offset, with_mem st m1)
        else
          '(got, bytes) ← fat32_read v fuel (s_disk st) (first_cluster pd) total_needed total_needed;
          m2 ← km_free m1 tmp;
          if decide (got < 0) then Some (-1, [], offset, with_mem st m2)
          else if decide (got ≤ wrap32 offset) then Some (0, [], offset, with_mem st m2)
          else
            let to_read' := if decide (got < total_needed) then sub32 got (wrap32 offset) else to_read in
            Some (to_int to_read', slice bytes offset to_read', offset + to_read', with_mem st m2)
  end.

(** Recording a new length on disk, in the record and in the node. *)
Definition set_length st (n : nat) (pd : fat32_priv) (rel : list Z) (size : Z) : option (bool * fsst M D) :=
  '(ok, d') ← fat32_truncate_path v fuel (s_disk st) rel (wrap32 size);
  let st1 := with_disk st d' in
  if (ok : bool) then
    vn ← node_pool (s_vfs st) !! n;
    Some (true, with_vfs (with_priv st1 (<[vn_priv vn := mk_priv (first_cluster pd) (wrap32 size)]> (s_priv st)))
                  (upd (s_vfs st) n (set_vsize size)))
  else Some (false, st1).

(** Result and the new offset. *)
Definition fat32_file_write st (n : nat) (offset : Z) (buf : list Z) : option (Z * Z * fsst M D) :=
  pd ← get_priv st n;
  if decide (buf = []) then Some (0, offset, st)
  else match pd with
  | None => Some (-1, offset, st)
  | Some pd =>
      let count := Z.of_nat (length buf) in
      '(r, d1) ← fat32_write_at v (s_disk st) (first_cluster pd) (wrap32 offset) (take (Z.to_nat (wrap32 count)) buf);
      let st1 := with_disk st d1 in
      match r with
      | None => Some (-1, offset, st1)
      | Some new_size =>
          rel ← node_rel_path st1 n;
          match rel with
          | None => Some (-1, offset, st1)
          | Some rel =>
              '(ok, st2) ← set_length st1 n pd rel new_size;
              Some (if (ok : bool) then (to_int count, offset + count, st2) else (-1, offset, st2))
          end
      end
  end.

Definition fat32_file_truncate st (n : nat) (size : Z) : option (Z * fsst M D) :=
  pd ← get_priv st n;
  match pd with
  | None => Some (-1, st)
  | Some pd =>
      if decide (priv_size pd < size) then Some (-1, st)
      else
        rel ← node_rel_path st n;
        match rel with
        | None => Some (-1, st)
        | Some rel =>
            '(ok, st2) ← set_length st n pd rel size;
            Some (if (ok : bool) then (0, st2) else (-1, st2))
        end
  end.

Definition fat32_create_file st (path : list Z) : option (Z * fsst M D) :=
  match fat32_rel_path (s_mount st) path 128 with
  | None => Some (-1, st)
  | Some rel =>
      '(ok, d') ← fat32_create v fuel (s_disk st) rel [];
      Some (if (ok : bool) then 0 else -1, with_disk st d')
  end.

(** *** Mounting *)

(** [while (plen > 1 && path[plen - 1] == '/')], on the reversed path. *)
Fixpoint trim_slashes (rpath : list Z) : list Z :=
  match rpath with
  | c :: ((_ :: _) as rest) => if decide (c = SLASH) then trim_slashes rest else rpath
  | _ => rpath
  end.

Definition normalise_mount (old path : list Z) : list Z :=
  if decide (length path < MOUNT_PATH_SIZE)%nat then reverse (trim_slashes (reverse path)) else old.

Definition fat32_vfs_mount st (path : list Z) : option (bool * fsst M D) :=
  let st0 := mk_fsst (s_vfs st) (s_mem st) (s_disk st) (s_priv st) (normalise_mount (s_mount st) path) true in
  '(mp, f1) ← vfs_resolve (s_vfs st0) path;
  let st1 := with_vfs st0 f1 in
  match mp with
  | None => Some (false, st1)
  | Some i =>
      n ← node_pool f1 !! i;
      if decide (vn_type n ≠ VNODE_DIR) then Some (false, st1)
      else
        '(pd, m1) ← km_malloc (s_mem st1) SIZEOF_PRIV;
        let st2 := with_mem st1 m1 in
        if decide (pd = 0) then Some (false, st2)
        else
          let f2 := upd (upd f1 i (set_priv pd)) i (set_vops (Some (fs_dir_ops FAT32_DIR_OPS))) in
          Some (true, with_priv (with_vfs st2 f2) (<[pd := mk_priv (fat32_root_cluster v) 0]> (s_priv st2)))
  end.
End Ops.

(** ** Reading *)

Section Files.
Context {M D : Type} `{!KernelMem M} `{!BlockDev D}.
Context (v : fat_vol) (Hv : vol_ok (D := D) v) (fuel : nat).
Implicit Types st : fsst M D.

(** A state that differs in kernel memory only, with the same live blocks. *)
Definition same_but_mem st st' : Prop :=
  st' = with_mem st (s_mem st') ∧ km_inv (s_mem st') ∧ km_live (s_mem st') = km_live (s_mem st).

Lemma same_but_mem_refl st : km_inv (s_mem st) → same_but_mem st st.
Proof. intros Hm. split; [by destruct st|done]. Qed.

Lemma slice_take l o k n : 0 ≤ o → 0 ≤ k → o + k ≤ n → slice (take (Z.to_nat n) l) o k = slice l o k.
Proof.
  intros Ho Hk Hn. unfold slice. rewrite skipn_firstn_comm, take_take. f_equal. lia.
Qed.

(** Reading through the VFS: for a file whose recorded size is covered by
    its clusters, [fat32_file_read] either fails because the scratch buffer
    cannot be allocated, changing nothing, or returns exactly the bytes of the
    file from the offset on, as many as were asked for and remain before the
    end, and advances the offset by that number.  The scratch buffer is
    released on every path. *)
Theorem fat32_file_read_correct st n pd cs offset count :
  get_priv st n = Some (Some pd) → file_ok v (s_disk st) (first_cluster pd) cs → (length cs < fuel)%nat →
  priv_size pd ≤ Z.of_nat (length (content v (s_disk st) cs)) → priv_size pd < 2 ^ 31 →
  km_inv (s_mem st) → 0 ≤ offset < 2 ^ 63 → is_u64 count →
  let k := Z.max 0 (Z.min count (priv_size pd - offset)) in
  ∃ ret data offset' st', fat32_file_read v fuel st n offset count = Some (ret, data, offset', st') ∧
    same_but_mem st st' ∧
    ((ret = -1 ∧ data = [] ∧ offset' = offset) ∨
     (ret = k ∧ data = slice (content v (s_disk st) cs) offset k ∧ offset' = offset + k)).
Proof using Hv.
  intros Hp Hf Hfuel Hsz Hsz31 Hm Ho Hc k. unfold is_u64 in Hc. unfold fat32_file_read. rewrite Hp. cbn [mbind option_bind].
  case_decide as Heof.
  { exists 0, [], offset, st. split; [done|]. split; [by apply same_but_mem_refl|]. right.
    assert (k = 0) as -> by lia. split; [done|]. split; [|lia]. unfold slice. simpl. by rewrite take_0. }
  rewrite sub64_small by lia.
  assert (wrap32 (if decide (priv_size pd - offset < count) then priv_size pd - offset else count) = k) as ->.
  { rewrite wrap32_small by (case_decide; lia). case_decide; lia. }
  rewrite (wrap32_small offset) by lia. unfold add32. rewrite (wrap32_small (offset + k)) by lia.
  destruct (km_malloc_ok (s_mem st) (offset + k) Hm) as (tmp & m1 & -> & Hm1 & _ & Hl); [unfold is_u64; lia|].
  cbn [mbind option_bind]. case_decide as Hnull.
  { exists (-1), [], offset, (with_mem st m1). split; [done|]. split; [|by left]. split; [done|]. split; [done|].
    destruct Hl as [[_ Hl]|[Hni Hl]]; [done|]. exfalso. subst tmp.
    destruct (km_null m1 Hm1) as [H0 _]. apply H0. rewrite Hl. set_solver. }
  destruct Hl as [[? _]|[Hni Hl]]; [done|].
  rewrite (fat32_read_spec v Hv _ _ cs) by (done || lia). rewrite Z.min_id. cbn [mbind option_bind].
  destruct (km_free_ok m1 tmp Hm1) as (m2 & -> & Hm2 & _ & Hl2); [rewrite Hl; set_solver|]. cbn [mbind option_bind].
  assert (same_but_mem st (with_mem st m2)) as Hsame.
  { split; [done|]. split; [done|]. simpl. rewrite Hl2, Hl. set_solver. }
  rewrite to_int_small by lia. rewrite decide_False by lia. case_decide as Hshort.
  - exists 0, [], offset, (with_mem st m2). split; [done|]. split; [done|]. right. assert (k = 0) as -> by lia.
    split; [done|]. split; [|lia]. unfold slice. simpl. by rewrite take_0.
  - rewrite decide_False by lia. exists k, (slice (content v (s_disk st) cs) offset k), (offset + k), (with_mem st m2).
    rewrite to_int_small by lia. rewrite slice_take by lia. split; [done|]. split; [done|]. by right.
Qed.
End Files.

(** ** Paths *)

Lemma strncmp_prefix m x y : 0 ∉ m → strncmp (m ++ x) (m ++ y) (length m) = Some 0.
Proof.
  induction m as [|c m IH]; intros Hm; [done|]. apply not_elem_of_cons in Hm as [Hc Hm]. cbn [app length strncmp].
  rewrite !decide_False by lia. by apply IH.
Qed.

Lemma strncmp_zero a m x y : 0 ∉ a → 0 ∉ m → strncmp (a ++ 0 :: x) (m ++ 0 :: y) (length m) = Some 0 → take (length m) a = m.
Proof.
  revert a. induction m as [|c m IH]; intros a Ha Hm; [done|]. apply not_elem_of_cons in Hm as [Hc Hm].
  destruct a as [|d a]; cbn [app length strncmp].
  - rewrite decide_True by lia. intros [= H]. lia.
  - apply not_elem_of_cons in Ha as [Hd Ha]. case_decide as Hne; [intros [= H]; lia|]. rewrite decide_False by lia.
    intros H. cbn [take]. f_equal; [lia|]. by apply IH.
Qed.

(** Translating a VFS path: the result is defined exactly when the mount
    path is a prefix of the path as a string and the rest fits; it is then the
    rest without leading slashes.  So the paths below the mount point
    translate, and so do siblings whose name merely starts like it. *)
Theorem fat32_rel_path_correct mount vpath outlen r :
  mount ≠ [] → 0 ∉ mount → 0 ∉ vpath →
  fat32_rel_path mount vpath outlen = Some r ↔
    ∃ rest, vpath = mount ++ rest ∧ r = skip_slashes rest ∧ (length r + 1 ≤ outlen)%nat.
Proof.
  intros Hm Hm0 Hv0. unfold fat32_rel_path. rewrite decide_False by done. split.
  - case_decide as Hcmp; [done|]. assert (strncmp (vpath ++ [0]) (mount ++ [0]) (length mount) = Some 0) as H0.
    { destruct (decide (strncmp (vpath ++ [0]) (mount ++ [0]) (length mount) = Some 0)); [done|by destruct Hcmp]. }
    apply strncmp_zero in H0; [|done|done]. case_decide as Hfit; [done|]. intros [= <-].
    exists (drop (length mount) vpath). split; [|split; [done|lia]]. by rewrite <- H0 at 1; rewrite take_drop.
  - intros (rest & -> & -> & Hfit). rewrite <- app_assoc, strncmp_prefix by done.
    rewrite decide_False by (intros H; by apply H). rewrite drop_app_length. by rewrite decide_False by lia.
Qed.

Lemma fat32_rel_path_correct_witness :
  fat32_rel_path [47; 109] [47; 109; 47; 97] 128 = Some [97] ∧ fat32_rel_path [47; 109] [47; 109; 120; 47; 97] 128 = Some [120; 47; 97].
Proof.
  split.
  - apply (fat32_rel_path_correct [47; 109] [47; 109; 47; 97] 128 [97]); [discriminate|set_solver by lia..|].
    exists [47; 97]. split; [reflexivity|]. split; [reflexivity|]. simpl. lia.
  - apply (fat32_rel_path_correct [47; 109] [47; 109; 120; 47; 97] 128 [120; 47; 97]); [discriminate|set_solver by lia..|].
    exists [120; 47; 97]. split; [reflexivity|]. split; [reflexivity|]. simpl. lia.
Defined.

(** ** Writing *)

Section Write.
Context {M D : Type} `{!KernelMem M} `{!BlockDev D}.
Context (v : fat_vol) (Hv : vol_ok (D := D) v) (fuel : nat) (limit : Z) (Hroom : room_ok (D := D) v limit).
Implicit Types st : fsst M D.

Lemma split_last_none path : SLASH ∉ path → split_last path = None.
Proof.
  induction path as [|c p IH]; intros H; [done|]. apply not_elem_of_cons in H as [Hc Hp]. cbn [split_last].
  rewrite IH by done. by rewrite decide_False by lia.
Qed.

Lemma skip_slashes_none path : SLASH ∉ path → skip_slashes path = path.
Proof.
  destruct path as [|c p]; intros H; [done|]. apply not_elem_of_cons in H as [Hc _]. cbn [skip_slashes].
  by rewrite decide_False by lia.
Qed.

(** Rewriting the length of an entry of the root directory. *)
Lemma truncate_root_spec d rcs name size i e :
  file_ok v d (root_cluster v) rcs → (length rcs < fuel)%nat → SLASH ∉ name → (length name ≤ 12)%nat →
  list_find (λ e, truncate_match (to_83 name) e) (dir_slots v d rcs) = Some (i, e) →
  ∃ d', fat32_truncate_path v fuel d name size = Some (true, d') ∧ bd_ok d' ∧
    dir_slots v d' rcs = <[i := splice e 28 (le32 size)]> (dir_slots v d rcs) ∧
    ∀ s, (∀ x, x ∈ rcs → s ∉ sectors_of v x) → bd_sector d' s = bd_sector d s.
Proof using Hv.
  intros Hf Hfuel Hs Hl Hfind. unfold fat32_truncate_path. rewrite skip_slashes_none, split_last_none by done.
  rewrite !decide_False by (simpl; lia). cbn [truncate_dir mbind option_bind].
  pose proof (update_dir_spec v Hv (truncate_match (to_83 name)) (λ e, splice e 28 (le32 size)) d _ rcs fuel Hf Hfuel) as Hu.
  rewrite Hfind in Hu. apply Hu. intros e' He'. rewrite splice_length; [done|lia|rewrite He'; simpl; lia].
Qed.

(** Directories on other clusters keep their slots. *)
Lemma written_slots c d cs offset data d' ext c2 cs2 :
  written v limit c d cs offset data d' ext → file_ok v d c2 cs2 → (∀ x, x ∈ cs2 → x ∉ cs) →
  (∀ x, x ∈ cs2 → x ∉ cs ++ ext) ∧ dir_slots v d' cs2 = dir_slots v d cs2.
Proof using Hv.
  intros [F C Dt O Fr _] F2 Hdis.
  assert (∀ x, x ∈ cs2 → x ∉ cs ++ ext) as Hdis2.
  { intros x Hx [Hin|Hin]%elem_of_app; [by apply (Hdis x)|]. rewrite Forall_forall in Fr.
    by apply (chain_used v d c2 cs2 x F2 Hx), Fr. }
  split; [done|]. pose proof (fo_clusters _ _ _ _ F2) as Hok. rewrite Forall_forall in Hok.
  unfold dir_slots. f_equal. apply list_fmap_ext. intros i x Hx%list_elem_of_lookup_2. apply cluster_slots_frame.
  intros s Hs. apply Dt; [by apply (sectors_data v Hv x s (Hok x Hx))|]. intros y Hy Hs'.
  pose proof (sectors_disjoint v Hv _ _ _ Hs Hs') as ->. by apply (Hdis2 y).
Qed.

Lemma get_priv_node st n pd :
  get_priv st n = Some (Some pd) → ∃ vn, node_pool (s_vfs st) !! n = Some vn ∧ vn_priv vn ≠ 0 ∧ s_priv st !! vn_priv vn = Some pd.
Proof.
  unfold get_priv. destruct (node_pool (s_vfs st) !! n) as [vn|]; [|done]. cbn [mbind option_bind].
  case_decide; [done|]. destruct (s_priv st !! vn_priv vn) as [q|] eqn:E; [|done]. cbn [mbind option_bind].
  intros [= ->]. by exists vn.
Qed.

(** Recording the length of a file of the volume's root directory. *)
Lemma set_length_spec st n pd rcs name size i e :
  get_priv st n = Some (Some pd) → file_ok v (s_disk st) (root_cluster v) rcs → (length rcs < fuel)%nat →
  SLASH ∉ name → (length name ≤ 12)%nat → is_u32 size →
  list_find (λ e, truncate_match (to_83 name) e) (dir_slots v (s_disk st) rcs) = Some (i, e) →
  ∃ st', set_length v fuel st n pd name size = Some (true, st') ∧ bd_ok (s_disk st') ∧
    dir_slots v (s_disk st') rcs = <[i := splice e 28 (le32 size)]> (dir_slots v (s_disk st) rcs) ∧
    (∀ s, (∀ x, x ∈ rcs → s ∉ sectors_of v x) → bd_sector (s_disk st') s = bd_sector (s_disk st) s) ∧
    get_priv st' n = Some (Some (mk_priv (first_cluster pd) size)) ∧
    vn_size <$> node_pool (s_vfs st') !! n = Some size ∧ s_mem st' = s_mem st.
Proof using Hv.
  intros Hp Hf Hfuel Hs Hl Hsz Hfind. destruct (get_priv_node st n pd Hp) as (vn & Hn & Hpn & _).
  unfold set_length. rewrite (wrap32_small size) by done.
  destruct (truncate_root_spec (s_disk st) rcs name size i e Hf Hfuel Hs Hl Hfind) as (d' & -> & Hd' & Hslots & Ho).
  cbn [mbind option_bind]. rewrite Hn. eexists. split; [done|]. split; [done|]. split; [done|]. split; [done|].
  assert (alter (set_vsize size) n (node_pool (s_vfs st)) !! n = Some (set_vsize size vn)) as Hn'
    by (by rewrite list_lookup_alter_eq, Hn).
  unfold get_priv. simpl. rewrite Hn'. cbn [mbind option_bind]. simpl. rewrite decide_False, lookup_insert_eq by done. done.
Qed.

(** C25. Writing through the VFS, for a file in the root directory of the
    mounted volume with enough free clusters: the call reports [count] and
    advances the offset by it; the bytes of the file are the old ones with
    [buf] written over them at the offset; the directory entry, the file's
    record and the vnode all get the length [offset + count], whatever the
    length was before: overwriting the beginning of a longer file shortens it. *)
Theorem fat32_file_write_correct st n pd cs rcs name offset buf i e :
  get_priv st n = Some (Some pd) → node_rel_path st n = Some (Some name) → SLASH ∉ name → (length name ≤ 12)%nat →
  file_ok v (s_disk st) (first_cluster pd) cs → cs ≠ [] →
  file_ok v (s_disk st) (root_cluster v) rcs → (length rcs < fuel)%nat → (∀ x, x ∈ rcs → x ∉ cs) →
  list_find (λ e, truncate_match (to_83 name) e) (dir_slots v (s_disk st) rcs) = Some (i, e) →
  buf ≠ [] → 0 ≤ offset → offset + Z.of_nat (length buf) < 2 ^ 31 →
  (new_clusters v offset buf (length cs) ≤ free_count v (s_disk st) limit)%nat →
  ∃ st' ext, fat32_file_write v fuel st n offset buf =
      Some (Z.of_nat (length buf), offset + Z.of_nat (length buf), st') ∧
    file_ok v (s_disk st') (first_cluster pd) (cs ++ ext) ∧
    content v (s_disk st') (cs ++ ext) =
      splice (content v (s_disk st) cs ++ content v (s_disk st) ext) offset buf ∧
    dir_slots v (s_disk st') rcs =
      <[i := splice e 28 (le32 (offset + Z.of_nat (length buf)))]> (dir_slots v (s_disk st) rcs) ∧
    get_priv st' n = Some (Some (mk_priv (first_cluster pd) (offset + Z.of_nat (length buf)))) ∧
    vn_size <$> node_pool (s_vfs st') !! n = Some (offset + Z.of_nat (length buf)) ∧ s_mem st' = s_mem st.
Proof using Hv Hroom.
  intros Hp Hrel Hs Hl Hf Hcs Hrf Hfuel Hdis Hfind Hbuf Ho H31 Hfree.
  unfold fat32_file_write. rewrite Hp. cbn [mbind option_bind]. rewrite decide_False by done.
  rewrite (wrap32_small (Z.of_nat _)), (wrap32_small offset), Nat2Z.id, firstn_all by lia. unfold fat32_write_at.
  rewrite decide_False by (eapply (chain_nonzero v); [exact Hf|done]).
  destruct (write_loop_spec v Hv limit Hroom (length buf) (s_disk st) (first_cluster pd) cs offset buf)
    as (d1 & ext & -> & W & _); [done|done|lia..|].
  cbn [mbind option_bind].
  assert (node_rel_path (with_disk st d1) n = Some (Some name)) as -> by exact Hrel. cbn [mbind option_bind].
  destruct (written_slots _ _ _ _ _ _ _ _ _ W Hrf Hdis) as [Hdis2 Hslots1].
  destruct (written_others v Hv limit _ _ _ _ _ _ _ _ _ W Hrf Hdis) as [Hrf1 _].
  destruct (set_length_spec (with_disk st d1) n pd rcs name (offset + Z.of_nat (length buf)) i e)
    as (st' & -> & Hd' & Hslots & Hsec & Hp' & Hn' & Hm'); [done|done|done|done|done|unfold is_u32; lia| |].
  { cbn [s_disk with_disk]. by rewrite Hslots1. }
  cbn [mbind option_bind]. rewrite to_int_small by lia. exists st', ext. split; [done|].
  cbn [s_disk with_disk] in *. pose proof (wr_file _ _ _ _ _ _ _ _ _ W) as F1.
  pose proof (fo_clusters _ _ _ _ F1) as Hok1. pose proof (fo_clusters _ _ _ _ Hrf1) as Hokr. rewrite Forall_forall in Hok1, Hokr.
  split; [|split; [|split; [by rewrite Hslots, Hslots1|done]]].
  - apply (file_frame_fat v Hv d1); [done|done|]. intros s Hlt. apply Hsec. intros x Hx Hin.
    pose proof (sectors_data v Hv x s (Hokr x Hx) Hin). lia.
  - unfold content at 1. replace (concat (cluster_bytes v (s_disk st') <$> cs ++ ext)) with (content v d1 (cs ++ ext)).
    + rewrite (wr_content _ _ _ _ _ _ _ _ _ W). unfold content. by rewrite fmap_app, concat_app.
    + unfold content. f_equal. apply list_fmap_ext. intros j x Hx%list_elem_of_lookup_2. symmetry.
      apply cluster_bytes_frame. intros s Hs'. apply Hsec. intros y Hy Hys.
      pose proof (sectors_disjoint v Hv _ _ _ Hs' Hys) as ->. by apply (Hdis2 y).
Qed.
End Write.

(** ** Looking up *)

Section Lookup.
Context {M D : Type} `{!KernelMem M} `{!BlockDev D}.
Context (v : fat_vol) (Hv : vol_ok (D := D) v) (fuel : nat).
Implicit Types st : fsst M D.

(** The records are live heap blocks. *)
Record fs_wf st : Prop := {
  fw_vfs : vfs_wf (s_vfs st);
  fw_mem : km_inv (s_mem st);
  fw_priv : dom (s_priv st) ⊆ km_live (s_mem st);
}.

Lemma fs_wf_mem st m :
  fs_wf st → km_inv m → km_live m = km_live (s_mem st) → fs_wf (with_mem st m).
Proof. intros [Hf Hm Hp] Hm' Hl. constructor; simpl; [done|done|by rewrite Hl]. Qed.

Lemma create_node_full f p name ty :
  (MAX_VNODES ≤ length (node_pool f))%nat → vfs_create_node f p name ty = Some (None, f).
Proof. intros Hl. unfold vfs_create_node, alloc_vnode. by rewrite decide_True. Qed.

(** The child that [fat32_lookup] leaves in the pool. *)
Definition child_ok st c (dir : nat) (name : list Z) (cluster size : Z) (is_dir : bool) : Prop :=
  ∃ n, node_pool (s_vfs st) !! c = Some n ∧ vn_name n = name ∧ vn_parent n = Some dir ∧
    vn_type n = (if is_dir then VNODE_DIR else VNODE_REG) ∧ vn_size n = size ∧
    s_priv st !! vn_priv n = Some (mk_priv cluster size).

(** What a lookup leaves behind. *)
Definition lookup_post st (dir : nat) (name : list Z) (pd : fat32_priv) (r : option nat) st' : Prop :=
  fs_wf st' ∧ s_disk st' = s_disk st ∧
  match r with
  | None => km_live (s_mem st') = km_live (s_mem st) ∧ s_priv st' = s_priv st ∧ s_vfs st' = s_vfs st
  | Some c => ∃ cluster size is_dir p,
      fat32_lookup_in_dir v fuel (s_disk st) (first_cluster pd) name = Some (Some (cluster, size, is_dir)) ∧
      child_ok st' c dir name cluster size is_dir ∧ (p ∉ km_live (s_mem st)) ∧
      km_live (s_mem st') = {[p]} ∪ km_live (s_mem st) ∧ s_priv st' = <[p := mk_priv cluster size]> (s_priv st)
  end.

(** Looking a name up on the volume never faults.  Without a result (name
    too long, absent, pool full, no memory) no heap block is left behind and
    no record changes.  Otherwise there is a new vnode below the directory
    with the name, type and size of the directory entry and a record of its
    own in one fresh heap block; all older records are unchanged. *)
Theorem fat32_lookup_correct st dir name pd cs :
  fs_wf st → get_priv st dir = Some (Some pd) → file_ok v (s_disk st) (first_cluster pd) cs →
  (length cs < fuel)%nat → 0 ∉ name →
  ∃ r st', fat32_lookup v fuel st dir name = Some (r, st') ∧ lookup_post st dir name pd r st'.
Proof using Hv.
  intros Hwf Hp Hf Hfuel Hname. pose proof Hwf as [Hvf Hm Hpr].
  destruct (get_priv_node st dir pd Hp) as (dn & Hdn & _ & _).
  assert (∀ st', fs_wf st' → s_disk st' = s_disk st → s_vfs st' = s_vfs st → s_priv st' = s_priv st →
    km_live (s_mem st') = km_live (s_mem st) → fat32_lookup v fuel st dir name = Some (None, st') →
    ∃ r st', fat32_lookup v fuel st dir name = Some (r, st') ∧ lookup_post st dir name pd r st') as Hnone.
  { intros st' ? ? ? ? ? E. exists None, st'. done. }
  unfold fat32_lookup in *. rewrite Hp in *. cbn [mbind option_bind] in *. case_decide as Hlen; [by apply (Hnone st)|].
  assert (∃ q, fat32_lookup_in_dir v fuel (s_disk st) (first_cluster pd) name = Some q) as [q Eq].
  { unfold fat32_lookup_in_dir, dir_lookup. rewrite (scan_dir_spec v Hv _ _ _ cs) by done. eexists. done. }
  rewrite Eq in *. cbn [mbind option_bind] in *. destruct q as [[[cluster size] is_dir]|]; [|by apply (Hnone st)].
  destruct (km_malloc_ok (s_mem st) SIZEOF_PRIV Hm) as (cpd & m1 & Em & Hm1 & _ & Hl1); [unfold is_u64, SIZEOF_PRIV; lia|].
  rewrite Em in *. cbn [mbind option_bind] in *. case_decide as Hnull.
  { assert (km_live m1 = km_live (s_mem st)) as Hl.
    { destruct Hl1 as [[_ ?]|[_ Hl]]; [done|]. exfalso. subst cpd. destruct (km_null m1 Hm1) as [H0 _]. apply H0. set_solver. }
    apply (Hnone (with_mem st m1)); try done. by apply fs_wf_mem. }
  destruct Hl1 as [[? _]|[Hni Hl1]]; [done|]. set (ty := if is_dir then VNODE_DIR else VNODE_REG) in *.
  cbn [s_vfs with_mem s_mem] in *.
  destruct (decide (MAX_VNODES ≤ length (node_pool (s_vfs st)))%nat) as [Hfull|Hroom].
  { rewrite create_node_full in * by done. cbn [mbind option_bind] in *.
    destruct (km_free_ok m1 cpd Hm1) as (m2 & E2 & Hm2 & _ & Hl2); [rewrite Hl1; set_solver|].
    rewrite E2 in *. cbn [mbind option_bind] in *.
    assert (km_live m2 = km_live (s_mem st)) as Hl by (rewrite Hl2, Hl1; set_solver).
    apply (Hnone (with_vfs (with_mem (with_mem st m1) m2) (s_vfs st))); try done. constructor; simpl; [done|done|by rewrite Hl]. }
  clear Hnone. assert (name_ok name) as Hnok by (split; [unfold NAME_ARRAY; lia|done]).
  destruct (vf_kids _ Hvf dir dn Hdn) as (lp & Hlp & Hnd & Hpar).
  rewrite (create_node_pool (s_vfs st) dir dn name ty) by (done || lia). cbn [mbind option_bind].
  pose proof (create_wf (s_vfs st) dir dn name ty lp Hvf ltac:(lia) Hnok Hdn Hlp Hnd Hpar) as Hwf'.
  pose proof (create_new (s_vfs st) dir dn name ty) as Hnew.
  set (f2 := mk_vfs _ (vroot (s_vfs st))) in *. set (c := length (node_pool (s_vfs st))) in *.
  eexists (Some c), _. split; [done|]. split; [|split; [done|]].
  - constructor; cbn [s_vfs s_mem s_priv with_priv with_vfs with_mem].
    + destruct is_dir; repeat (apply upd_wf; [done|]); done.
    + done.
    + rewrite dom_insert_L, Hl1. set_solver.
  - exists cluster, size, is_dir, cpd. split; [done|]. split; [|done].
    unfold child_ok. cbn [s_vfs s_mem s_priv with_priv with_vfs with_mem].
    destruct is_dir; eexists; (split; [simpl node_pool; rewrite !list_lookup_alter_eq; simpl in Hnew; rewrite Hnew; done|]);
      simpl; rewrite lookup_insert_eq; done.
Qed.
End Lookup.

(** ** A mounted demonstration volume *)

Definition demo_priv_addr : Z := 0xFFFF000040003020.
Definition demo_mnt (kids : option nat) : vnode :=
  mk_vnode [109] VNODE_DIR 0 (Some (fs_dir_ops FAT32_DIR_OPS)) demo_priv_addr 0 (Some 0%nat) kids None.
Definition demo_root : vnode := mk_vnode [SLASH] VNODE_DIR 0 (Some builtin_dir_ops) 0 0 None (Some 1%nat) None.
Definition demo_leaf : vnode := mk_vnode [65; 46; 66] VNODE_REG FAT32_FILE_OPS None 16 100 (Some 1%nat) None None.

(** The mount point alone, and with the file [A.B] looked up. *)
Definition demo_fs0 : fsst (heap pmm) ram_disk :=
  mk_fsst (mk_vfs [demo_root; demo_mnt None] (Some 0%nat))
    (from_option snd demo_heap (km_malloc demo_heap SIZEOF_PRIV)) demo_ram
    {[ demo_priv_addr := mk_priv 2 0 ]} [SLASH; 109] true.
Definition demo_fs1 : fsst (heap pmm) ram_disk :=
  mk_fsst (mk_vfs [demo_root; demo_mnt (Some 2%nat); demo_leaf] (Some 0%nat)) demo_heap demo_ram
    {[ demo_priv_addr := mk_priv 2 0; 16 := mk_priv 3 100 ]} [SLASH; 109] true.

Lemma demo_fs1_priv : get_priv demo_fs1 2 = Some (Some (mk_priv 3 100)).
Proof. reflexivity. Qed.

Lemma demo_fs1_rel : node_rel_path demo_fs1 2 = Some (Some [65; 46; 66]).
Proof. vm_compute. reflexivity. Qed.

Lemma demo_fs1_entry :
  list_find (λ e, truncate_match (to_83 [65; 46; 66]) e) (dir_slots demo_vol demo_ram [2]) = Some (0%nat, demo_entry).
Proof. vm_compute. reflexivity. Qed.

Lemma demo_content : length (content demo_vol demo_ram [3]) = 512%nat.
Proof. vm_compute. reflexivity. Qed.

Lemma fat32_file_read_correct_witness :
  ∃ ret data off st', fat32_file_read demo_vol 4 demo_fs1 2 10 20 = Some (ret, data, off, st') ∧ same_but_mem demo_fs1 st'.
Proof.
  destruct (fat32_file_read_correct demo_vol demo_vol_ok 4 demo_fs1 2 (mk_priv 3 100) [3] 10 20 demo_fs1_priv)
    as (ret & data & off & st' & E & H & _).
  - apply demo_file. right. reflexivity.
  - simpl. lia.
  - cbn [priv_size s_disk demo_fs1]. rewrite demo_content. lia.
  - simpl. lia.
  - exact demo_km_inv.
  - lia.
  - unfold is_u64. lia.
  - exists ret, data, off, st'. split; [exact E|exact H].
Defined.

Lemma fat32_file_write_correct_witness :
  ∃ st', fat32_file_write demo_vol 4 demo_fs1 2 0 [1; 2] = Some (2, 2, st') ∧
    get_priv st' 2 = Some (Some (mk_priv 3 2)).
Proof.
  destruct (fat32_file_write_correct demo_vol demo_vol_ok 4 10 demo_room demo_fs1 2 (mk_priv 3 100) [3] [2]
    [65; 46; 66] 0 [1; 2] 0 demo_entry demo_fs1_priv demo_fs1_rel) as (st' & ext & E & _ & _ & _ & Hp & _).
  - set_solver by lia.
  - simpl. lia.
  - apply demo_file. right. reflexivity.
  - discriminate.
  - apply demo_file. left. reflexivity.
  - simpl. lia.
  - intros x Hx. apply list_elem_of_singleton in Hx as ->. rewrite list_elem_of_singleton. lia.
  - exact demo_fs1_entry.
  - discriminate.
  - lia.
  - simpl. lia.
  - change (s_disk demo_fs1) with demo_ram. rewrite demo_free. vm_compute. lia.
  - exists st'. split; [exact E|exact Hp].
Defined.

Lemma demo_malloc : fst <$> km_malloc demo_heap SIZEOF_PRIV = Some demo_priv_addr.
Proof. vm_compute. reflexivity. Qed.

Lemma demo_fs0_vfs : vfs_wf (s_vfs demo_fs0).
Proof.
  constructor; cbn [s_vfs demo_fs0 node_pool vroot].
  - unfold MAX_VNODES. simpl. lia.
  - intros r [= <-]. simpl. lia.
  - intros i n Hi. unfold name_ok, NAME_ARRAY.
    do 2 (destruct i as [|i]; [injection Hi as <-; simpl; split; [lia|set_solver]|]). done.
  - intros i n p Hi Hp. do 2 (destruct i as [|i]; [injection Hi as <-; simpl in Hp; simplify_eq; simpl; lia|]). done.
  - intros i n Hi. destruct i as [|[|i]]; [injection Hi as <-..|done]; simpl; [exists [1%nat]|exists []]; simpl.
    + split; [eauto|]. split; [apply NoDup_singleton|]. intros c m ->%list_elem_of_singleton [= <-]. done.
    + split; [done|]. split; [constructor|]. by intros c m ?%not_elem_of_nil.
Qed.

Lemma demo_fs0_wf : fs_wf demo_fs0.
Proof.
  assert (is_u64 SIZEOF_PRIV) as H8 by (unfold is_u64, SIZEOF_PRIV; lia).
  destruct (km_malloc_ok demo_heap SIZEOF_PRIV demo_km_inv H8) as (p & m & E & Hm & _ & Hl).
  pose proof demo_malloc as Hp. rewrite E in Hp. simpl in Hp. injection Hp as ->.
  constructor; [exact demo_fs0_vfs|..]; unfold demo_fs0; cbn [s_mem s_priv]; rewrite E; cbn [from_option snd].
  - exact Hm.
  - rewrite dom_singleton_L. destruct Hl as [[H0 _]|[_ ->]]; [discriminate|]. set_solver.
Qed.

Lemma fat32_lookup_correct_witness :
  ∃ r st', fat32_lookup demo_vol 4 demo_fs0 1 [97; 46; 98] = Some (r, st') ∧
    lookup_post demo_vol 4 demo_fs0 1 [97; 46; 98] (mk_priv 2 0) r st'.
Proof.
  apply (fat32_lookup_correct demo_vol demo_vol_ok 4 demo_fs0 1 [97; 46; 98] (mk_priv 2 0) [2]).
  - exact demo_fs0_wf.
  - reflexivity.
  - apply demo_file. left. reflexivity.
  - simpl. lia.
  - set_solver by lia.
Defined.
