(* ===== verification/Virtio.v ===== *)
(** The virtqueue of [src/src/pci/virtio/virtqueue.c] and the block driver of
    [src/src/pci/virtio/blk/blk.c].

    The queue is memory that driver and device share: descriptors, the ring of
    available chains and the ring of used ones.  The driver's functions work on
    it and on physical memory ([gmap] from byte addresses to bytes).  The device
    is not part of the sources: it is the class [VirtioBlk], whose laws are what
    the VIRTIO 1.x standard says about a split queue (2.7) and a block device
    (5.2), and one that the standard does not give: a request is completed
    before the driver has looked ten million times and given up.  (A driver that
    gives up leaves the request with the device, which may still write to its
    buffers later.)  The device runs whenever the driver looks at the used ring.

    The driver with any such device refines a plain disk: [blk_history]. *)
From S2P Require Import Prelude Pmm.

Definition VIRTQ_MAX_SIZE : Z := 16.
Definition VIRTQ_DESC_F_NONE : Z := 0.
Definition VIRTQ_DESC_F_NEXT : Z := 1.
Definition VIRTQ_DESC_F_WRITE : Z := 2.
Definition VIRTQUEUE_POLL_MAX_SPINS : positive := 10000000.
Definition ESUCCESS : Z := 1.
Definition EERROR : Z := 0.
Definition VIRTIO_BLK_T_IN : Z := 0.
Definition VIRTIO_BLK_T_OUT : Z := 1.
Definition VIRTIO_BLK_S_OK : Z := 0.
Definition VIRTIO_BLK_SECTOR_SIZE : Z := 512.
Definition SIZEOF_REQ : Z := 16.

Definition wrap16 (x : Z) : Z := x mod 2 ^ 16.

Record virtq_desc := mk_desc { d_addr : Z; d_len : Z; d_flags : Z; d_next : Z }.
Record virtq_seg := mk_vseg { sg_pa : Z; sg_len : Z; sg_flags : Z }.

Record virtqueue := mk_vq {
  vq_size : Z;
  vq_free_head : Z;
  vq_last_used : Z;
  vq_desc : list virtq_desc;
  avail_idx : Z;
  avail_ring : list Z;
  used_idx : Z;
  used_ring : list (Z * Z);
}.

(** ** Queue operations *)

Definition with_desc (vq : virtqueue) (ds : list virtq_desc) : virtqueue :=
  mk_vq (vq_size vq) (vq_free_head vq) (vq_last_used vq) ds (avail_idx vq) (avail_ring vq) (used_idx vq) (used_ring vq).

(** A register write of the common configuration: its offset and value. *)
Definition reg_write : Type := Z * Z.
Definition VIRTIO_MSI_NO_VECTOR : Z := 0xFFFF.
Definition VIRTIO_COMMON_MSIX : Z := 0x10.
Definition VIRTIO_COMMON_Q_SELECT : Z := 0x16.
Definition VIRTIO_COMMON_Q_SIZE : Z := 0x18.
Definition VIRTIO_COMMON_Q_MSIX : Z := 0x1A.
Definition VIRTIO_COMMON_Q_ENABLE : Z := 0x1C.
Definition VIRTIO_COMMON_Q_DESCLO : Z := 0x20.
Definition VIRTIO_COMMON_Q_DESCHI : Z := 0x24.
Definition VIRTIO_COMMON_Q_DRIVERLO : Z := 0x28.
Definition VIRTIO_COMMON_Q_DRIVERHI : Z := 0x2C.
Definition VIRTIO_COMMON_Q_DEVICELO : Z := 0x30.
Definition VIRTIO_COMMON_Q_DEVICEHI : Z := 0x34.

(** A physical address for the device, as two 32-bit halves. *)
Definition write_pa (lo hi pa : Z) : list reg_write := [(lo, Z.land pa 0xFFFFFFFF); (hi, Z.shiftr pa 32 mod 2 ^ 32)].

(** [desc], [avail] and [used] are where the three parts of the queue live;
    [max_size] is what the device answers for the queue's size.  The address of
    the doorbell, which only [virtqueue_notify] uses, is left out. *)
Definition virtqueue_setup (queue_idx max_size desc avail used : Z) (vq : virtqueue) : Z * virtqueue * list reg_write :=
  let select := [(VIRTIO_COMMON_MSIX, VIRTIO_MSI_NO_VECTOR); (VIRTIO_COMMON_Q_SELECT, queue_idx)] in
  if decide (max_size = 0) then (EERROR, vq, select)
  else
    let qsize := if decide (VIRTQ_MAX_SIZE > max_size) then max_size else VIRTQ_MAX_SIZE in
    (ESUCCESS,
     mk_vq qsize 0 0 (replicate (Z.to_nat qsize) (mk_desc 0 0 0 0) ++ drop (Z.to_nat qsize) (vq_desc vq))
       0 (replicate (Z.to_nat VIRTQ_MAX_SIZE) 0) 0 (replicate (Z.to_nat VIRTQ_MAX_SIZE) (0, 0)),
     select ++ [(VIRTIO_COMMON_Q_SIZE, qsize); (VIRTIO_COMMON_Q_MSIX, VIRTIO_MSI_NO_VECTOR)] ++
     write_pa VIRTIO_COMMON_Q_DESCLO VIRTIO_COMMON_Q_DESCHI (VIRT_TO_PHYS desc) ++
     write_pa VIRTIO_COMMON_Q_DRIVERLO VIRTIO_COMMON_Q_DRIVERHI (VIRT_TO_PHYS avail) ++
     write_pa VIRTIO_COMMON_Q_DEVICELO VIRTIO_COMMON_Q_DEVICEHI (VIRT_TO_PHYS used) ++
     [(VIRTIO_COMMON_Q_ENABLE, 1)]).

(** [a % vq->size], which faults when the size is 0. *)
Definition modsize (vq : virtqueue) (a : Z) : option Z := if decide (vq_size vq = 0) then None else Some (a mod vq_size vq).

(** The end of both submit functions: publish [head]. *)
Definition publish (vq : virtqueue) (head free : Z) : option virtqueue :=
  pos ← modsize vq (avail_idx vq);
  ring ← arr_set (avail_ring vq) pos head;
  Some (mk_vq (vq_size vq) free (vq_last_used vq) (vq_desc vq) (wrap16 (avail_idx vq + 1)) ring (used_idx vq) (used_ring vq)).

Definition virtqueue_submit (vq : virtqueue) (buf_pa len flags : Z) : option virtqueue :=
  let idx := vq_free_head vq in
  free ← modsize vq (idx + 1);
  ds ← arr_set (vq_desc vq) idx (mk_desc buf_pa len flags 0);
  publish (with_desc vq ds) idx free.

(** The descriptor loop, for segment [i] of [n] and the ones after it. *)
Fixpoint chain_loop (vq : virtqueue) (head i n : Z) (segs : list virtq_seg) : option virtqueue :=
  match segs with
  | [] => Some vq
  | sg :: segs' =>
      idx ← modsize vq (head + i);
      next ← (if decide (i < n - 1) then modsize vq (head + i + 1) else Some 0);
      let flags := if decide (i < n - 1) then Z.lor (sg_flags sg) VIRTQ_DESC_F_NEXT else sg_flags sg in
      ds ← arr_set (vq_desc vq) idx (mk_desc (sg_pa sg) (sg_len sg) flags next);
      chain_loop (with_desc vq ds) head (i + 1) n segs'
  end.

Definition virtqueue_submit_chain (vq : virtqueue) (segs : list virtq_seg) : option (Z * virtqueue) :=
  let head := vq_free_head vq in
  let n := Z.of_nat (length segs) in
  vq1 ← chain_loop vq head 0 n segs;
  free ← modsize vq1 (head + n);
  vq2 ← publish vq1 head free;
  Some (head, vq2).

(** ** The device *)

(** The chain of descriptors from [i]. *)
Fixpoint chain (ds : list virtq_desc) (i : Z) (fuel : nat) : option (list virtq_desc) :=
  match fuel with
  | O => None
  | S f =>
      d ← arr_get ds i;
      if decide (Z.land (d_flags d) VIRTQ_DESC_F_NEXT ≠ 0) then rest ← chain ds (d_next d) f; Some (d :: rest)
      else Some [d]
  end.

(** A block request: a header the device reads, one sector, a status byte. *)
Definition request (ds : list virtq_desc) (ty hdr buf status : Z) : Prop :=
  ∃ n0 n1 n2, ds = [mk_desc hdr SIZEOF_REQ VIRTQ_DESC_F_NEXT n0;
                    mk_desc buf VIRTIO_BLK_SECTOR_SIZE
                      (if decide (ty = VIRTIO_BLK_T_IN) then Z.lor VIRTQ_DESC_F_WRITE VIRTQ_DESC_F_NEXT else VIRTQ_DESC_F_NEXT) n1;
                    mk_desc status 1 VIRTQ_DESC_F_WRITE n2].

(** What serving the request may do to memory and to the disk: a device may
    refuse any request, and then the sector written is anyone's guess. *)
Inductive served (cap ty sector buf status : Z) (ram : gmap Z Z) (disk : Z → list Z) : gmap Z Z → (Z → list Z) → Prop :=
  | served_in :
      ty = VIRTIO_BLK_T_IN → sector < cap →
      served cap ty sector buf status ram disk (mem_write (mem_write ram buf (disk sector)) status [VIRTIO_BLK_S_OK]) disk
  | served_out disk' :
      ty = VIRTIO_BLK_T_OUT → sector < cap → disk' sector = mem_read ram buf VIRTIO_BLK_SECTOR_SIZE →
      (∀ s, s ≠ sector → disk' s = disk s) →
      served cap ty sector buf status ram disk (mem_write ram status [VIRTIO_BLK_S_OK]) disk'
  | served_error code junk disk' :
      0 < code < 256 → (junk = [] ∨ ty = VIRTIO_BLK_T_IN ∧ length junk = 512%nat) →
      (∀ s, s ≠ sector ∨ ty = VIRTIO_BLK_T_IN → disk' s = disk s) →
      served cap ty sector buf status ram disk (mem_write (mem_write ram buf junk) status [code]) disk'.

(** The device publishes that it is done with the chain at [head]. *)
Definition put_used (vq : virtqueue) (head written : Z) : virtqueue :=
  mk_vq (vq_size vq) (vq_free_head vq) (vq_last_used vq) (vq_desc vq) (avail_idx vq) (avail_ring vq) (wrap16 (used_idx vq + 1))
    (<[Z.to_nat (used_idx vq mod vq_size vq) := (head, written)]> (used_ring vq)).

(** A block device.  [vd_notify_ok] has the bound on the completion time. *)
Class VirtioBlk (D : Type) := {
  vd_notify : D → D;
  (** One chance to run, on memory and queue. *)
  vd_step : D → gmap Z Z * virtqueue → D * (gmap Z Z * virtqueue);
  (** The number of sectors, the contents, the next available entry to serve,
      and how often the device may still put a notified request off. *)
  vd_cap : Z;
  vd_disk : D → Z → list Z;
  vd_next : D → Z;
  vd_wait : D → option nat;
  vd_ok : D → Prop;
  vd_sector d s : vd_ok d → length (vd_disk d s) = 512%nat;
  vd_notify_ok d : vd_ok d → vd_ok (vd_notify d) ∧ vd_disk (vd_notify d) = vd_disk d ∧ vd_next (vd_notify d) = vd_next d ∧
    ∃ n, vd_wait (vd_notify d) = Some n ∧ (n < Pos.to_nat VIRTQUEUE_POLL_MAX_SPINS)%nat;
  (** A pending well-formed request is served at once or put off. *)
  vd_step_ok d ram vq head ds ty sector hdr buf status d' ram' vq' :
    vd_ok d → 0 ≤ sector < 2 ^ 64 → (ty = VIRTIO_BLK_T_IN ∨ ty = VIRTIO_BLK_T_OUT) → vd_next d ≠ avail_idx vq → arr_get (avail_ring vq) (vd_next d mod vq_size vq) = Some head →
    chain (vq_desc vq) head (Z.to_nat (vq_size vq)) = Some ds → request ds ty hdr buf status →
    mem_read ram hdr SIZEOF_REQ = le_bytes 4 ty ++ le_bytes 4 0 ++ le_bytes 8 sector →
    vd_step d (ram, vq) = (d', (ram', vq')) →
    vd_ok d' ∧
    ((ram' = ram ∧ vq' = vq ∧ vd_disk d' = vd_disk d ∧ vd_next d' = vd_next d ∧
      (∀ n, vd_wait d = Some n → ∃ n', vd_wait d' = Some n' ∧ (n' < n)%nat)) ∨
     (vd_next d' = wrap16 (vd_next d + 1) ∧ (∃ written, vq' = put_used vq head written) ∧
      served vd_cap ty sector buf status ram (vd_disk d) ram' (vd_disk d')));
}.
Arguments vd_cap D {_}.

Section Driver.
Context {D : Type} `{!VirtioBlk D}.

Record blkst := mk_blk_st { b_dev : D; b_ram : gmap Z Z; b_vq : virtqueue; b_busy : Z }.
Implicit Types st : blkst.

(** One look at [used->idx]: the device has had a chance to run. *)
Definition poll_look (st : blkst) : blkst + blkst :=
  let '(d, (ram, vq)) := vd_step (b_dev st) (b_ram st, b_vq st) in
  let st' := mk_blk_st d ram vq (b_busy st) in
  if decide (used_idx vq = vq_last_used vq) then inr st' else inl st'.

Definition virtqueue_poll (st : blkst) : option (Z * blkst) :=
  match until VIRTQUEUE_POLL_MAX_SPINS poll_look st with
  | inr st' => Some (0, st')
  | inl st' =>
      let vq := b_vq st' in
      used ← modsize vq (vq_last_used vq);
      e ← arr_get (used_ring vq) used;
      Some (snd e, mk_blk_st (b_dev st') (b_ram st')
        (mk_vq (vq_size vq) (vq_free_head vq) (wrap16 (vq_last_used vq + 1)) (vq_desc vq) (avail_idx vq) (avail_ring vq)
           (used_idx vq) (used_ring vq)) (b_busy st'))
  end.

Definition virtqueue_notify (st : blkst) : blkst := mk_blk_st (vd_notify (b_dev st)) (b_ram st) (b_vq st) (b_busy st).

(** [blk_lock_acquire] spins, with interrupts let in on each turn, until the
    holder has released the lock; [None] is that wait. *)
Definition blk_lock_acquire (st : blkst) : option blkst :=
  if decide (b_busy st ≠ 0) then None else Some (mk_blk_st (b_dev st) (b_ram st) (b_vq st) 1).

Definition blk_lock_release (st : blkst) : blkst := mk_blk_st (b_dev st) (b_ram st) (b_vq st) 0.

(** The common body of [blk_read] and [blk_write]: [hdr] and [status] are the
    addresses of the two stack variables.  First the request up to the doorbell. *)
Definition blk_submit (ty data_flags : Z) (st : blkst) (sector buf hdr status : Z) : option blkst :=
  let hdr_pa := VIRT_TO_PHYS hdr in
  let buf_pa := VIRT_TO_PHYS buf in
  let status_pa := VIRT_TO_PHYS status in
  let ram1 := mem_write (b_ram st) hdr_pa (le_bytes 4 ty ++ le_bytes 4 0 ++ le_bytes 8 sector) in
  let ram2 := mem_write ram1 status_pa [0xFF] in
  let segs := [mk_vseg hdr_pa SIZEOF_REQ VIRTQ_DESC_F_NONE; mk_vseg buf_pa VIRTIO_BLK_SECTOR_SIZE data_flags;
               mk_vseg status_pa 1 VIRTQ_DESC_F_WRITE] in
  '(_, vq) ← virtqueue_submit_chain (b_vq st) segs;
  Some (virtqueue_notify (mk_blk_st (b_dev st) ram2 vq (b_busy st))).

Definition blk_request (ty data_flags : Z) (st : blkst) (sector buf hdr status : Z) : option (Z * blkst) :=
  st1 ← blk_lock_acquire st;
  st2 ← blk_submit ty data_flags st1 sector buf hdr status;
  '(_, st3) ← virtqueue_poll st2;
  s ← b_ram st3 !! VIRT_TO_PHYS status;
  Some (if decide (s ≠ VIRTIO_BLK_S_OK) then EERROR else ESUCCESS, blk_lock_release st3).

Definition blk_read := blk_request VIRTIO_BLK_T_IN VIRTQ_DESC_F_WRITE.
Definition blk_write := blk_request VIRTIO_BLK_T_OUT VIRTQ_DESC_F_NONE.
End Driver.
Arguments blkst D : clear implicits.

(** Polling is unfolded last in conversions. *)
Strategy 1000 [until until_nat Pos.to_nat VIRTQUEUE_POLL_MAX_SPINS].

(** ** The queue *)

Record vq_wf (vq : virtqueue) : Prop := {
  vw_size : 0 < vq_size vq ≤ VIRTQ_MAX_SIZE;
  vw_head : 0 ≤ vq_free_head vq < vq_size vq;
  vw_desc : length (vq_desc vq) = 16%nat;
  vw_avail : length (avail_ring vq) = 16%nat;
  vw_used : length (used_ring vq) = 16%nat;
}.

(** The descriptors of a chain in the table, from segment [i] of [n] on. *)
Fixpoint descs_of (size head i n : Z) (segs : list virtq_seg) : list virtq_desc :=
  match segs with
  | [] => []
  | sg :: segs' =>
      mk_desc (sg_pa sg) (sg_len sg) (if decide (i < n - 1) then Z.lor (sg_flags sg) VIRTQ_DESC_F_NEXT else sg_flags sg)
        (if decide (i < n - 1) then (head + i + 1) mod size else 0) :: descs_of size head (i + 1) n segs'
  end.

Lemma mod_distinct size a j k : 0 < size → 0 ≤ j < size → 0 ≤ k < size → (a + j) mod size = (a + k) mod size → j = k.
Proof.
  intros Hs Hj Hk E. assert ((j - k) mod size = 0) as Hd.
  { replace (j - k) with ((a + j) - (a + k)) by lia. rewrite Zminus_mod, E, Z.sub_diag. apply Z.mod_0_l. lia. }
  apply Z.mod_divide in Hd; [|lia]. destruct Hd as [q Hq]. assert (q = 0) by nia. lia.
Qed.

Lemma arr_set_ok {A} (l : list A) i x : 0 ≤ i < Z.of_nat (length l) → arr_set l i x = Some (<[Z.to_nat i := x]> l).
Proof. intros H. unfold arr_set. by rewrite decide_True. Qed.

Lemma arr_get_insert {A} (l : list A) i j x :
  0 ≤ i < Z.of_nat (length l) → 0 ≤ j → arr_get (<[Z.to_nat i := x]> l) j = if decide (j = i) then Some x else arr_get l j.
Proof.
  intros Hi Hj. unfold arr_get. rewrite !(decide_True (P := 0 ≤ j)) by done. case_decide as E.
  - subst j. apply list_lookup_insert_eq. lia.
  - apply list_lookup_insert_ne. lia.
Qed.

Lemma chain_loop_spec vq head i n segs :
  vq_wf vq → 0 ≤ i → n = i + Z.of_nat (length segs) → n ≤ vq_size vq →
  ∃ ds, chain_loop vq head i n segs = Some (with_desc vq ds) ∧ length ds = 16%nat ∧
    (∀ j d, descs_of (vq_size vq) head i n segs !! j = Some d → arr_get ds ((head + i + Z.of_nat j) mod vq_size vq) = Some d) ∧
    ∀ k, 0 ≤ k → (∀ j, i ≤ j < n → k ≠ (head + j) mod vq_size vq) → arr_get ds k = arr_get (vq_desc vq) k.
Proof.
  intros Hwf. pose proof Hwf as [Hsz _ Hd _ _]. unfold VIRTQ_MAX_SIZE in Hsz. revert vq i Hwf Hsz Hd.
  induction segs as [|sg segs IH]; intros vq i Hwf Hsz Hd Hi Hn Hle; cbn [chain_loop].
  - exists (vq_desc vq). split; [by destruct vq|]. split; [done|]. split; [done|]. done.
  - cbn [length] in Hn. pose proof (Z.mod_pos_bound (head + i) (vq_size vq) ltac:(lia)) as Hidx.
    assert (∀ a, modsize vq a = Some (a mod vq_size vq)) as Hms by (intros a; unfold modsize; by rewrite decide_False by lia).
    rewrite !Hms. cbn [mbind option_bind].
    assert ((if decide (i < n - 1) then Some ((head + i + 1) mod vq_size vq) else Some 0) =
      Some (if decide (i < n - 1) then (head + i + 1) mod vq_size vq else 0)) as -> by (by case_decide).
    cbn [mbind option_bind]. match goal with |- context [arr_set _ _ ?x] => set (d' := x) end.
    rewrite arr_set_ok by lia. cbn [mbind option_bind]. set (ds := <[Z.to_nat ((head + i) mod vq_size vq) := d']> (vq_desc vq)).
    destruct (IH (with_desc vq ds) (i + 1)) as (ds' & E & Hl & Hin & Hout); [..|lia|lia|done|].
    { destruct Hwf. constructor; try done. cbn. unfold ds. by rewrite length_insert. }
    { done. } { cbn. unfold ds. by rewrite length_insert. }
    exists ds'. split; [rewrite E; by destruct vq|]. split; [done|]. cbn [vq_size vq_desc with_desc] in *. split.
    + intros [|j] e He; cbn [descs_of] in He.
      * injection He as <-. rewrite Z.add_0_r. rewrite Hout.
        -- unfold ds. rewrite arr_get_insert, decide_True by lia. done.
        -- lia.
        -- intros k Hk E'. apply mod_distinct in E'; lia.
      * apply Hin in He. rewrite <- He. f_equal. f_equal. lia.
    + intros k Hk Hne. rewrite Hout by (done || intros j Hj; apply Hne; lia). unfold ds.
      rewrite arr_get_insert, decide_False by (lia || apply Hne; lia). done.
Qed.

(** A chain laid out in the table is what the device walks. *)
Lemma chain_walk ds size head i n segs fuel :
  0 < size → (length segs ≤ fuel)%nat → segs ≠ [] → n = i + Z.of_nat (length segs) →
  Forall (λ sg, Z.land (sg_flags sg) VIRTQ_DESC_F_NEXT = 0) segs →
  (∀ j d, descs_of size head i n segs !! j = Some d → arr_get ds ((head + i + Z.of_nat j) mod size) = Some d) →
  chain ds ((head + i) mod size) fuel = Some (descs_of size head i n segs).
Proof.
  intros Hs. revert i fuel. induction segs as [|sg segs IH]; intros i fuel Hf Hne Hn Hfl Hin; [done|].
  destruct fuel as [|f]; [cbn in Hf; lia|]. cbn [chain]. pose proof (Hin 0%nat _ eq_refl) as H0. rewrite Z.add_0_r in H0.
  rewrite H0. cbn [mbind option_bind d_flags d_next]. apply Forall_cons in Hfl as [Hsg Hfl]. cbn [length] in *.
  destruct segs as [|sg' segs].
  - rewrite !(decide_False (P := i < n - 1)) by (cbn in Hn; lia). rewrite decide_False by lia. cbn [descs_of].
    by rewrite !(decide_False (P := i < n - 1)) by (cbn in Hn; lia).
  - rewrite !(decide_True (P := i < n - 1)) by (cbn [length] in Hn; lia). rewrite decide_True.
    2:{ rewrite Z.land_lor_distr_l, Hsg. done. }
    replace (head + i + 1) with (head + (i + 1)) by lia. rewrite (IH (i + 1) f); [|cbn [length] in *; lia|done|cbn [length] in *; lia|done|].
    + cbn [mbind option_bind descs_of]. rewrite !(decide_True (P := i < n - 1)) by (cbn [length] in Hn; lia).
      by replace (head + i + 1) with (head + (i + 1)) by lia.
    + intros j d Hd. rewrite <- (Hin (S j) d Hd). f_equal. f_equal. lia.
Qed.

(** What submitting a chain does: the segments in order are the chain the device
    finds behind the next available entry, and nothing else of the queue moves. *)
Lemma submit_chain_spec vq segs :
  vq_wf vq → segs ≠ [] → Z.of_nat (length segs) ≤ vq_size vq → Forall (λ sg, Z.land (sg_flags sg) VIRTQ_DESC_F_NEXT = 0) segs →
  ∃ vq', virtqueue_submit_chain vq segs = Some (vq_free_head vq, vq') ∧ vq_wf vq' ∧ vq_size vq' = vq_size vq ∧
    avail_idx vq' = wrap16 (avail_idx vq + 1) ∧ used_idx vq' = used_idx vq ∧ used_ring vq' = used_ring vq ∧ vq_last_used vq' = vq_last_used vq ∧
    arr_get (avail_ring vq') (avail_idx vq mod vq_size vq) = Some (vq_free_head vq) ∧
    chain (vq_desc vq') (vq_free_head vq) (Z.to_nat (vq_size vq)) =
      Some (descs_of (vq_size vq) (vq_free_head vq) 0 (Z.of_nat (length segs)) segs) ∧
    ∀ k, 0 ≤ k → (∀ j, 0 ≤ j < Z.of_nat (length segs) → k ≠ (vq_free_head vq + j) mod vq_size vq) →
      arr_get (vq_desc vq') k = arr_get (vq_desc vq) k.
Proof.
  intros Hwf Hne Hle Hfl. pose proof Hwf as [Hsz Hhd Hd Ha Hu]. unfold virtqueue_submit_chain.
  destruct (chain_loop_spec vq (vq_free_head vq) 0 (Z.of_nat (length segs)) segs) as (ds & -> & Hl & Hin & Hout); [done|lia|lia|done|].
  cbn [mbind option_bind]. unfold modsize, publish. cbn [vq_size with_desc avail_idx avail_ring]. unfold VIRTQ_MAX_SIZE in Hsz.
  rewrite decide_False by lia. cbn [mbind option_bind]. unfold modsize. cbn [vq_size with_desc avail_idx].
  rewrite decide_False by lia. cbn [mbind option_bind].
  pose proof (Z.mod_pos_bound (avail_idx vq) (vq_size vq) ltac:(lia)) as Hp. rewrite arr_set_ok by lia. cbn [mbind option_bind].
  eexists. split; [done|]. cbn. split_and!; try done.
  - constructor; cbn; try done; [apply Z.mod_pos_bound; lia|by rewrite length_insert].
  - rewrite arr_get_insert, decide_True by lia. done.
  - replace (vq_free_head vq) with ((vq_free_head vq + 0) mod vq_size vq) at 1 by (rewrite Z.add_0_r; apply Z.mod_small; lia).
    apply chain_walk; try done; lia.
Qed.

(** ** The block driver *)

Section Blk.
Context {D : Type} `{!VirtioBlk D}.
Implicit Types st : blkst D.

(** Between requests driver and device have seen the same entries. *)
Record blk_wf st : Prop := {
  bw_vq : vq_wf (b_vq st);
  bw_size : 3 ≤ vq_size (b_vq st);
  bw_free : b_busy st = 0;
  bw_dev : vd_ok (b_dev st);
  bw_idx : 0 ≤ avail_idx (b_vq st) < 2 ^ 16;
  bw_used : used_idx (b_vq st) = avail_idx (b_vq st);
  bw_last : vq_last_used (b_vq st) = avail_idx (b_vq st);
  bw_next : vd_next (b_dev st) = avail_idx (b_vq st);
}.

(** The queue as it is set up for a device that has served nothing yet. *)
Lemma virtqueue_setup_ready (d : D) ram vq max_size desc avail used :
  vd_ok d → vd_next d = 0 → 3 ≤ max_size → length (vq_desc vq) = 16%nat →
  let '(rc, vq', _) := virtqueue_setup 0 max_size desc avail used vq in rc = ESUCCESS ∧ blk_wf (mk_blk_st d ram vq' 0).
Proof.
  intros Hok Hn Hm Hl. unfold virtqueue_setup. rewrite decide_False by lia. split; [done|]. unfold VIRTQ_MAX_SIZE.
  set (q := if decide (16 > max_size) then max_size else 16). assert (3 ≤ q ≤ 16) as Hq by (unfold q; case_decide; lia).
  constructor; cbn [b_vq b_busy b_dev vq_size avail_idx used_idx vq_last_used]; [constructor; cbn [vq_size vq_free_head vq_desc avail_ring used_ring]|..]; try done; try (unfold VIRTQ_MAX_SIZE; lia).
  rewrite length_app, length_replicate, length_drop. lia.
Qed.

(** The three buffers of a request do not overlap. *)
Definition apart (h b s : Z) : Prop :=
  (h + SIZEOF_REQ ≤ b ∨ b + VIRTIO_BLK_SECTOR_SIZE ≤ h) ∧ ¬ (h ≤ s < h + SIZEOF_REQ) ∧ ¬ (b ≤ s < b + VIRTIO_BLK_SECTOR_SIZE).

Lemma wrap16_succ x : 0 ≤ x < 2 ^ 16 → 0 ≤ wrap16 (x + 1) < 2 ^ 16 ∧ wrap16 (x + 1) ≠ x.
Proof. unfold wrap16. intros Hx. split; [by apply Z.mod_pos_bound|]. destruct (decide (x = 2 ^ 16 - 1)) as [->|]; [done|].
  rewrite Z.mod_small by lia. lia. Qed.

(** A pending request is served while the driver polls. *)
Lemma poll_served d ram vq head ds ty sector hdr buf status n :
  vd_ok d → 0 ≤ sector < 2 ^ 64 → (ty = VIRTIO_BLK_T_IN ∨ ty = VIRTIO_BLK_T_OUT) →
  vd_wait d = Some n → (n < Pos.to_nat VIRTQUEUE_POLL_MAX_SPINS)%nat →
  0 ≤ used_idx vq < 2 ^ 16 → vq_last_used vq = used_idx vq → vd_next d ≠ avail_idx vq →
  arr_get (avail_ring vq) (vd_next d mod vq_size vq) = Some head →
  chain (vq_desc vq) head (Z.to_nat (vq_size vq)) = Some ds → request ds ty hdr buf status →
  mem_read ram hdr SIZEOF_REQ = le_bytes 4 ty ++ le_bytes 4 0 ++ le_bytes 8 sector →
  ∃ d' ram' written, until VIRTQUEUE_POLL_MAX_SPINS poll_look (mk_blk_st d ram vq 1) =
      inl (mk_blk_st d' ram' (put_used vq head written) 1) ∧
    vd_ok d' ∧ vd_next d' = wrap16 (vd_next d + 1) ∧
    served (vd_cap D) ty sector buf status ram (vd_disk d) ram' (vd_disk d').
Proof.
  intros Hok Hsec Hty Hw Hn Hu Hlast Hpend Hring Hch Hreq Hhdr.
  destruct (until_measure VIRTQUEUE_POLL_MAX_SPINS poll_look
    (λ n s, ∃ d1, s = mk_blk_st d1 ram vq 1 ∧ vd_ok d1 ∧ vd_wait d1 = Some n ∧ vd_disk d1 = vd_disk d ∧ vd_next d1 = vd_next d)
    (λ s, ∃ d' ram' written, s = mk_blk_st d' ram' (put_used vq head written) 1 ∧ vd_ok d' ∧ vd_next d' = wrap16 (vd_next d + 1) ∧
       served (vd_cap D) ty sector buf status ram (vd_disk d) ram' (vd_disk d'))
    n (mk_blk_st d ram vq 1)) as (b & E & d' & ram' & written & -> & H).
  - intros k s (d1 & -> & Hok1 & Hw1 & Ed & En). unfold poll_look. cbn [b_dev b_ram b_vq b_busy].
    destruct (vd_step d1 (ram, vq)) as [d' [ram' vq']] eqn:E.
    destruct (vd_step_ok d1 ram vq head ds ty sector hdr buf status d' ram' vq') as [Hok' Hc]; [done|done|done|by rewrite En..|done|done|done|done|].
    destruct Hc as [(-> & -> & Ed' & En' & Hwait)|(En' & (written & ->) & Hs)].
    + rewrite decide_True by done. destruct (Hwait k Hw1) as (k' & Hk' & Hlt). exists k'. split; [done|].
      exists d'. split; [done|]. split; [done|]. split; [done|]. split; congruence.
    + rewrite decide_False.
      * exists d', ram', written. rewrite <- Ed, <- En. done.
      * cbn. rewrite Hlast. by apply wrap16_succ.
  - by exists d.
  - done.
  - exists d', ram', written. done.
Qed.

Lemma virtqueue_poll_served d ram vq head ds ty sector hdr buf status n :
  vq_wf vq → vd_ok d → 0 ≤ sector < 2 ^ 64 → (ty = VIRTIO_BLK_T_IN ∨ ty = VIRTIO_BLK_T_OUT) →
  vd_wait d = Some n → (n < Pos.to_nat VIRTQUEUE_POLL_MAX_SPINS)%nat →
  0 ≤ used_idx vq < 2 ^ 16 → vq_last_used vq = used_idx vq → vd_next d ≠ avail_idx vq →
  arr_get (avail_ring vq) (vd_next d mod vq_size vq) = Some head →
  chain (vq_desc vq) head (Z.to_nat (vq_size vq)) = Some ds → request ds ty hdr buf status →
  mem_read ram hdr SIZEOF_REQ = le_bytes 4 ty ++ le_bytes 4 0 ++ le_bytes 8 sector →
  ∃ d' ram' written vq', virtqueue_poll (mk_blk_st d ram vq 1) = Some (written, mk_blk_st d' ram' vq' 1) ∧
    vd_ok d' ∧ vd_next d' = wrap16 (vd_next d + 1) ∧ vq_wf vq' ∧ vq_size vq' = vq_size vq ∧ avail_idx vq' = avail_idx vq ∧
    used_idx vq' = wrap16 (used_idx vq + 1) ∧ vq_last_used vq' = wrap16 (used_idx vq + 1) ∧
    served (vd_cap D) ty sector buf status ram (vd_disk d) ram' (vd_disk d').
Proof.
  intros Hvq Hok Hsec Hty Hw Hn Hu Hlast Hpend Hring Hch Hreq Hhdr.
  destruct (poll_served d ram vq head ds ty sector hdr buf status n) as (d' & ram' & written & E & Hok' & Hnext & Hs); [done..|].
  unfold virtqueue_poll. rewrite E. cbn [b_vq b_dev b_ram b_busy]. unfold modsize. cbn [put_used vq_size vq_last_used used_ring].
  destruct Hvq as [Hz1 Hz2 Hz3 Hz4 Hz5]. unfold VIRTQ_MAX_SIZE in Hz1. rewrite decide_False by lia. cbn [mbind option_bind].
  rewrite Hlast. pose proof (Z.mod_pos_bound (used_idx vq) (vq_size vq) ltac:(lia)) as Hm.
  rewrite arr_get_insert, decide_True by lia. cbn [mbind option_bind snd].
  exists d', ram', written. eexists. split; [done|]. split; [done|]. split; [done|]. split; [|done].
  constructor; cbn; try done. by rewrite length_insert.
Qed.

(** The memory a request may change. *)
Definition same_outside (ram ram' : gmap Z Z) (h b s : Z) : Prop :=
  ∀ x, ¬ (h ≤ x < h + SIZEOF_REQ) → ¬ (b ≤ x < b + VIRTIO_BLK_SECTOR_SIZE) → x ≠ s → ram' !! x = ram !! x.

Lemma header_length ty sector : length (le_bytes 4 ty ++ le_bytes 4 0 ++ le_bytes 8 sector) = 16%nat.
Proof. by rewrite !length_app, !le_bytes_length. Qed.

Lemma segs_request size head ty data_flags h b s :
  (ty = VIRTIO_BLK_T_IN ∧ data_flags = VIRTQ_DESC_F_WRITE ∨ ty = VIRTIO_BLK_T_OUT ∧ data_flags = VIRTQ_DESC_F_NONE) →
  request (descs_of size head 0 3 [mk_vseg h SIZEOF_REQ VIRTQ_DESC_F_NONE; mk_vseg b VIRTIO_BLK_SECTOR_SIZE data_flags;
    mk_vseg s 1 VIRTQ_DESC_F_WRITE]) ty h b s.
Proof. intros [[-> ->]|[-> ->]]; eexists _, _, _; reflexivity. Qed.

(** What the driver makes of a served request. *)
Lemma served_outcome cap ty sector b s ram disk ram' disk' :
  ¬ (b ≤ s < b + VIRTIO_BLK_SECTOR_SIZE) → length (disk sector) = 512%nat → served cap ty sector b s ram disk ram' disk' →
  ∃ code, ram' !! s = Some code ∧ (∀ x, ¬ (b ≤ x < b + VIRTIO_BLK_SECTOR_SIZE) → x ≠ s → ram' !! x = ram !! x) ∧
    (∀ k, k ≠ sector ∨ ty = VIRTIO_BLK_T_IN → disk' k = disk k) ∧
    (code = VIRTIO_BLK_S_OK → sector < cap ∧ (ty = VIRTIO_BLK_T_IN → mem_read ram' b VIRTIO_BLK_SECTOR_SIZE = disk sector) ∧
      (ty = VIRTIO_BLK_T_OUT → disk' sector = mem_read ram b VIRTIO_BLK_SECTOR_SIZE)).
Proof.
  assert (∀ ram c, mem_write ram s [c] !! s = Some c) as Hst.
  { intros m c. rewrite mem_write_lookup, decide_True by (cbn; lia). by rewrite Z.sub_diag. }
  unfold VIRTIO_BLK_SECTOR_SIZE. intros Hbs Hlen [-> Hlt|k -> Hlt Hnew Hold|code junk k Hcode Hjunk Hold]; eexists; (split; [apply Hst|]).
  - split; [intros x Hx Hxs; rewrite !mem_write_outside; [done|lia|cbn; lia]|]. split; [done|]. intros _. split; [done|]. split; [|done].
    intros _. rewrite (mem_read_ext (mem_write ram b (disk sector))).
    + pose proof (mem_read_write ram b (disk sector)) as H. by rewrite Hlen in H.
    + intros x Hx. apply mem_write_outside. cbn. lia.
  - split; [intros x Hx Hxs; rewrite !mem_write_outside; [done|cbn; lia]|]. split; [|done].
    intros x [Hx|Hx]; [by apply Hold|done].
  - split; [|split; [done|intros ->; unfold VIRTIO_BLK_S_OK in Hcode; lia]].
    intros x Hx Hxs. rewrite !mem_write_outside; [done| |cbn; lia]. destruct Hjunk as [->|[_ Hj]]; cbn; lia.
Qed.

Lemma header_read ram h s ty sector :
  ¬ (h ≤ s < h + SIZEOF_REQ) →
  mem_read (mem_write (mem_write ram h (le_bytes 4 ty ++ le_bytes 4 0 ++ le_bytes 8 sector)) s [0xFF]) h SIZEOF_REQ =
    le_bytes 4 ty ++ le_bytes 4 0 ++ le_bytes 8 sector.
Proof.
  intros Hs. rewrite (mem_read_ext (mem_write ram h (le_bytes 4 ty ++ le_bytes 4 0 ++ le_bytes 8 sector))).
  - pose proof (mem_read_write ram h (le_bytes 4 ty ++ le_bytes 4 0 ++ le_bytes 8 sector)) as Hrw. by rewrite header_length in Hrw.
  - intros x Hx. apply mem_write_outside. cbn [length]. lia.
Qed.

(** Header and status byte are all the driver itself writes. *)
Lemma ram0_outside ram h s ty sector x :
  ¬ (h ≤ x < h + SIZEOF_REQ) → x ≠ s →
  mem_write (mem_write ram h (le_bytes 4 ty ++ le_bytes 4 0 ++ le_bytes 8 sector)) s [0xFF] !! x = ram !! x.
Proof. unfold SIZEOF_REQ. intros Hh Hs. rewrite !mem_write_outside; [done|rewrite header_length; lia|cbn; lia]. Qed.

Lemma blk_request_eq ty data_flags st sector buf hdr status st2 w st3 code :
  b_busy st = 0 → blk_submit ty data_flags (mk_blk_st (b_dev st) (b_ram st) (b_vq st) 1) sector buf hdr status = Some st2 →
  virtqueue_poll st2 = Some (w, st3) → b_ram st3 !! VIRT_TO_PHYS status = Some code →
  blk_request ty data_flags st sector buf hdr status =
    Some (if decide (code ≠ VIRTIO_BLK_S_OK) then EERROR else ESUCCESS, blk_lock_release st3).
Proof.
  unfold blk_request, blk_lock_acquire. generalize (blk_submit (D := D)) as submit. generalize (virtqueue_poll (D := D)) as poll.
  intros poll submit Hb E1 E2 E3. rewrite decide_False by lia. cbn [mbind option_bind]. rewrite E1. cbn [mbind option_bind].
  rewrite E2. cbn [mbind option_bind]. by rewrite E3.
Qed.

(** A request comes back, with the driver ready for the next one. *)
Lemma blk_request_spec ty data_flags st sector buf hdr status :
  let h := VIRT_TO_PHYS hdr in let b := VIRT_TO_PHYS buf in let s := VIRT_TO_PHYS status in
  blk_wf st → 0 ≤ sector < 2 ^ 64 → apart h b s →
  (ty = VIRTIO_BLK_T_IN ∧ data_flags = VIRTQ_DESC_F_WRITE ∨ ty = VIRTIO_BLK_T_OUT ∧ data_flags = VIRTQ_DESC_F_NONE) →
  ∃ r st', blk_request ty data_flags st sector buf hdr status = Some (r, st') ∧ blk_wf st' ∧
    same_outside (b_ram st) (b_ram st') h b s ∧
    (∀ k, k ≠ sector ∨ ty = VIRTIO_BLK_T_IN → vd_disk (b_dev st') k = vd_disk (b_dev st) k) ∧
    (r = EERROR ∨ r = ESUCCESS ∧ sector < vd_cap D ∧
      (ty = VIRTIO_BLK_T_IN → mem_read (b_ram st') b VIRTIO_BLK_SECTOR_SIZE = vd_disk (b_dev st) sector) ∧
      (ty = VIRTIO_BLK_T_OUT → vd_disk (b_dev st') sector = mem_read (b_ram st) b VIRTIO_BLK_SECTOR_SIZE)).
Proof.
  intros h b s [Hvq Hsz Hfree Hdev Hidx Hused Hlast Hnext] Hsec (Hhb & Hhs & Hbs) Hty.
  set (ram0 := mem_write (mem_write (b_ram st) h (le_bytes 4 ty ++ le_bytes 4 0 ++ le_bytes 8 sector)) s [0xFF]).
  set (segs := [mk_vseg h SIZEOF_REQ VIRTQ_DESC_F_NONE; mk_vseg b VIRTIO_BLK_SECTOR_SIZE data_flags; mk_vseg s 1 VIRTQ_DESC_F_WRITE]).
  destruct (submit_chain_spec (b_vq st) segs) as (vq & Esub & Hvq' & Esz & Eav & Eus & Eur & Elu & Hring & Hch & _); [done|done|cbn; lia| |].
  { unfold segs. repeat constructor. cbn. by destruct Hty as [[_ ->]|[_ ->]]. }
  destruct (vd_notify_ok (b_dev st) Hdev) as (Hok & Edisk & Enext & n & Hw & Hn).
  pose proof (wrap16_succ _ Hidx) as [Hnew Hnew'].
  destruct (virtqueue_poll_served (vd_notify (b_dev st)) ram0 vq (vq_free_head (b_vq st))
    (descs_of (vq_size (b_vq st)) (vq_free_head (b_vq st)) 0 (Z.of_nat (length segs)) segs) ty sector h b s n Hvq' Hok Hsec
    ltac:(tauto) Hw Hn)
    as (d' & ram' & written & vq' & Epoll & Hok' & Enext' & Hwf' & Esz' & Eav' & Eus' & Elu' & Hs); [..|].
  { rewrite Eus, Hused. done. } { rewrite Elu, Eus. congruence. } { rewrite Enext, Hnext, Eav. auto. }
  { rewrite Enext, Hnext, Esz. exact Hring. } { rewrite Esz. exact Hch. }
  { by apply segs_request. }
  { unfold ram0. apply header_read. exact Hhs. }
  destruct (served_outcome _ _ _ _ _ _ _ _ _ Hbs (vd_sector _ sector Hok) Hs) as (code & Ecode & Hram & Hdisk & Hcode).
  rewrite Edisk in Hdisk, Hcode. eexists _, _. split; [eapply blk_request_eq; [done| |exact Epoll|exact Ecode]|].
  { unfold blk_submit. cbn [b_vq b_ram b_dev b_busy]. fold h b s segs ram0. by rewrite Esub. }
  split; [|split; [|split; [exact Hdisk|]]].
  - constructor; cbn [blk_lock_release b_vq b_dev b_busy]; [done|lia|done|done|by rewrite Eav', Eav|..].
    + by rewrite Eus', Eav', Eus, Hused, Eav.
    + by rewrite Elu', Eav', Eus, Hused, Eav.
    + by rewrite Enext', Eav', Enext, Hnext, Eav.
  - intros x Hxh Hxb Hxs. cbn [b_ram blk_lock_release]. rewrite Hram by done. by apply ram0_outside.
  - case_decide as Hc; [by left|right]. destruct (Hcode Hc) as (Hlt & Hin & Hout).
    split; [done|]. split; [done|]. split; [exact Hin|]. intros E. etransitivity; [exact (Hout E)|]. apply mem_read_ext. intros x Hx. apply ram0_outside; unfold SIZEOF_REQ in *; lia.
Qed.
End Blk.

(** ** The abstract disk *)

(** A call with the kernel addresses of the buffer and of the two locals; before
    a write the caller has filled the buffer. *)
Inductive dcall := CRead (sector buf hdr status : Z) | CWrite (sector buf hdr status : Z) (data : list Z).

(** What a caller sees of a call: the result, and of a read the buffer. *)
Inductive devent := ERead (sector result : Z) (data : list Z) | EWrite (sector result : Z) (data : list Z).

(** A disk on its own. *)
Inductive disk_step (cap : Z) (disk : Z → list Z) : devent → (Z → list Z) → Prop :=
  | disk_read sector disk' :
      sector < cap → (∀ k, disk' k = disk k) → disk_step cap disk (ERead sector ESUCCESS (disk sector)) disk'
  | disk_read_error sector junk disk' : (∀ k, disk' k = disk k) → disk_step cap disk (ERead sector EERROR junk) disk'
  | disk_write sector data disk' :
      sector < cap → disk' sector = data → (∀ k, k ≠ sector → disk' k = disk k) → disk_step cap disk (EWrite sector ESUCCESS data) disk'
  | disk_write_error sector data disk' :
      (∀ k, k ≠ sector → disk' k = disk k) → disk_step cap disk (EWrite sector EERROR data) disk'.

Inductive disk_run (cap : Z) : (Z → list Z) → list devent → (Z → list Z) → Prop :=
  | run_nil disk : disk_run cap disk [] disk
  | run_cons disk e disk1 es disk2 : disk_step cap disk e disk1 → disk_run cap disk1 es disk2 → disk_run cap disk (e :: es) disk2.

Section History.
Context {D : Type} `{!VirtioBlk D}.
Implicit Types st : blkst D.

(** The driver called in sequence. *)
Definition blk_call st (c : dcall) : option (devent * blkst D) :=
  match c with
  | CRead sector buf hdr status =>
      '(r, st') ← blk_read st sector buf hdr status;
      Some (ERead sector r (mem_read (b_ram st') (VIRT_TO_PHYS buf) VIRTIO_BLK_SECTOR_SIZE), st')
  | CWrite sector buf hdr status data =>
      let st0 := mk_blk_st (b_dev st) (mem_write (b_ram st) (VIRT_TO_PHYS buf) data) (b_vq st) (b_busy st) in
      '(r, st') ← blk_write st0 sector buf hdr status;
      Some (EWrite sector r data, st')
  end.

Fixpoint blk_calls st (cs : list dcall) : option (list devent * blkst D) :=
  match cs with
  | [] => Some ([], st)
  | c :: cs' => '(e, st1) ← blk_call st c; '(es, st2) ← blk_calls st1 cs'; Some (e :: es, st2)
  end.

Definition call_ok (c : dcall) : Prop :=
  match c with
  | CRead sector buf hdr status => 0 ≤ sector < 2 ^ 64 ∧ apart (VIRT_TO_PHYS hdr) (VIRT_TO_PHYS buf) (VIRT_TO_PHYS status)
  | CWrite sector buf hdr status data =>
      0 ≤ sector < 2 ^ 64 ∧ apart (VIRT_TO_PHYS hdr) (VIRT_TO_PHYS buf) (VIRT_TO_PHYS status) ∧ length data = 512%nat
  end.

Lemma blk_call_spec st c :
  blk_wf st → call_ok c →
  ∃ e st', blk_call st c = Some (e, st') ∧ blk_wf st' ∧ disk_step (vd_cap D) (vd_disk (b_dev st)) e (vd_disk (b_dev st')).
Proof.
  intros Hwf Hc. destruct c as [sector buf hdr status|sector buf hdr status data]; cbn [blk_call call_ok] in *.
  - destruct Hc as [Hsec Hap].
    destruct (blk_request_spec VIRTIO_BLK_T_IN VIRTQ_DESC_F_WRITE st sector buf hdr status Hwf Hsec Hap) as (r & st' & E & Hwf' & _ & Hdisk & Hr);
      [by left|]. unfold blk_read. revert E. generalize (blk_request (D := D)) as request'. intros request' E. rewrite E. cbn [mbind option_bind].
    eexists _, st'. split; [done|]. split; [done|].
    destruct Hr as [->|(-> & Hlt & Hin & _)]; [apply disk_read_error; auto|]. rewrite (Hin eq_refl). apply disk_read; auto.
  - destruct Hc as (Hsec & Hap & Hlen). set (st0 := mk_blk_st _ _ _ _).
    assert (blk_wf st0) as Hwf0 by (destruct Hwf; by constructor).
    destruct (blk_request_spec VIRTIO_BLK_T_OUT VIRTQ_DESC_F_NONE st0 sector buf hdr status Hwf0 Hsec Hap) as (r & st' & E & Hwf' & _ & Hdisk & Hr);
      [by right|]. unfold blk_write. revert E. generalize (blk_request (D := D)) as request'. intros request' E. rewrite E. cbn [mbind option_bind].
    eexists _, st'. split; [done|]. split; [done|]. assert (∀ k, k ≠ sector → vd_disk (b_dev st') k = vd_disk (b_dev st) k) as Hk.
    { intros k Hk. apply Hdisk. by left. }
    destruct Hr as [->|(-> & Hlt & _ & Hout)]; [by apply disk_write_error|]. apply disk_write; [done| |done].
    rewrite (Hout eq_refl). pose proof (mem_read_write (b_ram st) (VIRT_TO_PHYS buf) data) as H. by rewrite Hlen in H.
Qed.

(** C13. Over any device that completes each request within the driver's ten million
    looks at the used ring, whatever sectors are read and written in whatever
    order, the driver's calls all return, the driver stays ready for the next one
    with queue and indices in step (also over the wrap of the 16-bit indices), and
    what the callers see is what a disk on its own would have shown: a successful
    read returns what was last written to that sector, no other sector changes,
    and success means that the sector exists. *)
Theorem blk_history (st : blkst D) (cs : list dcall) :
  blk_wf st → Forall call_ok cs →
  ∃ es st', blk_calls st cs = Some (es, st') ∧ blk_wf st' ∧ disk_run (vd_cap D) (vd_disk (b_dev st)) es (vd_disk (b_dev st')).
Proof.
  revert st. induction cs as [|c cs IH]; intros st Hwf Hcs; cbn [blk_calls].
  - exists [], st. split; [done|]. split; [done|]. constructor.
  - apply Forall_cons in Hcs as [Hc Hcs]. destruct (blk_call_spec st c Hwf Hc) as (e & st1 & E & Hwf1 & Hstep).
    destruct (IH st1 Hwf1 Hcs) as (es & st2 & E2 & Hwf2 & Hrun). revert E. generalize (blk_call st c) as r. intros r ->.
    cbn [mbind option_bind]. rewrite E2. exists (e :: es), st2. split; [done|]. split; [done|]. by econstructor.
Qed.
End History.

(** ** A device

    A disk of eight sectors that is busy for two looks after each doorbell. *)
Module Toy.

Record dev := mk_dev { t_disk : gmap Z (list Z); t_next : Z; t_wait : nat }.

Definition contents (d : dev) (s : Z) : list Z := default (replicate 512 0) (t_disk d !! s).

Definition capacity : Z := 8.

(** Serve the chain the next available entry names. *)
Definition serve (d : dev) (ram : gmap Z Z) (vq : virtqueue) : option (dev * (gmap Z Z * virtqueue)) :=
  head ← arr_get (avail_ring vq) (t_next d mod vq_size vq);
  ds ← chain (vq_desc vq) head (Z.to_nat (vq_size vq));
  match ds with
  | [h; b; s] =>
      let ty := le_value (take 4 (mem_read ram (d_addr h) SIZEOF_REQ)) in
      let sector := le_value (drop 8 (mem_read ram (d_addr h) SIZEOF_REQ)) in
      let next := wrap16 (t_next d + 1) in
      Some (if decide (capacity ≤ sector) then (mk_dev (t_disk d) next 0, (mem_write ram (d_addr s) [1], put_used vq head 1))
            else if decide (ty = VIRTIO_BLK_T_IN) then
              (mk_dev (t_disk d) next 0, (mem_write (mem_write ram (d_addr b) (contents d sector)) (d_addr s) [VIRTIO_BLK_S_OK], put_used vq head 513))
            else
              (mk_dev (<[sector := mem_read ram (d_addr b) VIRTIO_BLK_SECTOR_SIZE]> (t_disk d)) next 0,
               (mem_write ram (d_addr s) [VIRTIO_BLK_S_OK], put_used vq head 1)))
  | _ => None
  end.

Definition step (d : dev) (m : gmap Z Z * virtqueue) : dev * (gmap Z Z * virtqueue) :=
  match t_wait d with
  | S n => (mk_dev (t_disk d) (t_next d) n, m)
  | O => if decide (t_next d = avail_idx (snd m)) then (d, m) else default (d, m) (serve d (fst m) (snd m))
  end.

Definition ok (d : dev) : Prop := map_Forall (λ _ b, length b = 512%nat) (t_disk d).

Lemma contents_length d s : ok d → length (contents d s) = 512%nat.
Proof. intros H. unfold contents. destruct (t_disk d !! s) eqn:E; cbn [default]; [exact (H _ _ E)|apply length_replicate]. Qed.

Lemma mem_write_nil ram pa : mem_write ram pa [] = ram.
Proof. apply map_eq. intros x. apply mem_write_outside. cbn. lia. Qed.

Lemma header_fields ty sector :
  0 ≤ sector < 2 ^ 64 → (ty = VIRTIO_BLK_T_IN ∨ ty = VIRTIO_BLK_T_OUT) →
  le_value (take 4 (le_bytes 4 ty ++ le_bytes 4 0 ++ le_bytes 8 sector)) = ty ∧
  le_value (drop 8 (le_bytes 4 ty ++ le_bytes 4 0 ++ le_bytes 8 sector)) = sector.
Proof.
  intros Hs Hty. split.
  - rewrite take_app_length' by (by rewrite le_bytes_length). by destruct Hty as [->| ->].
  - rewrite app_assoc, drop_app_length' by (by rewrite length_app, !le_bytes_length). apply le_value_bytes. exact Hs.
Qed.

Lemma step_ok d ram vq head ds ty sector hdr buf status d' ram' vq' :
  ok d → 0 ≤ sector < 2 ^ 64 → (ty = VIRTIO_BLK_T_IN ∨ ty = VIRTIO_BLK_T_OUT) → t_next d ≠ avail_idx vq →
  arr_get (avail_ring vq) (t_next d mod vq_size vq) = Some head →
  chain (vq_desc vq) head (Z.to_nat (vq_size vq)) = Some ds → request ds ty hdr buf status →
  mem_read ram hdr SIZEOF_REQ = le_bytes 4 ty ++ le_bytes 4 0 ++ le_bytes 8 sector →
  step d (ram, vq) = (d', (ram', vq')) →
  ok d' ∧
  ((ram' = ram ∧ vq' = vq ∧ contents d' = contents d ∧ t_next d' = t_next d ∧
    (∀ n, Some (t_wait d) = Some n → ∃ n', Some (t_wait d') = Some n' ∧ (n' < n)%nat)) ∨
   (t_next d' = wrap16 (t_next d + 1) ∧ (∃ written, vq' = put_used vq head written) ∧
    served capacity ty sector buf status ram (contents d) ram' (contents d'))).
Proof.
  intros Hok Hsec Hty Hpend Hring Hch (n0 & n1 & n2 & ->) Hhdr. unfold step. cbn [fst snd].
  destruct (t_wait d) as [|w] eqn:Hw.
  2:{ intros E. injection E as <- <- <-. split; [done|]. left. split_and!; try done. intros n [= <-]. exists w. split; [done|lia]. }
  rewrite decide_False by done. unfold serve. rewrite Hring. cbn [mbind option_bind]. rewrite Hch. cbn [mbind option_bind d_addr].
  rewrite Hhdr. destruct (header_fields ty sector Hsec Hty) as [-> ->]. cbn [default from_option]. unfold id.
  destruct (decide (capacity ≤ sector)) as [Hcap|Hcap]; [|destruct (decide (ty = VIRTIO_BLK_T_IN)) as [Hin|Hin]].
  - intros E. injection E as <- <- <-. split; [done|]. right. split; [done|]. split; [by exists 1|].
    rewrite <- (mem_write_nil ram buf) at 2. apply served_error; [lia|by left|done].
  - intros E. injection E as <- <- <-. split; [done|]. right. split; [done|]. split; [by exists 513|]. apply served_in; [done|lia].
  - intros E. injection E as <- <- <-. split.
    { apply map_Forall_insert_2; [|exact Hok]. unfold mem_read. by rewrite length_fmap, length_seqZ. }
    right. split; [done|]. split; [by exists 1|]. apply served_out; [by destruct Hty|lia|..].
    + unfold contents. cbn [t_disk]. by rewrite lookup_insert_eq.
    + intros s Hs. unfold contents. cbn [t_disk]. by rewrite lookup_insert_ne.
Qed.

#[global] Program Instance toy_blk : VirtioBlk dev := {|
  vd_notify d := mk_dev (t_disk d) (t_next d) 2;
  vd_step := step;
  vd_cap := capacity;
  vd_disk := contents;
  vd_next := t_next;
  vd_wait d := Some (t_wait d);
  vd_ok := ok;
|}.
Next Obligation. intros d s H. by apply contents_length. Qed.
Next Obligation.
  intros d H. split; [exact H|]. split; [done|]. split; [done|]. exists 2%nat. split; [done|].
  apply Nat2Z.inj_lt. rewrite positive_nat_Z. reflexivity.
Qed.
Next Obligation. intros d ram vq head ds ty sector hdr buf status d' ram' vq'. apply step_ok. Qed.

(** A driver with an eight-entry queue whose indices are about to wrap. *)
Definition start : blkst dev :=
  mk_blk_st (mk_dev ∅ 65535 0) ∅
    (mk_vq 8 6 65535 (replicate 16 (mk_desc 0 0 0 0)) 65535 (replicate 16 0) 65535 (replicate 16 (0, 0))) 0.

Definition sector_of (x : Z) : list Z := replicate 512 x.

(** Two writes, a read of each and a read past the end. *)
Definition calls : list dcall :=
  [CWrite 3 0x40000 0x50000 0x50020 (sector_of 7); CWrite 4 0x40000 0x50000 0x50020 (sector_of 9);
   CRead 3 0x41000 0x50000 0x50020; CRead 4 0x41000 0x50000 0x50020; CRead 8 0x41000 0x50000 0x50020].

Lemma start_wf : blk_wf start.
Proof. constructor; [constructor; done || (cbn; unfold VIRTQ_MAX_SIZE; lia)|cbn; lia|done|done|cbn; lia|done|done|done]. Qed.

Lemma calls_ok : Forall call_ok calls.
Proof. unfold calls. repeat constructor; vm_compute; intuition congruence. Qed.
End Toy.

(** The five calls do what they say. *)
Example toy_events :
  fst <$> blk_calls Toy.start Toy.calls =
    Some [EWrite 3 ESUCCESS (Toy.sector_of 7); EWrite 4 ESUCCESS (Toy.sector_of 9); ERead 3 ESUCCESS (Toy.sector_of 7);
          ERead 4 ESUCCESS (Toy.sector_of 9); ERead 8 EERROR (Toy.sector_of 9)].
Proof. vm_compute. reflexivity. Qed.

Lemma blk_history_witness :
  ∃ es st', blk_calls Toy.start Toy.calls = Some (es, st') ∧ blk_wf st' ∧
    disk_run (vd_cap Toy.dev) (vd_disk (b_dev Toy.start)) es (vd_disk (b_dev st')).
Proof. apply (blk_history Toy.start Toy.calls); [exact Toy.start_wf|exact Toy.calls_ok]. Defined.
