(* ===== verification/Net.v ===== *)
(** The network code of [src/src/pci/virtio/net/net.c]: the internet checksum,
    the frames the kernel sends (ARP, ICMP echo, UDP, DHCP), the parsers of what
    it receives, and the DHCP exchange.

    A frame is a list of bytes.  Reading or writing outside a buffer is a fault
    ([None]).  The exchange runs over any pair of operations that send and poll
    ([NetIO]). *)
From S2P Require Import Prelude.

(** ** Bytes *)

(** Consecutive byte stores from [o] on. *)
Definition put (l : list Z) (o : Z) (bs : list Z) : option (list Z) :=
  if decide (0 ≤ o ∧ o + Z.of_nat (length bs) ≤ Z.of_nat (length l)) then Some (splice l o bs) else None.

(** [n] bytes read from [o] on. *)
Definition get (l : list Z) (o n : Z) : option (list Z) :=
  if decide (0 ≤ o ∧ 0 ≤ n ∧ o + n ≤ Z.of_nat (length l)) then Some (slice l o n) else None.

(** The two bytes of a 16-bit value in network order. *)
Definition be16 (x : Z) : list Z := [Z.land (Z.shiftr x 8) 0xFF; Z.land x 0xFF].
Definition be32 (x : Z) : list Z :=
  [Z.land (Z.shiftr x 24) 0xFF; Z.land (Z.shiftr x 16) 0xFF; Z.land (Z.shiftr x 8) 0xFF; Z.land x 0xFF].

Definition get16be (l : list Z) (o : Z) : option Z :=
  a ← arr_get l o; b ← arr_get l (o + 1); Some (Z.lor (Z.shiftl a 8) b).
Definition get32be (l : list Z) (o : Z) : option Z :=
  a ← arr_get l o; b ← arr_get l (o + 1); c ← arr_get l (o + 2); d ← arr_get l (o + 3);
  Some (Z.lor (Z.lor (Z.lor (wrap32 (Z.shiftl a 24)) (Z.shiftl b 16)) (Z.shiftl c 8)) d).

(** ** The internet checksum *)

(** The loop over 16-bit words, from [p] with [len] bytes left. *)
Fixpoint csum_words (data : list Z) (p len sum : Z) (fuel : nat) : option Z :=
  match fuel with
  | O => None
  | S f =>
      if decide (2 ≤ len) then
        a ← arr_get data p;
        b ← arr_get data (p + 1);
        csum_words data (p + 2) (len - 2) (add32 sum (Z.lor (Z.shiftl a 8) b)) f
      else if decide (len = 1) then a ← arr_get data p; Some (add32 sum (Z.shiftl a 8))
      else Some sum
  end.

Fixpoint csum_fold (sum : Z) (fuel : nat) : option Z :=
  match fuel with
  | O => None
  | S f => if decide (Z.shiftr sum 16 ≠ 0) then csum_fold (add32 (Z.land sum 0xFFFF) (Z.shiftr sum 16)) f else Some sum
  end.

(** [(uint16_t)~sum]; three rounds of folding are enough for 32 bits. *)
Definition inet_csum (data : list Z) (p len : Z) : option Z :=
  sum ← csum_words data p len 0 (S (Z.to_nat len));
  sum ← csum_fold sum 4;
  Some (Z.lnot sum mod 2 ^ 16).

(** ** The state *)

Record net := mk_net {
  net_mac : list Z;
  have_mac : bool;
  g_my_ip : list Z;
  g_subnet_mask : list Z;
  g_gateway_ip : list Z;
  g_dhcp_server : list Z;
  g_lease_secs : Z;
  g_dhcp_acquired : bool;
  gateway_mac : list Z;
  have_gateway_mac : bool;
}.

(** ** Frames *)

Definition BROADCAST_MAC : list Z := [0xFF; 0xFF; 0xFF; 0xFF; 0xFF; 0xFF].

(** The frame of [net_send_arp_probe]: who has the gateway's address? *)
Definition arp_probe_frame (n : net) : option (list Z) :=
  let f := replicate 60 0 in
  f ← put f 0 BROADCAST_MAC;
  f ← put f 6 (net_mac n);
  f ← put f 12 [0x08; 0x06];
  f ← put f 14 [0x00; 0x01; 0x08; 0x00; 6; 4; 0x00; 0x01];
  f ← put f 22 (net_mac n);
  f ← put f 28 (g_my_ip n);
  put f 38 (g_gateway_ip n).

(** [parse_arp_reply]: the gateway's address, learned from any ARP reply. *)
Definition parse_arp_reply (n : net) (frame : list Z) (len : Z) : option net :=
  if decide (len < 42) then Some n
  else
    ty ← get frame 12 2;
    if decide (ty ≠ [0x08; 0x06]) then Some n
    else
      oper ← get frame 20 2;
      if decide (oper ≠ [0x00; 0x02]) then Some n
      else
        mac ← get frame 22 6;
        Some (mk_net (net_mac n) (have_mac n) (g_my_ip n) (g_subnet_mask n) (g_gateway_ip n) (g_dhcp_server n)
                (g_lease_secs n) (g_dhcp_acquired n) mac true).

(** An IPv4 header without options at [o], with its checksum. *)
Definition put_ipv4 (f : list Z) (o total proto : Z) (src dst : list Z) : option (list Z) :=
  f ← put f o ([0x45; 0] ++ be16 total ++ [0; 0; 0; 0; 64; proto; 0; 0]);
  f ← put f (o + 12) src;
  f ← put f (o + 16) dst;
  c ← inet_csum f o 20;
  put f (o + 10) (be16 c).

Definition ICMP_PING_PAYLOAD : Z := 56.

(** The frame of [net_send_ping]. *)
Definition ping_frame (n : net) (seq : Z) : option (list Z) :=
  let f := replicate 98 0 in
  f ← put f 0 (gateway_mac n);
  f ← put f 6 (net_mac n);
  f ← put f 12 [0x08; 0x00];
  f ← put_ipv4 f 14 (20 + 8 + ICMP_PING_PAYLOAD) 1 (g_my_ip n) (g_gateway_ip n);
  f ← put f 34 ([8; 0; 0; 0; 0; 42] ++ be16 seq);
  f ← put f 42 ((λ i, 97 + i mod 26) <$> seqZ 0 ICMP_PING_PAYLOAD);
  c ← inet_csum f 34 (8 + ICMP_PING_PAYLOAD);
  put f 36 (be16 c).

(** [udp_build] into the buffer [f]: the buffer and the length on the wire. *)
Definition udp_build (n : net) (f dst_mac src_ip dst_ip : list Z) (src_port dst_port : Z) (payload : list Z) (payload_len : Z) :
    option (Z * list Z) :=
  let udp_len := add32 8 payload_len in
  let ip_len := add32 20 udp_len in
  let total := add32 14 ip_len in
  f ← put f 0 dst_mac;
  f ← put f 6 (net_mac n);
  f ← put f 12 [0x08; 0x00];
  f ← put_ipv4 f 14 ip_len 17 src_ip dst_ip;
  f ← put f 34 (be16 src_port ++ be16 dst_port ++ be16 udp_len ++ [0; 0]);
  bs ← get payload 0 payload_len;
  f ← put f 42 bs;
  Some (total, f).

(** ** DHCP *)

Definition DHCP_DISCOVER : Z := 1.
Definition DHCP_OFFER : Z := 2.
Definition DHCP_REQUEST : Z := 3.
Definition DHCP_ACK : Z := 5.
Definition DHCP_MAGIC : list Z := [0x63; 0x82; 0x53; 0x63].
Definition DHCP_OPT_SUBNET : Z := 1.
Definition DHCP_OPT_ROUTER : Z := 3.
Definition DHCP_OPT_REQ_IP : Z := 50.
Definition DHCP_OPT_LEASE : Z := 51.
Definition DHCP_OPT_MSGTYPE : Z := 53.
Definition DHCP_OPT_SERVER_ID : Z := 54.
Definition DHCP_OPT_PARAM_REQ : Z := 55.
Definition DHCP_OPT_END : Z := 255.

(** [dhcp_build] into [b]; a NULL pointer is [None]. *)
Definition dhcp_build (b : list Z) (msg_type : Z) (client_mac : list Z) (xid : Z) (requested_ip server_id : option (list Z)) :
    option (Z * list Z) :=
  b ← put b 0 (replicate 240 0);
  b ← put b 0 ([1; 1; 6; 0] ++ be32 xid);
  b ← put b 28 client_mac;
  b ← put b 236 DHCP_MAGIC;
  let opt := [DHCP_OPT_MSGTYPE; 1; msg_type;
              DHCP_OPT_PARAM_REQ; 4; DHCP_OPT_SUBNET; DHCP_OPT_ROUTER; DHCP_OPT_LEASE; DHCP_OPT_SERVER_ID] in
  let opt := match requested_ip with Some ip => opt ++ [DHCP_OPT_REQ_IP; 4] ++ ip | None => opt end in
  let opt := match server_id with Some s => opt ++ [DHCP_OPT_SERVER_ID; 4] ++ s | None => opt end in
  let opt := opt ++ [DHCP_OPT_END] in
  b ← put b 240 opt;
  Some (240 + Z.of_nat (length opt), b).

(** [dhcp_find_option] in [b] from [base] on, at offset [p]: the option's offset
    in [b] and its length. *)
Fixpoint find_option (b : list Z) (base max_len want p : Z) (fuel : nat) : option (option (Z * Z)) :=
  match fuel with
  | O => None
  | S f =>
      if decide (p < max_len) then
        code ← arr_get b (base + p);
        if decide (code = DHCP_OPT_END) then Some None
        else if decide (code = 0) then find_option b base max_len want (p + 1) f
        else if decide (max_len ≤ p + 1) then Some None
        else
          len ← arr_get b (base + p + 1);
          if decide (max_len < p + 2 + len) then Some None
          else if decide (code = want) then Some (Some (base + p + 2, len))
          else find_option b base max_len want (p + 2 + len) f
      else Some None
  end.

Definition dhcp_find_option (b : list Z) (base max_len want : Z) : option (option (Z * Z)) :=
  find_option b base max_len want 0 (S (Z.to_nat max_len)).

Record lease := mk_lease { yiaddr : list Z; l_server : list Z; l_mask : list Z; l_router : list Z; l_secs : Z }.

(** A four-byte option that replaces [old] when it is there. *)
Definition opt4 (b : list Z) (base max_len want : Z) (good : Z → bool) (old : list Z) : option (list Z) :=
  r ← dhcp_find_option b base max_len want;
  match r with
  | Some (p, len) => if good len then get b p 4 else Some old
  | None => Some old
  end.

(** [dhcp_parse] behind the checks of the header. *)
Definition parse_options (frame : list Z) (opts_len expect_msg : Z) (out : lease) : option (bool * lease) :=
  mt ← dhcp_find_option frame 282 opts_len DHCP_OPT_MSGTYPE;
  match mt with
  | None => Some (false, out)
  | Some (p, l) =>
      if decide (l ≠ 1) then Some (false, out)
      else
        t ← arr_get frame p;
        if decide (t ≠ expect_msg) then Some (false, out)
        else
          y ← get frame 58 4;
          sid ← opt4 frame 282 opts_len DHCP_OPT_SERVER_ID (λ l, bool_decide (l = 4)) (l_server out);
          sm ← opt4 frame 282 opts_len DHCP_OPT_SUBNET (λ l, bool_decide (l = 4)) (l_mask out);
          rt ← opt4 frame 282 opts_len DHCP_OPT_ROUTER (λ l, bool_decide (4 ≤ l)) (l_router out);
          ls ← dhcp_find_option frame 282 opts_len DHCP_OPT_LEASE;
          secs ← match ls with
                 | Some (q, l) => if decide (l = 4) then get32be frame q else Some 0
                 | None => Some 0
                 end;
          Some (true, mk_lease y sid sm rt secs)
  end.

(** [dhcp_parse]: the result and the five out-parameters. *)
Definition dhcp_parse (frame : list Z) (flen expect_xid expect_msg : Z) (out : lease) : option (bool * lease) :=
  let no := Some (false, out) in
  if decide (flen < 14 + 20 + 8 + 240) then no
  else
    ty ← get frame 12 2;
    if decide (ty ≠ [0x08; 0x00]) then no
    else
      ip0 ← arr_get frame 14;
      if decide (Z.land ip0 0xF0 ≠ 0x40) then no
      else
        proto ← arr_get frame 23;
        if decide (proto ≠ 17) then no
        else if decide (Z.land ip0 0x0F * 4 ≠ 20) then no
        else
          src_port ← get16be frame 34;
          dst_port ← get16be frame 36;
          udp_len ← get16be frame 38;
          if decide (src_port ≠ 67 ∨ dst_port ≠ 68) then no
          else if decide (udp_len < 8 + 240) then no
          else
            op ← arr_get frame 42;
            if decide (op ≠ 2) then no
            else
              xid ← get32be frame 46;
              if decide (xid ≠ expect_xid) then no
              else
                magic ← get frame 278 4;
                if decide (magic ≠ DHCP_MAGIC) then no
                else
                  parse_options frame (udp_len - 8 - 240) expect_msg out.

(** Sending a frame and draining one received frame, of at most [max] bytes. *)
Class NetIO (N : Type) := {
  nio_tx : N → list Z → Z * N;
  nio_poll : N → Z → Z * list Z * N;
  nio_poll_length io max n bs io' : nio_poll io max = (n, bs, io') → 0 < n → Z.of_nat (length bs) = n ∧ n ≤ max;
}.

Section Dhcp.
Context {N : Type} `{!NetIO N}.

Definition net_send_arp_probe (n : net) (io : N) : option (Z * N) :=
  if negb (have_mac n) then Some (-1, io)
  else f ← arp_probe_frame n; Some (nio_tx io f).

Definition net_send_ping (n : net) (io : N) (seq : Z) : option (Z * N) :=
  if negb (have_gateway_mac n) then Some (-1, io)
  else f ← ping_frame n seq; Some (nio_tx io f).

Definition DHCP_SPINS : positive := 5000000.
Definition DHCP_XID : Z := 0xFE221001.
Definition ANY_IP : list Z := [0; 0; 0; 0].
Definition BROADCAST_IP : list Z := [255; 255; 255; 255].
Definition no_lease : lease := mk_lease [0; 0; 0; 0] [0; 0; 0; 0] [255; 255; 255; 0] [0; 0; 0; 0] 0.

(** One turn of a waiting loop: [inl None] is a fault, [inl (Some _)] the reply. *)
Definition dhcp_look (expect_msg : Z) (s : N * list Z) : option (lease * (N * list Z)) + (N * list Z) :=
  let '(io, rx) := s in
  let '(n, bs, io') := nio_poll io 600 in
  if decide (0 < n) then
    match put rx 0 bs with
    | None => inl None
    | Some rx' =>
        match dhcp_parse rx' n DHCP_XID expect_msg no_lease with
        | None => inl None
        | Some (true, l) => inl (Some (l, (io', rx')))
        | Some (false, _) => inr (io', rx')
        end
    end
  else inr (io', rx).

(** Build and send one message: [dhcp_frame] as [f], [bootp_buf] as [b]. *)
Definition dhcp_send (n : net) (io : N) (b f : list Z) (msg : Z) (ip server : option (list Z)) : option (Z * list Z * list Z * N) :=
  '(blen, b) ← dhcp_build b msg (net_mac n) DHCP_XID ip server;
  '(flen, f) ← udp_build n f BROADCAST_MAC ANY_IP BROADCAST_IP 68 67 b blen;
  w ← get f 0 flen;
  let '(r, io) := nio_tx io w in
  Some (r, b, f, io).

Definition commit (n : net) (l : lease) : net :=
  mk_net (net_mac n) (have_mac n) (yiaddr l) (l_mask l) (l_router l) (l_server l) (l_secs l) true (gateway_mac n) (have_gateway_mac n).

(** [rx] is the receive buffer on the stack, with whatever it holds. *)
Definition dhcp_acquire (n : net) (io : N) (b f rx : list Z) : option (Z * net * N) :=
  if negb (have_mac n) then Some (-1, n, io)
  else
    '(r, b, f, io) ← dhcp_send n io b f DHCP_DISCOVER None None;
    if decide (r ≤ 0) then Some (-1, n, io)
    else
      match until DHCP_SPINS (dhcp_look DHCP_OFFER) (io, rx) with
      | inr (io, _) => Some (-1, n, io)
      | inl None => None
      | inl (Some (offer, (io, rx))) =>
          '(r, b, f, io) ← dhcp_send n io b f DHCP_REQUEST (Some (yiaddr offer)) (Some (l_server offer));
          if decide (r ≤ 0) then Some (-1, n, io)
          else
            match until DHCP_SPINS (dhcp_look DHCP_ACK) (io, rx) with
            | inr (io, _) => Some (-1, n, io)
            | inl None => None
            | inl (Some (ack, (io, _))) => Some (0, commit n ack, io)
            end
      end.
End Dhcp.

(** ** Checksum *)

(** The sum of the 16-bit words in network order, an odd byte padded. *)
Fixpoint be_sum (bs : list Z) : Z :=
  match bs with
  | a :: b :: bs' => 256 * a + b + be_sum bs'
  | [a] => 256 * a
  | [] => 0
  end.

(** Its ones'-complement reduction to 16 bits. *)
Definition ones_sum (s : Z) : Z := if decide (s = 0) then 0 else (s - 1) mod 65535 + 1.

Lemma pair_ind (P : list Z → Prop) : P [] → (∀ a, P [a]) → (∀ a b l, P l → P (a :: b :: l)) → ∀ l, P l.
Proof. intros H0 H1 H2. fix IH 1. intros [|a [|b l]]; [done|done|]. apply H2, IH. Qed.

Lemma be_sum_range bs : Forall is_byte bs → 0 ≤ be_sum bs ≤ 65535 * (Z.of_nat (length bs) + 1).
Proof.
  induction bs as [|a|a b l IH] using pair_ind; intros H; cbn [be_sum length]; [lia|..].
  - apply Forall_cons in H as [Ha _]. unfold is_byte in Ha. lia.
  - apply Forall_cons in H as [Ha [Hb Hl]%Forall_cons]. unfold is_byte in *. specialize (IH Hl). lia.
Qed.

Lemma be_sum_app l1 l2 : Nat.Even (length l1) → be_sum (l1 ++ l2) = be_sum l1 + be_sum l2.
Proof.
  induction l1 as [|a|a b l1 IH] using pair_ind; intros Hev; cbn [app be_sum]; [done| |].
  - apply Nat.even_spec in Hev. done.
  - apply Nat.even_spec in Hev. cbn in Hev. rewrite IH by (by apply Nat.even_spec). lia.
Qed.

Lemma word_be a b : is_byte a → is_byte b → Z.lor (Z.shiftl a 8) b = 256 * a + b.
Proof.
  unfold is_byte. intros Ha Hb. rewrite Z.shiftl_mul_pow2 by lia. rewrite (lor_disjoint 8) by (lia || apply Z.mod_mul; lia). lia.
Qed.

Lemma slice_cons l p n a : 0 ≤ p → 0 < n → arr_get l p = Some a → slice l p n = a :: slice l (p + 1) (n - 1).
Proof.
  intros Hp Hn Ha. unfold arr_get in Ha. rewrite decide_True in Ha by lia. unfold slice.
  rewrite (drop_S _ _ _ Ha). replace (Z.to_nat n) with (S (Z.to_nat (n - 1))) by lia. cbn [take].
  by replace (Z.to_nat (p + 1)) with (S (Z.to_nat p)) by lia.
Qed.

Lemma arr_get_byte l p : Forall is_byte l → 0 ≤ p < Z.of_nat (length l) → ∃ a, arr_get l p = Some a ∧ is_byte a.
Proof.
  intros H Hp. exists (l !!! Z.to_nat p). split; [by apply arr_get_lt|]. rewrite Forall_lookup in H.
  apply (H (Z.to_nat p)). apply list_lookup_lookup_total_lt. lia.
Qed.

Lemma csum_words_spec data fuel : Forall is_byte data → ∀ p len sum,
  0 ≤ p → 0 ≤ len < Z.of_nat fuel → p + len ≤ Z.of_nat (length data) → 0 ≤ sum → sum + 65535 * (len + 1) < 2 ^ 32 →
  csum_words data p len sum fuel = Some (sum + be_sum (slice data p len)).
Proof.
  intros Hb. induction fuel as [|f IH]; intros p len sum Hp Hlen Hin Hs Hov; [lia|]. cbn [csum_words]. case_decide as H2.
  - destruct (arr_get_byte data p Hb) as (a & Ea & Ha); [lia|]. destruct (arr_get_byte data (p + 1) Hb) as (b & Eb & Hb'); [lia|].
    rewrite Ea, Eb. cbn [mbind option_bind]. rewrite word_be by done. unfold is_byte in *. unfold add32.
    rewrite wrap32_small by lia. rewrite IH by lia. rewrite (slice_cons data p len a), (slice_cons data (p + 1) (len - 1) b) by (done || lia).
    cbn [be_sum]. f_equal. replace (p + 1 + 1) with (p + 2) by lia. replace (len - 1 - 1) with (len - 2) by lia. lia.
  - case_decide as H1.
    + subst len. destruct (arr_get_byte data p Hb) as (a & Ea & Ha); [lia|]. rewrite Ea. cbn [mbind option_bind].
      rewrite (slice_cons data p 1 a) by (done || lia). change (slice data (p + 1) (1 - 1)) with (@nil Z). cbn [be_sum].
      unfold is_byte in Ha. unfold add32. rewrite Z.shiftl_mul_pow2 by lia. rewrite wrap32_small by lia. f_equal. lia.
    + assert (len = 0) as -> by lia. change (slice data p 0) with (@nil Z). cbn [be_sum]. by rewrite Z.add_0_r.
Qed.

Lemma ones_sum_small s : 0 ≤ s < 65536 → ones_sum s = s.
Proof. intros Hs. unfold ones_sum. case_decide; [done|]. rewrite Z.mod_small; lia. Qed.

Lemma ones_sum_range s : 0 ≤ s → 0 ≤ ones_sum s < 65536.
Proof. intros Hs. unfold ones_sum. case_decide; [lia|]. pose proof (Z.mod_pos_bound (s - 1) 65535). lia. Qed.

Lemma ones_sum_step s : 0 ≤ s → ones_sum (s mod 65536 + s / 65536) = ones_sum s.
Proof.
  intros Hs. pose proof (Z.div_mod s 65536). pose proof (Z.mod_pos_bound s 65536). pose proof (Z.div_pos s 65536).
  unfold ones_sum. destruct (decide (s = 0)) as [->|Hne]; [done|]. rewrite decide_False by lia. f_equal.
  replace (s - 1) with ((s mod 65536 + s / 65536 - 1) + s / 65536 * 65535) by lia. by rewrite Z.mod_add.
Qed.

Lemma csum_fold_step s fuel : 0 ≤ s < 2 ^ 32 →
  csum_fold s (S fuel) = if decide (s < 65536) then Some s else csum_fold (s mod 65536 + s / 65536) fuel.
Proof.
  intros Hs. cbn [csum_fold]. rewrite Z.shiftr_div_pow2 by lia. change (2 ^ 16) with 65536. change 0xFFFF with (Z.ones 16).
  rewrite Z.land_ones by lia. change (2 ^ 16) with 65536. destruct (decide (s < 65536)) as [Hlt|Hge].
  - rewrite Z.div_small by lia. by rewrite decide_False by lia.
  - assert (1 ≤ s / 65536 < 65536) by (split; [apply Z.div_le_lower_bound|apply Z.div_lt_upper_bound]; lia).
    rewrite decide_True by lia. unfold add32. pose proof (Z.mod_pos_bound s 65536). by rewrite wrap32_small by lia.
Qed.

Lemma csum_fold_spec s : 0 ≤ s < 2 ^ 32 → csum_fold s 4 = Some (ones_sum s).
Proof.
  assert (∀ f, ∀ s, 0 ≤ s < 65536 → csum_fold s (S f) = Some (ones_sum s)) as H0.
  { intros f t Ht. rewrite csum_fold_step, decide_True, ones_sum_small by lia. done. }
  assert (∀ f, ∀ s, 0 ≤ s < 131071 → csum_fold s (S (S f)) = Some (ones_sum s)) as H1.
  { intros f t Ht. rewrite csum_fold_step by lia. case_decide; [by rewrite ones_sum_small by lia|]. rewrite H0; [by rewrite ones_sum_step by lia|].
    pose proof (Z.mod_pos_bound t 65536). pose proof (Z.div_mod t 65536). pose proof (Z.div_lt_upper_bound t 65536 2). dlia. }
  intros Hs. rewrite csum_fold_step by lia. case_decide; [by rewrite ones_sum_small by lia|]. rewrite H1; [by rewrite ones_sum_step by lia|].
  pose proof (Z.mod_pos_bound s 65536). pose proof (Z.div_lt_upper_bound s 65536 65536). pose proof (Z.div_pos s 65536). lia.
Qed.

Lemma inet_csum_spec data p len :
  Forall is_byte data → 0 ≤ p → 0 ≤ len ≤ 65535 → p + len ≤ Z.of_nat (length data) →
  inet_csum data p len = Some (65535 - ones_sum (be_sum (slice data p len))).
Proof.
  intros Hb Hp Hlen Hin. unfold inet_csum. rewrite csum_words_spec by (done || lia). cbn [mbind option_bind]. rewrite Z.add_0_l.
  assert (length (slice data p len) = Z.to_nat len) as Hsl by (unfold slice; rewrite length_take, length_drop; lia).
  destruct (be_sum_range (slice data p len)) as [H1 H2]; [by apply Forall_take, Forall_drop|].
  rewrite csum_fold_spec by lia. cbn [mbind option_bind]. f_equal. pose proof (ones_sum_range (be_sum (slice data p len)) H1).
  unfold Z.lnot. rewrite <- (Z.mod_add _ 1) by lia. rewrite Z.mod_small; lia.
Qed.

(** ** Pieces of buffers *)

Lemma split_slice l p n : 0 ≤ p → 0 ≤ n → p + n ≤ Z.of_nat (length l) →
  l = take (Z.to_nat p) l ++ slice l p n ++ drop (Z.to_nat (p + n)) l.
Proof.
  intros Hp Hn Hl. unfold slice. rewrite <- (take_drop (Z.to_nat p) l) at 1. f_equal.
  rewrite <- (take_drop (Z.to_nat n) (drop (Z.to_nat p) l)) at 1. f_equal. rewrite drop_drop. f_equal. lia.
Qed.

Lemma part_length l p n : 0 ≤ p → 0 ≤ n → p + n ≤ Z.of_nat (length l) → length (slice l p n) = Z.to_nat n.
Proof. intros Hp Hn Hl. unfold slice. rewrite length_take, length_drop. lia. Qed.

Lemma slice_splice l p n k bs :
  0 ≤ p → 0 ≤ k → k + Z.of_nat (length bs) ≤ n → p + n ≤ Z.of_nat (length l) →
  slice (splice l (p + k) bs) p n = splice (slice l p n) k bs.
Proof.
  intros Hp Hk Hn Hl. pose proof (part_length l p n ltac:(lia) ltac:(lia) Hl) as HX. rewrite (split_slice l p n) at 1 by lia.
  set (A := take (Z.to_nat p) l). set (X := slice l p n) in *. assert (Z.of_nat (length A) = p) as HA by (unfold A; rewrite length_take; lia).
  replace (p + k) with (Z.of_nat (length A) + k) by lia. rewrite splice_app by lia.
  pose proof (slice_mid A (splice X k bs) (drop (Z.to_nat (p + n)) l)) as E. rewrite splice_length, HX, Z2Nat.id, HA in E by lia. exact E.
Qed.

Lemma be16_sum c : 0 ≤ c < 65536 → Forall is_byte (be16 c) ∧ be_sum (be16 c) = c.
Proof.
  intros Hc. unfold be16. change 0xFF with (Z.ones 8). rewrite !Z.land_ones, Z.shiftr_div_pow2 by lia. change (2 ^ 8) with 256.
  assert (0 ≤ c / 256 < 256) as Hq by (split; [apply Z.div_pos; lia|apply Z.div_lt_upper_bound; lia]).
  rewrite (Z.mod_small (c / 256)) by lia. pose proof (Z.mod_pos_bound c 256). split.
  - repeat constructor; unfold is_byte; lia.
  - cbn [be_sum]. pose proof (Z.div_mod c 256). lia.
Qed.

Lemma ones_sum_verify s : 0 ≤ s → ones_sum (s + (65535 - ones_sum s)) = 65535.
Proof.
  intros Hs. unfold ones_sum at 2. case_decide as H0; [by subst s|]. pose proof (Z.mod_pos_bound (s - 1) 65535).
  pose proof (Z.div_mod (s - 1) 65535). unfold ones_sum. rewrite decide_False by lia.
  replace (s + (65535 - ((s - 1) mod 65535 + 1)) - 1) with (65534 + (s - 1) / 65535 * 65535) by lia. by rewrite Z.mod_add.
Qed.

(** A checksum stored in its zeroed field makes the whole sum to zero. *)
Lemma csum_stored data p len k c :
  Forall is_byte data → 0 ≤ p → 0 ≤ len ≤ 65535 → p + len ≤ Z.of_nat (length data) →
  0 ≤ k → k + 2 ≤ len → Z.Even k → slice data (p + k) 2 = [0; 0] → inet_csum data p len = Some c →
  0 ≤ c < 65536 ∧ Forall is_byte (splice data (p + k) (be16 c)) ∧ inet_csum (splice data (p + k) (be16 c)) p len = Some 0.
Proof.
  intros Hb Hp Hlen Hin Hk Hk2 Hev Hz Hc. rewrite inet_csum_spec in Hc by done. injection Hc as <-.
  pose proof (part_length data p len Hp ltac:(lia) Hin) as Hxl. set (x := slice data p len) in *.
  assert (Forall is_byte x) as Hxb by (by apply Forall_take, Forall_drop). destruct (be_sum_range x Hxb) as [Hs0 _].
  pose proof (ones_sum_range _ Hs0) as Hr. set (c := 65535 - ones_sum (be_sum x)). destruct (be16_sum c ltac:(lia)) as [Hcb Hcs].
  assert (Forall is_byte (splice data (p + k) (be16 c))) as Hb'.
  { unfold splice. apply Forall_app; split; [by apply Forall_take|]. apply Forall_app; split; [done|by apply Forall_drop]. }
  split; [lia|]. split; [done|].
  assert (x = take (Z.to_nat k) x ++ [0; 0] ++ drop (Z.to_nat k + 2) x) as Hx.
  { rewrite (split_slice x k 2) at 1 by lia. replace (Z.to_nat (k + 2)) with (Z.to_nat k + 2)%nat by lia. do 2 f_equal. rewrite <- Hz.
    unfold x, slice. rewrite skipn_firstn_comm, drop_drop, take_take. f_equal; [lia|]. f_equal. lia. }
  assert (Nat.Even (length (take (Z.to_nat k) x))) as Hek.
  { rewrite length_take, Nat.min_l by lia. destruct Hev as [q ->]. exists (Z.to_nat q). lia. }
  rewrite inet_csum_spec; [|done|done|done|rewrite splice_length; [done|lia|cbn [be16 length]; lia]].
  f_equal. rewrite slice_splice by (cbn [be16 length]; lia). fold x. unfold splice. rewrite be_sum_app by done. rewrite be_sum_app by (by exists 1%nat).
  rewrite Hcs. assert (be_sum x = be_sum (take (Z.to_nat k) x) + be_sum (drop (Z.to_nat k + 2) x)) as Hsum.
  { rewrite Hx at 1. rewrite be_sum_app by done. cbn [app be_sum]. lia. }
  cbn [be16 length]. replace (be_sum _ + (c + _)) with (be_sum x + c) by lia. unfold c. rewrite ones_sum_verify by done. lia.
Qed.

(** ** Frames *)

Lemma put_ok l o bs : 0 ≤ o → o + Z.of_nat (length bs) ≤ Z.of_nat (length l) → put l o bs = Some (splice l o bs).
Proof. intros Ho Hl. unfold put. by rewrite decide_True. Qed.

Lemma get_ok l o n : 0 ≤ o → 0 ≤ n → o + n ≤ Z.of_nat (length l) → get l o n = Some (slice l o n).
Proof. intros Ho Hn Hl. unfold get. by rewrite decide_True. Qed.

Lemma splice_inner l o a k b :
  0 ≤ o → 0 ≤ k → (Z.to_nat k + length b ≤ length a)%nat → (Z.to_nat o + length a ≤ length l)%nat →
  splice (splice l o a) (o + k) b = splice l o (splice a k b).
Proof.
  intros Ho Hk Hb Ha. unfold splice at 2. set (A := take (Z.to_nat o) l).
  assert (Z.of_nat (length A) = o) as HA by (unfold A; rewrite length_take; lia). rewrite <- HA at 2. rewrite splice_app by lia.
  unfold splice at 2. rewrite splice_length by lia. done.
Qed.

Lemma splice_bytes l o bs : Forall is_byte l → Forall is_byte bs → Forall is_byte (splice l o bs).
Proof.
  intros Hl Hb. unfold splice. apply Forall_app; split; [by apply Forall_take|]. apply Forall_app; split; [done|by apply Forall_drop].
Qed.

Lemma slice_spliced l o bs : 0 ≤ o → (Z.to_nat o + length bs ≤ length l)%nat → slice (splice l o bs) o (Z.of_nat (length bs)) = bs.
Proof.
  intros Ho Hl. unfold splice. pose proof (slice_mid (take (Z.to_nat o) l) bs (drop (Z.to_nat o + length bs) l)) as E.
  rewrite length_take, Nat.min_l, Z2Nat.id in E by lia. exact E.
Qed.

(** A 20-byte IPv4 header with checksum [c]. *)
Definition ipv4_header (total proto : Z) (src dst : list Z) (c : Z) : list Z :=
  [0x45; 0] ++ be16 total ++ [0; 0; 0; 0; 64; proto] ++ be16 c ++ src ++ dst.

Definition is_ip (l : list Z) : Prop := length l = 4%nat ∧ Forall is_byte l.
Definition is_mac (l : list Z) : Prop := length l = 6%nat ∧ Forall is_byte l.

Ltac bytes := repeat first [done | apply be16_sum; lia | apply Forall_app; split | apply Forall_cons; split | apply Forall_nil_2].

Lemma put_ipv4_spec f o total proto src dst :
  Forall is_byte f → 0 ≤ o → o + 20 ≤ Z.of_nat (length f) → 0 ≤ total < 65536 → is_byte proto → is_ip src → is_ip dst →
  ∃ c, 0 ≤ c < 65536 ∧ put_ipv4 f o total proto src dst = Some (splice f o (ipv4_header total proto src dst c)) ∧
    inet_csum (ipv4_header total proto src dst c) 0 20 = Some 0.
Proof.
  intros Hf Ho Hl Ht Hp [Hsl Hsb] [Hdl Hdb]. unfold put_ipv4. set (h := [0x45; 0] ++ be16 total ++ [0; 0; 0; 0; 64; proto; 0; 0]).
  assert (length h = 12%nat) as Hh by done. assert (Forall is_byte h) as Hhb by (unfold h; bytes; unfold is_byte; lia).
  rewrite put_ok by lia. cbn [mbind option_bind]. rewrite put_ok by (rewrite ?splice_length; lia). cbn [mbind option_bind].
  replace (o + 12) with (o + Z.of_nat (length h)) by lia. rewrite splice_splice by lia.
  rewrite put_ok by (rewrite ?splice_length; rewrite ?length_app; lia). cbn [mbind option_bind].
  replace (o + 16) with (o + Z.of_nat (length (h ++ src))) by (rewrite length_app; lia). rewrite splice_splice by (rewrite ?length_app; lia).
  set (H := (h ++ src) ++ dst). assert (length H = 20%nat) as HH by (unfold H; rewrite !length_app; lia).
  assert (Forall is_byte H) as HHb by (unfold H; bytes). assert (Forall is_byte (splice f o H)) as Hfb by by apply splice_bytes.
  rewrite inet_csum_spec by (done || rewrite ?splice_length; lia).
  pose proof (slice_spliced f o H Ho ltac:(lia)) as Es. rewrite HH in Es. change (Z.of_nat 20) with 20 in Es. rewrite Es. cbn [mbind option_bind]. set (c := 65535 - _).
  assert (inet_csum H 0 20 = Some c) as Hc.
  { rewrite inet_csum_spec by (done || lia). unfold c. do 4 f_equal. unfold slice. apply take_ge. rewrite HH. done. }
  destruct (csum_stored H 0 20 10 c) as (Hcr & _ & Hv); [done|lia|lia|lia|lia|lia|by exists 5|done|done|].
  exists c. split; [done|]. assert (splice H 10 (be16 c) = ipv4_header total proto src dst c) as E by done. rewrite <- E. split; [|done].
  rewrite put_ok by (rewrite ?splice_length; cbn [length be16]; lia). by rewrite splice_inner by (cbn [length be16]; lia).
Qed.

(** Storing right after what has been stored from the start. *)
Lemma put_next f a o bs :
  o = Z.of_nat (length a) → (length a + length bs ≤ length f)%nat → put (splice f 0 a) o bs = Some (splice f 0 (a ++ bs)).
Proof. intros -> Hl. rewrite put_ok by (rewrite ?splice_length; lia). f_equal. apply (splice_splice f 0 a bs); lia. Qed.

Lemma put_ipv4_next f a o total proto src dst :
  Forall is_byte f → Forall is_byte a → o = Z.of_nat (length a) → (length a + 20 ≤ length f)%nat → 0 ≤ total < 65536 → is_byte proto →
  is_ip src → is_ip dst →
  ∃ c, 0 ≤ c < 65536 ∧ put_ipv4 (splice f 0 a) o total proto src dst = Some (splice f 0 (a ++ ipv4_header total proto src dst c)) ∧
    inet_csum (ipv4_header total proto src dst c) 0 20 = Some 0.
Proof.
  intros Hf Ha -> Hl Ht Hp Hs Hd.
  destruct (put_ipv4_spec (splice f 0 a) (Z.of_nat (length a)) total proto src dst) as (c & Hc & E & Hv);
    [by apply splice_bytes|lia|rewrite splice_length; lia|done|done|done|done|].
  exists c. split; [done|]. split; [|done]. rewrite E. f_equal. apply (splice_splice f 0 a); [lia|].
  destruct Hs as [Hs _], Hd as [Hd _]. unfold ipv4_header. rewrite !length_app. cbn [length be16]. lia.
Qed.

Lemma ipv4_header_length total proto src dst c : is_ip src → is_ip dst → length (ipv4_header total proto src dst c) = 20%nat.
Proof. intros [Hs _] [Hd _]. unfold ipv4_header. rewrite !length_app, Hs, Hd. done. Qed.

Lemma put_first f bs : (length bs ≤ length f)%nat → put f 0 bs = Some (splice f 0 bs).
Proof. intros H. apply put_ok; lia. Qed.

Definition eth_header (dst src : list Z) (ty : list Z) : list Z := dst ++ src ++ ty.

(** An ICMP echo request with checksum [c]. *)
Definition echo_request (seq c : Z) : list Z :=
  [8; 0] ++ be16 c ++ [0; 42] ++ be16 seq ++ ((λ i, 97 + i mod 26) <$> seqZ 0 ICMP_PING_PAYLOAD).

(** What the network code needs of its configuration. *)
Record net_wf (n : net) : Prop := {
  nw_mac : is_mac (net_mac n);
  nw_ip : is_ip (g_my_ip n);
  nw_gw : is_ip (g_gateway_ip n);
  nw_gwmac : is_mac (gateway_mac n);
}.

Lemma csum_slice data data' p p' len :
  Forall is_byte data → Forall is_byte data' → 0 ≤ p → 0 ≤ p' → 0 ≤ len ≤ 65535 →
  p + len ≤ Z.of_nat (length data) → p' + len ≤ Z.of_nat (length data') → slice data p len = slice data' p' len →
  inet_csum data p len = inet_csum data' p' len.
Proof. intros. rewrite !inet_csum_spec by done. congruence. Qed.

Lemma echo_request_csum seq : 0 ≤ seq < 65536 →
  Forall is_byte (echo_request seq 0) ∧
  ∃ c, inet_csum (echo_request seq 0) 0 64 = Some c ∧ 0 ≤ c < 65536 ∧ inet_csum (echo_request seq c) 0 64 = Some 0.
Proof.
  intros Hseq. assert (Forall is_byte (echo_request seq 0)) as Hb by (unfold echo_request; bytes). split; [done|].
  destruct (inet_csum (echo_request seq 0) 0 64) as [c|] eqn:Ec; [|by rewrite inet_csum_spec in Ec by (done || lia)].
  destruct (csum_stored (echo_request seq 0) 0 64 2 c) as (Hc & _ & Hv); [done|lia|lia|done|lia|lia|by exists 1|done|done|].
  exists c. split; [done|]. split; [done|exact Hv].
Qed.

Lemma ping_frame_spec n seq : net_wf n → 0 ≤ seq < 65536 →
  ∃ c c', ping_frame n seq =
      Some (eth_header (gateway_mac n) (net_mac n) [0x08; 0x00] ++ ipv4_header 84 1 (g_my_ip n) (g_gateway_ip n) c ++ echo_request seq c') ∧
    0 ≤ c < 65536 ∧ 0 ≤ c' < 65536 ∧
    inet_csum (ipv4_header 84 1 (g_my_ip n) (g_gateway_ip n) c) 0 20 = Some 0 ∧ inet_csum (echo_request seq c') 0 64 = Some 0.
Proof.
  intros [[Hml Hmb] Hip Hgw [Hgl Hgb]] Hseq. unfold ping_frame. set (f := replicate 98 0). assert (length f = 98%nat) as Hf by done.
  assert (Forall is_byte f) as Hfb by (apply Forall_replicate; unfold is_byte; lia).
  rewrite put_first by lia. cbn [mbind option_bind]. rewrite put_next by lia. cbn [mbind option_bind].
  rewrite put_next by (rewrite ?length_app; cbn [length]; lia). cbn [mbind option_bind]. rewrite <- app_assoc.
  set (eth := gateway_mac n ++ net_mac n ++ [8; 0]). assert (length eth = 14%nat) as Heth by (unfold eth; rewrite !length_app, Hml, Hgl; done).
  assert (Forall is_byte eth) as Hethb by (unfold eth; bytes; unfold is_byte; lia).
  destruct (put_ipv4_next f eth 14 (20 + 8 + ICMP_PING_PAYLOAD) 1 (g_my_ip n) (g_gateway_ip n)) as (c & Hc & E & Hv);
    [done|done|lia|lia|done|done|done|done|]. rewrite E. cbn [mbind option_bind].
  change (20 + 8 + ICMP_PING_PAYLOAD) with 84 in *. set (ip := ipv4_header 84 1 (g_my_ip n) (g_gateway_ip n) c) in *.
  assert (length ip = 20%nat) as Hipl by by apply ipv4_header_length.
  assert (Forall is_byte ip) as Hipb.
  { unfold ip, ipv4_header. destruct Hip, Hgw. bytes; unfold is_byte; lia. }
  rewrite put_next by (rewrite ?length_app; cbn [length be16]; lia). cbn [mbind option_bind].
  rewrite put_next by (rewrite ?length_app, ?Heth, ?Hipl; done || (cbn; lia)). cbn [mbind option_bind].
  assert (([8; 0; 0; 0; 0; 42] ++ be16 seq) ++ ((λ i, 97 + i mod 26) <$> seqZ 0 ICMP_PING_PAYLOAD) = echo_request seq 0) as Eq0 by done.
  rewrite <- (app_assoc (eth ++ ip)). rewrite Eq0. destruct (echo_request_csum seq Hseq) as (Hicb & c' & Ec & Hc' & Hv').
  set (ic := echo_request seq 0) in *. assert (length ic = 64%nat) as Hic by done.
  rewrite splice_full by (rewrite !length_app, Heth, Hipl, Hic, Hf; done). change (8 + ICMP_PING_PAYLOAD) with 64.
  set (F := (eth ++ ip) ++ ic). assert (length F = 98%nat) as HF by (unfold F; rewrite !length_app, Heth, Hipl, Hic; done).
  assert (Forall is_byte F) as HFb by (unfold F; bytes).
  assert (inet_csum F 34 64 = Some c') as EF.
  { rewrite <- Ec. apply csum_slice; try done; try lia. pose proof (slice_mid (eth ++ ip) ic []) as H1. pose proof (slice_mid [] ic []) as H2.
    rewrite !app_nil_r, ?app_nil_l in *. rewrite length_app, Heth, Hipl, Hic in H1. rewrite Hic in H2. cbn [length] in H2. exact (eq_trans H1 (eq_sym H2)). }
  rewrite EF. cbn [mbind option_bind]. assert (splice ic 2 (be16 c') = echo_request seq c') as E' by done.
  exists c, c'. split; [|done]. rewrite put_ok by (cbn [length be16]; lia). f_equal. unfold F.
  pose proof (splice_app (eth ++ ip) ic [] (be16 c') 2 ltac:(lia) ltac:(cbn [length be16]; lia)) as Es.
  rewrite !app_nil_r, length_app, Heth, Hipl in Es. change (Z.of_nat (14 + 20) + 2) with 36 in Es. rewrite Es, E'.
  unfold eth_header. by rewrite <- app_assoc.
Qed.

Lemma udp_build_spec n f dst_mac src dst sp dp payload len :
  Forall is_byte f → net_wf n → is_mac dst_mac → is_ip src → is_ip dst → 0 ≤ len ≤ 65507 → len ≤ Z.of_nat (length payload) →
  42 + len ≤ Z.of_nat (length f) →
  ∃ c, udp_build n f dst_mac src dst sp dp payload len = Some (42 + len,
      splice f 0 (eth_header dst_mac (net_mac n) [0x08; 0x00] ++ ipv4_header (28 + len) 17 src dst c ++
        (be16 sp ++ be16 dp ++ be16 (8 + len) ++ [0; 0]) ++ take (Z.to_nat len) payload)) ∧
    0 ≤ c < 65536 ∧ inet_csum (ipv4_header (28 + len) 17 src dst c) 0 20 = Some 0.
Proof.
  intros Hfb [[Hml Hmb] _ _ _] [Hdl Hdb] Hsrc Hdst Hlen Hpl Hfl. unfold udp_build.
  assert (add32 8 len = 8 + len) as -> by (apply wrap32_small; lia). assert (add32 20 (8 + len) = 20 + (8 + len)) as -> by (apply wrap32_small; lia).
  assert (add32 14 (20 + (8 + len)) = 14 + (20 + (8 + len))) as -> by (apply wrap32_small; lia).
  rewrite put_first by lia. cbn [mbind option_bind]. rewrite put_next by lia. cbn [mbind option_bind].
  rewrite put_next by (rewrite ?length_app; cbn [length]; lia). cbn [mbind option_bind]. rewrite <- app_assoc.
  set (eth := dst_mac ++ net_mac n ++ [8; 0]). assert (length eth = 14%nat) as Heth by (unfold eth; rewrite !length_app, Hml, Hdl; done).
  assert (Forall is_byte eth) as Hethb by (unfold eth; bytes; unfold is_byte; lia).
  destruct (put_ipv4_next f eth 14 (20 + (8 + len)) 17 src dst) as (c & Hc & E & Hv); [done|done|lia|lia|lia|done|done|done|].
  replace (20 + (8 + len)) with (28 + len) in * by lia. rewrite E. cbn [mbind option_bind].
  pose proof (ipv4_header_length (28 + len) 17 src dst c Hsrc Hdst) as Hipl.
  rewrite put_next by (rewrite ?length_app; cbn [length be16]; lia). cbn [mbind option_bind]. rewrite get_ok by lia. cbn [mbind option_bind].
  change (slice payload 0 len) with (take (Z.to_nat len) payload). set (udp := be16 sp ++ be16 dp ++ be16 (8 + len) ++ [0; 0]).
  assert (length udp = 8%nat) as Hu by done.
  rewrite put_next by (rewrite ?length_app, ?length_take; lia). cbn [mbind option_bind]. exists c. split; [|done].
  do 2 f_equal; [lia|]. unfold eth_header. fold eth. by rewrite <- !app_assoc.
Qed.

(** ** DHCP options *)

(** What stands in an options field: padding and options proper. *)
Inductive ditem := DPad | DOpt (code : Z) (value : list Z).

Definition ditem_ok (i : ditem) : Prop :=
  match i with
  | DPad => True
  | DOpt code v => 0 < code < 255 ∧ (length v < 256)%nat ∧ Forall is_byte v
  end.

Definition enc_item (i : ditem) : list Z :=
  match i with DPad => [0] | DOpt code v => code :: Z.of_nat (length v) :: v end.

(** The first option [want], at its offset from the start of the field. *)
Fixpoint first_option (its : list ditem) (want off : Z) : option (Z * list Z) :=
  match its with
  | [] => None
  | DPad :: its' => first_option its' want (off + 1)
  | DOpt code v :: its' =>
      if decide (code = want) then Some (off + 2, v) else first_option its' want (off + 2 + Z.of_nat (length v))
  end.

Lemma arr_get_mid (a : list Z) x b : arr_get (a ++ x :: b) (Z.of_nat (length a)) = Some x.
Proof. unfold arr_get. rewrite decide_True by lia. rewrite Nat2Z.id. by apply list_lookup_middle. Qed.

Lemma find_option_spec pre done_ its post max want fuel :
  Forall ditem_ok its → let b := pre ++ done_ ++ concat (enc_item <$> its) ++ DHCP_OPT_END :: post in
  Z.of_nat (length done_ + length (concat (enc_item <$> its))) < max → (length (concat (enc_item <$> its)) < fuel)%nat →
  find_option b (Z.of_nat (length pre)) max want (Z.of_nat (length done_)) fuel =
    Some ((λ r : Z * list Z, (Z.of_nat (length pre) + fst r, Z.of_nat (length (snd r)))) <$> first_option its want (Z.of_nat (length done_))).
Proof.
  intros Hok. revert done_ fuel. induction its as [|i its IH]; intros done_ fuel b Hmax Hfuel; (destruct fuel as [|fuel]; [lia|]); cbn [find_option].
  - rewrite decide_True by lia. unfold b. cbn [fmap list_fmap concat app]. rewrite app_assoc.
    replace (Z.of_nat (length pre) + Z.of_nat (length done_)) with (Z.of_nat (length (pre ++ done_))) by (rewrite length_app; lia).
    rewrite arr_get_mid. done.
  - apply Forall_cons in Hok as [Hi Hok]. cbn [fmap list_fmap concat] in *. rewrite length_app in Hmax, Hfuel.
    rewrite decide_True by lia. destruct i as [|code v]; cbn [enc_item] in *; cbn [length] in Hmax, Hfuel.
    + assert (arr_get b (Z.of_nat (length pre) + Z.of_nat (length done_)) = Some 0) as E0.
      { unfold b. rewrite app_assoc. rewrite <- Nat2Z.inj_add, <- length_app. apply arr_get_mid. }
      rewrite E0. cbn [mbind option_bind]. rewrite decide_False, decide_True by done.
      specialize (IH Hok (done_ ++ [0]) fuel). rewrite length_app in IH. cbn [length] in IH. replace (Z.of_nat (length done_ + 1)) with (Z.of_nat (length done_) + 1) in IH by lia.
      unfold b. cbn [first_option]. rewrite <- IH by lia. f_equal. by rewrite <- !app_assoc.
    + destruct Hi as (Hcode & Hv & _).
      assert (arr_get b (Z.of_nat (length pre) + Z.of_nat (length done_)) = Some code) as E0.
      { unfold b. rewrite app_assoc. rewrite <- Nat2Z.inj_add, <- length_app. apply arr_get_mid. }
      assert (arr_get b (Z.of_nat (length pre) + Z.of_nat (length done_) + 1) = Some (Z.of_nat (length v))) as E1.
      { unfold b. replace (pre ++ done_ ++ _) with ((pre ++ done_ ++ [code]) ++ Z.of_nat (length v) :: v ++ concat (enc_item <$> its) ++ DHCP_OPT_END :: post)
          by (rewrite <- !app_assoc; done). replace (_ + _ + 1) with (Z.of_nat (length (pre ++ done_ ++ [code]))) by (rewrite !length_app; cbn; lia). apply arr_get_mid. }
      rewrite E0. cbn [mbind option_bind]. unfold DHCP_OPT_END in *. rewrite (decide_False (P := code = 255)), (decide_False (P := code = 0)), decide_False by lia.
      rewrite E1. cbn [mbind option_bind]. rewrite decide_False by lia. cbn [first_option].
      destruct (decide (code = want)); [cbn; do 3 f_equal; lia|].
      specialize (IH Hok (done_ ++ code :: Z.of_nat (length v) :: v) fuel). rewrite length_app in IH. cbn [length] in IH.
      replace (Z.of_nat (length done_ + S (S (length v)))) with (Z.of_nat (length done_) + 2 + Z.of_nat (length v)) in IH by lia.
      unfold b. rewrite <- IH by lia. f_equal. by rewrite <- !app_assoc.
Qed.

(** In a field that lies inside the buffer the search ends, and what it finds
    lies inside the field. *)
Lemma find_option_total b base max want fuel : Forall is_byte b → 0 ≤ base → base + max ≤ Z.of_nat (length b) → ∀ p,
  0 ≤ p → Z.max (max - p) 0 < Z.of_nat fuel →
  ∃ r, find_option b base max want p fuel = Some r ∧
    match r with None => True | Some (q, len) => base ≤ q ∧ 0 ≤ len < 256 ∧ q + len ≤ base + max end.
Proof.
  intros Hb Hbase Hmax. induction fuel as [|fuel IH]; intros p Hp Hf; [lia|]. cbn [find_option].
  case_decide as Hlt; [|by exists None]. destruct (arr_get_byte b (base + p) Hb) as (code & -> & Hc); [lia|]. cbn [mbind option_bind].
  case_decide; [by exists None|]. case_decide; [apply IH; lia|]. case_decide as H2; [by exists None|].
  destruct (arr_get_byte b (base + p + 1) Hb) as (len & -> & Hl); [lia|]. cbn [mbind option_bind]. unfold is_byte in Hl.
  case_decide as H3; [by exists None|]. case_decide; [|apply IH; lia].
  exists (Some (base + p + 2, len)). split; [done|]. lia.
Qed.

(** ** Parsing replies *)

Lemma dhcp_find_option_total b base max want :
  Forall is_byte b → 0 ≤ base → 0 ≤ max → base + max ≤ Z.of_nat (length b) →
  ∃ r, dhcp_find_option b base max want = Some r ∧
    match r with None => True | Some (q, len) => base ≤ q ∧ 0 ≤ len < 256 ∧ q + len ≤ base + max end.
Proof. intros Hb Hbase H0 Hmax. apply find_option_total; try done; lia. Qed.

Lemma opt4_total b base max want good old :
  Forall is_byte b → 0 ≤ base → 0 ≤ max → base + max ≤ Z.of_nat (length b) → (∀ l, good l = true → 4 ≤ l) → is_ip old →
  ∃ r, opt4 b base max want good old = Some r ∧ is_ip r.
Proof.
  intros Hb Hbase H0 Hmax Hgood Hold. unfold opt4. destruct (dhcp_find_option_total b base max want) as (r & -> & Hr); [done..|]. cbn [mbind option_bind].
  destruct r as [[q len]|]; [|by exists old]. destruct (good len) eqn:Hg; [|by exists old]. apply Hgood in Hg.
  rewrite get_ok by lia. eexists. split; [done|]. split; [by rewrite part_length by lia|by apply Forall_take, Forall_drop].
Qed.

Lemma get16be_ok l o : Forall is_byte l → 0 ≤ o → o + 1 < Z.of_nat (length l) → ∃ x, get16be l o = Some x ∧ 0 ≤ x < 65536.
Proof.
  intros Hb Ho Hl. unfold get16be. destruct (arr_get_byte l o Hb) as (a & -> & Ha); [lia|]. cbn [mbind option_bind].
  destruct (arr_get_byte l (o + 1) Hb) as (b & -> & Hb'); [lia|]. cbn [mbind option_bind]. rewrite word_be by done. unfold is_byte in *.
  eexists. split; [done|]. lia.
Qed.

Lemma get32be_ok l o : Forall is_byte l → 0 ≤ o → o + 3 < Z.of_nat (length l) → ∃ x, get32be l o = Some x.
Proof.
  intros Hb Ho Hl. unfold get32be. destruct (arr_get_byte l o Hb) as (? & -> & _); [lia|]. cbn [mbind option_bind].
  destruct (arr_get_byte l (o + 1) Hb) as (? & -> & _); [lia|]. cbn [mbind option_bind].
  destruct (arr_get_byte l (o + 2) Hb) as (? & -> & _); [lia|]. cbn [mbind option_bind].
  destruct (arr_get_byte l (o + 3) Hb) as (? & -> & _); [lia|]. by eexists.
Qed.

Definition lease_ok (l : lease) : Prop := is_ip (yiaddr l) ∧ is_ip (l_server l) ∧ is_ip (l_mask l) ∧ is_ip (l_router l).

(** The header a reply must have, up to the magic cookie, and its UDP length. *)
Definition reply_header (frame : list Z) (xid udp_len : Z) : Prop :=
  get frame 12 2 = Some [0x08; 0x00] ∧ (∃ ip0, arr_get frame 14 = Some ip0 ∧ Z.land ip0 0xF0 = 0x40 ∧ Z.land ip0 0x0F * 4 = 20) ∧
  arr_get frame 23 = Some 17 ∧ get16be frame 34 = Some 67 ∧ get16be frame 36 = Some 68 ∧ get16be frame 38 = Some udp_len ∧
  8 + 240 ≤ udp_len ∧ arr_get frame 42 = Some 2 ∧ get32be frame 46 = Some xid ∧ get frame 278 4 = Some DHCP_MAGIC.

Lemma parse_options_total frame opts_len msg out :
  Forall is_byte frame → 0 ≤ opts_len → 282 + opts_len ≤ Z.of_nat (length frame) → lease_ok out →
  ∃ ok l, parse_options frame opts_len msg out = Some (ok, l) ∧ lease_ok l ∧ (ok = false → l = out).
Proof.
  intros Hb H0 Hl Hout. pose proof Hout as (_ & Hs & Hm & Hr). unfold parse_options.
  destruct (dhcp_find_option_total frame 282 opts_len DHCP_OPT_MSGTYPE) as (mt & -> & Hmt); [done|lia|done|done|]. cbn [mbind option_bind].
  assert (∃ ok l, Some (false, out) = Some (ok, l) ∧ lease_ok l ∧ (ok = false → l = out)) as Hno by (by exists false, out).
  destruct mt as [[p l]|]; [|exact Hno]. case_decide as Hl1; [exact Hno|].
  destruct (arr_get_byte frame p Hb) as (t & -> & _); [lia|]. cbn [mbind option_bind]. case_decide; [exact Hno|].
  rewrite get_ok by lia. cbn [mbind option_bind].
  destruct (opt4_total frame 282 opts_len DHCP_OPT_SERVER_ID (λ l, bool_decide (l = 4)) (l_server out)) as (sid & -> & Hsid);
    [done|lia|done|done|intros k Hg%bool_decide_eq_true_1; lia|done|]. cbn [mbind option_bind].
  destruct (opt4_total frame 282 opts_len DHCP_OPT_SUBNET (λ l, bool_decide (l = 4)) (l_mask out)) as (sm & -> & Hsm);
    [done|lia|done|done|intros k Hg%bool_decide_eq_true_1; lia|done|]. cbn [mbind option_bind].
  destruct (opt4_total frame 282 opts_len DHCP_OPT_ROUTER (λ l, bool_decide (4 ≤ l)) (l_router out)) as (rt & -> & Hrt);
    [done|lia|done|done|intros k Hg%bool_decide_eq_true_1; lia|done|]. cbn [mbind option_bind].
  destruct (dhcp_find_option_total frame 282 opts_len DHCP_OPT_LEASE) as (ls & -> & Hls); [done|lia|done|done|]. cbn [mbind option_bind].
  assert (∃ secs, match ls with Some (q, l) => if decide (l = 4) then get32be frame q else Some 0 | None => Some 0 end = Some secs) as (secs & ->).
  { destruct ls as [[q len]|]; [|by exists 0]. case_decide; [|by exists 0]. apply get32be_ok; [done|lia|lia]. }
  cbn [mbind option_bind]. exists true. eexists. split; [done|]. split; [|done].
  split_and!; cbn; try done. split; [by rewrite part_length by lia|by apply Forall_take, Forall_drop].
Qed.

(** A frame is refused at its header or has a reply header. *)
Lemma dhcp_parse_cases frame flen xid msg out :
  Forall is_byte frame → flen ≤ Z.of_nat (length frame) →
  dhcp_parse frame flen xid msg out = Some (false, out) ∨
  282 ≤ flen ∧ ∃ udp_len, reply_header frame xid udp_len ∧ udp_len < 65536 ∧
    dhcp_parse frame flen xid msg out = parse_options frame (udp_len - 8 - 240) msg out.
Proof.
  intros Hb Hl. unfold dhcp_parse. case_decide as H0; [by left|]. rewrite (get_ok frame 12 2) by lia. cbn [mbind option_bind]. case_decide as H1; [by left|].
  destruct (arr_get_byte frame 14 Hb) as (ip0 & E2 & _); [lia|]. rewrite E2. cbn [mbind option_bind]. case_decide as H2; [by left|].
  destruct (arr_get_byte frame 23 Hb) as (proto & E3 & _); [lia|]. rewrite E3. cbn [mbind option_bind]. case_decide as H3; [by left|].
  case_decide as H4; [by left|].
  destruct (get16be_ok frame 34 Hb) as (sp & E5 & _); [lia|lia|]. destruct (get16be_ok frame 36 Hb) as (dp & E6 & _); [lia|lia|].
  destruct (get16be_ok frame 38 Hb) as (ul & E7 & Hul); [lia|lia|]. rewrite E5, E6, E7. cbn [mbind option_bind].
  case_decide as H5; [by left|]. case_decide as H6; [by left|].
  destruct (arr_get_byte frame 42 Hb) as (op & E8 & _); [lia|]. rewrite E8. cbn [mbind option_bind]. case_decide as H7; [by left|].
  destruct (get32be_ok frame 46 Hb) as (x & E9); [lia|lia|]. rewrite E9. cbn [mbind option_bind]. case_decide as H8; [by left|].
  rewrite (get_ok frame 278 4) by lia. cbn [mbind option_bind]. case_decide as H9; [by left|]. right. split; [lia|]. exists ul. split; [|split; [lia|done]].
  unfold reply_header. rewrite !get_ok by lia. rewrite H1, E3, E5, E6, E7, E8, E9, H9. subst proto op x.
  assert (sp = 67 ∧ dp = 68) as [-> ->] by lia. split_and!; try done; [|lia]. by exists ip0.
Qed.

(** Padding to the end of the buffer, in a field that goes on behind it. *)
Lemma find_option_pads b base max want fuel : 0 ≤ base ≤ Z.of_nat (length b) → Z.of_nat (length b) < base + max →
  (∀ i x, base ≤ i → arr_get b i = Some x → x = 0) → ∀ p, 0 ≤ p → base + p ≤ Z.of_nat (length b) → find_option b base max want p fuel = None.
Proof.
  intros Hbase Hmax Hpad. induction fuel as [|fuel IH]; intros p Hp Hpl; [done|]. cbn [find_option]. rewrite decide_True by lia.
  destruct (decide (base + p = Z.of_nat (length b))) as [He|Hne].
  - assert (arr_get b (base + p) = None) as ->; [|done]. unfold arr_get. rewrite decide_True by lia. apply lookup_ge_None_2. lia.
  - destruct (arr_get b (base + p)) as [x|] eqn:E; [|done]. rewrite (Hpad (base + p) x) by (done || lia). cbn [mbind option_bind].
    rewrite decide_False, decide_True by done. apply IH; lia.
Qed.

Lemma reply_parsed frame flen xid msg out u :
  Forall is_byte frame → 282 ≤ flen ≤ Z.of_nat (length frame) → reply_header frame xid u →
  dhcp_parse frame flen xid msg out = parse_options frame (u - 8 - 240) msg out.
Proof.
  intros Hb Hl (E1 & (ip0 & E2 & E2a & E2b) & E3 & E4 & E5 & E6 & Hu & E7 & E8 & E9). unfold dhcp_parse. rewrite decide_False by lia.
  rewrite E1. cbn [mbind option_bind]. rewrite decide_False by auto. rewrite E2. cbn [mbind option_bind]. rewrite decide_False by auto.
  rewrite E3. cbn [mbind option_bind]. rewrite decide_False by auto. rewrite decide_False by auto. rewrite E4, E5, E6. cbn [mbind option_bind].
  rewrite decide_False by lia. rewrite decide_False by lia. rewrite E7. cbn [mbind option_bind]. rewrite decide_False by auto.
  rewrite E8. cbn [mbind option_bind]. rewrite decide_False by auto. rewrite E9. cbn [mbind option_bind]. by rewrite decide_False by auto.
Qed.

(** What an options field says. *)
Definition opt_value (its : list ditem) (code : Z) : option (list Z) := snd <$> first_option its code 0.

Definition opt_ip (its : list ditem) (code : Z) (good : Z → bool) (old : list Z) : list Z :=
  match opt_value its code with
  | Some v => if good (Z.of_nat (length v)) then take 4 v else old
  | None => old
  end.

Definition opt_secs (its : list ditem) : Z :=
  match opt_value its DHCP_OPT_LEASE with
  | Some v => if decide (length v = 4%nat) then be_sum (take 2 v) * 65536 + be_sum (drop 2 v) else 0
  | None => 0
  end.

Definition reply_of (its : list ditem) (msg : Z) (y : list Z) (out : lease) : bool * lease :=
  if decide (opt_value its DHCP_OPT_MSGTYPE = Some [msg]) then
    (true, mk_lease y (opt_ip its DHCP_OPT_SERVER_ID (λ l, bool_decide (l = 4)) (l_server out))
             (opt_ip its DHCP_OPT_SUBNET (λ l, bool_decide (l = 4)) (l_mask out))
             (opt_ip its DHCP_OPT_ROUTER (λ l, bool_decide (4 ≤ l)) (l_router out)) (opt_secs its))
  else (false, out).

Lemma first_option_value pre done_ its post want o v :
  first_option its want (Z.of_nat (length done_)) = Some (o, v) →
  slice (pre ++ done_ ++ concat (enc_item <$> its) ++ post) (Z.of_nat (length pre) + o) (Z.of_nat (length v)) = v ∧ 0 ≤ o.
Proof.
  revert done_. induction its as [|[|code w] its IH]; intros done_ H; cbn [first_option fmap list_fmap concat enc_item] in *; [done|..].
  - specialize (IH (done_ ++ [0])). rewrite length_app in IH. cbn [length] in IH. rewrite Nat2Z.inj_add in IH. apply IH in H.
    rewrite <- !app_assoc in H. exact H.
  - case_decide as E.
    + injection H as <- <-. split; [|lia].
      replace (pre ++ done_ ++ ((code :: Z.of_nat (length w) :: w) ++ concat (enc_item <$> its)) ++ post)
        with ((pre ++ done_ ++ [code; Z.of_nat (length w)]) ++ w ++ concat (enc_item <$> its) ++ post) by (rewrite <- !app_assoc; done).
      replace (Z.of_nat (length pre) + (Z.of_nat (length done_) + 2)) with (Z.of_nat (length (pre ++ done_ ++ [code; Z.of_nat (length w)])))
        by (rewrite !length_app; cbn [length]; lia). apply slice_mid.
    + specialize (IH (done_ ++ code :: Z.of_nat (length w) :: w)). rewrite length_app in IH. cbn [length] in IH.
      replace (Z.of_nat (length done_ + S (S (length w)))) with (Z.of_nat (length done_) + 2 + Z.of_nat (length w)) in IH by lia. apply IH in H.
      rewrite <- !app_assoc in H |- *. exact H.
Qed.

Lemma first_option_ok its want off o v : Forall ditem_ok its → first_option its want off = Some (o, v) → Forall is_byte v.
Proof.
  intros Hok. revert off. induction Hok as [|[|code w] its Hi _ IH]; intros off H; cbn [first_option] in H; [done|by eapply IH|].
  case_decide; [injection H as <- <-; by apply Hi|by eapply IH].
Qed.

Lemma get32be_value l o a b c d : is_byte a → is_byte b → is_byte c → is_byte d → 0 ≤ o → slice l o 4 = [a; b; c; d] →
  get32be l o = Some ((256 * a + b) * 65536 + (256 * c + d)).
Proof.
  unfold is_byte. intros Ha Hb Hc Hd Ho E. assert (∀ i, (i < 4)%nat → arr_get l (o + Z.of_nat i) = [a; b; c; d] !! i) as Hg.
  { intros i Hi. rewrite <- E. unfold arr_get, slice. rewrite decide_True by lia. rewrite lookup_take_lt, lookup_drop by lia. f_equal. lia. }
  unfold get32be. pose proof (Hg 0%nat ltac:(lia)) as E0. rewrite Z.add_0_r in E0.
  pose proof (Hg 1%nat ltac:(lia)) as E1. pose proof (Hg 2%nat ltac:(lia)) as E2. pose proof (Hg 3%nat ltac:(lia)) as E3.
  change (Z.of_nat 1) with 1 in E1. change (Z.of_nat 2) with 2 in E2. change (Z.of_nat 3) with 3 in E3. rewrite E0, E1, E2, E3. cbn [lookup list_lookup mbind option_bind]. f_equal. rewrite !Z.shiftl_mul_pow2 by lia. rewrite wrap32_small by lia.
  rewrite (lor_disjoint 24 (a * _) (b * _)) by (lia || apply Z.mod_mul; lia).
  rewrite (lor_disjoint 16 _ (c * _)) by (lia || dlia). rewrite (lor_disjoint 8 _ d) by (lia || dlia). lia.
Qed.

Section Reply.
Context (pre : list Z) (its : list ditem) (post : list Z).
Context (Hpre : length pre = 282%nat) (Hits : Forall ditem_ok its).
Context (max : Z) (Hmax : Z.of_nat (length (concat (enc_item <$> its))) < max).
Let frame : list Z := pre ++ concat (enc_item <$> its) ++ DHCP_OPT_END :: post.

Lemma option_found want :
  dhcp_find_option frame 282 max want = Some ((λ r : Z * list Z, (282 + fst r, Z.of_nat (length (snd r)))) <$> first_option its want 0) ∧
  ∀ o v, first_option its want 0 = Some (o, v) → slice frame (282 + o) (Z.of_nat (length v)) = v ∧ 0 ≤ o ∧ Forall is_byte v ∧
    opt_value its want = Some v.
Proof.
  split.
  - pose proof (find_option_spec pre [] its post max want (S (Z.to_nat max)) Hits) as H. cbn [length app] in H. rewrite Hpre in H. apply H; lia.
  - intros o v E. pose proof (first_option_value pre [] its (DHCP_OPT_END :: post) want o v E) as [Hs Ho]. rewrite Hpre in Hs.
    split; [exact Hs|]. split; [done|]. split; [by eapply first_option_ok|]. unfold opt_value. by rewrite E.
Qed.

Lemma found_slice want o v n : first_option its want 0 = Some (o, v) → 0 ≤ n ≤ Z.of_nat (length v) → 0 < n →
  slice frame (282 + o) n = take (Z.to_nat n) v ∧ 282 + o + n ≤ Z.of_nat (length frame).
Proof.
  intros E Hn H0. destruct (proj2 (option_found want) o v E) as (Hs & Ho & _). split.
  - rewrite <- Hs. unfold slice. rewrite take_take. f_equal. lia.
  - assert (length (slice frame (282 + o) (Z.of_nat (length v))) = length v) as Hl by by rewrite Hs.
    unfold slice in Hl. rewrite length_take, length_drop in Hl. lia.
Qed.

Lemma opt4_found want good old : (∀ l, good l = true → 4 ≤ l) → opt4 frame 282 max want good old = Some (opt_ip its want good old).
Proof.
  intros Hgood. destruct (option_found want) as [E Hv]. unfold opt4, opt_ip, opt_value. rewrite E. cbn [mbind option_bind].
  destruct (first_option its want 0) as [[o v]|] eqn:Ef; cbn [fmap option_fmap option_map fst snd]; [|done]. destruct (good _) eqn:Hg; [|done].
  apply Hgood in Hg. destruct (found_slice want o v 4 Ef) as [Hs Hl]; [lia|lia|]. destruct (Hv o v eq_refl) as (_ & Ho & _).
  rewrite get_ok by lia. by rewrite Hs.
Qed.

Lemma options_parsed msg out : parse_options frame max msg out = Some (reply_of its msg (slice frame 58 4) out).
Proof.
  unfold parse_options, reply_of. destruct (option_found DHCP_OPT_MSGTYPE) as [E Hv]. rewrite E. cbn [mbind option_bind].
  assert (opt_value its DHCP_OPT_MSGTYPE = snd <$> first_option its DHCP_OPT_MSGTYPE 0) as Ev by done.
  destruct (first_option its DHCP_OPT_MSGTYPE 0) as [[o v]|] eqn:Ef; cbn [fmap option_fmap option_map fst snd] in *.
  2:{ by rewrite decide_False by (by rewrite Ev). }
  destruct (decide (Z.of_nat (length v) ≠ 1)) as [Hne|H1]. { rewrite decide_False; [done|]. rewrite Ev. intros [= ->]. by apply Hne. }
  destruct v as [|t [|]]; cbn [length] in H1; [lia| |lia]. destruct (found_slice _ o [t] 1 Ef) as [Hs Hl]; [cbn; lia|lia|].
  destruct (Hv o [t] eq_refl) as (_ & Ho & _).
  assert (arr_get frame (282 + o) = Some t) as Et.
  { destruct (arr_get frame (282 + o)) as [x|] eqn:Ex; [rewrite (slice_cons _ _ _ x) in Hs by (done || lia); by injection Hs as ->|].
    unfold arr_get in Ex. rewrite decide_True in Ex by lia. apply lookup_ge_None_1 in Ex. lia. }
  rewrite Et. cbn [mbind option_bind]. destruct (decide (t ≠ msg)) as [Hne|Heq]. { rewrite decide_False; [done|]. rewrite Ev. intros [= ->]. by apply Hne. }
  apply dec_stable in Heq as ->. rewrite decide_True by done. rewrite get_ok by (rewrite ?length_app; lia). cbn [mbind option_bind].
  rewrite !opt4_found by (intros l Hg%bool_decide_eq_true_1; lia). cbn [mbind option_bind].
  destruct (option_found DHCP_OPT_LEASE) as [E' Hv']. rewrite E'. cbn [mbind option_bind]. unfold opt_secs, opt_value.
  destruct (first_option its DHCP_OPT_LEASE 0) as [[o' v']|] eqn:Ef'; cbn [fmap option_fmap option_map fst snd mbind option_bind]; [|done].
  destruct (decide (length v' = 4%nat)) as [H4|H4]; [|by rewrite decide_False by lia]. rewrite decide_True by lia.
  destruct v' as [|a [|b [|c [|d []]]]]; try done. destruct (Hv' o' _ eq_refl) as (Hs' & Ho' & Hb & _).
  apply Forall_cons in Hb as [Ha [Hb [Hc [Hd _]%Forall_cons]%Forall_cons]%Forall_cons].
  rewrite (get32be_value frame (282 + o') a b c d) by (done || lia). cbn [mbind option_bind take drop be_sum]. by rewrite !Z.add_0_r.
Qed.
End Reply.

(** ** The DHCP exchange *)

Definition request_items (msg : Z) (ip server : option (list Z)) : list ditem :=
  [DOpt DHCP_OPT_MSGTYPE [msg]; DOpt DHCP_OPT_PARAM_REQ [DHCP_OPT_SUBNET; DHCP_OPT_ROUTER; DHCP_OPT_LEASE; DHCP_OPT_SERVER_ID]] ++
  match ip with Some v => [DOpt DHCP_OPT_REQ_IP v] | None => [] end ++ match server with Some v => [DOpt DHCP_OPT_SERVER_ID v] | None => [] end.

(** The BOOTP message, and its frame on the wire. *)
Definition bootp_of (mac : list Z) (xid msg : Z) (ip server : option (list Z)) : list Z :=
  ([1; 1; 6; 0] ++ be32 xid ++ replicate 20 0 ++ mac ++ replicate 202 0 ++ DHCP_MAGIC) ++
  concat (enc_item <$> request_items msg ip server) ++ [DHCP_OPT_END].

Definition dhcp_wire (n : net) (msg : Z) (ip server : option (list Z)) (w : list Z) : Prop :=
  let m := bootp_of (net_mac n) DHCP_XID msg ip server in
  let len := Z.of_nat (length m) in
  ∃ c, w = eth_header BROADCAST_MAC (net_mac n) [0x08; 0x00] ++ ipv4_header (28 + len) 17 ANY_IP BROADCAST_IP c ++
         (be16 68 ++ be16 67 ++ be16 (8 + len) ++ [0; 0]) ++ m ∧
    inet_csum (ipv4_header (28 + len) 17 ANY_IP BROADCAST_IP c) 0 20 = Some 0.

Definition maybe_ip (o : option (list Z)) : Prop := match o with Some v => is_ip v | None => True end.

Lemma put_inner l a k bs : 0 ≤ k → (Z.to_nat k + length bs ≤ length a)%nat → (length a ≤ length l)%nat →
  put (splice l 0 a) k bs = Some (splice l 0 (splice a k bs)).
Proof. intros Hk Ha Hl. rewrite put_ok by (rewrite ?splice_length; lia). f_equal. apply (splice_inner l 0 a k bs); lia. Qed.

Lemma dhcp_build_spec b msg mac xid ip server :
  (262 ≤ length b)%nat → is_mac mac → maybe_ip ip → maybe_ip server →
  let m := bootp_of mac xid msg ip server in
  dhcp_build b msg mac xid ip server = Some (Z.of_nat (length m), splice b 0 m) ∧ (length m ≤ 262)%nat.
Proof.
  intros Hb [Hml _] Hip Hsv m. unfold dhcp_build.
  set (opt := (match server with Some s => _ | None => _ end) ++ [DHCP_OPT_END]).
  assert (opt = concat (enc_item <$> request_items msg ip server) ++ [DHCP_OPT_END]) as Eo.
  { unfold opt. destruct ip as [v|], server as [w|]; cbn in Hip, Hsv; cbn [request_items app fmap list_fmap concat enc_item];
      rewrite ?(proj1 Hip), ?(proj1 Hsv), ?app_nil_r, <- ?app_assoc; done. }
  assert (length opt ≤ 22)%nat as Hol.
  { unfold opt. destruct ip as [v|], server as [w|]; cbn in Hip, Hsv; rewrite !length_app, ?(proj1 Hip), ?(proj1 Hsv); cbn; lia. }
  destruct mac as [|m0 [|m1 [|m2 [|m3 [|m4 [|m5 []]]]]]]; try done.
  set (z := replicate 240 0). assert (length z = 240%nat) as Hz by done. rewrite put_first by lia. cbn [mbind option_bind].
  rewrite put_inner by (cbn [length app be32]; lia). cbn [mbind option_bind]. set (z1 := splice z 0 _). assert (length z1 = 240%nat) as Hz1 by done.
  rewrite put_inner by (cbn [length]; lia). cbn [mbind option_bind]. set (z2 := splice z1 28 _). assert (length z2 = 240%nat) as Hz2 by done.
  rewrite put_inner by (cbn [length DHCP_MAGIC]; lia). cbn [mbind option_bind].
  match goal with |- context [splice b 0 ?x] => set (hd := x) end.
  assert (hd = [1; 1; 6; 0] ++ be32 xid ++ replicate 20 0 ++ [m0; m1; m2; m3; m4; m5] ++ replicate 202 0 ++ DHCP_MAGIC) as Eh by reflexivity.
  assert (length hd = 240%nat) as Hh by (rewrite Eh; reflexivity). rewrite put_next by lia. cbn [mbind option_bind].
  assert (hd ++ opt = m) as Em by (unfold m, bootp_of; by rewrite Eh, Eo). rewrite Em. split.
  - do 2 f_equal. rewrite <- Em, length_app. lia.
  - rewrite <- Em, length_app. lia.
Qed.

Section Acquire.
Context {N : Type} `{!NetIO N}.

(** The frames that arrive are bytes, and no DHCP reply among them claims a UDP
    length that leads out of the receive buffer of 600 bytes. *)
Definition replies_fit : Prop := ∀ (io : N) n bs io', nio_poll io 600 = (n, bs, io') → 0 < n →
  Forall is_byte bs ∧ ∀ rx u, reply_header (bs ++ rx) DHCP_XID u → 34 + u ≤ 600.

Context (Harrive : replies_fit).

Lemma dhcp_send_spec n (io : N) b f msg ip server :
  net_wf n → length b = 304%nat → length f = 346%nat → Forall is_byte f → is_byte msg → maybe_ip ip → maybe_ip server →
  ∃ w b' f', dhcp_send n io b f msg ip server = Some (fst (nio_tx io w), b', f', snd (nio_tx io w)) ∧ dhcp_wire n msg ip server w ∧
    length b' = 304%nat ∧ length f' = 346%nat ∧ Forall is_byte f'.
Proof.
  intros Hn Hb Hf Hfb Hmsg Hip Hsv. pose proof Hn as [Hmac _ _ _]. unfold dhcp_send.
  destruct (dhcp_build_spec b msg (net_mac n) DHCP_XID ip server) as [E Hm]; [lia|done|done|done|]. rewrite E. cbn [mbind option_bind].
  set (m := bootp_of (net_mac n) DHCP_XID msg ip server) in *. set (len := Z.of_nat (length m)) in *.
  assert (is_mac BROADCAST_MAC) as Hbm by (split; [done|unfold BROADCAST_MAC; bytes]).
  assert (is_ip ANY_IP) as Ha by (split; [done|unfold ANY_IP; bytes]). assert (is_ip BROADCAST_IP) as Hbi by (split; [done|unfold BROADCAST_IP; bytes]).
  destruct (udp_build_spec n f BROADCAST_MAC ANY_IP BROADCAST_IP 68 67 (splice b 0 m) len) as (c & E2 & Hc & Hv);
    [done|done|done|done|done|lia|rewrite splice_length; lia|lia|]. rewrite E2. cbn [mbind option_bind].
  assert (take (Z.to_nat len) (splice b 0 m) = m) as Et.
  { unfold splice, len. rewrite Nat2Z.id. exact (take_app_length m _). }
  rewrite Et. set (w := eth_header _ _ _ ++ _). assert (length w = Z.to_nat (42 + len)) as Hw.
  { unfold w. destruct Hmac as [Hml _]. unfold eth_header. rewrite !length_app, Hml, ipv4_header_length by done. cbn [length BROADCAST_MAC be16]. lia. }
  rewrite get_ok by (rewrite ?splice_length; lia).
  assert (slice (splice f 0 w) 0 (42 + len) = w) as Es.
  { pose proof (slice_spliced f 0 w ltac:(lia) ltac:(lia)) as H. by rewrite Hw, Z2Nat.id in H by lia. }
  rewrite Es. cbn [mbind option_bind]. destruct (nio_tx io w) as [r io1] eqn:Etx. exists w, (splice b 0 m), (splice f 0 w).
  rewrite Etx. split; [done|]. split; [by exists c|]. split; [rewrite splice_length; lia|]. split; [rewrite splice_length; lia|].
  apply splice_bytes; [done|]. unfold w, eth_header, ipv4_header, m, bootp_of. destruct Hmac as [_ Hmb].
  pose proof (be16_sum (28 + len) ltac:(lia)) as [Hb1 _]. pose proof (be16_sum (8 + len) ltac:(lia)) as [Hb2 _].
  destruct ip as [v|], server as [v'|]; cbn in Hip, Hsv; cbn [request_items app fmap list_fmap concat enc_item];
    repeat first [assumption | apply be16_sum; lia | apply (proj2 Hip) | apply (proj2 Hsv) | apply Forall_app; split
      | match goal with |- Forall _ (replicate _ _) => apply Forall_replicate end | match goal with |- is_byte _ => done end | apply Forall_cons; split
      | rewrite (proj1 Hip) | rewrite (proj1 Hsv) | apply Forall_nil_2].
Qed.

(** Waiting for a reply: polls that bring nothing of use, then the reply. *)
Inductive heard (msg : Z) : N * list Z → lease → N * list Z → Prop :=
  | heard_idle io rx n bs io' l s : nio_poll io 600 = (n, bs, io') → n ≤ 0 → heard msg (io', rx) l s → heard msg (io, rx) l s
  | heard_other io rx n bs io' out l s :
      nio_poll io 600 = (n, bs, io') → 0 < n → dhcp_parse (splice rx 0 bs) n DHCP_XID msg no_lease = Some (false, out) →
      heard msg (io', splice rx 0 bs) l s → heard msg (io, rx) l s
  | heard_reply io rx n bs io' l :
      nio_poll io 600 = (n, bs, io') → 0 < n → dhcp_parse (splice rx 0 bs) n DHCP_XID msg no_lease = Some (true, l) →
      heard msg (io, rx) l (io', splice rx 0 bs).

Definition rx_ok (s : N * list Z) : Prop := length (snd s) = 600%nat ∧ Forall is_byte (snd s).

Lemma no_lease_ok : lease_ok no_lease.
Proof. unfold no_lease. split_and!; (split; [done|cbn; bytes]). Qed.

Lemma dhcp_look_ok msg io rx n bs io' :
  rx_ok (io, rx) → nio_poll io 600 = (n, bs, io') → 0 < n →
  rx_ok (io', splice rx 0 bs) ∧ put rx 0 bs = Some (splice rx 0 bs) ∧
  ∃ ok l, dhcp_parse (splice rx 0 bs) n DHCP_XID msg no_lease = Some (ok, l) ∧ lease_ok l.
Proof.
  intros [Hl Hb] E Hn. cbn [snd] in *. destruct (Harrive io n bs io' E Hn) as [Hbs Hu]. destruct (nio_poll_length io 600 n bs io' E Hn) as [Hlen Hmax].
  assert (Forall is_byte (splice rx 0 bs)) as Hsb by by apply splice_bytes.
  assert (length (splice rx 0 bs) = 600%nat) as Hsl by (rewrite splice_length; lia).
  split; [done|]. split; [apply put_first; lia|].
  destruct (dhcp_parse_cases (splice rx 0 bs) n DHCP_XID msg no_lease Hsb) as [->|(_ & u & Hh & Hu16 & ->)]; [lia|exists false, no_lease; split; [done|exact no_lease_ok]|].
  pose proof Hh as (_ & _ & _ & _ & _ & _ & Hu0 & _).
  assert (34 + u ≤ 600) as Hub by (eapply (Hu (drop (length bs) rx)); exact Hh).
  destruct (parse_options_total (splice rx 0 bs) (u - 8 - 240) msg no_lease Hsb) as (ok & l & -> & Hlo & _); [lia|lia|exact no_lease_ok|].
  by exists ok, l.
Qed.

Lemma dhcp_wait_spec msg p s : rx_ok s →
  match until p (dhcp_look msg) s with
  | inl None => False
  | inl (Some (l, s')) => heard msg s l s' ∧ rx_ok s' ∧ lease_ok l
  | inr s' => rx_ok s'
  end.
Proof.
  rewrite until_until_nat. revert s. induction (Pos.to_nat p) as [|k IH]; intros [io rx] Hok; cbn [until_nat]; [done|]. unfold dhcp_look at 1.
  destruct (nio_poll io 600) as [[n bs] io'] eqn:E. case_decide as Hn.
  - destruct (dhcp_look_ok msg io rx n bs io' Hok E Hn) as (Hok' & -> & ok & l & Ep & Hl). rewrite Ep. destruct ok.
    + split; [by eapply heard_reply|done].
    + specialize (IH _ Hok'). destruct (until_nat k (dhcp_look msg) (io', splice rx 0 bs)) as [[[l' s']|]|s']; [|done|done].
      destruct IH as (Hh & Hrest). split; [by eapply heard_other|done].
  - specialize (IH (io', rx) Hok). destruct (until_nat k (dhcp_look msg) (io', rx)) as [[[l' s']|]|s']; [|done|done].
    destruct IH as (Hh & Hrest). split; [eapply heard_idle; [done|lia|done]|done].
Qed.

(** The outcomes of the exchange, from [io] with the stack buffer [rx]. *)
Definition dhcp_outcome (n : net) (io : N) (rx : list Z) (r : Z) (n' : net) (io' : N) : Prop :=
  have_mac n = false ∧ r = -1 ∧ n' = n ∧ io' = io ∨
  have_mac n = true ∧ ∃ w r1 io1, dhcp_wire n DHCP_DISCOVER None None w ∧ nio_tx io w = (r1, io1) ∧
    (r = -1 ∧ n' = n ∨
     r = 0 ∧ 0 < r1 ∧ ∃ offer io2 rx2 w2 r2 io3 ack rx3,
       heard DHCP_OFFER (io1, rx) offer (io2, rx2) ∧
       dhcp_wire n DHCP_REQUEST (Some (yiaddr offer)) (Some (l_server offer)) w2 ∧ nio_tx io2 w2 = (r2, io3) ∧ 0 < r2 ∧
       heard DHCP_ACK (io3, rx2) ack (io', rx3) ∧ n' = commit n ack).

(** C28. As long as every reply with our transaction id that arrives has a UDP length
    that fits the receive buffer ([replies_fit]; a forged length makes the parser
    read past it), [dhcp_acquire] returns.  Without a MAC nothing is sent.
    Otherwise it broadcasts a DISCOVER; it then either gives up with -1 and the
    configuration untouched, or it has heard an OFFER with its transaction id, has
    broadcast a REQUEST that names the offered address and the offering server,
    has heard the ACK, and has adopted exactly what the ACK says.  Both broadcasts
    are well-formed frames with a valid header checksum. *)
Theorem dhcp_acquire_correct (n : net) (io : N) (b f rx : list Z) :
  net_wf n → length b = 304%nat → length f = 346%nat → Forall is_byte f → length rx = 600%nat → Forall is_byte rx →
  ∃ r n' io', dhcp_acquire n io b f rx = Some (r, n', io') ∧ dhcp_outcome n io rx r n' io'.
Proof.
  intros Hn Hb Hf Hfb Hrx Hrxb. unfold dhcp_acquire.
  destruct (have_mac n) eqn:Hmac; cbn [negb]; [|exists (-1), n, io; split; [reflexivity|by left]].
  destruct (dhcp_send_spec n io b f DHCP_DISCOVER None None) as (w & b1 & f1 & -> & Hw & Hb1 & Hf1 & Hfb1); [done..|].
  cbn [mbind option_bind]. destruct (nio_tx io w) as [r1 io1] eqn:Etx. cbn [fst snd].
  assert (∀ io' : N, ∃ r n' io'', Some (-1, n, io') = Some (r, n', io'') ∧ dhcp_outcome n io rx r n' io'') as Hgive.
  { intros io'. exists (-1), n, io'. split; [reflexivity|]. right. split; [exact Hmac|]. exists w, r1, io1. split; [exact Hw|]. split; [exact Etx|]. by left. }
  destruct (decide (r1 ≤ 0)) as [Hr1|Hr1]; [apply Hgive|].
  pose proof (dhcp_wait_spec DHCP_OFFER DHCP_SPINS (io1, rx) (conj Hrx Hrxb)) as H1.
  destruct (until DHCP_SPINS (dhcp_look DHCP_OFFER) (io1, rx)) as [[[offer [io2 rx2]]|]|[io2 rx2]]; [|contradiction|apply Hgive].
  destruct H1 as (Hh1 & Hok2 & (Hy & Hs & _)).
  destruct (dhcp_send_spec n io2 b1 f1 DHCP_REQUEST (Some (yiaddr offer)) (Some (l_server offer))) as (w2 & b2 & f2 & -> & Hw2 & _ & _ & _); [done..|].
  cbn [mbind option_bind]. destruct (nio_tx io2 w2) as [r2 io3] eqn:Etx2. cbn [fst snd]. destruct (decide (r2 ≤ 0)) as [Hr2|Hr2]; [apply Hgive|].
  pose proof (dhcp_wait_spec DHCP_ACK DHCP_SPINS (io3, rx2) Hok2) as H2.
  destruct (until DHCP_SPINS (dhcp_look DHCP_ACK) (io3, rx2)) as [[[ack [io4 rx4]]|]|[io4 rx4]]; [|contradiction|apply Hgive].
  destruct H2 as (Hh2 & _ & _). exists 0, (commit n ack), io4. split; [reflexivity|]. right. split; [exact Hmac|].
  exists w, r1, io1. split; [exact Hw|]. split; [exact Etx|].
  right. split; [reflexivity|]. split; [lia|]. exists offer, io2, rx2, w2, r2, io3, ack, rx4.
  repeat (split; [eassumption || lia|]). reflexivity.
Qed.
End Acquire.

(** ** Properties of checksums, frames and replies *)

(** [inet_csum] is the internet checksum (RFC 1071) of the bytes it is given:
    the complement of the ones'-complement sum of their 16-bit words, an odd byte
    padded with zero.  Neither loop overflows or runs on.  Stored in a zeroed
    field at an even offset it makes the whole sum to zero, which is how a
    receiver checks it. *)
Theorem inet_csum_correct (data : list Z) (p len : Z) :
  Forall is_byte data → 0 ≤ p → 0 ≤ len ≤ 65535 → p + len ≤ Z.of_nat (length data) →
  inet_csum data p len = Some (65535 - ones_sum (be_sum (slice data p len))) ∧
  ∀ k, 0 ≤ k → k + 2 ≤ len → Z.Even k → slice data (p + k) 2 = [0; 0] →
    ∃ c, inet_csum data p len = Some c ∧ inet_csum (splice data (p + k) (be16 c)) p len = Some 0.
Proof.
  intros Hb Hp Hlen Hin. pose proof (inet_csum_spec data p len Hb Hp Hlen Hin) as E. split; [done|].
  intros k Hk Hk2 Hev Hz. eexists. split; [exact E|]. by apply (csum_stored data p len k _ Hb Hp Hlen Hin Hk Hk2 Hev Hz E).
Qed.

(** [net_send_ping] refuses to send before the gateway's address is known;
    otherwise it transmits an Ethernet frame from the interface to the gateway
    that holds an IPv4 packet of 84 bytes with the configured addresses and an
    echo request with the sequence number given, both checksums valid. *)
Theorem net_send_ping_correct {N : Type} `{!NetIO N} (n : net) (io : N) (seq : Z) :
  net_wf n → 0 ≤ seq < 65536 →
  net_send_ping n io seq = Some (-1, io) ∧ have_gateway_mac n = false ∨
  have_gateway_mac n = true ∧ ∃ c c',
    net_send_ping n io seq = Some (nio_tx io (eth_header (gateway_mac n) (net_mac n) [0x08; 0x00] ++
      ipv4_header 84 1 (g_my_ip n) (g_gateway_ip n) c ++ echo_request seq c')) ∧
    inet_csum (ipv4_header 84 1 (g_my_ip n) (g_gateway_ip n) c) 0 20 = Some 0 ∧ inet_csum (echo_request seq c') 0 64 = Some 0.
Proof.
  intros Hn Hseq. unfold net_send_ping. destruct (have_gateway_mac n); cbn [negb]; [|by left]. right. split; [done|].
  destruct (ping_frame_spec n seq Hn Hseq) as (c & c' & E & _ & _ & H1 & H2). exists c, c'. split; [by rewrite E|]. split; [exact H1|exact H2].
Qed.

(** C26. A DHCP reply whose options field is the encoding of a list of options is
    read back: the reply counts exactly when the first message-type option is
    the one expected, and then the address, server, mask, router and lease time
    are those of the first options of each kind (of a list of
    routers the first), with the caller's values where an option is
    missing.  What follows the end mark has no influence. *)
Theorem dhcp_parse_correct (pre : list Z) (its : list ditem) (post : list Z) (flen xid msg u : Z) (out : lease) :
  let frame := pre ++ concat (enc_item <$> its) ++ DHCP_OPT_END :: post in
  Forall is_byte frame → length pre = 282%nat → Forall ditem_ok its → 282 ≤ flen ≤ Z.of_nat (length frame) → reply_header frame xid u →
  Z.of_nat (length (concat (enc_item <$> its))) < u - 248 →
  dhcp_parse frame flen xid msg out = Some (reply_of its msg (slice frame 58 4) out).
Proof.
  intros frame Hb Hpre Hits Hfl Hh Hu. rewrite (reply_parsed frame flen xid msg out u Hb Hfl Hh).
  apply (options_parsed pre its post Hpre Hits (u - 8 - 240)). lia.
Qed.

(** C27. [dhcp_parse] stays inside the buffer, and ends, when the UDP length of a
    reply does not lead out of it; a rejected frame leaves the results alone.
    The length is the sender's and is not compared with the bytes received: a
    reply with a longer one and padding up to the end of the buffer is read
    past that end. *)
Theorem dhcp_parse_bounds (frame : list Z) (flen xid msg : Z) (out : lease) :
  Forall is_byte frame → flen ≤ Z.of_nat (length frame) → lease_ok out →
  ((∀ u, reply_header frame xid u → 34 + u ≤ Z.of_nat (length frame)) →
    ∃ ok l, dhcp_parse frame flen xid msg out = Some (ok, l) ∧ lease_ok l ∧ (ok = false → l = out)) ∧
  (∀ u, 282 ≤ flen → reply_header frame xid u → Z.of_nat (length frame) < 34 + u →
    (∀ i x, 282 ≤ i → arr_get frame i = Some x → x = 0) → dhcp_parse frame flen xid msg out = None).
Proof.
  intros Hb Hl Hout. split.
  - intros Hu. destruct (dhcp_parse_cases frame flen xid msg out Hb Hl) as [->|(H282 & u & Hh & Hu16 & ->)]; [by exists false, out|].
    pose proof Hh as (_ & _ & _ & _ & _ & _ & Hu0 & _). specialize (Hu u Hh). apply parse_options_total; [done|lia|lia|done].
  - intros u H282 Hh Hlong Hpad. rewrite (reply_parsed frame flen xid msg out u) by (done || lia). unfold parse_options, dhcp_find_option.
    rewrite (find_option_pads _ _ _ DHCP_OPT_MSGTYPE); [reflexivity|lia|lia|exact Hpad|lia|lia].
Qed.

(** ** Examples *)

Module NetDemo.
Definition host : net :=
  mk_net [0x52; 0x54; 0; 0x12; 0x34; 0x56] true [10; 0; 2; 15] [255; 255; 255; 0] [10; 0; 2; 2] [0; 0; 0; 0] 0 false
    [0x52; 0x55; 10; 0; 2; 2] true.

(** A DHCP server's reply of 282 bytes and its options. *)
Definition reply_head (optlen : Z) : list Z :=
  eth_header [0x52; 0x54; 0; 0x12; 0x34; 0x56] [0x52; 0x55; 10; 0; 2; 2] [0x08; 0x00] ++
  ipv4_header (268 + optlen) 17 [10; 0; 2; 2] [255; 255; 255; 255] 0 ++ (be16 67 ++ be16 68 ++ be16 (248 + optlen) ++ [0; 0]) ++
  [2; 1; 6; 0] ++ be32 DHCP_XID ++ replicate 8 0 ++ [10; 0; 2; 15] ++ replicate 8 0 ++ [0x52; 0x54; 0; 0x12; 0x34; 0x56] ++ replicate 202 0 ++ DHCP_MAGIC.

Definition items (msg : Z) : list ditem :=
  [DOpt DHCP_OPT_MSGTYPE [msg]; DPad; DOpt DHCP_OPT_SERVER_ID [10; 0; 2; 2]; DOpt DHCP_OPT_ROUTER [10; 0; 2; 2; 10; 0; 2; 3];
   DOpt DHCP_OPT_LEASE [0; 1; 0x51; 0x80]].

Definition reply (msg : Z) : list Z := reply_head 27 ++ concat (enc_item <$> items msg) ++ [DHCP_OPT_END].

(** A network where the server answers a DISCOVER and a REQUEST. *)
Definition poll (k : nat) (max : Z) : Z * list Z * nat :=
  if decide (309 ≤ max) then
    match k with
    | 1%nat => (309, reply DHCP_OFFER, 2%nat)
    | 4%nat => (309, reply DHCP_ACK, 5%nat)
    | _ => (0, [], S k)
    end
  else (0, [], S k).

Lemma poll_length io max n bs io' : poll io max = (n, bs, io') → 0 < n → Z.of_nat (length bs) = n ∧ n ≤ max.
Proof.
  unfold poll. case_decide as Hm; [|intros E Hn; injection E as E1 E2 E3; lia].
  destruct io as [|[|[|[|[|]]]]]; intros E Hn; injection E as E1 E2 E3; try lia; subst; (split; [reflexivity|lia]).
Qed.

#[global] Instance server : NetIO nat := {| nio_tx := λ k w, (Z.of_nat (length w), k); nio_poll := poll; nio_poll_length := poll_length |}.

Lemma host_wf : net_wf host.
Proof. constructor; (split; [done|cbn; bytes]). Qed.

Lemma reply_bytes msg : is_byte msg → Forall is_byte (reply msg).
Proof.
  intros Hm. unfold reply. apply Forall_app; split; [|bytes].
  apply Forall_forall. intros x Hx. assert (forallb (λ x, bool_decide (0 ≤ x < 256)) (reply_head 27) = true) as Hb by (vm_compute; reflexivity).
  rewrite forallb_forall in Hb. rewrite list_elem_of_In in Hx. apply Hb, bool_decide_eq_true_1 in Hx. exact Hx.
Qed.

Lemma arrives (io : nat) n bs io' :
  nio_poll io 600 = (n, bs, io') → 0 < n → Forall is_byte bs ∧ ∀ rx u, reply_header (bs ++ rx) DHCP_XID u → 34 + u ≤ 600.
Proof.
  cbn [nio_poll server]. unfold poll. rewrite decide_True by lia. intros E Hn.
  assert (bs = reply DHCP_OFFER ∨ bs = reply DHCP_ACK) as Hbs
    by (destruct io as [|[|[|[|[|]]]]]; injection E as E1 E2 E3; try lia; subst; auto).
  split; [destruct Hbs as [-> | ->]; by apply reply_bytes|]. intros rx u (_ & _ & _ & _ & _ & H & _).
  assert (get16be (bs ++ rx) 38 = Some 275) as E16 by (destruct Hbs as [-> | ->]; vm_compute; reflexivity). rewrite E16 in H. injection H as <-. lia.
Qed.

Lemma items_ok msg : is_byte msg → Forall ditem_ok (items msg).
Proof.
  intros Hm. unfold items. apply Forall_cons_2; [|apply Forall_cons_2; [done|apply Forall_cons_2; [|apply Forall_cons_2; [|apply Forall_cons_2; [|done]]]]];
    (split; [done|]); (split; [cbn; lia|bytes]).
Qed.

Lemma reply_header_ok msg : reply_header (reply msg) DHCP_XID 275.
Proof. unfold reply_header. split_and!; try (vm_compute; reflexivity); [|lia]. exists 0x45. split_and!; vm_compute; reflexivity. Qed.

(** A forged reply: it claims 700 bytes and is padded to the end of the buffer. *)
Definition forged : list Z := reply_head 452 ++ replicate 318 0.
End NetDemo.

Lemma inet_csum_correct_witness :
  inet_csum (ipv4_header 84 1 [10; 0; 2; 15] [10; 0; 2; 2] 0) 0 20 = Some 0x6299 ∧
  ∃ c, inet_csum (ipv4_header 84 1 [10; 0; 2; 15] [10; 0; 2; 2] 0) 0 20 = Some c ∧
    inet_csum (splice (ipv4_header 84 1 [10; 0; 2; 15] [10; 0; 2; 2] 0) (0 + 10) (be16 c)) 0 20 = Some 0.
Proof.
  destruct (inet_csum_correct (ipv4_header 84 1 [10; 0; 2; 15] [10; 0; 2; 2] 0) 0 20) as [E H]; [unfold ipv4_header; bytes|lia|lia|cbn; lia|].
  split; [vm_compute; reflexivity|]. apply (H 10); [lia|lia|by exists 5|reflexivity].
Defined.

Lemma net_send_ping_correct_witness :
  ∃ c c', net_send_ping NetDemo.host 0%nat 1 = Some (nio_tx 0%nat (eth_header [0x52; 0x55; 10; 0; 2; 2] [0x52; 0x54; 0; 0x12; 0x34; 0x56] [0x08; 0x00] ++
    ipv4_header 84 1 [10; 0; 2; 15] [10; 0; 2; 2] c ++ echo_request 1 c')).
Proof.
  destruct (net_send_ping_correct NetDemo.host 0%nat 1 NetDemo.host_wf ltac:(lia)) as [[_ H]|(_ & c & c' & H & _)]; [discriminate H|].
  exists c, c'. exact H.
Defined.

Lemma dhcp_parse_correct_witness :
  dhcp_parse (NetDemo.reply DHCP_OFFER) 309 DHCP_XID DHCP_OFFER no_lease =
    Some (true, mk_lease [10; 0; 2; 15] [10; 0; 2; 2] [255; 255; 255; 0] [10; 0; 2; 2] 86400).
Proof.
  etransitivity; [apply (dhcp_parse_correct (NetDemo.reply_head 27) (NetDemo.items DHCP_OFFER) [] 309 DHCP_XID DHCP_OFFER 275 no_lease)|];
    [by apply (NetDemo.reply_bytes DHCP_OFFER)|reflexivity|by apply NetDemo.items_ok|vm_compute; split; discriminate
    |apply NetDemo.reply_header_ok|vm_compute; reflexivity|vm_compute; reflexivity].
Defined.

Lemma dhcp_parse_bounds_witness : dhcp_parse NetDemo.forged 600 DHCP_XID DHCP_OFFER no_lease = None.
Proof.
  destruct (dhcp_parse_bounds NetDemo.forged 600 DHCP_XID DHCP_OFFER no_lease) as [_ H]; [|vm_compute; discriminate|exact no_lease_ok|].
  - unfold NetDemo.forged. apply Forall_app; split; [|by apply Forall_replicate].
    apply Forall_forall. intros x Hx. assert (forallb (λ x, bool_decide (0 ≤ x < 256)) (NetDemo.reply_head 452) = true) as Hb by (vm_compute; reflexivity).
    rewrite forallb_forall in Hb. rewrite list_elem_of_In in Hx. apply Hb, bool_decide_eq_true_1 in Hx. exact Hx.
  - apply (H 700); [lia| |vm_compute; reflexivity|].
    + unfold reply_header. split_and!; try (vm_compute; reflexivity); [|lia]. exists 0x45. split_and!; vm_compute; reflexivity.
    + intros i x Hi Hx. unfold arr_get in Hx. rewrite decide_True in Hx by lia. unfold NetDemo.forged in Hx.
      rewrite lookup_app_r in Hx by (change (length (NetDemo.reply_head 452)) with 282%nat; lia). by apply lookup_replicate in Hx as [-> _].
Defined.

Lemma dhcp_acquire_correct_witness :
  ∃ r n' io', dhcp_acquire NetDemo.host 0%nat (replicate 304 0) (replicate 346 0) (replicate 600 0) = Some (r, n', io') ∧
    dhcp_outcome NetDemo.host 0%nat (replicate 600 0) r n' io'.
Proof.
  apply (dhcp_acquire_correct NetDemo.arrives); [exact NetDemo.host_wf|reflexivity|reflexivity|by apply Forall_replicate|reflexivity|by apply Forall_replicate].
Defined.

(** The server's lease is adopted. *)
Example dhcp_demo :
  (λ r, (fst (fst r), g_my_ip (snd (fst r)), g_lease_secs (snd (fst r)))) <$>
    dhcp_acquire NetDemo.host 0%nat (replicate 304 0) (replicate 346 0) (replicate 600 0) = Some (0, [10; 0; 2; 15], 86400).
Proof. vm_compute. reflexivity. Qed.
