(* ===== verification/NetRx.v ===== *)
(** The receive ring of [src/src/pci/virtio/net/net.c]: eight buffers posted on a
    virtqueue, drained one frame at a time and posted again.

    The device is the class [RxDevice]: it fills the posted buffers in the order
    they were posted.  VIRTIO 1.x promises this only of a device that offers
    VIRTIO_F_IN_ORDER, which the driver neither asks for nor needs to check: it
    posts a drained buffer under the descriptor after the last one it used, which
    is free only if the device works in order.  Frames may arrive between any two
    polls; the ring then is a queue of at most eight frames ([rx_history]).  The
    doorbell only tells the device to look and has no effect of its own here;
    the destination of a poll is not null. *)
From S2P Require Import Prelude Pmm Virtio.

(** ** The receive ring *)

Definition VIRTIO_NET_HDR_LEN : Z := 12.
Definition NET_RX_BUF_COUNT : Z := 8.
Definition NET_RX_BUF_SIZE : Z := 1600.

Record rxst := mk_rx {
  rx_vq : virtqueue;
  rx_mem : gmap Z Z;
  rx_bufs : Z;
  rx_desc_to_buf : list Z;
  rx_initialized : bool;
  rx_packets : Z;
}.

(** The physical address of [rx_bufs[i]]. *)
Definition buf_pa (st : rxst) (i : Z) : Z := VIRT_TO_PHYS (rx_bufs st + NET_RX_BUF_SIZE * i).

Definition net_rx_submit_buf (st : rxst) (buf_idx : Z) : option rxst :=
  let desc_id := vq_free_head (rx_vq st) in
  vq ← virtqueue_submit (rx_vq st) (buf_pa st buf_idx) NET_RX_BUF_SIZE VIRTQ_DESC_F_WRITE;
  tab ← arr_set (rx_desc_to_buf st) desc_id buf_idx;
  Some (mk_rx vq (rx_mem st) (rx_bufs st) tab (rx_initialized st) (rx_packets st)).

Fixpoint submit_bufs (st : rxst) (i : Z) (n : nat) : option rxst :=
  match n with
  | O => Some st
  | S n' => st' ← net_rx_submit_buf st i; submit_bufs st' (i + 1) n'
  end.

Definition net_rx_init (st : rxst) : option rxst :=
  st' ← submit_bufs (mk_rx (rx_vq st) (rx_mem st) (rx_bufs st) (replicate (Z.to_nat VIRTQ_MAX_SIZE) (-1)) (rx_initialized st) (rx_packets st))
          0 (Z.to_nat NET_RX_BUF_COUNT);
  Some (mk_rx (rx_vq st') (rx_mem st') (rx_bufs st') (rx_desc_to_buf st') true (rx_packets st')).

(** What a poll takes out of the used ring. *)
Definition take_used (vq : virtqueue) : virtqueue :=
  mk_vq (vq_size vq) (vq_free_head vq) (wrap16 (vq_last_used vq + 1)) (vq_desc vq) (avail_idx vq) (avail_ring vq)
    (used_idx vq) (used_ring vq).

(** [net_rx_poll(dst, max_len)]: the result, what was stored at [dst], and the
    state; copying past the end of the buffer is a fault. *)
Definition net_rx_poll (st : rxst) (max_len : Z) : option (Z * list Z * rxst) :=
  if negb (rx_initialized st) then Some (-1, [], st)
  else if decide (vq_last_used (rx_vq st) = used_idx (rx_vq st)) then Some (0, [], st)
  else
    slot ← modsize (rx_vq st) (vq_last_used (rx_vq st));
    '(desc_id, total_len) ← arr_get (used_ring (rx_vq st)) slot;
    let st := mk_rx (take_used (rx_vq st)) (rx_mem st) (rx_bufs st) (rx_desc_to_buf st) (rx_initialized st) (rx_packets st) in
    let bogus := Some (-1, [], st) in
    if decide (VIRTQ_MAX_SIZE ≤ desc_id) then bogus
    else
      buf_idx ← arr_get (rx_desc_to_buf st) desc_id;
      if decide (buf_idx < 0) then bogus
      else
        tab ← arr_set (rx_desc_to_buf st) desc_id (-1);
        let st := mk_rx (rx_vq st) (rx_mem st) (rx_bufs st) tab (rx_initialized st) (rx_packets st) in
        '(copied, bs) ← (if decide (VIRTIO_NET_HDR_LEN ≤ total_len) then
                           let frame_len := sub32 total_len VIRTIO_NET_HDR_LEN in
                           let to_copy := if decide (frame_len < max_len) then frame_len else max_len in
                           if decide (VIRTIO_NET_HDR_LEN + to_copy ≤ NET_RX_BUF_SIZE) then
                             Some (to_int to_copy, mem_read (rx_mem st) (buf_pa st buf_idx + VIRTIO_NET_HDR_LEN) to_copy)
                           else None
                         else Some (0, []));
        st ← net_rx_submit_buf st buf_idx;
        Some (copied, bs,
              mk_rx (rx_vq st) (rx_mem st) (rx_bufs st) (rx_desc_to_buf st) (rx_initialized st)
                (if decide (0 < copied) then rx_packets st +w 1 else rx_packets st)).

(** ** The device and the queue it implements *)

(** A receiving device that works in order.  It has taken the buffers up to the
    entry [nd_next] of the available ring; an arriving frame goes into the buffer
    of that entry, behind a header of its own, and is lost when no buffer is
    posted. *)
Class RxDevice (N : Type) := {
  nd_next : N → Z;
  nd_arrive : N → virtqueue → gmap Z Z → list Z → option (N * virtqueue * gmap Z Z);
  nd_arrive_lost n vq mem frame :
    nd_next n = avail_idx vq → ∃ n', nd_arrive n vq mem frame = Some (n', vq, mem) ∧ nd_next n' = nd_next n;
  nd_arrive_ok n vq mem frame head d :
    nd_next n ≠ avail_idx vq → arr_get (avail_ring vq) (nd_next n mod vq_size vq) = Some head → arr_get (vq_desc vq) head = Some d →
    VIRTIO_NET_HDR_LEN + Z.of_nat (length frame) ≤ d_len d →
    ∃ n' hdr, length hdr = 12%nat ∧ nd_next n' = wrap16 (nd_next n + 1) ∧
      nd_arrive n vq mem frame =
        Some (n', put_used vq head (VIRTIO_NET_HDR_LEN + Z.of_nat (length frame)), mem_write mem (d_addr d) (hdr ++ frame));
}.

Record rxsys (N : Type) := mk_rs { rs_st : rxst; rs_dev : N }.
Arguments mk_rs {N}.
Arguments rs_st {N}.
Arguments rs_dev {N}.

Inductive rxop := RxArrive (frame : list Z) | RxPoll (max : Z).

Section System.
Context {N : Type} `{!RxDevice N}.

Definition rs_next (s : rxsys N) : Z := nd_next (rs_dev s).

Definition rx_arrive (s : rxsys N) (frame : list Z) : option (rxsys N) :=
  let st := rs_st s in
  '(n, vq, mem) ← nd_arrive (rs_dev s) (rx_vq st) (rx_mem st) frame;
  Some (mk_rs (mk_rx vq mem (rx_bufs st) (rx_desc_to_buf st) (rx_initialized st) (rx_packets st)) n).

(** What the polls of a history return. *)
Fixpoint rx_run (s : rxsys N) (ops : list rxop) : option (list (Z * list Z) * rxsys N) :=
  match ops with
  | [] => Some ([], s)
  | RxArrive frame :: ops' => s' ← rx_arrive s frame; rx_run s' ops'
  | RxPoll max :: ops' =>
      '(n, bs, st) ← net_rx_poll (rs_st s) max;
      '(rs, s') ← rx_run (mk_rs st (rs_dev s)) ops';
      Some ((n, bs) :: rs, s')
  end.
End System.

(** A queue of at most eight frames. *)
Fixpoint fifo_run (q : list (list Z)) (ops : list rxop) : list (Z * list Z) :=
  match ops with
  | [] => []
  | RxArrive frame :: ops' => fifo_run (if decide (length q = 8%nat) then q else q ++ [frame]) ops'
  | RxPoll max :: ops' =>
      match q with
      | [] => (0, []) :: fifo_run [] ops'
      | f :: q' => (Z.min (Z.of_nat (length f)) max, take (Z.to_nat max) f) :: fifo_run q' ops'
      end
  end.

Definition rxop_ok (o : rxop) : Prop :=
  match o with
  | RxArrive frame => (length frame ≤ 1588)%nat
  | RxPoll max => 0 ≤ max < 2 ^ 31
  end.

Section Ring.
Context {N : Type} `{!RxDevice N}.
Implicit Types s : rxsys N.

(** Entry [k] of the ring's history uses slot and descriptor [k mod z] and
    buffer [k mod 8]. *)
Record rx_inv (z : Z) s (q : list (list Z)) : Prop := {
  ri_z : z = 8 ∨ z = 16;
  ri_size : vq_size (rx_vq (rs_st s)) = z;
  ri_init : rx_initialized (rs_st s) = true;
  ri_bufs : ∀ i, 0 ≤ i < 8 → buf_pa (rs_st s) i = buf_pa (rs_st s) 0 + 1600 * i;
  ri_q : (length q ≤ 8)%nat;
  ri_last : 0 ≤ vq_last_used (rx_vq (rs_st s)) < 2 ^ 16;
  ri_used : used_idx (rx_vq (rs_st s)) = wrap16 (vq_last_used (rx_vq (rs_st s)) + Z.of_nat (length q));
  ri_next : rs_next s = used_idx (rx_vq (rs_st s));
  ri_avail : avail_idx (rx_vq (rs_st s)) = wrap16 (vq_last_used (rx_vq (rs_st s)) + 8);
  ri_free : vq_free_head (rx_vq (rs_st s)) = (vq_last_used (rx_vq (rs_st s)) + 8) mod z;
  ri_len : length (vq_desc (rx_vq (rs_st s))) = 16%nat ∧ length (avail_ring (rx_vq (rs_st s))) = 16%nat ∧
    length (used_ring (rx_vq (rs_st s))) = 16%nat ∧ length (rx_desc_to_buf (rs_st s)) = 16%nat;
  ri_posted : ∀ j, 0 ≤ j < 8 → let k := vq_last_used (rx_vq (rs_st s)) + j in
    arr_get (avail_ring (rx_vq (rs_st s))) (k mod z) = Some (k mod z) ∧
    arr_get (vq_desc (rx_vq (rs_st s))) (k mod z) = Some (mk_desc (buf_pa (rs_st s) (k mod 8)) NET_RX_BUF_SIZE VIRTQ_DESC_F_WRITE 0) ∧
    arr_get (rx_desc_to_buf (rs_st s)) (k mod z) = Some (k mod 8);
  ri_filled : ∀ (j : nat) f, q !! j = Some f → let k := vq_last_used (rx_vq (rs_st s)) + Z.of_nat j in
    arr_get (used_ring (rx_vq (rs_st s))) (k mod z) = Some (k mod z, VIRTIO_NET_HDR_LEN + Z.of_nat (length f)) ∧
    mem_read (rx_mem (rs_st s)) (buf_pa (rs_st s) (k mod 8) + VIRTIO_NET_HDR_LEN) (Z.of_nat (length f)) = f ∧ (length f ≤ 1588)%nat;
}.

Lemma wrap16_mod z x : z = 8 ∨ z = 16 → wrap16 x mod z = x mod z.
Proof. unfold wrap16. intros [-> | ->]; (rewrite Z.mod_mod_divide; [done|]); [by exists 8192|by exists 4096]. Qed.

Lemma wrap16_shift z x y : z = 8 ∨ z = 16 → (wrap16 x + y) mod z = (x + y) mod z.
Proof. intros Hz. rewrite <- Zplus_mod_idemp_l, wrap16_mod, Zplus_mod_idemp_l by done. done. Qed.

Lemma wrap16_wrap16 x y : wrap16 (wrap16 x + y) = wrap16 (x + y).
Proof. unfold wrap16. by rewrite Zplus_mod_idemp_l. Qed.

Lemma wrap16_inj a j k : 0 ≤ j < 2 ^ 16 → 0 ≤ k < 2 ^ 16 → wrap16 (a + j) = wrap16 (a + k) → j = k.
Proof. intros Hj Hk H. unfold wrap16 in H. by apply (mod_distinct (2 ^ 16) a). Qed.

(** A buffer's bytes survive a write to another buffer. *)
Lemma other_buffer st mem i i' (hdr f g : list Z) :
  (∀ i, 0 ≤ i < 8 → buf_pa st i = buf_pa st 0 + 1600 * i) → 0 ≤ i < 8 → 0 ≤ i' < 8 → i ≠ i' →
  length hdr = 12%nat → (length f ≤ 1588)%nat → (length g ≤ 1588)%nat →
  mem_read (mem_write mem (buf_pa st i) (hdr ++ f)) (buf_pa st i' + VIRTIO_NET_HDR_LEN) (Z.of_nat (length g)) =
    mem_read mem (buf_pa st i' + VIRTIO_NET_HDR_LEN) (Z.of_nat (length g)).
Proof.
  intros Hb Hi Hi' Hne Hh Hf Hg. apply mem_read_ext. unfold VIRTIO_NET_HDR_LEN. intros x Hx. rewrite (Hb i), (Hb i') in * by done.
  apply mem_write_outside. rewrite length_app, Hh. lia.
Qed.

Lemma frame_read mem pa hdr f : length hdr = 12%nat →
  mem_read (mem_write mem pa (hdr ++ f)) (pa + VIRTIO_NET_HDR_LEN) (Z.of_nat (length f)) = f.
Proof.
  intros Hh. unfold mem_read, VIRTIO_NET_HDR_LEN. apply list_eq. intros i. rewrite list_lookup_fmap.
  destruct (decide (i < length f)%nat) as [Hi|Hi].
  - rewrite (proj2 (lookup_seqZ _ _ _ (Z.of_nat i))) by lia. cbn. rewrite mem_write_lookup, length_app, decide_True by lia.
    replace (Z.to_nat (pa + 12 + Z.of_nat i - pa)) with (length hdr + i)%nat by lia. rewrite lookup_app_r by lia.
    replace (length hdr + i - length hdr)%nat with i by lia. destruct (lookup_lt_is_Some_2 f i Hi) as [b ->]. done.
  - rewrite (lookup_ge_None_2 f) by lia. apply fmap_None. apply lookup_ge_None_2. rewrite length_seqZ. lia.
Qed.

Lemma rx_arrive_ok z s q frame :
  rx_inv z s q → (length frame ≤ 1588)%nat →
  ∃ s', rx_arrive s frame = Some s' ∧ rx_inv z s' (if decide (length q = 8%nat) then q else q ++ [frame]).
Proof.
  intros Hinv Hf. pose proof Hinv as [Hz Hsz Hini Hb Hq Ha Hu Hn Hav Hfr (L1 & L2 & L3 & L4) Hp Hfi]. unfold rx_arrive. cbv zeta.
  set (a := vq_last_used (rx_vq (rs_st s))) in *. unfold rs_next in Hn.
  destruct (decide (length q = 8%nat)) as [H8|H8].
  { destruct (nd_arrive_lost (rs_dev s) (rx_vq (rs_st s)) (rx_mem (rs_st s)) frame) as (n' & -> & En); [by rewrite Hn, Hu, Hav, H8|]. cbn [mbind option_bind].
    eexists. split; [reflexivity|]. constructor; try done. unfold rs_next. cbn. by rewrite En. }
  destruct (Hp (Z.of_nat (length q))) as (E1 & E2 & E3); [lia|]. set (k := a + Z.of_nat (length q)) in *.
  destruct (nd_arrive_ok (rs_dev s) (rx_vq (rs_st s)) (rx_mem (rs_st s)) frame (k mod z) (mk_desc (buf_pa (rs_st s) (k mod 8)) NET_RX_BUF_SIZE VIRTQ_DESC_F_WRITE 0))
    as (n' & hdr & Hh & En & ->).
  { rewrite Hn, Hu, Hav. intros E. apply wrap16_inj in E; lia. }
  { rewrite Hn, Hu, Hsz. by rewrite wrap16_mod. }
  { exact E2. }
  { cbn. unfold VIRTIO_NET_HDR_LEN, NET_RX_BUF_SIZE. lia. }
  cbn [mbind option_bind d_addr]. eexists. split; [reflexivity|]. rewrite Hn in En.
  assert (0 ≤ k mod z < z ∧ z ≤ 16) as [Hkz Hz16] by (destruct Hz as [-> | ->]; (split; [apply Z.mod_pos_bound|]); lia).
  assert (used_idx (rx_vq (rs_st s)) mod vq_size (rx_vq (rs_st s)) = k mod z) as Eslot by (rewrite Hu, Hsz; by apply wrap16_mod).
  pose proof (Z.mod_pos_bound k 8 ltac:(lia)) as Hk8.
  constructor; unfold rs_next; cbn [rs_st rs_dev rx_vq rx_mem rx_bufs rx_desc_to_buf rx_initialized put_used vq_size vq_last_used used_idx avail_idx vq_free_head
    vq_desc avail_ring used_ring]; try done.
  - rewrite length_app. cbn. lia.
  - rewrite Hu, wrap16_wrap16, length_app. f_equal. cbn. unfold a. lia.
  - rewrite length_insert. done.
  - intros j g Hj. rewrite Eslot. fold a. apply lookup_app_Some in Hj as [Hj|[Hlen Hj]].
    + destruct (Hfi j g Hj) as (F1 & F2 & F3). pose proof (lookup_lt_Some _ _ _ Hj). split_and!; [..|done].
      * rewrite arr_get_insert; [|lia|apply Z.mod_pos_bound; destruct Hz; lia]. rewrite decide_False; [exact F1|].
        intros E. apply mod_distinct in E; destruct Hz; lia.
      * rewrite <- F2 at 2. apply (other_buffer (rs_st s)); try done; [apply Z.mod_pos_bound; lia|]. intros E. apply mod_distinct in E; lia.
    + assert (j = length q) as -> by (apply lookup_lt_Some in Hj; cbn in Hj; lia). rewrite Nat.sub_diag in Hj. injection Hj as <-. fold k. split_and!; [..|done].
      * by rewrite arr_get_insert, decide_True by lia.
      * by apply frame_read.
Qed.

(** Posting buffer [b] as entry [k]. *)
Lemma submit_at z st k b :
  z = 8 ∨ z = 16 → vq_size (rx_vq st) = z → vq_free_head (rx_vq st) = k mod z → avail_idx (rx_vq st) = wrap16 k →
  length (vq_desc (rx_vq st)) = 16%nat → length (avail_ring (rx_vq st)) = 16%nat → length (rx_desc_to_buf st) = 16%nat →
  net_rx_submit_buf st b = Some (mk_rx
    (mk_vq z ((k + 1) mod z) (vq_last_used (rx_vq st))
      (<[Z.to_nat (k mod z) := mk_desc (buf_pa st b) NET_RX_BUF_SIZE VIRTQ_DESC_F_WRITE 0]> (vq_desc (rx_vq st)))
      (wrap16 (k + 1)) (<[Z.to_nat (k mod z) := k mod z]> (avail_ring (rx_vq st))) (used_idx (rx_vq st)) (used_ring (rx_vq st)))
    (rx_mem st) (rx_bufs st) (<[Z.to_nat (k mod z) := b]> (rx_desc_to_buf st)) (rx_initialized st) (rx_packets st)).
Proof.
  intros Hz Hsz Hfr Hav L1 L2 L3. unfold net_rx_submit_buf, virtqueue_submit, modsize. rewrite Hsz, Hfr. rewrite decide_False by lia.
  assert (0 ≤ k mod z < z ∧ z ≤ 16) as [Hk Hz16] by (destruct Hz as [-> | ->]; (split; [apply Z.mod_pos_bound|]); lia).
  cbn [mbind option_bind]. rewrite arr_set_ok by lia. cbn [mbind option_bind]. unfold publish, modsize. cbn [with_desc vq_size avail_idx avail_ring].
  rewrite Hsz, Hav. rewrite decide_False by lia. cbn [mbind option_bind]. rewrite wrap16_mod by done. rewrite arr_set_ok by lia. cbn [mbind option_bind].
  rewrite arr_set_ok by lia. cbn [mbind option_bind]. by rewrite wrap16_wrap16, Zplus_mod_idemp_l.
Qed.

Lemma mem_read_take mem pa (f : list Z) n : 0 ≤ n ≤ Z.of_nat (length f) → mem_read mem pa (Z.of_nat (length f)) = f → mem_read mem pa n = take (Z.to_nat n) f.
Proof.
  intros Hn E. transitivity (take (Z.to_nat n) (mem_read mem pa (Z.of_nat (length f)))); [|by rewrite E]. unfold mem_read. rewrite <- fmap_take. f_equal. apply list_eq. intros i. destruct (decide (i < Z.to_nat n)%nat).
  - rewrite lookup_take_lt by lia. rewrite !(proj2 (lookup_seqZ _ _ _ (Z.of_nat i))) by lia. done.
  - rewrite !lookup_ge_None_2; [done|rewrite length_take; lia|rewrite length_seqZ; lia].
Qed.

Lemma rx_poll_empty z s max : rx_inv z s [] → net_rx_poll (rs_st s) max = Some (0, [], rs_st s).
Proof.
  intros [Hz Hsz Hini Hb Hq Ha Hu Hn Hav Hfr HL Hp Hfi]. unfold net_rx_poll. rewrite Hini. cbn [negb]. rewrite Hu. cbn [length].
  rewrite decide_True; [done|]. unfold wrap16. rewrite Z.add_0_r. by rewrite Z.mod_small.
Qed.

(** The state after a poll that drained entry [a] and posted its buffer again. *)
Definition reposted (z : Z) (st : rxst) (packets : Z) : rxst :=
  let vq := rx_vq st in
  let a := vq_last_used vq in
  mk_rx (mk_vq z ((a + 9) mod z) (wrap16 (a + 1))
           (<[Z.to_nat ((a + 8) mod z) := mk_desc (buf_pa st (a mod 8)) NET_RX_BUF_SIZE VIRTQ_DESC_F_WRITE 0]> (vq_desc vq))
           (wrap16 (a + 9)) (<[Z.to_nat ((a + 8) mod z) := (a + 8) mod z]> (avail_ring vq)) (used_idx vq) (used_ring vq))
    (rx_mem st) (rx_bufs st) (<[Z.to_nat ((a + 8) mod z) := a mod 8]> (<[Z.to_nat (a mod z) := -1]> (rx_desc_to_buf st)))
    true packets.

Lemma rx_poll_frame z s f q max :
  rx_inv z s (f :: q) → 0 ≤ max < 2 ^ 31 →
  ∃ packets, net_rx_poll (rs_st s) max = Some (Z.min (Z.of_nat (length f)) max, take (Z.to_nat max) f, reposted z (rs_st s) packets).
Proof.
  intros [Hz Hsz Hini Hb Hq Ha Hu Hn Hav Hfr (L1 & L2 & L3 & L4) Hp Hfi] Hmax. unfold net_rx_poll. rewrite Hini. cbn [negb].
  set (a := vq_last_used (rx_vq (rs_st s))) in *. cbn [length] in Hq, Hu.
  rewrite decide_False by (rewrite Hu; intros E; rewrite <- (Z.add_0_r a) in E at 1; rewrite <- (Z.mod_small (a + 0) (2 ^ 16)) in E by lia; apply wrap16_inj in E; lia).
  unfold modsize. rewrite Hsz, decide_False by lia. cbn [mbind option_bind].
  destruct (Hfi 0%nat f eq_refl) as (F1 & F2 & F3). destruct (Hp 0 ltac:(lia)) as (P1 & P2 & P3). fold a in F1, F2, P1, P2, P3. cbn [Z.of_nat] in F1, F2.
  rewrite Z.add_0_r in *. rewrite F1. cbn [mbind option_bind rx_desc_to_buf].
  assert (0 ≤ a mod z < z ∧ z ≤ 16) as [Hk Hz16] by (destruct Hz as [-> | ->]; (split; [apply Z.mod_pos_bound|]); lia).
  unfold VIRTQ_MAX_SIZE. rewrite decide_False by lia. rewrite P3. cbn [mbind option_bind]. pose proof (Z.mod_pos_bound a 8 ltac:(lia)) as Ha8.
  rewrite decide_False by lia. rewrite arr_set_ok by lia. cbn [mbind option_bind rx_vq rx_mem rx_bufs rx_desc_to_buf rx_initialized rx_packets].
  rewrite decide_True by lia. unfold sub32. rewrite wrap32_small by (unfold VIRTIO_NET_HDR_LEN; lia).
  replace (VIRTIO_NET_HDR_LEN + Z.of_nat (length f) - VIRTIO_NET_HDR_LEN) with (Z.of_nat (length f)) by lia.
  assert ((if decide (Z.of_nat (length f) < max) then Z.of_nat (length f) else max) = Z.min (Z.of_nat (length f)) max) as -> by (case_decide; lia).
  rewrite decide_True by (unfold VIRTIO_NET_HDR_LEN, NET_RX_BUF_SIZE; lia). cbn [mbind option_bind].
  change (buf_pa (mk_rx _ _ (rx_bufs (rs_st s)) _ _ _) (a mod 8)) with (buf_pa (rs_st s) (a mod 8)).
  rewrite (mem_read_take _ _ f) by (lia || exact F2). rewrite to_int_small by lia.
  set (st1 := mk_rx (take_used (rx_vq (rs_st s))) _ _ _ _ _).
  rewrite (submit_at z st1 (a + 8)) by (done || (cbn; rewrite ?length_insert; done)). cbn [mbind option_bind].
  rewrite <- !Z.add_assoc. change (8 + 1) with 9.
  assert (take (Z.to_nat (Z.min (Z.of_nat (length f)) max)) f = take (Z.to_nat max) f) as ->.
  { destruct (decide (Z.of_nat (length f) ≤ max)); [by rewrite !take_ge by lia|f_equal; lia]. }
  eexists. reflexivity.
Qed.

Lemma reposted_inv z s f q packets : rx_inv z s (f :: q) → rx_inv z (mk_rs (reposted z (rs_st s) packets) (rs_dev s)) q.
Proof.
  intros [Hz Hsz Hini Hb Hq Ha Hu Hn Hav Hfr (L1 & L2 & L3 & L4) Hp Hfi]. cbn [length] in Hq, Hu. unfold reposted.
  set (a := vq_last_used (rx_vq (rs_st s))) in *.
  assert (0 ≤ a mod z < z ∧ z ≤ 16) as [Hk Hz16] by (destruct Hz as [-> | ->]; (split; [apply Z.mod_pos_bound|]); lia).
  constructor; unfold rs_next; cbn [rs_st rs_dev rx_vq rx_mem rx_bufs rx_desc_to_buf rx_initialized vq_size vq_last_used used_idx avail_idx vq_free_head
    vq_desc avail_ring used_ring]; try done.
  - lia.
  - by apply Z.mod_pos_bound.
  - rewrite Hu, wrap16_wrap16. f_equal. lia.
  - rewrite wrap16_wrap16. f_equal. lia.
  - rewrite wrap16_shift by done. f_equal. lia.
  - by rewrite !length_insert.
  - change (buf_pa (mk_rx _ _ _ _ _ _)) with (buf_pa (rs_st s)). intros j Hj. rewrite !wrap16_shift by (done || by left).
    assert (0 ≤ (a + 8) mod z < z ∧ 0 ≤ (a + 1 + j) mod z) as [Hk8 Hkj] by (split; [|]; destruct Hz as [-> | ->]; apply Z.mod_pos_bound; lia).
    rewrite !arr_get_insert by (rewrite ?length_insert; lia). destruct (decide (j = 7)) as [->|H7].
    + replace (a + 1 + 7) with (a + 8) by lia. rewrite !decide_True by done.
      assert ((a + 8) mod 8 = a mod 8) as -> by (apply (Z.mod_add a 1 8); lia). done.
    + assert ((a + 1 + j) mod z ≠ (a + 8) mod z ∧ (a + 1 + j) mod z ≠ a mod z) as [N8 N0].
      { split; intros E.
        - replace (a + 8) with (a + 1 + 7) in E by lia. apply mod_distinct in E; destruct Hz; lia.
        - rewrite <- (Z.add_0_r a) in E at 2. rewrite <- Z.add_assoc in E. apply mod_distinct in E; destruct Hz; lia. }
      rewrite !decide_False by done. destruct (Hp (1 + j) ltac:(lia)) as (Q1 & Q2 & Q3). fold a in Q1, Q2, Q3. rewrite Z.add_assoc in *. done.
  - change (buf_pa (mk_rx _ _ _ _ _ _)) with (buf_pa (rs_st s)). intros j g Hj. rewrite !wrap16_shift by (done || by left).
    destruct (Hfi (S j) g Hj) as (G1 & G2 & G3). fold a in G1, G2. replace (a + 1 + Z.of_nat j) with (a + Z.of_nat (S j)) by lia. done.
Qed.

(** The first [i] buffers have been posted on a fresh queue. *)
Record posting (z : Z) (st : rxst) (i : Z) : Prop := {
  po_size : vq_size (rx_vq st) = z;
  po_last : vq_last_used (rx_vq st) = 0;
  po_used : used_idx (rx_vq st) = 0;
  po_free : vq_free_head (rx_vq st) = i mod z;
  po_avail : avail_idx (rx_vq st) = wrap16 i;
  po_len : length (vq_desc (rx_vq st)) = 16%nat ∧ length (avail_ring (rx_vq st)) = 16%nat ∧
    length (used_ring (rx_vq st)) = 16%nat ∧ length (rx_desc_to_buf st) = 16%nat;
  po_posted : ∀ j, 0 ≤ j < i → arr_get (avail_ring (rx_vq st)) j = Some j ∧
    arr_get (vq_desc (rx_vq st)) j = Some (mk_desc (buf_pa st j) NET_RX_BUF_SIZE VIRTQ_DESC_F_WRITE 0) ∧ arr_get (rx_desc_to_buf st) j = Some j;
}.

Lemma submit_bufs_ok z n : z = 8 ∨ z = 16 → ∀ st i, posting z st i → 0 ≤ i → i + Z.of_nat n = 8 →
  ∃ st', submit_bufs st i n = Some st' ∧ posting z st' 8 ∧ rx_bufs st' = rx_bufs st.
Proof.
  intros Hz. induction n as [|n IH]; intros st i Hpo Hi Hn; cbn [submit_bufs].
  - assert (i = 8) as -> by lia. by exists st.
  - destruct Hpo as [Hsz Hla Hus Hfr Hav (L1 & L2 & L3 & L4) Hp]. rewrite (submit_at z st i i) by done. cbn [mbind option_bind].
    assert (i mod z = i) as Ei by (apply Z.mod_small; lia). rewrite Ei. match goal with |- context [submit_bufs ?x _ _] => set (st1 := x) end.
    destruct (IH st1 (i + 1)) as (st' & E & Hpo' & Hb); [|lia|lia|by exists st'].
    constructor; cbn [st1 rx_vq vq_size vq_last_used used_idx vq_free_head avail_idx vq_desc avail_ring used_ring rx_desc_to_buf]; try done.
    + by rewrite !length_insert.
    + intros j Hj. change (buf_pa st1 j) with (buf_pa st j). rewrite !arr_get_insert by (rewrite ?length_insert; lia).
      destruct (decide (j = i)) as [->|Hne]; [done|]. apply Hp. lia.
Qed.

(** Eight buffers on a queue fresh from [virtqueue_setup] are an empty ring. *)
Lemma net_rx_init_ok (n : N) max_size desc avail used vq mem bufs tab ini packets :
  nd_next n = 0 → max_size = 8 ∨ 16 ≤ max_size → length (vq_desc vq) = 16%nat → KERNEL_VA_OFFSET ≤ bufs → bufs + 12800 ≤ 2 ^ 64 →
  let '(_, vq', _) := virtqueue_setup 0 max_size desc avail used vq in
  ∃ st, net_rx_init (mk_rx vq' mem bufs tab ini packets) = Some st ∧ rx_inv (Z.min max_size 16) (mk_rs st n) [].
Proof.
  intros Hn0 Hm Hl Hb1 Hb2. unfold virtqueue_setup. rewrite decide_False by lia. cbv zeta.
  assert ((if decide (VIRTQ_MAX_SIZE > max_size) then max_size else VIRTQ_MAX_SIZE) = Z.min max_size 16) as -> by (unfold VIRTQ_MAX_SIZE; case_decide; lia).
  set (z := Z.min max_size 16). assert (z = 8 ∨ z = 16) as Hz by lia. clearbody z. unfold net_rx_init.
  cbn [rx_vq rx_mem rx_bufs rx_initialized rx_packets]. match goal with |- context [submit_bufs ?x _ _] => set (st0 := x) end.
  destruct (submit_bufs_ok z 8 Hz st0 0) as (st & E & [Hsz Hla Hus Hfr Hav HL Hp] & Hbufs); [|lia|lia|].
  { constructor; cbn [st0 rx_vq vq_size vq_last_used used_idx vq_free_head avail_idx vq_desc avail_ring used_ring rx_desc_to_buf];
      [done|done|done|by rewrite Z.mod_0_l by lia|done| |lia].
    split_and!; [|by rewrite length_replicate..]. rewrite length_app, length_replicate, length_drop. lia. }
  change (Z.to_nat NET_RX_BUF_COUNT) with 8%nat. rewrite E. cbn [mbind option_bind]. eexists. split; [reflexivity|].
  constructor; unfold rs_next; cbn [rs_st rs_dev rx_vq rx_mem rx_bufs rx_desc_to_buf rx_initialized length]; rewrite ?Hla, ?Hus; try done; try lia.
  - intros i Hi. unfold buf_pa. cbn [rx_bufs]. rewrite Hbufs. cbn [st0 rx_bufs]. unfold VIRT_TO_PHYS, NET_RX_BUF_SIZE, KERNEL_VA_OFFSET in *.
    rewrite !sub64_small by lia. lia.
  - intros j Hj. rewrite Z.add_0_l, !Z.mod_small by lia. change (buf_pa (mk_rx _ _ _ _ _ _)) with (buf_pa st). by apply Hp.
Qed.

End Ring.

(** C29. Over any device that fills the posted buffers in order, frames of at most
    1588 bytes may arrive between any two polls, in any number.  On a queue of 8
    or 16 entries no poll after [net_rx_init] faults or reports an error, and the
    polls return what a queue of eight frames would: the frames in the order they
    arrived, each cut to the length asked for, 0 when there is none; a frame is
    lost only when eight are waiting.  Every buffer goes back to the device, so
    this holds for ever, also over the wrap of the 16-bit indices. *)
Theorem rx_history {N : Type} `{!RxDevice N} (z : Z) (s : rxsys N) (q : list (list Z)) (ops : list rxop) :
  rx_inv z s q → Forall rxop_ok ops → fst <$> rx_run s ops = Some (fifo_run q ops).
Proof.
  intros Hinv Hops. revert s q Hinv. induction Hops as [|[frame|max] ops Hop _ IH]; intros s q Hinv; cbn [rx_run fifo_run]; [done|..].
  - destruct (rx_arrive_ok z s q frame Hinv Hop) as (s' & -> & Hinv'). cbn [mbind option_bind]. by apply IH.
  - cbn in Hop. destruct q as [|f q].
    + rewrite (rx_poll_empty z s max Hinv). cbn [mbind option_bind]. assert (mk_rs (rs_st s) (rs_dev s) = s) as -> by (by destruct s).
      specialize (IH s [] Hinv). destruct (rx_run s ops) as [[rs s']|]; [|done]. cbn in *. congruence.
    + destruct (rx_poll_frame z s f q max Hinv Hop) as (packets & ->). cbn [mbind option_bind].
      specialize (IH _ q (reposted_inv z s f q packets Hinv)). destruct (rx_run _ ops) as [[rs s']|]; [|done]. cbn in *. congruence.
Qed.

(** ** Witness: a device with a cleared header *)

Module RxDemo.
Definition arrive (n : Z) (vq : virtqueue) (mem : gmap Z Z) (frame : list Z) : option (Z * virtqueue * gmap Z Z) :=
  if decide (n = avail_idx vq) then Some (n, vq, mem)
  else
    head ← arr_get (avail_ring vq) (n mod vq_size vq);
    d ← arr_get (vq_desc vq) head;
    Some (wrap16 (n + 1), put_used vq head (VIRTIO_NET_HDR_LEN + Z.of_nat (length frame)), mem_write mem (d_addr d) (replicate 12 0 ++ frame)).

#[refine] Instance device : RxDevice Z := { nd_next n := n; nd_arrive := arrive }.
Proof.
  - intros n vq mem frame E. exists n. unfold arrive. by rewrite decide_True.
  - intros n vq mem frame head d Hn E1 E2 _. exists (wrap16 (n + 1)), (replicate 12 0). split; [done|]. split; [done|].
    unfold arrive. rewrite decide_False by done. rewrite E1. cbn [mbind option_bind]. by rewrite E2.
Defined.

Definition vq0 : virtqueue := mk_vq 0 0 0 (replicate 16 (mk_desc 0 0 0 0)) 0 (replicate 16 0) 0 (replicate 16 (0, 0)).
Definition start : rxst :=
  mk_rx (snd (fst (virtqueue_setup 0 16 0 0 0 vq0))) ∅ (KERNEL_VA_OFFSET + 0x200000) (replicate 16 0) false 0.

(** Two frames, three polls, the second one too short for its frame. *)
Definition ops : list rxop := [RxPoll 600; RxArrive [1; 2; 3]; RxArrive [4; 5; 6; 7]; RxPoll 600; RxPoll 2; RxPoll 600].
End RxDemo.
#[local] Existing Instance RxDemo.device.

Lemma rx_history_witness :
  ∃ st, net_rx_init RxDemo.start = Some st ∧
    fst <$> rx_run (mk_rs st 0) RxDemo.ops = Some [(0, []); (3, [1; 2; 3]); (2, [4; 5]); (0, [])].
Proof.
  destruct (net_rx_init_ok 0 16 0 0 0 RxDemo.vq0 ∅ (KERNEL_VA_OFFSET + 0x200000) (replicate 16 0) false 0) as (st & E & H);
    [reflexivity|by right|done|unfold KERNEL_VA_OFFSET; lia|unfold KERNEL_VA_OFFSET; lia|].
  exists st. split; [exact E|]. refine (rx_history 16 (mk_rs st 0) [] RxDemo.ops H _).
  unfold RxDemo.ops. repeat constructor; cbn; lia.
Defined.
