(* ===== verification/Pci.v ===== *)
(** The PCI bus of [src/src/pci/pci.c] and the virtio capabilities of
    [src/src/pci/virtio/virtio.c]: enumeration, the assignment of base address
    registers out of the two memory windows, and the capability list.

    Configuration space is hardware.  Where the code only reads it, it is a
    function; where the code writes base address registers, it is the class
    [ConfigSpace], whose law is what the PCI specification says of them: a
    register keeps the writable bits of what is stored and shows its read-only
    bits. *)
From S2P Require Import Prelude.

Definition PCI_MMIO32_PHYS : Z := 0x10000000.
Definition PCI_MMIO32_LIMIT : Z := 0x3EFEFFFF.
Definition PCI_MMIO64_PHYS : Z := 0x8000000000.
Definition PCI_MMIO64_LIMIT : Z := 0xFFFFFFFFFF.
Definition PCI_ECAM_PHYS : Z := 0x4010000000.
Definition MAX_PCI_DEVICES : nat := 16.
Definition MAX_PCI_BUS : nat := 256.
Definition MAX_PCI_SLOT : nat := 32.
Definition MAX_PCI_FUNC : nat := 8.
Definition PCI_VENDOR_ID : Z := 0x00.
Definition PCI_DEVICE_ID : Z := 0x02.
Definition PCI_STATUS : Z := 0x06.
Definition PCI_BAR0 : Z := 0x10.
Definition PCI_CAP_PTR : Z := 0x34.

Record pci_device := mk_dev { bus : Z; slot : Z; func : Z; vendor_id : Z; device_id : Z; bar_addr : list Z }.

(** ** Addresses *)

Definition pci_make_ecam_addr (b d f offset : Z) : Z :=
  Z.lor (Z.lor (Z.lor PCI_ECAM_PHYS (Z.shiftl b 20)) (Z.lor (Z.shiftl d 15) (Z.shiftl f 12))) offset.

(** ** Enumeration *)

Section Enumerate.
(** [pci_config_read16] of function [(b, d, f)] at an offset. *)
Context (read16 : Z → Z → Z → Z → Z).

(** Each loop returns the devices found and whether the table filled up; [n]
    turns are left. *)
Fixpoint enum_func (b d f : Z) (n : nat) (devs : list pci_device) : list pci_device * bool :=
  match n with
  | O => (devs, false)
  | S n' =>
      let vid := read16 b d f PCI_VENDOR_ID in
      if decide (vid = 0xFFFF) then enum_func b d (f + 1) n' devs
      else
        let did := read16 b d f PCI_DEVICE_ID in
        if decide (MAX_PCI_DEVICES ≤ length devs)%nat then (devs, true)
        else enum_func b d (f + 1) n' (devs ++ [mk_dev b d f vid did (replicate 6 0)])
  end.

Fixpoint enum_slot (b d : Z) (n : nat) (devs : list pci_device) : list pci_device * bool :=
  match n with
  | O => (devs, false)
  | S n' =>
      match enum_func b d 0 MAX_PCI_FUNC devs with
      | (devs', true) => (devs', true)
      | (devs', false) => enum_slot b (d + 1) n' devs'
      end
  end.

Fixpoint enum_bus (b : Z) (n : nat) (devs : list pci_device) : list pci_device * bool :=
  match n with
  | O => (devs, false)
  | S n' =>
      match enum_slot b 0 MAX_PCI_SLOT devs with
      | (devs', true) => (devs', true)
      | (devs', false) => enum_bus (b + 1) n' devs'
      end
  end.

Definition pci_enumerate_bus (devs : list pci_device) : list pci_device := fst (enum_bus 0 MAX_PCI_BUS devs).
End Enumerate.

(** [None] is EERROR. *)
Fixpoint pci_find_device (devs : list pci_device) (vid did : Z) : option pci_device :=
  match devs with
  | [] => None
  | dev :: devs' => if decide (vendor_id dev = vid ∧ device_id dev = did) then Some dev else pci_find_device devs' vid did
  end.

(** ** Memory windows *)

Record windows := mk_win { mmio32_next : Z; mmio64_next : Z }.

Definition alloc_mmio32 (w : windows) (size : Z) : Z * windows :=
  let mask := size -w 1 in
  let next := Z.land (mmio32_next w +w mask) (not64 mask) in
  if decide (PCI_MMIO32_LIMIT < next +w size -w 1) then (0, mk_win next (mmio64_next w))
  else (next, mk_win (next +w size) (mmio64_next w)).

Definition alloc_mmio64 (w : windows) (size : Z) : Z * windows :=
  let mask := size -w 1 in
  let next := Z.land (mmio64_next w +w mask) (not64 mask) in
  if decide (PCI_MMIO64_LIMIT < next +w size -w 1) then (0, mk_win (mmio32_next w) next)
  else (next, mk_win (mmio32_next w) (next +w size)).

(** ** Base address registers *)

(** The 32-bit registers of one function by offset.  A base address register
    at [o] has writable bits [cs_mask o] and reads its other bits as [cs_fixed o]. *)
Class ConfigSpace (C : Type) := {
  cs_read : C → Z → Z;
  cs_write : C → Z → Z → C;
  cs_mask : C → Z → Z;
  cs_fixed : C → Z → Z;
  cs_write_same c o v : cs_mask (cs_write c o v) = cs_mask c ∧ cs_fixed (cs_write c o v) = cs_fixed c;
  cs_read_write c o v o' : cs_read (cs_write c o v) o' = if decide (o' = o) then Z.lor (Z.land v (cs_mask c o)) (cs_fixed c o) else cs_read c o';
  cs_read_shape c o : ∃ v, cs_read c o = Z.lor (Z.land v (cs_mask c o)) (cs_fixed c o);
}.

(** The [for] loop over the six registers, each turn of which says how far it got. *)
Fixpoint bar_loop {S : Type} (turn : Z → S → option (Z * S)) (i : Z) (s : S) (fuel : nat) : option S :=
  match fuel with
  | O => None
  | Datatypes.S f => if decide (i < 6) then '(n, s') ← turn i s; bar_loop turn (i + n) s' f else Some s
  end.

Section Bars.
Context {C : Type} `{!ConfigSpace C}.

Definition not32 (x : Z) : Z := wrap32 (Z.lnot x).

Definition pci_get_bar_size (c : C) (offset : Z) : Z * C :=
  let original := cs_read c offset in
  let c1 := cs_write c offset 0xFFFFFFFF in
  let size_mask := cs_read c1 offset in
  let c2 := cs_write c1 offset original in
  let size_mask := Z.land size_mask (not32 0xF) in
  if decide (size_mask = 0) then (0, c2) else (add32 (not32 size_mask) 1, c2).

Definition pci_get_bar_size64 (c : C) (offset_lo offset_hi : Z) : Z * C :=
  let orig_lo := cs_read c offset_lo in
  let orig_hi := cs_read c offset_hi in
  let c1 := cs_write c offset_lo 0xFFFFFFFF in
  let c2 := cs_write c1 offset_hi 0xFFFFFFFF in
  let mask_lo := cs_read c2 offset_lo in
  let mask_hi := cs_read c2 offset_hi in
  let c3 := cs_write c2 offset_lo orig_lo in
  let c4 := cs_write c3 offset_hi orig_hi in
  let mask := Z.lor (shl64 mask_hi 32) (Z.land mask_lo (not64 0xF)) in
  (not64 mask +w 1, c4).

Definition bar_offset (i : Z) : Z := PCI_BAR0 + i * 4.

(** One turn of [pci_assign_bars], for register [i]: how many registers it used. *)
Definition assign_bar (i : Z) (s : windows * C * list Z) : option (Z * (windows * C * list Z)) :=
  let '(w, c, bars) := s in
  let bar := cs_read c (bar_offset i) in
  if decide (Z.land bar 0x01 ≠ 0) then Some (1, (w, c, bars))
  else
    let type := Z.land (Z.shiftr bar 1) 0x03 in
    if decide (type = 0x00) then
      let '(size, c) := pci_get_bar_size c (bar_offset i) in
      if decide (size = 0 ∨ size = 0xFFFFFFFF) then bars' ← arr_set bars i 0; Some (1, (w, c, bars'))
      else
        let '(addr, w) := alloc_mmio32 w size in
        let c := cs_write c (bar_offset i) (wrap32 addr) in
        bars' ← arr_set bars i addr;
        Some (1, (w, c, bars'))
    else if decide (type = 0x02) then
      if decide (6 ≤ i + 1) then bars' ← arr_set bars i 0; Some (1, (w, c, bars'))
      else
        let '(size64, c) := pci_get_bar_size64 c (bar_offset i) (bar_offset (i + 1)) in
        if decide (size64 = 0) then bars' ← arr_set bars i 0; Some (2, (w, c, bars'))
        else
          let '(addr, w) := alloc_mmio64 w size64 in
          let c := cs_write c (bar_offset i) (Z.land addr 0xFFFFFFFF) in
          let c := cs_write c (bar_offset i + 4) (wrap32 (Z.shiftr addr 32)) in
          bars' ← arr_set bars i addr;
          Some (2, (w, c, bars'))
    else Some (1, (w, c, bars)).

Definition pci_assign_bars (w : windows) (c : C) (bars : list Z) : option (windows * C * list Z) := bar_loop assign_bar 0 (w, c, bars) 7.
End Bars.

(** ** Virtio capabilities *)

Record virtio_pci_caps := mk_caps { common_cfg : Z; notify_base : Z; isr_cfg : Z; device_cfg : Z; notify_off_multiplier : Z }.

Section Caps.
(** [pci_config_read8], [pci_config_read16] and [pci_config_read32] of the device. *)
Context (read8 read16 read32 : Z → Z).

Definition virtio_populate_capabilities (bars : list Z) (caps : virtio_pci_caps) (cap_ptr : Z) : option virtio_pci_caps :=
  let cfg_type := read8 (cap_ptr + 3) in
  let bar := read8 (cap_ptr + 4) in
  let offset := read32 (cap_ptr + 8) in
  if decide (6 ≤ bar) then Some caps
  else
    base ← arr_get bars bar;
    let cap_addr := base +w offset in
    Some (if decide (cfg_type = 1) then mk_caps cap_addr (notify_base caps) (isr_cfg caps) (device_cfg caps) (notify_off_multiplier caps)
          else if decide (cfg_type = 2) then mk_caps (common_cfg caps) cap_addr (isr_cfg caps) (device_cfg caps) (read32 (cap_ptr + 0x10))
          else if decide (cfg_type = 3) then mk_caps (common_cfg caps) (notify_base caps) cap_addr (device_cfg caps) (notify_off_multiplier caps)
          else if decide (cfg_type = 4) then mk_caps (common_cfg caps) (notify_base caps) (isr_cfg caps) cap_addr (notify_off_multiplier caps)
          else caps).

(** The walk over the capability list; [None] also when it has not ended. *)
Fixpoint parse_caps (bars : list Z) (caps : virtio_pci_caps) (cap_ptr : Z) (fuel : nat) : option virtio_pci_caps :=
  match fuel with
  | O => None
  | S f =>
      if decide (cap_ptr = 0) then Some caps
      else
        let cap_id := read8 cap_ptr in
        let next := read8 (cap_ptr + 1) in
        caps' ← (if decide (cap_id = 0x11) then Some caps
                 else if decide (cap_id = 0x09) then virtio_populate_capabilities bars caps cap_ptr else Some caps);
        parse_caps bars caps' next f
  end.

Definition virtio_parse_capabilities (bars : list Z) (caps : virtio_pci_caps) (fuel : nat) : option virtio_pci_caps :=
  if decide (Z.land (read16 PCI_STATUS) (Z.shiftl 1 4) = 0) then Some caps else parse_caps bars caps (read8 PCI_CAP_PTR) fuel.
End Caps.

(** ** Enumeration in bus order *)

Section EnumerateSpec.
Context (read16 : Z → Z → Z → Z → Z).

(** The functions of the bus in the order the loops visit them, and the devices
    that answer. *)
Definition funcs (b d f : Z) (n : nat) : list (Z * Z * Z) := (λ x, (b, d, x)) <$> seqZ f (Z.of_nat n).
Definition slots (b d : Z) (n : nat) : list (Z * Z * Z) := x ← seqZ d (Z.of_nat n); funcs b x 0 MAX_PCI_FUNC.
Definition buses (b : Z) (n : nat) : list (Z * Z * Z) := x ← seqZ b (Z.of_nat n); slots x 0 MAX_PCI_SLOT.

Definition answers (p : Z * Z * Z) : option pci_device :=
  let '(b, d, f) := p in
  if decide (read16 b d f PCI_VENDOR_ID = 0xFFFF) then None
  else Some (mk_dev b d f (read16 b d f PCI_VENDOR_ID) (read16 b d f PCI_DEVICE_ID) (replicate 6 0)).

(** A table of sixteen that has met the functions [l]. *)
Definition table (devs : list pci_device) (l : list (Z * Z * Z)) : list pci_device * bool :=
  (take MAX_PCI_DEVICES (devs ++ omap answers l), bool_decide (MAX_PCI_DEVICES < length (devs ++ omap answers l))%nat).

Lemma table_app devs l1 l2 :
  (length devs ≤ MAX_PCI_DEVICES)%nat →
  table devs (l1 ++ l2) = match table devs l1 with (devs', true) => (devs', true) | (devs', false) => table devs' l2 end.
Proof.
  intros Hl. unfold table. rewrite omap_app, app_assoc. set (A := devs ++ omap answers l1). destruct (decide (MAX_PCI_DEVICES < length A)%nat) as [HA|HA].
  - rewrite (bool_decide_eq_true_2 (_ < length A)%nat) by done. rewrite take_app_le by lia. f_equal. apply bool_decide_eq_true_2. rewrite length_app. lia.
  - rewrite (bool_decide_eq_false_2 (_ < length A)%nat) by done. by rewrite (take_ge A) by lia.
Qed.

Lemma table_length devs l : (length devs ≤ MAX_PCI_DEVICES)%nat → (length (fst (table devs l)) ≤ MAX_PCI_DEVICES)%nat.
Proof. intros _. cbn [table fst]. rewrite length_take. lia. Qed.

Lemma seqZ_S (x : Z) n : seqZ x (Z.of_nat (S n)) = x :: seqZ (x + 1) (Z.of_nat n).
Proof. rewrite seqZ_cons by lia. f_equal. f_equal; lia. Qed.

Lemma enum_func_spec b d f n devs : (length devs ≤ MAX_PCI_DEVICES)%nat → enum_func read16 b d f n devs = table devs (funcs b d f n).
Proof.
  revert f devs. induction n as [|n IH]; intros f devs Hl; cbn [enum_func].
  - unfold table, funcs. cbn. rewrite app_nil_r, take_ge by done. rewrite bool_decide_eq_false_2 by lia. done.
  - unfold funcs. rewrite seqZ_S. cbn [fmap list_fmap]. fold (funcs b d (f + 1) n).
    change ((b, d, f) :: funcs b d (f + 1) n) with ([(b, d, f)] ++ funcs b d (f + 1) n). rewrite table_app by done.
    unfold table at 1. cbn [omap list_omap answers]. case_decide as Hv.
    + rewrite app_nil_r, take_ge by done. rewrite bool_decide_eq_false_2 by lia. by apply IH.
    + rewrite length_app. cbn [length]. destruct (decide (MAX_PCI_DEVICES ≤ length devs)%nat) as [Hf|Hf].
      * rewrite bool_decide_eq_true_2 by lia. rewrite take_app_le, take_ge by lia. done.
      * rewrite bool_decide_eq_false_2 by lia. rewrite take_ge by (rewrite length_app; cbn [length]; lia). apply IH. rewrite length_app. cbn [length]. lia.
Qed.

Lemma enum_slot_spec b d n devs : (length devs ≤ MAX_PCI_DEVICES)%nat → enum_slot read16 b d n devs = table devs (slots b d n).
Proof.
  revert d devs. induction n as [|n IH]; intros d devs Hl; cbn [enum_slot].
  - unfold table, slots. cbn. rewrite app_nil_r, take_ge by done. rewrite bool_decide_eq_false_2 by lia. done.
  - unfold slots. rewrite seqZ_S. cbn [mbind list_bind]. fold (slots b (d + 1) n). rewrite table_app, enum_func_spec by done.
    pose proof (table_length devs (funcs b d 0 MAX_PCI_FUNC) Hl) as Hl'. destruct (table devs (funcs b d 0 MAX_PCI_FUNC)) as [devs' []]; [done|]. by apply IH.
Qed.

Lemma enum_bus_spec b n devs : (length devs ≤ MAX_PCI_DEVICES)%nat → enum_bus read16 b n devs = table devs (buses b n).
Proof.
  revert b devs. induction n as [|n IH]; intros b devs Hl; cbn [enum_bus].
  - unfold table, buses. cbn. rewrite app_nil_r, take_ge by done. rewrite bool_decide_eq_false_2 by lia. done.
  - unfold buses. rewrite seqZ_S. cbn [mbind list_bind]. fold (buses (b + 1) n). rewrite table_app, enum_slot_spec by done.
    pose proof (table_length devs (slots b 0 MAX_PCI_SLOT) Hl) as Hl'. destruct (table devs (slots b 0 MAX_PCI_SLOT)) as [devs' []]; [done|]. by apply IH.
Qed.

Lemma pci_find_device_spec devs vid did :
  pci_find_device devs vid did = head (filter (λ dev, vendor_id dev = vid ∧ device_id dev = did) devs).
Proof. induction devs as [|dev devs IH]; cbn [pci_find_device]; [done|]. rewrite filter_cons. case_decide; [done|exact IH]. Qed.

(** C30. Whatever answers on the bus, [pci_enumerate_bus] records the first sixteen
    functions that do, in the order bus, slot, function, and stops there;
    [pci_find_device] returns the first of them with the identifiers asked for,
    and fails exactly when there is none among the sixteen. *)
Theorem pci_enumerate_bus_correct (vid did : Z) :
  pci_enumerate_bus read16 [] = take MAX_PCI_DEVICES (omap answers (buses 0 MAX_PCI_BUS)) ∧
  pci_find_device (pci_enumerate_bus read16 []) vid did =
    head (filter (λ dev, vendor_id dev = vid ∧ device_id dev = did) (take MAX_PCI_DEVICES (omap answers (buses 0 MAX_PCI_BUS)))).
Proof.
  assert (pci_enumerate_bus read16 [] = take MAX_PCI_DEVICES (omap answers (buses 0 MAX_PCI_BUS))) as E.
  { unfold pci_enumerate_bus. rewrite enum_bus_spec; [reflexivity|apply Nat.le_0_l]. }
  split; [exact E|]. rewrite E. apply pci_find_device_spec.
Qed.
End EnumerateSpec.

(** ** Windows *)

(** What has been handed out, as (address, size). *)
Definition region_ok (lo limit next : Z) (r : Z * Z) : Prop :=
  lo ≤ fst r ∧ fst r + snd r ≤ next ∧ fst r + snd r - 1 ≤ limit ∧ 0 < snd r ∧ fst r mod snd r = 0.

Definition apart2 (r1 r2 : Z * Z) : Prop := fst r1 + snd r1 ≤ fst r2 ∨ fst r2 + snd r2 ≤ fst r1.

Record win_inv (w : windows) (l : list (Z * Z)) : Prop := {
  wi_32 : PCI_MMIO32_PHYS ≤ mmio32_next w ≤ 2 ^ 31;
  wi_64 : PCI_MMIO64_PHYS ≤ mmio64_next w ≤ 2 ^ 63;
  wi_regions : Forall (λ r, region_ok PCI_MMIO32_PHYS PCI_MMIO32_LIMIT (mmio32_next w) r ∨
                            region_ok PCI_MMIO64_PHYS PCI_MMIO64_LIMIT (mmio64_next w) r) l;
  wi_apart : pairwise apart2 l;
}.

(** [(next + mask) & ~mask] is the next multiple of the size. *)
Lemma align_up next k : 0 ≤ k < 64 → 0 ≤ next → next + 2 ^ k ≤ 2 ^ 64 →
  let a := Z.land (next +w (2 ^ k -w 1)) (not64 (2 ^ k -w 1)) in next ≤ a < next + 2 ^ k ∧ a mod 2 ^ k = 0.
Proof.
  intros Hk Hn Hs. pose proof (Z.pow_pos_nonneg 2 k ltac:(lia) ltac:(lia)) as Hp. rewrite sub64_small by lia. rewrite add64_small by lia.
  rewrite land_not_low by (lia || unfold is_u64; lia). set (x := next + (2 ^ k - 1)). pose proof (Z.mod_pos_bound x (2 ^ k) Hp).
  split; [lia|]. pose proof (Z.div_mod x (2 ^ k) ltac:(lia)) as E. replace (x - x mod 2 ^ k) with (x / 2 ^ k * 2 ^ k) by lia. apply Z.mod_mul. lia.
Qed.

(** Aligning within a power of two does not lead past it. *)
Lemma aligned_below a next k m : 0 ≤ k ≤ m → 0 ≤ next ≤ 2 ^ m → next ≤ a < next + 2 ^ k → a mod 2 ^ k = 0 → a ≤ 2 ^ m.
Proof.
  intros Hk Hn Ha Hal. apply Z.mod_divide in Hal as [q ->]; [|pose proof (Z.pow_pos_nonneg 2 k); lia].
  assert (2 ^ m = 2 ^ (m - k) * 2 ^ k) as E by (rewrite <- Z.pow_add_r by lia; f_equal; lia). rewrite E in *.
  pose proof (Z.pow_pos_nonneg 2 k ltac:(lia) ltac:(lia)). apply Z.mul_le_mono_nonneg_r; [lia|].
  assert (q < 2 ^ (m - k) + 1); [|lia]. apply (Z.mul_lt_mono_pos_r (2 ^ k)); lia.
Qed.

Lemma region_grow lo limit next next' r : next ≤ next' → region_ok lo limit next r → region_ok lo limit next' r.
Proof. unfold region_ok. lia. Qed.

(** The region an allocation adds, address 0 meaning none. *)
Definition placed (a k : Z) : list (Z * Z) := if decide (a = 0) then [] else [(a, 2 ^ k)].

(** Less than [2 ^ k] bytes are left in the window. *)
Definition no_room (w : windows) (wide : bool) (k : Z) : Prop :=
  if wide then PCI_MMIO64_LIMIT < mmio64_next w + 2 ^ k - 1 else PCI_MMIO32_LIMIT < mmio32_next w + 2 ^ k - 1.

Definition win_le (w w' : windows) : Prop := mmio32_next w ≤ mmio32_next w' ∧ mmio64_next w ≤ mmio64_next w'.

Lemma no_room_mono w w' wide k : win_le w w' → no_room w wide k → no_room w' wide k.
Proof. intros [H1 H2]. unfold no_room. destruct wide; lia. Qed.

(** Handing out [(a, 2 ^ k)] at the end of a window keeps the invariant. *)
Lemma win_inv_add w w' l a k : win_inv w l → win_le w w' → mmio32_next w' ≤ 2 ^ 31 → mmio64_next w' ≤ 2 ^ 63 →
  (mmio32_next w ≤ a ∧ region_ok PCI_MMIO32_PHYS PCI_MMIO32_LIMIT (mmio32_next w') (a, 2 ^ k) ∨
   mmio64_next w ≤ a ∧ region_ok PCI_MMIO64_PHYS PCI_MMIO64_LIMIT (mmio64_next w') (a, 2 ^ k)) →
  win_inv w' (l ++ [(a, 2 ^ k)]).
Proof.
  intros [H32 H64 Hr Hap] [L1 L2] B1 B2 Hn. constructor; [lia|lia| |].
  - apply Forall_app; split; [|apply Forall_cons; split; [|by apply Forall_nil]].
    + eapply Forall_impl; [exact Hr|]. intros r [H|H]; [left|right]; by eapply region_grow; [|exact H].
    + destruct Hn as [[_ H]|[_ H]]; auto.
  - apply pairwise_app. split; [done|]. split; [apply pairwise_singleton|]. intros r y Hin Hy. apply list_elem_of_singleton in Hy as ->.
    rewrite Forall_forall in Hr. specialize (Hr r Hin).
    unfold apart2, region_ok, PCI_MMIO64_PHYS, PCI_MMIO64_LIMIT, PCI_MMIO32_LIMIT, PCI_MMIO32_PHYS in *. cbn [fst snd] in *. lia.
Qed.

Lemma win_inv_grow w w' l : win_inv w l → win_le w w' → mmio32_next w' ≤ 2 ^ 31 → mmio64_next w' ≤ 2 ^ 63 → win_inv w' l.
Proof.
  intros [H32 H64 Hr Hap] [L1 L2] B1 B2. constructor; [lia|lia| |done].
  eapply Forall_impl; [exact Hr|]. intros r [H|H]; [left|right]; by eapply region_grow; [|exact H].
Qed.

(** What one request does to the windows. *)
Definition alloc_ok (w : windows) (l : list (Z * Z)) (wide : bool) (k : Z) (a : Z) (w' : windows) : Prop :=
  0 ≤ a < (if wide then 2 ^ 40 else 2 ^ 32) ∧ a mod 2 ^ k = 0 ∧ win_inv w' (l ++ placed a k) ∧ win_le w w' ∧ (a = 0 → no_room w' wide k).

Lemma alloc_mmio32_spec w l k : win_inv w l → 4 ≤ k ≤ 31 → let '(a, w') := alloc_mmio32 w (2 ^ k) in alloc_ok w l false k a w'.
Proof.
  intros Hw Hk. pose proof Hw as [H32 H64 _ _]. unfold alloc_mmio32. unfold PCI_MMIO32_PHYS, PCI_MMIO64_PHYS in *.
  pose proof (Z.pow_le_mono_r 2 k 31 ltac:(lia) ltac:(lia)) as Hkm. pose proof (Z.pow_pos_nonneg 2 k ltac:(lia) ltac:(lia)) as Hp.
  destruct (align_up (mmio32_next w) k) as [Ha Hal]; [lia|lia|lia|]. set (a := Z.land _ _) in *.
  pose proof (aligned_below a (mmio32_next w) k 31 ltac:(lia) ltac:(lia) Ha Hal) as Hb. cint. unfold alloc_ok, placed, win_le, no_room. case_decide as Hlim; cbn [mmio32_next mmio64_next].
  - split; [lia|]. split; [apply Z.mod_0_l; lia|]. rewrite app_nil_r. split; [|lia]. by apply (win_inv_grow w); [|unfold win_le| |]; cbn [mmio32_next mmio64_next]; [|lia..].
  - unfold PCI_MMIO32_LIMIT in *. split; [lia|]. split; [done|]. rewrite decide_False by lia. split; [|lia].
    apply (win_inv_add w); [done|unfold win_le; cbn [mmio32_next mmio64_next]; lia..|left].
    unfold region_ok, PCI_MMIO32_PHYS, PCI_MMIO32_LIMIT. cbn [fst snd mmio32_next]. lia.
Qed.

Lemma alloc_mmio64_spec w l k : win_inv w l → 4 ≤ k ≤ 63 → let '(a, w') := alloc_mmio64 w (2 ^ k) in alloc_ok w l true k a w'.
Proof.
  intros Hw Hk. pose proof Hw as [H32 H64 _ _]. unfold alloc_mmio64. unfold PCI_MMIO32_PHYS, PCI_MMIO64_PHYS in *.
  pose proof (Z.pow_le_mono_r 2 k 63 ltac:(lia) ltac:(lia)) as Hkm. pose proof (Z.pow_pos_nonneg 2 k ltac:(lia) ltac:(lia)) as Hp.
  destruct (align_up (mmio64_next w) k) as [Ha Hal]; [lia|lia|lia|]. set (a := Z.land _ _) in *.
  pose proof (aligned_below a (mmio64_next w) k 63 ltac:(lia) ltac:(lia) Ha Hal) as Hb.
  assert (a +w 2 ^ k -w 1 = a + 2 ^ k - 1) as E.
  { unfold sub64, add64, wrap64. rewrite Zminus_mod_idemp_l. apply Z.mod_small. lia. }
  rewrite E. unfold alloc_ok, placed, win_le, no_room. case_decide as Hlim; cbn [mmio32_next mmio64_next].
  - split; [lia|]. split; [apply Z.mod_0_l; lia|]. rewrite app_nil_r. split; [|lia]. by apply (win_inv_grow w); [|unfold win_le| |]; cbn [mmio32_next mmio64_next]; [|lia..].
  - unfold PCI_MMIO64_LIMIT in *. cint. split; [lia|]. split; [done|]. rewrite decide_False by lia. split; [|lia].
    apply (win_inv_add w); [done|unfold win_le; cbn [mmio32_next mmio64_next]; lia..|right].
    unfold region_ok, PCI_MMIO64_PHYS, PCI_MMIO64_LIMIT. cbn [fst snd mmio64_next]. lia.
Qed.

(** ** Registers *)

Section Regs.
Context {C : Type} `{!ConfigSpace C}.
Implicit Types c : C.

(** Same function, same contents. *)
Definition same_regs c c' : Prop := cs_mask c' = cs_mask c ∧ cs_fixed c' = cs_fixed c ∧ ∀ o, cs_read c' o = cs_read c o.

(** The kinds of base address register: the low four bits are read-only. *)
Definition low_fixed c o : Prop := cs_mask c o mod 16 = 0 ∧ 0 ≤ cs_mask c o < 2 ^ 32 ∧ 0 ≤ cs_fixed c o < 16.
Definition reg_io c o : Prop := Z.land (cs_fixed c o) 1 ≠ 0 ∧ Z.land (cs_mask c o) 1 = 0.
Definition reg_absent c o : Prop := cs_mask c o = 0 ∧ cs_fixed c o = 0.
Definition reg_reserved c o : Prop := low_fixed c o ∧ (cs_fixed c o = 2 ∨ cs_fixed c o = 6 ∨ cs_fixed c o = 10 ∨ cs_fixed c o = 14).
Definition reg_mem32 c o k : Prop := 4 ≤ k ≤ 31 ∧ cs_mask c o = 2 ^ 32 - 2 ^ k ∧ (cs_fixed c o = 0 ∨ cs_fixed c o = 8).
Definition reg_mem64 c o k : Prop :=
  4 ≤ k ≤ 63 ∧ (cs_fixed c o = 4 ∨ cs_fixed c o = 12) ∧ cs_fixed c (o + 4) = 0 ∧
  (k < 32 ∧ cs_mask c o = 2 ^ 32 - 2 ^ k ∧ cs_mask c (o + 4) = 2 ^ 32 - 1 ∨
   32 ≤ k ∧ cs_mask c o = 0 ∧ cs_mask c (o + 4) = 2 ^ 32 - 2 ^ (k - 32)).

Lemma mask_low m k : 4 ≤ k ≤ m → (2 ^ m - 2 ^ k) mod 16 = 0.
Proof.
  intros Hk. replace (2 ^ m - 2 ^ k) with ((2 ^ (m - 4) - 2 ^ (k - 4)) * 16); [by apply Z.mod_mul|].
  change 16 with (2 ^ 4). rewrite Z.mul_sub_distr_r, <- !Z.pow_add_r by lia. f_equal; f_equal; lia.
Qed.

Lemma low_bit x n : x mod 16 = 0 → 0 ≤ n < 4 → Z.testbit x n = false.
Proof. intros Hx Hn. change 16 with (2 ^ 4) in Hx. rewrite <- (Z.mod_pow2_bits_low x 4) by lia. by rewrite Hx, Z.bits_0. Qed.

(** The type of a register shows in what is read from it. *)
Lemma type_bits c o : low_fixed c o →
  Z.land (cs_read c o) 1 = Z.land (cs_fixed c o) 1 ∧ Z.land (Z.shiftr (cs_read c o) 1) 3 = Z.land (Z.shiftr (cs_fixed c o) 1) 3.
Proof.
  intros (Hm & _ & Hf). destruct (cs_read_shape c o) as [v ->].
  assert (∀ n, 0 ≤ n < 4 → Z.testbit (Z.lor (Z.land v (cs_mask c o)) (cs_fixed c o)) n = Z.testbit (cs_fixed c o) n) as Hb.
  { intros n Hn. rewrite Z.lor_spec, Z.land_spec, (low_bit (cs_mask c o)) by done. by rewrite andb_false_r. }
  split; apply Z.bits_inj'; intros n Hn; rewrite !Z.land_spec; [change 1 with (Z.ones 1)|change 3 with (Z.ones 2)].
  - destruct (decide (n < 1)); [rewrite Hb by lia; done|]. by rewrite !Z.ones_spec_high, !andb_false_r by lia.
  - destruct (decide (n < 2)); [rewrite !Z.shiftr_spec, Hb by lia; done|]. by rewrite !Z.ones_spec_high, !andb_false_r by lia.
Qed.

Lemma probe_bits w mask f : 32 ≤ w → mask mod 16 = 0 → 0 ≤ mask < 2 ^ 32 → 0 ≤ f < 16 →
  Z.land (Z.lor (Z.land 0xFFFFFFFF mask) f) (2 ^ w - 2 ^ 4) = mask.
Proof.
  intros Hw Hm Hr Hf. apply Z.bits_inj'. intros n Hn. change 0xFFFFFFFF with (Z.ones 32).
  rewrite Z.land_spec, Z.lor_spec, Z.land_spec, testbit_range by lia. destruct (decide (n < 4)) as [H4|H4].
  - rewrite bool_decide_eq_false_2 by lia. rewrite andb_false_r. symmetry. by apply low_bit.
  - rewrite (testbit_high f 4) by lia. rewrite orb_false_r. destruct (decide (n < 32)).
    + rewrite Z.ones_spec_low, bool_decide_eq_true_2 by lia. by rewrite andb_true_r.
    + by rewrite (testbit_high mask 32), andb_false_r by lia.
Qed.

Lemma not32_val x : 0 ≤ x < 2 ^ 32 → not32 x = 2 ^ 32 - 1 - x.
Proof. intros Hx. unfold not32, wrap32, Z.lnot. rewrite <- (Z.mod_add _ 1) by lia. rewrite Z.mod_small; lia. Qed.

Lemma read_again c o : Z.lor (Z.land (cs_read c o) (cs_mask c o)) (cs_fixed c o) = cs_read c o.
Proof.
  destruct (cs_read_shape c o) as [u ->]. apply Z.bits_inj'. intros n Hn. rewrite !Z.lor_spec, !Z.land_spec, !Z.lor_spec, !Z.land_spec.
  destruct (Z.testbit u n), (Z.testbit (cs_mask c o) n), (Z.testbit (cs_fixed c o) n); done.
Qed.

Lemma pci_get_bar_size_spec c o : low_fixed c o →
  ∃ c', pci_get_bar_size c o = (if decide (cs_mask c o = 0) then 0 else 2 ^ 32 - cs_mask c o, c') ∧ same_regs c c'.
Proof.
  intros (Hm & Hr & Hf). unfold pci_get_bar_size. rewrite cs_read_write, (decide_True (P := o = o)) by done.
  change (not32 0xF) with (2 ^ 32 - 2 ^ 4). rewrite probe_bits by (done || lia).
  exists (cs_write (cs_write c o 0xFFFFFFFF) o (cs_read c o)). split.
  - case_decide; [done|]. f_equal. rewrite not32_val by done. unfold add32. rewrite wrap32_small by lia. lia.
  - destruct (cs_write_same c o 0xFFFFFFFF) as [M1 F1]. destruct (cs_write_same (cs_write c o 0xFFFFFFFF) o (cs_read c o)) as [M2 F2].
    split; [congruence|]. split; [congruence|]. intros x. rewrite cs_read_write, M1, F1.
    case_decide as Hx; [subst x; apply read_again|by rewrite cs_read_write, decide_False].
Qed.

Lemma mem64_low c o k : reg_mem64 c o k → low_fixed c o.
Proof.
  intros (Hk & Hf & _ & Hm). unfold low_fixed. destruct Hm as [(H32 & -> & _)|(H32 & -> & _)].
  - pose proof (Z.pow_lt_mono_r 2 k 32 ltac:(lia) ltac:(lia) ltac:(lia)). pose proof (Z.pow_pos_nonneg 2 k ltac:(lia) ltac:(lia)).
    split; [apply mask_low; lia|]. lia.
  - split; [done|]. lia.
Qed.

Lemma mem64_mask c o k : reg_mem64 c o k → 0 ≤ cs_mask c (o + 4) < 2 ^ 32 ∧ cs_mask c (o + 4) * 2 ^ 32 + cs_mask c o = 2 ^ 64 - 2 ^ k.
Proof.
  intros (Hk & _ & _ & [(H32 & -> & ->)|(H32 & -> & ->)]); [lia|].
  pose proof (Z.pow_lt_mono_r 2 (k - 32) 32 ltac:(lia) ltac:(lia) ltac:(lia)). pose proof (Z.pow_pos_nonneg 2 (k - 32) ltac:(lia) ltac:(lia)).
  split; [lia|]. replace (2 ^ k) with (2 ^ (k - 32) * 2 ^ 32) by (rewrite <- Z.pow_add_r by lia; f_equal; lia). lia.
Qed.

Lemma pci_get_bar_size64_spec c o k : reg_mem64 c o k → ∃ c', pci_get_bar_size64 c o (o + 4) = (2 ^ k, c') ∧ same_regs c c'.
Proof.
  intros Hreg. pose proof (mem64_low c o k Hreg) as (Hm & Hr & Hf). pose proof (mem64_mask c o k Hreg) as [Hr2 Hsum].
  pose proof Hreg as (Hk & _ & Hf2 & _). unfold pci_get_bar_size64.
  set (c1 := cs_write c o 0xFFFFFFFF). set (c2 := cs_write c1 (o + 4) 0xFFFFFFFF).
  destruct (cs_write_same c o 0xFFFFFFFF) as [M1 F1]. destruct (cs_write_same c1 (o + 4) 0xFFFFFFFF) as [M2 F2]. fold c1 in M1, F1. fold c2 in M2, F2.
  assert (cs_read c2 o = Z.lor (Z.land 0xFFFFFFFF (cs_mask c o)) (cs_fixed c o)) as ->
    by (unfold c2; rewrite cs_read_write, decide_False by lia; unfold c1; by rewrite cs_read_write, decide_True).
  assert (cs_read c2 (o + 4) = cs_mask c (o + 4)) as ->.
  { unfold c2. rewrite cs_read_write, decide_True by done. rewrite M1, F1, Hf2, Z.lor_0_r, Z.land_comm. change 0xFFFFFFFF with (Z.ones 32).
    rewrite Z.land_ones by lia. by apply Z.mod_small. }
  change (not64 0xF) with (2 ^ 64 - 2 ^ 4). rewrite probe_bits by (done || lia).
  assert (shl64 (cs_mask c (o + 4)) 32 = cs_mask c (o + 4) * 2 ^ 32) as ->.
  { unfold shl64. rewrite Z.shiftl_mul_pow2 by lia. apply wrap64_small. lia. }
  rewrite (lor_disjoint 32) by (lia || apply Z.mod_mul; lia). rewrite Hsum. eexists. split.
  - f_equal. pose proof (Z.pow_pos_nonneg 2 k ltac:(lia) ltac:(lia)). pose proof (Z.pow_le_mono_r 2 k 63 ltac:(lia) ltac:(lia)).
    assert (not64 (2 ^ 64 - 2 ^ k) = 2 ^ k - 1) as ->; [|rewrite add64_small by lia; lia].
    unfold not64, wrap64, Z.lnot. rewrite <- (Z.mod_add _ 1) by lia. rewrite Z.mod_small; lia.
  - destruct (cs_write_same c2 o (cs_read c o)) as [M3 F3]. set (c3 := cs_write c2 o (cs_read c o)) in *.
    destruct (cs_write_same c3 (o + 4) (cs_read c (o + 4))) as [M4 F4].
    split; [congruence|]. split; [congruence|]. intros x. rewrite cs_read_write, M3, M2, M1, F3, F2, F1.
    case_decide as Hx; [subst x; apply read_again|]. unfold c3. rewrite cs_read_write, M2, M1, F2, F1.
    case_decide as Hx'; [subst x; apply read_again|]. unfold c2. rewrite cs_read_write, decide_False by done. unfold c1. by rewrite cs_read_write, decide_False.
Qed.

(** The two halves of an aligned address pass the masks of a 64-bit register. *)
Lemma split_bits a k m1 m2 : 4 ≤ k ≤ 63 → 0 ≤ a < 2 ^ 40 → a mod 2 ^ k = 0 →
  k < 32 ∧ m1 = 2 ^ 32 - 2 ^ k ∧ m2 = 2 ^ 32 - 1 ∨ 32 ≤ k ∧ m1 = 0 ∧ m2 = 2 ^ 32 - 2 ^ (k - 32) →
  Z.land (a mod 2 ^ 32) m1 = a mod 2 ^ 32 ∧ Z.land (a / 2 ^ 32) m2 = a / 2 ^ 32.
Proof.
  intros Hk Ha Hal Hm. pose proof (Z.mod_pos_bound a (2 ^ 32) ltac:(lia)) as Hlo. pose proof (Z.div_mod a (2 ^ 32) ltac:(lia)) as Hdm.
  pose proof (Z.pow_pos_nonneg 2 k ltac:(lia) ltac:(lia)) as Hp. apply Z.mod_divide in Hal as [q Hq]; [|lia].
  destruct Hm as [(H32 & -> & ->)|(H32 & -> & ->)].
  - split; [|change 1 with (2 ^ 0); apply land_range; [lia|lia|apply Z.mod_1_r]]. apply land_range; [lia|lia|].
    assert (2 ^ 32 = 2 ^ (32 - k) * 2 ^ k) as E by (rewrite <- Z.pow_add_r by lia; f_equal; lia).
    apply Z.mod_divide; [lia|]. exists (q - a / 2 ^ 32 * 2 ^ (32 - k)). rewrite Z.mul_sub_distr_r, <- Z.mul_assoc, <- E. lia.
  - assert (2 ^ k = 2 ^ (k - 32) * 2 ^ 32) as E by (rewrite <- Z.pow_add_r by lia; f_equal; lia).
    assert (a = q * 2 ^ (k - 32) * 2 ^ 32) as Ea by lia. rewrite Z.land_0_r. rewrite Ea, Z.mod_mul, Z.div_mul by lia. split; [done|].
    assert (a / 2 ^ 32 = q * 2 ^ (k - 32)) as Ed by (rewrite Ea; apply Z.div_mul; lia). rewrite <- Ed.
    apply land_range; [lia|lia|]. rewrite Ed. apply Z.mod_mul. pose proof (Z.pow_pos_nonneg 2 (k - 32) ltac:(lia) ltac:(lia)). lia.
Qed.

(** A register pair that holds address [a]. *)
Definition bar_holds c (j a : Z) : Prop :=
  cs_read c (bar_offset j) = Z.lor (a mod 2 ^ 32) (cs_fixed c (bar_offset j)) ∧ (2 ^ 32 ≤ a → cs_read c (bar_offset (j + 1)) = a / 2 ^ 32).

(** The registers of a function from [i] on: the memory ones, each with its size
    [2 ^ k] and whether it is a 64-bit one. *)
Inductive layout c : Z → list (Z * Z * bool) → Prop :=
  | lay_end : layout c 6 []
  | lay_io i r : i < 6 → reg_io c (bar_offset i) → layout c (i + 1) r → layout c i r
  | lay_absent i r : i < 6 → reg_absent c (bar_offset i) → layout c (i + 1) r → layout c i r
  | lay_reserved i r : i < 6 → reg_reserved c (bar_offset i) → layout c (i + 1) r → layout c i r
  | lay_mem32 i k r : i < 6 → reg_mem32 c (bar_offset i) k → layout c (i + 1) r → layout c i ((i, k, false) :: r)
  | lay_mem64 i k r : i < 5 → reg_mem64 c (bar_offset i) k → layout c (i + 2) r → layout c i ((i, k, true) :: r)
  | lay_last : low_fixed c (bar_offset 5) → (cs_fixed c (bar_offset 5) = 4 ∨ cs_fixed c (bar_offset 5) = 12) → layout c 5 [].

(** What a turn for register [i] that used [n] registers may change. *)
Record turn_ok (n i : Z) (l : list (Z * Z)) (w : windows) c (bars : list Z) (w1 : windows) (c1 : C) (bars1 : list Z) (new : list (Z * Z)) : Prop := {
  to_mask : cs_mask c1 = cs_mask c;
  to_fixed : cs_fixed c1 = cs_fixed c;
  to_regs : ∀ x, x < bar_offset i ∨ bar_offset (i + n) ≤ x → cs_read c1 x = cs_read c x;
  to_win : win_inv w1 (l ++ new);
  to_le : win_le w w1;
  to_len : length bars1 = 6%nat;
  to_bars : ∀ j, 0 ≤ j → j ≠ i → arr_get bars1 j = arr_get bars j;
}.

Lemma turn_same i l c bars w c1 bars1 : same_regs c c1 → win_inv w l → length bars1 = 6%nat →
  (∀ j, 0 ≤ j → j ≠ i → arr_get bars1 j = arr_get bars j) → ∀ n, turn_ok n i l w c bars w c1 bars1 [].
Proof. intros (Hm & Hf & Hr) Hw Hl Hb n. constructor; [done|done|intros x _; apply Hr|by rewrite app_nil_r|done|done|done]. Qed.

Lemma same_refl c : same_regs c c.
Proof. done. Qed.

Lemma arr_set_bar (bars : list Z) i a : length bars = 6%nat → 0 ≤ i < 6 →
  ∃ bars1, arr_set bars i a = Some bars1 ∧ length bars1 = 6%nat ∧ arr_get bars1 i = Some a ∧ ∀ j, 0 ≤ j → j ≠ i → arr_get bars1 j = arr_get bars j.
Proof.
  intros Hl Hi. exists (<[Z.to_nat i := a]> bars). split; [apply arr_set_lt; lia|]. split; [by rewrite length_insert|]. split.
  - unfold arr_get. rewrite decide_True by lia. apply list_lookup_insert_eq. lia.
  - intros j Hj Hne. unfold arr_get. rewrite !decide_True by lia. apply list_lookup_insert_ne. lia.
Qed.

(** Registers that get no address. *)
Lemma assign_skip i w l c bars : 0 ≤ i < 6 → win_inv w l → length bars = 6%nat →
  reg_io c (bar_offset i) ∨ reg_absent c (bar_offset i) ∨ reg_reserved c (bar_offset i) ∨
    (i = 5 ∧ low_fixed c (bar_offset 5) ∧ (cs_fixed c (bar_offset 5) = 4 ∨ cs_fixed c (bar_offset 5) = 12)) →
  ∃ c1 bars1, assign_bar i (w, c, bars) = Some (1, (w, c1, bars1)) ∧ turn_ok 1 i l w c bars w c1 bars1 [].
Proof.
  intros Hi Hw Hl Hk. unfold assign_bar. destruct Hk as [[Hf Hm]|[[Hm Hf]|[[Hlow Hf]|(-> & Hlow & Hf)]]].
  - assert (Z.land (cs_read c (bar_offset i)) 1 ≠ 0) as Hb.
    { destruct (cs_read_shape c (bar_offset i)) as [v ->]. rewrite Z.land_lor_distr_l. intros E. apply Z.lor_eq_0_iff in E as [_ E]. done. }
    rewrite decide_True by done. exists c, bars. split; [done|]. by apply turn_same.
  - assert (low_fixed c (bar_offset i)) as Hlow by (unfold low_fixed; rewrite Hm, Hf; split; [done|lia]). destruct (type_bits c _ Hlow) as [-> ->]. rewrite Hf.
    rewrite decide_False by (intros H; by apply H). rewrite decide_True by done. destruct (pci_get_bar_size_spec c _ Hlow) as (c1 & -> & Hs).
    rewrite (decide_True (P := cs_mask c (bar_offset i) = 0)) by done. rewrite decide_True by lia. destruct (arr_set_bar bars i 0 Hl Hi) as (bars1 & -> & Hl1 & _ & Hb1). cbn [mbind option_bind].
    exists c1, bars1. split; [done|]. by apply turn_same.
  - destruct (type_bits c _ Hlow) as [-> ->]. exists c, bars. split; [|by apply turn_same].
    destruct Hf as [-> | [-> | [-> | ->]]]; reflexivity.
  - destruct (type_bits c _ Hlow) as [-> ->]. destruct (arr_set_bar bars 5 0 Hl Hi) as (bars1 & E & Hl1 & _ & Hb1). exists c, bars1. split; [|by apply turn_same].
    destruct Hf as [-> | ->]; cbn -[arr_set]; rewrite E; reflexivity.
Qed.

Lemma assign_mem32 i k w l c bars : 0 ≤ i < 6 → win_inv w l → length bars = 6%nat → reg_mem32 c (bar_offset i) k →
  ∃ w1 c1 bars1 a, assign_bar i (w, c, bars) = Some (1, (w1, c1, bars1)) ∧ turn_ok 1 i l w c bars w1 c1 bars1 (placed a k) ∧
    arr_get bars1 i = Some a ∧ bar_holds c1 i a ∧ 0 ≤ a < 2 ^ 32 ∧ (a = 0 → no_room w1 false k).
Proof.
  intros Hi Hw Hl (Hk & Hm & Hf). pose proof (Z.pow_le_mono_r 2 k 31 ltac:(lia) ltac:(lia)) as Hkm. pose proof (Z.pow_pos_nonneg 2 k ltac:(lia) ltac:(lia)) as Hp.
  assert (low_fixed c (bar_offset i)) as Hlow by (unfold low_fixed; rewrite Hm; split; [apply mask_low; lia|lia]).
  unfold assign_bar. destruct (type_bits c _ Hlow) as [-> ->]. rewrite decide_False by (intros H; apply H; by destruct Hf as [-> | ->]).
  rewrite decide_True by (destruct Hf as [-> | ->]; done). destruct (pci_get_bar_size_spec c _ Hlow) as (c1 & -> & Hm1 & Hf1 & Hr1).
  rewrite (decide_False (P := cs_mask c (bar_offset i) = 0)) by (rewrite Hm; lia). rewrite Hm. replace (2 ^ 32 - (2 ^ 32 - 2 ^ k)) with (2 ^ k) by lia.
  rewrite decide_False by lia.
  pose proof (alloc_mmio32_spec w l k Hw Hk) as Ha. destruct (alloc_mmio32 w (2 ^ k)) as [a w1].
  destruct Ha as (Har & Hal & Hw1 & Hle & Hno).
  destruct (arr_set_bar bars i a Hl Hi) as (bars1 & -> & Hl1 & Hb & Hb1). cbn [mbind option_bind]. rewrite wrap32_small by lia.
  destruct (cs_write_same c1 (bar_offset i) a) as [M2 F2]. exists w1, (cs_write c1 (bar_offset i) a), bars1, a. split; [done|]. split.
  - constructor; try done; [congruence|congruence|]. intros x Hx. rewrite cs_read_write, decide_False by (unfold bar_offset in *; lia). apply Hr1.
  - split; [done|]. split; [|split; [lia|done]]. split; [|lia]. rewrite cs_read_write, decide_True by done. rewrite F2, Hm1, Hf1, Hm.
    rewrite land_range by lia. by rewrite Z.mod_small by lia.
Qed.

Lemma assign_mem64 i k w l c bars : 0 ≤ i < 5 → win_inv w l → length bars = 6%nat → reg_mem64 c (bar_offset i) k →
  ∃ w1 c1 bars1 a, assign_bar i (w, c, bars) = Some (2, (w1, c1, bars1)) ∧ turn_ok 2 i l w c bars w1 c1 bars1 (placed a k) ∧
    arr_get bars1 i = Some a ∧ bar_holds c1 i a ∧ (a = 0 → no_room w1 true k).
Proof.
  intros Hi Hw Hl Hreg. pose proof (mem64_low c _ k Hreg) as Hlow. pose proof Hreg as (Hk & Hf & Hf2 & Hm).
  pose proof (Z.pow_pos_nonneg 2 k ltac:(lia) ltac:(lia)) as Hp.
  unfold assign_bar. destruct (type_bits c _ Hlow) as [-> ->]. rewrite decide_False by (intros H; apply H; by destruct Hf as [-> | ->]).
  rewrite decide_False by (by destruct Hf as [-> | ->]). rewrite decide_True by (by destruct Hf as [-> | ->]). rewrite decide_False by lia.
  replace (bar_offset (i + 1)) with (bar_offset i + 4) by (unfold bar_offset; lia).
  destruct (pci_get_bar_size64_spec c _ k Hreg) as (c1 & -> & Hm1 & Hf1 & Hr1). rewrite decide_False by lia.
  pose proof (alloc_mmio64_spec w l k Hw Hk) as Ha. destruct (alloc_mmio64 w (2 ^ k)) as [a w1].
  destruct Ha as (Har & Hal & Hw1 & Hle & Hno).
  destruct (arr_set_bar bars i a Hl ltac:(lia)) as (bars1 & -> & Hl1 & Hb & Hb1). cbn [mbind option_bind].
  change 0xFFFFFFFF with (Z.ones 32). rewrite Z.land_ones, Z.shiftr_div_pow2 by lia.
  pose proof (Z.mod_pos_bound a (2 ^ 32) ltac:(lia)) as Hlo. pose proof (Z.div_mod a (2 ^ 32) ltac:(lia)) as Hdm.
  rewrite (wrap32_small (a / 2 ^ 32)) by lia.
  set (c2 := cs_write c1 (bar_offset i) (a mod 2 ^ 32)). destruct (cs_write_same c1 (bar_offset i) (a mod 2 ^ 32)) as [M2 F2]. fold c2 in M2, F2.
  destruct (cs_write_same c2 (bar_offset i + 4) (a / 2 ^ 32)) as [M3 F3]. set (c3 := cs_write c2 _ _) in *.
  exists w1, c3, bars1, a. split; [done|]. split.
  - constructor; try done; [congruence|congruence|]. intros x Hx. unfold c3, c2. rewrite !cs_read_write, !decide_False by (unfold bar_offset in *; lia). apply Hr1.
  - split; [done|]. split; [|done].
    assert (Z.land (a mod 2 ^ 32) (cs_mask c (bar_offset i)) = a mod 2 ^ 32 ∧ Z.land (a / 2 ^ 32) (cs_mask c (bar_offset i + 4)) = a / 2 ^ 32) as [L1 L2].
    { by apply (split_bits a k). }
    split; intros; replace (bar_offset (i + 1)) with (bar_offset i + 4) by (unfold bar_offset; lia).
    + rewrite F3, F2. unfold c3. rewrite cs_read_write, decide_False by lia. unfold c2. rewrite cs_read_write, decide_True by done. by rewrite Hm1, L1.
    + unfold c3. rewrite cs_read_write, decide_True by done. rewrite M2, F2, Hm1, Hf1, L2, Hf2. apply Z.lor_0_r.
Qed.

(** The regions of one function: its registers that hold an address. *)
Definition assigned (bars : list Z) (r : list (Z * Z * bool)) : list (Z * Z) :=
  x ← r; let '(j, k, _) := x in match arr_get bars j with Some a => placed a k | None => [] end.

(** What is promised for register [j] of size [2 ^ k]. *)
Definition bar_done (w : windows) c (bars : list Z) (x : Z * Z * bool) : Prop :=
  let '(j, k, wide) := x in ∃ a, arr_get bars j = Some a ∧ bar_holds c j a ∧ (a = 0 → no_room w wide k).

Record walk_ok (i : Z) (l : list (Z * Z)) (w : windows) c (bars : list Z) (r : list (Z * Z * bool)) (w1 : windows) (c1 : C) (bars1 : list Z) : Prop := {
  wo_mask : cs_mask c1 = cs_mask c;
  wo_fixed : cs_fixed c1 = cs_fixed c;
  wo_regs : ∀ x, x < bar_offset i ∨ bar_offset 6 ≤ x → cs_read c1 x = cs_read c x;
  wo_win : win_inv w1 (l ++ assigned bars1 r);
  wo_le : win_le w w1;
  wo_len : length bars1 = 6%nat;
  wo_bars : ∀ j, 0 ≤ j < i → arr_get bars1 j = arr_get bars j;
  wo_done : Forall (bar_done w1 c1 bars1) r;
}.

Lemma win_le_trans w1 w2 w3 : win_le w1 w2 → win_le w2 w3 → win_le w1 w3.
Proof. unfold win_le. lia. Qed.

(** A turn that gets no address, and then the rest. *)
Lemma walk_skip i l w c bars r c1 bars1 w2 c2 bars2 : 0 ≤ i < 6 →
  turn_ok 1 i l w c bars w c1 bars1 [] → walk_ok (i + 1) l w c1 bars1 r w2 c2 bars2 → walk_ok i l w c bars r w2 c2 bars2.
Proof.
  intros Hi [] []. constructor; try done; [congruence|congruence| |].
  - intros x Hx. rewrite wo_regs0 by (unfold bar_offset in *; lia). apply to_regs0. unfold bar_offset in *. lia.
  - intros j Hj. rewrite wo_bars0 by lia. apply to_bars0; lia.
Qed.

(** A turn that uses [n] registers for one address, and then the rest. *)
Lemma walk_take n i k wide a l w c bars r w1 c1 bars1 w2 c2 bars2 : 0 ≤ i → 1 ≤ n → i + n ≤ 6 → (n = 1 → a < 2 ^ 32) → n ≤ 2 →
  turn_ok n i l w c bars w1 c1 bars1 (placed a k) → arr_get bars1 i = Some a → bar_holds c1 i a → (a = 0 → no_room w1 wide k) →
  walk_ok (i + n) (l ++ placed a k) w1 c1 bars1 r w2 c2 bars2 → walk_ok i l w c bars ((i, k, wide) :: r) w2 c2 bars2.
Proof.
  intros Hi Hn Hin Hone Htwo [] Hget [Hlo Hhi] Hno [].
  assert (arr_get bars2 i = Some a) as Hget2 by (rewrite wo_bars0 by lia; done).
  constructor; try done; [congruence|congruence| | | | |].
  - intros x Hx. rewrite wo_regs0 by (unfold bar_offset in *; lia). apply to_regs0. unfold bar_offset in *. lia.
  - unfold assigned. cbn [mbind list_bind]. rewrite Hget2. by rewrite app_assoc.
  - by eapply win_le_trans.
  - intros j Hj. rewrite wo_bars0 by lia. apply to_bars0; lia.
  - constructor; [|done]. exists a. split; [done|]. split.
    + split; [rewrite wo_regs0, wo_fixed0 by (unfold bar_offset; lia); done|]. intros Ha. rewrite wo_regs0 by (unfold bar_offset; lia). auto.
    + intros H0. eapply no_room_mono; eauto.
Qed.

(** The loop when register [i] gets no address. *)
Lemma loop_skip i l w c bars r fuel : 0 ≤ i < 6 → win_inv w l → length bars = 6%nat →
  reg_io c (bar_offset i) ∨ reg_absent c (bar_offset i) ∨ reg_reserved c (bar_offset i) ∨
    (i = 5 ∧ low_fixed c (bar_offset 5) ∧ (cs_fixed c (bar_offset 5) = 4 ∨ cs_fixed c (bar_offset 5) = 12)) →
  (∀ c1 bars1, cs_mask c1 = cs_mask c → cs_fixed c1 = cs_fixed c → length bars1 = 6%nat →
    ∃ w2 c2 bars2, bar_loop assign_bar (i + 1) (w, c1, bars1) fuel = Some (w2, c2, bars2) ∧ walk_ok (i + 1) l w c1 bars1 r w2 c2 bars2) →
  ∃ w2 c2 bars2, bar_loop assign_bar i (w, c, bars) (S fuel) = Some (w2, c2, bars2) ∧ walk_ok i l w c bars r w2 c2 bars2.
Proof.
  intros Hi Hw Hl Hk IH. cbn [bar_loop]. rewrite decide_True by lia. destruct (assign_skip i w l c bars Hi Hw Hl Hk) as (c1 & bars1 & -> & T).
  cbn [mbind option_bind]. destruct (IH c1 bars1) as (w2 & c2 & bars2 & -> & W); [apply T|apply T|apply T|].
  exists w2, c2, bars2. split; [done|]. eapply walk_skip; [lia|exact T|exact W].
Qed.

Lemma layout_start c i r : layout c i r → i ≤ 6.
Proof. induction 1; lia. Qed.

Lemma bar_loop_ok c i r : layout c i r → ∀ c0 w l bars fuel, cs_mask c0 = cs_mask c → cs_fixed c0 = cs_fixed c → 0 ≤ i →
  win_inv w l → length bars = 6%nat → (Z.to_nat (6 - i) < fuel)%nat →
  ∃ w1 c1 bars1, bar_loop assign_bar i (w, c0, bars) fuel = Some (w1, c1, bars1) ∧ walk_ok i l w c0 bars r w1 c1 bars1.
Proof.
  unfold reg_io, reg_absent, reg_reserved, reg_mem32, reg_mem64, low_fixed.
  induction 1 as [|i r Hi H Hr IH|i r Hi H Hr IH|i r Hi H Hr IH|i k r Hi H Hr IH|i k r Hi H Hr IH|H1 H2];
    intros c0 w l bars fuel Hm Hf Hi0 Hw Hl Hfuel; (destruct fuel as [|fuel]; [lia|]).
  - exists w, c0, bars. split; [done|]. constructor; try done. by rewrite app_nil_r.
  - apply loop_skip; [lia|done|done|left; unfold reg_io; by rewrite Hm, Hf|]. intros c1 bars1 M1 F1 L1. apply IH; [congruence|congruence|lia|done|done|lia].
  - apply loop_skip; [lia|done|done|right; left; unfold reg_absent; by rewrite Hm, Hf|]. intros c1 bars1 M1 F1 L1. apply IH; [congruence|congruence|lia|done|done|lia].
  - apply loop_skip; [lia|done|done|right; right; left; unfold reg_reserved, low_fixed; by rewrite Hm, Hf|]. intros c1 bars1 M1 F1 L1.
    apply IH; [congruence|congruence|lia|done|done|lia].
  - cbn [bar_loop]. rewrite decide_True by lia. destruct (assign_mem32 i k w l c0 bars) as (w1 & c1 & bars1 & a & -> & T & Hg & Hb & Ha & Hno);
      [lia|done|done|unfold reg_mem32; by rewrite Hm, Hf|]. cbn [mbind option_bind].
    destruct (IH c1 w1 (l ++ placed a k) bars1 fuel) as (w2 & c2 & bars2 & -> & W); [destruct T; congruence|destruct T; congruence|lia|apply T|apply T|lia|].
    exists w2, c2, bars2. split; [done|]. by eapply (walk_take 1 i k false a); [lia|lia|lia|lia|lia|exact T|done..].
  - pose proof (layout_start c (i + 2) r Hr) as Hs. cbn [bar_loop]. rewrite decide_True by lia. destruct (assign_mem64 i k w l c0 bars) as (w1 & c1 & bars1 & a & -> & T & Hg & Hb & Hno);
      [lia|done|done|unfold reg_mem64; by rewrite Hm, Hf|]. cbn [mbind option_bind].
    destruct (IH c1 w1 (l ++ placed a k) bars1 fuel) as (w2 & c2 & bars2 & -> & W); [destruct T; congruence|destruct T; congruence|lia|apply T|apply T|lia|].
    exists w2, c2, bars2. split; [done|]. by eapply (walk_take 2 i k true a); [lia|lia|lia|lia|lia|exact T|done..].
  - apply loop_skip; [lia|done|done|right; right; right; unfold low_fixed; by rewrite Hm, Hf|]. intros c1 bars1 M1 F1 L1.
    destruct fuel as [|fuel]; [lia|]. exists w, c1, bars1. split; [done|]. constructor; try done. by rewrite app_nil_r.
Qed.

(** The drivers' calls, one function after the other. *)
Fixpoint assign_each (w : windows) (fs : list C) : option (windows * list (C * list Z)) :=
  match fs with
  | [] => Some (w, [])
  | c :: fs' =>
      '(w1, c1, bars) ← pci_assign_bars w c (replicate 6 0);
      '(w2, out) ← assign_each w1 fs';
      Some (w2, (c1, bars) :: out)
  end.

(** One function after its call: registers that are not base address registers
    are as before, and every memory register has been dealt with. *)
Definition configured (w : windows) c (r : list (Z * Z * bool)) (o : C * list Z) : Prop :=
  (∀ x, x < PCI_BAR0 ∨ PCI_BAR0 + 24 ≤ x → cs_read (fst o) x = cs_read c x) ∧ Forall (bar_done w (fst o) (snd o)) r.

Definition all_assigned (rs : list (list (Z * Z * bool))) (out : list (C * list Z)) : list (Z * Z) :=
  concat (zip_with (λ r o, assigned (snd o) r) rs out).

Lemma bar_done_mono w w' c bars r : win_le w w' → Forall (bar_done w c bars) r → Forall (bar_done w' c bars) r.
Proof.
  intros Hle Hf. eapply Forall_impl; [exact Hf|]. intros [[j k] wide] (a & H1 & H2 & H3). exists a. split; [done|]. split; [done|].
  intros H0. eapply no_room_mono; eauto.
Qed.

Lemma assign_each_spec fs rs : Forall2 (λ c r, layout c 0 r) fs rs → ∀ w l, win_inv w l →
  ∃ w' out, assign_each w fs = Some (w', out) ∧ Forall3 (configured w') fs rs out ∧ win_inv w' (l ++ all_assigned rs out) ∧ win_le w w'.
Proof.
  induction 1 as [|c r fs rs Hc _ IH]; intros w l Hw; cbn [assign_each].
  - exists w, []. split; [done|]. split; [constructor|]. split; [by rewrite app_nil_r|]. done.
  - destruct (bar_loop_ok c 0 r Hc c w l (replicate 6 0) 7) as (w1 & c1 & bars & E & W); [done|done|lia|done|done|cbn; lia|].
    unfold pci_assign_bars. rewrite E. cbn [mbind option_bind].
    destruct W as [_ _ Wr Ww Wle _ _ Wd]. destruct (IH w1 _ Ww) as (w2 & out & -> & F & Hw2 & Hle). cbn [mbind option_bind].
    exists w2, ((c1, bars) :: out). split; [done|]. split; [|split; [|by eapply win_le_trans]].
    + constructor; [|done]. split; [intros x Hx; apply Wr; unfold bar_offset, PCI_BAR0 in *; lia|]. by eapply bar_done_mono.
    + unfold all_assigned in *. cbn [zip_with concat snd]. by rewrite app_assoc.
Qed.
End Regs.

(** C31. Whatever memory registers the functions on the bus have, configuring them
    one after the other with [pci_assign_bars] always ends; every register of
    [2 ^ k] bytes is found to have that size, 64-bit pairs included, and gets an
    address that is recorded in [bar_addr] and reads back from configuration
    space.  All the regions given out, to all functions, are disjoint, aligned to
    their size and inside their window; a register is left at address 0 only when
    the window has less than its size left.  No other register of a function
    changes. *)
Theorem pci_assign_bars_correct {C : Type} `{!ConfigSpace C} (fs : list C) (rs : list (list (Z * Z * bool)))
    (Hlay : Forall2 (λ c r, layout c 0 r) fs rs) :
  ∃ w out, assign_each (mk_win PCI_MMIO32_PHYS PCI_MMIO64_PHYS) fs = Some (w, out) ∧
    Forall3 (configured w) fs rs out ∧
    pairwise apart2 (all_assigned rs out) ∧
    Forall (λ p, fst p mod snd p = 0 ∧ (PCI_MMIO32_PHYS ≤ fst p ∧ fst p + snd p - 1 ≤ PCI_MMIO32_LIMIT ∨
                                        PCI_MMIO64_PHYS ≤ fst p ∧ fst p + snd p - 1 ≤ PCI_MMIO64_LIMIT)) (all_assigned rs out).
Proof.
  destruct (assign_each_spec fs rs Hlay (mk_win PCI_MMIO32_PHYS PCI_MMIO64_PHYS) []) as (w & out & E & F & [_ _ Hr Hap] & _).
  { constructor; cbn [mmio32_next mmio64_next]; [unfold PCI_MMIO32_PHYS; lia|unfold PCI_MMIO64_PHYS; lia|by constructor|done]. }
  exists w, out. split; [done|]. split; [done|]. split; [done|]. eapply Forall_impl; [exact Hr|]. unfold region_ok. lia.
Qed.

(** ** The capability list *)

Section CapsSpec.
Context (read8 read16 read32 : Z → Z).
(** A byte of configuration space is a byte. *)
Hypothesis Hbyte : ∀ x, 0 ≤ read8 x < 256.

(** The capabilities from [p] on, in list order, when the list ends. *)
Inductive chain : Z → list Z → Prop :=
  | ch_end : chain 0 []
  | ch_cap p l : p ≠ 0 → chain (read8 (p + 1)) l → chain p (p :: l).

(** The structure of type [t] that the capability at [p] locates. *)
Definition cap_at (bars : list Z) (t p : Z) : option Z :=
  if decide (read8 p = 0x09 ∧ read8 (p + 3) = t ∧ read8 (p + 4) < 6) then
    (λ base, base +w read32 (p + 8)) <$> arr_get bars (read8 (p + 4))
  else None.

(** The last capability of each type counts. *)
Definition located (bars : list Z) (caps : virtio_pci_caps) (l : list Z) : virtio_pci_caps :=
  let final t old := default old (last (omap (cap_at bars t) l)) in
  mk_caps (final 1 (common_cfg caps)) (final 2 (notify_base caps)) (final 3 (isr_cfg caps)) (final 4 (device_cfg caps))
    (default (notify_off_multiplier caps) (last (omap (λ p, _ ← cap_at bars 2 p; Some (read32 (p + 0x10))) l))).

Lemma last_omap_cons {A} (f : Z → option A) d p l : default d (last (omap f (p :: l))) = default (default d (f p)) (last (omap f l)).
Proof. cbn [omap list_omap]. destruct (f p) as [y|]; [|done]. rewrite last_cons. by destruct (last (omap f l)). Qed.

Lemma populate_located bars caps p : length bars = 6%nat → read8 p = 0x09 →
  virtio_populate_capabilities read8 read32 bars caps p = Some (located bars caps [p]).
Proof.
  intros Hl H9. unfold virtio_populate_capabilities, located. rewrite !last_omap_cons. cbn [omap list_omap last default]. unfold cap_at.
  destruct (decide (6 ≤ read8 (p + 4))) as [Hb|Hb].
  - rewrite !decide_False by lia. cbn [mbind option_bind default]. by destruct caps.
  - pose proof (Hbyte (p + 4)). rewrite (arr_get_lt bars) by lia. set (base := bars !!! _).
    cbn [mbind option_bind fmap option_fmap option_map]. repeat (case_decide; try lia); cbn [mbind option_bind default fmap option_fmap option_map]; by destruct caps.
Qed.

Lemma cap_at_other bars t p : read8 p ≠ 0x09 → cap_at bars t p = None.
Proof. intros H. unfold cap_at. apply decide_False. tauto. Qed.

Lemma located_cons bars caps p l : located bars caps (p :: l) = located bars (located bars caps [p]) l.
Proof. unfold located. rewrite !(last_omap_cons _ _ p l), !(last_omap_cons _ _ p []). done. Qed.

Lemma parse_caps_chain bars p l fuel : length bars = 6%nat → chain p l → (length l < fuel)%nat →
  ∀ caps, parse_caps read8 read32 bars caps p fuel = Some (located bars caps l).
Proof.
  intros Hl Hc. revert fuel. induction Hc as [|p l Hp _ IH]; intros fuel Hf caps; (destruct fuel as [|fuel]; [cbn in Hf; lia|]); cbn [parse_caps].
  - unfold located. cbn. by destruct caps.
  - rewrite decide_False by done. rewrite located_cons. cbn [length] in Hf. destruct (decide (read8 p = 0x09)) as [H9|H9].
    + rewrite decide_False by lia. rewrite populate_located by done. cbn [mbind option_bind]. apply IH. lia.
    + assert (located bars caps [p] = caps) as ->.
      { unfold located. rewrite !last_omap_cons, !cap_at_other by done. cbn. by destruct caps. }
      case_decide; cbn [mbind option_bind]; apply IH; lia.
Qed.

(** The pointers of the list, one after the other. *)
Definition hop (p : Z) : Z := if decide (p = 0) then 0 else read8 (p + 1).

Lemma chain_from n p : Nat.iter n hop p = 0 → ∃ l, chain p l ∧ (length l ≤ n)%nat.
Proof.
  revert p. induction n as [|n IH]; intros p H.
  - cbn in H. subst p. exists []. split; [constructor|done].
  - rewrite Nat.iter_succ_r in H. destruct (IH _ H) as (l & Hl & Hn). unfold hop in Hl. case_decide as Hp.
    + subst p. exists []. split; [constructor|cbn; lia].
    + exists (p :: l). split; [by constructor|cbn; lia].
Qed.

Lemma parse_caps_ends bars caps p fuel caps' : parse_caps read8 read32 bars caps p fuel = Some caps' → Nat.iter fuel hop p = 0.
Proof.
  revert p caps. induction fuel as [|fuel IH]; intros p caps; cbn [parse_caps]; [done|]. rewrite Nat.iter_succ_r. unfold hop at 2. case_decide as Hp.
  - intros _. subst p. clear. induction fuel as [|fuel IH]; [done|]. rewrite Nat.iter_succ_r. done.
  - intros (c1 & _ & H)%bind_Some. by eapply IH.
Qed.

Lemma hop_range n p : 0 ≤ p < 256 → 0 ≤ Nat.iter n hop p < 256.
Proof. intros Hp. induction n as [|n IH]; [done|]. rewrite Nat.iter_succ. generalize (Nat.iter n hop p). intros x. unfold hop. case_decide; [lia|apply Hbyte]. Qed.

Lemma hop_zero n m p : (n ≤ m)%nat → Nat.iter n hop p = 0 → Nat.iter m hop p = 0.
Proof. intros Hle H. replace m with ((m - n) + n)%nat by lia. rewrite Nat.iter_add, H. induction (m - n)%nat as [|k IH]; [done|]. by rewrite Nat.iter_succ, IH. Qed.

(** A list that is not over after 255 capabilities comes back to one of them. *)
Lemma hop_cycle p : 0 ≤ p < 256 → Nat.iter 255 hop p ≠ 0 → ∀ n, Nat.iter n hop p ≠ 0.
Proof.
  intros Hp H255 n. induction (lt_wf n) as [n _ IH]. intros H0. destruct (decide (n ≤ 255)%nat) as [Hn|Hn]; [by apply H255, (hop_zero n)|].
  set (l := (λ i, Nat.iter i hop p) <$> seq 0 n).
  assert (NoDup l) as Hnd.
  { assert (∀ i j, (i < j < n)%nat → Nat.iter i hop p ≠ Nat.iter j hop p) as Hd.
    { intros i j Hij E. apply (IH ((n - j) + i)%nat); [lia|]. rewrite Nat.iter_add, E, <- Nat.iter_add, Nat.sub_add by lia. exact H0. }
    apply NoDup_fmap_2_strong; [|apply NoDup_seq]. intros i j Hi%elem_of_seq Hj%elem_of_seq E.
    destruct (lt_eq_lt_dec i j) as [[H|H]|H]; [|done|]; exfalso; [apply (Hd i j)|apply (Hd j i)]; done || lia. }
  assert (l ⊆+ seqZ 1 255) as Hsub.
  { apply NoDup_submseteq; [done|]. intros x (i & -> & Hi%elem_of_seq)%list_elem_of_fmap. apply elem_of_seqZ. pose proof (hop_range i p Hp). pose proof (IH i ltac:(lia)). lia. }
  apply submseteq_length in Hsub. unfold l in Hsub. rewrite length_fmap, length_seq, length_seqZ in Hsub. lia.
Qed.

(** C32. The capability walk of [virtio_parse_capabilities], on a device with the
    capability bit set: when the list ends it has at most 255 entries, the walk
    visits each of them once and the four structures are located by the last
    vendor capability of their type whose register number is below 6; when the
    list does not end the walk never returns, since the code does not remember
    where it has been. *)
Theorem virtio_parse_capabilities_correct (bars : list Z) (caps : virtio_pci_caps) (Hbars : length bars = 6%nat)
    (Hstatus : Z.testbit (read16 PCI_STATUS) 4 = true) :
  (∃ l, chain (read8 PCI_CAP_PTR) l ∧ (length l ≤ 255)%nat ∧
     ∀ fuel, (256 ≤ fuel)%nat → virtio_parse_capabilities read8 read16 read32 bars caps fuel = Some (located bars caps l)) ∨
  (∀ l, ¬ chain (read8 PCI_CAP_PTR) l) ∧ ∀ fuel, virtio_parse_capabilities read8 read16 read32 bars caps fuel = None.
Proof.
  assert (∀ fuel, virtio_parse_capabilities read8 read16 read32 bars caps fuel = parse_caps read8 read32 bars caps (read8 PCI_CAP_PTR) fuel) as E.
  { intros fuel. unfold virtio_parse_capabilities. rewrite decide_False; [done|]. intros H. apply (f_equal (λ z, Z.testbit z 4)) in H.
    rewrite Z.land_spec, Hstatus in H. done. }
  destruct (decide (Nat.iter 255 hop (read8 PCI_CAP_PTR) = 0)) as [Hz|Hz].
  - left. destruct (chain_from 255 _ Hz) as (l & Hc & Hl). exists l. split; [done|]. split; [done|]. intros fuel Hf. rewrite E. apply parse_caps_chain; [done|done|lia].
  - right. pose proof (hop_cycle _ (Hbyte _) Hz) as Hn. split.
    + intros l Hc. destruct (parse_caps read8 read32 bars caps (read8 PCI_CAP_PTR) (S (length l))) as [c|] eqn:Ep.
      * by apply parse_caps_ends, Hn in Ep.
      * rewrite (parse_caps_chain bars _ l) in Ep; [done|done|done|lia].
    + intros fuel. rewrite E. destruct (parse_caps _ _ _ _ _ fuel) as [c|] eqn:Ep; [|done]. by apply parse_caps_ends, Hn in Ep.
Qed.
End CapsSpec.

(** ** Witnesses *)

(** A function whose registers are a list of (writable bits, read-only bits, value). *)
Record toy_cfg := mk_toy { toy_mask : Z → Z; toy_fixed : Z → Z; toy_val : Z → Z }.

#[refine] Instance toy_config : ConfigSpace toy_cfg := {
  cs_read c o := Z.lor (Z.land (toy_val c o) (toy_mask c o)) (toy_fixed c o);
  cs_write c o v := mk_toy (toy_mask c) (toy_fixed c) (λ o', if decide (o' = o) then v else toy_val c o');
  cs_mask := toy_mask;
  cs_fixed := toy_fixed;
}.
Proof.
  - done.
  - intros c o v o'. cbn [toy_mask toy_fixed toy_val]. case_decide as E; [by rewrite E|done].
  - intros c o. by exists (toy_val c o).
Defined.

(** A function with a 4 KiB register at 1 and a 16 KiB 64-bit pair at 4. *)
Definition toy_function : toy_cfg :=
  mk_toy (λ o, if decide (o = bar_offset 1) then 2 ^ 32 - 2 ^ 12 else if decide (o = bar_offset 4) then 2 ^ 32 - 2 ^ 14 else if decide (o = bar_offset 5) then 2 ^ 32 - 1 else 0)
    (λ o, if decide (o = bar_offset 4) then 12 else 0) (λ _, 0).

Lemma toy_layout : layout toy_function 0 [(1, 12, false); (4, 14, true)].
Proof.
  apply lay_absent; [lia|by split|]. apply lay_mem32; [lia|split; [lia|]; split; [done|by left]|].
  apply lay_absent; [lia|by split|]. apply lay_absent; [lia|by split|].
  apply lay_mem64; [lia| |apply lay_end]. split; [lia|]. split; [by right|]. split; [done|]. left. split; [lia|]. by split.
Qed.

Lemma pci_assign_bars_correct_witness :
  ∃ w out, assign_each (mk_win PCI_MMIO32_PHYS PCI_MMIO64_PHYS) [toy_function; toy_function] = Some (w, out) ∧
    pairwise apart2 (all_assigned [[(1, 12, false); (4, 14, true)]; [(1, 12, false); (4, 14, true)]] out) ∧
    (snd <$> out) = [[0; 0x10000000; 0; 0; 0x8000000000; 0]; [0; 0x10001000; 0; 0; 0x8000004000; 0]].
Proof.
  destruct (pci_assign_bars_correct [toy_function; toy_function] [[(1, 12, false); (4, 14, true)]; [(1, 12, false); (4, 14, true)]])
    as (w & out & E & _ & H & _); [apply Forall2_cons; split; [apply toy_layout|]; apply Forall2_cons; split; [apply toy_layout|by apply Forall2_nil]|].
  exists w, out. split; [exact E|]. split; [exact H|].
  assert (match assign_each (mk_win PCI_MMIO32_PHYS PCI_MMIO64_PHYS) [toy_function; toy_function] with Some (_, o) => map snd o | None => [] end =
    [[0; 0x10000000; 0; 0; 0x8000000000; 0]; [0; 0x10001000; 0; 0; 0x8000004000; 0]]) as E2 by (vm_compute; reflexivity).
  rewrite E in E2. exact E2.
Defined.

(** Two capabilities: the common configuration at 0x1000 of register 4, and MSI-X;
    and one that points at itself. *)
Definition toy_caps (next : Z) (x : Z) : Z :=
  if decide (x = PCI_CAP_PTR) then 0x40 else if decide (x = 0x40) then 9 else if decide (x = 0x41) then next
  else if decide (x = 0x43) then 1 else if decide (x = 0x44) then 4 else if decide (x = 0x50) then 0x11 else 0.

Lemma toy_caps_byte next : 0 ≤ next < 256 → ∀ x, 0 ≤ toy_caps next x < 256.
Proof. intros Hn x. unfold toy_caps. repeat case_decide; lia. Qed.

Lemma virtio_parse_capabilities_correct_witness :
  (∃ l, chain (toy_caps 0x50) 0x40 l ∧
    virtio_parse_capabilities (toy_caps 0x50) (λ _, 0x10) (λ _, 0x1000) [0; 0; 0; 0; 0x8000000000; 0] (mk_caps 0 0 0 0 0) 256 =
      Some (mk_caps 0x8000001000 0 0 0 0)) ∧
  (∀ fuel, virtio_parse_capabilities (toy_caps 0x40) (λ _, 0x10) (λ _, 0x1000) [0; 0; 0; 0; 0x8000000000; 0] (mk_caps 0 0 0 0 0) fuel = None).
Proof.
  split.
  - destruct (virtio_parse_capabilities_correct (toy_caps 0x50) (λ _, 0x10) (λ _, 0x1000) (toy_caps_byte 0x50 ltac:(lia))
      [0; 0; 0; 0; 0x8000000000; 0] (mk_caps 0 0 0 0 0) eq_refl eq_refl) as [(l & Hc & _ & _)|[_ H]].
    + exists l. split; [exact Hc|]. vm_compute. reflexivity.
    + specialize (H 3%nat). vm_compute in H. discriminate.
  - destruct (virtio_parse_capabilities_correct (toy_caps 0x40) (λ _, 0x10) (λ _, 0x1000) (toy_caps_byte 0x40 ltac:(lia))
      [0; 0; 0; 0; 0x8000000000; 0] (mk_caps 0 0 0 0 0) eq_refl eq_refl) as [(l & Hc & Hl & H)|[_ H]]; [|exact H].
    specialize (H 256%nat (le_n _)). assert (virtio_parse_capabilities (toy_caps 0x40) (λ _, 0x10) (λ _, 0x1000)
      [0; 0; 0; 0; 0x8000000000; 0] (mk_caps 0 0 0 0 0) 256 = None) as E by (vm_compute; reflexivity).
    discriminate (eq_trans (eq_sym E) H).
Defined.
