(* ===== verification/UserMem.v ===== *)
(** User memory as the kernel reaches it in a system call: the two range checks of
    [src/src/syscall/syscall.c] ([user_buf_ok], [user_str_ok]) and what they are
    worth.

    Memory is a map from addresses to bytes, the user half and the kernel half
    together, as the kernel sees it; an address that is not mapped is a fault. *)
From S2P Require Import Prelude Mmu.

Implicit Types m : gmap Z Z.

(** ** Accesses *)

Definition load m (a n : Z) : option (list Z) := mapM (λ x, m !! x) (seqZ a n).
Definition store m (a : Z) (bs : list Z) : option (gmap Z Z) :=
  if decide (Forall (λ x, is_Some (m !! x)) (seqZ a (Z.of_nat (length bs)))) then Some (mem_write m a bs) else None.

(** ** The checks *)

Definition USER_PATH_MAX : Z := 4096.

Definition user_buf_ok (ptr len : Z) : bool :=
  if decide (len = 0) then true
  else if decide (ptr +w len < ptr) then false
  else if decide (USER_VA_TOP < ptr +w len) then false
  else true.

Fixpoint str_scan m (ptr i : Z) (n : nat) : option Z :=
  match n with
  | O => Some (-1)
  | S n' => b ← m !! (ptr + i); if decide (b = 0) then Some i else str_scan m ptr (i + 1) n'
  end.

Definition user_str_ok m (ptr : Z) : option Z :=
  if decide (USER_VA_TOP ≤ ptr) then Some (-1)
  else
    let bound := USER_VA_TOP - ptr in
    let bound := if decide (USER_PATH_MAX < bound) then USER_PATH_MAX else bound in
    str_scan m ptr 0 (Z.to_nat bound).

(** ** Loads and stores *)

(** The bytes [bs] are in memory from [p] on. *)
Definition holds m (p : Z) (bs : list Z) : Prop := ∀ i x, bs !! i = Some x → m !! (p + Z.of_nat i) = Some x.

Lemma load_Some m a n bs : load m a n = Some bs ↔ length bs = Z.to_nat n ∧ holds m a bs.
Proof.
  unfold load, holds. rewrite mapM_Some. split.
  - intros H. split; [apply Forall2_length in H; by rewrite length_seqZ in H|]. intros i x Hx.
    rewrite Forall2_lookup in H. specialize (H i). rewrite Hx in H. inversion H as [y ? Hy E|]; subst. symmetry in E. apply lookup_seqZ in E as [-> _]. done.
  - intros [Hl H]. apply Forall2_lookup. intros i. destruct (bs !! i) as [x|] eqn:Ex.
    + pose proof (lookup_lt_Some _ _ _ Ex). rewrite (proj2 (lookup_seqZ _ _ _ (a + Z.of_nat i))) by lia. constructor. by apply H.
    + apply lookup_ge_None in Ex. rewrite (proj2 (lookup_ge_None (seqZ a n) i)) by (rewrite length_seqZ; lia). constructor.
Qed.

Lemma load_holds m p bs o n : holds m p bs → 0 ≤ o → 0 ≤ n → o + n ≤ Z.of_nat (length bs) → load m (p + o) n = Some (slice bs o n).
Proof.
  intros H Ho Hn Hl. apply load_Some. unfold slice. split; [rewrite length_take, length_drop; lia|].
  intros i x Hx. apply lookup_take_Some in Hx as [Hx Hi]. rewrite lookup_drop in Hx. apply H in Hx. rewrite <- Hx. f_equal. lia.
Qed.

Lemma holds_app m p a b : holds m p (a ++ b) ↔ holds m p a ∧ holds m (p + Z.of_nat (length a)) b.
Proof.
  unfold holds. split.
  - intros H. split; intros i x Hx; [apply H; by apply lookup_app_l_Some|].
    rewrite <- (H (length a + i)%nat x); [f_equal; lia|]. rewrite lookup_app_r by lia. by replace (length a + i - length a)%nat with i by lia.
  - intros [Ha Hb] i x Hx. apply lookup_app_Some in Hx as [Hx|[Hi Hx]]; [by apply Ha|]. rewrite <- (Hb _ _ Hx). f_equal. lia.
Qed.

Lemma holds_ext m m' p bs : (∀ x, p ≤ x < p + Z.of_nat (length bs) → m' !! x = m !! x) → holds m p bs → holds m' p bs.
Proof. intros E H i x Hx. pose proof (lookup_lt_Some _ _ _ Hx). rewrite E by lia. by apply H. Qed.

Lemma store_ok m a bs : (∀ x, a ≤ x < a + Z.of_nat (length bs) → is_Some (m !! x)) →
  ∃ m', store m a bs = Some m' ∧ holds m' a bs ∧ dom m' = dom m ∧ (∀ x, ¬ (a ≤ x < a + Z.of_nat (length bs)) → m' !! x = m !! x).
Proof.
  intros H. exists (mem_write m a bs). unfold store. rewrite decide_True by (apply Forall_seqZ; intros x Hx; apply H; lia). split; [done|].
  split; [|split; [|intros x Hx; by apply mem_write_outside]].
  - intros i x Hx. pose proof (lookup_lt_Some _ _ _ Hx). rewrite mem_write_lookup, decide_True by lia. rewrite <- Hx. f_equal. lia.
  - apply set_eq. intros x. rewrite !elem_of_dom, mem_write_lookup. case_decide as Hx; [|done].
    split; [intros _; apply H; lia|]. intros _. apply lookup_lt_is_Some_2. lia.
Qed.

Lemma store_Some m a bs m' : store m a bs = Some m' → m' = mem_write m a bs ∧ (∀ x, a ≤ x < a + Z.of_nat (length bs) → is_Some (m !! x)).
Proof.
  unfold store. case_decide as H; [|done]. intros [= <-]. split; [done|]. intros x Hx. rewrite Forall_seqZ in H. apply H. lia.
Qed.

(** ** What the checks promise *)

Lemma user_buf_ok_spec ptr len : 0 ≤ ptr < 2 ^ 64 → 0 ≤ len < 2 ^ 64 →
  user_buf_ok ptr len = true ↔ len = 0 ∨ ptr + len ≤ USER_VA_TOP.
Proof.
  intros Hp Hl. unfold user_buf_ok, add64. case_decide as H0; [tauto|]. unfold USER_VA_TOP.
  destruct (decide (ptr + len < 2 ^ 64)) as [Hs|Hs].
  - rewrite wrap64_small by lia. repeat case_decide; split; intros; try done; lia.
  - assert (wrap64 (ptr + len) = ptr + len - 2 ^ 64) as ->.
    { unfold wrap64. rewrite <- (Z.mod_add _ (-1)) by lia. rewrite Z.mod_small; lia. }
    rewrite decide_True by lia. split; [done|lia].
Qed.

Lemma str_scan_spec m ptr i n r : 0 ≤ i → str_scan m ptr i n = Some r →
  r = -1 ∨ i ≤ r < i + Z.of_nat n ∧ m !! (ptr + r) = Some 0 ∧ ∃ s, load m (ptr + i) (r - i) = Some s ∧ 0 ∉ s.
Proof.
  revert i. induction n as [|n IH]; intros i Hi; cbn [str_scan]; [intros [= <-]; by left|].
  intros (b & Hb & H)%bind_Some. case_decide as Hz.
  - injection H as <-. subst b. right. split; [lia|]. split; [done|]. exists []. split; [|apply not_elem_of_nil].
    apply load_Some. split; [cbn; lia|]. by intros k x Hx.
  - destruct (IH (i + 1) ltac:(lia) H) as [->|(Hr & H0 & s & Hs & Hnz)]; [by left|right]. split; [lia|]. split; [done|].
    exists (b :: s). apply load_Some in Hs as [Hl Hs]. split; [|by apply not_elem_of_cons]. apply load_Some. split; [cbn [length]; lia|].
    intros [|k] x Hx; cbn in Hx; [injection Hx as <-; rewrite <- Hb; f_equal; lia|]. rewrite <- (Hs k x Hx). f_equal. lia.
Qed.

(** A string that passes lies below [USER_VA_TOP] with its terminator. *)
Lemma user_str_ok_spec m ptr r : 0 ≤ ptr → user_str_ok m ptr = Some r → 0 ≤ r →
  r < USER_PATH_MAX ∧ ptr + r < USER_VA_TOP ∧ m !! (ptr + r) = Some 0 ∧ ∃ s, load m ptr r = Some s ∧ 0 ∉ s.
Proof.
  intros Hp H Hr. unfold user_str_ok in H. case_decide as Ht; [injection H; lia|]. unfold USER_PATH_MAX in *.
  apply str_scan_spec in H as [->|(Hr' & H0 & s & Hs & Hnz)]; [lia| |lia]. rewrite Z.add_0_r, Z.sub_0_r in Hs.
  split; [case_decide; lia|]. split; [case_decide; lia|]. split; [done|]. by exists s.
Qed.

(** ** Memories that differ in kernel bytes only *)

Definition agree m1 m2 : Prop := ∀ x, 0 ≤ x < USER_VA_TOP → m1 !! x = m2 !! x.

(** Nothing outside the user range has changed. *)
Definition kernel_same m m' : Prop := ∀ x, ¬ (0 ≤ x < USER_VA_TOP) → m' !! x = m !! x.

#[export] Instance agree_equivalence : Equivalence agree.
Proof. split; [by intros m x|by intros m1 m2 H x Hx; rewrite H|intros m1 m2 m3 H1 H2 x Hx; by rewrite H1, H2]. Qed.

#[export] Instance kernel_same_preorder : PreOrder kernel_same.
Proof. split; [by intros m x|intros m1 m2 m3 H1 H2 x Hx; by rewrite H2, H1]. Qed.

Lemma load_agree m1 m2 a n : agree m1 m2 → 0 ≤ a → a + n ≤ USER_VA_TOP → load m1 a n = load m2 a n.
Proof.
  intros H Ha Hn. unfold load. apply option_eq. intros bs. rewrite !mapM_Some. rewrite !Forall2_lookup.
  assert (∀ i x, seqZ a n !! i = Some x → m1 !! x = m2 !! x) as E by (intros i x [-> Hi]%lookup_seqZ; apply H; lia).
  split; intros F i; specialize (F i); specialize (E i); (destruct (seqZ a n !! i), (bs !! i); inversion F; subst; constructor);
    (rewrite E || rewrite <- E); done.
Qed.

Lemma store_agree m1 m2 a bs : agree m1 m2 → 0 ≤ a → bs = [] ∨ a + Z.of_nat (length bs) ≤ USER_VA_TOP →
  match store m1 a bs, store m2 a bs with
  | Some m1', Some m2' => agree m1' m2' ∧ kernel_same m1 m1' ∧ kernel_same m2 m2'
  | None, None => True
  | _, _ => False
  end.
Proof.
  intros H Ha Hl. unfold store. set (P := λ m, Forall (λ x, is_Some (m !! x)) (seqZ a (Z.of_nat (length bs)))).
  assert (P m1 ↔ P m2) as E.
  { unfold P. rewrite !Forall_seqZ. split; intros F x Hx; specialize (F x Hx); (rewrite <- H || rewrite H); try done; destruct Hl as [->|]; cbn in *; lia. }
  unfold P in E. repeat case_decide; try tauto. split; [|split].
  - intros x Hx. rewrite !mem_write_lookup. case_decide; [done|by apply H].
  - intros x Hx. apply mem_write_outside. destruct Hl as [->|]; cbn in *; lia.
  - intros x Hx. apply mem_write_outside. destruct Hl as [->|]; cbn in *; lia.
Qed.

Lemma str_scan_agree m1 m2 ptr i n : agree m1 m2 → 0 ≤ ptr + i → ptr + i + Z.of_nat n ≤ USER_VA_TOP → str_scan m1 ptr i n = str_scan m2 ptr i n.
Proof.
  intros H. revert i. induction n as [|n IH]; intros i Hi Hn; [done|]. cbn [str_scan]. rewrite (H (ptr + i)) by lia.
  destruct (m2 !! (ptr + i)); [|done]. cbn. case_decide; [done|]. apply IH; lia.
Qed.

Lemma user_str_ok_agree m1 m2 ptr : agree m1 m2 → 0 ≤ ptr → user_str_ok m1 ptr = user_str_ok m2 ptr.
Proof. intros H Hp. unfold user_str_ok. case_decide; [done|]. apply str_scan_agree; [done|lia|case_decide; lia]. Qed.

(** Two runs that started from memories that agree: the same answer, memories that
    agree again, and kernel bytes untouched. *)
Definition alike {A} m1 m2 (x y : option (A * gmap Z Z)) : Prop :=
  match x, y with
  | Some (a, m1'), Some (b, m2') => a = b ∧ agree m1' m2' ∧ kernel_same m1 m1' ∧ kernel_same m2 m2'
  | None, None => True
  | _, _ => False
  end.

Lemma alike_bind {A B} m1 m2 (x y : option (A * gmap Z Z)) (f : A → gmap Z Z → option (B * gmap Z Z)) :
  alike m1 m2 x y → (∀ a n1 n2, x = Some (a, n1) → agree n1 n2 → alike n1 n2 (f a n1) (f a n2)) →
  alike m1 m2 ('(a, n) ← x; f a n) ('(a, n) ← y; f a n).
Proof.
  destruct x as [[a n1]|], y as [[b n2]|]; try done. intros (<- & Ha & K1 & K2) Hf. specialize (Hf a n1 n2 eq_refl Ha). cbn.
  unfold alike in *. destruct (f a n1) as [[c p1]|], (f a n2) as [[d p2]|]; try done. destruct Hf as (-> & Hp & L1 & L2).
  repeat split; [done|by etrans|by etrans].
Qed.

Lemma alike_ret {A} m1 m2 (a : A) : agree m1 m2 → alike m1 m2 (Some (a, m1)) (Some (a, m2)).
Proof. intros H. by repeat split. Qed.

Lemma alike_store m1 m2 a bs : agree m1 m2 → 0 ≤ a → bs = [] ∨ a + Z.of_nat (length bs) ≤ USER_VA_TOP →
  alike m1 m2 (m ← store m1 a bs; Some (tt, m)) (m ← store m2 a bs; Some (tt, m)).
Proof. intros H Ha Hl. pose proof (store_agree m1 m2 a bs H Ha Hl) as E. destruct (store m1 a bs), (store m2 a bs); done. Qed.
