(* ===== verification/Dirent.v ===== *)
(** Reading directories from user mode, both sides of the call: the getdents64
    case of [syscall_dispatch] in [src/src/syscall/syscall.c] over the directories
    of [Vnode], and [opendir] and [readdir] of [src/user/lib/dirent.c] over the
    records it leaves in user memory.

    The kernel stops as soon as [vfs_readdir] reports the end of the directory,
    which it does together with the last entry: that entry is consumed and never
    delivered ([readdir_misses_last]). *)
From S2P Require Import Prelude Mmu Vnode Fd UserMem.

Implicit Types m : gmap Z Z.

(** ** The kernel side *)

Definition LNX_DIRENT64_NAME_OFFSET : Z := 19.
Definition LNX_DT_DIR : Z := 4.
Definition LNX_DT_REG : Z := 8.
Definition EBADF : Z := 9.
Definition EFAULT : Z := 14.
Definition ENOTDIR : Z := 20.
Definition EOPNOTSUPP : Z := 95.

(** The fixed part of [struct linux_dirent64]. *)
Definition dirent64_header (ino off reclen type : Z) : list Z := le_bytes 8 ino ++ le_bytes 8 off ++ le_bytes 2 reclen ++ [type].

(** The name up to its terminator or the end of its array. *)
Definition dname (de : vfs_dirent) : list Z := take 256 (de_name de).

Definition record_len (de : vfs_dirent) : Z := Z.land (LNX_DIRENT64_NAME_OFFSET + Z.of_nat (length (dname de)) + 1 + 7) (not64 7).

Definition store_record m (p : Z) (de : vfs_dirent) (off : Z) : option (gmap Z Z) :=
  m ← store m p (dirent64_header (wrap64 (de_id de)) (wrap64 off) (record_len de mod 2 ^ 16) (if de_is_dir de then LNX_DT_DIR else LNX_DT_REG));
  m ← store m (p + LNX_DIRENT64_NAME_OFFSET) (dname de);
  store m (p + LNX_DIRENT64_NAME_OFFSET + Z.of_nat (length (dname de))) [0].

Section Kernel.
Context `{!DirOps}.

(** The loop: [failed], the cookie, memory and [used]. *)
Fixpoint getdents_loop (st : vfs) (dir : nat) (off : Z) m (out used count : Z) (fuel : nat) : option (bool * Z * gmap Z Z * Z) :=
  match fuel with
  | O => None
  | S f =>
      if decide (used < count) then
        let before := off in
        '(n, des, off, eof_now) ← vfs_readdir st (Some dir) off 1;
        if decide (n < 0) then Some (true, off, m, used)
        else if decide (n = 0 ∨ eof_now = true) then Some (false, off, m, used)
        else
          de ← des !! 0%nat;
          let reclen := record_len de in
          if decide (count < used + reclen) then Some (false, before, m, used)
          else
            m ← store_record m (out + used) de off;
            getdents_loop st dir off m out (used + reclen) count f
      else Some (false, off, m, used)
  end.

(** getdents64(fd, dirp, count), with the open file the descriptor refers to:
    the result, the error if there is one, the open file and memory. *)
Definition sys_getdents64 (st : vfs) (fl : option file) m (dirp count : Z) : option (Z * option Z * option file * gmap Z Z) :=
  if decide (count = 0) then Some (0, None, fl, m)
  else
    match fl with
    | None => Some (-1, Some EBADF, fl, m)
    | Some f =>
        dir ← node_pool st !! f_vnode f;
        if decide (vn_type dir ≠ VNODE_DIR) then Some (-1, Some ENOTDIR, fl, m)
        else if negb (user_buf_ok dirp count) then Some (-1, Some EFAULT, fl, m)
        else
          '(failed, off, m, used) ← getdents_loop st (f_vnode f) (f_offset f) m dirp 0 count (Z.to_nat (count / 24 + 2));
          if (failed : bool) then Some (-1, Some EOPNOTSUPP, fl, m)
          else Some (used, None, Some (mk_file (f_vnode f) off (f_flags f) (f_refcount f)), m)
    end.
End Kernel.

(** ** The user side *)

Definition D_INO_OFF : Z := 0.
Definition D_OFF_OFF : Z := 8.
Definition D_RECLEN_OFF : Z := 16.
Definition D_TYPE_OFF : Z := 18.
Definition D_NAME_OFF : Z := 19.
Definition NAME_MAX : Z := 255.
Definition DIR_BUF : Z := 1024.
Definition EIO : Z := 5.

Record dirent := mk_ent { d_ino : Z; d_off : Z; d_reclen : Z; d_type : Z; d_name : list Z }.

(** A stream: its buffer is at [d_buf] in memory, and [d_file] is the open file
    behind its descriptor. *)
Record DIR := mk_DIR { d_file : option file; d_eof : bool; d_buf : Z; buf_len : Z; buf_pos : Z; d_cur : dirent }.

Definition no_ent : dirent := mk_ent 0 0 0 0 [].

(** The bounded copy of a name. *)
Fixpoint copy_name m (name avail n : Z) (fuel : nat) : option (list Z) :=
  match fuel with
  | O => None
  | S f =>
      if decide (n < avail) then
        b ← m !! (name + n);
        if decide (b ≠ 0 ∧ n < NAME_MAX) then bs ← copy_name m name avail (n + 1) f; Some (b :: bs) else Some []
      else Some []
  end.

Section User.
Context `{!DirOps}.

(** [opendir] from the descriptor of [open] and the buffer of [calloc] on:
    [None] inside is the error. *)
Definition opendir (st : vfs) (fl : option file) m (buf : Z) : option ((Z + DIR) * gmap Z Z) :=
  '(got, err, fl, m) ← sys_getdents64 st fl m buf DIR_BUF;
  if decide (got < 0) then Some (inl (default 0 err), m) else Some (inr (mk_DIR fl false buf got 0 no_ent), m).

(** Serving one record of the batch. *)
Definition serve (d : DIR) m : option (option dirent * option Z * DIR * gmap Z Z) :=
  let rec := d_buf d + buf_pos d in
  rl ← load m (rec + D_RECLEN_OFF) 2;
  let reclen := le_value rl in
  if decide (reclen = 0 ∨ buf_len d < buf_pos d + reclen) then
    Some (None, Some EIO, mk_DIR (d_file d) true (d_buf d) (buf_len d) (buf_pos d) (d_cur d), m)
  else
    ino ← load m (rec + D_INO_OFF) 8;
    off ← load m (rec + D_OFF_OFF) 8;
    type ← m !! (rec + D_TYPE_OFF);
    name ← copy_name m (rec + D_NAME_OFF) (reclen -w D_NAME_OFF) 0 257;
    let cur := mk_ent (le_value ino) (le_value off) reclen type name in
    Some (Some cur, None, mk_DIR (d_file d) (d_eof d) (d_buf d) (buf_len d) (buf_pos d + reclen) cur, m).

(** [readdir]: the entry ([None] is NULL), the error set if any, the stream, memory. *)
Fixpoint readdir (st : vfs) (d : DIR) m (fuel : nat) : option (option dirent * option Z * DIR * gmap Z Z) :=
  match fuel with
  | O => None
  | S f =>
      if d_eof d then Some (None, None, d, m)
      else if decide (buf_pos d < buf_len d) then serve d m
      else
        '(got, err, fl, m) ← sys_getdents64 st (d_file d) m (d_buf d) DIR_BUF;
        if decide (got < 0) then Some (None, err, d, m)
        else if decide (got = 0) then Some (None, None, mk_DIR fl true (d_buf d) (buf_len d) (buf_pos d) (d_cur d), m)
        else readdir st (mk_DIR fl (d_eof d) (d_buf d) got 0 (d_cur d)) m f
  end.

(** A program that reads a stream to the end. *)
Fixpoint read_all (st : vfs) (d : DIR) m (fuel : nat) : option (list dirent * option Z * DIR * gmap Z Z) :=
  match fuel with
  | O => None
  | S f =>
      '(e, err, d, m) ← readdir st d m 2;
      match e with
      | None => Some ([], err, d, m)
      | Some e => '(es, err, d, m) ← read_all st d m f; Some (e :: es, err, d, m)
      end
  end.
End User.

(** ** Records in memory *)

(** An entry and the cookie that follows it. *)
Abbreviation entry := (vfs_dirent * Z)%type.

Definition record_bytes (x : entry) : list Z :=
  dirent64_header (wrap64 (de_id (fst x))) (wrap64 (snd x)) (record_len (fst x) mod 2 ^ 16) (if de_is_dir (fst x) then LNX_DT_DIR else LNX_DT_REG)
    ++ de_name (fst x) ++ [0].

(** What [readdir] hands out for it. *)
Definition user_ent (x : entry) : dirent :=
  mk_ent (wrap64 (de_id (fst x))) (wrap64 (snd x)) (record_len (fst x)) (if de_is_dir (fst x) then LNX_DT_DIR else LNX_DT_REG) (de_name (fst x)).

Definition short_name (x : entry) : Prop := (length (de_name (fst x)) ≤ 255)%nat ∧ 0 ∉ de_name (fst x).

Definition rec_size (x : entry) : Z := record_len (fst x).

(** The records of [a] one after the other from [p] on. *)
Fixpoint records m (p : Z) (a : list entry) : Prop :=
  match a with
  | [] => True
  | x :: a' => holds m p (record_bytes x) ∧ records m (p + rec_size x) a'
  end.

Lemma record_len_spec de : 20 + Z.of_nat (length (dname de)) ≤ record_len de ≤ 27 + Z.of_nat (length (dname de)) ∧ 24 ≤ record_len de ≤ 283.
Proof.
  unfold record_len, LNX_DIRENT64_NAME_OFFSET. set (n := Z.of_nat (length (dname de))).
  assert (0 ≤ n ≤ 256) as Hn by (unfold n, dname; rewrite length_take; lia). change (not64 7) with (not64 (2 ^ 3 - 1)). rewrite land_not_low by (lia || unfold is_u64; lia).
  pose proof (Z.mod_pos_bound (19 + n + 1 + 7) (2 ^ 3) ltac:(lia)) as Hm. split; [lia|].
  pose proof (Z.div_mod (19 + n + 1 + 7) (2 ^ 3) ltac:(lia)) as Hd. change (2 ^ 3) with 8 in *. lia.
Qed.

Lemma dname_short x : short_name x → dname (fst x) = de_name (fst x).
Proof. intros [Hl _]. apply take_ge. lia. Qed.

Lemma size_spec x : short_name x → 20 + Z.of_nat (length (de_name (fst x))) ≤ rec_size x ≤ 27 + Z.of_nat (length (de_name (fst x))) ∧ 24 ≤ rec_size x ≤ 283.
Proof. intros Hs. rewrite <- (dname_short x Hs). apply record_len_spec. Qed.

Lemma header_length8 a b c d : length (dirent64_header a b c d) = 19%nat.
Proof. unfold dirent64_header. by rewrite !length_app, !le_bytes_length. Qed.

Lemma record_bytes_length x : length (record_bytes x) = (20 + length (de_name (fst x)))%nat.
Proof. unfold record_bytes. rewrite !length_app, header_length8. cbn [length]. lia. Qed.

Lemma zsum_size_nonneg a : Forall short_name a → 0 ≤ zsum rec_size a.
Proof. induction 1 as [|y a Hy _ IH]; [done|]. rewrite zsum_cons. pose proof (size_spec y Hy). lia. Qed.

Lemma records_ext m m' p a : Forall short_name a → (∀ x, p ≤ x < p + zsum rec_size a → m' !! x = m !! x) → records m p a → records m' p a.
Proof.
  revert p. induction a as [|x a IH]; intros p Hs E; [done|]. apply Forall_cons in Hs as [Hx Hs]. intros [H Hr]. cbn [records].
  rewrite zsum_cons in E. pose proof (size_spec x Hx) as Hz.
  pose proof (zsum_size_nonneg a Hs) as Hz'.
  split; [eapply holds_ext; [|exact H]; rewrite record_bytes_length; intros y Hy; apply E; lia|]. apply IH; [done| |done]. intros y Hy. apply E. lia.
Qed.

(** Storing one record. *)
Lemma store_record_ok m p x : short_name x → (∀ y, p ≤ y < p + rec_size x → is_Some (m !! y)) →
  ∃ m', store_record m p (fst x) (snd x) = Some m' ∧ holds m' p (record_bytes x) ∧ dom m' = dom m ∧
    (∀ y, ¬ (p ≤ y < p + rec_size x) → m' !! y = m !! y).
Proof.
  intros Hs Hmap. pose proof (size_spec x Hs) as [Hz _]. unfold store_record. rewrite (dname_short x Hs). set (h := dirent64_header _ _ _ _). set (nm := de_name (fst x)) in *.
  assert (length h = 19%nat) as Hh by apply header_length8. unfold LNX_DIRENT64_NAME_OFFSET.
  destruct (store_ok m p h) as (m1 & -> & H1 & D1 & O1); [intros y Hy; apply Hmap; lia|]. cbn [mbind option_bind].
  assert (∀ y, is_Some (m1 !! y) ↔ is_Some (m !! y)) as E1 by (intros y; by rewrite <- !elem_of_dom, D1).
  destruct (store_ok m1 (p + 19) nm) as (m2 & -> & H2 & D2 & O2); [intros y Hy; apply E1, Hmap; lia|]. cbn [mbind option_bind].
  assert (∀ y, is_Some (m2 !! y) ↔ is_Some (m1 !! y)) as E2 by (intros y; by rewrite <- !elem_of_dom, D2).
  destruct (store_ok m2 (p + 19 + Z.of_nat (length nm)) [0]) as (m3 & -> & H3 & D3 & O3); [cbn [length]; intros y Hy; apply E2, E1, Hmap; lia|].
  cbn [length] in *. exists m3. split; [done|]. split; [|split; [congruence|intros y Hy; rewrite O3, O2, O1 by lia; done]].
  unfold record_bytes. fold h nm. rewrite !holds_app, Hh. change (Z.of_nat 19) with 19. split; [|split; [|done]].
  - eapply holds_ext; [|exact H1]. rewrite Hh. intros y Hy. rewrite O3, O2 by lia. done.
  - eapply holds_ext; [|exact H2]. intros y Hy. rewrite O3 by lia. done.
Qed.

(** ** Reading a record back *)

Lemma load_field m p (a b c : list Z) o n : holds m p (a ++ b ++ c) → o = Z.of_nat (length a) → n = Z.of_nat (length b) → load m (p + o) n = Some b.
Proof.
  intros Hh -> ->. rewrite (load_holds m p (a ++ b ++ c)) by (done || rewrite ?length_app; lia). f_equal. apply slice_mid.
Qed.

Lemma copy_name_ok m p avail nm : ∀ k fuel, holds m (p + k) (nm ++ [0]) → 0 ∉ nm → 0 ≤ k → k + Z.of_nat (length nm) < avail →
  k + Z.of_nat (length nm) ≤ NAME_MAX → (length nm < fuel)%nat → copy_name m p avail k fuel = Some nm.
Proof.
  unfold NAME_MAX. induction nm as [|b nm IH]; intros k fuel Hh Hz Hk Ha Hm Hf; (destruct fuel as [|fuel]; [lia|]); cbn [copy_name length] in *.
  - rewrite decide_True by lia. pose proof (Hh 0%nat 0 eq_refl) as E. rewrite Z.add_0_r in E. rewrite E. cbn [mbind option_bind]. by rewrite decide_False by lia.
  - rewrite decide_True by lia. pose proof (Hh 0%nat b eq_refl) as E. rewrite Z.add_0_r in E. rewrite E. cbn [mbind option_bind].
    apply not_elem_of_cons in Hz as [Hb Hz]. rewrite decide_True by (unfold NAME_MAX; lia). change ((b :: nm) ++ [0]) with ([b] ++ (nm ++ [0])) in Hh. apply holds_app in Hh as [_ Hh].
    cbn [length] in Hh. rewrite (IH (k + 1)) by (done || lia || (replace (p + (k + 1)) with (p + k + Z.of_nat 1) by lia; done)). done.
Qed.

Lemma serve_ok d m x a : records m (d_buf d + buf_pos d) (x :: a) → short_name x → 0 ≤ buf_pos d → buf_pos d + rec_size x ≤ buf_len d →
  serve d m = Some (Some (user_ent x), None, mk_DIR (d_file d) (d_eof d) (d_buf d) (buf_len d) (buf_pos d + rec_size x) (user_ent x), m).
Proof.
  intros [Hh _] Hs Hp Hl. pose proof (size_spec x Hs) as [Hz1 Hz2]. unfold serve. set (r := d_buf d + buf_pos d) in *. set (nm := de_name (fst x)) in *.
  unfold record_bytes, dirent64_header in Hh. fold nm in Hh. fold (rec_size x) in Hh. rewrite (Z.mod_small (rec_size x)) in Hh by lia. rewrite <- !app_assoc in Hh.
  set (ib := le_bytes 8 (wrap64 (de_id (fst x)))) in *. set (ob := le_bytes 8 (wrap64 (snd x))) in *. set (rb := le_bytes 2 (rec_size x)) in *. set (ty := if de_is_dir (fst x) then _ else _) in *.
  assert (length ib = 8%nat) as Li by apply le_bytes_length. assert (length ob = 8%nat) as Lo by apply le_bytes_length. assert (length rb = 2%nat) as Lr by apply le_bytes_length.
  assert (le_value ib = wrap64 (de_id (fst x))) as Vi by (apply le_value_bytes, wrap64_range). assert (le_value ob = wrap64 (snd x)) as Vo by (apply le_value_bytes, wrap64_range).
  assert (le_value rb = rec_size x) as Vr by (apply le_value_bytes; lia).
  assert (load m (r + D_RECLEN_OFF) 2 = Some rb) as ->.
  { pose proof Hh as Hh'. rewrite (app_assoc ib ob) in Hh'. eapply (load_field m r (ib ++ ob) rb); [exact Hh'|rewrite length_app, Li, Lo; done|by rewrite Lr]. }
  cbn [mbind option_bind]. rewrite Vr. rewrite decide_False by lia.
  assert (load m (r + D_INO_OFF) 8 = Some ib) as -> by (eapply (load_field m r [] ib); [exact Hh|done|by rewrite Li]).
  assert (load m (r + D_OFF_OFF) 8 = Some ob) as -> by (eapply (load_field m r ib ob); [exact Hh|by rewrite Li|by rewrite Lo]).
  rewrite !holds_app, Li, Lo, Lr in Hh. destruct Hh as (_ & _ & _ & Hty & Hnm). cbn [length] in Hnm.
  assert (m !! (r + D_TYPE_OFF) = Some ty) as ->.
  { rewrite <- (Hty 0%nat ty eq_refl). f_equal. unfold D_TYPE_OFF. lia. }
  cbn [mbind option_bind]. rewrite (copy_name_ok m (r + D_NAME_OFF) (rec_size x -w D_NAME_OFF) nm).
  - cbn [mbind option_bind]. rewrite Vi, Vo. done.
  - replace (r + D_NAME_OFF + 0) with (r + Z.of_nat 8 + Z.of_nat 8 + Z.of_nat 2 + Z.of_nat 1) by (unfold D_NAME_OFF; lia). by apply holds_app.
  - apply Hs.
  - lia.
  - unfold D_NAME_OFF. rewrite sub64_small by lia. lia.
  - destruct Hs as [Hs1 _]. fold nm in Hs1. unfold NAME_MAX. lia.
  - destruct Hs as [Hs1 _]. fold nm in Hs1. lia.
Qed.

(** ** One call *)

(** What a call with room for [room] bytes reports of the entries [es], and the
    entries it leaves for the next: the last one is consumed unreported. *)
Fixpoint batch (es : list entry) (room : Z) : list entry * list entry :=
  match es with
  | [] => ([], [])
  | [x] => if decide (0 < room) then ([], []) else ([], [x])
  | x :: es' => if decide (rec_size x ≤ room) then let '(a, b) := batch es' (room - rec_size x) in (x :: a, b) else ([], es)
  end.

Lemma batch_cons2 x y es room :
  batch (x :: y :: es) room = if decide (rec_size x ≤ room) then let '(a, b) := batch (y :: es) (room - rec_size x) in (x :: a, b) else ([], x :: y :: es).
Proof. done. Qed.

Lemma batch_split es room : let '(a, b) := batch es room in a ++ b = es ∧ b ≠ [] ∨ b = [] ∧ a = removelast es.
Proof.
  revert room. induction es as [|x es IH]; intros room; [by right|]. destruct es as [|y es].
  - cbn. case_decide; [by right|left]. by split.
  - rewrite batch_cons2. case_decide; [|by left]. specialize (IH (room - rec_size x)). destruct (batch (y :: es) (room - rec_size x)) as [a b]. destruct IH as [[E Hb]|[-> ->]]; [left|right].
    + split; [cbn; by rewrite E|done].
    + split; [done|]. done.
Qed.

Section Directory.
(** A directory of the in-memory tree and its children. *)
Context `{!DirOps} (st : vfs) (dir : nat) (n : vnode) (l : list nat).
Context (Hwf : vfs_wf st) (Hn : node_pool st !! dir = Some n) (Hty : vn_type n = VNODE_DIR).
Context (Hops : vn_vops n = Some builtin_dir_ops) (Hl : chain st (vn_children n) l).

Definition ent (i : nat) : vfs_dirent := default (mk_dirent [] 0 false 0) (dirent_of i <$> node_pool st !! i).

(** The entries of the directory with their cookies. *)
Definition entries : list entry := imap (λ k i, (ent i, Z.of_nat k + 1)) l.

Lemma dirents_ent l' : (∀ i, i ∈ l' → i ∈ l) → dirents st l' = ent <$> l'.
Proof.
  induction l' as [|i l' IH]; intros Hin; [done|]. cbn [dirents omap list_omap fmap list_fmap].
  destruct (chain_nodes st _ l i Hl (Hin i ltac:(by left))) as [x Hx]. unfold ent at 1. rewrite Hx. cbn. f_equal. apply IH. intros j Hj. apply Hin. by right.
Qed.

Lemma entries_length : length entries = length l.
Proof. apply length_imap. Qed.

Lemma entries_lookup k x : entries !! k = Some x → snd x = Z.of_nat k + 1 ∧ ∃ i, l !! k = Some i ∧ fst x = ent i.
Proof. unfold entries. rewrite list_lookup_imap. intros (i & Hi & E)%fmap_Some. subst x. cbn. eauto. Qed.

Lemma entries_short : Forall short_name entries.
Proof.
  apply Forall_lookup. intros k x Hx. destruct (entries_lookup k x Hx) as (_ & i & Hi & E). unfold short_name. rewrite E. unfold ent.
  destruct (chain_nodes st _ l i Hl) as [v Hv]; [by eapply list_elem_of_lookup_2|]. rewrite Hv. cbn.
  destruct (vf_names st Hwf i v Hv) as [H1 H2]. split; [rewrite length_take; lia|]. intros Hz. apply H2.
  apply list_elem_of_lookup in Hz as [j Hj]. apply lookup_take_Some in Hj as [Hj _]. by eapply list_elem_of_lookup_2.
Qed.

(** One entry at a time. *)
Lemma readdir_one k : (k ≤ length l)%nat →
  vfs_readdir st (Some dir) (Z.of_nat k) 1 =
    Some (Z.of_nat (length (take 1 (drop k entries))), fst <$> take 1 (drop k entries), Z.of_nat (k + length (take 1 (drop k entries))),
          bool_decide (length (drop k entries) ≤ 1)%nat).
Proof.
  intros Hk. unfold vfs_readdir. rewrite Hn. cbn [mbind option_bind]. rewrite decide_False by auto. rewrite Hops. unfold vfs_builtin_readdir.
  rewrite Hn. cbn [mbind option_bind]. rewrite decide_False by auto.
  assert ((length l ≤ length (node_pool st))%nat) as Hlen.
  { destruct (vf_kids st Hwf dir n Hn) as (l' & Hl' & Hnd & _). rewrite (chain_fun st _ l l' Hl Hl'). by eapply chain_length. }
  rewrite (readdir_loop_spec st _ l) by (done || cbn; lia). cbn [mbind option_bind length app]. rewrite !Z.sub_0_r, Nat2Z.id.
  change (Z.to_nat 1) with 1%nat.
  assert (fst <$> entries = ent <$> l) as E.
  { unfold entries. apply list_eq. intros j. rewrite !list_lookup_fmap, list_lookup_imap. by destruct (l !! j). }
  assert (dirents st (take 1 (drop k l)) = fst <$> take 1 (drop k entries)) as ->.
  { rewrite dirents_ent; [by rewrite !fmap_take, !fmap_drop, E|]. intros i Hi. apply list_elem_of_lookup in Hi as [j Hj].
    apply lookup_take_Some in Hj as [Hj _]. rewrite lookup_drop in Hj. by eapply list_elem_of_lookup_2. }
  rewrite length_fmap, !length_take, !length_drop. rewrite !entries_length.
  replace (0 + Z.of_nat (length l) - Z.of_nat (length l - k - 1)) with (Z.of_nat (k + 1 `min` (length l - k))) by lia. done.
Qed.

Lemma batch_short es room : Forall short_name es → Forall short_name (fst (batch es room)).
Proof.
  intros Hs. pose proof (batch_split es room) as Hb. destruct (batch es room) as [a b]. cbn [fst].
  destruct Hb as [[<- _]|[_ ->]]; [by apply Forall_app in Hs as [? _]|].
  destruct es as [|x es _] using rev_ind; [done|]. rewrite removelast_last. by apply Forall_app in Hs as [? _].
Qed.

Lemma drop_cons_lookup {A} (xs : list A) k x r : drop k xs = x :: r → xs !! k = Some x ∧ drop (S k) xs = r.
Proof.
  intros E. split; [by rewrite <- (Nat.add_0_r k), <- lookup_drop, E|]. replace (S k) with (k + 1)%nat by lia. by rewrite <- drop_drop, E.
Qed.

(** The loop over the entries from number [k] on. *)
Lemma getdents_loop_ok out count es : ∀ k used m fuel, es = drop k entries → (k ≤ length l)%nat → 0 ≤ used ≤ count →
  (∀ x, out + used ≤ x < out + count → is_Some (m !! x)) → (count - used) / 24 + 2 ≤ Z.of_nat fuel →
  let '(a, b) := batch es (count - used) in
  ∃ m', getdents_loop st dir (Z.of_nat k) m out used count fuel = Some (false, Z.of_nat (length l - length b), m', used + zsum rec_size a) ∧
    used + zsum rec_size a ≤ count ∧ records m' (out + used) a ∧ dom m' = dom m ∧
    (∀ x, ¬ (out + used ≤ x < out + used + zsum rec_size a) → m' !! x = m !! x).
Proof.
  induction es as [|x es IH]; intros k used m fuel Hes Hk Hu Hmap Hf; (destruct fuel as [|fuel]; [pose proof (Z.div_pos (count - used) 24); lia|]); cbn [getdents_loop].
  - assert (k = length l) as -> by (pose proof (f_equal length Hes) as E; rewrite length_drop, entries_length in E; cbn in E; lia).
    cbn [batch zsum foldr length]. exists m. rewrite Nat.sub_0_r, Z.add_0_r. split; [|split; [lia|]; by repeat split].
    case_decide; [|done]. rewrite readdir_one by lia. rewrite <- Hes. cbn [mbind option_bind take length fmap list_fmap]. rewrite decide_False by lia.
    rewrite decide_True by (left; done). by rewrite Nat.add_0_r.
  - destruct (drop_cons_lookup _ _ _ _ (eq_sym Hes)) as [Hx Hes']. pose proof (lookup_lt_Some _ _ _ Hx) as Hkl. rewrite entries_length in Hkl.
    destruct (entries_lookup k x Hx) as (Hoff & _). pose proof (proj1 (Forall_lookup _ _) entries_short k x Hx) as Hsx. pose proof (size_spec x Hsx) as [_ Hz].
    assert (length es = length l - S k)%nat as Hlen by (rewrite <- Hes', length_drop, entries_length; done).
    assert (length l - length (x :: es) = k)%nat as Hback by (cbn [length]; clear -Hlen Hkl; lia).
    destruct es as [|y es].
    + assert (S k = length l) as Hlast by (cbn in Hlen; lia). cbn [batch]. case_decide as Hlt.
      * rewrite decide_True by lia. cbn [zsum foldr length]. exists m. rewrite Nat.sub_0_r, Z.add_0_r. split; [|split; [lia|]; by repeat split].
        rewrite readdir_one by lia. rewrite <- Hes. cbn [mbind option_bind take length fmap list_fmap]. rewrite decide_False by lia.
        rewrite decide_True by (right; by rewrite bool_decide_eq_true_2 by lia). do 4 f_equal. lia.
      * rewrite decide_False by lia. rewrite Hback. cbn [zsum foldr]. exists m. rewrite Z.add_0_r. split; [done|]. split; [lia|]. by repeat split.
    + rewrite batch_cons2. destruct (decide (used < count)) as [Hlt|Hlt].
      2:{ rewrite decide_False by lia. rewrite Hback. cbn [zsum foldr]. exists m. rewrite Z.add_0_r. split; [done|]. split; [lia|]. by repeat split. }
      rewrite readdir_one by lia. rewrite <- Hes. cbn [mbind option_bind take length fmap list_fmap lookup list_lookup]. rewrite (decide_False (P := _ < 0)) by lia.
      rewrite (decide_False (P := _ ∨ _)) by (intros [?|E]; [lia|]; apply bool_decide_eq_true in E; cbn in E; lia).
      fold (rec_size x). destruct (decide (rec_size x ≤ count - used)) as [Hfit|Hfit].
      2:{ rewrite (decide_True (P := count < _)) by lia. rewrite Hback. cbn [zsum foldr]. exists m. rewrite Z.add_0_r. split; [done|]. split; [lia|]. by repeat split. }
      rewrite (decide_False (P := count < _)) by lia. replace (Z.of_nat (k + 1)) with (snd x) by lia.
      destruct (store_record_ok m (out + used) x Hsx) as (m1 & -> & H1 & D1 & O1); [intros z Hz'; apply Hmap; lia|]. cbn [mbind option_bind]. rewrite Hoff.
      replace (Z.of_nat k + 1) with (Z.of_nat (S k)) by lia.
      specialize (IH (S k) (used + rec_size x) m1 fuel (eq_sym Hes') ltac:(lia) ltac:(lia)).
      replace (count - (used + rec_size x)) with (count - used - rec_size x) in IH by lia.
      destruct (batch (y :: es) (count - used - rec_size x)) as [a b] eqn:Eb.
      destruct IH as (m2 & -> & Hle & Hr & D2 & O2).
      { intros z Hz'. apply elem_of_dom. rewrite D1. apply elem_of_dom, Hmap. lia. }
      { assert ((count - used - rec_size x) / 24 + 1 ≤ (count - used) / 24); [|lia]. rewrite <- Z.div_add by lia. apply Z.div_le_mono; lia. }
      rewrite zsum_cons. replace (used + (rec_size x + zsum rec_size a)) with (used + rec_size x + zsum rec_size a) by lia.
      exists m2. split; [done|]. split; [done|].
      assert (0 ≤ zsum rec_size a) as Hza.
      { apply zsum_size_nonneg. replace a with (fst (batch (y :: es) (count - used - rec_size x))) by by rewrite Eb.
        apply batch_short. rewrite <- Hes'. apply Forall_drop, entries_short. }
      split; [|split; [congruence|intros z Hz'; rewrite O2, O1 by lia; done]]. cbn [records]. split.
      * eapply holds_ext; [|exact H1]. intros z Hz'. apply O2. rewrite record_bytes_length in Hz'. pose proof (size_spec x Hsx). lia.
      * replace (out + used + rec_size x) with (out + (used + rec_size x)) by lia. done.
Qed.

Lemma getdents64_ok f m dirp count k : f_vnode f = dir → f_offset f = Z.of_nat k → (k ≤ length l)%nat → 0 < count →
  0 ≤ dirp → dirp + count ≤ USER_VA_TOP → (∀ x, dirp ≤ x < dirp + count → is_Some (m !! x)) →
  let '(a, b) := batch (drop k entries) count in
  ∃ m', sys_getdents64 st (Some f) m dirp count =
      Some (zsum rec_size a, None, Some (mk_file dir (Z.of_nat (length l - length b)) (f_flags f) (f_refcount f)), m') ∧
    zsum rec_size a ≤ count ∧ records m' dirp a ∧ dom m' = dom m.
Proof.
  intros Hv Ho Hk Hc Hd Ht Hmap. unfold sys_getdents64. rewrite decide_False by lia. rewrite Hv, Hn, Ho. cbn [mbind option_bind].
  rewrite decide_False by auto. assert (user_buf_ok dirp count = true) as -> by (apply user_buf_ok_spec; unfold USER_VA_TOP in *; lia). cbn [negb].
  pose proof (getdents_loop_ok dirp count (drop k entries) k 0 m (Z.to_nat (count / 24 + 2)) eq_refl Hk ltac:(lia)) as Hloop.
  rewrite Z.sub_0_r in Hloop. destruct (batch (drop k entries) count) as [a b].
  destruct Hloop as (m' & -> & Hle & Hr & Hdom & _); [intros x Hx; apply Hmap; lia|pose proof (Z.div_pos count 24); lia|].
  cbn [mbind option_bind]. rewrite Z.add_0_r in Hr. exists m'. split; [done|]. by repeat split.
Qed.

(** A stream with the records [a] still in its buffer and the entries [b] still in
    the directory. *)
Record stream (d : DIR) m (a b : list entry) : Prop := {
  sm_eof : d_eof d = false;
  sm_file : ∃ f, d_file d = Some f ∧ f_vnode f = dir ∧ f_offset f = Z.of_nat (length l - length b);
  sm_rest : b = drop (length l - length b) entries;
  sm_pos : 0 ≤ buf_pos d;
  sm_len : buf_len d = buf_pos d + zsum rec_size a;
  sm_recs : records m (d_buf d + buf_pos d) a;
  sm_short : Forall short_name a;
  sm_buf : 0 ≤ d_buf d ∧ d_buf d + DIR_BUF ≤ USER_VA_TOP ∧ ∀ x, d_buf d ≤ x < d_buf d + DIR_BUF → is_Some (m !! x);
}.

Lemma stream_serve d m x a b fuel : stream d m (x :: a) b →
  ∃ d', readdir st d m (S fuel) = Some (Some (user_ent x), None, d', m) ∧ stream d' m a b.
Proof.
  intros []. apply Forall_cons in sm_short0 as [Hx Ha]. pose proof (zsum_size_nonneg a Ha) as Hza. pose proof (size_spec x Hx) as Hz. rewrite zsum_cons in sm_len0.
  eexists. split; [cbn [readdir]; rewrite sm_eof0, decide_True by lia; apply (serve_ok d m x a); [done|done|done|lia]|].
  constructor; cbn [d_eof d_file buf_pos buf_len d_buf]; try done; [lia|lia|]. destruct sm_recs0 as [_ Hr]. by replace (d_buf d + (buf_pos d + rec_size x)) with (d_buf d + buf_pos d + rec_size x) by lia.
Qed.

Lemma batch_first x y es room : short_name x → 283 ≤ room → ∃ a b, batch (x :: y :: es) room = (x :: a, b).
Proof. intros Hs Hr. pose proof (size_spec x Hs) as [_ Hz]. rewrite batch_cons2, decide_True by lia. destruct (batch (y :: es) (room - rec_size x)) as [a b]. eauto. Qed.

(** A call that has to ask the kernel for more. *)
Lemma stream_refill d m b fuel : stream d m [] b →
  let '(a', b') := batch b DIR_BUF in
  ∃ d' m', stream d' m' a' b' ∧
    readdir st d m (S fuel) = match a' with [] => Some (None, None, mk_DIR (d_file d') true (d_buf d) (buf_len d) (buf_pos d) (d_cur d), m') | _ => readdir st d' m' fuel end.
Proof.
  intros []. destruct sm_file0 as (f & Ef & Hv & Ho). destruct sm_buf0 as (Hb1 & Hb2 & Hb3). cbn [zsum foldr] in sm_len0.
  assert ((length b ≤ length l)%nat) as Hlen by (rewrite sm_rest0, length_drop, entries_length; lia).
  assert (Forall short_name b) as Hsb by (rewrite sm_rest0; apply Forall_drop, entries_short).
  pose proof (getdents64_ok f m (d_buf d) DIR_BUF (length l - length b) Hv Ho ltac:(lia) ltac:(done) Hb1 Hb2 Hb3) as Hg. rewrite <- sm_rest0 in Hg.
  pose proof (batch_split b DIR_BUF) as Hsp. pose proof (batch_short b DIR_BUF Hsb) as Hsa. destruct (batch b DIR_BUF) as [a' b']. cbn [fst] in Hsa.
  destruct Hg as (m' & Eg & Hle & Hr & Hdom). pose proof (zsum_size_nonneg a' Hsa) as Hza.
  assert (b' = drop (length l - length b') entries) as Hrest.
  { destruct Hsp as [[E Hne]|[-> _]]; [|cbn [length]; rewrite drop_ge by (rewrite entries_length; lia); done].
    assert (length b = length a' + length b')%nat as El by (rewrite <- E, length_app; done).
    replace (length l - length b')%nat with ((length l - length b) + length a')%nat by lia. rewrite <- drop_drop, <- sm_rest0, <- E. by rewrite drop_app_length. }
  exists (mk_DIR (Some (mk_file dir (Z.of_nat (length l - length b')) (f_flags f) (f_refcount f))) false (d_buf d) (zsum rec_size a') 0 (d_cur d)), m'. split.
  - constructor; cbn [d_eof d_file buf_pos buf_len d_buf]; try done; [eauto|by rewrite Z.add_0_r|]. split; [done|]. split; [done|].
    intros x Hx. apply elem_of_dom. rewrite Hdom. by apply elem_of_dom, Hb3.
  - cbn [readdir]. rewrite sm_eof0. rewrite decide_False by lia. rewrite Ef, Eg. cbn [mbind option_bind]. rewrite decide_False by lia. cbn [d_file].
    destruct a' as [|x a']; [done|]. apply Forall_cons in Hsa as [Hx Ha']. pose proof (size_spec x Hx) as [_ Hz]. rewrite zsum_cons in *. pose proof (zsum_size_nonneg a' Ha').
    rewrite decide_False by lia. done.
Qed.

Lemma removelast_short (b : list entry) : removelast b = [] → (length b ≤ 1)%nat.
Proof. destruct b as [|x [|y b]]; cbn; [lia|lia|done]. Qed.

(** Reading to the end. *)
Lemma read_all_ok k : ∀ d m a b fuel, (length a + length b ≤ k)%nat → (k < fuel)%nat → stream d m a b →
  ∃ d' m', read_all st d m fuel = Some (user_ent <$> a ++ removelast b, None, d', m').
Proof.
  induction k as [k IH] using lt_wf_ind. intros d m a b fuel Hk Hf Hs. destruct fuel as [|fuel]; [lia|]. cbn [read_all]. destruct a as [|x a].
  - pose proof (stream_refill d m b 1 Hs) as Hr. pose proof (batch_split b DIR_BUF) as Hsp. destruct (batch b DIR_BUF) as [a' b'] eqn:Eb.
    destruct Hr as (d1 & m1 & Hs1 & ->). destruct a' as [|x a'].
    + cbn [mbind option_bind]. eexists _, _. do 4 f_equal. cbn [app].
      destruct Hsp as [[E Hne]|[_ <-]]; [|done]. cbn in E. subst b'. destruct b as [|x [|y b]]; [done|done|].
      exfalso. destruct (batch_first x y b DIR_BUF) as (a2 & b2 & E2); [|done|congruence].
      destruct Hs1 as [_ _ Hrest _ _ _ _ _]. pose proof entries_short as He. rewrite <- (take_drop (length l - length (x :: y :: b)) entries), <- Hrest in He.
      apply Forall_app in He as [_ He]. by apply Forall_cons in He as [? _].
    + destruct (stream_serve d1 m1 x a' b' 0 Hs1) as (d2 & -> & Hs2). cbn [mbind option_bind].
      assert (length a' + length b' < length b)%nat as Hlt.
      { destruct Hsp as [[<- _]|[-> E]]; [rewrite length_app; cbn [length]; lia|]. destruct b as [|y b _] using rev_ind; [done|]. rewrite removelast_last in E.
        rewrite length_app, <- E. cbn [length]. lia. }
      destruct (IH (length a' + length b')%nat ltac:(cbn in Hk; lia) d2 m1 a' b' fuel) as (d3 & m3 & ->); [lia|cbn in Hk; lia|done|]. cbn [mbind option_bind].
      exists d3, m3. do 4 f_equal. cbn [app]. rewrite <- fmap_cons. f_equal.
      destruct Hsp as [[<- Hne]|[-> <-]]; [|cbn; by rewrite app_nil_r]. rewrite removelast_app by done. done.
  - destruct (stream_serve d m x a b 1 Hs) as (d2 & -> & Hs2). cbn [mbind option_bind]. cbn [length] in Hk.
    destruct (IH (length a + length b)%nat ltac:(lia) d2 m a b fuel) as (d3 & m3 & ->); [lia|lia|done|]. cbn [mbind option_bind]. by exists d3, m3.
Qed.
End Directory.

(** ** Isolation *)

Lemma store_record_alike m1 m2 p de off : agree m1 m2 → 0 ≤ p → p + record_len de ≤ USER_VA_TOP →
  alike m1 m2 (m ← store_record m1 p de off; Some (tt, m)) (m ← store_record m2 p de off; Some (tt, m)).
Proof.
  intros H Hp Hl. pose proof (record_len_spec de) as [Hz _]. unfold store_record, LNX_DIRENT64_NAME_OFFSET. set (h := dirent64_header _ _ _ _).
  assert (length h = 19%nat) as Hh by apply header_length8.
  pose proof (alike_store m1 m2 p h H Hp ltac:(right; lia)) as E1. destruct (store m1 p h) as [n1|], (store m2 p h) as [n2|]; try done. cbn [mbind option_bind] in *.
  destruct E1 as (_ & A1 & K1 & L1).
  pose proof (alike_store n1 n2 (p + 19) (dname de) A1 ltac:(lia) ltac:(right; lia)) as E2.
  destruct (store n1 (p + 19) (dname de)) as [o1|], (store n2 (p + 19) (dname de)) as [o2|]; try done. cbn [mbind option_bind] in *. destruct E2 as (_ & A2 & K2 & L2).
  pose proof (alike_store o1 o2 (p + 19 + Z.of_nat (length (dname de))) [0] A2 ltac:(lia) ltac:(right; cbn [length]; lia)) as E3.
  destruct (store o1 _ _) as [q1|], (store o2 _ _) as [q2|]; try done. cbn [mbind option_bind] in *. destruct E3 as (_ & A3 & K3 & L3).
  repeat split; [done|by do 2 (etrans; [done|])|by do 2 (etrans; [done|])].
Qed.

Lemma getdents_loop_alike `{!DirOps} st dir out count fuel : 0 ≤ out → out + count ≤ USER_VA_TOP → ∀ off m1 m2 used, 0 ≤ used → agree m1 m2 →
  alike m1 m2 ('(fl, o, m, u) ← getdents_loop st dir off m1 out used count fuel; Some ((fl, o, u), m))
    ('(fl, o, m, u) ← getdents_loop st dir off m2 out used count fuel; Some ((fl, o, u), m)).
Proof.
  intros Ho Ht. induction fuel as [|fuel IH]; intros off m1 m2 used Hu Hag; cbn [getdents_loop]; [done|].
  case_decide; [|by apply alike_ret]. destruct (vfs_readdir st (Some dir) off 1) as [[[[n des] off'] eof]|]; [|done]. cbn [mbind option_bind].
  case_decide; [by apply alike_ret|]. case_decide; [by apply alike_ret|]. destruct (des !! 0%nat) as [de|]; [|done]. cbn [mbind option_bind].
  case_decide as Hfit; [by apply alike_ret|]. pose proof (record_len_spec de) as [_ Hz].
  pose proof (store_record_alike m1 m2 (out + used) de off' Hag ltac:(lia) ltac:(lia)) as E.
  destruct (store_record m1 (out + used) de off') as [n1|], (store_record m2 (out + used) de off') as [n2|]; try done. cbn [mbind option_bind] in *.
  destruct E as (_ & A & K1 & K2). specialize (IH off' n1 n2 (used + record_len de) ltac:(lia) A). unfold alike in *.
  destruct (getdents_loop st dir off' n1 out (used + record_len de) count fuel) as [[[[? ?] ?] ?]|], (getdents_loop st dir off' n2 out (used + record_len de) count fuel) as [[[[? ?] ?] ?]|]; try done.
  cbn [mbind option_bind] in *. destruct IH as (E & A' & L1 & L2). repeat split; [done|done|by etrans|by etrans].
Qed.

Lemma getdents64_alike `{!DirOps} st fl m1 m2 dirp count : 0 ≤ dirp < 2 ^ 64 → 0 ≤ count < 2 ^ 64 → agree m1 m2 →
  alike m1 m2 ('(r, err, f, m) ← sys_getdents64 st fl m1 dirp count; Some ((r, err, f), m))
    ('(r, err, f, m) ← sys_getdents64 st fl m2 dirp count; Some ((r, err, f), m)).
Proof.
  intros Hd Hc Hag. unfold sys_getdents64. case_decide as H0; [by apply alike_ret|]. destruct fl as [f|]; [|by apply alike_ret].
  destruct (node_pool st !! f_vnode f) as [dir|]; [|done]. cbn [mbind option_bind]. case_decide; [by apply alike_ret|].
  destruct (user_buf_ok dirp count) eqn:Eb; [|by apply alike_ret]. apply user_buf_ok_spec in Eb as [?|Eb]; [done| |done|done]. cbn [negb].
  pose proof (getdents_loop_alike st (f_vnode f) dirp count (Z.to_nat (count / 24 + 2)) ltac:(lia) Eb (f_offset f) m1 m2 0 ltac:(lia) Hag) as E. unfold alike in *.
  destruct (getdents_loop st (f_vnode f) (f_offset f) m1 dirp 0 count _) as [[[[b1 o1] n1] u1]|], (getdents_loop st (f_vnode f) (f_offset f) m2 dirp 0 count _) as [[[[b2 o2] n2] u2]|]; try done.
  cbn [mbind option_bind] in *. destruct E as ([= -> -> ->] & A & K1 & K2). destruct b2; by repeat split.
Qed.

(** C40. Reading a directory of the in-memory tree from user mode: [opendir] on a
    descriptor for it succeeds, and calling [readdir] until it returns NULL ends
    without an error and delivers every entry with its name, type, number and
    cookie, in order and exactly once, except the last one, which is never
    delivered: getdents64 stops when the end of the directory is reported and
    drops the entry that came with the report. *)
Theorem readdir_misses_last `{!DirOps} (st : vfs) (dir : nat) (n : vnode) (l : list nat) (f : file) m (buf : Z)
    (Hwf : vfs_wf st) (Hn : node_pool st !! dir = Some n) (Hty : vn_type n = VNODE_DIR) (Hops : vn_vops n = Some builtin_dir_ops)
    (Hl : Vnode.chain st (vn_children n) l) (Hv : f_vnode f = dir) (Ho : f_offset f = 0)
    (Hbuf : 0 ≤ buf ∧ buf + DIR_BUF ≤ USER_VA_TOP ∧ ∀ x, buf ≤ x < buf + DIR_BUF → is_Some (m !! x)) :
  ∃ d m1, opendir st (Some f) m buf = Some (inr d, m1) ∧
    ∃ d' m', read_all st d m1 (S (length l)) = Some (user_ent <$> removelast (entries st l), None, d', m').
Proof.
  destruct Hbuf as (Hb1 & Hb2 & Hb3).
  pose proof (getdents64_ok st dir n l Hwf Hn Hty Hops Hl f m buf DIR_BUF 0 Hv Ho (Nat.le_0_l _) ltac:(done) Hb1 Hb2 Hb3) as Hg. rewrite drop_0 in Hg.
  pose proof (entries_short st n l Hwf Hl) as Hs.
  pose proof (batch_split (entries st l) DIR_BUF) as Hsp. pose proof (batch_short (entries st l) DIR_BUF Hs) as Hsa.
  destruct (batch (entries st l) DIR_BUF) as [a b]. cbn [fst] in Hsa. destruct Hg as (m1 & Eg & Hle & Hr & Hdom).
  pose proof (zsum_size_nonneg a Hsa) as Hza. unfold opendir. rewrite Eg. cbn [mbind option_bind]. rewrite decide_False by lia.
  eexists _, m1. split; [done|]. assert (length a + length b ≤ length l)%nat as Hlen.
  { rewrite <- (entries_length st l). destruct Hsp as [[<- _]|[-> ->]]; [rewrite length_app; lia|]. rewrite removelast_firstn_len, length_firstn. cbn. lia. }
  destruct (read_all_ok st dir n l Hwf Hn Hty Hops Hl (length l) (mk_DIR (Some (mk_file dir (Z.of_nat (length l - length b)) (f_flags f) (f_refcount f))) false buf (zsum rec_size a) 0 no_ent)
    m1 a b (S (length l)) Hlen ltac:(lia)) as (d' & m' & E).
  - constructor; cbn [d_eof d_file buf_pos buf_len d_buf]; try done.
    + eauto.
    + destruct Hsp as [[E _]|[-> _]]; [|cbn [length]; rewrite drop_ge by (rewrite entries_length; lia); done].
      assert (length l = length a + length b)%nat as El by (rewrite <- (entries_length st l), <- E, length_app; done).
      replace (length l - length b)%nat with (length a) by lia. rewrite <- E. by rewrite drop_app_length.
    + by rewrite Z.add_0_r.
    + split; [done|]. split; [done|]. intros x Hx. apply elem_of_dom. rewrite Hdom. by apply elem_of_dom, Hb3.
  - exists d', m'. rewrite E. do 4 f_equal. destruct Hsp as [[<- Hne]|[-> ->]]; [by rewrite removelast_app|]. cbn. by rewrite app_nil_r.
Qed.

(** ** Witness: [/] with the directories [dev] and [mnt] *)

Definition root_vfs : vfs :=
  match vfs_create_node demo_vfs (Some 0%nat) [109; 110; 116] VNODE_DIR with Some (_, st) => st | None => demo_vfs end.

Definition user_buffer : gmap Z Z := mem_write ∅ 0x500000 (replicate 1024 0).

Lemma readdir_misses_last_witness :
  vfs_wf root_vfs ∧ Vnode.chain root_vfs (Some 3%nat) [3%nat; 1%nat] ∧
  ∃ d m1 d' m', opendir root_vfs (Some (mk_file 0 0 0 1)) user_buffer 0x500000 = Some (inr d, m1) ∧
    read_all root_vfs d m1 3 = Some ([mk_ent 3 1 24 4 [109; 110; 116]], None, d', m').
Proof.
  assert (vfs_wf root_vfs) as Hwf.
  { destruct (vfs_create_lookup demo_vfs 0 [109; 110; 116] VNODE_DIR demo_vfs_wf) as (n & st' & E & Hwf & _).
    - rewrite demo_vfs_eq. unfold MAX_VNODES. simpl. lia.
    - unfold name_ok, NAME_ARRAY. simpl. split; [lia|set_solver].
    - rewrite demo_vfs_eq. simpl. lia.
    - unfold root_vfs. by rewrite E. }
  split; [exact Hwf|]. split; [vm_compute; repeat eexists|].
  destruct (readdir_misses_last root_vfs 0 (mk_vnode [47] VNODE_DIR 0 (Some builtin_dir_ops) 0 0 None (Some 3%nat) None) [3%nat; 1%nat]
    (mk_file 0 0 0 1) user_buffer 0x500000 Hwf) as (d & m1 & E1 & d' & m' & E2); [vm_compute; reflexivity|done|done|vm_compute; repeat eexists|done|done| |].
  { split; [lia|]. split; [unfold DIR_BUF, USER_VA_TOP; lia|]. intros x Hx. unfold user_buffer. rewrite mem_write_lookup, length_replicate, decide_True by (unfold DIR_BUF in Hx; lia).
    apply lookup_lt_is_Some_2. rewrite length_replicate. unfold DIR_BUF in Hx. lia. }
  exists d, m1, d', m'. split; [exact E1|]. cbn [length] in E2. rewrite E2. vm_compute. reflexivity.
Defined.
