(* ===== verification/Syscall.v ===== *)
(** The system calls of [src/src/syscall/syscall.c]: the dispatcher and every
    handler it contains.

    A handler runs in a state-and-fault monad over the state of the kernel and
    memory ([M]); user pointers are only followed by the primitives [fetch],
    [put] and [user_str].  What the handlers call in other components is the
    class [Services]: the descriptor layer, the scheduler, the address space and
    the drivers.  A service that the C code hands a user buffer gets, here, the
    bytes of that buffer, or returns the bytes to store there.

    The point of the file is isolation: memory above the user range never
    influences a system call through a user pointer and is never changed through
    one ([syscall_isolation]), with one exception that the code overlooks, the
    path of newfstatat ([newfstatat_reads_kernel]).  Memory is indexed by virtual
    address, so the theorem says nothing about pages that are mapped twice, and
    the calls that change the address space itself are left out of it; what these
    do to mappings is proved in [AddrSpace] and [ExecImage]. *)
From S2P Require Import Prelude Mmu Vnode Fd UserMem Dirent.

(** ** Numbers *)

Definition SYS_READ : Z := 0.
Definition SYS_WRITE : Z := 1.
Definition SYS_OPEN : Z := 2.
Definition SYS_CLOSE : Z := 3.
Definition SYS_EXIT : Z := 4.
Definition SYS_YIELD : Z := 5.
Definition SYS_SLEEP : Z := 6.
Definition SYS_GETPID : Z := 7.
Definition SYS_LSEEK : Z := 8.
Definition SYS_UPTIME : Z := 9.
Definition SYS_NET_PING : Z := 10.
Definition SYS_KILL : Z := 11.
Definition SYS_FORK : Z := 12.
Definition SYS_EXEC : Z := 13.
Definition SYS_BALLOON : Z := 14.
Definition SYS_WAITPID : Z := 260.
Definition SYS_BRK : Z := 214.
Definition SYS_MUNMAP : Z := 215.
Definition SYS_MMAP : Z := 222.
Definition SYS_MPROTECT : Z := 226.
Definition LNX_READ : Z := 63.
Definition LNX_WRITE : Z := 64.
Definition LNX_OPENAT : Z := 56.
Definition LNX_CLOSE : Z := 57.
Definition LNX_LSEEK : Z := 62.
Definition LNX_NEWFSTATAT : Z := 79.
Definition LNX_FSTAT : Z := 80.
Definition LNX_GETDENTS64 : Z := 61.
Definition LNX_EXIT : Z := 93.
Definition LNX_EXIT_GROUP : Z := 94.
Definition LNX_SET_TID_ADDRESS : Z := 96.
Definition LNX_NANOSLEEP : Z := 101.
Definition LNX_CLOCK_GETTIME : Z := 113.
Definition LNX_ARCH_PRCTL : Z := 158.
Definition LNX_GETPID : Z := 172.
Definition LNX_GETRANDOM : Z := 278.
Definition ARCH_SET_FS : Z := 0x1002.
Definition ARCH_GET_FS : Z := 0x1003.
Definition AT_FDCWD : Z := -100.
Definition ENOENT : Z := 2.
Definition ECHILD : Z := 10.
Definition EACCES : Z := 13.
Definition EINVAL : Z := 22.
Definition ENOSYS : Z := 38.
Definition BALLOON_OP_INFLATE : Z := 0.
Definition BALLOON_OP_DEFLATE : Z := 1.
Definition BALLOON_OP_ACTUAL : Z := 2.
Definition BALLOON_OP_TARGET : Z := 3.
Definition LNX_CLOCK_REALTIME : Z := 0.
Definition LNX_CLOCK_MONOTONIC : Z := 1.
Definition LNX_S_IFREG : Z := 0x8000.
Definition LNX_S_IFDIR : Z := 0x4000.
Definition LNX_S_IFCHR : Z := 0x2000.
Definition LNX_S_IFBLK : Z := 0x6000.
Definition EXEC_MAX_ARGC : nat := 32.
Definition EXEC_ARG_BYTES_MAX : Z := 1024.
Definition TIMESPEC : Z := 16.
Definition STAT : Z := 128.
Definition PING_SPINS : positive := 2000000.

Definition translate_linux_syscall (num : Z) : Z :=
  if decide (num = LNX_READ) then SYS_READ
  else if decide (num = LNX_WRITE) then SYS_WRITE
  else if decide (num = LNX_CLOSE) then SYS_CLOSE
  else if decide (num = LNX_LSEEK) then SYS_LSEEK
  else if decide (num = LNX_EXIT) then SYS_EXIT
  else if decide (num = LNX_EXIT_GROUP) then SYS_EXIT
  else if decide (num = LNX_GETPID) then SYS_GETPID
  else num.

(** The conversion to [int64_t]. *)
Definition to_long (x : Z) : Z := (x + 2 ^ 63) mod 2 ^ 64 - 2 ^ 63.

(** ** Services *)

(** The captured arguments of exec: where each string starts in the buffer. *)
Record exec_args := mk_args { arg_offsets : list Z; arg_kbuf : list Z }.

Class Services (K : Type) := {
  (** The calling task: whether it has descriptors and an errno slot, its pid. *)
  sv_fds : K → bool;
  sv_tls : K → bool;
  sv_pid : K → Z;
  (** Open files and nodes. *)
  sv_vfs : K → vfs;
  (** The address of a slot of the static [node_pool]. *)
  sv_node_addr : K → nat → Z;
  sv_file : K → Z → option file;
  sv_set_file : K → Z → option file → K;
  sv_read : K → Z → Z → option (Z * list Z * K);
  sv_read_len k fd n r bs k' : 0 ≤ n → sv_read k fd n = Some (r, bs, k') → Z.of_nat (length bs) ≤ n;
  sv_write : K → Z → Z → (Z → option Z) → option (Z * K);
  sv_write_ext k fd n rd rd' : (∀ i, rd i = rd' i) → sv_write k fd n rd = sv_write k fd n rd';
  sv_open : K → list Z → Z → Z → option (Z * K);
  sv_close : K → Z → option (Z * K);
  sv_seek : K → Z → Z → Z → option (Z * K);
  sv_resolve : K → list Z → option (option nat * K);
  (** Tasks and time. *)
  sv_exit : K → Z → option K;
  sv_schedule : K → option K;
  sv_sleep_ms : K → Z → option K;
  sv_uptime_ms : K → Z;
  sv_uptime_seconds : K → Z;
  sv_kill : K → Z → option (Z * K);
  sv_fork : K → list Z → option (Z * K);
  sv_waitpid : K → Z → Z → option (Z * Z * K);
  sv_tpidr : K → Z;
  sv_set_tpidr : K → Z → K;
  sv_set_clear_tid : K → Z → K;
  (** Address spaces: each takes memory as it is and returns it as it is
      afterwards; nothing is assumed of them. *)
  sv_mmap : K → gmap Z Z → list Z → option (Z * K * gmap Z Z);
  sv_brk : K → gmap Z Z → Z → option (Z * K * gmap Z Z);
  sv_munmap : K → gmap Z Z → Z → Z → option (Z * K * gmap Z Z);
  sv_mprotect : K → gmap Z Z → Z → Z → Z → option (Z * K * gmap Z Z);
  sv_exec : K → gmap Z Z → list Z → exec_args → option (option (list Z) * K * gmap Z Z);
  (** Drivers. *)
  sv_send_ping : K → Z → option (Z * K);
  sv_rx_poll : K → Z → option (Z * list Z * K);
  sv_rng_read : K → Z → option (Z * list Z * K);
  sv_rng_len k n r bs k' : 0 ≤ n → sv_rng_read k n = Some (r, bs, k') → Z.of_nat (length bs) ≤ n;
  sv_inflate : K → Z → option (Z * K);
  sv_deflate : K → Z → option (Z * K);
  sv_balloon : K → Z * Z;
}.

#[export] Instance file_eq_dec : EqDecision file.
Proof. solve_decision. Defined.

(** ** The monad *)

Record env (K : Type) := mk_env { e_k : K; e_errno : Z }.
Arguments mk_env {K} _ _.
Arguments e_k {K} _.
Arguments e_errno {K} _.

Definition M (K A : Type) : Type := env K → gmap Z Z → option (A * env K * gmap Z Z).

#[export] Instance M_ret K : MRet (M K) := λ A a e m, Some (a, e, m).
#[export] Instance M_bind K : MBind (M K) := λ A B f x e m, match x e m with Some (a, e', m') => f a e' m' | None => None end.

(** User memory, range-checked or not: the check is the handlers' business. *)
Definition fetch {K} (a n : Z) : M K (list Z) := λ e m, bs ← load m a n; Some (bs, e, m).
Definition put {K} (a : Z) (bs : list Z) : M K unit := λ e m, m' ← store m a bs; Some (tt, e, m').

(** [user_str_ok], and the string when it is accepted. *)
Definition user_str {K} (p : Z) : M K (option (list Z)) := λ e m,
  r ← user_str_ok m p;
  if decide (r < 0) then Some (None, e, m) else s ← load m p r; Some (Some s, e, m).

Section Handlers.
Context {K : Type} `{!Services K, !DirOps}.

(** Calls into the services. *)
Definition get {A} (f : K → A) : M K A := λ e m, Some (f (e_k e), e, m).
Definition call {A} (f : K → option (A * K)) : M K A := λ e m, '(a, k) ← f (e_k e); Some (a, mk_env k (e_errno e), m).
(** A service that reads the [n] bytes at [a] as it goes. *)
Definition reader {A} (a n : Z) (f : (Z → option Z) → K → option (A * K)) : M K A := λ e m,
  '(x, k) ← f (λ i, if decide (0 ≤ i < n) then m !! (a + i) else None) (e_k e); Some (x, mk_env k (e_errno e), m).
Definition run (f : K → option K) : M K unit := call (λ k, k' ← f k; Some (tt, k')).
Definition space_call {A} (f : K → gmap Z Z → option (A * K * gmap Z Z)) : M K A := λ e m,
  '(a, k, m') ← f (e_k e) m; Some (a, mk_env k (e_errno e), m').

Definition fail (err : Z) : M K Z := λ e m, Some (-1, (if sv_tls (e_k e) then mk_env (e_k e) err else e), m).

(** ** Files *)

Definition do_read (a0 a1 a2 : Z) : M K Z :=
  fds ← get sv_fds;
  if fds && user_buf_ok a1 a2 then
    '(r, bs) ← call (λ k, sv_read k (to_int a0) a2);
    put a1 bs;; mret r
  else mret (-1).

Definition do_write (a0 a1 a2 : Z) : M K Z :=
  fds ← get sv_fds;
  if fds && user_buf_ok a1 a2 then
    reader a1 a2 (λ rd k, sv_write k (to_int a0) a2 rd)
  else mret (-1).

(** Opening and telling apart why it failed. *)
Definition open_path (path : list Z) (flags mode : Z) : M K Z :=
  r ← call (λ k, sv_open k path (to_int flags) (to_int mode));
  if decide (r < 0) then
    probe ← call (λ k, sv_resolve k path);
    fail (if probe is Some _ then EACCES else ENOENT)
  else mret r.

Definition do_open (p flags mode : Z) : M K Z :=
  fds ← get sv_fds;
  if negb fds then fail EFAULT
  else s ← user_str p; match s with None => fail EFAULT | Some path => open_path path flags mode end.

Definition do_close (a0 : Z) : M K Z := fds ← get sv_fds; if (fds : bool) then call (λ k, sv_close k (to_int a0)) else mret (-1).

Definition do_lseek (a0 a1 a2 : Z) : M K Z :=
  fds ← get sv_fds; if (fds : bool) then call (λ k, sv_seek k (to_int a0) (to_long a1) (to_int a2)) else mret (-1).

Definition do_openat (a0 a1 a2 a3 : Z) : M K Z := if decide (to_int a0 ≠ AT_FDCWD) then fail ENOSYS else do_open a1 a2 a3.

Definition fd_file_of (a0 : Z) : M K (option file) :=
  get (λ k, if sv_fds k then sv_file k (to_int a0) else None).

Definition do_getdents64 (a0 a1 a2 : Z) : M K Z := λ e m,
  let fl := if sv_fds (e_k e) then sv_file (e_k e) (to_int a0) else None in
  '(r, err, fl', m') ← sys_getdents64 (sv_vfs (e_k e)) fl m a1 a2;
  match err with
  | Some x => fail x e m'
  | None => Some (r, mk_env (if decide (fl' = fl) then e_k e else sv_set_file (e_k e) (to_int a0) fl') (e_errno e), m')
  end.

(** ** Metadata *)

(** [fill_linux_stat] as the 128 bytes of [struct linux_stat]. *)
Definition fill_linux_stat (addr : Z) (v : vnode) : list Z :=
  let type := match vn_type v with VNODE_DIR => LNX_S_IFDIR | VNODE_CHR => LNX_S_IFCHR | VNODE_BLK => LNX_S_IFBLK | VNODE_REG => LNX_S_IFREG end in
  let perm := Z.lor 0x1B6 (match vn_type v with VNODE_DIR => 0x49 | _ => 0 end) in
  le_bytes 8 0 ++ le_bytes 8 addr ++ le_bytes 4 (Z.lor type perm) ++ le_bytes 4 1 ++ le_bytes 4 0 ++ le_bytes 4 0 ++ le_bytes 8 0 ++ le_bytes 8 0 ++
  le_bytes 8 (vn_size v) ++ le_bytes 4 4096 ++ le_bytes 4 0 ++ le_bytes 8 ((to_long (vn_size v) + 511) ÷ 512) ++ replicate 56 0.

(** The node behind an open file. *)
Definition node_of (i : nat) : M K vnode := λ e m, v ← node_pool (sv_vfs (e_k e)) !! i; Some (v, e, m).
Definition addr_of (i : nat) : M K Z := get (λ k, sv_node_addr k i).

Definition do_fstat (a0 a1 : Z) : M K Z :=
  fl ← fd_file_of a0;
  match fl with
  | None => fail EBADF
  | Some f =>
      if negb (user_buf_ok a1 STAT) then fail EFAULT
      else v ← node_of (f_vnode f); a ← addr_of (f_vnode f); put a1 (fill_linux_stat a v);; mret 0
  end.

(** A string read without a bound, as [vfs_resolve] reads its argument. *)
Fixpoint c_string (m : gmap Z Z) (p : Z) (fuel : nat) : option (list Z) :=
  match fuel with
  | O => None
  | S f => b ← m !! p; if decide (b = 0) then Some [] else s ← c_string m (p + 1) f; Some (b :: s)
  end.

Definition raw_str (p : Z) : M K (list Z) := λ e m, s ← c_string m p (S (size m)); Some (s, e, m).
Definition str_len (p : Z) : M K Z := λ e m, r ← user_str_ok m p; Some (r, e, m).

(** The check is [!user_str_ok(path)]: it refuses the length 0, not -1. *)
Definition do_newfstatat (a0 a1 a2 a3 : Z) : M K Z :=
  if decide (to_int a0 ≠ AT_FDCWD) then fail ENOSYS
  else
    len ← str_len a1;
    if bool_decide (len = 0) || negb (user_buf_ok a2 STAT) then fail EFAULT
    else if decide (Z.land a3 (not64 0x100) ≠ 0) then fail EINVAL
    else
      path ← raw_str a1;
      v ← call (λ k, sv_resolve k path);
      match v with
      | None => fail ENOENT
      | Some i => n ← node_of i; a ← addr_of i; put a2 (fill_linux_stat a n);; mret 0
      end.

(** ** Time *)

Definition do_clock_gettime (a0 a1 : Z) : M K Z :=
  if decide (a0 ≠ LNX_CLOCK_REALTIME ∧ a0 ≠ LNX_CLOCK_MONOTONIC) then fail EINVAL
  else if negb (user_buf_ok a1 TIMESPEC) then fail EFAULT
  else
    sec ← get sv_uptime_seconds;
    ms ← get sv_uptime_ms;
    put a1 (le_bytes 8 sec ++ le_bytes 8 (ms mod 1000 * 1000000));; mret 0.

(** Milliseconds, rounded up. *)
Definition sleep_length (sec nsec : Z) : Z := (sec *w 1000) +w ((nsec +w 999999) / 1000000).

Definition do_nanosleep (a0 a1 : Z) : M K Z :=
  if negb (user_buf_ok a0 TIMESPEC) then fail EFAULT
  else
    bs ← fetch a0 TIMESPEC;
    let sec := to_long (le_value (take 8 bs)) in
    let nsec := to_long (le_value (drop 8 bs)) in
    if decide (sec < 0 ∨ nsec < 0 ∨ 1000000000 ≤ nsec) then fail EINVAL
    else
      let ms := sleep_length sec nsec in
      (if decide (ms ≠ 0) then run (λ k, sv_sleep_ms k ms) else mret tt);;
      if decide (a1 ≠ 0) then
        if negb (user_buf_ok a1 TIMESPEC) then fail EFAULT
        else put a1 (le_bytes 8 0 ++ le_bytes 8 0);; mret 0
      else mret 0.

(** ** Tasks *)

Definition do_waitpid (a0 a1 a2 : Z) : M K Z :=
  if bool_decide (a1 ≠ 0) && negb (user_buf_ok a1 4) then fail EFAULT
  else
    '(pid, status) ← call (λ k, sv_waitpid k (to_long a0) (to_int a2));
    if decide (pid < 0) then fail ECHILD
    else (if decide (a1 ≠ 0) then put a1 (le_bytes 4 (wrap32 status)) else mret tt);; mret pid.

Definition do_arch_prctl (a0 a1 : Z) : M K Z :=
  if decide (a0 = ARCH_SET_FS ∨ a0 = ARCH_GET_FS) then
    tpidr ← get sv_tpidr;
    if decide (a0 = ARCH_SET_FS) then
      if decide (a1 = 0 ∨ Z.land a1 7 ≠ 0) then fail EINVAL
      else call (λ k, Some (0, sv_set_tpidr k a1))
    else mret tpidr
  else fail EINVAL.

Definition do_set_tid_address (a1 : Z) : M K Z := call (λ k, Some (sv_pid k, sv_set_clear_tid k a1)).

(** ** Devices *)

Definition do_getrandom (a0 a1 : Z) : M K Z :=
  if decide (a1 = 0) then mret 0
  else if negb (user_buf_ok a0 a1) then fail EFAULT
  else
    '(got, bs) ← call (λ k, sv_rng_read k (wrap32 a1));
    put a0 bs;;
    if decide (got < 0) then fail EIO else mret got.

(** One round of the wait for an echo reply: its TTL. *)
Definition ping_look (seq : Z) (k : K) : option (Z * K) + K :=
  match sv_rx_poll k 256 with
  | None => inl None
  | Some (n, buf, k) =>
      if decide (n < 14 + 20 + 8) then inr k
      else
        match buf !! 12%nat, buf !! 13%nat, buf !! 22%nat, buf !! 23%nat, buf !! 34%nat, buf !! 40%nat, buf !! 41%nat with
        | Some e0, Some e1, Some ttl, Some proto, Some type, Some s0, Some s1 =>
            if decide (e0 ≠ 8 ∨ e1 ≠ 0) then inr k
            else if decide (proto ≠ 1 ∨ type ≠ 0) then inr k
            else if decide (Z.lor (Z.shiftl s0 8) s1 ≠ seq) then inr k
            else inl (Some (ttl, k))
        | _, _, _, _, _, _, _ => inl None
        end
  end.

Definition do_ping (a0 : Z) : M K Z :=
  let seq := a0 mod 2 ^ 16 in
  sent ← call (λ k, sv_send_ping k seq);
  if decide (sent ≤ 0) then mret (-1)
  else call (λ k, match until PING_SPINS (ping_look seq) k with inl r => r | inr k => Some (-1, k) end).

Definition do_balloon (a0 a1 : Z) : M K Z :=
  if decide (a0 = BALLOON_OP_INFLATE) then call (λ k, sv_inflate k (wrap32 a1))
  else if decide (a0 = BALLOON_OP_DEFLATE) then call (λ k, sv_deflate k (wrap32 a1))
  else if decide (a0 = BALLOON_OP_ACTUAL) then get (λ k, fst (sv_balloon k))
  else if decide (a0 = BALLOON_OP_TARGET) then get (λ k, snd (sv_balloon k))
  else mret (-1).

(** ** exec *)

(** The argument strings, copied before the address space is replaced: [None] is
    the failure. *)
Fixpoint capture_args (argv : Z) (acc : exec_args) (argc : Z) (n : nat) : M K (option exec_args) :=
  match n with
  | O => mret (Some acc)
  | S n' =>
      let slot_va := argv +w (argc *w 8) in
      if negb (user_buf_ok slot_va 8) then mret None
      else
        bs ← fetch slot_va 8;
        let p := wrap64 (le_value bs) in
        if decide (p = 0) then mret (Some acc)
        else
          s ← user_str p;
          match s with
          | None => mret None
          | Some str =>
              let arg_bytes := Z.of_nat (length (arg_kbuf acc)) in
              if decide (EXEC_ARG_BYTES_MAX < arg_bytes + Z.of_nat (length str) + 1) then mret None
              else capture_args argv (mk_args (arg_offsets acc ++ [arg_bytes]) (arg_kbuf acc ++ str ++ [0])) (argc + 1) n'
          end
  end.

(** [sys_exec]: [Some regs] is the new register file. *)
Definition sys_exec (a0 a1 : Z) : M K (option (list Z)) :=
  s ← user_str a0;
  match s with
  | None => mret None
  | Some path =>
      fds ← get sv_fds;
      if negb fds then mret None
      else
        args ← (if decide (a1 ≠ 0) then capture_args a1 (mk_args [] []) 0 EXEC_MAX_ARGC else mret (Some (mk_args [] [])));
        match args with
        | None => mret None
        | Some ar => space_call (λ k um, sv_exec k um path ar)
        end
  end.

(** ** The dispatcher *)

(** How a call ends: with a value for x0, with a new image, or not at all. *)
Inductive result := RetVal (r : Z) | NewImage (regs : list Z) | Exited.

Definition returns (x : M K Z) : M K result := r ← x; mret (RetVal r).

Definition dispatch (num : Z) (regs : list Z) : M K result :=
  match regs with
  | a0 :: a1 :: a2 :: a3 :: a4 :: a5 :: _ =>
      if decide (num = SYS_READ) then returns (do_read a0 a1 a2)
      else if decide (num = SYS_WRITE) then returns (do_write a0 a1 a2)
      else if decide (num = SYS_OPEN) then returns (do_open a0 a1 a2)
      else if decide (num = SYS_CLOSE) then returns (do_close a0)
      else if decide (num = SYS_EXIT) then run (λ k, sv_exit k (to_int a0));; mret Exited
      else if decide (num = SYS_YIELD) then returns (run sv_schedule;; mret 0)
      else if decide (num = SYS_SLEEP) then returns (run (λ k, sv_sleep_ms k a0);; mret 0)
      else if decide (num = SYS_GETPID) then returns (get sv_pid)
      else if decide (num = SYS_LSEEK) then returns (do_lseek a0 a1 a2)
      else if decide (num = SYS_UPTIME) then returns (get sv_uptime_ms)
      else if decide (num = SYS_NET_PING) then returns (do_ping a0)
      else if decide (num = SYS_KILL) then returns (call (λ k, sv_kill k a0))
      else if decide (num = SYS_FORK) then returns (call (λ k, sv_fork k regs))
      else if decide (num = SYS_WAITPID) then returns (do_waitpid a0 a1 a2)
      else if decide (num = LNX_ARCH_PRCTL) then returns (do_arch_prctl a0 a1)
      else if decide (num = LNX_SET_TID_ADDRESS) then returns (do_set_tid_address a1)
      else if decide (num = LNX_OPENAT) then returns (do_openat a0 a1 a2 a3)
      else if decide (num = LNX_GETDENTS64) then returns (do_getdents64 a0 a1 a2)
      else if decide (num = LNX_CLOCK_GETTIME) then returns (do_clock_gettime a0 a1)
      else if decide (num = LNX_NANOSLEEP) then returns (do_nanosleep a0 a1)
      else if decide (num = LNX_GETRANDOM) then returns (do_getrandom a0 a1)
      else if decide (num = LNX_FSTAT) then returns (do_fstat a0 a1)
      else if decide (num = LNX_NEWFSTATAT) then returns (do_newfstatat a0 a1 a2 a3)
      else if decide (num = SYS_MMAP) then returns (space_call (λ k um, sv_mmap k um [a0; a1; a2; a3; a4; a5]))
      else if decide (num = SYS_BRK) then returns (space_call (λ k um, sv_brk k um a0))
      else if decide (num = SYS_MUNMAP) then returns (space_call (λ k um, sv_munmap k um a0 a1))
      else if decide (num = SYS_MPROTECT) then returns (space_call (λ k um, sv_mprotect k um a0 a1 a2))
      else if decide (num = SYS_BALLOON) then returns (do_balloon a0 a1)
      else if decide (num = SYS_EXEC) then
        r ← sys_exec a0 a1;
        mret (match r with Some regs' => NewImage regs' | None => RetVal (-1) end)
      else returns (fail ENOSYS)
  | _ => λ _ _, None
  end.

(** [syscall_dispatch]: the registers of the trap frame afterwards; [None] inside
    when the task has exited. *)
Definition syscall_dispatch (regs : list Z) : M K (option (list Z)) :=
  match regs !! 8%nat with
  | None => λ _ _, None
  | Some x8 =>
      r ← dispatch (translate_linux_syscall x8) regs;
      mret (match r with RetVal v => Some (<[0%nat := wrap64 v]> regs) | NewImage regs' => Some regs' | Exited => None end)
  end.
End Handlers.

(** ** Isolation *)

(** Runs of [x] on memories that agree on the user range are alike. *)
Definition isolated {K A} (x : M K A) : Prop := ∀ e m1 m2, agree m1 m2 → alike m1 m2 (x e m1) (x e m2).

(** [a] is an answer [x] can give. *)
Definition answer {K A} (x : M K A) (a : A) : Prop := ∃ e m e' m', x e m = Some (a, e', m').

Create HintDb isolation.

Lemma iso_ret {K A} (a : A) : isolated (mret a : M K A).
Proof. intros e m1 m2 H. by apply alike_ret. Qed.

Lemma iso_bind_answer {K A B} (x : M K A) (f : A → M K B) : isolated x → (∀ a, answer x a → isolated (f a)) → isolated (x ≫= f).
Proof.
  intros Hx Hf e m1 m2 H. specialize (Hx e m1 m2 H). unfold mbind, M_bind, alike in *.
  destruct (x e m1) as [[[a e1] n1]|] eqn:E1, (x e m2) as [[[b e2] n2]|] eqn:E2; try done. destruct Hx as ([= -> ->] & A1 & K1 & K2).
  assert (isolated (f b)) as Hfb by (apply Hf; by exists e, m2, e2, n2). specialize (Hfb e2 n1 n2 A1). unfold alike in Hfb.
  destruct (f b e2 n1) as [[[c e3] p1]|], (f b e2 n2) as [[[d e4] p2]|]; try done. destruct Hfb as (E & A2 & L1 & L2). repeat split; [done|done|by etrans|by etrans].
Qed.

Lemma iso_bind {K A B} (x : M K A) (f : A → M K B) : isolated x → (∀ a, isolated (f a)) → isolated (x ≫= f).
Proof. intros Hx Hf. apply iso_bind_answer; auto. Qed.

(** One step of a run. *)
Lemma bind_step {K A B} (x : M K A) (f : A → M K B) e m a e' m' : x e m = Some (a, e', m') → (x ≫= f) e m = f a e' m'.
Proof. intros E. unfold mbind, M_bind. by rewrite E. Qed.

Lemma iso_fetch {K} a n : 0 ≤ a → n = 0 ∨ a + n ≤ USER_VA_TOP → isolated (fetch a n : M K _).
Proof.
  intros Ha Hn e m1 m2 H. unfold fetch. assert (load m1 a n = load m2 a n) as ->; [|destruct (load m2 a n); [by apply alike_ret|done]].
  destruct Hn as [->|Hn]; [done|by apply load_agree].
Qed.

Lemma iso_put {K} a bs : 0 ≤ a → bs = [] ∨ a + Z.of_nat (length bs) ≤ USER_VA_TOP → isolated (put a bs : M K _).
Proof.
  intros Ha Hn e m1 m2 H. unfold put. pose proof (store_agree m1 m2 a bs H Ha Hn) as E. destruct (store m1 a bs), (store m2 a bs); done.
Qed.

Lemma iso_user_str {K} p : 0 ≤ p → isolated (user_str p : M K _).
Proof.
  intros Hp e m1 m2 H. unfold user_str. rewrite (user_str_ok_agree m1 m2 p H Hp). destruct (user_str_ok m2 p) as [r|] eqn:Er; [|done]. cbn [mbind option_bind].
  case_decide as Hr; [by apply alike_ret|]. destruct (user_str_ok_spec m2 p r Hp Er ltac:(lia)) as (_ & Ht & _).
  rewrite (load_agree m1 m2 p r) by (done || lia). destruct (load m2 p r); [by apply alike_ret|done].
Qed.

#[export] Hint Resolve iso_ret iso_bind iso_fetch iso_put iso_user_str : isolation.

(** newfstatat, and the calls that change the address space of the caller. *)
Definition unconfined : list Z := [LNX_NEWFSTATAT; SYS_MMAP; SYS_BRK; SYS_MUNMAP; SYS_MPROTECT; SYS_EXEC].

Section Isolation.
Context {K : Type} `{!Services K, !DirOps}.

Lemma iso_get {A} (f : K → A) : isolated (get f).
Proof. intros e m1 m2 Hag. by apply alike_ret. Qed.

Lemma iso_call {A} (f : K → option (A * K)) : isolated (call f).
Proof. intros e m1 m2 Hag. unfold call. destruct (f (e_k e)) as [[a k]|]; [by apply alike_ret|done]. Qed.

Lemma iso_reader {A} a n (f : (Z → option Z) → K → option (A * K)) : 0 ≤ a → n = 0 ∨ a + n ≤ USER_VA_TOP →
  (∀ rd rd' k, (∀ i, rd i = rd' i) → f rd k = f rd' k) → isolated (reader a n f).
Proof.
  intros Ha Hn Hf e m1 m2 Hag. unfold reader.
  assert (f (λ i, if decide (0 ≤ i < n) then m1 !! (a + i) else None) (e_k e) = f (λ i, if decide (0 ≤ i < n) then m2 !! (a + i) else None) (e_k e)) as ->.
  { apply Hf. intros i. case_decide; [|done]. apply Hag. lia. }
  destruct (f _ (e_k e)) as [[x k]|]; [by apply alike_ret|done].
Qed.

Lemma iso_fail err : isolated (fail err).
Proof. intros e m1 m2 Hag. by apply alike_ret. Qed.

Lemma iso_node_of i : isolated (node_of i).
Proof. intros e m1 m2 Hag. unfold node_of. destruct (_ !! i); [by apply alike_ret|done]. Qed.

Lemma iso_addr_of i : isolated (addr_of i).
Proof. apply iso_get. Qed.

Hint Resolve iso_get iso_call iso_fail iso_node_of iso_addr_of : isolation.

(** Branches and binds, then the primitives. *)
Ltac isolate :=
  repeat first
    [ progress (intros; cbn beta iota)
    | apply iso_bind
    | match goal with
      | |- isolated (if ?b then _ else _) => destruct b eqn:?
      | |- isolated (match ?x with _ => _ end) => destruct x eqn:?
      end
    | solve [eauto 3 with isolation] ].

Lemma buf_range a n : 0 ≤ a < 2 ^ 64 → 0 ≤ n < 2 ^ 64 → user_buf_ok a n = true → n = 0 ∨ a + n ≤ USER_VA_TOP.
Proof. intros Ha Hn. by apply user_buf_ok_spec. Qed.

(** Storing what fits the checked buffer. *)
Lemma iso_put_checked a n bs : 0 ≤ a < 2 ^ 64 → 0 ≤ n < 2 ^ 64 → user_buf_ok a n = true → Z.of_nat (length bs) ≤ n → isolated (put a bs : M K _).
Proof.
  intros Ha Hn Hok Hl. apply iso_put; [lia|]. destruct (buf_range a n Ha Hn Hok) as [->|Ht]; [left|right; lia]. by destruct bs; [|cbn in Hl; lia].
Qed.

Lemma iso_run (f : K → option K) : isolated (run f).
Proof. apply iso_call. Qed.
Hint Resolve iso_run : isolation.

Lemma iso_do_read a0 a1 a2 : is_u64 a1 → is_u64 a2 → isolated (do_read a0 a1 a2).
Proof.
  intros H1 H2. unfold do_read. apply iso_bind; [apply iso_get|]. intros fds. destruct (fds && user_buf_ok a1 a2) eqn:E; [|apply iso_ret]. apply andb_prop in E as [_ E].
  apply iso_bind_answer; [apply iso_call|]. intros [r bs] (e & m & e' & m' & Ha). unfold call in Ha.
  destruct (sv_read (e_k e) (to_int a0) a2) as [[[r' bs'] k]|] eqn:Er; [|done]. cbn in Ha. injection Ha as -> -> <- <-.
  apply iso_bind; [|intros _; apply iso_ret]. apply (iso_put_checked a1 a2); [done|done|done|]. eapply sv_read_len; [apply H2|exact Er].
Qed.

Lemma iso_do_write a0 a1 a2 : is_u64 a1 → is_u64 a2 → isolated (do_write a0 a1 a2).
Proof.
  intros H1 H2. unfold do_write. apply iso_bind; [apply iso_get|]. intros fds. destruct (fds && user_buf_ok a1 a2) eqn:E; [|apply iso_ret]. apply andb_prop in E as [_ E].
  apply iso_reader; [unfold is_u64 in *; lia|by apply buf_range|]. intros rd rd' k Hrd. by apply sv_write_ext.
Qed.

Lemma iso_open_path path flags mode : isolated (open_path path flags mode).
Proof. unfold open_path. isolate. Qed.

Lemma iso_do_open p flags mode : is_u64 p → isolated (do_open p flags mode).
Proof.
  intros Hp. unfold do_open. apply iso_bind; [apply iso_get|]. intros fds. destruct (negb fds); [apply iso_fail|]. apply iso_bind; [apply iso_user_str, Hp|].
  intros [path|]; [apply iso_open_path|apply iso_fail].
Qed.

Lemma iso_do_getdents64 a0 a1 a2 : is_u64 a1 → is_u64 a2 → isolated (do_getdents64 a0 a1 a2).
Proof.
  intros H1 H2 e m1 m2 Hag. unfold do_getdents64. set (fl := if sv_fds (e_k e) then _ else _).
  pose proof (getdents64_alike (sv_vfs (e_k e)) fl m1 m2 a1 a2 H1 H2 Hag) as E. unfold alike in E.
  destruct (sys_getdents64 _ fl m1 a1 a2) as [[[[r1 e1] f1] n1]|], (sys_getdents64 _ fl m2 a1 a2) as [[[[r2 e2] f2] n2]|]; try done. cbn [mbind option_bind] in *.
  destruct E as ([= -> -> ->] & A & K1 & K2). destruct e2 as [x|]; [unfold fail|]; by repeat split.
Qed.

Lemma stat_length addr v : length (fill_linux_stat addr v) = 128%nat.
Proof. unfold fill_linux_stat. by rewrite !length_app, !le_bytes_length. Qed.

(** Fixed-size results. *)
Lemma iso_put_fixed a bs n : is_u64 a → user_buf_ok a n = true → n = Z.of_nat (length bs) → n < 2 ^ 64 → isolated (put a bs : M K _).
Proof. intros Ha Hok -> Hn. apply (iso_put_checked a (Z.of_nat (length bs))); [done|lia|done|lia]. Qed.

Lemma iso_do_fstat a0 a1 : is_u64 a1 → isolated (do_fstat a0 a1).
Proof.
  intros H1. unfold do_fstat. apply iso_bind; [apply iso_get|]. intros [f|]; [|apply iso_fail]. destruct (user_buf_ok a1 STAT) eqn:E; [|apply iso_fail]. cbn [negb].
  apply iso_bind; [apply iso_node_of|]. intros v. apply iso_bind; [apply iso_addr_of|]. intros a. apply iso_bind; [|intros _; apply iso_ret]. apply (iso_put_fixed a1 _ STAT); [done|done|by rewrite stat_length|done].
Qed.

Lemma iso_do_clock_gettime a0 a1 : is_u64 a1 → isolated (do_clock_gettime a0 a1).
Proof.
  intros H1. unfold do_clock_gettime. case_decide; [apply iso_fail|]. destruct (user_buf_ok a1 TIMESPEC) eqn:E; [|apply iso_fail]. cbn [negb].
  apply iso_bind; [apply iso_get|]. intros sec. apply iso_bind; [apply iso_get|]. intros ms. apply iso_bind; [|intros _; apply iso_ret].
  apply (iso_put_fixed a1 _ TIMESPEC); [done|done|by rewrite length_app, !le_bytes_length|done].
Qed.

Lemma iso_do_nanosleep a0 a1 : is_u64 a0 → is_u64 a1 → isolated (do_nanosleep a0 a1).
Proof.
  intros H0 H1. unfold do_nanosleep. destruct (user_buf_ok a0 TIMESPEC) eqn:E; [|apply iso_fail]. cbn [negb].
  apply iso_bind; [apply iso_fetch; [unfold is_u64 in *; lia|by apply buf_range]|]. intros bs. cbv zeta. case_decide; [apply iso_fail|].
  apply iso_bind; [destruct (decide (sleep_length _ _ ≠ 0)); auto with isolation|]. intros _. destruct (decide (a1 ≠ 0)); [|apply iso_ret].
  destruct (user_buf_ok a1 TIMESPEC) eqn:E1; [|apply iso_fail]. cbn [negb]. apply iso_bind; [|intros _; apply iso_ret].
  by apply (iso_put_fixed a1 _ TIMESPEC).
Qed.

Lemma iso_do_waitpid a0 a1 a2 : is_u64 a1 → isolated (do_waitpid a0 a1 a2).
Proof.
  intros H1. unfold do_waitpid. destruct (bool_decide (a1 ≠ 0) && negb (user_buf_ok a1 4)) eqn:E; [apply iso_fail|].
  apply iso_bind; [apply iso_call|]. intros [pid status]. destruct (decide (pid < 0)); [apply iso_fail|]. apply iso_bind; [|intros _; apply iso_ret].
  destruct (decide (a1 ≠ 0)) as [Hnz|Hnz]; [|apply iso_ret]. rewrite bool_decide_eq_true_2 in E by done. cbn in E. apply negb_false_iff in E.
  apply (iso_put_fixed a1 _ 4); [done|done|by rewrite le_bytes_length|done].
Qed.

Lemma iso_do_getrandom a0 a1 : is_u64 a0 → is_u64 a1 → isolated (do_getrandom a0 a1).
Proof.
  intros H0 H1. unfold do_getrandom. case_decide as Hz; [apply iso_ret|]. destruct (user_buf_ok a0 a1) eqn:E; [|apply iso_fail]. cbn [negb].
  apply iso_bind_answer; [apply iso_call|]. intros [got bs] (e & m & e' & m' & Ha). unfold call in Ha.
  destruct (sv_rng_read (e_k e) (wrap32 a1)) as [[[r' bs'] k]|] eqn:Er; [|done]. cbn in Ha. injection Ha as -> -> <- <-.
  apply iso_bind; [|intros _; case_decide; [apply iso_fail|apply iso_ret]]. apply (iso_put_checked a0 a1); [done|done|done|].
  apply sv_rng_len in Er; [|apply wrap32_range]. unfold is_u64, wrap32 in *. pose proof (Z.mod_le a1 (2 ^ 32)). lia.
Qed.

Lemma iso_do_arch_prctl a0 a1 : isolated (do_arch_prctl a0 a1).
Proof. unfold do_arch_prctl. isolate. Qed.

Lemma iso_do_balloon a0 a1 : isolated (do_balloon a0 a1).
Proof. unfold do_balloon. isolate. Qed.

Lemma iso_do_ping a0 : isolated (do_ping a0).
Proof. unfold do_ping. cbv zeta. apply iso_bind; [apply iso_call|]. intros sent. case_decide; auto with isolation. Qed.

Lemma iso_returns (x : M K Z) : isolated x → isolated (returns x).
Proof. intros Hx. unfold returns. apply iso_bind; [done|]. intros r. apply iso_ret. Qed.

Lemma iso_dispatch num regs : Forall is_u64 regs → num ∉ unconfined → isolated (dispatch num regs).
Proof.
  intros Hr Hn. unfold unconfined in Hn. rewrite !not_elem_of_cons in Hn. destruct Hn as (N1 & N2 & N3 & N4 & N5 & N6 & _). destruct regs as [|a0 [|a1 [|a2 [|a3 [|a4 [|a5 regs]]]]]]; try (intros e m1 m2 Hag; done). unfold dispatch.
  repeat (apply Forall_cons in Hr as [? Hr]).
  repeat (case_decide; [try (apply iso_returns); first
    [ by apply iso_do_read | by apply iso_do_write | by apply iso_do_open | by apply iso_do_waitpid | apply iso_do_arch_prctl | by apply iso_do_getdents64
    | by apply iso_do_clock_gettime | by apply iso_do_nanosleep | by apply iso_do_getrandom | by apply iso_do_fstat | apply iso_do_balloon | apply iso_do_ping
    | done
    | unfold do_openat; case_decide; [apply iso_fail|by apply iso_do_open]
    | unfold do_close, do_lseek, do_set_tid_address; isolate ]|]).
  apply iso_returns, iso_fail.
Qed.
End Isolation.

(** C1. Isolation of the kernel from user pointers.  Take any system call that does
    not change the address space (mmap, munmap, mprotect, brk and exec are left
    out) except newfstatat, with any register contents and any implementation of
    the services, and two memories that differ only at virtual addresses outside
    the user range.  Then both runs fault or both return the same registers, the
    same errno and the same kernel state; memory inside the user range is the
    same afterwards; and not one byte at an address outside it has changed. *)
Theorem syscall_isolation {K : Type} `{!Services K, !DirOps} (regs : list Z) (x8 : Z) (e : env K) (m1 m2 : gmap Z Z)
    (Hregs : Forall is_u64 regs) (H8 : regs !! 8%nat = Some x8) (Hnum : translate_linux_syscall x8 ∉ unconfined) (Hag : agree m1 m2) :
  match syscall_dispatch regs e m1, syscall_dispatch regs e m2 with
  | Some (r1, e1, m1'), Some (r2, e2, m2') => r1 = r2 ∧ e1 = e2 ∧ agree m1' m2' ∧ kernel_same m1 m1' ∧ kernel_same m2 m2'
  | None, None => True
  | _, _ => False
  end.
Proof.
  assert (isolated (syscall_dispatch regs : M K _)) as Hiso.
  { unfold syscall_dispatch. rewrite H8. apply iso_bind; [|intros r; apply iso_ret]. by apply iso_dispatch. }
  specialize (Hiso e m1 m2 Hag). unfold alike in Hiso.
  destruct (syscall_dispatch regs e m1) as [[[r1 e1] n1]|], (syscall_dispatch regs e m2) as [[[r2 e2] n2]|]; try done.
  by destruct Hiso as ([= -> ->] & ? & ? & ?).
Qed.

Lemma c_string_ok m s : ∀ p fuel, holds m p (s ++ [0]) → 0 ∉ s → (length s < fuel)%nat → c_string m p fuel = Some s.
Proof.
  induction s as [|b s IH]; intros p fuel Hh Hz Hf; (destruct fuel as [|fuel]; [cbn in Hf; lia|]); cbn [c_string].
  - pose proof (Hh 0%nat 0 eq_refl) as E. rewrite Z.add_0_r in E. by rewrite E.
  - pose proof (Hh 0%nat b eq_refl) as E. rewrite Z.add_0_r in E. rewrite E. cbn [mbind option_bind]. apply not_elem_of_cons in Hz as [Hb Hz]. rewrite decide_False by auto.
    change ((b :: s) ++ [0]) with ([b] ++ (s ++ [0])) in Hh. apply holds_app in Hh as [_ Hh]. cbn [length] in *. rewrite IH by (done || lia). done.
Qed.

(** A string fits into the memory that holds it. *)
Lemma holds_size m p bs : holds m p bs → (length bs ≤ size m)%nat.
Proof.
  intros Hh. rewrite <- (size_dom (D := gset Z)). pose proof (size_list_to_set (C := gset Z) (seqZ p (Z.of_nat (length bs))) (NoDup_seqZ _ _)) as E.
  rewrite length_seqZ, Nat2Z.id in E. rewrite <- E. apply subseteq_size. intros x Hx. apply elem_of_list_to_set, elem_of_seqZ in Hx.
  destruct (lookup_lt_is_Some_2 bs (Z.to_nat (x - p))) as [b Hb]; [lia|]. apply elem_of_dom. exists b. rewrite <- (Hh _ _ Hb). f_equal. lia.
Qed.

(** newfstatat with the path [p] and the buffer [buf], relative to the current
    directory and without flags. *)
Definition newfstatat_regs (r p buf : Z) (rest : list Z) : list Z := r :: p :: buf :: 0 :: 0 :: 0 :: 0 :: 0 :: LNX_NEWFSTATAT :: rest.

Lemma newfstatat_step {K : Type} `{!Services K, !DirOps} (e e' : env K) (m m' : gmap Z Z) p buf rest r :
  do_newfstatat (wrap64 AT_FDCWD) p buf 0 e m = Some (r, e', m') →
  syscall_dispatch (newfstatat_regs (wrap64 AT_FDCWD) p buf rest) e m = Some (Some (newfstatat_regs (wrap64 r) p buf rest), e', m').
Proof.
  intros E. unfold syscall_dispatch, newfstatat_regs. cbn [lookup list_lookup]. change (translate_linux_syscall LNX_NEWFSTATAT) with LNX_NEWFSTATAT.
  unfold dispatch. repeat (rewrite decide_False by done). rewrite decide_True by done. unfold returns.
  by rewrite (bind_step _ _ e m (RetVal r) e' m') by (by rewrite (bind_step _ _ e m _ e' m' E)).
Qed.

(** C38. The exception: newfstatat tests [!user_str_ok(path)], which lets every
    refused pointer through (the refusal is -1) and refuses the empty path
    instead.  For any string at or above the user range the caller learns whether
    it names a file: the call returns 0 if it does and -1 if it does not.  An
    empty string in the user range is refused with EFAULT before it is looked
    up. *)
Theorem newfstatat_reads_kernel {K : Type} `{!Services K, !DirOps} (e : env K) (m : gmap Z Z) (p buf : Z) (s rest : list Z) (r : option nat) (k1 : K)
    (Hp : USER_VA_TOP ≤ p < 2 ^ 64) (Hstr : holds m p (s ++ [0])) (Hnz : 0 ∉ s)
    (Hbuf : 0 ≤ buf ∧ buf + STAT ≤ USER_VA_TOP ∧ ∀ x, buf ≤ x < buf + STAT → is_Some (m !! x))
    (Hres : sv_resolve (e_k e) s = Some (r, k1)) (Hnode : ∀ i, r = Some i → is_Some (node_pool (sv_vfs k1) !! i)) :
  (∃ e' m', syscall_dispatch (newfstatat_regs (wrap64 AT_FDCWD) p buf rest) e m =
    Some (Some (newfstatat_regs (if r is Some _ then 0 else wrap64 (-1)) p buf rest), e', m') ∧ e_k e' = k1) ∧
  ∀ q, 0 ≤ q < USER_VA_TOP → m !! q = Some 0 →
    ∃ e', syscall_dispatch (newfstatat_regs (wrap64 AT_FDCWD) q buf rest) e m = Some (Some (newfstatat_regs (wrap64 (-1)) q buf rest), e', m) ∧
      e_k e' = e_k e ∧ (sv_tls (e_k e) = true → e_errno e' = EFAULT).
Proof.
  destruct Hbuf as (Hb0 & Hb1 & Hb2). split.
  - assert (user_str_ok m p = Some (-1)) as Hstrok by (unfold user_str_ok; by rewrite decide_True by lia).
    assert (user_buf_ok buf STAT = true) as Hbufok by (apply user_buf_ok_spec; unfold USER_VA_TOP, STAT in *; lia).
    assert (c_string m p (S (size m)) = Some s) as Hc.
    { apply c_string_ok; [done|done|]. pose proof (holds_size m p _ Hstr) as Hs. rewrite length_app in Hs. cbn in Hs. lia. }
    assert (∃ e' m', do_newfstatat (wrap64 AT_FDCWD) p buf 0 e m = Some (if r is Some _ then 0 else -1, e', m') ∧ e_k e' = k1) as (e' & m' & E & Hk).
    { unfold do_newfstatat. rewrite decide_False by (intros Hx; by apply Hx).
      rewrite (bind_step _ _ e m (-1) e m) by (unfold str_len; by rewrite Hstrok). change (bool_decide (-1 = 0)) with false. rewrite Hbufok. cbn [negb orb].
      rewrite decide_False by (intros Hx; by apply Hx). rewrite (bind_step _ _ e m s e m) by (unfold raw_str; by rewrite Hc).
      rewrite (bind_step _ _ e m r (mk_env k1 (e_errno e)) m) by (unfold call; by rewrite Hres). destruct r as [i|].
      - destruct (Hnode i eq_refl) as [v Hv]. rewrite (bind_step _ _ _ m v (mk_env k1 (e_errno e)) m) by (unfold node_of; cbn [e_k]; by rewrite Hv).
        rewrite (bind_step _ _ _ m (sv_node_addr k1 i) (mk_env k1 (e_errno e)) m) by done.
        destruct (store_ok m buf (fill_linux_stat (sv_node_addr k1 i) v)) as (m' & Est & _); [rewrite stat_length; exact Hb2|].
        rewrite (bind_step _ _ _ m tt (mk_env k1 (e_errno e)) m') by (unfold put; by rewrite Est). by eexists _, m'.
      - unfold fail. cbn [e_k]. eexists _, m. split; [done|]. by destruct (sv_tls k1). }
    exists e', m'. split; [|done]. rewrite (newfstatat_step _ _ _ _ _ _ _ _ E). by destruct r.
  - intros q Hq H0. assert (user_str_ok m q = Some 0) as Hstrok.
    { unfold user_str_ok. rewrite decide_False by lia. assert (∃ n, Z.to_nat (if decide (USER_PATH_MAX < USER_VA_TOP - q) then USER_PATH_MAX else USER_VA_TOP - q) = S n) as [n ->].
      { case_decide; [by eexists|]. exists (Z.to_nat (USER_VA_TOP - q - 1)). lia. }
      cbn [str_scan]. by rewrite Z.add_0_r, H0. }
    assert (∃ e', do_newfstatat (wrap64 AT_FDCWD) q buf 0 e m = Some (-1, e', m) ∧ e_k e' = e_k e ∧ (sv_tls (e_k e) = true → e_errno e' = EFAULT)) as (e' & E & Hk).
    { unfold do_newfstatat. rewrite decide_False by (intros Hx; by apply Hx). rewrite (bind_step _ _ e m 0 e m) by (unfold str_len; by rewrite Hstrok).
      change (bool_decide (0 = 0)) with true. cbn [orb]. unfold fail. eexists. split; [reflexivity|]. by destruct (sv_tls (e_k e)). }
    exists e'. split; [|done]. exact (newfstatat_step _ _ _ _ _ _ _ _ E).
Qed.

(** ** Witnesses *)

(** A kernel with one file, ["x"], and nothing else. *)
Definition X : list Z := [120].

#[refine] Instance toy_services : Services unit := {
  sv_fds _ := true; sv_tls _ := true; sv_pid _ := 1; sv_node_addr _ i := 0xFFFF000040200000 + 96 * Z.of_nat i; sv_vfs _ := mk_vfs [mk_vnode X VNODE_REG 0 None 5 0 None None None] None;
  sv_file _ _ := None; sv_set_file k _ _ := k; sv_read k _ n := Some (0, [], k); sv_write k _ n _ := Some (n, k);
  sv_open k _ _ _ := Some (-1, k); sv_close k _ := Some (-1, k); sv_seek k _ _ _ := Some (-1, k);
  sv_resolve k s := Some (if decide (s = X) then Some 0%nat else None, k);
  sv_exit k _ := Some k; sv_schedule k := Some k; sv_sleep_ms k _ := Some k; sv_uptime_ms _ := 0; sv_uptime_seconds _ := 0;
  sv_kill k _ := Some (-1, k); sv_fork k _ := Some (-1, k); sv_waitpid k _ _ := Some (-1, 0, k);
  sv_tpidr _ := 0; sv_set_tpidr k _ := k; sv_set_clear_tid k _ := k;
  sv_mmap k um _ := Some (-1, k, um); sv_brk k um _ := Some (-1, k, um); sv_munmap k um _ _ := Some (-1, k, um); sv_mprotect k um _ _ _ := Some (-1, k, um);
  sv_exec k um _ _ := Some (None, k, um);
  sv_send_ping k _ := Some (-1, k); sv_rx_poll k _ := Some (0, [], k); sv_rng_read k _ := Some (-1, [], k);
  sv_inflate k _ := Some (0, k); sv_deflate k _ := Some (0, k); sv_balloon _ := (0, 0);
}.
Proof.
  - intros k fd n r bs k' Hn E. injection E as _ <- _. exact Hn.
  - done.
  - intros k n r bs k' Hn E. injection E as _ <- _. exact Hn.
Defined.

(** Kernel memory at [KERNEL_VA] that holds the string [s]; 200 user bytes at 0x500000. *)
Definition KERNEL_VA : Z := 0xFFFF000040000000.
Definition toy_mem (s : list Z) : gmap Z Z := mem_write (mem_write ∅ 0x500000 (replicate 200 0)) KERNEL_VA (s ++ [0]).
Definition toy_env : env unit := mk_env tt 0.
Definition toy_regs (a0 a1 a2 num : Z) : list Z := [a0; a1; a2; 0; 0; 0; 0; 0; num].

Lemma toy_agree s s' : agree (toy_mem s) (toy_mem s').
Proof. intros x Hx. unfold toy_mem. rewrite !(mem_write_outside _ KERNEL_VA); [done|unfold KERNEL_VA, USER_VA_TOP in *; lia..]. Qed.

(** write(1, kernel pointer, 1) is refused whatever is there. *)
Lemma syscall_isolation_witness :
  agree (toy_mem X) (toy_mem [121]) ∧
  match syscall_dispatch (toy_regs 1 KERNEL_VA 1 SYS_WRITE) toy_env (toy_mem X), syscall_dispatch (toy_regs 1 KERNEL_VA 1 SYS_WRITE) toy_env (toy_mem [121]) with
  | Some (r1, _, _), Some (r2, _, _) => r1 = r2 ∧ r1 = Some (toy_regs (wrap64 (-1)) KERNEL_VA 1 SYS_WRITE)
  | _, _ => False
  end.
Proof.
  split; [apply toy_agree|].
  pose proof (syscall_isolation (toy_regs 1 KERNEL_VA 1 SYS_WRITE) SYS_WRITE toy_env (toy_mem X) (toy_mem [121])
    ltac:(unfold toy_regs, KERNEL_VA, is_u64, SYS_WRITE; repeat apply Forall_cons_2; try apply Forall_nil_2; lia) eq_refl ltac:(refine (bool_decide_unpack _ _); vm_compute; exact I) (toy_agree X [121])) as H.
  assert (fst <$> (fst <$> syscall_dispatch (toy_regs 1 KERNEL_VA 1 SYS_WRITE) toy_env (toy_mem X)) = Some (Some (toy_regs (wrap64 (-1)) KERNEL_VA 1 SYS_WRITE))) as E by (vm_compute; reflexivity).
  destruct (syscall_dispatch _ toy_env (toy_mem X)) as [[[r1 e1] n1]|], (syscall_dispatch _ toy_env (toy_mem [121])) as [[[r2 e2] n2]|]; try done.
  destruct H as (Hr & _). cbn in E. split; [exact Hr|]. congruence.
Defined.

(** Two kernels that differ in one byte of kernel memory answer differently. *)
Lemma newfstatat_reads_kernel_witness :
  agree (toy_mem X) (toy_mem [121]) ∧
  (∃ e' m', syscall_dispatch (toy_regs (wrap64 AT_FDCWD) KERNEL_VA 0x500000 LNX_NEWFSTATAT) toy_env (toy_mem X) =
    Some (Some (toy_regs 0 KERNEL_VA 0x500000 LNX_NEWFSTATAT), e', m')) ∧
  (∃ e' m', syscall_dispatch (toy_regs (wrap64 AT_FDCWD) KERNEL_VA 0x500000 LNX_NEWFSTATAT) toy_env (toy_mem [121]) =
    Some (Some (toy_regs (wrap64 (-1)) KERNEL_VA 0x500000 LNX_NEWFSTATAT), e', m')) ∧
  (∃ e', syscall_dispatch (toy_regs (wrap64 AT_FDCWD) 0x500010 0x500000 LNX_NEWFSTATAT) toy_env (toy_mem X) =
    Some (Some (toy_regs (wrap64 (-1)) 0x500010 0x500000 LNX_NEWFSTATAT), e', toy_mem X) ∧ e_errno e' = EFAULT).
Proof.
  split; [apply toy_agree|].
  assert (∀ s, holds (toy_mem s) KERNEL_VA (s ++ [0])) as Hh.
  { intros s i x Hx. pose proof (lookup_lt_Some _ _ _ Hx). unfold toy_mem. rewrite mem_write_lookup, decide_True by lia. rewrite <- Hx. f_equal. lia. }
  assert (∀ s x, 0x500000 ≤ x < 0x500000 + STAT → is_Some (toy_mem s !! x)) as Hb.
  { intros s x Hx. unfold toy_mem, STAT in *. rewrite mem_write_outside by (unfold KERNEL_VA; lia). rewrite mem_write_lookup, decide_True by (rewrite length_replicate; lia).
    apply lookup_lt_is_Some_2. rewrite length_replicate. lia. }
  assert (USER_VA_TOP ≤ KERNEL_VA < 2 ^ 64) as Hp by (unfold USER_VA_TOP, KERNEL_VA; lia).
  assert (0x500000 + STAT ≤ USER_VA_TOP) as Ht by (unfold STAT, USER_VA_TOP; lia).
  split; [|split].
  - destruct (newfstatat_reads_kernel toy_env (toy_mem X) KERNEL_VA 0x500000 X [] (Some 0%nat) tt Hp (Hh X)) as [(e' & m' & E & _) _];
      [by apply not_elem_of_cons; split; [|apply not_elem_of_nil]|split; [lia|split; [exact Ht|apply Hb]]|done|intros i [= <-]; by eexists|].
    exists e', m'. exact E.
  - destruct (newfstatat_reads_kernel toy_env (toy_mem [121]) KERNEL_VA 0x500000 [121] [] None tt Hp (Hh [121])) as [(e' & m' & E & _) _];
      [by apply not_elem_of_cons; split; [|apply not_elem_of_nil]|split; [lia|split; [exact Ht|apply Hb]]|done|done|].
    exists e', m'. exact E.
  - destruct (newfstatat_reads_kernel toy_env (toy_mem X) KERNEL_VA 0x500000 X [] (Some 0%nat) tt Hp (Hh X)) as [_ H];
      [by apply not_elem_of_cons; split; [|apply not_elem_of_nil]|split; [lia|split; [exact Ht|apply Hb]]|done|intros i [= <-]; by eexists|].
    destruct (H 0x500010) as (e' & E & _ & He); [unfold USER_VA_TOP; lia|reflexivity|]. exists e'. split; [exact E|by apply He].
Defined.
