(* ===== verification/Exec.v ===== *)
(** The initial stack of a program, from [sys_exec] in [src/src/syscall/syscall.c]:
    the argument strings captured from the old address space, the layout, and
    what is written to the fresh stack pages: argc, argv, an empty environment,
    the auxiliary vector, the strings and sixteen random bytes.

    The stack pages are written through the kernel's alias, so they are a list of
    bytes that starts at [stack_user_lo]; a write outside of them is a fault. *)
From S2P Require Import Prelude Pmm Mmu Elf AddrSpace Vnode Fd UserMem Dirent Syscall.

(** ** Layout *)

Definition AT_NULL : Z := 0.
Definition AT_PHDR : Z := 3.
Definition AT_PHENT : Z := 4.
Definition AT_PHNUM : Z := 5.
Definition AT_PAGESZ : Z := 6.
Definition AT_BASE : Z := 7.
Definition AT_FLAGS : Z := 8.
Definition AT_ENTRY : Z := 9.
Definition AT_UID : Z := 11.
Definition AT_EUID : Z := 12.
Definition AT_GID : Z := 13.
Definition AT_EGID : Z := 14.
Definition AT_HWCAP : Z := 16.
Definition AT_CLKTCK : Z := 17.
Definition AT_SECURE : Z := 23.
Definition AT_RANDOM : Z := 25.
Definition AT_EXECFN : Z := 31.
Definition aux_max : Z := 17.
Definition aux_random_size : Z := 16.
Definition stack_user_lo : Z := USER_STACK_TOP - USER_STACK_PAGES * PAGE_SIZE.

Record exec_layout := mk_layout { envp_off : Z; auxv_off : Z; strings_lo : Z; new_sp : Z }.

(** [None] when the arguments do not fit. *)
Definition plan_stack (argc arg_bytes : Z) : option exec_layout :=
  let envp_off := 8 +w ((argc +w 1) *w 8) in
  let auxv_off := envp_off +w 8 in
  let auxv_base := Z.land (auxv_off +w (aux_max *w 16) +w 15) (not64 15) in
  let strings_lo := Z.land (USER_STACK_TOP -w arg_bytes -w aux_random_size) (not64 15) in
  let new_sp := strings_lo -w auxv_base in
  if decide (new_sp < stack_user_lo) then None else Some (mk_layout envp_off auxv_off strings_lo new_sp).

(** ** Writing the stack *)

(** Bytes at a user address of the stack pages. *)
Definition poke (stk : list Z) (va : Z) (bs : list Z) : option (list Z) :=
  if decide (stack_user_lo ≤ va ∧ va - stack_user_lo + Z.of_nat (length bs) ≤ Z.of_nat (length stk)) then Some (splice stk (va - stack_user_lo) bs) else None.
Definition poke64 (stk : list Z) (va x : Z) : option (list Z) := poke stk va (le_bytes 8 x).

Definition aux_put (base : Z) (st : list Z * Z) (type val : Z) : option (list Z * Z) :=
  stk ← poke64 (fst st) (base + snd st * 2 * 8) type;
  stk ← poke64 stk (base + (snd st * 2 + 1) * 8) val;
  Some (stk, snd st + 1).

(** The pairs in the order they are put. *)
Definition aux_pairs (img : elf_image) (argc strings random_va : Z) : list (Z * Z) :=
  [(AT_PHDR, i_phdr_va img); (AT_PHENT, i_phentsize img); (AT_PHNUM, i_phnum img); (AT_PAGESZ, PAGE_SIZE); (AT_BASE, 0); (AT_FLAGS, 0);
   (AT_ENTRY, i_entry img); (AT_UID, 0); (AT_EUID, 0); (AT_GID, 0); (AT_EGID, 0); (AT_HWCAP, 0); (AT_CLKTCK, 100); (AT_SECURE, 0); (AT_RANDOM, random_va)] ++
  (if decide (0 < argc) then [(AT_EXECFN, strings)] else []) ++ [(AT_NULL, 0)].

Fixpoint aux_puts (base : Z) (st : list Z * Z) (l : list (Z * Z)) : option (list Z * Z) :=
  match l with
  | [] => Some st
  | (type, val) :: l' => st ← aux_put base st type val; aux_puts base st l'
  end.

(** The unused slots of the vector. *)
Fixpoint aux_clear (base : Z) (stk : list Z) (i : Z) (n : nat) : option (list Z) :=
  match n with
  | O => Some stk
  | S n' => stk ← poke64 stk (base + i * 2 * 8) 0; stk ← poke64 stk (base + (i * 2 + 1) * 8) 0; aux_clear base stk (i + 1) n'
  end.

Fixpoint put_argv (stk : list Z) (argv strings : Z) (offs : list Z) (i : Z) : option (list Z) :=
  match offs with
  | [] => Some stk
  | o :: offs' => stk ← poke64 stk (argv + i * 8) (strings + o); put_argv stk argv strings offs' (i + 1)
  end.

(** The cleared stack pages. *)
Definition zero_stack : list Z := replicate (Z.to_nat (USER_STACK_PAGES * PAGE_SIZE)) 0.
#[global] Arguments zero_stack : simpl never.

(** The writes, in order; [random] is what the random number device delivered. *)
Definition write_stack (stk : list Z) (lay : exec_layout) (args : exec_args) (img : elf_image) (random : list Z) : option (list Z) :=
  let argc := Z.of_nat (length (arg_offsets args)) in
  let arg_bytes := Z.of_nat (length (arg_kbuf args)) in
  stk ← poke stk (strings_lo lay) (arg_kbuf args);
  let random_va := strings_lo lay + arg_bytes in
  stk ← poke stk random_va (replicate 16 0);
  stk ← poke stk random_va random;
  stk ← poke64 stk (new_sp lay) argc;
  stk ← put_argv stk (new_sp lay + 8) (strings_lo lay) (arg_offsets args) 0;
  stk ← poke64 stk (new_sp lay + 8 + argc * 8) 0;
  stk ← poke64 stk (new_sp lay + envp_off lay) 0;
  '(stk, ai) ← aux_puts (new_sp lay + auxv_off lay) (stk, 0) (aux_pairs img argc (strings_lo lay) random_va);
  aux_clear (new_sp lay + auxv_off lay) stk ai (Z.to_nat (aux_max - ai)).

(** The registers the program starts with: x0, x1, x2 and the stack pointer. *)
Definition start_regs (lay : exec_layout) (argc : Z) : list Z := [argc; new_sp lay + 8; new_sp lay + envp_off lay; new_sp lay].

(** ** What a program finds *)

Definition word (m : gmap Z Z) (a : Z) : option Z := le_value <$> load m a 8.

Fixpoint read_argv (m : gmap Z Z) (a : Z) (n : nat) : option (list (list Z)) :=
  match n with
  | O => Some []
  | S n' => p ← word m a; s ← c_string m p 1025; r ← read_argv m (a + 8) n'; Some (s :: r)
  end.

Fixpoint read_aux (m : gmap Z Z) (a : Z) (fuel : nat) : option (list (Z * Z)) :=
  match fuel with
  | O => None
  | S f => t ← word m a; v ← word m (a + 8); if decide (t = AT_NULL) then Some [] else r ← read_aux m (a + 16) f; Some ((t, v) :: r)
  end.

(** A start-up routine that follows the Linux convention: the arguments, with an
    empty environment, and the auxiliary vector. *)
Definition linux_start (m : gmap Z Z) (sp : Z) : option (list (list Z) * list (Z * Z)) :=
  argc ← word m sp;
  argv ← read_argv m (sp + 8) (Z.to_nat argc);
  nul ← word m (sp + 8 + 8 * argc);
  env ← word m (sp + 16 + 8 * argc);
  if decide (nul = 0 ∧ env = 0) then aux ← read_aux m (sp + 24 + 8 * argc) 17; Some (argv, aux) else None.

(** The captured form of a list of strings. *)
Definition packed (strs : list (list Z)) : list Z := concat ((λ s, s ++ [0]) <$> strs).

Fixpoint offsets (o : Z) (strs : list (list Z)) : list Z :=
  match strs with [] => [] | s :: strs' => o :: offsets (o + Z.of_nat (length s) + 1) strs' end.

Definition pack (strs : list (list Z)) : exec_args := mk_args (offsets 0 strs) (packed strs).

(** The argument strings of the caller. *)
Definition argv_at (m : gmap Z Z) (argv : Z) (strs : list (list Z)) : Prop :=
  (∀ i s, strs !! i = Some s → ∃ p, wrap64 <$> word m (argv + 8 * Z.of_nat i) = Some p ∧ p ≠ 0 ∧ holds m p (s ++ [0]) ∧ 0 ∉ s) ∧
  ((length strs < EXEC_MAX_ARGC)%nat → wrap64 <$> word m (argv + 8 * Z.of_nat (length strs)) = Some 0).

(** ** Capturing *)

Lemma offsets_length o strs : length (offsets o strs) = length strs.
Proof. revert o. induction strs as [|s strs IH]; intros o; [done|]. cbn. by rewrite IH. Qed.

Lemma offsets_app o strs s : offsets o (strs ++ [s]) = offsets o strs ++ [o + Z.of_nat (length (packed strs))].
Proof.
  revert o. induction strs as [|t strs IH]; intros o; [cbn; by rewrite Z.add_0_r|]. cbn [offsets app]. rewrite IH. do 2 f_equal. unfold packed. cbn [fmap list_fmap concat].
  rewrite !length_app. cbn [length]. f_equal. lia.
Qed.

Lemma packed_app strs s : packed (strs ++ [s]) = packed strs ++ s ++ [0].
Proof. unfold packed. rewrite fmap_app, concat_app. cbn. by rewrite app_nil_r. Qed.

Section Capture.
Context {K : Type}.

(** What has been captured after [strs] is right, and more is added to it. *)
Lemma capture_args_ok (e : env K) m argv n : is_u64 argv → ∀ strs ar e' m', (length strs + n = EXEC_MAX_ARGC)%nat →
  (strs = [] ∨ argv < USER_VA_TOP) → Z.of_nat (length (packed strs)) ≤ EXEC_ARG_BYTES_MAX →
  (∀ i s, strs !! i = Some s → ∃ p, wrap64 <$> word m (argv + 8 * Z.of_nat i) = Some p ∧ p ≠ 0 ∧ holds m p (s ++ [0]) ∧ 0 ∉ s) →
  capture_args argv (pack strs) (Z.of_nat (length strs)) n e m = Some (Some ar, e', m') →
  e' = e ∧ m' = m ∧ ∃ strs', ar = pack strs' ∧ (length strs' ≤ EXEC_MAX_ARGC)%nat ∧ Z.of_nat (length (packed strs')) ≤ EXEC_ARG_BYTES_MAX ∧ argv_at m argv strs'.
Proof.
  intros Hu. induction n as [|n IH]; intros strs ar e' m' Hn Ha Hb Hs; cbn [capture_args].
  - intros E. injection E as <- <- <-. split; [done|]. split; [done|]. exists strs. split; [done|]. split; [lia|]. split; [done|]. split; [done|lia].
  - assert (argv +w Z.of_nat (length strs) *w 8 = argv + 8 * Z.of_nat (length strs)) as Eslot.
    { unfold EXEC_MAX_ARGC, is_u64, USER_VA_TOP in *. rewrite mul64_small by lia. destruct Ha as [->|Ha]; [cbn [length]; rewrite add64_small by lia; lia|]. rewrite add64_small by lia. lia. }
    rewrite Eslot. destruct (user_buf_ok _ 8) eqn:Eb; [|done]. cbn [negb].
    assert (argv < USER_VA_TOP) as Ht. { apply user_buf_ok_spec in Eb as [?|?]; unfold EXEC_MAX_ARGC, is_u64, USER_VA_TOP in *; destruct Ha as [->|Ha]; cbn [length] in *; lia. }
    unfold mbind at 1, M_bind at 1, fetch at 1. destruct (load m _ 8) as [bs|] eqn:El; [|done]. cbn [mbind option_bind].
    assert (wrap64 <$> word m (argv + 8 * Z.of_nat (length strs)) = Some (wrap64 (le_value bs))) as Ew by (unfold word; by rewrite El).
    destruct (decide (wrap64 (le_value bs) = 0)) as [Hz|Hz].
    + intros E. injection E as <- <- <-. split; [done|]. split; [done|]. exists strs. split; [done|]. split; [lia|]. split; [done|]. split; [done|]. intros _. by rewrite Ew, Hz.
    + unfold mbind at 1, M_bind at 1, user_str at 1. destruct (user_str_ok m (wrap64 (le_value bs))) as [r|] eqn:Er; [|done]. cbn [mbind option_bind].
      case_decide as Hr; [done|]. destruct (user_str_ok_spec m _ r ltac:(apply wrap64_range) Er ltac:(lia)) as (Hr1 & Hr2 & H0 & str & Hstr & Hnz).
      rewrite Hstr. cbn [mbind option_bind]. cbn [arg_kbuf arg_offsets pack]. case_decide as Hfit; [done|].
      change (offsets 0 strs ++ [Z.of_nat (length (packed strs))]) with (offsets 0 strs ++ [0 + Z.of_nat (length (packed strs))]). rewrite <- (offsets_app 0 strs str), <- packed_app.
      replace (Z.of_nat (length strs) + 1) with (Z.of_nat (length (strs ++ [str]))) by (rewrite length_app; cbn [length]; lia). intros E.
      apply (IH (strs ++ [str]) ar e' m') in E; [done|rewrite length_app; cbn [length]; lia|by right|rewrite packed_app, !length_app; cbn [length]; lia|].
      intros i s Hi. apply lookup_app_Some in Hi as [Hi|[Hle Hi]]; [by apply Hs|]. apply list_lookup_singleton_Some in Hi as [Hi <-].
      replace i with (length strs) by lia. exists (wrap64 (le_value bs)). split; [done|]. split; [done|]. split; [|done]. apply load_Some in Hstr as [Hlen Hh].
      apply holds_app. split; [done|]. intros [|j] x Hx; [|done]. injection Hx as <-. rewrite Z.add_0_r. rewrite <- H0. f_equal. lia.
Qed.
End Capture.

(** ** Adjacent writes *)

Definition STACK_BYTES : Z := USER_STACK_PAGES * PAGE_SIZE.
Definition words (l : list Z) : list Z := concat ((λ x, le_bytes 8 x) <$> l).
Definition pairs (l : list (Z * Z)) : list Z := concat ((λ p, le_bytes 8 (fst p) ++ le_bytes 8 (snd p)) <$> l).

Lemma words_length l : length (words l) = (8 * length l)%nat.
Proof. unfold words. rewrite (concat_length 8); [by rewrite length_fmap|]. apply Forall_fmap, Forall_true. intros x. apply le_bytes_length. Qed.

Lemma pairs_length l : length (pairs l) = (16 * length l)%nat.
Proof. unfold pairs. rewrite (concat_length 16); [by rewrite length_fmap|]. apply Forall_fmap, Forall_true. intros [t v]. unfold compose. by rewrite length_app, !le_bytes_length. Qed.

Section Writes.
(** Stack pages [base], and what has been written from [va] on. *)
Context (base : list Z) (va : Z) (Hbase : Z.of_nat (length base) = STACK_BYTES) (Hva : stack_user_lo ≤ va).

Lemma poke_next acc bs a : a = va + Z.of_nat (length acc) → a + Z.of_nat (length bs) ≤ USER_STACK_TOP →
  poke (splice base (va - stack_user_lo) acc) a bs = Some (splice base (va - stack_user_lo) (acc ++ bs)).
Proof.
  intros -> Ht. unfold poke. unfold STACK_BYTES in *. assert (USER_STACK_TOP = stack_user_lo + USER_STACK_PAGES * PAGE_SIZE) as Etop by done.
  rewrite splice_length by lia. rewrite decide_True by lia. f_equal.
  replace (va + Z.of_nat (length acc) - stack_user_lo) with (va - stack_user_lo + Z.of_nat (length acc)) by lia. apply splice_splice; lia.
Qed.

Lemma poke64_next acc x a : a = va + Z.of_nat (length acc) → a + 8 ≤ USER_STACK_TOP →
  poke64 (splice base (va - stack_user_lo) acc) a x = Some (splice base (va - stack_user_lo) (acc ++ le_bytes 8 x)).
Proof. intros Ha Ht. apply poke_next; [done|]. rewrite le_bytes_length. lia. Qed.

Lemma put_argv_ok argv strings offs : ∀ i acc, argv + i * 8 = va + Z.of_nat (length acc) → argv + i * 8 + 8 * Z.of_nat (length offs) ≤ USER_STACK_TOP →
  put_argv (splice base (va - stack_user_lo) acc) argv strings offs i = Some (splice base (va - stack_user_lo) (acc ++ words ((λ o, strings + o) <$> offs))).
Proof.
  induction offs as [|o offs IH]; intros i acc Ha Ht; cbn [put_argv length] in *; [cbn; by rewrite app_nil_r|].
  rewrite poke64_next by lia. cbn [mbind option_bind]. rewrite IH by (rewrite ?length_app, ?le_bytes_length; lia). by rewrite <- app_assoc.
Qed.

Lemma aux_puts_ok b l : ∀ i acc, 0 ≤ i → b + i * 16 = va + Z.of_nat (length acc) → b + i * 16 + 16 * Z.of_nat (length l) ≤ USER_STACK_TOP →
  aux_puts b (splice base (va - stack_user_lo) acc, i) l = Some (splice base (va - stack_user_lo) (acc ++ pairs l), i + Z.of_nat (length l)).
Proof.
  induction l as [|[t v] l IH]; intros i acc Hi Ha Ht; cbn [aux_puts length] in *; [cbn; by rewrite app_nil_r, Z.add_0_r|].
  unfold aux_put. cbn [fst snd]. rewrite poke64_next by lia. cbn [mbind option_bind]. rewrite poke64_next by (rewrite ?length_app, ?le_bytes_length; lia). cbn [mbind option_bind].
  rewrite IH by (rewrite ?length_app, ?le_bytes_length; lia). f_equal. f_equal; [|lia]. by rewrite <- !app_assoc.
Qed.

Lemma aux_clear_ok b n : ∀ i acc, 0 ≤ i → b + i * 16 = va + Z.of_nat (length acc) → b + i * 16 + 16 * Z.of_nat n ≤ USER_STACK_TOP →
  aux_clear b (splice base (va - stack_user_lo) acc) i n = Some (splice base (va - stack_user_lo) (acc ++ pairs (replicate n (0, 0)))).
Proof.
  induction n as [|n IH]; intros i acc Hi Ha Ht; cbn [aux_clear replicate]; [cbn; by rewrite app_nil_r|].
  rewrite poke64_next by lia. cbn [mbind option_bind]. rewrite poke64_next by (rewrite ?length_app, ?le_bytes_length; lia). cbn [mbind option_bind].
  rewrite IH by (rewrite ?length_app, ?le_bytes_length; lia). do 2 f_equal. by rewrite <- !app_assoc.
Qed.
End Writes.

Lemma splice_inside (l a b c : list Z) o : 0 ≤ o → (Z.to_nat o + length a + length b ≤ length l)%nat → (length c ≤ length b)%nat →
  splice (splice l o (a ++ b)) (o + Z.of_nat (length a)) c = splice l o (a ++ c ++ drop (length c) b).
Proof.
  intros Ho Hl Hc. unfold splice at 2 3. set (p := take (Z.to_nat o) l). set (q := drop (Z.to_nat o + length (a ++ b)) l).
  replace (p ++ (a ++ b) ++ q) with ((p ++ a) ++ b ++ q) by by rewrite <- !app_assoc.
  replace (o + Z.of_nat (length a)) with (Z.of_nat (length (p ++ a)) + 0) by (rewrite length_app; unfold p; rewrite length_take; lia).
  rewrite splice_app by (lia || cbn; lia). unfold splice. cbn [Z.to_nat take app Nat.add]. rewrite !length_app, length_drop.
  replace (Z.to_nat o + (length a + (length c + (length b - length c))))%nat with (Z.to_nat o + (length a + length b))%nat by lia.
  unfold q. rewrite length_app. by rewrite <- !app_assoc.
Qed.

(** The layout, spelled out. *)
Lemma plan_stack_ok argc n : 0 ≤ argc ≤ 32 → 0 ≤ n ≤ 1024 →
  ∃ lay, plan_stack argc n = Some lay ∧ envp_off lay = 16 + 8 * argc ∧ auxv_off lay = 24 + 8 * argc ∧ new_sp lay mod 16 = 0 ∧ stack_user_lo ≤ new_sp lay ∧
    new_sp lay + 24 + 8 * argc + 16 * aux_max ≤ strings_lo lay ∧ strings_lo lay + n + 16 ≤ USER_STACK_TOP.
Proof.
  intros Ha Hn. unfold plan_stack, aux_max, aux_random_size, stack_user_lo, USER_STACK_TOP, USER_STACK_PAGES, PAGE_SIZE. change (not64 15) with (not64 (2 ^ 4 - 1)).
  rewrite (mul64_small (argc +w 1)) by (rewrite add64_small by lia; lia). rewrite (add64_small argc) by lia. rewrite (add64_small 8) by lia.
  rewrite (add64_small (8 + (argc + 1) * 8) 8) by lia. change (17 *w 16) with 272. rewrite (add64_small _ 272) by lia. rewrite (add64_small _ 15) by lia.
  rewrite (sub64_small 0x800000 n) by lia. rewrite (sub64_small _ 16) by lia.
  rewrite !land_not_low by (lia || unfold is_u64; lia). change (2 ^ 4) with 16. set (x := 8 + (argc + 1) * 8 + 8 + 272 + 15). set (y := 0x800000 - n - 16).
  pose proof (Z.mod_pos_bound x 16 ltac:(lia)) as Hx. pose proof (Z.mod_pos_bound y 16 ltac:(lia)) as Hy.
  rewrite sub64_small by lia. rewrite decide_False by lia. eexists. split; [done|]. cbn [envp_off auxv_off new_sp strings_lo]. split; [lia|]. split; [lia|].
  split; [|lia]. pose proof (Z.div_mod x 16 ltac:(lia)). pose proof (Z.div_mod y 16 ltac:(lia)).
  replace (y - y mod 16 - (x - x mod 16)) with ((y / 16 - x / 16) * 16) by lia. by apply Z.mod_mul.
Qed.

(** ** The finished stack *)

Definition random_area (random : list Z) : list Z := random ++ drop (length random) (replicate 16 0).

(** Everything between the stack pointer and the end of the vector. *)
Definition frame_bytes (lay : exec_layout) (strs : list (list Z)) (img : elf_image) : list Z :=
  let argc := Z.of_nat (length strs) in
  let aux := aux_pairs img argc (strings_lo lay) (strings_lo lay + Z.of_nat (length (packed strs))) in
  words (argc :: ((λ o, strings_lo lay + o) <$> offsets 0 strs) ++ [0; 0]) ++ pairs (aux ++ replicate (Z.to_nat (aux_max - Z.of_nat (length aux))) (0, 0)).

Lemma words_app a b : words (a ++ b) = words a ++ words b.
Proof. unfold words. by rewrite fmap_app, concat_app. Qed.
Lemma words_cons x l : words (x :: l) = le_bytes 8 x ++ words l.
Proof. done. Qed.
Lemma pairs_app a b : pairs (a ++ b) = pairs a ++ pairs b.
Proof. unfold pairs. by rewrite fmap_app, concat_app. Qed.

Lemma aux_pairs_length img argc s r : (16 ≤ length (aux_pairs img argc s r) ≤ 17)%nat.
Proof. unfold aux_pairs. rewrite !length_app. case_decide; cbn [length]; lia. Qed.

Section Stack.
Context (lay : exec_layout) (strs : list (list Z)) (img : elf_image) (random : list Z).
Let argc := Z.of_nat (length strs).
Let nbytes := Z.of_nat (length (packed strs)).
Context (Henv : envp_off lay = 16 + 8 * argc) (Hauxv : auxv_off lay = 24 + 8 * argc) (Hlo : stack_user_lo ≤ new_sp lay).
Context (Hbelow : new_sp lay + 24 + 8 * argc + 16 * aux_max ≤ strings_lo lay) (Htop : strings_lo lay + nbytes + 16 ≤ USER_STACK_TOP) (Hrnd : (length random ≤ 16)%nat).

Definition stack_image : list Z :=
  splice (splice (replicate (Z.to_nat STACK_BYTES) 0) (strings_lo lay - stack_user_lo) (packed strs ++ random_area random)) (new_sp lay - stack_user_lo) (frame_bytes lay strs img).

Lemma write_stack_ok : write_stack zero_stack lay (pack strs) img random = Some stack_image.
Proof.
  unfold write_stack, zero_stack. cbn [arg_offsets arg_kbuf pack]. rewrite offsets_length. fold argc nbytes. change (USER_STACK_PAGES * PAGE_SIZE) with STACK_BYTES.
  set (zs := replicate (Z.to_nat STACK_BYTES) 0). assert (Z.of_nat (length zs) = STACK_BYTES) as Hzs by (unfold zs; rewrite length_replicate; apply Z2Nat.id; unfold STACK_BYTES, USER_STACK_PAGES, PAGE_SIZE; lia).
  assert (USER_STACK_TOP = stack_user_lo + STACK_BYTES) as Etop by done. unfold aux_max in Hbelow.
  rewrite <- (splice_nil zs (strings_lo lay - stack_user_lo)) at 1 by lia.
  rewrite (poke_next zs) by (assumption || (cbn [length]; lia) || (unfold nbytes in *; lia)). cbn [mbind option_bind app].
  rewrite (poke_next zs) by (assumption || lia || (rewrite length_replicate; unfold nbytes in *; lia)). cbn [mbind option_bind].
  assert (poke (splice zs (strings_lo lay - stack_user_lo) (packed strs ++ replicate 16 0)) (strings_lo lay + nbytes) random =
    Some (splice zs (strings_lo lay - stack_user_lo) (packed strs ++ random_area random))) as ->.
  { unfold poke. rewrite splice_length by (rewrite ?length_app, ?length_replicate; unfold nbytes in *; lia). rewrite decide_True by lia. f_equal.
    replace (strings_lo lay + nbytes - stack_user_lo) with (strings_lo lay - stack_user_lo + nbytes) by lia. apply splice_inside; [lia|rewrite length_replicate; unfold nbytes in *; lia|by rewrite length_replicate]. }
  cbn [mbind option_bind]. set (base := splice zs (strings_lo lay - stack_user_lo) (packed strs ++ random_area random)).
  assert (length (random_area random) = 16%nat) as Hra by (unfold random_area; rewrite length_app, length_drop, length_replicate; lia).
  assert (Z.of_nat (length base) = STACK_BYTES) as Hb by (unfold base; rewrite splice_length; [done|lia|rewrite length_app, Hra; unfold nbytes in *; lia]).
  unfold stack_image. fold zs base. clearbody base zs. rewrite <- (splice_nil base (new_sp lay - stack_user_lo)) at 1 by lia.
  rewrite (poke64_next base) by (assumption || (cbn [length]; lia) || lia). cbn [mbind option_bind app].
  rewrite (put_argv_ok base) by (assumption || (rewrite ?le_bytes_length, ?offsets_length; lia)). cbn [mbind option_bind].
  rewrite (poke64_next base) by (assumption || (rewrite ?length_app, ?words_length, ?length_fmap, ?le_bytes_length, ?offsets_length; lia)). cbn [mbind option_bind].
  rewrite (poke64_next base) by (assumption || (rewrite ?length_app, ?words_length, ?length_fmap, ?le_bytes_length, ?offsets_length; lia)). cbn [mbind option_bind].
  set (aux := aux_pairs img argc (strings_lo lay) (strings_lo lay + nbytes)). pose proof (aux_pairs_length img argc (strings_lo lay) (strings_lo lay + nbytes)) as Haux. fold aux in Haux.
  rewrite (aux_puts_ok base) by (assumption || (rewrite ?length_app, ?words_length, ?length_fmap, ?le_bytes_length, ?offsets_length; lia)). cbn [mbind option_bind].
  rewrite (aux_clear_ok base) by (assumption || (rewrite ?length_app, ?pairs_length, ?words_length, ?length_fmap, ?le_bytes_length, ?offsets_length; unfold aux_max; lia)).
  do 2 f_equal. unfold frame_bytes. fold argc nbytes aux. rewrite pairs_app, words_cons, words_app, !words_cons. change (words []) with (@nil Z).
  rewrite !app_nil_r, <- !app_assoc. done.
Qed.

Lemma frame_length : Z.of_nat (length (frame_bytes lay strs img)) = 24 + 8 * argc + 16 * aux_max.
Proof.
  unfold frame_bytes. fold argc nbytes. set (aux := aux_pairs _ _ _ _). pose proof (aux_pairs_length img argc (strings_lo lay) (strings_lo lay + nbytes)) as Haux. fold aux in Haux.
  rewrite length_app, words_length, pairs_length, length_app, length_replicate. cbn [length]. rewrite length_app, length_fmap, offsets_length. cbn [length]. unfold argc, aux_max. lia.
Qed.

(** Both parts are where they were written. *)
Lemma stack_image_holds m : holds m stack_user_lo stack_image →
  holds m (new_sp lay) (frame_bytes lay strs img) ∧ holds m (strings_lo lay) (packed strs ++ random_area random).
Proof.
  pose proof frame_length as Hf. unfold stack_image. set (zs := replicate (Z.to_nat STACK_BYTES) 0). set (X := packed strs ++ random_area random). set (F := frame_bytes lay strs img) in *.
  assert (Z.of_nat (length zs) = STACK_BYTES) as Hzs by (unfold zs; rewrite length_replicate; apply Z2Nat.id; unfold STACK_BYTES, USER_STACK_PAGES, PAGE_SIZE; lia).
  assert (USER_STACK_TOP = stack_user_lo + STACK_BYTES) as Etop by done. clearbody zs. unfold aux_max in *.
  assert (Z.of_nat (length X) = nbytes + 16) as HX by (unfold X, random_area, nbytes; rewrite !length_app, length_drop, length_replicate; lia). clearbody X F.
  intros Hh. unfold splice at 1 in Hh. rewrite !holds_app in Hh. destruct Hh as (_ & HF & HD).
  assert (length (take (Z.to_nat (new_sp lay - stack_user_lo)) (splice zs (strings_lo lay - stack_user_lo) X)) = Z.to_nat (new_sp lay - stack_user_lo)) as Ht
    by (rewrite length_take, splice_length; lia).
  rewrite Ht in HF, HD. split; [by replace (new_sp lay) with (stack_user_lo + Z.of_nat (Z.to_nat (new_sp lay - stack_user_lo))) by lia|].
  intros i x Hi. pose proof (lookup_lt_Some _ _ _ Hi) as Hlt.
  pose proof (HD (Z.to_nat (strings_lo lay - new_sp lay - Z.of_nat (length F)) + i)%nat x) as Hx. rewrite lookup_drop in Hx. rewrite <- Hx; [f_equal; lia|].
  unfold splice. rewrite lookup_app_r by (rewrite length_take; lia). rewrite length_take, lookup_app_l by lia. rewrite <- Hi. f_equal. lia.
Qed.
End Stack.

(** ** Reading it back *)

Lemma word_at m p x bs : 0 ≤ x < 2 ^ 64 → holds m p (le_bytes 8 x ++ bs) → word m p = Some x.
Proof.
  intros Hx Hh. unfold word. rewrite <- (Z.add_0_r p). rewrite (load_field m p [] (le_bytes 8 x) bs) by (done || by rewrite le_bytes_length). change (Some (le_value (le_bytes 8 x)) = Some x). f_equal. apply le_value_bytes. lia.
Qed.

Lemma words_tail m p x l bs : holds m p (words (x :: l) ++ bs) → holds m (p + 8) (words l ++ bs).
Proof. rewrite words_cons, <- app_assoc. intros [_ Hh]%holds_app. by rewrite le_bytes_length in Hh. Qed.

Lemma read_argv_ok m s0 strs : ∀ a o bs, holds m (s0 + o) (packed strs) → holds m a (words ((λ o, s0 + o) <$> offsets o strs) ++ bs) →
  0 ≤ o → 0 ≤ s0 → s0 + o + Z.of_nat (length (packed strs)) < 2 ^ 64 → Forall (λ s, (0 ∉ s) ∧ (length s ≤ 1024)%nat) strs →
  read_argv m a (length strs) = Some strs.
Proof.
  induction strs as [|s strs IH]; intros a o bs Hp Hw Ho Hs Hb Hf; [done|]. apply Forall_cons in Hf as [[Hnz Hlen] Hf]. cbn [read_argv length offsets fmap list_fmap] in *.
  change (packed (s :: strs)) with ((s ++ [0]) ++ packed strs) in *. rewrite length_app in Hb. apply holds_app in Hp as [Hstr Hp]. rewrite length_app in Hp, Hb. cbn [length] in *.
  pose proof Hw as Hw0. rewrite words_cons, <- app_assoc in Hw0. rewrite (word_at m a (s0 + o) _ ltac:(lia) Hw0). cbn [mbind option_bind].
  rewrite (c_string_ok m s) by (done || lia). cbn [mbind option_bind].
  rewrite (IH (a + 8) (o + Z.of_nat (length s) + 1) bs); [done| |by eapply words_tail|lia|lia|lia|done].
  replace (s0 + (o + Z.of_nat (length s) + 1)) with (s0 + o + Z.of_nat (length s + 1)) by lia. done.
Qed.

Lemma read_aux_ok m l : ∀ a bs fuel, holds m a (pairs (l ++ [(AT_NULL, 0)]) ++ bs) → Forall (λ p, fst p ≠ AT_NULL ∧ is_u64 (fst p) ∧ is_u64 (snd p)) l →
  (length l < fuel)%nat → read_aux m a fuel = Some l.
Proof.
  induction l as [|[t v] l IH]; intros a bs fuel Hh Hf Hl; (destruct fuel as [|fuel]; [cbn in Hl; lia|]); cbn [read_aux app] in *.
  - unfold pairs in Hh. cbn [fmap list_fmap concat fst snd] in Hh. rewrite <- !app_assoc in Hh. rewrite (word_at m a 0 _ ltac:(lia) Hh). cbn [mbind option_bind].
    apply holds_app in Hh as [_ Hh]. rewrite le_bytes_length in Hh. rewrite (word_at m (a + 8) 0 _ ltac:(lia) Hh). done.
  - apply Forall_cons in Hf as [(Hn & Ht & Hv) Hf]. cbn [fst snd] in *. change (pairs ((t, v) :: l ++ [(AT_NULL, 0)])) with ((le_bytes 8 t ++ le_bytes 8 v) ++ pairs (l ++ [(AT_NULL, 0)])) in Hh.
    rewrite <- !app_assoc in Hh. rewrite (word_at m a t _ Ht Hh). cbn [mbind option_bind]. apply holds_app in Hh as [_ Hh]. rewrite le_bytes_length in Hh.
    rewrite (word_at m (a + 8) v _ Hv Hh). cbn [mbind option_bind]. rewrite decide_False by done. apply holds_app in Hh as [_ Hh]. rewrite le_bytes_length in Hh.
    rewrite (IH (a + 16) bs fuel); [done| |done|cbn in Hl; lia]. replace (a + 16) with (a + 8 + Z.of_nat 8) by lia. done.
Qed.

(** The vector without its terminator. *)
Definition auxv (img : elf_image) (argc strings random_va : Z) : list (Z * Z) := removelast (aux_pairs img argc strings random_va).

Lemma auxv_app img argc s r : aux_pairs img argc s r = auxv img argc s r ++ [(AT_NULL, 0)].
Proof. unfold auxv, aux_pairs. rewrite app_assoc. by rewrite removelast_last. Qed.

Definition image_u64 (img : elf_image) : Prop := is_u64 (i_entry img) ∧ is_u64 (i_phdr_va img) ∧ is_u64 (i_phentsize img) ∧ is_u64 (i_phnum img).

Lemma auxv_types img argc s r : image_u64 img → is_u64 s → is_u64 r → Forall (λ p, fst p ≠ AT_NULL ∧ is_u64 (fst p) ∧ is_u64 (snd p)) (auxv img argc s r).
Proof.
  intros (H1 & H2 & H3 & H4) Hs Hr. unfold auxv, aux_pairs. rewrite app_assoc, removelast_last. apply Forall_app. unfold is_u64 in *. split.
  - repeat (apply Forall_cons; split; [cbn [fst snd]; unfold PAGE_SIZE; split; [done|]; cbv - [Z.le Z.lt Z.pow i_phdr_va i_phentsize i_phnum i_entry]; lia|]). by apply Forall_nil.
  - case_decide; [|by apply Forall_nil]. apply Forall_cons. split; [|by apply Forall_nil]. cbn [fst snd]. split; [done|]. unfold AT_EXECFN. lia.
Qed.

Lemma packed_bound strs s : s ∈ strs → (length s < length (packed strs))%nat.
Proof.
  induction strs as [|t strs IH]; [by intros ?%not_elem_of_nil|]. change (packed (t :: strs)) with ((t ++ [0]) ++ packed strs). rewrite !length_app. cbn [length].
  intros [->|Hin]%elem_of_cons; [lia|]. specialize (IH Hin). lia.
Qed.

(** C5. What exec hands to the new program.  Whenever the argument vector at [argv]
    in the caller's memory is accepted, its strings always fit, all writes stay
    inside the fresh stack pages, the stack pointer is 16-byte aligned, and a
    start-up routine that follows the Linux convention finds there exactly the
    strings the caller passed (the first 32 of them), an empty environment, and
    the auxiliary vector with the program's entry, program headers, page size,
    and pointers to argv[0] and to sixteen random bytes. *)
Theorem exec_stack_correct {K : Type} (e e' : env K) (m0 m' : gmap Z Z) (argv : Z) (args : exec_args) (img : elf_image) (random : list Z)
    (Hargv : is_u64 argv) (Hcap : capture_args argv (mk_args [] []) 0 EXEC_MAX_ARGC e m0 = Some (Some args, e', m'))
    (Himg : image_u64 img) (Hrnd : (length random ≤ 16)%nat) :
  ∃ strs lay stk, argv_at m0 argv strs ∧
    plan_stack (Z.of_nat (length (arg_offsets args))) (Z.of_nat (length (arg_kbuf args))) = Some lay ∧
    write_stack zero_stack lay args img random = Some stk ∧
    new_sp lay mod 16 = 0 ∧ stack_user_lo ≤ new_sp lay < USER_STACK_TOP ∧
    ∀ m, holds m stack_user_lo stk →
      let random_va := strings_lo lay + Z.of_nat (length (arg_kbuf args)) in
      linux_start m (new_sp lay) = Some (strs, auxv img (Z.of_nat (length strs)) (strings_lo lay) random_va) ∧
      load m random_va 16 = Some (random_area random).
Proof.
  destruct (capture_args_ok e m0 argv EXEC_MAX_ARGC Hargv [] args e' m' eq_refl) as (_ & _ & strs & -> & Hn & Hb & Hat);
    [by left|done|by intros ?? ?|exact Hcap|].
  cbn [arg_offsets arg_kbuf pack]. rewrite offsets_length. unfold EXEC_MAX_ARGC, EXEC_ARG_BYTES_MAX in *.
  destruct (plan_stack_ok (Z.of_nat (length strs)) (Z.of_nat (length (packed strs)))) as (lay & Hplan & He & Ha & Hal & Hlo & Hbelow & Htop); [lia|lia|].
  exists strs, lay, (stack_image lay strs img random). split; [done|]. split; [done|]. split; [by apply write_stack_ok|]. split; [done|]. unfold aux_max in Hbelow. split; [lia|].
  intros m Hm. destruct (stack_image_holds lay strs img random Hlo Hbelow Htop Hrnd m Hm) as [HF HX].
  assert (stack_user_lo = 0x7FC000) as Elo by done. assert (USER_STACK_TOP = 0x800000) as Eto by done.
  apply holds_app in HX as [HX1 HX2]. split.
  - unfold linux_start, frame_bytes in *. rewrite auxv_app in HF. set (argc := Z.of_nat (length strs)) in *. set (nb := Z.of_nat (length (packed strs))) in *.
    set (ptrs := (λ o, strings_lo lay + o) <$> offsets 0 strs) in *. set (av := auxv img argc (strings_lo lay) (strings_lo lay + nb)) in *.
    assert (length ptrs = length strs) as Hptr by (unfold ptrs; by rewrite length_fmap, offsets_length).
    rewrite words_cons, words_app, <- !app_assoc in HF. rewrite (word_at m (new_sp lay) argc _ ltac:(lia) HF). cbn [mbind option_bind].
    apply holds_app in HF as [_ HF]. rewrite le_bytes_length in HF. change (Z.of_nat 8) with 8 in HF. replace (Z.to_nat argc) with (length strs) by (unfold argc; lia).
    erewrite (read_argv_ok m (strings_lo lay) strs (new_sp lay + 8) 0); [|by rewrite Z.add_0_r|exact HF|lia|lia|lia|].
    2:{ apply Forall_lookup. intros i s Hi. destruct Hat as [Hat _]. destruct (Hat i s Hi) as (p & _ & _ & _ & Hz). split; [done|].
        pose proof (packed_bound strs s (list_elem_of_lookup_2 _ _ _ Hi)). lia. }
    cbn [mbind option_bind]. apply holds_app in HF as [_ HF]. rewrite words_length, Hptr in HF.
    replace (new_sp lay + 8 + Z.of_nat (8 * length strs)) with (new_sp lay + 8 + 8 * argc) in HF by lia. rewrite !words_cons, <- !app_assoc in HF. cbn [app] in HF.
    rewrite (word_at m (new_sp lay + 8 + 8 * argc) 0 _ ltac:(lia) HF). cbn [mbind option_bind]. apply holds_app in HF as [_ HF]. rewrite le_bytes_length in HF.
    replace (new_sp lay + 8 + 8 * argc + Z.of_nat 8) with (new_sp lay + 16 + 8 * argc) in HF by lia.
    rewrite (word_at m (new_sp lay + 16 + 8 * argc) 0 _ ltac:(lia) HF). cbn [mbind option_bind]. rewrite decide_True by done.
    apply holds_app in HF as [_ HF]. rewrite le_bytes_length in HF. replace (new_sp lay + 16 + 8 * argc + Z.of_nat 8) with (new_sp lay + 24 + 8 * argc) in HF by lia.
    change (words []) with (@nil Z) in HF. cbn [app] in HF. change (pairs (av ++ (AT_NULL, 0) :: ?r)) with (pairs (av ++ [(AT_NULL, 0)] ++ r)) in HF. rewrite (app_assoc av), pairs_app in HF. rewrite (read_aux_ok m av (new_sp lay + 24 + 8 * argc) _ 17 HF); [done| |].
    + apply auxv_types; [done|unfold is_u64; lia|unfold is_u64; lia].
    + pose proof (aux_pairs_length img argc (strings_lo lay) (strings_lo lay + nb)) as Hl. rewrite auxv_app in Hl. rewrite length_app in Hl. cbn [length] in Hl. unfold av. lia.
  - apply load_Some. split; [unfold random_area; rewrite length_app, length_drop, length_replicate; lia|done].
Qed.

(** ** Witness: [ls -a] *)

Definition caller_mem : gmap Z Z :=
  mem_write (mem_write ∅ 0x500000 (words [0x500100; 0x500103; 0])) 0x500100 (packed [[108; 115]; [45; 97]]).
Definition ls_image : elf_image := mk_image 0x400000 [] 0x400040 56 1.

Lemma exec_stack_correct_witness :
  capture_args 0x500000 (mk_args [] []) 0 EXEC_MAX_ARGC toy_env caller_mem = Some (Some (mk_args [0; 3] [108; 115; 0; 45; 97; 0]), toy_env, caller_mem) ∧
  ∃ strs lay stk, argv_at caller_mem 0x500000 strs ∧
    write_stack zero_stack lay (mk_args [0; 3] [108; 115; 0; 45; 97; 0]) ls_image [1; 2; 3] = Some stk ∧ new_sp lay mod 16 = 0.
Proof.
  assert (capture_args 0x500000 (mk_args [] []) 0 EXEC_MAX_ARGC toy_env caller_mem = Some (Some (mk_args [0; 3] [108; 115; 0; 45; 97; 0]), toy_env, caller_mem)) as E
    by (vm_compute; reflexivity).
  split; [exact E|].
  destruct (exec_stack_correct toy_env toy_env caller_mem caller_mem 0x500000 _ ls_image [1; 2; 3] ltac:(unfold is_u64; lia) E
    ltac:(unfold image_u64, is_u64; cbn; lia) ltac:(cbn; lia)) as (strs & lay & stk & Hat & _ & Hw & Hal & _).
  exists strs, lay, stk. split; [exact Hat|]. split; [exact Hw|exact Hal].
Defined.
