(* ===== verification/Sched.v ===== *)
(** The scheduler's queues: the run-queue half of [src/src/sched/sched.c].

    [tasks] is the memory of the live [task_t] structures by address; a
    dereference of anything else (NULL, a task that has been freed) is a fault,
    [None].  The run queue and the dead list are the C structures: [next]
    pointers, circular through [current] for the run queue, NULL-terminated
    from [dead_list] for the dead.  Walks take fuel, one more than the number
    of tasks; the theorems show it is enough.

    [schedule] is modelled up to the [context_switch] it ends with: the state
    in which the next task continues.  What [sched_free_task] gives back (stacks,
    image, page tables, descriptors) is recorded as a trace of the release
    calls it makes, in order.

    The refinement: [rep st rq dl] relates a memory to the list [rq] of the
    run queue from [current] on and to the list [dl] of the dead; the theorems
    say what each operation does to these lists. *)
From S2P Require Import Prelude Pmm PageAlloc Mmu.

Inductive task_state := TASK_READY | TASK_RUNNING | TASK_SLEEPING | TASK_DEAD | TASK_ZOMBIE.
#[global] Instance task_state_eq_dec : EqDecision task_state.
Proof. solve_decision. Defined.

(** The fields of [task_t] that the queues, the exit status and the release of a
    task depend on. *)
Record task := mk_task {
  t_pid : Z;
  t_state : task_state;
  t_sleep_until : Z;
  t_ppid : Z;
  t_exit_code : Z;
  t_next : Z;
  t_stack_phys : Z;
  t_ustack_phys : Z;
  t_regions : list (Z * Z);
  t_grown : list Z;
  t_tls_phys : Z;
  t_ttbr0 : Z;
  t_fds : Z;
}.

Definition set_state (s : task_state) (t : task) : task :=
  mk_task (t_pid t) s (t_sleep_until t) (t_ppid t) (t_exit_code t) (t_next t) (t_stack_phys t) (t_ustack_phys t)
    (t_regions t) (t_grown t) (t_tls_phys t) (t_ttbr0 t) (t_fds t).
Definition set_sleep (x : Z) (t : task) : task :=
  mk_task (t_pid t) (t_state t) x (t_ppid t) (t_exit_code t) (t_next t) (t_stack_phys t) (t_ustack_phys t)
    (t_regions t) (t_grown t) (t_tls_phys t) (t_ttbr0 t) (t_fds t).
Definition set_ppid (x : Z) (t : task) : task :=
  mk_task (t_pid t) (t_state t) (t_sleep_until t) x (t_exit_code t) (t_next t) (t_stack_phys t) (t_ustack_phys t)
    (t_regions t) (t_grown t) (t_tls_phys t) (t_ttbr0 t) (t_fds t).
Definition set_exit (x : Z) (t : task) : task :=
  mk_task (t_pid t) (t_state t) (t_sleep_until t) (t_ppid t) x (t_next t) (t_stack_phys t) (t_ustack_phys t)
    (t_regions t) (t_grown t) (t_tls_phys t) (t_ttbr0 t) (t_fds t).
Definition set_next (x : Z) (t : task) : task :=
  mk_task (t_pid t) (t_state t) (t_sleep_until t) (t_ppid t) (t_exit_code t) x (t_stack_phys t) (t_ustack_phys t)
    (t_regions t) (t_grown t) (t_tls_phys t) (t_ttbr0 t) (t_fds t).

(** The calls of [sched_free_task], in order. *)
Inductive release :=
  | RPages (phys n : Z)
  | RPage (phys : Z)
  | RVmas (t : Z)
  | RTlbi (arg : Z)
  | RTables (l0 : Z)
  | RFds (p : Z)
  | RTask (t : Z).

Record sched := mk_sched {
  tasks : gmap Z task;
  current : Z;
  dead_list : Z;
  next_pid : Z;
  next_asid : Z;
  releases : list release;
}.

(** The address of the statically allocated idle task. *)
Definition IDLE : Z := 8.
Definition TASK_STACK_PAGES : Z := 4.
Definition USER_STACK_PAGES : Z := 4.
Definition TIMER_INTERVAL_MS : Z := 10.
Definition WNOHANG : Z := 1.
Definition TTBR_ASID_SHIFT : Z := 48.

Definition with_tasks (st : sched) (m : gmap Z task) : sched :=
  mk_sched m (current st) (dead_list st) (next_pid st) (next_asid st) (releases st).
Definition with_dead (st : sched) (d : Z) : sched :=
  mk_sched (tasks st) (current st) d (next_pid st) (next_asid st) (releases st).
Definition with_current (st : sched) (c : Z) : sched :=
  mk_sched (tasks st) c (dead_list st) (next_pid st) (next_asid st) (releases st).

(** [p->field = ...] *)
Definition modify (st : sched) (p : Z) (f : task → task) : option sched :=
  t ← tasks st !! p; Some (with_tasks st (<[p := f t]> (tasks st))).

Definition walk_fuel (st : sched) : nat := S (size (tasks st)).

(** ** ASIDs *)

(** The ASID and whether the TLB was flushed. *)
Definition sched_asid_alloc (st : sched) : Z * bool * sched :=
  let a := next_asid st in
  let n := (next_asid st + 1) mod 2 ^ 16 in
  let upd n := mk_sched (tasks st) (current st) (dead_list st) (next_pid st) n (releases st) in
  if decide (n = 0) then (a, true, upd 1) else (a, false, upd n).

(** ** Start and creation *)

Definition zero_task : task := mk_task 0 TASK_READY 0 0 0 0 0 0 [] [] 0 0 0.

Definition sched_init (st : sched) : sched :=
  mk_sched
    (<[IDLE := mk_task (next_pid st) TASK_READY 0 0 0 IDLE 0 0 [] [] 0 0 0]> (tasks st))
    IDLE (dead_list st) (next_pid st +w 1) (next_asid st) (releases st).

(** [while (p->next != target) p = p->next] *)
Fixpoint find_pred (st : sched) (p target : Z) (fuel : nat) : option Z :=
  match fuel with
  | O => None
  | S f =>
      t ← tasks st !! p;
      if decide (t_next t = target) then Some p else find_pred st (t_next t) target f
  end.

(** The insertion that ends [sched_create_kernel_task], [sched_create_task]
    and [sched_fork], for the new task [t] at address [a]. *)
Definition enqueue (st : sched) (a : Z) (t : task) : option sched :=
  let st0 := with_tasks st (<[a := t]> (tasks st)) in
  tail ← find_pred st0 (current st0) (current st0) (walk_fuel st0);
  st1 ← modify st0 tail (set_next a);
  modify st1 a (set_next (current st1)).

(** ** Releasing and reaping *)

Definition free_trace (a : Z) (t : task) : list release :=
  (if decide (t_stack_phys t ≠ 0) then [RPages (t_stack_phys t) TASK_STACK_PAGES] else []) ++
  (if decide (t_ustack_phys t ≠ 0) then [RPages (t_ustack_phys t) USER_STACK_PAGES] else []) ++
  ((λ r, RPages r.1 r.2) <$> filter (λ r, r.1 ≠ 0 ∧ r.2 ≠ 0) (t_regions t)) ++
  (RPage <$> filter (λ p, p ≠ 0) (t_grown t)) ++
  [RVmas a] ++
  (if decide (t_tls_phys t ≠ 0) then [RPage (t_tls_phys t)] else []) ++
  (if decide (t_ttbr0 t ≠ 0) then
     (if decide (ttbr_asid (t_ttbr0 t) ≠ 0)
      then [RTlbi (shl64 (ttbr_asid (t_ttbr0 t)) TTBR_ASID_SHIFT)] else []) ++
     [RTables (ttbr_baddr (t_ttbr0 t))]
   else []) ++
  (if decide (t_fds t ≠ 0) then [RFds (t_fds t)] else []) ++
  [RTask a].

Definition sched_free_task (st : sched) (a : Z) : option sched :=
  t ← tasks st !! a;
  Some (mk_sched (delete a (tasks st)) (current st) (dead_list st) (next_pid st) (next_asid st)
          (releases st ++ free_trace a t)).

(** [do ... while (t && t != head)] over the run queue. *)
Fixpoint orphan_ring (st : sched) (t ppid : Z) (fuel : nat) : option sched :=
  match fuel with
  | O => None
  | S f =>
      tk ← tasks st !! t;
      st1 ← (if decide (t_ppid tk = ppid) then modify st t (set_ppid 0) else Some st);
      if decide (t_next tk = 0 ∨ t_next tk = IDLE) then Some st1 else orphan_ring st1 (t_next tk) ppid f
  end.

Fixpoint orphan_dead (st : sched) (d ppid : Z) (fuel : nat) : option sched :=
  if decide (d = 0) then Some st
  else match fuel with
  | O => None
  | S f =>
      tk ← tasks st !! d;
      st1 ← (if decide (t_ppid tk = ppid) then modify st d (set_ppid 0) else Some st);
      orphan_dead st1 (t_next tk) ppid f
  end.

Definition sched_orphan_children (st : sched) (ppid : Z) : option sched :=
  if decide (ppid = 0) then Some st
  else
    st1 ← orphan_ring st IDLE ppid (walk_fuel st);
    orphan_dead st1 (dead_list st1) ppid (walk_fuel st1).

(** The loop of [sched_reap]: [prev] is the last survivor, [c] the next entry. *)
Fixpoint reap_loop (st : sched) (prev c : Z) (fuel : nat) : option (sched * Z) :=
  if decide (c = 0) then Some (st, prev)
  else match fuel with
  | O => None
  | S f =>
      tk ← tasks st !! c;
      if decide (t_ppid tk ≠ 0) then
        st1 ← (if decide (prev ≠ 0) then modify st prev (set_next c) else Some (with_dead st c));
        reap_loop st1 c (t_next tk) f
      else
        st1 ← sched_orphan_children st (t_pid tk);
        st2 ← sched_free_task st1 c;
        reap_loop st2 prev (t_next tk) f
  end.

Definition sched_reap (st : sched) : option sched :=
  '(st1, prev) ← reap_loop (with_dead st 0) 0 (dead_list st) (walk_fuel st);
  if decide (prev ≠ 0) then modify st1 prev (set_next 0) else Some st1.

(** ** Switching *)

(** The search of [schedule]: where it stopped and the idle fallback. *)
Fixpoint pick (st : sched) (prev next fallback : Z) (fuel : nat) : option (Z * Z) :=
  if decide (next = prev) then Some (next, fallback)
  else match fuel with
  | O => None
  | S f =>
      tk ← tasks st !! next;
      if decide (t_state tk = TASK_READY) then
        if decide (next = IDLE) then
          pick st prev (t_next tk) (if decide (fallback = 0) then next else fallback) f
        else Some (next, fallback)
      else pick st prev (t_next tk) fallback f
  end.

(** Moving a task from the run queue to the dead list. *)
Definition bury (st : sched) (a : Z) : option sched :=
  tk ← tasks st !! a;
  p ← find_pred st a a (walk_fuel st);
  st1 ← modify st p (set_next (t_next tk));
  st2 ← modify st1 a (set_state (if decide (t_ppid tk ≠ 0) then TASK_ZOMBIE else TASK_DEAD));
  st3 ← modify st2 a (set_next (dead_list st2));
  Some (with_dead st3 a).

Definition switch_to (st : sched) (prev next : Z) : option sched :=
  pt ← tasks st !! prev;
  st1 ← (if decide (t_state pt = TASK_RUNNING) then modify st prev (set_state TASK_READY) else Some st);
  st2 ← (if decide (t_state pt = TASK_DEAD) then bury st1 prev else Some st1);
  st3 ← modify st2 next (set_state TASK_RUNNING);
  Some (with_current st3 next).

Definition schedule (st : sched) : option sched :=
  st0 ← sched_reap st;
  let prev := current st0 in
  pt ← tasks st0 !! prev;
  '(next, fallback) ← pick st0 prev (t_next pt) 0 (walk_fuel st0);
  if decide (next = prev) then
    if decide (fallback = 0 ∨ t_state pt = TASK_RUNNING) then Some st0
    else switch_to st0 prev fallback
  else switch_to st0 prev next.

Definition yield_cpu (st : sched) : option sched := schedule st.

Definition task_exit (st : sched) (code : Z) : option sched :=
  st1 ← modify st (current st) (set_exit code);
  st2 ← modify st1 (current st1) (set_state TASK_DEAD);
  schedule st2.

(** The loop of [sched_kill_task] from [t]; result code. *)
Fixpoint kill_loop (st : sched) (t pid : Z) (fuel : nat) : option (Z * sched) :=
  match fuel with
  | O => None
  | S f =>
      tk ← tasks st !! t;
      if decide (t_pid tk ≠ pid) then
        if decide (t_next tk = IDLE) then Some (-1, st) else kill_loop st (t_next tk) pid f
      else if decide (t_state tk = TASK_DEAD) then Some (-1, st)
      else if decide (t = current st) then st' ← task_exit st 0; Some (0, st')
      else
        st1 ← bury st t;
        st2 ← modify st1 t (set_exit (-1));
        Some (0, st2)
  end.

Definition sched_kill_task (st : sched) (pid : Z) : option (Z * sched) :=
  if decide (pid = 0) then Some (-1, st) else kill_loop st IDLE pid (walk_fuel st).

(** [now] is [timer_get_ticks()]. *)
Definition sleep_ms (st : sched) (now ms : Z) : option sched :=
  let ticks_needed := if decide (ms / TIMER_INTERVAL_MS = 0) then 1 else ms / TIMER_INTERVAL_MS in
  st1 ← modify st (current st) (set_sleep (now +w ticks_needed));
  st2 ← modify st1 (current st1) (set_state TASK_SLEEPING);
  schedule st2.

Fixpoint wake_loop (st : sched) (t now : Z) (fuel : nat) : option sched :=
  if decide (t = IDLE) then Some st
  else match fuel with
  | O => None
  | S f =>
      tk ← tasks st !! t;
      st1 ← (if decide (t_state tk = TASK_SLEEPING ∧ t_sleep_until tk ≤ now)
             then modify st t (λ x, set_sleep 0 (set_state TASK_READY x)) else Some st);
      wake_loop st1 (t_next tk) now f
  end.

Definition sched_wake_sleepers (st : sched) (now : Z) : option sched :=
  idle ← tasks st !! IDLE; wake_loop st (t_next idle) now (walk_fuel st).

(** ** Waiting *)

Definition child_matches (cur_pid pid_arg : Z) (t : task) : Prop :=
  t_ppid t = cur_pid ∧ (pid_arg = -1 ∨ wrap64 pid_arg = t_pid t).
#[global] Instance child_matches_dec p a t : Decision (child_matches p a t).
Proof. apply _. Defined.

Fixpoint has_child_ring (st : sched) (t cur pid_arg cur_pid : Z) (fuel : nat) : option bool :=
  match fuel with
  | O => None
  | S f =>
      tk ← tasks st !! t;
      if decide (t ≠ cur ∧ child_matches cur_pid pid_arg tk) then Some true
      else if decide (t_next tk = 0 ∨ t_next tk = IDLE) then Some false
      else has_child_ring st (t_next tk) cur pid_arg cur_pid f
  end.

(** The search of the dead list: the predecessor and the entry, 0 if none. *)
Fixpoint find_dead (st : sched) (prev c cur_pid pid_arg : Z) (fuel : nat) : option (Z * Z) :=
  if decide (c = 0) then Some (prev, 0)
  else match fuel with
  | O => None
  | S f =>
      tk ← tasks st !! c;
      if decide (child_matches cur_pid pid_arg tk) then Some (prev, c)
      else find_dead st c (t_next tk) cur_pid pid_arg f
  end.

Definition has_matching_child (st : sched) (cur pid_arg : Z) : option bool :=
  ct ← tasks st !! cur;
  r ← has_child_ring st IDLE cur pid_arg (t_pid ct) (walk_fuel st);
  if (r : bool) then Some true
  else '(_, c) ← find_dead st 0 (dead_list st) (t_pid ct) pid_arg (walk_fuel st); Some (bool_decide (c ≠ 0)).

(** [*status_ptr] *)
Definition wait_status (exit_code : Z) : Z :=
  if decide (exit_code < 0) then Z.lor 0x80 11 else Z.shiftl (Z.land exit_code 0xFF) 8.

(** One round of the loop: it returns, or it yields and tries again. *)
Inductive wait_outcome := WReturn (ret : Z) (status : option Z) | WYield.

Definition waitpid_round (st : sched) (pid_arg options : Z) : option (wait_outcome * sched) :=
  let cur := current st in
  if decide (cur = 0) then Some (WReturn (-1) None, st) else
  ct ← tasks st !! cur;
  if decide (pid_arg < -1) then Some (WReturn (-1) None, st)
  else
    '(prev, c) ← find_dead st 0 (dead_list st) (t_pid ct) pid_arg (walk_fuel st);
    if decide (c ≠ 0) then
      tk ← tasks st !! c;
      st1 ← (if decide (prev ≠ 0) then modify st prev (set_next (t_next tk)) else Some (with_dead st (t_next tk)));
      st2 ← sched_free_task st1 c;
      Some (WReturn (t_pid tk) (Some (wait_status (t_exit_code tk))), st2)
    else
      h ← has_matching_child st cur pid_arg;
      if negb h then Some (WReturn (-1) None, st)
      else if decide (Z.land options WNOHANG ≠ 0) then Some (WReturn 0 None, st)
      else st' ← schedule st; Some (WYield, st').

(** ** Segments of [next] pointers *)

Fixpoint tseg (m : gmap Z task) (a : Z) (l : list Z) (b : Z) : Prop :=
  match l with
  | [] => a = b
  | x :: l' => a = x ∧ ∃ t, m !! x = Some t ∧ tseg m (t_next t) l' b
  end.

Lemma tseg_app m a l1 l2 b : tseg m a (l1 ++ l2) b ↔ ∃ c, tseg m a l1 c ∧ tseg m c l2 b.
Proof.
  revert a. induction l1 as [|x l1 IH]; intros a; simpl; [naive_solver|]. setoid_rewrite IH. naive_solver.
Qed.

(** Only the [next] fields of the members matter. *)
Lemma tseg_frame m m' a l b :
  (∀ x t, x ∈ l → m !! x = Some t → ∃ t', m' !! x = Some t' ∧ t_next t' = t_next t) →
  tseg m a l b → tseg m' a l b.
Proof.
  revert a. induction l as [|x l IH]; intros a Hf; simpl; [done|]. intros (-> & t & Ht & Hs). split; [done|].
  destruct (Hf x t ltac:(by left) Ht) as (t' & Ht' & En). exists t'. split; [done|]. rewrite En.
  apply IH; [|done]. intros y ty Hy. apply Hf. by right.
Qed.

Lemma tseg_insert_out m a l b p t : p ∉ l → tseg m a l b → tseg (<[p := t]> m) a l b.
Proof.
  intros Hp. apply tseg_frame. intros x tx Hx Htx. exists tx. rewrite lookup_insert_ne by (by intros ->). done.
Qed.

Lemma tseg_delete_out m a l b p : p ∉ l → tseg m a l b → tseg (delete p m) a l b.
Proof.
  intros Hp. apply tseg_frame. intros x tx Hx Htx. exists tx. rewrite lookup_delete_ne by (by intros ->). done.
Qed.

Lemma tseg_keep_next m a l b p t t' :
  m !! p = Some t → t_next t' = t_next t → tseg m a l b → tseg (<[p := t']> m) a l b.
Proof.
  intros Hp Hn. apply tseg_frame. intros x tx Hx Htx. destruct (decide (x = p)) as [->|Hne].
  - exists t'. rewrite lookup_insert_eq. split; [done|]. congruence.
  - exists tx. by rewrite lookup_insert_ne by done.
Qed.

Lemma tseg_elem m a l b x : tseg m a l b → x ∈ l → is_Some (m !! x).
Proof.
  revert a. induction l as [|y l IH]; intros a Hs Hx; [by apply elem_of_nil in Hx|].
  destruct Hs as (-> & t & Ht & Hs). apply elem_of_cons in Hx as [->|Hx]; eauto.
Qed.

(** Following [next] from the end of a segment to its last member. *)
Lemma find_pred_spec st p l x target fuel :
  tseg (tasks st) p (l ++ [x]) target → target ∉ tail (l ++ [x]) → (length l < fuel)%nat →
  find_pred st p target fuel = Some x.
Proof.
  revert p fuel. induction l as [|y l IH]; intros p fuel Hs Ht Hf; (destruct fuel as [|f]; [simpl in Hf; lia|]);
    cbn [find_pred].
  - destruct Hs as (-> & t & Ht' & Hs). simpl in Hs. rewrite Ht'. cbn [mbind option_bind]. by rewrite decide_True.
  - destruct Hs as (-> & t & Ht' & Hs). rewrite Ht'. cbn [mbind option_bind].
    assert (∃ z l', l ++ [x] = z :: l') as (z & l' & E) by (destruct l; simpl; eauto).
    assert (t_next t = z) as Ez by (rewrite E in Hs; by destruct Hs).
    simpl in Ht. rewrite decide_False.
    + apply IH; [done| |simpl in Hf; lia]. intros Hin. apply Ht. destruct l; simpl in *; set_solver.
    + rewrite Ez. intros ->. apply Ht. rewrite E. by left.
Qed.

(** ** The queues *)

Record qrep (m : gmap Z task) (c d : Z) (rq dl : list Z) : Prop := {
  r_ring : tseg m c rq c;
  r_dead : tseg m d dl 0;
  r_nodup : NoDup (rq ++ dl);
  r_null : 0 ∉ rq ++ dl;
  r_idle : IDLE ∈ rq;
  r_dom : dom m = list_to_set (rq ++ dl);
}.

Definition rep (st : sched) (rq dl : list Z) : Prop := qrep (tasks st) (current st) (dead_list st) rq dl.

(** A task apart from its link. *)
Definition info (m : gmap Z task) (x : Z) : option task := set_next 0 <$> m !! x.

Lemma qrep_size m c d rq dl : qrep m c d rq dl → size m = length (rq ++ dl).
Proof. intros [_ _ Hnd _ _ Hdom]. rewrite <- size_dom, Hdom. by apply size_list_to_set. Qed.

Lemma qrep_fuel st c d rq dl : qrep (tasks st) c d rq dl → walk_fuel st = S (length (rq ++ dl)).
Proof. intros H. unfold walk_fuel. f_equal. by eapply qrep_size. Qed.

Lemma qrep_head m c d rq dl : qrep m c d rq dl → ∃ l, rq = c :: l.
Proof.
  intros [Hr _ _ _ Hi _]. destruct rq as [|x l]; [by apply elem_of_nil in Hi|]. destruct Hr as [-> _]. eauto.
Qed.

Lemma qrep_task m c d rq dl x : qrep m c d rq dl → x ∈ rq ++ dl → is_Some (m !! x).
Proof.
  intros [_ _ _ _ _ Hdom] Hx. apply elem_of_dom. rewrite Hdom. by apply elem_of_list_to_set.
Qed.

Lemma qrep_disjoint m c d rq dl x : qrep m c d rq dl → x ∈ rq → x ∈ dl → False.
Proof. intros H Hr Hd. apply r_nodup, NoDup_app in H as (_ & Hn & _). by apply (Hn x). Qed.

(** Changing a task without touching its [next]. *)
Lemma qrep_update m c d rq dl p t t' :
  qrep m c d rq dl → m !! p = Some t → t_next t' = t_next t → qrep (<[p := t']> m) c d rq dl.
Proof.
  intros [Hr Hd Hnd H0 Hi Hdom] Hp Hn.
  constructor; [by eapply tseg_keep_next|by eapply tseg_keep_next|done|done|done|].
  rewrite dom_insert_lookup_L by eauto. done.
Qed.

(** Changes that keep every task and every link. *)
Lemma qrep_frame m m' c d rq dl :
  (∀ x, t_next <$> m' !! x = t_next <$> m !! x) → qrep m c d rq dl → qrep m' c d rq dl.
Proof.
  intros Hf [Hr Hd Hnd H0 Hi Hdom].
  assert (∀ l a b, tseg m a l b → tseg m' a l b) as Hfr.
  { intros l a b. apply tseg_frame. intros x t _ Ht. specialize (Hf x). rewrite Ht in Hf.
    destruct (m' !! x); [|done]. cbn in Hf. injection Hf as Hf. eauto. }
  constructor; [by apply Hfr|by apply Hfr|done|done|done|]. rewrite <- Hdom. apply set_eq. intros x.
  rewrite !elem_of_dom. specialize (Hf x). destruct (m' !! x), (m !! x); done.
Qed.

Lemma modify_eq st p f t :
  tasks st !! p = Some t → modify st p f = Some (with_tasks st (<[p := f t]> (tasks st))).
Proof. intros Hp. unfold modify. by rewrite Hp. Qed.

(** The run queue seen from another member. *)
Lemma ring_rotate m c l1 a l2 :
  tseg m c (l1 ++ a :: l2) c → tseg m a (a :: l2 ++ l1) a.
Proof.
  rewrite tseg_app. intros (d & H1 & H2). pose proof H2 as [-> _].
  change (a :: l2 ++ l1) with ((a :: l2) ++ l1). apply tseg_app. eauto.
Qed.

Lemma qrep_rotate m c d l1 a l2 dl :
  qrep m c d (l1 ++ a :: l2) dl → qrep m a d (a :: l2 ++ l1) dl.
Proof.
  intros [Hr Hd Hnd H0 Hi Hdom].
  assert (a :: l2 ++ l1 ≡ₚ l1 ++ a :: l2) as Hp by (rewrite <- Permutation_middle; f_equiv; apply Permutation_app_comm).
  constructor; [by eapply ring_rotate|done|by rewrite Hp| | |by rewrite Hp].
  - by rewrite Hp.
  - by rewrite Hp.
Qed.

(** ** Enqueueing *)

Lemma enqueue_spec st rq dl a t :
  rep st rq dl → a ≠ 0 → (a ∉ rq ++ dl) →
  ∃ st', enqueue st a t = Some st' ∧ rep st' (rq ++ [a]) dl ∧ current st' = current st ∧
    tasks st' !! a = Some (set_next (current st) t) ∧
    ∀ x, x ∈ rq ++ dl → info (tasks st') x = info (tasks st) x.
Proof.
  intros Hrep Ha Hna. pose proof Hrep as [Hr Hd Hnd H0 Hi Hdom]. destruct (qrep_head _ _ _ _ _ Hrep) as [l Erq].
  assert (∃ k y, rq = k ++ [y]) as (k & y & Ek) by (destruct (exists_last (l := rq)) as (k & y & ->); [by rewrite Erq|eauto]).
  assert (y ∈ rq) as Hy by (rewrite Ek; apply elem_of_app; right; by left).
  assert ((a ∉ rq) ∧ a ∉ dl) as [Harq Hadl] by (rewrite elem_of_app in Hna; tauto).
  assert (y ≠ a) as Hya by (by intros ->).
  destruct (qrep_task _ _ _ _ _ y Hrep ltac:(set_solver)) as [ty Hty].
  unfold enqueue. cbn [current tasks with_tasks].
  assert (tseg (<[a := t]> (tasks st)) (current st) rq (current st)) as Hr1 by by apply tseg_insert_out.
  rewrite (find_pred_spec _ _ k y).
  2:{ simpl. by rewrite <- Ek. }
  2:{ rewrite <- Ek, Erq. simpl. rewrite Erq in Hnd. simpl in Hnd. apply NoDup_cons in Hnd as [Hn _]. set_solver. }
  2:{ unfold walk_fuel. simpl. rewrite <- size_dom, dom_insert_L, Hdom, size_union, size_singleton, size_list_to_set by set_solver.
      rewrite Ek, !length_app. simpl. lia. }
  unfold modify. cbn [mbind option_bind tasks with_tasks]. rewrite (lookup_insert_ne _ a y), Hty by done.
  cbn [mbind option_bind tasks with_tasks current].
  rewrite (lookup_insert_ne _ y a), lookup_insert_eq by done. cbn [mbind option_bind]. eexists. split; [done|].
  cbn [tasks with_tasks current]. split; [|split; [done|split; [by rewrite lookup_insert_eq|]]].
  - constructor; cbn [tasks with_tasks current dead_list].
    + apply tseg_app. exists a. split; [|split; [done|]; eexists; split; [by rewrite lookup_insert_eq|done]].
      apply tseg_insert_out; [done|]. rewrite Ek in Hr1 |- *. apply tseg_app in Hr1 as (c & Hk & Hlast).
      pose proof Hlast as [-> _]. apply tseg_app. exists y. split.
      * apply tseg_insert_out; [|done]. rewrite Ek in Hnd. clear -Hnd. rewrite <- app_assoc in Hnd.
        apply NoDup_app in Hnd as (_ & Hn & _). intros Hin. apply (Hn y Hin). set_solver.
      * split; [done|]. eexists. split; [by rewrite lookup_insert_eq|done].
    + apply tseg_insert_out; [done|]. apply tseg_insert_out; [|by apply tseg_insert_out].
      intros Hin. apply NoDup_app in Hnd as (_ & Hn & _). by apply (Hn y).
    + rewrite <- app_assoc. cbn [app]. rewrite <- (Permutation_middle rq dl a). by constructor.
    + set_solver + H0 Ha.
    + set_solver + Hi.
    + rewrite !dom_insert_L, Hdom. set_solver + Hy.
  - intros x Hx. unfold info. rewrite lookup_insert_ne by (by intros ->). destruct (decide (x = y)) as [->|Hne].
    + rewrite lookup_insert_eq, Hty. done.
    + rewrite !lookup_insert_ne by (intros ->; done). done.
Qed.


(** ** Burying *)

Definition buried (t : task) : task := set_state (if decide (t_ppid t ≠ 0) then TASK_ZOMBIE else TASK_DEAD) t.

Lemma bury_spec st a d l dl ta :
  qrep (tasks st) a d (a :: l) dl → dead_list st = d → a ≠ IDLE → tasks st !! a = Some ta →
  ∃ h m, bury st a = Some (with_dead (with_tasks st m) a) ∧
    qrep m h a l (a :: dl) ∧ info m a = Some (set_next 0 (buried ta)) ∧
    ∀ x, x ≠ a → info m x = info (tasks st) x.
Proof.
  intros Hq Hdl Hai Hta. pose proof Hq as [Hr Hd Hnd H0 Hi Hdom].
  assert (∃ k y, l = k ++ [y]) as (k & y & El).
  { destruct (exists_last (l := l)) as (k & y & ->); [|eauto]. intros ->. set_solver + Hi Hai. }
  assert (NoDup (a :: l)) as Hnl by (by apply NoDup_app in Hnd as [? _]).
  apply NoDup_cons in Hnl as [Hal Hnl].
  assert (y ∈ l) as Hy by (rewrite El; set_solver). assert (y ≠ a) as Hya by (by intros ->).
  destruct (qrep_task _ _ _ _ _ y Hq ltac:(set_solver + Hy)) as [ty Hty].
  assert ((a ∉ dl) ∧ y ∉ dl) as [Hadl Hydl].
  { split; intros Hin; eapply (qrep_disjoint _ _ _ _ _ _ Hq); try exact Hin; set_solver + Hy. }
  destruct Hr as (_ & ta' & Hta' & Hr). rewrite Hta in Hta'. injection Hta' as <-.
  unfold bury. rewrite Hta. cbn [mbind option_bind].
  rewrite (find_pred_spec st a (a :: k) y).
  2:{ cbn [app]. rewrite <- El. split; [done|eauto]. }
  2:{ cbn [app tail]. by rewrite <- El. }
  2:{ rewrite (qrep_fuel _ _ _ _ _ Hq), El, length_app. simpl. rewrite length_app. simpl. lia. }
  cbn [mbind option_bind]. rewrite (modify_eq _ _ _ _ Hty). cbn [mbind option_bind].
  erewrite (modify_eq _ a); [|cbn [tasks with_tasks]; by rewrite lookup_insert_ne]. cbn [mbind option_bind].
  erewrite (modify_eq _ a); [|cbn [tasks with_tasks]; by rewrite lookup_insert_eq]. cbn [mbind option_bind].
  exists (t_next ta). eexists. split; [done|].
  cbn [tasks with_tasks dead_list]. rewrite insert_insert_eq, Hdl. set (tb := set_next d _).
  split; [|split].
  - constructor.
    + apply tseg_insert_out; [done|]. rewrite El in Hr |- *. apply tseg_app in Hr as (c & Hk & Hl2).
      pose proof Hl2 as [-> _]. apply tseg_app. exists y. split.
      * apply tseg_insert_out; [|done]. rewrite El in Hnl. apply NoDup_app in Hnl as (_ & Hn & _).
        intros Hin. apply (Hn y Hin). by left.
      * split; [done|]. eexists. split; [by rewrite lookup_insert_eq|done].
    + split; [done|]. exists tb. split; [by rewrite lookup_insert_eq|]. cbn [tb set_next t_next].
      by do 2 (apply tseg_insert_out; [done|]).
    + rewrite <- (Permutation_middle l dl a). done.
    + rewrite <- (Permutation_middle l dl a). done.
    + set_solver + Hi Hai.
    + rewrite !dom_insert_L, Hdom. set_solver + Hy.
  - unfold info. by rewrite lookup_insert_eq.
  - intros x Hx. unfold info. rewrite lookup_insert_ne by done. destruct (decide (x = y)) as [->|Hne].
    + by rewrite lookup_insert_eq, Hty.
    + by rewrite lookup_insert_ne.
Qed.

(** ** Electing *)

Definition ready (m : gmap Z task) (x : Z) : Prop := t_state <$> m !! x = Some TASK_READY.
#[global] Instance ready_dec m x : Decision (ready m x).
Proof. unfold ready. apply _. Defined.

(** The tasks [schedule] may switch to, in ring order; idle is the last resort. *)
Definition candidates (m : gmap Z task) (l : list Z) : list Z := filter (λ x, x ≠ IDLE ∧ ready m x) l.

Lemma pick_spec st prev next fb l fuel :
  tseg (tasks st) next l prev → prev ∉ l → (length l ≤ fuel)%nat →
  ∃ fb', pick st prev next fb fuel = Some (default prev (head (candidates (tasks st) l)), fb') ∧
    (candidates (tasks st) l = [] →
     fb' = if decide (fb ≠ 0) then fb else if decide (IDLE ∈ l ∧ ready (tasks st) IDLE) then IDLE else 0).
Proof.
  revert next fb fuel. induction l as [|x l IH]; intros next fb fuel Hs Hp Hf.
  - simpl in Hs. subst next. exists fb. split; [destruct fuel; simpl; by rewrite decide_True|].
    intros _. rewrite (decide_False (P := _ ∧ _)) by set_solver. case_decide; [done|]. lia.
  - destruct Hs as (-> & t & Ht & Hs). destruct fuel as [|f]; [simpl in Hf; lia|].
    assert (x ≠ prev) as Hxp by set_solver + Hp. assert (prev ∉ l) as Hpl by set_solver + Hp.
    assert (ready (tasks st) x ↔ t_state t = TASK_READY) as Hrd by (unfold ready; rewrite Ht; cbn; split; congruence).
    cbn [pick]. rewrite (decide_False (P := x = prev)), Ht by done. cbn [mbind option_bind].
    unfold candidates. rewrite filter_cons. fold (candidates (tasks st) l). simpl in Hf.
    destruct (decide (t_state t = TASK_READY)) as [Hst|Hst].
    + destruct (decide (x = IDLE)) as [Hxi|Hxi].
      * rewrite (decide_False (P := x ≠ IDLE ∧ _)) by (by intros [Hn _]).
        destruct (IH (t_next t) (if decide (fb = 0) then x else fb) f Hs Hpl ltac:(lia)) as (fb' & E & Hfb).
        exists fb'. split; [done|]. intros Hc. rewrite Hfb by done.
        destruct (decide (fb = 0)) as [->|Hnz].
        -- rewrite (decide_True (P := x ≠ 0)) by (by subst x).
           rewrite (decide_False (P := 0 ≠ 0)) by tauto.
           rewrite decide_True; [done|]. subst x. split; [by left|tauto].
        -- by rewrite !(decide_True (P := fb ≠ 0)).
      * rewrite (decide_True (P := x ≠ IDLE ∧ _)) by tauto. exists fb. split; [done|]. done.
    + rewrite (decide_False (P := x ≠ IDLE ∧ _)) by tauto.
      destruct (IH (t_next t) fb f Hs Hpl ltac:(lia)) as (fb' & E & Hfb). exists fb'. split; [done|].
      intros Hc. rewrite Hfb by done. case_decide; [done|].
      apply decide_ext. rewrite elem_of_cons. destruct (decide (IDLE = x)) as [->|]; [tauto|]. tauto.
Qed.

(** ** Orphaning *)

Definition orphan (ppid : Z) (t : task) : task := if decide (t_ppid t = ppid) then set_ppid 0 t else t.

Lemma orphan_ring_spec st t ppid l fuel :
  tseg (tasks st) t l IDLE → IDLE ∉ tail l → 0 ∉ l → l ≠ [] → NoDup l → (length l ≤ fuel)%nat →
  ∃ m, orphan_ring st t ppid fuel = Some (with_tasks st m) ∧
    ∀ x, m !! x = if decide (x ∈ l) then orphan ppid <$> tasks st !! x else tasks st !! x.
Proof.
  revert st t fuel. induction l as [|a l IH]; intros st t fuel Hs Hi H0 Hne Hnd Hf; [done|].
  destruct fuel as [|f]; [simpl in Hf; lia|]. destruct Hs as (-> & ta & Hta & Hs). cbn [orphan_ring].
  rewrite Hta. cbn [mbind option_bind]. apply NoDup_cons in Hnd as [Hal Hnd]. simpl in Hi.
  assert (∃ m1, (if decide (t_ppid ta = ppid) then modify st a (set_ppid 0) else Some st) = Some (with_tasks st m1) ∧
    m1 = <[a := orphan ppid ta]> (tasks st)) as (m1 & -> & Em1).
  { unfold orphan. case_decide; [eexists; split; [by apply modify_eq|done]|]. exists (tasks st).
    split; [by destruct st|]. symmetry. by apply insert_id. }
  cbn [mbind option_bind]. destruct l as [|b l].
  - simpl in Hs. rewrite decide_True by auto. exists m1. split; [done|]. intros x. subst m1.
    destruct (decide (x = a)) as [->|Hx].
    + rewrite lookup_insert_eq, decide_True, Hta by set_solver. done.
    + rewrite lookup_insert_ne, decide_False by set_solver. done.
  - pose proof Hs as [Eb _]. rewrite decide_False by (rewrite Eb; set_solver + Hi H0).
    destruct (IH (with_tasks st m1) (t_next ta) f) as (m & E & Hm).
    { cbn [tasks with_tasks]. subst m1. by apply tseg_insert_out. }
    { set_solver + Hi. } { set_solver + H0. } { done. } { done. } { simpl in *; lia. }
    exists m. split; [done|]. intros x. rewrite Hm. cbn [tasks with_tasks]. subst m1.
    destruct (decide (x = a)) as [->|Hx].
    + rewrite lookup_insert_eq, decide_False, decide_True, Hta by set_solver. done.
    + rewrite lookup_insert_ne by done. apply decide_ext. set_solver + Hx.
Qed.

(** With an empty dead list only the run queue is searched. *)
Lemma sched_orphan_children_spec st c d rq dl ppid :
  qrep (tasks st) c d rq dl → dead_list st = 0 →
  ∃ m, sched_orphan_children st ppid = Some (with_tasks st m) ∧ qrep m c d rq dl ∧
    (∀ x, x ∈ rq → m !! x = (if decide (ppid = 0) then id else orphan ppid) <$> tasks st !! x) ∧
    (∀ x, (x ∉ rq) → m !! x = tasks st !! x).
Proof.
  intros Hq Hd. unfold sched_orphan_children. destruct (decide (ppid = 0)) as [->|Hp].
  { exists (tasks st). split; [by destruct st|]. split; [done|]. split; [|done]. intros x _.
    by destruct (tasks st !! x). }
  pose proof (r_idle _ _ _ _ _ Hq) as Hi. apply list_elem_of_split in Hi as (l1 & l2 & Erq). rewrite Erq in Hq.
  pose proof (qrep_rotate _ _ _ _ _ _ _ Hq) as [Hr2 _ Hnd2 H02 _ _]. apply NoDup_app in Hnd2 as (Hnd2 & _ & _).
  destruct (orphan_ring_spec st IDLE ppid (IDLE :: l2 ++ l1) (walk_fuel st)) as (m & E & Hm); [done| | |done|done| |].
  { simpl. by apply NoDup_cons in Hnd2 as [? _]. } { set_solver + H02. }
  { rewrite (qrep_fuel _ _ _ _ _ Hq). rewrite !length_app. simpl. rewrite !length_app. lia. }
  rewrite E. cbn [mbind option_bind dead_list with_tasks]. rewrite Hd. unfold walk_fuel. cbn [orphan_dead].
  exists m. split; [done|]. assert (∀ x, x ∈ IDLE :: l2 ++ l1 ↔ x ∈ rq) as Heq by (subst rq; set_solver).
  split; [|split].
  - rewrite <- Erq in Hq. eapply qrep_frame; [|exact Hq]. intros x. rewrite Hm. case_decide; [|done].
    destruct (tasks st !! x); [|done]. cbn. unfold orphan. by case_decide.
  - intros x Hx. rewrite Hm, decide_True by (by apply Heq). done.
  - intros x Hx. rewrite Hm, decide_False by (by rewrite Heq). done.
Qed.

(** ** Reaping *)

Definition parentless (m : gmap Z task) (x : Z) : Prop := t_ppid <$> m !! x = Some 0.
Definition traces (m : gmap Z task) (l : list Z) : list release :=
  l ≫= λ a, default [] (free_trace a <$> m !! a).
(** What the death of the tasks [D] does to a task of the run queue: the loss
    of its parent. *)
Definition pids (m : gmap Z task) (D : list Z) : list Z := omap (λ a, t_pid <$> m !! a) D.
Definition orphaned (ps : list Z) (t : task) : task :=
  if decide (t_ppid t ≠ 0 ∧ t_ppid t ∈ ps) then set_ppid 0 t else t.

Lemma traces_ext m m' D : (∀ x, x ∈ D → m !! x = m' !! x) → traces m D = traces m' D.
Proof.
  intros H. unfold traces. induction D as [|a D IH]; [done|]. cbn [mbind list_bind]. rewrite H by (by left).
  f_equal. apply IH. intros x Hx. apply H. by right.
Qed.

Lemma pids_ext m m' D : (∀ x, x ∈ D → m !! x = m' !! x) → pids m D = pids m' D.
Proof.
  intros H. unfold pids. induction D as [|a D IH]; [done|]. cbn [omap list_omap]. rewrite H by (by left).
  rewrite IH; [done|]. intros x Hx. apply H. by right.
Qed.

Lemma orphaned_step p ps t :
  orphaned ps ((if decide (p = 0) then id else orphan p) t) = orphaned (p :: ps) t.
Proof.
  unfold orphaned, orphan. destruct (decide (p = 0)) as [->|Hp].
  - cbn [id]. apply decide_ext. set_solver.
  - destruct (decide (t_ppid t = p)) as [E|E].
    + rewrite decide_False by (cbn [set_ppid t_ppid]; tauto). rewrite decide_True; [done|]. set_solver.
    + apply decide_ext. set_solver.
Qed.

Lemma reap_dead_spec st c rq D K fuel :
  qrep (tasks st) (current st) c rq (D ++ K) → dead_list st = 0 → Forall (parentless (tasks st)) D →
  (length D ≤ fuel)%nat →
  ∃ m c', reap_loop st 0 c fuel =
      reap_loop (mk_sched m (current st) 0 (next_pid st) (next_asid st) (releases st ++ traces (tasks st) D))
        0 c' (fuel - length D) ∧
    qrep m (current st) c' rq K ∧
    (∀ x, x ∈ rq → m !! x = orphaned (pids (tasks st) D) <$> tasks st !! x) ∧
    (∀ x, x ∈ K → m !! x = tasks st !! x).
Proof.
  revert st c fuel. induction D as [|a D IH]; intros st c fuel Hq Hd HD Hf.
  { exists (tasks st), c. cbn [traces pids omap mbind list_bind length]. rewrite app_nil_r, Nat.sub_0_r.
    split; [by destruct st; simpl in *; subst|]. split; [done|]. split; [|done]. intros x Hx.
    destruct (tasks st !! x); [|done]. cbn. unfold orphaned. rewrite decide_False by set_solver. done. }
  destruct fuel as [|f]; [simpl in Hf; lia|]. apply Forall_cons in HD as [Ha HD].
  pose proof (r_dead _ _ _ _ _ Hq) as (-> & ta & Hta & Hs). cbn [app] in *.
  assert (a ≠ 0) as Ha0 by (pose proof (r_null _ _ _ _ _ Hq); set_solver).
  assert (t_ppid ta = 0) as Hpa by (unfold parentless in Ha; rewrite Hta in Ha; simpl in Ha; congruence).
  cbn [reap_loop]. rewrite decide_False, Hta by done. cbn [mbind option_bind]. rewrite decide_False by tauto.
  destruct (sched_orphan_children_spec st _ _ _ _ (t_pid ta) Hq Hd) as (m1 & E1 & Hq1 & Hm1 & Hm1').
  rewrite E1. cbn [mbind option_bind].
  assert (a ∉ rq) as Harq by (intros Hin; eapply (qrep_disjoint _ _ _ _ _ _ Hq Hin); by left).
  unfold sched_free_task. cbn [tasks with_tasks]. rewrite Hm1', Hta by done. cbn [mbind option_bind].
  set (st2 := mk_sched _ _ _ _ _ _).
  destruct Hq1 as [Hr Hde Hnd H0 Hi Hdom]. 
  assert (NoDup (a :: rq ++ D ++ K)) as Hnd' by (by rewrite <- Permutation_middle in Hnd).
  apply NoDup_cons in Hnd' as [Hna Hnd'].
  assert (∀ x, x ∈ D ++ K → delete a m1 !! x = tasks st !! x) as Hkeep.
  { intros x Hx. apply NoDup_app in Hnd' as (_ & Hdis & _). rewrite lookup_delete_ne, Hm1'; [done| |].
    - intros Hin. by apply (Hdis x).
    - intros ->. apply Hna. apply elem_of_app. by right. }
  destruct (IH st2 (t_next ta) f) as (m & c' & E & Hq2 & Hx2 & Hz2).
  - constructor; cbn [tasks current st2].
    + by apply tseg_delete_out.
    + destruct Hde as (_ & t1 & Ht1 & Hde). rewrite Hm1', Hta in Ht1 by done. injection Ht1 as <-.
      apply tseg_delete_out; [set_solver|done].
    + done.
    + set_solver.
    + done.
    + rewrite dom_delete_L, Hdom. set_solver.
  - done.
  - apply Forall_forall. intros x Hx. rewrite Forall_forall in HD. specialize (HD x Hx). unfold parentless in *.
    cbn [tasks st2]. rewrite Hkeep by (apply elem_of_app; by left). done.
  - simpl in Hf. lia.
  - exists m, c'. cbn [length Nat.sub]. rewrite E. cbn [st2 current releases next_pid next_asid tasks with_tasks].
    assert (∀ x, x ∈ D → delete a m1 !! x = tasks st !! x) as HkD by (intros x Hx; apply Hkeep, elem_of_app; by left).
    split; [|split; [done|split]].
    + do 2 f_equal. rewrite <- app_assoc, (traces_ext _ _ _ HkD). f_equal.
      unfold traces. cbn [mbind list_bind]. by rewrite Hta.
    + intros x Hx. rewrite Hx2 by done. cbn [st2 tasks]. rewrite (pids_ext _ _ _ HkD).
      rewrite lookup_delete_ne by (by intros ->). rewrite Hm1 by done. rewrite <- option_fmap_compose.
      unfold pids. cbn [omap list_omap]. rewrite Hta. cbn [fmap option_fmap option_map].
      destruct (tasks st !! x); [|done]. cbn. f_equal. apply orphaned_step.
    + intros x Hx. rewrite Hz2 by done. apply Hkeep. apply elem_of_app. by right.
Qed.

(** The survivors are relinked as they were. *)
Lemma reap_kept_spec st prev c K fuel :
  tseg (tasks st) c K 0 → 0 ∉ K → Forall (λ x, ¬ parentless (tasks st) x) K → (length K ≤ fuel)%nat →
  prev ≠ 0 → t_next <$> tasks st !! prev = Some c →
  reap_loop st prev c fuel = Some (st, List.last K prev) ∧ t_next <$> tasks st !! List.last K prev = Some 0.
Proof.
  revert prev c fuel. induction K as [|a K IH]; intros prev c fuel Hs H0 HK Hf Hp Hn.
  { simpl in Hs. subst c. by destruct fuel. }
  destruct fuel as [|f]; [simpl in Hf; lia|]. destruct Hs as (-> & ta & Hta & Hs).
  apply Forall_cons in HK as [Ha HK]. unfold parentless in Ha. rewrite Hta in Ha. cbn in Ha.
  cbn [reap_loop]. rewrite decide_False, Hta by set_solver. cbn [mbind option_bind].
  rewrite decide_True by congruence. rewrite decide_True by done.
  destruct (tasks st !! prev) as [tp|] eqn:Htp; [|done]. cbn in Hn. injection Hn as Hn.
  rewrite (modify_eq _ _ _ _ Htp). cbn [mbind option_bind].
  replace (with_tasks st _) with st.
  2:{ destruct st. unfold with_tasks. cbn in *. f_equal. symmetry. apply insert_id. rewrite Htp. f_equal.
      destruct tp; cbn in *. by subst. }
  replace (List.last (a :: K) prev) with (List.last K a).
  2:{ destruct K; [done|]. simpl. clear. revert z. induction K; intros z; [done|]. simpl in *. done. }
  apply IH; [done|set_solver|done|simpl in Hf; lia|set_solver|by rewrite Hta].
Qed.

Lemma sched_reap_spec st rq D K :
  rep st rq (D ++ K) → Forall (parentless (tasks st)) D → Forall (λ x, ¬ parentless (tasks st) x) K →
  ∃ st', sched_reap st = Some st' ∧ rep st' rq K ∧ current st' = current st ∧
    releases st' = releases st ++ traces (tasks st) D ∧
    (∀ x, x ∈ rq → tasks st' !! x = orphaned (pids (tasks st) D) <$> tasks st !! x) ∧
    (∀ x, x ∈ K → tasks st' !! x = tasks st !! x).
Proof.
  intros Hrep HD HK. unfold sched_reap.
  destruct (reap_dead_spec (with_dead st 0) (dead_list st) rq D K (walk_fuel st)) as (m & c & E & Hq & Hr & Hk).
  { exact Hrep. } { done. } { done. } { rewrite (qrep_fuel _ _ _ _ _ Hrep), !length_app. lia. }
  rewrite E. cbn [current with_dead next_pid next_asid releases tasks] in *. set (st1 := mk_sched _ _ _ _ _ _).
  set (fuel := (walk_fuel st - length D)%nat).
  assert (length K < fuel)%nat as Hf by (unfold fuel; rewrite (qrep_fuel _ _ _ _ _ Hrep), !length_app; lia).
  destruct K as [|a K].
  - pose proof (r_dead _ _ _ _ _ Hq) as Hc. simpl in Hc. subst c. destruct fuel; [lia|]. cbn [reap_loop].
    rewrite decide_True by done. cbn [mbind option_bind]. exists st1. by rewrite decide_False by tauto.
  - pose proof (r_dead _ _ _ _ _ Hq) as (-> & ta & Hta & Hs). destruct fuel as [|f]; [lia|].
    pose proof (r_null _ _ _ _ _ Hq) as H0. cbn [reap_loop]. rewrite decide_False by set_solver + H0.
    cbn [tasks st1]. rewrite Hta. cbn [mbind option_bind].
    assert (Forall (λ x, ¬ parentless m x) (a :: K)) as HK'.
    { apply Forall_forall. intros x Hx. unfold parentless. rewrite Hk by done. revert x Hx. by apply Forall_forall. }
    apply Forall_cons in HK' as [Ha HK']. unfold parentless in Ha. rewrite Hta in Ha. cbn in Ha.
    rewrite decide_True by congruence. rewrite decide_False by tauto. cbn [mbind option_bind].
    destruct (reap_kept_spec (with_dead st1 a) a (t_next ta) K f) as [E2 Hlast].
    { done. } { set_solver + H0. } { done. } { simpl in Hf. lia. } { set_solver + H0. } { cbn. by rewrite Hta. }
    rewrite E2. cbn [mbind option_bind]. 
    destruct (tasks (with_dead st1 a) !! List.last K a) as [tl|] eqn:Htl; [|done]. cbn in Hlast. injection Hlast as Hlast.
    rewrite decide_True.
    2:{ intros E0. rewrite E0 in Htl. cbn in Htl. apply H0. apply (elem_of_list_to_set (C := gset Z)).
        rewrite <- (r_dom _ _ _ _ _ Hq). apply elem_of_dom. eauto. }
    rewrite (modify_eq _ _ _ _ Htl). eexists. split; [done|].
    assert (<[List.last K a := set_next 0 tl]> m = m) as Em.
    { apply insert_id. cbn in Htl. rewrite Htl. f_equal. destruct tl; cbn in *. by subst. }
    unfold with_tasks, rep. cbn [tasks current dead_list releases with_dead st1]. rewrite Em. done.
Qed.

(** ** Switching *)

(** What becomes of the task switched away from. *)
Definition left_task (t : task) : task :=
  if decide (t_state t = TASK_DEAD) then buried t
  else if decide (t_state t = TASK_RUNNING) then set_state TASK_READY t else t.
Definition left_ring (tp : task) (p : Z) (l1 : list Z) (n : Z) (l2 : list Z) : list Z :=
  n :: l2 ++ (if decide (t_state tp = TASK_DEAD) then l1 else p :: l1).
Definition left_dead (tp : task) (p : Z) (dl : list Z) : list Z :=
  if decide (t_state tp = TASK_DEAD) then p :: dl else dl.

Lemma info_insert m p t x : info (<[p := t]> m) x = if decide (x = p) then Some (set_next 0 t) else info m x.
Proof.
  unfold info. case_decide as E; [subst; by rewrite lookup_insert_eq|by rewrite lookup_insert_ne].
Qed.

Lemma switch_to_spec st p l1 n l2 dl tp :
  rep st (p :: l1 ++ n :: l2) dl → tasks st !! p = Some tp → (p = IDLE → t_state tp ≠ TASK_DEAD) →
  ∃ m d, switch_to st p n = Some (with_current (with_dead (with_tasks st m) d) n) ∧
    qrep m n d (left_ring tp p l1 n l2) (left_dead tp p dl) ∧
    info m p = Some (set_next 0 (left_task tp)) ∧
    info m n = set_state TASK_RUNNING <$> info (tasks st) n ∧
    ∀ x, x ≠ p → x ≠ n → info m x = info (tasks st) x.
Proof.
  intros Hrep Htp Hi. unfold rep in Hrep. destruct (qrep_head _ _ _ _ _ Hrep) as [l' [= Ep _]].
  rewrite <- Ep in Hrep. clear Ep l'.
  assert (n ≠ p) as Hnp.
  { intros ->. pose proof (r_nodup _ _ _ _ _ Hrep) as Hnd. cbn in Hnd. apply NoDup_cons in Hnd as [Hnd _].
    apply Hnd. set_solver. }
  destruct (qrep_task _ _ _ _ _ n Hrep ltac:(set_solver)) as [tn Htn].
  unfold switch_to. rewrite Htp. cbn [mbind option_bind]. unfold left_ring, left_dead, left_task.
  destruct (decide (t_state tp = TASK_DEAD)) as [Hd|Hd].
  - rewrite decide_False by congruence. cbn [mbind option_bind].
    destruct (bury_spec st p (dead_list st) (l1 ++ n :: l2) dl tp) as (h & m & E & Hq & Hm & Hx);
      [done|done|tauto|done|].
    rewrite E. cbn [mbind option_bind]. apply qrep_rotate in Hq.
    assert (info m n = Some (set_next 0 tn)) as En by (rewrite Hx by done; unfold info; by rewrite Htn).
    destruct (m !! n) as [tn'|] eqn:Hn'; [|unfold info in En; by rewrite Hn' in En].
    erewrite modify_eq; [|exact Hn']. cbn [mbind option_bind]. exists (<[n := set_state TASK_RUNNING tn']> m), p.
    split; [done|]. split; [by eapply qrep_update|]. split; [rewrite info_insert, decide_False by done; done|].
    split; [|intros x Hxp Hxn; rewrite info_insert, decide_False by done; by apply Hx].
    rewrite info_insert, decide_True by done. unfold info in *. rewrite Hn' in En. rewrite Htn. cbn in *.
    destruct tn', tn; cbn in *. by simplify_eq.
  - set (tp' := if decide (t_state tp = TASK_RUNNING) then set_state TASK_READY tp else tp).
    assert ((if decide (t_state tp = TASK_RUNNING) then modify st p (set_state TASK_READY) else Some st)
            = Some (with_tasks st (<[p := tp']> (tasks st)))) as ->.
    { unfold tp'. case_decide; [by apply modify_eq|]. f_equal. rewrite insert_id by done. by destruct st. }
    cbn [mbind option_bind]. erewrite modify_eq; [|cbn [tasks with_tasks]; rewrite lookup_insert_ne by done; exact Htn].
    cbn [mbind option_bind]. exists (<[n := set_state TASK_RUNNING tn]> (<[p := tp']> (tasks st))), (dead_list st).
    split; [done|].
    split; [|split; [|split]].
    + change (n :: l2 ++ p :: l1) with (n :: l2 ++ [p] ++ l1). 
      change (p :: l1 ++ n :: l2) with ((p :: l1) ++ n :: l2) in Hrep.
      eapply qrep_update; [|rewrite lookup_insert_ne by done; exact Htn|done].
      eapply qrep_update; [|done|unfold tp'; by case_decide]. by eapply qrep_rotate.
    + rewrite info_insert, decide_False by done. by rewrite info_insert, decide_True.
    + rewrite info_insert, decide_True by done. unfold info. by rewrite Htn.
    + intros x Hxp Hxn. by rewrite info_insert, decide_False, info_insert, decide_False.
Qed.

(** Whom [schedule] switches to. *)
Definition elect (m : gmap Z task) (p : Z) (l : list Z) : option Z :=
  match candidates m l with
  | n :: _ => Some n
  | [] => if decide (IDLE ∈ l ∧ ready m IDLE ∧ t_state <$> m !! p ≠ Some TASK_RUNNING) then Some IDLE else None
  end.

Lemma elect_split m p l n : elect m p l = Some n →
  ∃ l1 l2, l = l1 ++ n :: l2 ∧ (n ≠ IDLE → candidates m l1 = []).
Proof.
  unfold elect, candidates. intros H. destruct (filter _ l) as [|x k] eqn:E.
  - case_decide as Hd; [|done]. destruct Hd as [Hin _]. injection H as <-.
    apply list_elem_of_split in Hin as (l1 & l2 & ->). exists l1, l2. by split.
  - injection H as ->. clear p. revert E. induction l as [|y l IH]; [done|]. rewrite filter_cons. case_decide as Hy.
    + intros [= -> _]. by exists [], l.
    + intros E. destruct (IH E) as (l1 & l2 & -> & Hc). exists (y :: l1), l2. split; [done|]. intros Hn.
      rewrite filter_cons, decide_False by done. by apply Hc.
Qed.

Lemma schedule_spec st st0 p l K tp :
  sched_reap st = Some st0 → rep st0 (p :: l) K → tasks st0 !! p = Some tp → (p = IDLE → t_state tp ≠ TASK_DEAD) →
  match elect (tasks st0) p l with
  | None => schedule st = Some st0
  | Some n => ∃ st' l1 l2, schedule st = Some st' ∧ l = l1 ++ n :: l2 ∧ (n ≠ IDLE → candidates (tasks st0) l1 = []) ∧
      rep st' (left_ring tp p l1 n l2) (left_dead tp p K) ∧ current st' = n ∧ releases st' = releases st0 ∧
      info (tasks st') p = Some (set_next 0 (left_task tp)) ∧
      info (tasks st') n = set_state TASK_RUNNING <$> info (tasks st0) n ∧
      ∀ x, x ≠ p → x ≠ n → info (tasks st') x = info (tasks st0) x
  end.
Proof.
  intros Hreap Hrep Htp Hi. unfold schedule. rewrite Hreap. cbn [mbind option_bind].
  destruct (qrep_head _ _ _ _ _ Hrep) as [l' [= Ep _]]. rewrite <- Ep, Htp. cbn [mbind option_bind].
  pose proof Hrep as [(_ & tp' & Htp' & Hs) _ Hnd H0 _ _]. rewrite Htp in Htp'. injection Htp' as <-. rewrite <- Ep in Hs.
  assert (p ∉ l) as Hpl by (cbn in Hnd; apply NoDup_cons in Hnd as [Hnd _]; set_solver + Hnd).
  destruct (pick_spec st0 p (t_next tp) 0 l (walk_fuel st0)) as (fb & E & Hfb); [done|done| |].
  { rewrite (qrep_fuel _ _ _ _ _ Hrep). simpl. rewrite length_app. lia. }
  rewrite E. cbn [mbind option_bind]. rewrite (decide_False (P := 0 ≠ 0)) in Hfb by tauto.
  assert (∀ n, n ∈ l → n ≠ p) as Hne by (by intros n Hn ->).
  destruct (elect (tasks st0) p l) as [n|] eqn:El.
  - destruct (elect_split _ _ _ _ El) as (l1 & l2 & -> & Hc).
    assert (n ≠ p) as Hnp by (apply Hne; set_solver).
    destruct (switch_to_spec st0 p l1 n l2 K tp Hrep Htp Hi) as (m & d & Esw & Hq & Hp & Hn & Hx).
    exists (with_current (with_dead (with_tasks st0 m) d) n), l1, l2.
    split; [|split; [done|split; [done|split; [exact Hq|done]]]]. unfold elect in El.
    destruct (candidates (tasks st0) (l1 ++ n :: l2)) as [|x k]; cbn [head default].
    + rewrite (decide_True (P := p = p)) by done. match type of El with context [decide ?P] => destruct (decide P) as [(Hin & Hrd & Hst)|]; [|done] end.
      injection El as <-. rewrite (decide_True (P := _ ∧ _)) in Hfb by done. rewrite (Hfb eq_refl).
      rewrite decide_False; [done|]. rewrite Htp in Hst. cbn in Hst. intros [?|?]; [done|congruence].
    + injection El as ->. by rewrite decide_False.
  - unfold elect in El. destruct (candidates (tasks st0) l) as [|x k]; [|done]. cbn [head default].
    match type of El with context [decide ?P] => destruct (decide P) as [|Hd]; [done|] end.
    rewrite decide_True by done. rewrite decide_True; [done|].
    rewrite (Hfb eq_refl). case_decide as Hd2; [|by left]. right.
    rewrite Htp in Hd. cbn in Hd. destruct (decide (t_state tp = TASK_RUNNING)) as [|Hs2]; [done|].
    destruct Hd. split_and!; [tauto|tauto|congruence].
Qed.

(** ** The invariant of the scheduler *)

Definition state_of (m : gmap Z task) (x : Z) : option task_state := t_state <$> m !! x.
Definition alive (m : gmap Z task) (x : Z) : Prop :=
  state_of m x ≠ Some TASK_DEAD ∧ state_of m x ≠ Some TASK_ZOMBIE.

(** [p] is current and may just have put itself to sleep or ended; the dead
    without a parent come before the zombies.  Creating tasks, giving up the CPU
    and ending keep this order, because every [schedule] reaps before it buries;
    [sched_kill_task] does not, and [sched_reap] then follows the link of a zombie
    to a task it has freed ([kill_breaks_reap]). *)
Record spre (st : sched) (p : Z) (l D K : list Z) : Prop := {
  s_rep : rep st (p :: l) (D ++ K);
  s_dead : Forall (parentless (tasks st)) D;
  s_kept : Forall (λ x, ¬ parentless (tasks st) x) K;
  s_alive : ∀ x, x ∈ l → alive (tasks st) x;
  s_cur : state_of (tasks st) p ≠ Some TASK_ZOMBIE;
  s_idle : IDLE ∈ l → ready (tasks st) IDLE;
  s_idle_cur : p = IDLE → state_of (tasks st) p = Some TASK_READY ∨ state_of (tasks st) p = Some TASK_RUNNING;
}.

(** Between operations the current task runs (idle may not have been switched to yet). *)
Definition sinv (st : sched) (p : Z) (l D K : list Z) : Prop :=
  spre st p l D K ∧ (state_of (tasks st) p = Some TASK_RUNNING ∨ p = IDLE).

Lemma info_state m x : state_of m x = t_state <$> info m x.
Proof. unfold state_of, info. by destruct (m !! x). Qed.

Lemma info_ppid m x : t_ppid <$> m !! x = t_ppid <$> info m x.
Proof. unfold info. by destruct (m !! x). Qed.

Lemma orphaned_state ps m m' x :
  m' !! x = orphaned ps <$> m !! x → state_of m' x = state_of m x.
Proof. unfold state_of. intros ->. destruct (m !! x); [|done]. cbn. f_equal. unfold orphaned. by case_decide. Qed.

Lemma split_after {A} (l1 : list A) n l2 a x b :
  l1 ++ n :: l2 = a ++ x :: b → x ∉ l1 → x = n ∨ ∃ c, l2 = c ++ x :: b ∧ a = l1 ++ n :: c.
Proof.
  revert a. induction l1 as [|y l1 IH]; intros a E Hx; destruct a as [|z a]; simpl in E.
  - injection E as -> _. by left.
  - injection E as -> ->. right. by exists a.
  - injection E as -> _. set_solver.
  - injection E as -> E. destruct (IH a E) as [->|(c & -> & ->)]; [set_solver|by left|right; by exists c].
Qed.

(** The task is waiting its turn with [k] tasks between the current one and it. *)
Definition waits (st : sched) (l : list Z) (x : Z) (k : nat) : Prop :=
  ∃ l1 l2, l = l1 ++ x :: l2 ∧ length l1 = k ∧ x ≠ IDLE ∧ ready (tasks st) x.

Lemma reap_keeps st p l D K :
  spre st p l D K → ∃ st0, sched_reap st = Some st0 ∧ spre st0 p l [] K ∧ releases st0 = releases st ++ traces (tasks st) D ∧
    ∀ x, x ∈ p :: l → state_of (tasks st0) x = state_of (tasks st) x.
Proof.
  intros [Hrep HD HK Hal Hc Hi Hic]. destruct (sched_reap_spec st (p :: l) D K Hrep HD HK) as (st0 & E & Hrep0 & _ & Hrel & Hr & Hk).
  exists st0. assert (∀ x, x ∈ p :: l → state_of (tasks st0) x = state_of (tasks st) x) as Hst.
  { intros x Hx. by eapply orphaned_state, Hr. }
  split; [done|]. split; [|done]. constructor.
  - done.
  - constructor.
  - apply Forall_forall. intros x Hx. unfold parentless. rewrite Hk by done. revert x Hx. by apply Forall_forall.
  - intros x Hx. unfold alive. rewrite Hst by (by right). by apply Hal.
  - rewrite Hst by (by left). done.
  - intros Hin. unfold ready. fold (state_of (tasks st0) IDLE). rewrite Hst by (by right). by apply Hi.
  - intros Hp. rewrite Hst by (by left). by apply Hic.
Qed.

(** A switch re-establishes the invariant. *)
Lemma switch_keeps st0 st' p l1 n l2 K tp :
  spre st0 p (l1 ++ n :: l2) [] K → tasks st0 !! p = Some tp →
  rep st' (left_ring tp p l1 n l2) (left_dead tp p K) →
  info (tasks st') p = Some (set_next 0 (left_task tp)) →
  info (tasks st') n = set_state TASK_RUNNING <$> info (tasks st0) n →
  (∀ x, x ≠ p → x ≠ n → info (tasks st') x = info (tasks st0) x) →
  ∃ D' K', sinv st' n (l2 ++ (if decide (t_state tp = TASK_DEAD) then l1 else p :: l1)) D' K'.
Proof.
  intros [Hrep _ HK Hal Hc Hi Hic] Htp Hrep' Hp Hn Hx. cbn [app] in Hrep.
  assert (NoDup (p :: (l1 ++ n :: l2) ++ K)) as Hnd by exact (r_nodup _ _ _ _ _ Hrep).
  apply NoDup_cons in Hnd as [Hpl Hnd]. assert (p ≠ n) as Hpn by set_solver + Hpl.
  assert (∀ x, x ∈ l1 ++ l2 ++ K → x ≠ n) as Hne.
  { rewrite <- app_assoc in Hnd. cbn in Hnd. rewrite <- Permutation_middle in Hnd.
    apply NoDup_cons in Hnd as [Hnd _]. by intros x Hin ->. }
  destruct (qrep_task _ _ _ _ _ n Hrep ltac:(set_solver)) as [tn Htn].
  assert (state_of (tasks st') n = Some TASK_RUNNING) as Hsn by (rewrite info_state, Hn; unfold info; by rewrite Htn).
  assert (state_of (tasks st') p = Some (t_state (left_task tp))) as Hsp by (by rewrite info_state, Hp).
  assert (∀ x, x ∈ l1 ++ l2 → state_of (tasks st') x = state_of (tasks st0) x) as Hso.
  { intros x Hin. rewrite !info_state, Hx; [done|intros ->; set_solver|apply Hne; set_solver]. }
  assert (state_of (tasks st0) p = Some (t_state tp)) as Hsp0 by (unfold state_of; by rewrite Htp).
  rewrite Hsp0 in Hc, Hic.
  assert (Forall (λ x, ¬ parentless (tasks st') x) K) as HK'.
  { apply Forall_forall. intros x Hin. unfold parentless. rewrite info_ppid, Hx, <- info_ppid.
    - revert x Hin. by apply Forall_forall.
    - intros ->. set_solver.
    - apply Hne. set_solver. }
  set (l' := l2 ++ _).
  assert (∀ x, x ∈ l' → x ∈ l1 ++ l2 ∨ (x = p ∧ t_state tp ≠ TASK_DEAD)) as Hl'.
  { intros x. unfold l'. case_decide; set_solver. }
  assert (t_state tp ≠ TASK_DEAD → t_state (left_task tp) ≠ TASK_DEAD ∧ t_state (left_task tp) ≠ TASK_ZOMBIE) as Hlt.
  { intros Hd. unfold left_task. rewrite decide_False by done. case_decide; cbn; split; congruence. }
  assert (∀ D' K', left_dead tp p K = D' ++ K' → Forall (parentless (tasks st')) D' →
    Forall (λ x, ¬ parentless (tasks st') x) K' → sinv st' n l' D' K') as Hgo.
  { intros D' K' E HD2 HK2. split; [|by left]. constructor; [by rewrite <- E|done|done| |by rewrite Hsn| |by right].
    - intros x Hin. unfold alive. destruct (Hl' x Hin) as [Hin2|[-> Hd]].
      + rewrite Hso by done. apply Hal. set_solver.
      + rewrite Hsp. destruct (Hlt Hd). split; congruence.
    - intros Hin. unfold ready. fold (state_of (tasks st') IDLE). destruct (Hl' IDLE Hin) as [Hin2|[<- Hd]].
      + rewrite Hso by done. apply Hi. set_solver.
      + rewrite Hsp. f_equal. unfold left_task. rewrite decide_False by done. case_decide; [done|].
        destruct (Hic eq_refl) as [[= ?]|[= ?]]; congruence. }
  unfold left_dead in Hgo. destruct (decide (t_state tp = TASK_DEAD)) as [Hd|Hd]; [|by exists [], K; apply Hgo].
  destruct (decide (t_ppid tp = 0)) as [Hz|Hz].
  - exists [p], K. apply Hgo; [done| |done]. constructor; [|done]. unfold parentless. rewrite info_ppid, Hp.
    unfold left_task. rewrite decide_True by done. cbn. by rewrite Hz.
  - exists [], (p :: K). apply Hgo; [done..|]. constructor; [|done]. unfold parentless. rewrite info_ppid, Hp.
    unfold left_task. rewrite decide_True by done. cbn. congruence.
Qed.

Lemma schedule_step st p l D K :
  spre st p l D K →
  ∃ st' p' l' D' K', schedule st = Some st' ∧ sinv st' p' l' D' K' ∧
    ∀ x k, waits st l x k → p' = x ∨ ∃ k', (k' < k)%nat ∧ waits st' l' x k'.
Proof.
  intros Hpre. destruct (reap_keeps _ _ _ _ _ Hpre) as (st0 & Ereap & Hpre0 & _ & Hst).
  pose proof Hpre0 as [Hrep _ HK Hal Hc Hi Hic]. cbn [app] in Hrep.
  destruct (qrep_task _ _ _ _ _ p Hrep ltac:(by left)) as [tp Htp].
  assert (state_of (tasks st0) p = Some (t_state tp)) as Hsp by (unfold state_of; by rewrite Htp).
  rewrite Hsp in Hc, Hic.
  assert (p ∉ l) as Hpl by (pose proof (r_nodup _ _ _ _ _ Hrep) as Hn; cbn in Hn; apply NoDup_cons in Hn; set_solver).
  assert (∀ x k, waits st l x k → waits st0 l x k) as Hw.
  { intros x k (l1 & l2 & -> & Hk & Hx & Hrd). exists l1, l2. split_and!; [done..|]. unfold ready.
    fold (state_of (tasks st0) x). rewrite Hst by set_solver. done. }
  pose proof (schedule_spec st st0 p l K tp Ereap Hrep Htp ltac:(intros ->; destruct Hic as [[= ->]|[= ->]]; done)) as Hs.
  destruct (elect (tasks st0) p l) as [n|] eqn:Eel.
  - destruct Hs as (st' & l1 & l2 & E & -> & Hnone & Hrep' & Hcur & _ & Hp & Hn & Hx).
    destruct (switch_keeps _ _ _ _ _ _ _ _ Hpre0 Htp Hrep' Hp Hn Hx) as (D' & K' & Hinv).
    exists st', n, (l2 ++ (if decide (t_state tp = TASK_DEAD) then l1 else p :: l1)), D', K'.
    split; [done|]. split; [done|]. intros x k Hxw. apply Hw in Hxw as (a & b & El & Hk & Hxi & Hrd).
    assert (x ∈ l1 ++ n :: l2) as Hxl by (rewrite El; set_solver).
    assert (x ∈ candidates (tasks st0) (l1 ++ n :: l2)) as Hcand by (by apply list_elem_of_filter).
    assert (n ≠ IDLE) as Hni.
    { unfold elect in Eel. destruct (candidates _ (l1 ++ n :: l2)) as [|y k0] eqn:Ec; [by apply elem_of_nil in Hcand|].
      injection Eel as ->. assert (n ∈ n :: k0) as Hin by (by left). rewrite <- Ec in Hin.
      apply list_elem_of_filter in Hin. tauto. }
    assert (x ∉ l1) as Hxl1.
    { intros Hin. assert (x ∈ candidates (tasks st0) l1) as Hc2 by (by apply list_elem_of_filter).
      rewrite Hnone in Hc2 by done. by apply elem_of_nil in Hc2. }
    destruct (decide (n = x)) as [Hnx|Hnx]; [by left|]. right.
    destruct (split_after _ _ _ _ _ _ El Hxl1) as [|(c & -> & ->)]; [congruence|].
    exists (length c). split; [rewrite <- Hk, length_app; simpl; lia|].
    eexists c, _. split; [by rewrite <- app_assoc|]. split_and!; [done..|].
    unfold ready. fold (state_of (tasks st') x). rewrite info_state, Hx, <- info_state; [done| |done].
    intros ->. done.
  - exists st0, p, l, [], K. split; [done|]. unfold elect in Eel.
    destruct (candidates (tasks st0) l) as [|y k0] eqn:Ec; [|done]. case_decide as Hd; [done|]. split.
    + split; [done|]. destruct (decide (p = IDLE)) as [|Hpi]; [by right|]. left. rewrite Hsp.
      assert (IDLE ∈ l) as Hil by (pose proof (r_idle _ _ _ _ _ Hrep); set_solver).
      rewrite Htp in Hd. cbn in Hd. destruct (decide (t_state tp = TASK_RUNNING)) as [->|Hne]; [done|].
      destruct Hd. split_and!; [done|by apply Hi|congruence].
    + intros x k Hx. apply Hw in Hx as (l1 & l2 & -> & _ & Hxi & Hrd).
      assert (x ∈ candidates (tasks st0) (l1 ++ x :: l2)) as Hin by (apply list_elem_of_filter; set_solver).
      rewrite Ec in Hin. by apply elem_of_nil in Hin.
Qed.

(** ** Operations of the running task and of the timer *)

Inductive sop :=
  | SYield
  | SSleep (now ms : Z)
  | SExit (code : Z)
  | SWake (now : Z)
  | SCreate (a : Z) (t : task).

Definition run_op (st : sched) (op : sop) : option sched :=
  match op with
  | SYield => yield_cpu st
  | SSleep now ms => sleep_ms st now ms
  | SExit code => task_exit st code
  | SWake now => sched_wake_sleepers st now
  | SCreate a t => enqueue st a t
  end.

(** The idle task neither sleeps nor ends; a new task is a fresh block of
    memory and READY. *)
Definition op_ok (st : sched) (op : sop) : Prop :=
  match op with
  | SSleep _ _ | SExit _ => current st ≠ IDLE
  | SCreate a t => a ≠ 0 ∧ tasks st !! a = None ∧ t_state t = TASK_READY
  | _ => True
  end.

Definition gives_up_cpu (op : sop) : bool :=
  match op with SYield | SSleep _ _ | SExit _ => true | _ => false end.

Lemma sinv_current st p l D K : spre st p l D K → current st = p.
Proof. intros H. destruct (qrep_head _ _ _ _ _ (s_rep _ _ _ _ _ H)) as [l' [= ? _]]. done. Qed.

(** The running task changes its own state. *)
Lemma self_change st p l D K f :
  sinv st p l D K → p ≠ IDLE → (∀ t, t_next (f t) = t_next t ∧ t_state (f t) ≠ TASK_ZOMBIE) →
  ∃ st1, modify st p f = Some st1 ∧ current st1 = p ∧ spre st1 p l D K ∧ ∀ x k, waits st l x k → waits st1 l x k.
Proof.
  intros [[Hrep HD HK Hal Hc Hi Hic] _] Hpi Hf. unfold rep in Hrep.
  destruct (qrep_task _ _ _ _ _ p Hrep ltac:(by left)) as [t Ht]. rewrite (modify_eq _ _ _ _ Ht).
  eexists. split; [done|]. destruct (qrep_head _ _ _ _ _ Hrep) as [l' [= Ep _]]. split; [done|].
  pose proof (r_nodup _ _ _ _ _ Hrep) as Hnd. cbn in Hnd. apply NoDup_cons in Hnd as [Hpl _].
  assert (∀ x, x ∈ l ++ D ++ K → <[p := f t]> (tasks st) !! x = tasks st !! x) as Hx.
  { intros x Hx. rewrite lookup_insert_ne; [done|]. by intros ->. }
  assert (∀ x, x ∈ l → state_of (<[p := f t]> (tasks st)) x = state_of (tasks st) x) as Hs.
  { intros x Hin. unfold state_of. rewrite Hx by set_solver + Hin. done. }
  split.
  - constructor; cbn [tasks with_tasks].
    + by eapply qrep_update, Hf.
    + apply Forall_forall. intros x Hin. unfold parentless. rewrite Hx by set_solver + Hin.
      revert x Hin. by apply Forall_forall.
    + apply Forall_forall. intros x Hin. unfold parentless. rewrite Hx by set_solver + Hin.
      revert x Hin. by apply Forall_forall.
    + intros x Hin. unfold alive. rewrite Hs by done. by apply Hal.
    + unfold state_of. rewrite lookup_insert_eq. cbn. intros [= E]. by apply (Hf t).
    + intros Hin. unfold ready. rewrite Hx by set_solver + Hin. by apply Hi.
    + done.
  - intros x k (l1 & l2 & -> & Hk & Hxi & Hrd). exists l1, l2. split_and!; [done..|].
    unfold ready. cbn [tasks with_tasks]. rewrite Hx by set_solver +. done.
Qed.

Lemma modify_modify st p f g st1 : modify st p f = Some st1 → modify st1 p g = modify st p (λ t, g (f t)).
Proof.
  unfold modify. destruct (tasks st !! p) as [t|]; [|done]. cbn. intros [= <-]. cbn [tasks with_tasks].
  rewrite lookup_insert_eq. cbn. by rewrite insert_insert_eq.
Qed.

(** ** Waking *)

Definition woken (now : Z) (t : task) : task :=
  if decide (t_state t = TASK_SLEEPING ∧ t_sleep_until t ≤ now) then set_sleep 0 (set_state TASK_READY t) else t.

Lemma wake_loop_spec st t now l fuel :
  tseg (tasks st) t l IDLE → IDLE ∉ l → NoDup l → (length l ≤ fuel)%nat →
  ∃ m, wake_loop st t now fuel = Some (with_tasks st m) ∧
    ∀ x, m !! x = if decide (x ∈ l) then woken now <$> tasks st !! x else tasks st !! x.
Proof.
  revert st t fuel. induction l as [|a l IH]; intros st t fuel Hs Hi Hnd Hf.
  { simpl in Hs. subst t. exists (tasks st). split; [destruct fuel; cbn; by destruct st|]. intros x.
    rewrite decide_False by set_solver. done. }
  destruct fuel as [|f]; [simpl in Hf; lia|]. destruct Hs as (-> & ta & Hta & Hs). cbn [wake_loop].
  rewrite decide_False, Hta by set_solver. cbn [mbind option_bind]. apply NoDup_cons in Hnd as [Hal Hnd].
  assert ((if decide (t_state ta = TASK_SLEEPING ∧ t_sleep_until ta ≤ now)
           then modify st a (λ x, set_sleep 0 (set_state TASK_READY x)) else Some st)
          = Some (with_tasks st (<[a := woken now ta]> (tasks st)))) as ->.
  { unfold woken. case_decide; [by rewrite (modify_eq _ _ _ _ Hta)|]. rewrite insert_id by done. by destruct st. }
  cbn [mbind option_bind].
  destruct (IH (with_tasks st (<[a := woken now ta]> (tasks st))) (t_next ta) f) as (m & E & Hm).
  { cbn [tasks with_tasks]. by apply tseg_insert_out. } { set_solver. } { done. } { simpl in Hf. lia. }
  exists m. split; [done|]. intros x. rewrite Hm. cbn [tasks with_tasks]. destruct (decide (x = a)) as [->|Hx].
  - rewrite lookup_insert_eq, decide_False, decide_True, Hta by set_solver. done.
  - rewrite lookup_insert_ne by done. apply decide_ext. set_solver + Hx.
Qed.

Lemma sched_wake_sleepers_spec st rq dl now :
  rep st rq dl →
  ∃ m, sched_wake_sleepers st now = Some (with_tasks st m) ∧ rep (with_tasks st m) rq dl ∧
    ∀ x, m !! x = if decide (x ∈ rq ∧ x ≠ IDLE) then woken now <$> tasks st !! x else tasks st !! x.
Proof.
  intros Hrep. unfold rep in Hrep. pose proof (r_idle _ _ _ _ _ Hrep) as Hi.
  apply list_elem_of_split in Hi as (l1 & l2 & Erq). pose proof Hrep as Hq. rewrite Erq in Hq.
  apply qrep_rotate in Hq as [(_ & ti & Hti & Hr) _ Hnd _ _ _].
  apply NoDup_app in Hnd as (Hnd & _ & _). apply NoDup_cons in Hnd as [Hi Hnd].
  unfold sched_wake_sleepers. rewrite Hti. cbn [mbind option_bind].
  destruct (wake_loop_spec st (t_next ti) now (l2 ++ l1) (walk_fuel st)) as (m & E & Hm); [done..| |].
  { rewrite (qrep_fuel _ _ _ _ _ Hrep), Erq. rewrite !length_app. simpl. lia. }
  exists m. split; [done|].
  assert (∀ x, x ∈ l2 ++ l1 ↔ x ∈ rq ∧ x ≠ IDLE) as Heq.
  { intros x. subst rq. destruct (decide (x = IDLE)) as [->|]; [tauto|]. set_solver. }
  split.
  - eapply qrep_frame; [|exact Hrep]. cbn [tasks with_tasks]. intros x. rewrite Hm. case_decide; [|done].
    destruct (tasks st !! x); [|done]. cbn. unfold woken. by case_decide.
  - intros x. rewrite Hm. apply decide_ext, Heq.
Qed.

Lemma wake_step st p l D K now :
  sinv st p l D K → ∃ st', sched_wake_sleepers st now = Some st' ∧ sinv st' p l D K ∧
    ∀ x k, waits st l x k → waits st' l x k.
Proof.
  intros [[Hrep HD HK Hal Hc Hi Hic] Hrun].
  destruct (sched_wake_sleepers_spec st _ _ now Hrep) as (m & E & Hrep' & Hm). exists (with_tasks st m).
  split; [done|].
  assert (∀ x s, state_of (tasks st) x = Some s → s ≠ TASK_SLEEPING → state_of m x = Some s) as Hkeep.
  { intros x s Hs Hne. unfold state_of in *. rewrite Hm. case_decide; [|done]. destruct (tasks st !! x); [|done].
    cbn in *. injection Hs as <-. unfold woken. rewrite decide_False by tauto. done. }
  assert (∀ x, t_ppid <$> m !! x = t_ppid <$> tasks st !! x) as Hpp.
  { intros x. rewrite Hm. case_decide; [|done]. destruct (tasks st !! x); [|done]. cbn. unfold woken. by case_decide. }
  assert (∀ x, state_of m x = Some TASK_DEAD ∨ state_of m x = Some TASK_ZOMBIE → state_of m x = state_of (tasks st) x) as Hback.
  { intros x. unfold state_of. rewrite Hm. case_decide; [|done]. destruct (tasks st !! x); [|done]. cbn.
    unfold woken. case_decide; [|done]. cbn. intros [?|?]; done. }
  split.
  - split.
    + constructor; cbn [tasks with_tasks].
      * done.
      * eapply Forall_impl; [exact HD|]. intros x. unfold parentless. by rewrite Hpp.
      * eapply Forall_impl; [exact HK|]. intros x. unfold parentless. by rewrite Hpp.
      * intros x Hin. destruct (Hal x Hin) as [H1 H2].
        split; intros E2; rewrite Hback in E2 by (rewrite E2; tauto); done.
      * intros E2. rewrite Hback in E2 by (rewrite E2; tauto). done.
      * intros Hin. apply Hkeep; [by apply Hi|done].
      * intros ->. destruct (Hic eq_refl) as [Hs|Hs]; [left|right]; by apply Hkeep.
    + destruct Hrun as [Hs|]; [left|by right]. by apply Hkeep.
  - intros x k (l1 & l2 & -> & Hk & Hxi & Hrd). exists l1, l2. split_and!; [done..|]. by apply Hkeep.
Qed.

(** ** Every operation keeps the invariant *)

Lemma create_step st p l D K a t :
  sinv st p l D K → a ≠ 0 → tasks st !! a = None → t_state t = TASK_READY →
  ∃ st', enqueue st a t = Some st' ∧ sinv st' p (l ++ [a]) D K ∧ ∀ x k, waits st l x k → waits st' (l ++ [a]) x k.
Proof.
  intros [[Hrep HD HK Hal Hc Hi Hic] Hrun] Ha Hfresh Hst.
  assert (a ∉ (p :: l) ++ D ++ K) as Hna.
  { intros Hin. destruct (qrep_task _ _ _ _ _ a Hrep Hin) as [? ?]. congruence. }
  destruct (enqueue_spec st (p :: l) (D ++ K) a t Hrep Ha Hna) as (st' & E & Hrep' & _ & Hta & Hx).
  exists st'. split; [done|].
  assert (∀ x, x ∈ (p :: l) ++ D ++ K → state_of (tasks st') x = state_of (tasks st) x) as Hso.
  { intros x Hin. by rewrite !info_state, Hx. }
  assert (state_of (tasks st') a = Some TASK_READY) as Hsa by (unfold state_of; rewrite Hta; cbn; by rewrite Hst).
  assert (∀ Q x, x ∈ D ++ K → (Q (parentless (tasks st) x) : Prop) → Q (parentless (tasks st') x)) as Hpp.
  { intros Q x Hin. unfold parentless. rewrite !info_ppid, Hx by set_solver + Hin. done. }
  split; [split|].
  - constructor.
    + done.
    + apply Forall_forall. intros x Hin. apply (Hpp (λ P, P)); [set_solver + Hin|]. revert x Hin. by apply Forall_forall.
    + apply Forall_forall. intros x Hin. apply (Hpp (λ P, ¬ P)); [set_solver + Hin|]. revert x Hin. by apply Forall_forall.
    + intros x Hin. unfold alive. apply elem_of_app in Hin as [Hin|Hin].
      * rewrite Hso by set_solver + Hin. by apply Hal.
      * apply list_elem_of_singleton in Hin as ->. rewrite Hsa. done.
    + rewrite Hso by set_solver +. done.
    + intros Hin. apply elem_of_app in Hin as [Hin|Hin].
      * unfold ready. fold (state_of (tasks st') IDLE). rewrite Hso by set_solver + Hin. by apply Hi.
      * apply list_elem_of_singleton in Hin as ->. done.
    + rewrite Hso by set_solver +. done.
  - rewrite Hso by set_solver +. done.
  - intros x k (l1 & l2 & -> & Hk & Hxi & Hrd). exists l1, (l2 ++ [a]). split; [by rewrite <- app_assoc|].
    split_and!; [done..|]. unfold ready. fold (state_of (tasks st') x). rewrite Hso by set_solver +. done.
Qed.

(** The running task leaves the CPU: [sleep_ms] and [task_exit]. *)
Lemma leave_step st p l D K f g :
  sinv st p l D K → p ≠ IDLE → (∀ t, t_next (g (f t)) = t_next t ∧ t_state (g (f t)) ≠ TASK_ZOMBIE) →
  ∃ st' p' l' D' K',
    (st1 ← modify st (current st) f; st2 ← modify st1 (current st1) g; schedule st2) = Some st' ∧
    sinv st' p' l' D' K' ∧ ∀ x k, waits st l x k → p' = x ∨ ∃ k', (k' < k)%nat ∧ waits st' l' x k'.
Proof.
  intros Hinv Hp Hfg. rewrite (sinv_current _ _ _ _ _ (proj1 Hinv)).
  destruct (self_change st p l D K (λ t, g (f t)) Hinv Hp Hfg) as (st1 & E1 & _ & Hpre & Hw1).
  destruct (schedule_step _ _ _ _ _ Hpre) as (st' & p' & l' & D' & K' & E & Hinv' & Hw).
  exists st', p', l', D', K'. split; [|split; [done|]].
  - destruct (modify st p f) as [sta|] eqn:Ea; [|by unfold modify in Ea, E1; destruct (tasks st !! p)].
    cbn [mbind option_bind]. assert (current sta = p) as ->.
    { pose proof (sinv_current _ _ _ _ _ (proj1 Hinv)). unfold modify in Ea.
      destruct (tasks st !! p); [|done]. by injection Ea as <-. }
    by rewrite (modify_modify _ _ _ _ _ Ea), E1.
  - intros x k Hx. by apply Hw, Hw1.
Qed.

Lemma op_step st p l D K op :
  sinv st p l D K → op_ok st op →
  ∃ st' p' l' D' K', run_op st op = Some st' ∧ sinv st' p' l' D' K' ∧
    ∀ x k, waits st l x k →
      p' = x ∨ ∃ k', (if gives_up_cpu op then (k' < k)%nat else k' = k) ∧ waits st' l' x k'.
Proof.
  intros Hinv Hok. pose proof (sinv_current _ _ _ _ _ (proj1 Hinv)) as Ecur.
  destruct op as [|now ms|code|now|a t]; cbn [run_op gives_up_cpu op_ok] in *; try rewrite Ecur in Hok.
  - by eapply schedule_step, Hinv.
  - by eapply leave_step.
  - by eapply leave_step.
  - destruct (wake_step _ _ _ _ _ now Hinv) as (st' & E & Hinv' & Hw). exists st', p, l, D, K. eauto 10.
  - destruct Hok as (Ha & Hf & Hs). destruct (create_step _ _ _ _ _ a t Hinv Ha Hf Hs) as (st' & E & Hinv' & Hw).
    exists st', p, (l ++ [a]), D, K. eauto 10.
Qed.

(** Sequences of operations. *)
Inductive sched_steps : sched → list sop → sched → Prop :=
  | steps_nil st : sched_steps st [] st
  | steps_cons st op st1 ops st2 :
      op_ok st op → run_op st op = Some st1 → sched_steps st1 ops st2 → sched_steps st (op :: ops) st2.

Lemma steps_sinv st ops st2 p l D K :
  sched_steps st ops st2 → sinv st p l D K → ∃ p' l' D' K', sinv st2 p' l' D' K'.
Proof.
  intros Hs. revert p l D K. induction Hs as [st|st op st1 ops st2 Hok E Hs IH]; intros p l D K Hinv; [eauto|].
  destruct (op_step _ _ _ _ _ op Hinv Hok) as (st' & p' & l' & D' & K' & E' & Hinv' & _).
  rewrite E in E'. injection E' as <-. eauto.
Qed.

Lemma sched_init_sinv st : tasks st = ∅ → dead_list st = 0 → sinv (sched_init st) IDLE [] [] [].
Proof.
  intros Ht Hd. unfold sinv, sched_init. rewrite Ht. split; [|by right].
  constructor; try done; cbn [tasks current dead_list].
  - constructor; cbn [tasks current dead_list]; [|by rewrite Hd| | | |].
    + split; [done|]. eexists. split; [by rewrite lookup_insert_eq|done].
    + apply NoDup_singleton.
    + set_solver.
    + set_solver.
    + rewrite dom_insert_L. set_solver.
  - intros x Hx. by apply elem_of_nil in Hx.
  - by left.
Qed.

(** Boot: no task yet, no corpse. *)
Definition sched_boot : sched := mk_sched ∅ IDLE 0 0 1 [].

(** ** Collecting children *)

Definition matching (m : gmap Z task) (cur_pid pid_arg x : Z) : Prop :=
  ∃ t, m !! x = Some t ∧ child_matches cur_pid pid_arg t.

Lemma find_dead_hit st prev c cur_pid pid_arg d1 a d2 fuel :
  tseg (tasks st) c (d1 ++ a :: d2) 0 → 0 ∉ d1 ++ a :: d2 → (length d1 < fuel)%nat →
  Forall (λ x, ¬ matching (tasks st) cur_pid pid_arg x) d1 → matching (tasks st) cur_pid pid_arg a →
  find_dead st prev c cur_pid pid_arg fuel = Some (List.last d1 prev, a).
Proof.
  revert prev c fuel. induction d1 as [|x d1 IH]; intros prev c fuel Hs H0 Hf Hn Ha;
    (destruct fuel as [|f]; [simpl in Hf; lia|]); destruct Hs as (-> & t & Ht & Hs); cbn [find_dead].
  - rewrite decide_False, Ht by set_solver. cbn [mbind option_bind]. destruct Ha as (t' & Ht' & Hm).
    rewrite Ht in Ht'. injection Ht' as <-. by rewrite decide_True.
  - apply Forall_cons in Hn as [Hx Hn]. rewrite decide_False, Ht by set_solver. cbn [mbind option_bind].
    rewrite decide_False by (intros Hm; apply Hx; by exists t).
    rewrite (IH x); [|done|set_solver|simpl in Hf; lia|done|done]. do 2 f_equal.
    destruct d1; [done|]. simpl. clear. revert z. induction d1; intros z; [done|]. simpl in *. done.
Qed.

Lemma find_dead_miss st prev c cur_pid pid_arg dl fuel :
  tseg (tasks st) c dl 0 → 0 ∉ dl → (length dl ≤ fuel)%nat →
  Forall (λ x, ¬ matching (tasks st) cur_pid pid_arg x) dl →
  ∃ q, find_dead st prev c cur_pid pid_arg fuel = Some (q, 0).
Proof.
  revert prev c fuel. induction dl as [|x dl IH]; intros prev c fuel Hs H0 Hf Hn.
  { simpl in Hs. subst c. exists prev. by destruct fuel. }
  destruct fuel as [|f]; [simpl in Hf; lia|]. destruct Hs as (-> & t & Ht & Hs). cbn [find_dead].
  apply Forall_cons in Hn as [Hx Hn]. rewrite decide_False, Ht by set_solver. cbn [mbind option_bind].
  rewrite decide_False by (intros Hm; apply Hx; by exists t). apply IH; [done|set_solver|simpl in Hf; lia|done].
Qed.

Lemma has_child_ring_spec st t cur pid_arg cur_pid l fuel :
  tseg (tasks st) t l IDLE → IDLE ∉ tail l → 0 ∉ l → l ≠ [] → (length l ≤ fuel)%nat →
  ∃ b, has_child_ring st t cur pid_arg cur_pid fuel = Some b ∧
    (b = true ↔ ∃ x, x ∈ l ∧ x ≠ cur ∧ matching (tasks st) cur_pid pid_arg x).
Proof.
  revert t fuel. induction l as [|a l IH]; intros t fuel Hs Hi H0 Hne Hf; [done|].
  destruct fuel as [|f]; [simpl in Hf; lia|]. destruct Hs as (-> & ta & Hta & Hs). cbn [has_child_ring].
  rewrite Hta. cbn [mbind option_bind]. simpl in Hi.
  assert (a ≠ cur ∧ child_matches cur_pid pid_arg ta ↔ a ≠ cur ∧ matching (tasks st) cur_pid pid_arg a) as Ha.
  { unfold matching. rewrite Hta. split; [intros [? ?]; split; [done|]; by exists ta|].
    intros (? & t' & [= <-] & ?). done. }
  case_decide as Hd.
  { exists true. split; [done|]. split; [|done]. intros _. exists a. split; [by left|tauto]. }
  destruct l as [|b l].
  - simpl in Hs. rewrite decide_True by auto. exists false. split; [done|]. split; [done|].
    intros (x & Hx & Hm). apply list_elem_of_singleton in Hx as ->. tauto.
  - pose proof Hs as [Eb _]. rewrite decide_False by (rewrite Eb; set_solver + Hi H0).
    destruct (IH (t_next ta) f Hs) as (r & E & Hr); [set_solver + Hi|set_solver + H0|done|simpl in *; lia|].
    exists r. split; [done|]. rewrite Hr. split; intros (x & Hx & Hm); exists x; [split; [by right|done]|].
    apply elem_of_cons in Hx as [->|Hx]; [tauto|done].
Qed.

(** Taking an entry off the dead list. *)
Lemma unlink_spec st rq d1 a d2 ta :
  rep st rq (d1 ++ a :: d2) → tasks st !! a = Some ta →
  ∃ st1, (if decide (List.last d1 0 ≠ 0) then modify st (List.last d1 0) (set_next (t_next ta))
          else Some (with_dead st (t_next ta))) = Some st1 ∧
    tasks st1 !! a = Some ta ∧ current st1 = current st ∧ releases st1 = releases st ∧
    qrep (delete a (tasks st1)) (current st) (dead_list st1) rq (d1 ++ d2) ∧
    ∀ x, info (tasks st1) x = info (tasks st) x.
Proof.
  intros Hrep Hta. destruct Hrep as [Hr Hd Hnd H0 Hi Hdom].
  assert (rq ++ d1 ++ a :: d2 ≡ₚ a :: rq ++ d1 ++ d2) as Hperm by (rewrite !app_assoc; by rewrite Permutation_middle).
  rewrite Hperm in Hnd. apply NoDup_cons in Hnd as [Hna Hnd].
  assert (dom (tasks st) ∖ {[a]} =@{gset Z} list_to_set (rq ++ d1 ++ d2)) as Hdom' by (rewrite Hdom; set_solver + Hna).
  apply tseg_app in Hd as (c & H1 & (-> & ta' & Hta' & H2)). rewrite Hta in Hta'. injection Hta' as <-.
  destruct (decide (d1 = [])) as [->|Hne].
  - cbn [List.last]. rewrite decide_False by tauto. eexists. split; [done|]. split_and!; [done..| |done].
    constructor; cbn [app tasks with_dead dead_list]; [| |done| |done|].
    + apply tseg_delete_out; [set_solver + Hna|done].
    + apply tseg_delete_out; [set_solver + Hna|done].
    + set_solver + H0.
    + by rewrite dom_delete_L.
  - destruct (exists_last Hne) as (k & y & ->). rewrite last_last.
    assert (y ≠ 0) as Hy0 by set_solver + H0. rewrite decide_True by done.
    apply tseg_app in H1 as (c & Hk & (-> & ty & Hty & Hy)). simpl in Hy.
    assert (y ≠ a) as Hya by set_solver + Hna.
    assert ((y ∉ rq) ∧ (y ∉ k) ∧ y ∉ d2) as (Hyrq & Hyk & Hyd).
    { rewrite <- app_assoc in Hnd. rewrite (app_assoc rq k) in Hnd. cbn in Hnd. rewrite <- Permutation_middle in Hnd.
      apply NoDup_cons in Hnd as [Hn _]. set_solver + Hn. }
    rewrite (modify_eq _ _ _ _ Hty). eexists. split; [done|]. cbn [tasks with_tasks current releases dead_list].
    split; [by rewrite lookup_insert_ne|]. split_and!; [done..| |].
    + constructor; [| |done| |done|].
      * apply tseg_delete_out; [set_solver + Hna|]. by apply tseg_insert_out.
      * apply tseg_delete_out; [set_solver + Hna|]. apply tseg_app. exists (t_next ta). split.
        -- apply tseg_app. exists y. split; [by apply tseg_insert_out|]. split; [done|].
           eexists. split; [by rewrite lookup_insert_eq|done].
        -- by apply tseg_insert_out.
      * set_solver + H0.
      * rewrite dom_delete_L, dom_insert_lookup_L by eauto. done.
    + intros x. rewrite info_insert. case_decide as E; [|done]. subst x. unfold info. by rewrite Hty.
Qed.

(** The search of [sched_kill_task] for the first task of the pid. *)
Lemma kill_loop_miss st t pid l fuel :
  tseg (tasks st) t l IDLE → IDLE ∉ tail l → l ≠ [] → (length l ≤ fuel)%nat →
  Forall (λ x, t_pid <$> tasks st !! x ≠ Some pid) l → kill_loop st t pid fuel = Some (-1, st).
Proof.
  revert t fuel. induction l as [|a l IH]; intros t fuel Hs Hi Hne Hf Hn; [done|].
  destruct fuel as [|f]; [simpl in Hf; lia|]. destruct Hs as (-> & ta & Hta & Hs). cbn [kill_loop].
  rewrite Hta. cbn [mbind option_bind]. apply Forall_cons in Hn as [Ha Hn]. rewrite Hta in Ha. cbn in Ha.
  rewrite decide_True by congruence. simpl in Hi. destruct l as [|b l].
  - simpl in Hs. by rewrite decide_True.
  - pose proof Hs as [Eb _]. rewrite decide_False by (rewrite Eb; set_solver + Hi).
    apply IH; [done|set_solver + Hi|done|simpl in *; lia|done].
Qed.

Lemma kill_loop_hit st t pid l1 a l2 ta fuel :
  tseg (tasks st) t (l1 ++ a :: l2) IDLE → IDLE ∉ tail (l1 ++ a :: l2) → (length l1 < fuel)%nat →
  Forall (λ x, t_pid <$> tasks st !! x ≠ Some pid) l1 → tasks st !! a = Some ta → t_pid ta = pid →
  t_state ta ≠ TASK_DEAD → a ≠ current st →
  kill_loop st t pid fuel = (st1 ← bury st a; st2 ← modify st1 a (set_exit (-1)); Some (0, st2)).
Proof.
  revert t fuel. induction l1 as [|x l1 IH]; intros t fuel Hs Hi Hf Hn Hta Hp Hst Hc;
    (destruct fuel as [|f]; [simpl in Hf; lia|]); destruct Hs as (-> & tx & Ht & Hs); cbn [kill_loop].
  - rewrite Hta. cbn [mbind option_bind]. by rewrite !decide_False by tauto.
  - rewrite Ht. cbn [mbind option_bind]. apply Forall_cons in Hn as [Hx Hn]. rewrite Ht in Hx. cbn in Hx.
    rewrite decide_True by congruence. simpl in Hi.
    assert (t_next tx ∈ l1 ++ a :: l2) as Hin by (destruct l1; destruct Hs as [-> _]; by left).
    rewrite decide_False by (intros E; rewrite E in Hin; done).
    apply IH; [done| |simpl in Hf; lia|done..]. intros Hin2. apply Hi. by destruct l1; [right|right].
Qed.

Lemma wait_status_spec code :
  if decide (code < 0) then Z.land (wait_status code) 127 = 11
  else Z.land (wait_status code) 127 = 0 ∧ Z.shiftr (wait_status code) 8 = code mod 256.
Proof.
  unfold wait_status. case_decide; [done|]. change 0xFF with (Z.ones 8). change 127 with (Z.ones 7).
  rewrite !Z.land_ones by lia. rewrite Z.shiftl_mul_pow2, Z.shiftr_div_pow2 by lia.
  rewrite Z.div_mul by lia. split; [|done]. change (2 ^ 8) with (2 * 2 ^ 7). rewrite Z.mul_assoc. by apply Z.mod_mul.
Qed.

(** ** The claims *)

(** C6. Provided that on the dead list the corpses without a parent come before
    the zombies, which [sched_kill_task] can break ([kill_breaks_reap]),
    [schedule] first reaps: the corpses without a parent are released, in order,
    and their children on the run queue lose their parent.  It then elects the
    first READY task after the current one in ring order, idle only when there is
    no other and the current task cannot go on; the ring then starts at the
    elected task with the others in their order, a task that ended moves to
    the dead list (a zombie if it has a parent), and nothing else changes. *)
Theorem schedule_correct st p l D K tp :
  rep st (p :: l) (D ++ K) → Forall (parentless (tasks st)) D → Forall (λ x, ¬ parentless (tasks st) x) K →
  tasks st !! p = Some tp → (p = IDLE → t_state tp ≠ TASK_DEAD) →
  ∃ st0 st', sched_reap st = Some st0 ∧ schedule st = Some st' ∧
    rep st0 (p :: l) K ∧ releases st' = releases st ++ traces (tasks st) D ∧
    (∀ x, x ∈ p :: l → tasks st0 !! x = orphaned (pids (tasks st) D) <$> tasks st !! x) ∧
    (∀ x, x ∈ K → tasks st0 !! x = tasks st !! x) ∧
    let tp0 := orphaned (pids (tasks st) D) tp in
    match elect (tasks st0) p l with
    | None => st' = st0
    | Some n => ∃ l1 l2, l = l1 ++ n :: l2 ∧ (n ≠ IDLE → candidates (tasks st0) l1 = []) ∧
        rep st' (left_ring tp0 p l1 n l2) (left_dead tp0 p K) ∧ current st' = n ∧
        info (tasks st') p = Some (set_next 0 (left_task tp0)) ∧
        info (tasks st') n = set_state TASK_RUNNING <$> info (tasks st0) n ∧
        ∀ x, x ≠ p → x ≠ n → info (tasks st') x = info (tasks st0) x
    end.
Proof.
  intros Hrep HD HK Htp Hi. destruct (sched_reap_spec st _ D K Hrep HD HK) as (st0 & E0 & Hrep0 & _ & Hrel & Hr & Hk).
  assert (tasks st0 !! p = Some (orphaned (pids (tasks st) D) tp)) as Htp0 by (rewrite Hr, Htp by (by left); done).
  pose proof (schedule_spec st st0 p l K _ E0 Hrep0 Htp0) as Hs.
  assert (∀ ps, t_state (orphaned ps tp) = t_state tp) as Hos by (intros ps; unfold orphaned; by case_decide).
  rewrite Hos in Hs. specialize (Hs Hi). destruct (elect (tasks st0) p l) as [n|] eqn:Eel.
  - destruct Hs as (st' & l1 & l2 & E & Hl & Hc & Hrep' & Hcur & Hrel' & Hx). exists st0, st'.
    split_and!; [done|done|done|by rewrite Hrel', Hrel|done|done|]. cbv zeta. rewrite Eel.
    by exists l1, l2.
  - exists st0, st0. split_and!; [done..|]. cbv zeta. by rewrite Eel.
Qed.

(** C7. No sequence of creations, yields, sleeps, exits and timer wake-ups after
    the start of the scheduler faults or runs out of fuel: in every state
    reached the queues are well formed, and every operation returns. *)
Theorem sched_histories_safe ops st :
  sched_steps (sched_init sched_boot) ops st →
  (∃ p l D K, sinv st p l D K) ∧ ∀ op, op_ok st op → is_Some (run_op st op).
Proof.
  intros Hs. destruct (steps_sinv _ _ _ _ _ _ _ Hs (sched_init_sinv sched_boot eq_refl eq_refl)) as (p & l & D & K & Hinv).
  split; [eauto|]. intros op Hok. destruct (op_step _ _ _ _ _ op Hinv Hok) as (st' & ? & ? & ? & ? & E & _). by rewrite E.
Qed.

(** C34. The scheduler is fair: from a state in which the queues are well formed
    and the corpses without a parent come first on the dead list, a READY task
    other than idle with [k] tasks between the current one and it runs within
    [k + 1] operations that give up the CPU, whichever of creations, yields,
    sleeps, exits and timer wake-ups come in between ([sched_kill_task] and
    waitpid are not among them). *)
Theorem round_robin st p l D K x k ops st2 :
  sinv st p l D K → waits st l x k → sched_steps st ops st2 → (k < length (filter gives_up_cpu ops))%nat →
  ∃ ops1 ops2 st1, ops = ops1 ++ ops2 ∧ sched_steps st ops1 st1 ∧ current st1 = x.
Proof.
  intros Hinv Hw Hs. revert p l D K k Hinv Hw. induction Hs as [st|st op st1 ops st2 Hok E Hs IH]; intros p l D K k Hinv Hw Hk.
  { simpl in Hk. lia. }
  destruct (op_step _ _ _ _ _ op Hinv Hok) as (st' & p' & l' & D' & K' & E' & Hinv' & Hstep).
  rewrite E in E'. injection E' as <-. destruct (Hstep x k Hw) as [<-|(k' & Hk' & Hw')].
  - exists [op], ops, st1. split; [done|]. split; [by econstructor; [..|constructor]|].
    by eapply sinv_current, Hinv'.
  - destruct (IH p' l' D' K' k' Hinv' Hw') as (o1 & o2 & st3 & -> & Hs1 & Hc).
    { rewrite filter_cons in Hk. destruct (gives_up_cpu op); case_decide; simpl in *; try done; lia. }
    exists (op :: o1), o2, st3. split; [done|]. split; [by econstructor|done].
Qed.

Lemma orphaned_pid ps t : t_pid (orphaned ps t) = t_pid t.
Proof. unfold orphaned. by case_decide. Qed.

Lemma pids_elem m D p : p ∈ pids m D → ∃ a t, a ∈ D ∧ m !! a = Some t ∧ t_pid t = p.
Proof.
  unfold pids. rewrite list_elem_of_omap. intros (a & Ha & E). destruct (m !! a) as [t|] eqn:Ht; [|done].
  exists a, t. split; [done|]. split; [done|]. by injection E.
Qed.

(** C35. A zombie that stands behind its parent on the dead list, with the corpses
    without a parent first, is not orphaned when the parent is reaped: the part
    of the list that [sched_reap] has not reached yet is invisible while it
    orphans.  The zombie stays on the list and keeps the pid of a parent that no
    task has any more, so nobody can wait for it.  (Pids are taken to be unique.  A
    zombie before its parent is seen, and loses its parent.) *)
Theorem sched_reap_strands_zombies st rq D K z tz :
  rep st rq (D ++ K) → Forall (parentless (tasks st)) D → Forall (λ x, ¬ parentless (tasks st) x) K →
  z ∈ K → tasks st !! z = Some tz → t_ppid tz ∈ pids (tasks st) D →
  (∀ x y tx ty, tasks st !! x = Some tx → tasks st !! y = Some ty → t_pid tx = t_pid ty → x = y) →
  ∃ st', sched_reap st = Some st' ∧ rep st' rq K ∧ tasks st' !! z = Some tz ∧
    ∀ x t, tasks st' !! x = Some t → t_pid t ≠ t_ppid tz.
Proof.
  intros Hrep HD HK Hz Htz Hp Huniq. destruct (sched_reap_spec st rq D K Hrep HD HK) as (st' & E & Hrep' & _ & _ & Hr & Hk).
  exists st'. split; [done|]. split; [done|]. split; [by rewrite Hk|]. intros x t Ht Epid.
  destruct (pids_elem _ _ _ Hp) as (d & td & Hd & Htd & Epd).
  assert (x ∈ rq ++ K) as Hx.
  { apply (elem_of_list_to_set (C := gset Z)). rewrite <- (r_dom _ _ _ _ _ Hrep'). apply elem_of_dom. eauto. }
  assert (∃ tx, tasks st !! x = Some tx ∧ t_pid tx = t_pid t) as (tx & Htx & Epx).
  { apply elem_of_app in Hx as [Hx|Hx]; [rewrite Hr in Ht by done|rewrite Hk in Ht by done; eauto].
    destruct (tasks st !! x) as [tx|]; [|done]. injection Ht as <-. exists tx. split; [done|]. by rewrite orphaned_pid. }
  assert (x = d) as -> by (eapply Huniq; [done|done|congruence]).
  pose proof (r_nodup _ _ _ _ _ Hrep) as Hnd. apply NoDup_app in Hnd as (_ & Hn1 & Hnd).
  apply NoDup_app in Hnd as (_ & Hn2 & _). apply elem_of_app in Hx as [Hx|Hx].
  - apply (Hn1 d Hx). apply elem_of_app. by left.
  - by apply (Hn2 d).
Qed.

(** C36. One round of [waitpid] on behalf of the current task: an unsupported pid
    is refused; the first matching corpse is taken off the dead list, released
    and reported with its status; with none ready the caller waits when it has a
    matching child still running ([WNOHANG]: 0), and gets -1 when it has none. *)
Theorem waitpid_round_correct st rq dl ct pid_arg options :
  rep st rq dl → tasks st !! current st = Some ct →
  (pid_arg < -1 → waitpid_round st pid_arg options = Some (WReturn (-1) None, st)) ∧
  (-1 ≤ pid_arg → ∀ d1 a d2 ta, dl = d1 ++ a :: d2 → tasks st !! a = Some ta →
    Forall (λ x, ¬ matching (tasks st) (t_pid ct) pid_arg x) d1 → child_matches (t_pid ct) pid_arg ta →
    ∃ st', waitpid_round st pid_arg options =
        Some (WReturn (t_pid ta) (Some (wait_status (t_exit_code ta))), st') ∧
      rep st' rq (d1 ++ d2) ∧ releases st' = releases st ++ free_trace a ta ∧
      ∀ x, x ≠ a → info (tasks st') x = info (tasks st) x) ∧
  (-1 ≤ pid_arg → Forall (λ x, ¬ matching (tasks st) (t_pid ct) pid_arg x) dl →
    ((∃ x, x ∈ rq ∧ x ≠ current st ∧ matching (tasks st) (t_pid ct) pid_arg x) →
      waitpid_round st pid_arg options =
        if decide (Z.land options WNOHANG ≠ 0) then Some (WReturn 0 None, st)
        else st' ← schedule st; Some (WYield, st')) ∧
    (¬ (∃ x, x ∈ rq ∧ x ≠ current st ∧ matching (tasks st) (t_pid ct) pid_arg x) →
      waitpid_round st pid_arg options = Some (WReturn (-1) None, st))).
Proof.
  intros Hrep Hct. pose proof (qrep_head _ _ _ _ _ Hrep) as [l El].
  pose proof (r_null _ _ _ _ _ Hrep) as H0. pose proof (r_dead _ _ _ _ _ Hrep) as Hd.
  assert (0 ∉ dl) as H0d by set_solver + H0. assert (current st ≠ 0) as Hc0 by (subst rq; set_solver + H0).
  unfold waitpid_round. rewrite decide_False, Hct by done. cbn [mbind option_bind].
  split; [intros Hp; by rewrite decide_True|]. split.
  - intros Hp d1 a d2 ta -> Hta Hn Hm. rewrite decide_False by lia.
    assert (a ≠ 0) as Ha0 by set_solver + H0d.
    rewrite (find_dead_hit st 0 _ _ _ d1 a d2); [|done|done| |done|by exists ta].
    2:{ rewrite (qrep_fuel _ _ _ _ _ Hrep), !length_app. simpl. lia. }
    cbn [mbind option_bind]. rewrite decide_True, Hta by done. cbn [mbind option_bind].
    destruct (unlink_spec st rq d1 a d2 ta Hrep Hta) as (st1 & E1 & Hta1 & Hc1 & Hrel & Hq & Hx). rewrite E1.
    cbn [mbind option_bind]. unfold sched_free_task. rewrite Hta1. cbn [mbind option_bind].
    eexists. split; [done|]. split; [|split].
    + unfold rep. cbn [tasks current dead_list]. by rewrite Hc1.
    + cbn [releases]. by rewrite Hrel.
    + intros x Hxa. cbn [tasks]. rewrite <- Hx. unfold info. by rewrite lookup_delete_ne.
  - intros Hp Hn. rewrite decide_False by lia.
    destruct (find_dead_miss st 0 (dead_list st) (t_pid ct) pid_arg dl (walk_fuel st)) as (q & E);
      [done|done|rewrite (qrep_fuel _ _ _ _ _ Hrep), length_app; lia|done|].
    rewrite E. cbn [mbind option_bind]. rewrite decide_False by tauto.
    unfold has_matching_child. rewrite Hct. cbn [mbind option_bind].
    pose proof (r_idle _ _ _ _ _ Hrep) as Hi. apply list_elem_of_split in Hi as (l1 & l2 & Erq).
    pose proof Hrep as Hq. unfold rep in Hq. rewrite Erq in Hq. apply qrep_rotate in Hq as [Hr2 _ Hnd2 H02 _ _].
    apply NoDup_app in Hnd2 as (Hnd2 & _ & _). apply NoDup_cons in Hnd2 as [Hni _].
    destruct (has_child_ring_spec st IDLE (current st) pid_arg (t_pid ct) (IDLE :: l2 ++ l1) (walk_fuel st)) as (b & Eb & Hb);
      [done|done|set_solver + H02|done| |].
    { rewrite (qrep_fuel _ _ _ _ _ Hrep), Erq. simpl. rewrite !length_app. simpl. lia. }
    rewrite Eb. cbn [mbind option_bind].
    assert (∀ x, x ∈ IDLE :: l2 ++ l1 ↔ x ∈ rq) as Heq by (intros x; rewrite Erq; set_solver +).
    setoid_rewrite Heq in Hb. split; intros Hex.
    + rewrite (proj2 Hb Hex). cbn [mbind option_bind negb]. done.
    + destruct b; [by destruct Hex; apply Hb|]. rewrite E. cbn [mbind option_bind].
      rewrite bool_decide_eq_false_2 by tauto. done.
Qed.

(** [sched_kill_task] refuses pid 0 and unknown pids; otherwise the task of the
    pid leaves the run queue, the others in their order, and is the first of the
    dead list with exit code -1, a zombie exactly when it has a parent. *)
Theorem sched_kill_task_correct st p l1 x l2 dl tx :
  rep st (p :: l1 ++ x :: l2) dl → tasks st !! x = Some tx → x ≠ IDLE → t_state tx ≠ TASK_DEAD → t_pid tx ≠ 0 →
  (∀ y, y ∈ p :: l1 ++ l2 → t_pid <$> tasks st !! y ≠ Some (t_pid tx)) →
  sched_kill_task st 0 = Some (-1, st) ∧
  (∀ pid, Forall (λ y, t_pid <$> tasks st !! y ≠ Some pid) (p :: l1 ++ x :: l2) → sched_kill_task st pid = Some (-1, st)) ∧
  ∃ st', sched_kill_task st (t_pid tx) = Some (0, st') ∧ rep st' (p :: l1 ++ l2) (x :: dl) ∧
    info (tasks st') x = Some (set_exit (-1) (set_next 0 (buried tx))) ∧
    ∀ y, y ≠ x → info (tasks st') y = info (tasks st) y.
Proof.
  intros Hrep Htx Hxi Hst Hp0 Huniq. unfold rep in Hrep. destruct (qrep_head _ _ _ _ _ Hrep) as [l' [= Ep _]].
  set (rq := p :: l1 ++ x :: l2) in *.
  pose proof (r_idle _ _ _ _ _ Hrep) as Hi. apply list_elem_of_split in Hi as (k1 & k2 & Erq).
  pose proof Hrep as Hq. rewrite Erq in Hq. apply qrep_rotate in Hq as Hqi.
  pose proof Hqi as [Hr2 _ Hnd2 H02 _ _]. apply NoDup_app in Hnd2 as (Hnd2 & _ & _).
  apply NoDup_cons in Hnd2 as [Hni Hnd2].
  assert (walk_fuel st = S (length (IDLE :: k2 ++ k1) + length dl)) as Hfuel.
  { rewrite (qrep_fuel _ _ _ _ _ Hqi), length_app. done. }
  assert (∀ y, y ∈ IDLE :: k2 ++ k1 ↔ y ∈ rq) as Heq by (intros y; rewrite Erq; set_solver +).
  unfold sched_kill_task. split; [done|]. split.
  { intros pid Hn. case_decide; [done|]. apply (kill_loop_miss _ _ _ (IDLE :: k2 ++ k1)); [done|done|done|lia|].
    apply Forall_forall. intros y Hy. apply Heq in Hy. revert y Hy. by apply Forall_forall. }
  rewrite decide_False by done.
  assert (x ≠ p) as Hxp by (intros ->; apply (Huniq p); [by left|by rewrite Htx]).
  assert (x ∈ IDLE :: k2 ++ k1) as Hx by (apply Heq; unfold rq; set_solver +).
  apply list_elem_of_split in Hx as (j1 & j2 & Ej).
  assert (NoDup rq) as Hndr by (pose proof (r_nodup _ _ _ _ _ Hrep) as Hn; by apply NoDup_app in Hn as [? _]).
  rewrite Ej in Hr2, Heq. rewrite (kill_loop_hit st IDLE (t_pid tx) j1 x j2 tx); [|done| | | |done|done|done|congruence].
  2:{ rewrite <- Ej. done. }
  2:{ rewrite Hfuel, Ej, length_app. simpl. lia. }
  2:{ apply Forall_forall. intros y Hy. apply Huniq.
      assert (y ∈ rq) as Hyr by (apply Heq; set_solver + Hy).
      assert (y ≠ x); [|unfold rq in Hyr; set_solver]. intros ->.
      assert (NoDup (IDLE :: k2 ++ k1)) as Hnj by (by constructor). rewrite Ej in Hnj.
      apply NoDup_app in Hnj as (_ & Hn & _). apply (Hn x Hy). by left. }
  pose proof (qrep_rotate _ _ _ (p :: l1) x l2 _ Hrep) as Hqx.
  destruct (bury_spec st x (dead_list st) (l2 ++ p :: l1) dl tx Hqx eq_refl Hxi Htx) as (h & m & E & Hqb & Hmx & Hmo).
  rewrite E. cbn [mbind option_bind]. apply qrep_rotate in Hqb.
  destruct (m !! x) as [tx'|] eqn:Ex; [|unfold info in Hmx; by rewrite Ex in Hmx].
  erewrite modify_eq; [|exact Ex]. cbn [mbind option_bind]. eexists. split; [done|].
  cbn [tasks with_tasks with_dead]. split; [|split].
  - unfold rep. cbn [tasks current dead_list with_tasks with_dead]. rewrite <- Ep. by eapply qrep_update.
  - rewrite info_insert, decide_True by done. unfold info in Hmx. rewrite Ex in Hmx. injection Hmx as Hmx.
    f_equal. destruct tx', tx; unfold buried in *; cbn in *. by simplify_eq.
  - intros y Hy. rewrite info_insert, decide_False by done. by apply Hmo.
Qed.

(** [n] allocations in a row. *)
Fixpoint asid_allocs (n : nat) (st : sched) : list (Z * bool) :=
  match n with
  | O => []
  | S n' => let '(a, flushed, st') := sched_asid_alloc st in (a, flushed) :: asid_allocs n' st'
  end.

(** ASIDs are never 0 and never repeat between two flushes of the TLB: from a
    counter in range the next allocations are consecutive up to 65535, and
    exactly the allocation of 65535 flushes and starts again at 1. *)
Theorem asid_alloc_distinct st n :
  1 ≤ next_asid st < 2 ^ 16 → Z.of_nat n ≤ 2 ^ 16 - next_asid st →
  asid_allocs n st = (λ a, (a, bool_decide (a = 2 ^ 16 - 1))) <$> seqZ (next_asid st) (Z.of_nat n) ∧
  1 ≤ next_asid (sched_asid_alloc st).2 < 2 ^ 16 ∧
  (next_asid st = 2 ^ 16 - 1 → next_asid (sched_asid_alloc st).2 = 1).
Proof.
  intros Hr Hn. assert (∀ s, 1 ≤ next_asid s < 2 ^ 16 →
    let last := bool_decide (next_asid s = 2 ^ 16 - 1) in
    (sched_asid_alloc s).1 = (next_asid s, last) ∧
    next_asid (sched_asid_alloc s).2 = if last then 1 else next_asid s + 1) as Hone.
  { clear. intros s Hs. cbv zeta. unfold sched_asid_alloc. destruct (decide (next_asid s = 2 ^ 16 - 1)) as [E|E].
    - rewrite bool_decide_eq_true_2, E by done. done.
    - rewrite bool_decide_eq_false_2 by done. rewrite Z.mod_small by lia. rewrite decide_False by lia. done. }
  split; [|split].
  - revert st Hr Hn. induction n as [|n IH]; intros st Hr Hn; [done|]. cbn [asid_allocs].
    destruct (Hone st Hr) as [E1 E2]. destruct (sched_asid_alloc st) as [[a f] st'] eqn:Es. cbn [fst snd] in E1, E2.
    injection E1 as -> ->. rewrite Nat2Z.inj_succ, seqZ_cons by lia. rewrite Z.pred_succ. cbn [fmap list_fmap]. f_equal.
    destruct (decide (next_asid st = 2 ^ 16 - 1)) as [E|E].
    + assert (n = 0%nat) as -> by lia. done.
    + rewrite bool_decide_eq_false_2 in E2 by done. rewrite IH by lia. by rewrite E2.
  - destruct (Hone st Hr) as [_ ->]. destruct (decide (next_asid st = 2 ^ 16 - 1)).
    + by rewrite bool_decide_eq_true_2.
    + rewrite bool_decide_eq_false_2 by done. lia.
  - intros E. destruct (Hone st Hr) as [_ ->]. by rewrite bool_decide_eq_true_2.
Qed.

(** ** A concrete system *)

Definition demo_task (pid : Z) (s : task_state) (ppid next : Z) : task :=
  mk_task pid s 0 ppid 0 next (0x40100000 + pid * 0x4000) 0 [] [] 0 0 0.

(** Task 1 at 16 runs; task 2 at 24 is its child; idle is at 8; task 3 at 32
    has ended without a parent, its child, task 4 at 40, before it. *)
Definition demo_sched : sched :=
  mk_sched (list_to_map [(8, demo_task 0 TASK_READY 0 16); (16, demo_task 1 TASK_RUNNING 0 24);
                         (24, demo_task 2 TASK_READY 1 8); (32, demo_task 3 TASK_DEAD 0 40);
                         (40, demo_task 4 TASK_ZOMBIE 3 0)])
    16 32 5 1 [].

Ltac solve_tseg := repeat (split; [reflexivity|]; eexists; split; [vm_compute; reflexivity|]); reflexivity.

Lemma demo_rep : rep demo_sched ([16; 24; 8]) ([32] ++ [40]).
Proof.
  constructor; [solve_tseg|solve_tseg|..].
  - apply (bool_decide_eq_true_1 _). vm_compute. reflexivity.
  - apply (bool_decide_eq_true_1 _). vm_compute. reflexivity.
  - apply (bool_decide_eq_true_1 _). vm_compute. reflexivity.
  - vm_compute. reflexivity.
Qed.

(** Killing two tasks without a parent and then a child leaves a zombie before two
    corpses, and the next [schedule] uses freed memory. *)
Definition kill_history : option sched :=
  st ← enqueue (sched_init sched_boot) 16 (demo_task 1 TASK_READY 0 0);
  st ← enqueue st 24 (demo_task 2 TASK_READY 0 0);
  st ← enqueue st 32 (demo_task 3 TASK_READY 0 0);
  st ← enqueue st 40 (demo_task 4 TASK_READY 3 0);
  '(_, st) ← sched_kill_task st 1;
  '(_, st) ← sched_kill_task st 2;
  '(_, st) ← sched_kill_task st 4;
  Some st.

Example kill_breaks_reap : ∃ st, kill_history = Some st ∧ sched_reap st = None ∧ schedule st = None.
Proof. eexists. split; [vm_compute; reflexivity|]. split; vm_compute; reflexivity. Qed.

Lemma demo_dead : Forall (parentless (tasks demo_sched)) [32].
Proof. constructor; [by vm_compute|constructor]. Qed.

Lemma demo_kept : Forall (λ x, ¬ parentless (tasks demo_sched) x) [40].
Proof. constructor; [by vm_compute|constructor]. Qed.

Lemma schedule_correct_witness : ∃ st0 st', sched_reap demo_sched = Some st0 ∧ schedule demo_sched = Some st' ∧
  releases st' = [RPages (0x40100000 + 3 * 0x4000) 4; RVmas 32; RTask 32].
Proof.
  destruct (schedule_correct demo_sched 16 [24; 8] [32] [40] (demo_task 1 TASK_RUNNING 0 24)
    demo_rep demo_dead demo_kept) as (st0 & st' & E0 & E & _ & Hrel & _).
  - vm_compute. reflexivity.
  - discriminate.
  - exists st0, st'. split; [exact E0|]. split; [exact E|]. rewrite Hrel. vm_compute. reflexivity.
Defined.

Lemma demo_steps : sched_steps (sched_init sched_boot) [SCreate 16 (demo_task 1 TASK_READY 0 0); SYield]
  (mk_sched (list_to_map [(8, mk_task 0 TASK_READY 0 0 0 16 0 0 [] [] 0 0 0); (16, demo_task 1 TASK_RUNNING 0 8)]) 16 0 1 1 []).
Proof.
  eapply steps_cons; [split; [done|split; vm_compute; reflexivity]|vm_compute; reflexivity|].
  eapply steps_cons; [exact I|vm_compute; reflexivity|]. apply steps_nil.
Qed.

Lemma sched_histories_safe_witness : ∃ st, sched_steps (sched_init sched_boot)
    [SCreate 16 (demo_task 1 TASK_READY 0 0); SYield] st ∧ is_Some (run_op st (SExit 7)).
Proof.
  eexists. split; [exact demo_steps|].
  destruct (sched_histories_safe _ _ demo_steps) as [_ H]. apply H. discriminate.
Defined.

Lemma demo_sinv : sinv demo_sched 16 [24; 8] [32] [40].
Proof.
  split; [constructor|left; by vm_compute].
  - exact demo_rep.
  - exact demo_dead.
  - exact demo_kept.
  - intros x Hx. apply elem_of_cons in Hx as [->|Hx]; [split; by vm_compute|].
    apply list_elem_of_singleton in Hx as ->. split; by vm_compute.
  - by vm_compute.
  - by vm_compute.
  - done.
Qed.

Definition demo_yielded : sched := default demo_sched (yield_cpu demo_sched).

Lemma round_robin_witness : ∃ ops1 ops2 st1, [SYield] = ops1 ++ ops2 ∧ sched_steps demo_sched ops1 st1 ∧ current st1 = 24.
Proof.
  apply (round_robin demo_sched 16 [24; 8] [32] [40] 24 0 [SYield] demo_yielded).
  - exact demo_sinv.
  - exists [], [8]. split; [reflexivity|]. split; [reflexivity|]. split; [discriminate|]. vm_compute. reflexivity.
  - eapply steps_cons; [exact I|vm_compute; reflexivity|apply steps_nil].
  - vm_compute. lia.
Defined.

Lemma sched_reap_strands_zombies_witness : ∃ st', sched_reap demo_sched = Some st' ∧
  tasks st' !! 40 = Some (demo_task 4 TASK_ZOMBIE 3 0) ∧ ∀ x t, tasks st' !! x = Some t → t_pid t ≠ 3.
Proof.
  destruct (sched_reap_strands_zombies demo_sched [16; 24; 8] [32] [40] 40 (demo_task 4 TASK_ZOMBIE 3 0)
    demo_rep demo_dead demo_kept) as (st' & E & _ & Hz & Hx).
  - by left.
  - vm_compute. reflexivity.
  - vm_compute. left.
  - unfold demo_sched. cbn [tasks list_to_map].
    intros x y tx ty Hx Hy E. rewrite !list_to_map_cons, list_to_map_nil in Hx, Hy.
    repeat (apply lookup_insert_Some in Hx as [[<- <-]|[_ Hx]];
      [repeat (apply lookup_insert_Some in Hy as [[<- <-]|[_ Hy]]; [first [reflexivity|discriminate E]|]);
       rewrite lookup_empty in Hy; discriminate Hy|]).
    rewrite lookup_empty in Hx. discriminate Hx.
  - exists st'. split; [exact E|]. split; [exact Hz|exact Hx].
Defined.

Lemma waitpid_round_correct_witness :
  waitpid_round demo_sched 2 1 = Some (WReturn 0 None, demo_sched) ∧
  waitpid_round demo_sched 9 0 = Some (WReturn (-1) None, demo_sched).
Proof.
  assert (∀ a, Forall (λ x, ¬ matching (tasks demo_sched) 1 a x) ([32] ++ [40])) as Hn.
  { intros a. constructor; [|constructor; [|constructor]]; intros (t & Ht & [Hp _]); vm_compute in Ht; injection Ht as <-; discriminate Hp. }
  split.
  - destruct (waitpid_round_correct demo_sched [16; 24; 8] ([32] ++ [40]) (demo_task 1 TASK_RUNNING 0 24) 2 1 demo_rep)
      as (_ & _ & H); [vm_compute; reflexivity|].
    destruct (H ltac:(lia) (Hn 2)) as [H1 _]. rewrite H1; [reflexivity|]. exists 24. split; [right; left|].
    split; [discriminate|]. eexists. split; [vm_compute; reflexivity|]. split; [reflexivity|right; reflexivity].
  - destruct (waitpid_round_correct demo_sched [16; 24; 8] ([32] ++ [40]) (demo_task 1 TASK_RUNNING 0 24) 9 0 demo_rep)
      as (_ & _ & H); [vm_compute; reflexivity|].
    destruct (H ltac:(lia) (Hn 9)) as [_ H2]. apply H2. intros (x & Hx & Hc & t & Ht & Hm & [E|E]); [discriminate E|].
    repeat (apply elem_of_cons in Hx as [->|Hx]; [vm_compute in Ht; injection Ht as <-; first [discriminate E|discriminate Hm|done]|]).
    by apply elem_of_nil in Hx.
Defined.

Lemma sched_kill_task_correct_witness : ∃ st', sched_kill_task demo_sched 2 = Some (0, st') ∧ rep st' [16; 8] [24; 32; 40].
Proof.
  destruct (sched_kill_task_correct demo_sched 16 [] 24 [8] ([32] ++ [40]) (demo_task 2 TASK_READY 1 8) demo_rep)
    as (_ & _ & st' & E & Hrep & _).
  - vm_compute. reflexivity.
  - discriminate.
  - discriminate.
  - discriminate.
  - intros y Hy. repeat (apply elem_of_cons in Hy as [->|Hy]; [vm_compute; discriminate|]). by apply elem_of_nil in Hy.
  - exists st'. split; [exact E|exact Hrep].
Defined.

Lemma asid_alloc_distinct_witness : asid_allocs 2 (sched_init sched_boot) = [(1, false); (2, false)].
Proof.
  destruct (asid_alloc_distinct (sched_init sched_boot) 2) as [E _]; [vm_compute; by split|vm_compute; discriminate|].
  rewrite E. vm_compute. reflexivity.
Defined.

(** Two parentless corpses behind a zombie (two kills of parentless tasks and
    then one of a child, in one time slice): the second is reaped while the
    zombie's link still points at the first, already freed. *)
Example sched_reap_use_after_free :
  sched_reap (mk_sched (list_to_map [(8, demo_task 0 TASK_READY 0 16); (16, demo_task 1 TASK_RUNNING 0 8);
                                     (24, demo_task 4 TASK_ZOMBIE 1 32); (32, demo_task 3 TASK_DEAD 0 40);
                                     (40, demo_task 2 TASK_DEAD 0 0)]) 16 24 5 1 []) = None.
Proof. vm_compute. reflexivity. Qed.
