(* ===== verification/TaskMem.v ===== *)
(** The memory behind a task, as [exec], [fork] and task creation see it: the
    kernel heap over the page allocator, the pages of all page tables, the bytes
    of all data pages and the page arrays of all areas, in one state.

    The three functions build an address space next to the ones that exist and
    take everything back when they fail.  [built] is what they know half way:
    which frames are new, that the old ones still hold what they held, and that
    the new tables form a tree.  Each lemma here is one step of such a
    construction or of its removal. *)
From S2P Require Import Prelude Pmm PageAlloc Heap KernelMem Vma Mmu Elf Sched.

Record kernel (S : Type) := mk_kernel {
  k_heap : heap S;
  k_arrs : gmap Z (list Z);
  k_tabs : gmap Z (list Z);
  k_ram : gmap Z Z;
  k_tlbi : list Z;
  k_asids : list Z;
  k_dc : list Z;
  k_ic : list Z;
  k_sched : sched;
}.
Arguments mk_kernel {S}.
Arguments k_heap {S}.
Arguments k_arrs {S}.
Arguments k_tabs {S}.
Arguments k_ram {S}.
Arguments k_tlbi {S}.
Arguments k_asids {S}.
Arguments k_dc {S}.
Arguments k_ic {S}.
Arguments k_sched {S}.

Lemma bind_Some {A B} (x : A) (f : A → option B) : (Some x ≫= f) = f x.
Proof. done. Qed.

Section Ops.
Context {S : Type} `{!PageAllocator S}.
Implicit Types k : kernel S.

Definition set_heap k (h : heap S) : kernel S :=
  mk_kernel h (k_arrs k) (k_tabs k) (k_ram k) (k_tlbi k) (k_asids k) (k_dc k) (k_ic k) (k_sched k).
Definition set_pages k (s : S) : kernel S :=
  set_heap k (mk_heap (heap_head (k_heap k)) (hdrs (k_heap k)) (regions (k_heap k)) s).
Definition set_ram k (ram : gmap Z Z) : kernel S :=
  mk_kernel (k_heap k) (k_arrs k) (k_tabs k) ram (k_tlbi k) (k_asids k) (k_dc k) (k_ic k) (k_sched k).
Definition set_sched k (sc : sched) : kernel S :=
  mk_kernel (k_heap k) (k_arrs k) (k_tabs k) (k_ram k) (k_tlbi k) (k_asids k) (k_dc k) (k_ic k) sc.

(** The views of the components: page tables, the loader, the areas. *)
Definition k_pt k : pt S := mk_pt (pages (k_heap k)) (k_tabs k) true (k_tlbi k).
Definition set_pt k (t : pt S) : kernel S :=
  let h := k_heap k in
  mk_kernel (mk_heap (heap_head h) (hdrs h) (regions h) (frames t)) (k_arrs k) (tabs t) (k_ram k) (tlbi_log t)
    (k_asids k) (k_dc k) (k_ic k) (k_sched k).

Definition k_ld k : ldst S := mk_ldst (k_pt k) (k_ram k) (k_dc k) (k_ic k).
Definition set_ld k (l : ldst S) : kernel S :=
  let k1 := set_pt k (ld_pt l) in
  mk_kernel (k_heap k1) (k_arrs k1) (k_tabs k1) (ld_ram l) (k_tlbi k1) (k_asids k) (ld_dc l) (ld_ic l) (k_sched k).

Definition k_vm k : kst (heap S) := mk_kst (k_heap k) (k_arrs k).
Definition set_vm k (v : kst (heap S)) : kernel S :=
  mk_kernel (kmem v) (arrs v) (k_tabs k) (k_ram k) (k_tlbi k) (k_asids k) (k_dc k) (k_ic k) (k_sched k).

(** [pmm_allocate_pages], [pmm_allocate_page], [pmm_free_pages], [pmm_free_page] *)
Definition alloc_pages k (n : Z) : option (Z * kernel S) :=
  '(r, s) ← pa_alloc_pages (pages (k_heap k)) n; Some (r, set_pages k s).
Definition alloc_page k : option (Z * kernel S) :=
  '(r, s) ← pa_alloc_page (pages (k_heap k)); Some (r, set_pages k s).
Definition free_pages k (a n : Z) : option (kernel S) :=
  s ← pa_free_pages (pages (k_heap k)) a n; Some (set_pages k s).
Definition free_page k (a : Z) : option (kernel S) :=
  s ← pa_free_page (pages (k_heap k)) a; Some (set_pages k s).

(** [kmalloc], [kfree] *)
Definition k_malloc k (n : Z) : option (Z * kernel S) := '(p, h) ← kmalloc (k_heap k) n; Some (p, set_heap k h).
Definition k_free k (p : Z) : option (kernel S) := h ← kfree (k_heap k) p; Some (set_heap k h).

(** The page-table calls. *)
Definition create_tables k : option (Z * kernel S) :=
  '(l0, t) ← mmu_create_user_tables (k_pt k); Some (l0, set_pt k t).
Definition map_range k (l0 va pa n flags : Z) : option (kernel S) :=
  t ← mmu_map_user_range (k_pt k) l0 va pa n flags; Some (set_pt k t).
Definition free_tables k (l0 : Z) : option (kernel S) :=
  t ← mmu_free_user_tables (k_pt k) l0; Some (set_pt k t).

(** [memset] and [memcpy] through the kernel's alias of physical memory. *)
Definition clear_pages k (pa n : Z) : kernel S := set_ram k (mem_write (k_ram k) pa (replicate (Z.to_nat (n * PAGE_SIZE)) 0)).
Definition copy_pages k (dst src n : Z) : kernel S :=
  set_ram k (mem_write (k_ram k) dst (mem_read (k_ram k) src (n * PAGE_SIZE))).
End Ops.

(** ** Frames and trees *)

Section Frames.
Context {S : Type} `{!PageAllocator S}.
Implicit Types (k : kernel S) (T : tree).

(** The frames that belong to tasks, and the heap's own. *)
Definition kframes k : gset Z := client_frames (k_heap k).
Definition kown k : gset Z := heap_pages (regions (k_heap k)).
Definition klive k : gset Z := heap_live (k_heap k).
Definition kinv k : Prop := heap_inv (k_heap k).

Lemma kown_sub k : kinv k → kown k ⊆ pa_frames (pages (k_heap k)).
Proof. intros Hi. by apply (heap_pages_frames (k_heap k) (heap_blocks (k_heap k))). Qed.

Lemma elem_of_kframes k x : x ∈ kframes k ↔ x ∈ pa_frames (pages (k_heap k)) ∧ (x ∉ kown k).
Proof. unfold kframes, client_frames. by rewrite elem_of_difference. Qed.

Lemma kinv_pa k : kinv k → pa_inv (pages (k_heap k)).
Proof. intros Hi. apply (hw_pages _ _ Hi). Qed.

Lemma kframes_page k x : kinv k → x ∈ kframes k → 0 < x ∧ x mod PAGE_SIZE = 0 ∧ x + PAGE_SIZE ≤ PHYS_LIMIT.
Proof. intros Hi [Hx _]%elem_of_kframes. by apply (pa_frames_page (pages (k_heap k))); [apply kinv_pa|]. Qed.

(** The page state can move on as long as the heap keeps its pages. *)
Lemma set_pages_spec k (s : S) :
  kinv k → pa_inv s → kown k ⊆ pa_frames s →
  kinv (set_pages k s) ∧ klive (set_pages k s) = klive k ∧ ∀ x, x ∈ kframes (set_pages k s) ↔ x ∈ pa_frames s ∧ (x ∉ kown k).
Proof.
  intros Hi Hs Hown. split; [|split; [done|]].
  - eapply heap_inv_wf, heap_wf_pages; [exact Hi|done|done].
  - intros x. unfold kframes, client_frames, set_pages, set_heap. cbn. by rewrite elem_of_difference.
Qed.

Definition tree_at k (l0 : Z) T : Prop := pt_wf (k_pt k) l0 T ∧ (map_img T : gset Z) ⊆ kframes k.

(** A tree whose pages nobody has touched is still a tree. *)
Lemma tree_frame k k' l0 T :
  tree_at k l0 T → kinv k' → (map_img T : gset Z) ⊆ kframes k' →
  (∀ q, q ∈ (map_img T : gset Z) → k_tabs k' !! q = k_tabs k !! q) → tree_at k' l0 T.
Proof.
  intros [[H1 H2 H3 H4 H5 H6 H7 H8 H9] Hsub] Hi Hsub' Ht. split; [|done].
  assert (∀ π q, T !! π = Some q → k_tabs k' !! q = k_tabs k !! q) as Hq.
  { intros π q Hπ. apply Ht, elem_of_map_img. eauto. }
  assert (∀ π q i, T !! π = Some q → word (k_pt k') q i = word (k_pt k) q i) as Hw.
  { intros π q i Hπ. unfold word. cbn. by rewrite (Hq π q Hπ). }
  constructor; try done.
  - by apply kinv_pa.
  - intros π q Hπ. assert (q ∈ kframes k') as [? _]%elem_of_kframes by (apply Hsub', elem_of_map_img; eauto). done.
  - intros π q Hπ. cbn. rewrite (Hq π q Hπ). by apply (H7 π).
  - intros π q i e Hπ Hl. rewrite (Hw π q i Hπ). by apply H8.
  - intros π q i e Hπ Hl. rewrite (Hw π q i Hπ). by apply (H9 π).
Qed.

Lemma hw_frame k k' l0 T va :
  tree_at k l0 T → kinv k' → (map_img T : gset Z) ⊆ kframes k' →
  (∀ q, q ∈ (map_img T : gset Z) → k_tabs k' !! q = k_tabs k !! q) → hw_pte (k_pt k') l0 va = hw_pte (k_pt k) l0 va.
Proof.
  intros Ht Hi Hs Hq. destruct (tree_frame k k' l0 T Ht Hi Hs Hq) as [Hwf' _]. destruct Ht as [Hwf _].
  rewrite (hw_pte_leaf _ l0 T), (hw_pte_leaf _ l0 T) by done. unfold valid_leaf, leaf.
  destruct (T !! path va) as [q|] eqn:E; [|done]. cbn. unfold word. cbn. rewrite Hq; [done|]. apply elem_of_map_img. eauto.
Qed.

(** ** Growing *)

(** The frames of [X] hold what they held. *)
Definition untouched (X : gset Z) k k' : Prop :=
  (∀ q, q ∈ X → k_tabs k' !! q = k_tabs k !! q) ∧
  (∀ x, x / PAGE_SIZE * PAGE_SIZE ∈ X → k_ram k' !! x = k_ram k !! x).

Lemma untouched_trans X k1 k2 k3 : untouched X k1 k2 → untouched X k2 k3 → untouched X k1 k3.
Proof. intros [A1 A2] [B1 B2]. split; intros; [by rewrite B1, A1|by rewrite B2, A2]. Qed.

Lemma untouched_sub X Y k k' : X ⊆ Y → untouched Y k k' → untouched X k k'.
Proof. intros Hs [H1 H2]. split; intros; [by apply H1, Hs|by apply H2, Hs]. Qed.

(** [k] is [k0] with the frames [X] taken on top and the live objects [L]. *)
Record grew k0 (L : gset Z) k (X : gset Z) : Prop := {
  gw_inv : kinv k;
  gw_frames : kframes k = X ∪ kframes k0;
  gw_new : X ## kframes k0;
  gw_kept : untouched (kframes k0) k0 k;
  gw_live : klive k = L;
  gw_arrs p : p ∈ klive k0 → k_arrs k !! p = k_arrs k0 !! p;
  gw_sched : k_sched k = k_sched k0;
}.

Lemma grew_refl k : kinv k → grew k (klive k) k ∅.
Proof. intros Hi. constructor; try done; set_solver. Qed.

Lemma set_pages_same k : set_pages k (pages (k_heap k)) = k.
Proof. by destruct k as [[]]. Qed.

(** A page of a fresh run. *)
Lemma run_bounds k (s : S) a n :
  pa_inv s → 0 < n → (pages_at a n ## pa_frames (pages (k_heap k))) → pa_frames s = pages_at a n ∪ pa_frames (pages (k_heap k)) →
  0 < a ∧ a mod PAGE_SIZE = 0 ∧ a + n * PAGE_SIZE ≤ PHYS_LIMIT.
Proof. apply fresh_run. Qed.

Lemma grew_pages k0 L k X (s : S) Y :
  grew k0 L k X → pa_inv s → (Y ## pa_frames (pages (k_heap k))) → pa_frames s = Y ∪ pa_frames (pages (k_heap k)) →
  grew k0 L (set_pages k s) (Y ∪ X).
Proof.
  intros [Hi Hf Hn Hk Hl Ha Hsc] Hs Hd Hfs. pose proof (kown_sub k Hi) as Hown.
  destruct (set_pages_spec k s Hi Hs ltac:(set_solver)) as (Hi' & Hl' & Hf').
  constructor; try done.
  - apply set_eq. intros x. rewrite Hf', Hfs, !elem_of_union. assert (x ∈ kframes k ↔ x ∈ X ∨ x ∈ kframes k0) as Hx by (rewrite Hf; set_solver).
    rewrite elem_of_kframes in Hx. set_solver.
  - assert (Y ## kframes k0); [|set_solver]. intros x Hx Hx0. apply (Hd x Hx).
    assert (x ∈ kframes k) as [? _]%elem_of_kframes by (rewrite Hf; set_solver). done.
Qed.

Lemma grew_alloc_pages k0 L k X n :
  grew k0 L k X → 0 < n →
  ∃ r k', alloc_pages k n = Some (r, k') ∧
    (r = 0 ∧ k' = k ∨
     0 < r ∧ r mod PAGE_SIZE = 0 ∧ r + n * PAGE_SIZE ≤ PHYS_LIMIT ∧ (pages_at r n ## kframes k) ∧
     (∃ s, k' = set_pages k s) ∧ grew k0 L k' (pages_at r n ∪ X)).
Proof.
  intros Hg Hn. unfold alloc_pages. pose proof (gw_inv _ _ _ _ Hg) as Hi.
  destruct (pa_alloc_pages_ok (pages (k_heap k)) n) as (r & s & -> & Hs & Hr); [by apply kinv_pa|done|]. cbn [mbind option_bind].
  eexists _, _. split; [done|]. destruct Hr as [[-> ->]|[Hd Hf]]; [left; by rewrite set_pages_same|right].
  destruct (run_bounds k s r n Hs Hn Hd Hf) as (? & ? & ?). do 3 (split; [done|]).
  split; [intros x Hx [Hy _]%elem_of_kframes; by apply (Hd x)|]. split; [eauto|]. by apply grew_pages.
Qed.

Lemma pages_at_1 a : pages_at a 1 = {[a]}.
Proof.
  apply set_eq. intros x. rewrite elem_of_pages_at, elem_of_singleton. split.
  - intros (i & Hi & ->). assert (i = 0) as -> by lia. lia.
  - intros ->. exists 0. lia.
Qed.

Lemma grew_alloc_page k0 L k X :
  grew k0 L k X →
  ∃ r k', alloc_page k = Some (r, k') ∧
    (r = 0 ∧ k' = k ∨
     0 < r ∧ r mod PAGE_SIZE = 0 ∧ r + PAGE_SIZE ≤ PHYS_LIMIT ∧ (r ∉ kframes k) ∧
     (∃ s, k' = set_pages k s) ∧ grew k0 L k' ({[r]} ∪ X)).
Proof.
  intros Hg. unfold alloc_page. pose proof (gw_inv _ _ _ _ Hg) as Hi.
  destruct (pa_alloc_page_ok (pages (k_heap k))) as (r & s & -> & Hs & Hr); [by apply kinv_pa|]. cbn [mbind option_bind].
  eexists _, _. split; [done|]. destruct Hr as [[-> ->]|[Hd Hf]]; [left; by rewrite set_pages_same|right].
  destruct (run_bounds k s r 1 Hs ltac:(lia)) as (? & ? & ?); [rewrite pages_at_1; set_solver|by rewrite pages_at_1|].
  do 2 (split; [done|]). split; [lia|]. split; [by intros [? _]%elem_of_kframes|]. split; [eauto|]. apply grew_pages; [done|done|set_solver|done].
Qed.

(** Giving new frames back. *)
Lemma grew_drop k0 L k X (s : S) Y :
  grew k0 L k X → Y ⊆ X → pa_inv s → pa_frames s = pa_frames (pages (k_heap k)) ∖ Y → grew k0 L (set_pages k s) (X ∖ Y).
Proof.
  intros [Hi Hf Hn Hk Hl Ha Hsc] Hsub Hs Hfs. pose proof (kown_sub k Hi) as Hown.
  assert (∀ x, x ∈ Y → x ∉ kown k) as HY.
  { intros x Hx. assert (x ∈ kframes k) as [_ ?]%elem_of_kframes by (rewrite Hf; set_solver). done. }
  destruct (set_pages_spec k s Hi Hs) as (Hi' & Hl' & Hf'); [set_solver|].
  constructor; try done; [|set_solver].
  apply set_eq. intros x. rewrite Hf', Hfs, elem_of_union, !elem_of_difference. assert (x ∈ kframes k ↔ x ∈ X ∨ x ∈ kframes k0) as Hx by (rewrite Hf; set_solver).
  rewrite elem_of_kframes in Hx. set_solver.
Qed.

Lemma grew_free_pages k0 L k X a n :
  grew k0 L k X → pages_at a n ⊆ X → 0 ≤ a → a + n * PAGE_SIZE ≤ PHYS_LIMIT →
  ∃ k', free_pages k a n = Some k' ∧ grew k0 L k' (X ∖ pages_at a n) ∧ ∃ s, k' = set_pages k s.
Proof.
  intros Hg Hsub Ha Hb. unfold free_pages.
  destruct (pa_free_pages_ok (pages (k_heap k)) a n) as (s & -> & Hs & Hf); [apply kinv_pa, Hg|done|done|]. cbn [mbind option_bind].
  eexists. split; [done|]. split; [by apply grew_drop|eauto].
Qed.

Lemma grew_free_page k0 L k X a :
  grew k0 L k X → a ∈ X → ∃ k', free_page k a = Some k' ∧ grew k0 L k' (X ∖ {[a]}) ∧ ∃ s, k' = set_pages k s.
Proof.
  intros Hg Hin. unfold free_page.
  destruct (pa_free_page_ok (pages (k_heap k)) a) as (s & -> & Hs & Hf & _); [apply kinv_pa, Hg|]. cbn [mbind option_bind].
  eexists. split; [done|]. split; [apply grew_drop; [done|set_solver|done|done]|eauto].
Qed.

(** Writing to new frames. *)
Lemma grew_write k0 L k X pa bs :
  grew k0 L k X → (∀ x, pa ≤ x < pa + Z.of_nat (length bs) → x / PAGE_SIZE * PAGE_SIZE ∈ X) →
  grew k0 L (set_ram k (mem_write (k_ram k) pa bs)) X.
Proof.
  intros [Hi Hf Hn [K1 K2] Hl Ha Hsc] Hx. constructor; try done. split; [done|]. intros x Hin. cbn.
  rewrite mem_write_outside; [by apply K2|]. intros Hr. apply (Hn (x / PAGE_SIZE * PAGE_SIZE)); [by apply Hx|done].
Qed.

Lemma grew_write_run k0 L k X pa n bs :
  grew k0 L k X → pages_at pa n ⊆ X → pa mod PAGE_SIZE = 0 → Z.of_nat (length bs) ≤ n * PAGE_SIZE →
  grew k0 L (set_ram k (mem_write (k_ram k) pa bs)) X.
Proof. intros Hg Hsub Hal Hb. apply grew_write; [done|]. intros x Hx. apply Hsub, pages_at_bytes; [done|lia]. Qed.

Lemma grew_kfree k0 L k X p :
  grew k0 L k X → p ∈ L → ∃ k', k_free k p = Some k' ∧ grew k0 (L ∖ {[p]}) k' X ∧ ∃ h, k' = set_heap k h.
Proof.
  intros [Hi Hf Hn Hk Hl Ha Hsc] Hp. unfold k_free. rewrite <- Hl in Hp.
  destruct (km_free_ok (k_heap k) p) as (h & E & Hi' & Hf' & Hl'); [exact Hi|exact Hp|]. cbn in E. rewrite E. cbn [mbind option_bind].
  eexists. split; [done|]. split; [|eauto]. constructor; try done.
  - change (kframes (set_heap k h)) with (km_frames h). rewrite Hf'. exact Hf.
  - change (klive (set_heap k h)) with (km_live h). rewrite Hl'. change (km_live (k_heap k)) with (klive k). by rewrite Hl.
Qed.

Lemma grew_kmalloc k n :
  kinv k → is_u64 n →
  ∃ p k', k_malloc k n = Some (p, k') ∧ (∃ h, k' = set_heap k h) ∧
    ((p = 0 ∧ grew k (klive k) k' ∅) ∨ p ≠ 0 ∧ (p ∉ klive k) ∧ grew k ({[p]} ∪ klive k) k' ∅).
Proof.
  intros Hi Hn. unfold k_malloc. destruct (km_malloc_ok (k_heap k) n) as (p & h & E & Hi' & Hf' & Hc); [exact Hi|exact Hn|]. cbn in E. rewrite E. cbn [mbind option_bind].
  eexists _, _. split; [done|]. split; [eauto|].
  assert (∀ L, km_live h = L → grew k L (set_heap k h) ∅) as Hg.
  { intros L HL. constructor; try done. change (kframes (set_heap k h)) with (km_frames h). rewrite Hf'. set_solver. }
  destruct Hc as [[-> Hl]|[Hp Hl]]; [left; split; [done|by apply Hg]|right].
  split; [|split; [done|by apply Hg]]. intros ->. destruct (km_null h Hi') as [H0 _]. apply H0. rewrite Hl. set_solver.
Qed.

(** ** Building an address space *)

Record built k0 (L : gset Z) k (l0 : Z) T (D : gset Z) : Prop := {
  bt_grew : grew k0 L k (D ∪ map_img T);
  bt_tree : tree_at k l0 T;
  bt_data : D ## (map_img T : gset Z);
}.

(** A call that replaced the pages [Y] by the tree [T'] and took the frames [Z0]. *)
Lemma grew_tree k0 L k X l0 (l : ldst S) T' Y Z0 :
  grew k0 L k X → Y ⊆ X → pt_wf (ld_pt l) l0 T' →
  (∀ x, x ∈ pt_others (ld_pt l) T' ↔ x ∈ Z0 ∨ x ∈ pa_frames (pages (k_heap k)) ∖ Y) →
  (Z0 ## pa_frames (pages (k_heap k)) ∖ Y) →
  (∀ q, q ∈ pa_frames (pages (k_heap k)) ∖ Y → tabs (ld_pt l) !! q = k_tabs k !! q) →
  (∀ x, x / PAGE_SIZE * PAGE_SIZE ∈ pa_frames (pages (k_heap k)) ∖ Y → ld_ram l !! x = k_ram k !! x) →
  built k0 L (set_ld k l) l0 T' ((X ∖ Y) ∪ Z0).
Proof.
  intros [Hi Hf Hn [K1 K2] Hl Ha Hsc] HY Hwf Ho HZ Ht Hr. pose proof (kown_sub k Hi) as Hown.
  assert (∀ x, x ∈ kframes k ↔ x ∈ X ∨ x ∈ kframes k0) as HF by (intros x; rewrite Hf; set_solver).
  assert (∀ x, x ∈ kframes k → x ∈ pa_frames (pages (k_heap k)) ∧ (x ∉ kown k)) as HF2 by (intros x; apply elem_of_kframes).
  assert (∀ x, x ∈ pa_frames (frames (ld_pt l)) ↔ x ∈ (map_img T' : gset Z) ∨ x ∈ Z0 ∨ x ∈ pa_frames (pages (k_heap k)) ∖ Y) as HP.
  { intros x. rewrite <- Ho. unfold pt_others. rewrite elem_of_difference. destruct (decide (x ∈ (map_img T' : gset Z))) as [Hin|]; [|tauto].
    split; [by left|]. intros _. apply elem_of_map_img in Hin as [π Hπ]. by apply (pw_frames _ _ _ Hwf π). }
  assert (∀ x, x ∈ (map_img T' : gset Z) → x ∉ pa_frames (pages (k_heap k)) ∖ Y) as HT.
  { intros x Hx Hy. assert (x ∈ pt_others (ld_pt l) T') as Hz by (apply Ho; by right). unfold pt_others in Hz. set_solver. }
  assert (∀ x, x ∈ Z0 → x ∉ (map_img T' : gset Z)) as HZT.
  { intros x Hx Hy. assert (x ∈ pt_others (ld_pt l) T') as Hz by (apply Ho; by left). unfold pt_others in Hz. set_solver. }
  assert (∀ x, x ∈ kown k → x ∈ pa_frames (pages (k_heap k)) ∖ Y) as HownY.
  { intros x Hx. apply elem_of_difference. split; [by apply Hown|]. intros Hy. by apply (HF2 x); [apply HF; left; apply HY|]. }
  assert (∀ x, x ∈ kframes k0 → x ∈ pa_frames (pages (k_heap k)) ∖ Y) as HF0.
  { intros x Hx. apply elem_of_difference. split; [by apply HF2, HF; right|]. intros Hy. by apply (Hn x); [apply HY|]. }
  destruct (set_pages_spec k (frames (ld_pt l)) Hi (pw_inv _ _ _ Hwf)) as (Hi' & Hl' & Hf'); [intros x Hx; apply HP; auto|].
  assert (∀ x, x ∈ kframes (set_ld k l) ↔ x ∈ (map_img T' : gset Z) ∨ x ∈ Z0 ∨ x ∈ X ∖ Y ∨ x ∈ kframes k0) as HF'.
  { intros x. change (kframes (set_ld k l)) with (kframes (set_pages k (frames (ld_pt l)))). rewrite Hf', HP. split.
    - intros [[?|[?|[Hp Hy]%elem_of_difference]] Ho']; [by left|by right; left|]. right; right.
      assert (x ∈ kframes k) as [?|?]%HF by (by apply elem_of_kframes); [left; set_solver|by right].
    - intros [Hx|[Hx|[[Hx Hy]%elem_of_difference|Hx]]].
      + split; [by left|]. intros Hy. by apply (HT x), HownY.
      + split; [by right; left|]. intros Hy. by apply (HZ x), HownY.
      + assert (x ∈ kframes k) as [? ?]%HF2 by (apply HF; by left). split; [|done]. right; right. set_solver.
      + assert (x ∈ kframes k) as [? ?]%HF2 by (apply HF; by right). split; [|done]. right; right. by apply HF0. }
  constructor; [constructor| |].
  - exact Hi'.
  - apply set_eq. intros x. rewrite HF'. set_solver.
  - intros x Hx Hx0. pose proof (HF0 x Hx0) as Hx1. apply elem_of_union in Hx as [[Hx|Hx]%elem_of_union|Hx].
    + set_solver.
    + by apply (HZ x).
    + by apply (HT x).
  - split; [intros q Hq|intros x Hx]; cbn.
    + rewrite Ht by (by apply HF0). by apply K1.
    + rewrite Hr by (by apply HF0). by apply K2.
  - done.
  - exact Ha.
  - exact Hsc.
  - split; [|intros x Hx; apply HF'; by left]. assert (k_pt (set_ld k l) = ld_pt l) as ->; [|done].
    unfold k_pt. cbn. rewrite <- (pw_on _ _ _ Hwf). by destruct (ld_pt l).
  - intros x [Hx|Hx]%elem_of_union Ht'; [|by apply (HZT x)].
    apply elem_of_difference in Hx as [Hx Hy]. apply (HT x Ht'). assert (x ∈ kframes k) as [? ?]%HF2 by (apply HF; by left). set_solver.
Qed.

(** Steps that leave the tables alone. *)
Lemma built_step k0 L k l0 T D L' k' D' :
  built k0 L k l0 T D → grew k0 L' k' (D' ∪ map_img T) → D' ## (map_img T : gset Z) → k_tabs k' = k_tabs k →
  built k0 L' k' l0 T D' ∧ ∀ va, hw_pte (k_pt k') l0 va = hw_pte (k_pt k) l0 va.
Proof.
  intros [Hg Ht Hd] Hg' Hd' Htab.
  assert ((map_img T : gset Z) ⊆ kframes k') as Hs by (rewrite (gw_frames _ _ _ _ Hg'); set_solver).
  split; [constructor; [done| |done]|].
  - eapply tree_frame; [exact Ht|apply Hg'|done|]. intros q _. by rewrite Htab.
  - intros va. eapply hw_frame; [exact Ht|apply Hg'|done|]. intros q _. by rewrite Htab.
Qed.

Lemma built_alloc_pages k0 L k l0 T D n :
  built k0 L k l0 T D → 0 < n →
  ∃ r k', alloc_pages k n = Some (r, k') ∧
    (r = 0 ∧ k' = k ∨
     0 < r ∧ r mod PAGE_SIZE = 0 ∧ r + n * PAGE_SIZE ≤ PHYS_LIMIT ∧ (pages_at r n ## kframes k) ∧
     (∃ s, k' = set_pages k s) ∧ built k0 L k' l0 T (pages_at r n ∪ D) ∧ ∀ va, hw_pte (k_pt k') l0 va = hw_pte (k_pt k) l0 va).
Proof.
  intros Hb Hn. pose proof Hb as [Hg Ht Hd]. destruct (grew_alloc_pages k0 L k _ n Hg Hn) as (r & k' & E & Hr).
  exists r, k'. split; [done|]. destruct Hr as [?|(H1 & H2 & H3 & H4 & [s ->] & Hg')]; [by left|right].
  do 4 (split; [done|]). split; [eauto|]. eapply built_step; [done|by rewrite <- (assoc_L (∪))| |done].
  assert (pages_at r n ## map_img T); [|set_solver]. intros x Hx Hy. apply (H4 x Hx). by apply Ht.
Qed.

Lemma built_alloc_page k0 L k l0 T D :
  built k0 L k l0 T D →
  ∃ r k', alloc_page k = Some (r, k') ∧
    (r = 0 ∧ k' = k ∨
     0 < r ∧ r mod PAGE_SIZE = 0 ∧ r + PAGE_SIZE ≤ PHYS_LIMIT ∧ (r ∉ kframes k) ∧
     (∃ s, k' = set_pages k s) ∧ built k0 L k' l0 T ({[r]} ∪ D) ∧ ∀ va, hw_pte (k_pt k') l0 va = hw_pte (k_pt k) l0 va).
Proof.
  intros Hb. pose proof Hb as [Hg Ht Hd]. destruct (grew_alloc_page k0 L k _ Hg) as (r & k' & E & Hr).
  exists r, k'. split; [done|]. destruct Hr as [?|(H1 & H2 & H3 & H4 & [s ->] & Hg')]; [by left|right].
  do 4 (split; [done|]). split; [eauto|]. eapply built_step; [done|by rewrite <- (assoc_L (∪))| |done].
  assert (r ∉ (map_img T : gset Z)); [|set_solver]. intros Hy. by apply H4, Ht.
Qed.

Lemma built_write k0 L k l0 T D pa n bs :
  built k0 L k l0 T D → pages_at pa n ⊆ D → pa mod PAGE_SIZE = 0 → Z.of_nat (length bs) ≤ n * PAGE_SIZE →
  built k0 L (set_ram k (mem_write (k_ram k) pa bs)) l0 T D.
Proof.
  intros Hb Hsub Hal Hl. pose proof Hb as [Hg Ht Hd]. eapply built_step; [done| |done|done].
  eapply grew_write_run; [done| |done|done]. set_solver.
Qed.

Lemma built_kfree k0 L k l0 T D p :
  built k0 L k l0 T D → p ∈ L →
  ∃ k', k_free k p = Some k' ∧ built k0 (L ∖ {[p]}) k' l0 T D ∧ (∃ h, k' = set_heap k h) ∧ ∀ va, hw_pte (k_pt k') l0 va = hw_pte (k_pt k) l0 va.
Proof.
  intros Hb Hp. pose proof Hb as [Hg Ht Hd]. destruct (grew_kfree k0 L k _ p Hg Hp) as (k' & E & Hg' & [h ->]). eexists. split; [done|].
  destruct (built_step k0 L k l0 T D _ _ D Hb Hg' Hd eq_refl) as [? ?]. eauto.
Qed.

Lemma kframes_sub k : kframes k ⊆ pa_frames (pages (k_heap k)).
Proof. intros x [? _]%elem_of_kframes. done. Qed.

Lemma built_create k0 L k D :
  grew k0 L k D →
  ∃ l0 k', create_tables k = Some (l0, k') ∧
    (l0 = 0 ∧ k' = k ∨
     l0 ≠ 0 ∧ built k0 L k' l0 {[ [] := l0 ]} D ∧ k_ram k' = k_ram k ∧ ∀ va, 0 ≤ va < 2 ^ 48 → hw_pte (k_pt k') l0 va = None).
Proof.
  intros Hg. pose proof (gw_inv _ _ _ _ Hg) as Hi. unfold create_tables.
  destruct (create_spec (k_pt k)) as (l0 & t & E & Hc); [by apply kinv_pa|done|]. rewrite E. cbn [mbind option_bind].
  exists l0, (set_pt k t). split; [done|]. unfold mmu_create_user_tables, alloc_table in E. cbn [frames k_pt mmu_on] in E.
  destruct (pa_alloc_page_ok (pages (k_heap k))) as (r & s & Ea & Hs & Hr); [by apply kinv_pa|]. rewrite Ea in E. cbn [mbind option_bind] in E.
  destruct (decide (r = 0)) as [->|Hr0].
  { injection E as <- <-. left. split; [done|]. destruct Hr as [[_ ->]|[H0 Hf]]; [by destruct k as [[]]|].
    exfalso. assert (0 < 0); [|lia]. apply (pa_frames_page s 0); [done|rewrite Hf; set_solver]. }
  injection E as <- <-. destruct Hc as [?|[Hwf Ho]]; [done|]. right. split; [done|].
  destruct Hr as [[? _]|[Hfresh Hf]]; [done|].
  destruct (pa_frames_page s r) as (? & ? & ?); [done|rewrite Hf; set_solver|].
  unfold deref in *. cbn [mmu_on k_pt] in *. rewrite virt_phys in * by (unfold is_u64, PHYS_LIMIT, PAGE_SIZE in *; lia).
  set (t := mk_pt s _ _ _) in *.
  pose proof (grew_tree k0 L k D r (mk_ldst t (k_ram k) (k_dc k) (k_ic k)) {[ [] := r ]} ∅ ∅ Hg) as Hb.
  replace (D ∖ ∅ ∪ ∅) with D in Hb by set_solver. rewrite !difference_empty_L in Hb. split; [|split; [done|]].
  - apply Hb; clear Hb; try done.
    + cbn [ld_pt]. intros x. rewrite Ho. cbn. set_solver.
    + intros q Hq. cbn. rewrite lookup_insert_ne; [done|]. intros ->. set_solver.
  - intros va Hva. assert (k_pt (set_pt k t) = t) as -> by done. rewrite (hw_pte_leaf t r {[ [] := r ]}) by done.
    unfold valid_leaf, leaf. rewrite lookup_singleton_ne; [done|]. by unfold path.
Qed.

Lemma built_map k0 L k l0 T D va pa n flags :
  built k0 L k l0 T D → user_range va n → 0 ≤ pa → pa + n * PAGE_SIZE < 2 ^ 64 →
  ∃ k' T' j, map_range k l0 va pa n flags = Some k' ∧ built k0 L k' l0 T' D ∧ (∃ t, k' = set_pt k t) ∧
    0 ≤ j ≤ n ∧ (j = n ∨ starved (pages (k_heap k'))) ∧
    ∀ a, 0 ≤ a < 2 ^ 48 → hw_pte (k_pt k') l0 a =
      if decide (va ≤ a < va + j * PAGE_SIZE) then Some (page_desc (pa + (a - va) / PAGE_SIZE * PAGE_SIZE) flags)
      else hw_pte (k_pt k) l0 a.
Proof.
  intros [Hg [Hwf Hs] Hd] Hu Hpa Hpb. unfold map_range.
  destruct (map_user_range_spec (k_pt k) l0 T va pa n flags Hwf Hu Hpa Hpb) as (t & T' & j & E & Hwf' & _ & Ho & Hj & Hoom & Hhw).
  rewrite E. cbn [mbind option_bind]. exists (set_pt k t), T', j. split; [done|].
  assert (k_pt (set_pt k t) = t) as Ept. { unfold k_pt. cbn. rewrite <- (pw_on _ _ _ Hwf'). by destruct t. }
  pose proof (grew_tree k0 L k _ l0 (mk_ldst t (k_ram k) (k_dc k) (k_ic k)) T' (map_img T) ∅ Hg) as Hb.
  replace ((D ∪ map_img T) ∖ map_img T ∪ ∅) with D in Hb by set_solver. split; [|split; [eauto|split; [done|split]]].
  - apply Hb; clear Hb; try done.
    + set_solver.
    + cbn [ld_pt]. intros x. rewrite Ho. unfold pt_others. cbn. set_solver.
    + intros q Hq. by apply (map_user_range_tabs _ _ _ _ _ _ _ _ Hwf E).
  - exact Hoom.
  - by rewrite Ept.
Qed.

(** An exhausted allocator stays exhausted until something is freed. *)
Lemma starved_map k l0 va pa n flags k' :
  starved (pages (k_heap k)) → map_range k l0 va pa n flags = Some k' → starved (pages (k_heap k')).
Proof.
  intros Hs. unfold map_range. destruct (mmu_map_user_range (k_pt k) l0 va pa n flags) as [t|] eqn:E; [|done]. cbn [mbind option_bind]. intros [= <-].
  cbn [k_heap set_pt pages]. unfold starved in *.
  apply (map_frames_ind (λ s, pa_alloc_page s = Some (0, s))) in E; [done| |done]. intros s r s' H1 H2. rewrite H1 in H2. by injection H2 as <- <-.
Qed.

Lemma starved_alloc k r k' : alloc_page k = Some (r, k') → r ≠ 0 → ¬ starved (pages (k_heap k)).
Proof. unfold alloc_page, starved. intros E Hr Hs. rewrite Hs in E. by injection E as <- <-. Qed.

Lemma k_free_pages k p k' : kinv k → p ∈ klive k → k_free k p = Some k' → pages (k_heap k') = pages (k_heap k).
Proof.
  intros Hi [n Hn]%(heap_live_wf _ _ _ Hi). unfold k_free.
  destruct (kfree_live _ _ _ _ Hi Hn) as (h' & l' & E & _ & _ & _ & Hp & _). rewrite E. cbn [mbind option_bind]. by intros [= <-].
Qed.

Lemma grew_free_tables k0 L k l0 T D :
  built k0 L k l0 T D → ∃ k', free_tables k l0 = Some k' ∧ grew k0 L k' D ∧ (∃ t, k' = set_pt k t).
Proof.
  intros [[Hi Hf Hn [K1 K2] Hl Ha Hsc] [Hwf Hs] Hd]. unfold free_tables.
  destruct (mmu_free_full (k_pt k) l0 T Hwf) as (t & -> & Et & Hit & Hft). cbn [mbind option_bind frames k_pt] in *.
  eexists. split; [done|]. split; [|eauto]. pose proof (kown_sub k Hi) as Hown.
  assert (∀ x, x ∈ (map_img T : gset Z) → x ∉ kown k) as HT by (intros x [_ ?]%Hs%elem_of_kframes; done).
  destruct (set_pages_spec k (frames t) Hi Hit) as (Hi' & Hl' & Hf'); [set_solver|].
  constructor; try done.
  - change (kframes (set_pt k t)) with (kframes (set_pages k (frames t))). apply set_eq. intros x. rewrite Hf', Hft, elem_of_difference.
    assert (x ∈ kframes k ↔ x ∈ D ∪ map_img T ∪ kframes k0) as Hx by (by rewrite Hf). rewrite elem_of_kframes in Hx. set_solver.
  - set_solver.
  - split; [|exact K2]. intros q Hq. cbn. rewrite Et. by apply K1.
Qed.

(** The loader on the new tables. *)
Lemma built_elf k0 L k l0 T D ctr kbuf out :
  built k0 L k l0 T D → Forall is_byte kbuf → Z.of_nat (length kbuf) < 2 ^ 63 →
  ∃ r img l, elf_load ctr kbuf (Z.of_nat (length kbuf)) l0 out (k_ld k) = Some (r, (img, l)) ∧
    (r = -1 ∧ (∃ T', built k0 L (set_ld k l) l0 T' D) ∨
     r = 0 ∧ ∃ eh segs T', read_ehdr kbuf = Some eh ∧ elf_loaded ctr kbuf l0 (k_ld k) T eh segs img l T' ∧
       built k0 L (set_ld k l) l0 T' (D ∪ ⋃ (seg_frames <$> segs)) ∧ k_pt (set_ld k l) = ld_pt l).
Proof.
  intros Hb Hbytes Hlen. pose proof Hb as [Hg [Hwf Hs] Hd].
  destruct (elf_load_spec ctr kbuf l0 out (k_ld k) T Hbytes Hlen Hwf) as (r & img & l & E & Hr). exists r, img, l. split; [done|].
  assert (∀ T' Z0, pt_wf (ld_pt l) l0 T' → (∀ x, x ∈ pt_others (ld_pt l) T' ↔ x ∈ Z0 ∨ x ∈ pt_others (ld_pt (k_ld k)) T) →
    (Z0 ## pt_others (ld_pt (k_ld k)) T) → kept (k_ld k) T l → built k0 L (set_ld k l) l0 T' (D ∪ Z0)) as Hstep.
  { intros T' Z0 Hwf' Ho HZ [K1 K2]. pose proof (grew_tree k0 L k _ l0 l T' (map_img T) Z0 Hg) as Hx.
    replace ((D ∪ map_img T) ∖ map_img T ∪ Z0) with (D ∪ Z0) in Hx by set_solver. apply Hx; clear Hx; try done. set_solver. }
  destruct Hr as [[-> [[-> ->]|(_ & Hk & T' & Hwf' & Ho)]]|(-> & eh & segs & T' & Eeh & Hld)].
  - left. split; [done|]. exists T. by destruct k as [[]].
  - left. split; [done|]. exists T'. rewrite <- (union_empty_r_L D). apply Hstep; [done| |set_solver|done]. intros x. rewrite Ho. set_solver.
  - right. split; [done|]. exists eh, segs, T'. split; [done|]. split; [done|]. pose proof Hld as (_ & Hl & _).
    assert (∀ x, x ∈ ⋃ (seg_frames <$> segs) ↔ ∃ sg, sg ∈ segs ∧ x ∈ seg_frames sg) as Hu.
    { intros x. rewrite elem_of_union_list. split.
      - intros (X & (sg & -> & Hin)%list_elem_of_fmap & Hx). eauto.
      - intros (sg & Hin & Hx). exists (seg_frames sg). split; [|done]. apply list_elem_of_fmap. eauto. }
    split.
    + apply Hstep; [apply Hl| | |by eapply loaded_kept].
      * intros x. rewrite Hu. apply (ld_frames _ _ _ _ _ _ _ _ _ Hl).
      * intros x (sg & Hin & Hx)%Hu Hy. exact (ld_fresh _ _ _ _ _ _ _ _ _ Hl sg Hin x Hx Hy).
    + unfold k_pt. cbn. rewrite <- (pw_on _ _ _ (ld_wf _ _ _ _ _ _ _ _ _ Hl)). by destruct (ld_pt l).
Qed.

(** ** Releasing *)

Lemma drop_spec k (s : S) Y :
  kinv k → Y ⊆ kframes k → pa_inv s → pa_frames s = pa_frames (pages (k_heap k)) ∖ Y →
  kinv (set_pages k s) ∧ klive (set_pages k s) = klive k ∧ kframes (set_pages k s) = kframes k ∖ Y.
Proof.
  intros Hi HY Hs Hf. pose proof (kown_sub k Hi) as Hown.
  assert (∀ x, x ∈ Y → x ∉ kown k) as HYo by (intros x [_ ?]%HY%elem_of_kframes; done).
  destruct (set_pages_spec k s Hi Hs) as (Hi' & Hl & Hf'); [set_solver|]. split; [done|]. split; [done|].
  apply set_eq. intros x. rewrite Hf', Hf, !elem_of_difference, elem_of_kframes. tauto.
Qed.

Lemma free_pages_spec k a n :
  kinv k → 0 < n → pages_at a n ⊆ kframes k →
  ∃ s, free_pages k a n = Some (set_pages k s) ∧ kinv (set_pages k s) ∧ klive (set_pages k s) = klive k ∧
    kframes (set_pages k s) = kframes k ∖ pages_at a n.
Proof.
  intros Hi Hn Hsub. unfold free_pages.
  assert (∀ i, 0 ≤ i < n → a + i * PAGE_SIZE ∈ kframes k) as Hin by (intros i Hi'; apply Hsub, elem_of_pages_at; eauto).
  destruct (kframes_page k (a + 0 * PAGE_SIZE) Hi) as (? & _ & _); [apply Hin; lia|].
  destruct (kframes_page k (a + (n - 1) * PAGE_SIZE) Hi) as (_ & _ & ?); [apply Hin; lia|].
  destruct (pa_free_pages_ok (pages (k_heap k)) a n) as (s & -> & Hs & Hf); [by apply kinv_pa|lia|lia|]. cbn [mbind option_bind].
  exists s. split; [done|]. by apply drop_spec.
Qed.

Lemma free_page_spec k a :
  kinv k → a ∈ kframes k →
  ∃ s, free_page k a = Some (set_pages k s) ∧ kinv (set_pages k s) ∧ klive (set_pages k s) = klive k ∧
    kframes (set_pages k s) = kframes k ∖ {[a]}.
Proof.
  intros Hi Hin. unfold free_page.
  destruct (pa_free_page_ok (pages (k_heap k)) a) as (s & -> & Hs & Hf & _); [by apply kinv_pa|]. cbn [mbind option_bind].
  exists s. split; [done|]. apply drop_spec; [done|set_solver|done|done].
Qed.

Lemma free_tables_spec k l0 T :
  kinv k → tree_at k l0 T →
  ∃ t, free_tables k l0 = Some (set_pt k t) ∧ kinv (set_pt k t) ∧ klive (set_pt k t) = klive k ∧
    kframes (set_pt k t) = kframes k ∖ map_img T ∧ tabs t = k_tabs k.
Proof.
  intros Hi [Hwf Hs]. unfold free_tables.
  destruct (mmu_free_full (k_pt k) l0 T Hwf) as (t & -> & Et & Hit & Hft). cbn [mbind option_bind frames k_pt] in *.
  exists t. split; [done|]. destruct (drop_spec k (frames t) (map_img T) Hi Hs Hit Hft) as (H1 & H2 & H3). done.
Qed.

(** Areas whose arrays nobody has touched. *)
Lemma vma_wf_frame k k' es :
  vma_wf (k_vm k) es → kinv k' → (∀ v, v ∈ es → v_pages v ∈ klive k' ∧ k_arrs k' !! v_pages v = k_arrs k !! v_pages v) →
  (∀ x, x ∈ resident (k_vm k) es → x ∈ kframes k') → vma_wf (k_vm k') es ∧ resident (k_vm k') es = resident (k_vm k) es.
Proof.
  intros [] Hi Hv Hr.
  assert (resident (k_vm k') es = resident (k_vm k) es) as E by (apply resident_frame; intros v Hin; by apply Hv).
  split; [|done]. constructor; try done; rewrite ?E; try done.
  rewrite Forall_forall in *. intros v Hin. destruct (Hv v Hin). eapply (vma_ok_frame (k_vm k)); [done|done|by apply vw_ok].
Qed.

(** ** Mapped runs *)

(** [rn_n] pages at [rn_va], backed from [rn_pa] on. *)
Record run := mk_run { rn_va : Z; rn_pa : Z; rn_n : Z; rn_flags : Z }.
Definition in_run (r : run) (a : Z) : Prop := rn_va r ≤ a < rn_va r + rn_n r * PAGE_SIZE.
#[global] Instance in_run_dec r a : Decision (in_run r a).
Proof. unfold in_run. apply _. Defined.

Definition run_pte (r : run) (a : Z) : Z := page_desc (rn_pa r + (a - rn_va r) / PAGE_SIZE * PAGE_SIZE) (rn_flags r).

(** What tables show in which these runs were mapped, the first one last. *)
Fixpoint run_view (rs : list run) (a : Z) : option Z :=
  match rs with
  | [] => None
  | r :: rs' => if decide (in_run r a) then Some (run_pte r a) else run_view rs' a
  end.

Definition exact k (l0 : Z) (rs : list run) : Prop := ∀ a, 0 ≤ a < 2 ^ 48 → hw_pte (k_pt k) l0 a = run_view rs a.

(** Mapping stops early only when no page is left. *)
Definition shows k (l0 : Z) (rs : list run) : Prop := exact k l0 rs ∨ starved (pages (k_heap k)).

Lemma shows_map k0 L k l0 T D rs va pa n flags :
  built k0 L k l0 T D → shows k l0 rs → user_range va n → 0 ≤ pa → pa + n * PAGE_SIZE < 2 ^ 64 →
  ∃ k' T', map_range k l0 va pa n flags = Some k' ∧ built k0 L k' l0 T' D ∧ (∃ t, k' = set_pt k t) ∧
    shows k' l0 (mk_run va pa n flags :: rs) ∧
    (∀ a, 0 ≤ a < 2 ^ 48 → ¬ in_run (mk_run va pa n flags) a → hw_pte (k_pt k') l0 a = hw_pte (k_pt k) l0 a) ∧
    ∀ a, 0 ≤ a < 2 ^ 48 → in_run (mk_run va pa n flags) a →
      hw_pte (k_pt k') l0 a = Some (run_pte (mk_run va pa n flags) a) ∨ hw_pte (k_pt k') l0 a = hw_pte (k_pt k) l0 a.
Proof.
  intros Hb Hs Hu H0 H1. destruct (built_map _ _ _ _ _ _ va pa n flags Hb Hu H0 H1) as (k' & T' & j & E & Hb' & Ht & Hj & Hst & Hhw).
  exists k', T'. do 3 (split; [done|]). split.
  - destruct Hst as [->|?]; [|by right]. destruct Hs as [He|Hs]; [left|right; by eapply starved_map].
    intros a Ha. rewrite Hhw, He by done. cbn [run_view]. unfold in_run, run_pte. cbn [rn_va rn_n rn_pa rn_flags]. by repeat case_decide.
  - split; intros a Ha Hn; rewrite Hhw by done.
    + rewrite decide_False; [done|]. unfold in_run in Hn. cbn in Hn. unfold PAGE_SIZE in *. nia.
    + case_decide; [by left|by right].
Qed.

Lemma shows_alloc_page k0 L k l0 T D rs :
  built k0 L k l0 T D → shows k l0 rs →
  ∃ r k', alloc_page k = Some (r, k') ∧
    (r = 0 ∧ k' = k ∨
     0 < r ∧ r mod PAGE_SIZE = 0 ∧ r + PAGE_SIZE ≤ PHYS_LIMIT ∧ (r ∉ kframes k) ∧
     (∃ s, k' = set_pages k s) ∧ built k0 L k' l0 T ({[r]} ∪ D) ∧ exact k' l0 rs).
Proof.
  intros Hb Hs. destruct (built_alloc_page _ _ _ _ _ _ Hb) as (r & k' & E & H). exists r, k'. split; [done|].
  destruct H as [?|(H1 & H2 & H3 & H4 & H5 & H6 & H7)]; [by left|right]. do 6 (split; [done|]).
  destruct Hs as [He|Hs]; [intros a Ha; by rewrite H7, He|]. destruct (starved_alloc _ _ _ E); [lia|done].
Qed.

Lemma shows_alloc_pages k0 L k l0 T D rs n :
  built k0 L k l0 T D → shows k l0 rs → 0 < n →
  ∃ r k', alloc_pages k n = Some (r, k') ∧
    (r = 0 ∧ k' = k ∨
     0 < r ∧ r mod PAGE_SIZE = 0 ∧ r + n * PAGE_SIZE ≤ PHYS_LIMIT ∧ (pages_at r n ## kframes k) ∧
     (∃ s, k' = set_pages k s) ∧ built k0 L k' l0 T (pages_at r n ∪ D) ∧ exact k' l0 rs).
Proof.
  intros Hb Hs Hn. destruct (built_alloc_pages _ _ _ _ _ _ n Hb Hn) as (r & k' & E & H). exists r, k'. split; [done|].
  destruct H as [?|(H1 & H2 & H3 & H4 & H5 & H6 & H7)]; [by left|right]. do 6 (split; [done|]).
  destruct Hs as [He|Hs]; [intros a Ha; by rewrite H7, He|]. exfalso. unfold alloc_pages in E.
  rewrite (pa_alloc_pages_none (pages (k_heap k)) n) in E; [injection E as <- _; lia|apply kinv_pa, Hb|done|done].
Qed.

Lemma built_clear k0 L k l0 T D pa n :
  built k0 L k l0 T D → pages_at pa n ⊆ D → pa mod PAGE_SIZE = 0 → 0 ≤ n → built k0 L (clear_pages k pa n) l0 T D.
Proof. intros Hb Hs Hp Hn. apply (built_write _ _ _ _ _ _ pa n); [done|done|done|]. rewrite length_replicate. unfold PAGE_SIZE. lia. Qed.

Lemma grew_clear k0 L k X pa n :
  grew k0 L k X → pages_at pa n ⊆ X → pa mod PAGE_SIZE = 0 → 0 ≤ n → grew k0 L (clear_pages k pa n) X.
Proof. intros Hg Hs Hp Hn. apply (grew_write_run _ _ _ _ pa n); [done|done|done|]. rewrite length_replicate. unfold PAGE_SIZE. lia. Qed.

Lemma built_free_pages k0 L k l0 T D a n :
  built k0 L k l0 T D → pages_at a n ⊆ D → 0 ≤ a → a + n * PAGE_SIZE ≤ PHYS_LIMIT →
  ∃ k', free_pages k a n = Some k' ∧ built k0 L k' l0 T (D ∖ pages_at a n).
Proof.
  intros Hb Hs H0 H1. pose proof Hb as [Hg Ht Hd].
  destruct (grew_free_pages _ _ k _ a n Hg ltac:(set_solver) H0 H1) as (k' & E & Hg' & [s ->]). eexists. split; [exact E|].
  assert (∀ A B X : gset Z, A ## B → X ⊆ A → (A ∪ B) ∖ X = A ∖ X ∪ B) as Hset by set_solver. rewrite Hset in Hg' by done.
  eapply built_step; [exact Hb|exact Hg'| |done]. clear - Hd. set_solver.
Qed.

(** Writing to memory changes no table. *)
Lemma exact_ram k ram l0 rs : exact k l0 rs → exact (set_ram k ram) l0 rs.
Proof. done. Qed.
Lemma shows_ram k ram l0 rs : shows k l0 rs → shows (set_ram k ram) l0 rs.
Proof. done. Qed.
Lemma exact_shows k l0 rs : exact k l0 rs → shows k l0 rs.
Proof. by left. Qed.
End Frames.
