(* ===== verification/ExecImage.v ===== *)
(** How [sys_exec] in [src/src/syscall/syscall.c] replaces the program of a task:
    the file is opened, measured and read; stack, page tables, program and TLS
    page are built next to the old image ([exec_build]); then the task is
    switched over and the old image is released ([exec_switch]).

    The descriptor calls are the class [ExecFiles]; memory is the state of
    [TaskMem].  [utask] holds the fields of [task_t] that exec replaces. *)
From S2P Require Import Prelude Pmm PageAlloc Heap KernelMem Vma Mmu Elf AddrSpace Vnode Fd UserMem Dirent Syscall Exec Sched TaskMem.

Definition USER_TLS_BASE : Z := 0x00B00000.
Definition EXEC_MAX_BYTES : Z := 2 ^ 20.
Definition stack_flags : Z := Z.lor (Z.lor (Z.lor (PTE_ATTRIDX 1) PTE_AP_RW_EL0) PTE_UXN) PTE_PXN.
Abbreviation STACK_PAGES := AddrSpace.USER_STACK_PAGES.

(** The fields of [task_t] that describe the user image. *)
Record utask := mk_utask {
  u_ttbr0 : Z;
  u_ustack_phys : Z;
  u_tls_phys : Z;
  u_tpidr_el0 : Z;
  u_user_sp : Z;
  u_exec_image : elf_image;
  u_vmas : list vma;
  u_brk_base : Z;
  u_brk_cur : Z;
  u_stack_grown : list (Z * Z);
}.

(** The trap frame that the new program starts from. *)
Record start := mk_start { st_regs : list Z; st_elr : Z; st_spsr : Z; st_sp_el0 : Z }.

(** What exec uses of the descriptors: each call may allocate and free objects of
    the descriptor layer ([xf_owned]) and touches no other. *)
Class ExecFiles (S V : Type) `{!PageAllocator S} := {
  xf_open : V → heap S → list Z → option (Z * (V * heap S));
  xf_seek : V → heap S → Z → Z → Z → option (Z * (V * heap S));
  xf_read : V → heap S → Z → Z → option (Z * list Z * (V * heap S));
  xf_close : V → heap S → Z → option (Z * (V * heap S));
  xf_owned : V → gset Z;
  xf_inv : V → heap S → Prop;
  xf_step v h v' h' : Prop := xf_inv v' h' ∧ heap_inv h' ∧ client_frames h' = client_frames h ∧
    heap_live h' ∖ xf_owned v' = heap_live h ∖ xf_owned v;
  xf_inv_heap v h h' : xf_inv v h → xf_owned v ⊆ heap_live h' → xf_inv v h';
  xf_inv_owned v h : xf_inv v h → xf_owned v ⊆ heap_live h;
  xf_open_ok v h path : xf_inv v h → heap_inv h → ∃ r v' h', xf_open v h path = Some (r, (v', h')) ∧ xf_step v h v' h';
  xf_seek_ok v h fd o w : xf_inv v h → heap_inv h → ∃ r v' h', xf_seek v h fd o w = Some (r, (v', h')) ∧ xf_step v h v' h' ∧ r < 2 ^ 63;
  xf_read_ok v h fd n : xf_inv v h → heap_inv h → 0 ≤ n → ∃ r bs v' h', xf_read v h fd n = Some (r, bs, (v', h')) ∧ xf_step v h v' h' ∧
    Forall is_byte bs ∧ (0 ≤ r → Z.of_nat (length bs) = r);
  xf_close_ok v h fd : xf_inv v h → heap_inv h → ∃ r v' h', xf_close v h fd = Some (r, (v', h')) ∧ xf_step v h v' h';
}.

Section Ops.
Context {S : Type} `{!PageAllocator S}.
Implicit Types (k : kernel S) (u : utask).

(** The loop over [image.regions]. *)
Definition free_image k (img : elf_image) : option (kernel S) :=
  s ← free_loop (pages (k_heap k)) (i_regions img); Some (set_pages k s).

(** ** Building the new image *)

Record image := mk_img { im_l0 : Z; im_elf : elf_image; im_stack : Z; im_tls : Z }.

Definition exec_build (ctr : Z) (img0 : elf_image) (kbuf : list Z) (kp : Z) k : option (option image * kernel S) :=
  '(stack_phys, k) ← alloc_pages k STACK_PAGES;
  if decide (stack_phys = 0) then k ← k_free k kp; Some (None, k)
  else
    let k := clear_pages k stack_phys STACK_PAGES in
    '(new_l0, k) ← create_tables k;
    if decide (new_l0 = 0) then k ← free_pages k stack_phys STACK_PAGES; k ← k_free k kp; Some (None, k)
    else
      '(r, (img, l)) ← elf_load ctr kbuf (Z.of_nat (length kbuf)) new_l0 img0 (k_ld k);
      let k := set_ld k l in
      if decide (r < 0) then
        k ← free_tables k new_l0; k ← free_pages k stack_phys STACK_PAGES; k ← k_free k kp; Some (None, k)
      else
        k ← k_free k kp;
        k ← map_range k new_l0 stack_user_lo stack_phys STACK_PAGES stack_flags;
        '(new_tls, k) ← alloc_page k;
        if decide (new_tls = 0) then
          k ← free_tables k new_l0; k ← free_pages k stack_phys STACK_PAGES; k ← free_image k img; Some (None, k)
        else
          let k := clear_pages k new_tls 1 in
          k ← map_range k new_l0 USER_TLS_BASE new_tls 1 stack_flags;
          Some (Some (mk_img new_l0 img stack_phys new_tls), k).

(** ** Switching over *)

Definition exec_start (lay : exec_layout) (argc : Z) (img : elf_image) : start :=
  mk_start (argc :: (new_sp lay + 8) :: (new_sp lay + envp_off lay) :: replicate 28 0) (i_entry img) 0 (new_sp lay).

Definition tlbi_aside1 k (ttbr0 : Z) : kernel S :=
  if decide (ttbr_asid ttbr0 ≠ 0) then
    mk_kernel (k_heap k) (k_arrs k) (k_tabs k) (k_ram k) (k_tlbi k) (k_asids k ++ [shl64 (ttbr_asid ttbr0) TTBR_ASID_SHIFT]) (k_dc k) (k_ic k) (k_sched k)
  else k.

Definition release_old k u : option (kernel S) :=
  k ← (if decide (u_ustack_phys u ≠ 0) then free_pages k (u_ustack_phys u) STACK_PAGES else Some k);
  k ← (if decide (u_tls_phys u ≠ 0) then free_page k (u_tls_phys u) else Some k);
  k ← free_image k (u_exec_image u);
  if decide (u_ttbr0 u ≠ 0) then free_tables (tlbi_aside1 k (u_ttbr0 u)) (ttbr_baddr (u_ttbr0 u)) else Some k.

Definition exec_switch (lay : exec_layout) (args : exec_args) (random : list Z) (im : image) k u : option (start * kernel S * utask) :=
  let '(asid, _, sc) := sched_asid_alloc (k_sched k) in
  let k := set_sched k sc in
  '(vm, es) ← vma_destroy (k_vm k) (u_vmas u);
  let k := set_vm k vm in
  let u' := mk_utask (ttbr_pack (im_l0 im) asid) (im_stack im) (im_tls im) USER_TLS_BASE USER_STACK_TOP (im_elf im) vma_init
              USER_BRK_BASE USER_BRK_BASE [] in
  stk ← write_stack (mem_read (k_ram k) (im_stack im) (STACK_PAGES * PAGE_SIZE)) lay args (im_elf im) random;
  let k := set_ram k (mem_write (k_ram k) (im_stack im) stk) in
  k ← release_old k u;
  Some (exec_start lay (Z.of_nat (length (arg_offsets args))) (im_elf im), k, u').

(** ** The whole call, from the captured arguments on *)

Context {V : Type} `{!ExecFiles S V}.

(** The descriptor calls on the heap of the kernel. *)
Definition on_heap {A} k (f : heap S → option (A * (V * heap S))) : option (A * V * kernel S) :=
  '(a, (v, h)) ← f (k_heap k); Some (a, v, set_heap k h).

(** The file in a kernel buffer: its bytes and the buffer. *)
Definition exec_read (v : V) k (path : list Z) : option (option (list Z * Z) * V * kernel S) :=
  '(fd, v, k) ← on_heap k (λ h, xf_open v h path);
  if decide (fd < 0) then Some (None, v, k)
  else
    '(sz, v, k) ← on_heap k (λ h, xf_seek v h fd 0 SEEK_END);
    '(_, v, k) ← on_heap k (λ h, xf_seek v h fd 0 SEEK_SET);
    if decide (sz ≤ 0 ∨ EXEC_MAX_BYTES < sz) then '(_, v, k) ← on_heap k (λ h, xf_close v h fd); Some (None, v, k)
    else
      '(kp, k) ← k_malloc k sz;
      if decide (kp = 0) then '(_, v, k) ← on_heap k (λ h, xf_close v h fd); Some (None, v, k)
      else
        '(got, bs, v, k) ← on_heap k (λ h, xf_read v h fd sz);
        '(_, v, k) ← on_heap k (λ h, xf_close v h fd);
        if decide (got ≠ sz) then k ← k_free k kp; Some (None, v, k)
        else Some (Some (bs, kp), v, k).

Definition exec_image (ctr : Z) (img0 : elf_image) (random : list Z) (v : V) k u (path : list Z) (args : exec_args) :
    option (option start * V * kernel S * utask) :=
  match plan_stack (Z.of_nat (length (arg_offsets args))) (Z.of_nat (length (arg_kbuf args))) with
  | None => Some (None, v, k, u)
  | Some lay =>
      '(r, v, k) ← exec_read v k path;
      match r with
      | None => Some (None, v, k, u)
      | Some (kbuf, kp) =>
          '(r, k) ← exec_build ctr img0 kbuf kp k;
          match r with
          | None => Some (None, v, k, u)
          | Some im => '(s, k, u) ← exec_switch lay args random im k u; Some (Some s, v, k, u)
          end
      end
  end.
End Ops.

(** ** The frames of an image *)

Definition image_frames (img : elf_image) : gset Z := ⋃ ((λ r, pages_at (r_phys r) (r_pages r)) <$> i_regions img).

Definition region_good (r : elf_region) : Prop := 0 < r_phys r ∧ 0 < r_pages r ∧ r_phys r + r_pages r * PAGE_SIZE ≤ PHYS_LIMIT.

Lemma elem_of_image_frames img x : x ∈ image_frames img ↔ ∃ r, r ∈ i_regions img ∧ x ∈ pages_at (r_phys r) (r_pages r).
Proof.
  unfold image_frames. rewrite elem_of_union_list. split.
  - intros (X & (r & -> & Hr)%list_elem_of_fmap & Hx). eauto.
  - intros (r & Hr & Hx). exists (pages_at (r_phys r) (r_pages r)). split; [|done]. apply list_elem_of_fmap. eauto.
Qed.

(** A page-aligned run of bytes that was just cleared. *)
Lemma clear_lookup ram pa n x :
  0 ≤ n → mem_write ram pa (replicate (Z.to_nat (n * PAGE_SIZE)) 0) !! x =
    if decide (pa ≤ x < pa + n * PAGE_SIZE) then Some 0 else ram !! x.
Proof.
  intros Hn. rewrite mem_write_lookup, length_replicate, Z2Nat.id by (unfold PAGE_SIZE; lia).
  case_decide as Hx; [|done]. apply lookup_replicate_2. unfold PAGE_SIZE in *. lia.
Qed.

Lemma stack_range : user_range stack_user_lo STACK_PAGES.
Proof. unfold user_range, stack_user_lo, USER_STACK_TOP, STACK_PAGES, PAGE_SIZE. split_and!; done || lia. Qed.

Lemma tls_range : user_range USER_TLS_BASE 1.
Proof. unfold user_range, USER_TLS_BASE, PAGE_SIZE. split_and!; done || lia. Qed.

Lemma parts_disjoint (A C E : gset Z) (t : Z) :
  A ## C → (t ∉ A ∪ C) → A ∪ {[t]} ∪ C ## E → pairwise (##) [A; {[t]}; C; E; ∅; ∅].
Proof. intros H1 H2 H3. cbn [pairwise]. rewrite !Forall_cons, !Forall_nil. split_and!; done || set_solver. Qed.

Lemma swap_frames (N F P R O : gset Z) : O = P ∪ R → N ## O → (N ∪ F) ∖ R ∖ P = N ∪ (F ∖ O).
Proof. intros -> Hd. set_solver. Qed.

Lemma union_minus (A B : gset Z) : A ## B → (A ∪ B) ∖ A = B.
Proof. set_solver. Qed.

Section Build.
Context {S : Type} `{!PageAllocator S}.
Implicit Types (k : kernel S) (u : utask) (T : tree).

Lemma loaded_image ctr kbuf l0 st0 T0 segs (img : elf_image) st T :
  loaded (S := S) ctr kbuf l0 st0 T0 segs (i_regions img) st T →
  ⋃ (seg_frames <$> segs) = image_frames img ∧ Forall region_good (i_regions img).
Proof.
  intros Hld. pose proof (ld_segs _ _ _ _ _ _ _ _ _ Hld) as Hok. rewrite Forall_forall in Hok. split.
  - apply set_eq. intros x. rewrite elem_of_image_frames, (ld_regions _ _ _ _ _ _ _ _ _ Hld), elem_of_union_list. split.
    + intros (X & (sg & -> & Hs)%list_elem_of_fmap & Hx). exists (s_r sg). split; [|done]. apply list_elem_of_fmap. exists sg. by rewrite elem_of_reverse.
    + intros (r & (sg & -> & Hs)%list_elem_of_fmap & Hx). rewrite elem_of_reverse in Hs. exists (seg_frames sg). split; [|done]. apply list_elem_of_fmap. eauto.
  - apply Forall_forall. intros r Hr. destruct (loaded_region _ _ _ _ _ _ _ _ _ r Hld Hr) as (sg & _ & <- & Hg).
    destruct sg as [ph r' j]. destruct Hg as (_ & _ & _ & _ & _ & ? & ? & _ & ? & _). done.
Qed.

Lemma free_image_spec k img :
  kinv k → Forall region_good (i_regions img) →
  ∃ s, free_image k img = Some (set_pages k s) ∧ pa_inv s ∧ pa_frames s = pa_frames (pages (k_heap k)) ∖ image_frames img.
Proof.
  intros Hi Hr. unfold free_image. destruct (free_loop_spec (pages (k_heap k)) (i_regions img)) as (s & -> & Hs & Hf); [by apply kinv_pa|done|].
  cbn [mbind option_bind]. exists s. split; [done|]. split; [done|]. apply set_eq. intros x. rewrite Hf, elem_of_difference, elem_of_image_frames. naive_solver.
Qed.

(** What the finished image looks like. *)
Record exec_built (ctr : Z) (kbuf : list Z) k0 (L : gset Z) k (im : image) T : Prop := {
  xb_built : built k0 L k (im_l0 im) T (pages_at (im_stack im) STACK_PAGES ∪ {[im_tls im]} ∪ image_frames (im_elf im));
  xb_l0 : im_l0 im ≠ 0;
  xb_stack : 0 < im_stack im ∧ im_stack im mod PAGE_SIZE = 0 ∧ im_stack im + STACK_PAGES * PAGE_SIZE ≤ PHYS_LIMIT;
  xb_tls : 0 < im_tls im ∧ im_tls im mod PAGE_SIZE = 0 ∧ im_tls im + PAGE_SIZE ≤ PHYS_LIMIT;
  xb_disj : (pages_at (im_stack im) STACK_PAGES ## image_frames (im_elf im)) ∧
    (im_tls im ∉ pages_at (im_stack im) STACK_PAGES ∪ image_frames (im_elf im));
  xb_image : Forall region_good (i_regions (im_elf im));
  xb_stack_ram x : im_stack im ≤ x < im_stack im + STACK_PAGES * PAGE_SIZE → k_ram k !! x = Some 0;
  xb_tls_ram x : im_tls im ≤ x < im_tls im + PAGE_SIZE → k_ram k !! x = Some 0;
  xb_elf : ∃ eh segs st Tb l Te j, read_ehdr kbuf = Some eh ∧ elf_loaded ctr kbuf (im_l0 im) st Tb eh segs (im_elf im) l Te ∧
    (∀ x, x / PAGE_SIZE * PAGE_SIZE ∈ image_frames (im_elf im) → k_ram k !! x = ld_ram l !! x) ∧
    (∀ a, 0 ≤ a < 2 ^ 48 → hw_pte (ld_pt st) (im_l0 im) a = None) ∧
    (¬ starved (frames (ld_pt l))) ∧ (j = 1 ∨ starved (pages (k_heap k))) ∧ 0 ≤ j ≤ 1 ∧
    ∀ a, 0 ≤ a < 2 ^ 48 → hw_pte (k_pt k) (im_l0 im) a =
      if decide (USER_TLS_BASE ≤ a < USER_TLS_BASE + j * PAGE_SIZE) then Some (page_desc (im_tls im + (a - USER_TLS_BASE) / PAGE_SIZE * PAGE_SIZE) stack_flags)
      else if decide (stack_user_lo ≤ a < stack_user_lo + STACK_PAGES * PAGE_SIZE) then Some (page_desc (im_stack im + (a - stack_user_lo) / PAGE_SIZE * PAGE_SIZE) stack_flags)
      else view segs (hw_pte (ld_pt st) (im_l0 im)) a;
}.

Lemma exec_build_spec ctr img0 kbuf kp k :
  kinv k → kp ∈ klive k → Forall is_byte kbuf → Z.of_nat (length kbuf) < 2 ^ 63 →
  ∃ r k', exec_build ctr img0 kbuf kp k = Some (r, k') ∧
    match r with
    | None => grew k (klive k ∖ {[kp]}) k' ∅
    | Some im => ∃ T, exec_built ctr kbuf k (klive k ∖ {[kp]}) k' im T
    end.
Proof.
  intros Hi Hkp Hbytes Hlen. unfold exec_build.
  assert (0 < STACK_PAGES) as Hsp by (unfold STACK_PAGES; lia).
  destruct (grew_alloc_pages k (klive k) k ∅ STACK_PAGES (grew_refl k Hi) Hsp) as (sp & k1 & -> & H1). cbn [mbind option_bind].
  destruct H1 as [[-> ->]|(Hs1 & Hs2 & Hs3 & Hs4 & [s ->] & Hg1)].
  { rewrite decide_True by done. destruct (grew_kfree k (klive k) k ∅ kp (grew_refl k Hi) Hkp) as (k2 & -> & Hg & _). cbn [mbind option_bind]. exists None, k2. split; [reflexivity|exact Hg]. }
  rewrite decide_False by lia. rewrite union_empty_r_L in Hg1.
  assert (length (replicate (Z.to_nat (STACK_PAGES * PAGE_SIZE)) 0) = Z.to_nat (STACK_PAGES * PAGE_SIZE)) as Hrl by apply length_replicate.
  assert (Z.of_nat (length (replicate (Z.to_nat (STACK_PAGES * PAGE_SIZE)) 0)) ≤ STACK_PAGES * PAGE_SIZE) as Hrl' by (rewrite Hrl; unfold STACK_PAGES, PAGE_SIZE; lia).
  pose proof (grew_write_run _ _ _ _ sp STACK_PAGES _ Hg1 ltac:(done) Hs2 Hrl') as Hg2. fold (clear_pages (set_pages k s) sp STACK_PAGES) in Hg2.
  set (k2 := clear_pages _ sp STACK_PAGES) in *.
  destruct (built_create _ _ k2 _ Hg2) as (l0 & k3 & -> & H3). cbn [mbind option_bind].
  destruct H3 as [[-> ->]|(Hl0 & Hb3 & Hr3 & Hhw3)].
  { rewrite decide_True by done. destruct (grew_free_pages _ _ k2 _ sp STACK_PAGES Hg2 ltac:(done) ltac:(lia) Hs3) as (k4 & -> & Hg4 & _). cbn [mbind option_bind].
    rewrite difference_diag_L in Hg4. destruct (grew_kfree _ _ k4 ∅ kp Hg4 Hkp) as (k5 & -> & Hg & _). cbn [mbind option_bind]. exists None, k5. split; [reflexivity|exact Hg]. }
  rewrite decide_False by done.
  destruct (built_elf _ _ k3 l0 _ _ ctr kbuf img0 Hb3 Hbytes Hlen) as (r & img & l & -> & H4). cbn [mbind option_bind].
  destruct H4 as [[-> [T4 Hb4]]|(-> & eh & segs & T4 & Eeh & Hel & Hb4 & Ept4)].
  { rewrite decide_True by lia. destruct (grew_free_tables _ _ _ _ _ _ Hb4) as (k5 & -> & Hg5 & _). cbn [mbind option_bind].
    destruct (grew_free_pages _ _ k5 _ sp STACK_PAGES Hg5 ltac:(done) ltac:(lia) Hs3) as (k6 & -> & Hg6 & _). cbn [mbind option_bind].
    rewrite difference_diag_L in Hg6. destruct (grew_kfree _ _ k6 ∅ kp Hg6 Hkp) as (k7 & -> & Hg & _). cbn [mbind option_bind]. exists None, k7. split; [reflexivity|exact Hg]. }
  rewrite decide_False by lia. pose proof Hel as (_ & Hld & _).
  destruct (loaded_image _ _ _ _ _ _ _ _ _ Hld) as [Hsf Hgood]. rewrite Hsf in Hb4.
  assert (pages_at sp STACK_PAGES ## image_frames img) as Hsd.
  { rewrite <- Hsf. intros x Hx (X & (sg & -> & Hin)%list_elem_of_fmap & Hy)%elem_of_union_list.
    apply (ld_fresh _ _ _ _ _ _ _ _ _ Hld sg Hin x Hy). apply elem_of_difference. split; [|exact (λ H, bt_data _ _ _ _ _ _ Hb3 x Hx H)].
    apply kframes_sub. rewrite (gw_frames _ _ _ _ (bt_grew _ _ _ _ _ _ Hb3)). apply elem_of_union_l, elem_of_union_l. done. }
  destruct (built_kfree _ _ _ _ _ _ kp Hb4 Hkp) as (k5 & E5 & Hb5 & [h5 ->] & Hhw5). rewrite E5. cbn [mbind option_bind].
  destruct (built_map _ _ _ _ _ _ stack_user_lo sp STACK_PAGES stack_flags Hb5) as (k6 & T6 & j1 & E6 & Hb6 & [t6 ->] & Hj1 & Hj1' & Hhw6);
    [exact stack_range|lia|unfold PHYS_LIMIT in *; lia|]. rewrite E6. cbn [mbind option_bind].
  destruct (built_alloc_page _ _ _ _ _ _ Hb6) as (tls & k7 & E7 & H7). rewrite E7. cbn [mbind option_bind].
  destruct H7 as [[-> ->]|(Ht1 & Ht2 & Ht3 & Ht4 & [s7 ->] & Hb7 & Hhw7)].
  { rewrite decide_True by done. destruct (grew_free_tables _ _ _ _ _ _ Hb6) as (k8 & -> & Hg8 & _). cbn [mbind option_bind].
    destruct (grew_free_pages _ _ k8 _ sp STACK_PAGES Hg8 (union_subseteq_l _ _) ltac:(lia) Hs3) as (k9 & -> & Hg9 & _). cbn [mbind option_bind].
    destruct (free_image_spec k9 img) as (s9 & -> & Hs9 & Hf9); [apply Hg9|done|]. cbn [mbind option_bind].
    exists None. eexists. split; [done|].
    rewrite union_minus in Hg9 by done.
    pose proof (grew_drop _ _ k9 _ s9 (image_frames img) Hg9 ltac:(done) Hs9 Hf9) as Hg10. by rewrite difference_diag_L in Hg10. }
  rewrite decide_False by lia. assert (tls ≠ 0) as Htn by lia. pose proof (starved_alloc _ _ _ E7 Htn) as Hns. destruct Hj1' as [->|Hst1]; [|destruct (Hns Hst1)].
  assert (¬ starved (frames (ld_pt l))) as Hnl.
  { intros Hst. apply Hns. eapply starved_map; [|exact E6]. rewrite (k_free_pages (set_ld k3 l) kp _ (gw_inv _ _ _ _ (bt_grew _ _ _ _ _ _ Hb4))); [exact Hst| |exact E5].
    rewrite (gw_live _ _ _ _ (bt_grew _ _ _ _ _ _ Hb4)). exact Hkp. }
  assert (tls ∉ pages_at sp STACK_PAGES ∪ image_frames img) as Htd.
  { intros Hx. apply Ht4. rewrite (gw_frames _ _ _ _ (bt_grew _ _ _ _ _ _ Hb6)). apply elem_of_union_l, elem_of_union_l. done. }
  pose proof (built_write _ _ _ _ _ _ tls 1 (replicate (Z.to_nat (1 * PAGE_SIZE)) 0) Hb7) as Hb8.
  rewrite pages_at_1 in Hb8. specialize (Hb8 (union_subseteq_l _ _) Ht2 ltac:(rewrite length_replicate; unfold PAGE_SIZE; lia)).
  set (k8 := set_ram _ _) in Hb8. change (clear_pages _ tls 1) with k8.
  destruct (built_map _ _ k8 _ _ _ USER_TLS_BASE tls 1 stack_flags Hb8) as (k9 & T9 & j2 & -> & Hb9 & [t9 ->] & Hj2 & Hj2' & Hhw9);
    [exact tls_range|lia|unfold PHYS_LIMIT, PAGE_SIZE in *; lia|]. cbn [mbind option_bind].
  eexists (Some _), _. split; [reflexivity|]. exists T9.
  assert (∀ x, k_ram k8 !! x = if decide (tls ≤ x < tls + PAGE_SIZE) then Some 0 else ld_ram l !! x) as Hram.
  { intros x. unfold k8. cbn [k_ram set_ram]. rewrite clear_lookup by lia. by rewrite Z.mul_1_l. }
  assert (∀ x, x / PAGE_SIZE * PAGE_SIZE ∈ pages_at sp STACK_PAGES ∪ image_frames img → ¬ (tls ≤ x < tls + PAGE_SIZE)) as Hout.
  { intros x Hx Hr. apply Htd. assert (tls = x / PAGE_SIZE * PAGE_SIZE) as -> by (clear - Ht2 Hr; unfold PAGE_SIZE in *; dlia). done. }
  constructor; cbn [im_l0 im_stack im_tls im_elf].
  - by replace (pages_at sp STACK_PAGES ∪ {[tls]} ∪ image_frames img) with ({[tls]} ∪ (pages_at sp STACK_PAGES ∪ image_frames img)) by (clear; set_solver).
  - exact Hl0.
  - exact (conj Hs1 (conj Hs2 Hs3)).
  - exact (conj Ht1 (conj Ht2 Ht3)).
  - exact (conj Hsd Htd).
  - exact Hgood.
  - intros x Hx. cbn [k_ram set_pt]. pose proof (pages_at_bytes sp STACK_PAGES x Hs2 Hx) as Hp. rewrite Hram, decide_False by (apply Hout, elem_of_union_l, Hp).
    destruct (loaded_kept _ _ _ _ _ _ _ _ _ Hld) as [_ K2]. rewrite K2.
    + cbn [ld_ram k_ld]. rewrite Hr3. unfold k2. cbn [k_ram set_ram clear_pages]. rewrite clear_lookup by lia. by rewrite decide_True.
    + apply elem_of_difference. split; [|exact (λ H, bt_data _ _ _ _ _ _ Hb3 _ Hp H)].
      apply kframes_sub. rewrite (gw_frames _ _ _ _ (bt_grew _ _ _ _ _ _ Hb3)). apply elem_of_union_l, elem_of_union_l, Hp.
  - intros x Hx. cbn [k_ram set_pt]. by rewrite Hram, decide_True.
  - exists eh, segs, (k_ld k3), {[ [] := l0 ]}, l, T4, j2. split; [done|]. split; [done|]. split; [|split; [exact Hhw3|]].
    + intros x Hx. cbn [k_ram set_pt]. rewrite Hram, decide_False; [done|]. by apply Hout, elem_of_union_r.
    + do 3 (split; [done|]). intros a Ha. rewrite Hhw9 by done. case_decide; [done|].
      change (hw_pte (k_pt k8) l0 a) with (hw_pte (k_pt (set_pages (set_pt (set_heap (set_ld k3 l) h5) t6) s7)) l0 a). rewrite Hhw7, Hhw6 by done.
      case_decide; [done|]. rewrite Hhw5, Ept4. by apply (ld_hw _ _ _ _ _ _ _ _ _ Hld).
Qed.
End Build.

(** ** What a task owns *)

Section Owns.
Context {S : Type} `{!PageAllocator S}.
Implicit Types (k : kernel S) (u : utask) (T : tree).

Definition some_pages (a n : Z) : gset Z := if decide (a = 0) then ∅ else pages_at a n.
Definition grown_frames u : gset Z := list_to_set (fst <$> u_stack_grown u).

(** The five parts that exec releases, and the stack pages added on demand. *)
Definition parts k u T : list (gset Z) :=
  [some_pages (u_ustack_phys u) STACK_PAGES; some_pages (u_tls_phys u) 1; image_frames (u_exec_image u);
   map_img T; list_to_set (resident (k_vm k) (u_vmas u))].

Definition owned k u T : gset Z := ⋃ (parts k u T).

Record owns k u T : Prop := {
  ow_inv : kinv k;
  ow_sub : owned k u T ∪ grown_frames u ⊆ kframes k;
  ow_disj : pairwise (##) (parts k u T ++ [grown_frames u]);
  ow_tree : if decide (u_ttbr0 u = 0) then T = ∅ else tree_at k (ttbr_baddr (u_ttbr0 u)) T;
  ow_image : Forall region_good (i_regions (u_exec_image u));
  ow_vmas : vma_wf (k_vm k) (u_vmas u);
}.

(** A task whose frames and page arrays nobody has touched still owns them. *)
Lemma owns_frame k k' u T :
  owns k u T → kinv k' → owned k u T ∪ grown_frames u ⊆ kframes k' →
  (∀ q, q ∈ (map_img T : gset Z) → k_tabs k' !! q = k_tabs k !! q) →
  (∀ v, v ∈ u_vmas u → v_pages v ∈ klive k' ∧ k_arrs k' !! v_pages v = k_arrs k !! v_pages v) → owns k' u T ∧ owned k' u T = owned k u T.
Proof.
  intros [H1 H2 H3 H4 H5 H6] Hi Hs Ht Hv.
  assert (map_img T ⊆ owned k u T ∧ (list_to_set (resident (k_vm k) (u_vmas u)) : gset Z) ⊆ owned k u T) as [HT HR].
  { unfold owned, parts. cbn. set_solver. }
  destruct (vma_wf_frame k k' (u_vmas u) H6 Hi Hv) as [Hwf E].
  { intros x Hx. apply Hs, elem_of_union_l, HR. by apply elem_of_list_to_set. }
  assert (parts k' u T = parts k u T) as Ep by (unfold parts; by rewrite E).
  split; [|unfold owned; by rewrite Ep]. constructor; rewrite ?Ep; try done.
  - unfold owned. by rewrite Ep.
  - case_decide; [done|]. eapply tree_frame; [done|done| |done]. etrans; [exact HT|]. set_solver.
Qed.

(** The four parts of [release_old]. *)
Lemma release_old_spec k u T :
  kinv k →
  let ps := [some_pages (u_ustack_phys u) STACK_PAGES; some_pages (u_tls_phys u) 1; image_frames (u_exec_image u); map_img T] in
  ⋃ ps ⊆ kframes k → pairwise (##) ps →
  (if decide (u_ttbr0 u = 0) then T = ∅ else tree_at k (ttbr_baddr (u_ttbr0 u)) T) → Forall region_good (i_regions (u_exec_image u)) →
  ∃ k', release_old k u = Some k' ∧ kinv k' ∧ klive k' = klive k ∧ kframes k' = kframes k ∖ ⋃ ps ∧
    k_tabs k' = k_tabs k ∧ k_ram k' = k_ram k ∧ k_arrs k' = k_arrs k ∧ k_sched k' = k_sched k.
Proof.
  intros Hi ps Hsub Hd Ht Hg. unfold ps in *. cbn in Hsub, Hd. rewrite !Forall_cons in Hd. cbn [union_list foldr].
  destruct Hd as ((D1 & D2 & D3 & _) & (D4 & D5 & _) & (D6 & _) & _ & _).
  set (A := some_pages (u_ustack_phys u) STACK_PAGES) in *. set (B := some_pages (u_tls_phys u) 1) in *.
  set (C := image_frames (u_exec_image u)) in *. set (E := map_img T) in *. unfold release_old.
  assert (∃ k1, (if decide (u_ustack_phys u ≠ 0) then free_pages k (u_ustack_phys u) STACK_PAGES else Some k) = Some k1 ∧
    kinv k1 ∧ klive k1 = klive k ∧ kframes k1 = kframes k ∖ A ∧ ∃ s, k1 = set_pages k s) as (k1 & -> & Hi1 & Hl1 & Hf1 & [s1 ->]).
  { unfold A, some_pages. destruct (decide (u_ustack_phys u = 0)) as [E0|E0].
    - rewrite decide_False by tauto. exists k. split; [done|]. rewrite difference_empty_L. do 3 (split; [done|]). exists (pages (k_heap k)). by rewrite set_pages_same.
    - rewrite decide_True by done. destruct (free_pages_spec k (u_ustack_phys u) STACK_PAGES) as (s & -> & ? & ? & ?); [done|unfold STACK_PAGES; lia| |].
      + assert (A = pages_at (u_ustack_phys u) STACK_PAGES) as <- by (unfold A, some_pages; by rewrite decide_False). set_solver.
      + eexists. eauto 6. }
  cbn [mbind option_bind]. set (k1 := set_pages k s1) in *.
  assert (∃ k2, (if decide (u_tls_phys u ≠ 0) then free_page k1 (u_tls_phys u) else Some k1) = Some k2 ∧
    kinv k2 ∧ klive k2 = klive k ∧ kframes k2 = kframes k1 ∖ B ∧ ∃ s, k2 = set_pages k1 s) as (k2 & -> & Hi2 & Hl2 & Hf2 & [s2 ->]).
  { unfold B, some_pages. rewrite pages_at_1. destruct (decide (u_tls_phys u = 0)) as [E0|E0].
    - rewrite decide_False by tauto. exists k1. split; [done|]. rewrite difference_empty_L. do 3 (split; [done|]). exists (pages (k_heap k1)). by rewrite set_pages_same.
    - rewrite decide_True by done. destruct (free_page_spec k1 (u_tls_phys u)) as (s & -> & ? & ? & ?); [done| |eexists; eauto 6].
      assert (B = {[u_tls_phys u]}) as HB by (unfold B, some_pages; by rewrite decide_False, pages_at_1). rewrite Hf1. set_solver. }
  cbn [mbind option_bind]. set (k2 := set_pages k1 s2) in *.
  destruct (free_image_spec k2 (u_exec_image u) Hi2 Hg) as (s3 & -> & Hs3 & Hf3'). cbn [mbind option_bind].
  destruct (drop_spec k2 s3 C Hi2) as (Hi3 & Hl3 & Hf3); [rewrite Hf2, Hf1; set_solver|done|done|]. set (k3 := set_pages k2 s3) in *.
  assert (kframes k ∖ (A ∪ (B ∪ (C ∪ (E ∪ ∅)))) = kframes k3 ∖ E) as HF by (rewrite Hf3, Hf2, Hf1; clear; set_solver).
  destruct (decide (u_ttbr0 u = 0)) as [E0|E0].
  { subst T. rewrite decide_False by tauto. exists k3. split; [done|]. split; [done|]. split; [by rewrite Hl3|]. split; [|done]. rewrite HF. unfold E. rewrite map_img_empty_L. clear; set_solver. }
  rewrite decide_True by done.
  assert (E ⊆ kframes k3) as HE by (rewrite Hf3, Hf2, Hf1; clear - Hsub D3 D5 D6; set_solver).
  assert (tree_at k3 (ttbr_baddr (u_ttbr0 u)) T) as Ht3 by (by eapply tree_frame).
  set (k4 := tlbi_aside1 k3 (u_ttbr0 u)).
  assert (k_heap k4 = k_heap k3 ∧ k_tabs k4 = k_tabs k3 ∧ k_ram k4 = k_ram k3 ∧ k_arrs k4 = k_arrs k3 ∧ k_sched k4 = k_sched k3) as (E1 & E2 & E3 & E4 & E5).
  { unfold k4, tlbi_aside1. by case_decide. }
  assert (kinv k4 ∧ kframes k4 = kframes k3 ∧ klive k4 = klive k3) as (Hi4 & Hf4 & Hl4) by (unfold kinv, kframes, klive; by rewrite E1).
  destruct (free_tables_spec k4 (ttbr_baddr (u_ttbr0 u)) T Hi4) as (t & -> & Hi5 & Hl5 & Hf5 & Et).
  { eapply tree_frame; [exact Ht3|done|by rewrite Hf4|]. intros q _. by rewrite E2. }
  eexists. split; [done|]. split; [done|]. rewrite Hl5, Hl4, Hl3, Hf5, Hf4, HF. cbn [k_tabs k_ram k_arrs k_sched set_pt]. rewrite Et, E2, E3, E4, E5. done.
Qed.

(** ** The switch *)

(** The layout that fits the arguments. *)
Definition fits (lay : exec_layout) (strs : list (list Z)) : Prop :=
  let argc := Z.of_nat (length strs) in
  envp_off lay = 16 + 8 * argc ∧ auxv_off lay = 24 + 8 * argc ∧ stack_user_lo ≤ new_sp lay ∧
  new_sp lay + 24 + 8 * argc + 16 * aux_max ≤ strings_lo lay ∧ strings_lo lay + Z.of_nat (length (packed strs)) + 16 ≤ USER_STACK_TOP.

Lemma stack_image_length lay strs img random :
  fits lay strs → (length random ≤ 16)%nat → Z.of_nat (length (stack_image lay strs img random)) = STACK_PAGES * PAGE_SIZE.
Proof.
  intros (_ & _ & H1 & H2 & H3) Hr. unfold stack_image, aux_max in *. assert (USER_STACK_TOP = stack_user_lo + STACK_BYTES) as E by done.
  change (STACK_PAGES * PAGE_SIZE) with STACK_BYTES. assert (0 ≤ STACK_BYTES) as H0 by done.
  assert (length (replicate (Z.to_nat STACK_BYTES) 0) = Z.to_nat STACK_BYTES) as Ez by apply length_replicate.
  set (z := replicate (Z.to_nat STACK_BYTES) 0) in *. clearbody z.
  assert (length (random_area random) = 16)%nat as Era by (unfold random_area; rewrite length_app, length_drop, length_replicate; lia).
  assert (Z.of_nat (length (frame_bytes lay strs img)) ≤ 24 + 8 * Z.of_nat (length strs) + 272) as Hf.
  { unfold frame_bytes. pose proof (aux_pairs_length img (Z.of_nat (length strs)) (strings_lo lay) (strings_lo lay + Z.of_nat (length (packed strs)))).
    rewrite length_app, words_length, pairs_length, length_app, length_replicate. cbn [length]. rewrite length_app, length_fmap, offsets_length. cbn [length]. unfold aux_max. lia. }
  assert (length (splice z (strings_lo lay - stack_user_lo) (packed strs ++ random_area random)) = length z) as E1.
  { apply splice_length; [lia|]. rewrite Ez, length_app, Era. lia. }
  rewrite splice_length; [rewrite E1, Ez; lia|lia|rewrite E1, Ez; lia].
Qed.

Definition exec_task (im : image) (asid : Z) : utask :=
  mk_utask (ttbr_pack (im_l0 im) asid) (im_stack im) (im_tls im) USER_TLS_BASE USER_STACK_TOP (im_elf im) [] USER_BRK_BASE USER_BRK_BASE [].

Definition image_parts (im : image) : gset Z := pages_at (im_stack im) STACK_PAGES ∪ {[im_tls im]} ∪ image_frames (im_elf im).

Lemma zero_stack_read k im :
  (∀ x, im_stack im ≤ x < im_stack im + STACK_PAGES * PAGE_SIZE → k_ram k !! x = Some 0) →
  mem_read (k_ram k) (im_stack im) (STACK_PAGES * PAGE_SIZE) = zero_stack.
Proof.
  intros H. unfold mem_read, zero_stack. set (n := STACK_PAGES * PAGE_SIZE) in *. clearbody n. apply list_eq. intros i. rewrite list_lookup_fmap.
  destruct (decide (i < Z.to_nat n)%nat) as [Hi|Hi].
  - rewrite (proj2 (lookup_seqZ _ _ _ (Z.of_nat i))) by lia. cbn. rewrite H by lia. symmetry. by apply lookup_replicate_2.
  - rewrite !lookup_ge_None_2; [done|rewrite length_replicate; lia|rewrite length_seqZ; lia].
Qed.

Lemma vma_wf_nil k : kinv k → vma_wf (k_vm k) [].
Proof. intros Hi. constructor; cbn; try done; [unfold VMA_MAX_PER_TASK; lia|constructor| |constructor]. intros x []%not_elem_of_nil. Qed.

(** A task with a fresh image and nothing else owns it. *)
Lemma image_owns k im T asid :
  kinv k → tree_at k (im_l0 im) T → 0 < im_stack im → 0 < im_tls im → 0 ≤ asid < 2 ^ 16 →
  (pages_at (im_stack im) STACK_PAGES ## image_frames (im_elf im)) → (im_tls im ∉ pages_at (im_stack im) STACK_PAGES ∪ image_frames (im_elf im)) →
  Forall region_good (i_regions (im_elf im)) → image_parts im ## (map_img T : gset Z) → image_parts im ⊆ kframes k →
  owns k (exec_task im asid) T ∧ owned k (exec_task im asid) T = image_parts im ∪ map_img T ∧ ttbr_baddr (u_ttbr0 (exec_task im asid)) = im_l0 im.
Proof.
  intros Hi Ht Hst Htl Ha Hd1 Hd2 Hg Hd Hs.
  assert (im_l0 im ∈ kframes k) as Hl0k by (apply Ht, elem_of_map_img; exists []; apply Ht).
  destruct (kframes_page k (im_l0 im)) as (? & _ & ?); [done|done|].
  destruct (ttbr_roundtrip (im_l0 im) asid) as [Eb _]; [unfold PHYS_LIMIT, PAGE_SIZE in *; lia|done|].
  assert (ttbr_pack (im_l0 im) asid ≠ 0) as Hne. { intros E. rewrite E in Eb. change (ttbr_baddr 0) with 0 in Eb. lia. }
  assert (parts k (exec_task im asid) T = [pages_at (im_stack im) STACK_PAGES; {[im_tls im]}; image_frames (im_elf im); map_img T; ∅]) as Ep.
  { unfold parts, some_pages. cbn [u_ustack_phys u_tls_phys u_exec_image u_vmas exec_task]. rewrite !decide_False, pages_at_1 by lia. done. }
  assert (owned k (exec_task im asid) T = image_parts im ∪ map_img T) as Eo.
  { unfold owned, image_parts. rewrite Ep. cbn [union_list foldr]. clear. set_solver. }
  split; [|done]. assert (grown_frames (exec_task im asid) = ∅) as Eg by done.
  constructor; rewrite ?Ep, ?Eo, ?Eg.
  - done.
  - rewrite union_empty_r_L. apply union_least; [done|apply Ht].
  - cbn [app]. by apply parts_disjoint.
  - cbn [u_ttbr0 exec_task]. rewrite decide_False by done. by rewrite Eb.
  - done.
  - by apply vma_wf_nil.
Qed.

Lemma exec_task_owns ctr kbuf k0 L k im T k' asid :
  exec_built ctr kbuf k0 L k im T → kinv k' → image_parts im ∪ map_img T ⊆ kframes k' →
  (∀ q, q ∈ (map_img T : gset Z) → k_tabs k' !! q = k_tabs k !! q) → 0 ≤ asid < 2 ^ 16 →
  owns k' (exec_task im asid) T ∧ owned k' (exec_task im asid) T = image_parts im ∪ map_img T ∧ ttbr_baddr (u_ttbr0 (exec_task im asid)) = im_l0 im.
Proof.
  intros Hx Hi Hs Ht Ha. destruct Hx as [Hb Hl0 Hst Htl [Hd1 Hd2] Hg _ _ _]. apply union_subseteq in Hs as [Hs1 Hs2].
  apply image_owns; try done; [|apply Hst|apply Htl|apply Hb]. eapply tree_frame; [apply Hb|done|done|done].
Qed.

Lemma exec_switch_spec ctr kbuf k0 L k im T u T0 lay strs random :
  owns k0 u T0 → exec_built ctr kbuf k0 L k im T → (∀ v, v ∈ u_vmas u → v_pages v ∈ L) →
  fits lay strs → (length random ≤ 16)%nat → 1 ≤ next_asid (k_sched k0) < 2 ^ 16 →
  ∃ k', exec_switch lay (pack strs) random im k u =
      Some (exec_start lay (Z.of_nat (length strs)) (im_elf im), k', exec_task im (next_asid (k_sched k0))) ∧
    kinv k' ∧ klive k' = L ∖ list_to_set (v_pages <$> u_vmas u) ∧
    kframes k' = image_parts im ∪ map_img T ∪ (kframes k0 ∖ owned k0 u T0) ∧
    untouched (kframes k0 ∖ owned k0 u T0) k0 k' ∧ k_tabs k' = k_tabs k ∧
    k_ram k' = mem_write (k_ram k) (im_stack im) (stack_image lay strs (im_elf im) random) ∧
    (∀ p, p ∈ klive k0 → p ∉ v_pages <$> u_vmas u → k_arrs k' !! p = k_arrs k0 !! p).
Proof.
  intros Ho Hx Hv Hfit Hr Hasid. unfold exec_switch. pose proof Hx as [Hb Hl0 Hst Htl Hdis Hg Hsr Htr _].
  pose proof (bt_grew _ _ _ _ _ _ Hb) as [Hi Hf Hn Hk Hl Ha Hsc].
  assert ((sched_asid_alloc (k_sched k)).1.1 = next_asid (k_sched k0)) as Easid by (rewrite Hsc; unfold sched_asid_alloc; by case_decide).
  destruct (sched_asid_alloc (k_sched k)) as [[asid fl] sc]. cbn [fst] in Easid. subst asid.
  pose proof Ho as [Hi0 Hs0 Hd0 Ht0 Hg0 Hw0].
  assert (owned k0 u T0 ⊆ kframes k0) as Hs0' by (clear - Hs0; set_solver).
  assert ((list_to_set (resident (k_vm k0) (u_vmas u)) : gset Z) ⊆ owned k0 u T0) as HR by (unfold owned, parts; cbn; clear; set_solver).
  destruct (vma_wf_frame k0 (set_sched k sc) (u_vmas u) Hw0 Hi) as [Hwf Eres].
  { intros v Hin. split; [change (v_pages v ∈ klive k); rewrite Hl; by apply Hv|]. cbn. apply Ha. pose proof (vw_ok _ _ Hw0) as Hok. rewrite Forall_forall in Hok. by destruct (Hok v Hin) as (_ & _ & _ & _ & _ & ? & _). }
  { intros x Hin. change (x ∈ kframes k). rewrite Hf. apply elem_of_union_r, Hs0', HR. by apply elem_of_list_to_set. }
  unfold vma_destroy. destruct (release_all_spec (k_vm (set_sched k sc)) (u_vmas u) Hwf) as (vm & -> & Hiv & Hlv & Hfv & Hav). cbn [mbind option_bind].
  set (kv := set_vm (set_sched k sc) vm). rewrite Eres in Hfv.
  rewrite (zero_stack_read kv im) by exact Hsr. pose proof Hfit as (F1 & F2 & F3 & F4 & F5).
  rewrite (write_stack_ok lay strs (im_elf im) random F1 F2 F3 F4 F5 Hr). cbn [mbind option_bind].
  set (k1 := set_ram kv _).
  assert (kframes k1 = kframes k ∖ list_to_set (resident (k_vm k0) (u_vmas u))) as Hf1 by exact Hfv.
  assert (klive k1 = klive k ∖ list_to_set (v_pages <$> u_vmas u)) as Hl1 by exact Hlv.
  assert (⋃ (parts k0 u T0) = ⋃ [some_pages (u_ustack_phys u) STACK_PAGES; some_pages (u_tls_phys u) 1; image_frames (u_exec_image u); map_img T0]
    ∪ list_to_set (resident (k_vm k0) (u_vmas u))) as Epar by (unfold parts; cbn [union_list foldr]; clear; set_solver).
  unfold parts in Hd0. change (pairwise (##) ([?a; ?b; ?c; ?d; ?e] ++ [?f])) with (pairwise (##) ([a; b; c; d] ++ [e; f])) in Hd0.
  apply pairwise_app in Hd0 as (Hd4 & _ & Hd5).
  set (ps := [some_pages (u_ustack_phys u) STACK_PAGES; some_pages (u_tls_phys u) 1; image_frames (u_exec_image u); map_img T0]) in *.
  assert (⋃ ps ## (list_to_set (resident (k_vm k0) (u_vmas u)) : gset Z)) as HdR.
  { intros x (X & HX & Hin)%elem_of_union_list Hy. apply (Hd5 X _ HX (list_elem_of_here _ _) x Hin Hy). }
  assert (⋃ ps ⊆ owned k0 u T0) as Hps by (unfold owned; rewrite Epar; clear; set_solver).
  assert (⋃ ps ⊆ kframes k1) as Hps1 by (rewrite Hf1, Hf; clear - Hps Hs0' HdR; set_solver).
  destruct (release_old_spec k1 u T0 Hiv Hps1 Hd4) as (k2 & E2 & Hi2 & Hl2 & Hf2 & Et2 & Er2 & Ea2 & _).
  { destruct (decide (u_ttbr0 u = 0)); [done|]. eapply tree_frame; [exact Ht0|done| |].
    - assert (map_img T0 ⊆ ⋃ ps) as HT by (unfold ps; cbn [union_list foldr]; clear; set_solver). by etrans.
    - intros q Hq. cbn. apply Hk. apply Hs0', Hps. unfold ps. cbn [union_list foldr]. clear - Hq. set_solver. }
  { done. }
  rewrite E2. cbn [mbind option_bind arg_offsets pack]. rewrite offsets_length. exists k2. split; [done|]. split; [done|]. split; [by rewrite Hl2, Hl1, Hl|].
  assert (image_parts im ∪ map_img T ## owned k0 u T0) as Hnew.
  { intros x H1 H2. by apply (Hn x H1), Hs0'. }
  assert (owned k0 u T0 = ⋃ ps ∪ list_to_set (resident (k_vm k0) (u_vmas u))) as Eow by exact Epar.
  split; [|split; [|split; [by rewrite Et2|split; [by rewrite Er2|]]]].
  - rewrite Hf2, Hf1, Hf. fold (image_parts im). exact (swap_frames _ _ _ _ _ Eow Hnew).
  - split.
    + intros q [Hq _]%elem_of_difference. rewrite Et2. cbn. by apply Hk.
    + intros x [Hq _]%elem_of_difference. rewrite Er2. cbn [k1 k_ram set_ram kv set_vm set_sched]. rewrite mem_write_outside; [by apply Hk|].
      rewrite stack_image_length by done. intros Hin. apply (Hn (x / PAGE_SIZE * PAGE_SIZE)); [|done].
      apply elem_of_union_l, elem_of_union_l, elem_of_union_l. destruct Hst as (_ & Hal & _). by apply pages_at_bytes.
  - intros p Hp0 Hp. rewrite Ea2. cbn. rewrite Hav by done. cbn. by rewrite Ha.
Qed.
End Owns.

(** ** Reading the file *)

Section Read.
Context {S V : Type} `{!PageAllocator S} `{!ExecFiles S V}.
Implicit Types (k : kernel S) (v : V).

(** [Q] new objects beside those of the descriptor layer. *)
Definition fstep v k v' k' (Q : gset Z) : Prop :=
  (∃ h, k' = set_heap k h) ∧ kinv k' ∧ kframes k' = kframes k ∧ xf_inv v' (k_heap k') ∧
  klive k' ∖ xf_owned v' = Q ∪ (klive k ∖ xf_owned v) ∧ (Q ## klive k ∖ xf_owned v).

Lemma fstep_refl v k : xf_inv v (k_heap k) → kinv k → fstep v k v k ∅.
Proof. intros Hv Hi. split; [exists (k_heap k); by destruct k|]. do 3 (split; [done|]). split; [by rewrite union_empty_l_L|by apply disjoint_empty_l]. Qed.

Lemma fstep_call {A} v k v1 k1 Q (f : heap S → option (A * (V * heap S))) (P : A → Prop) :
  fstep v k v1 k1 Q → (xf_inv v1 (k_heap k1) → heap_inv (k_heap k1) → ∃ a v' h', f (k_heap k1) = Some (a, (v', h')) ∧ xf_step v1 (k_heap k1) v' h' ∧ P a) →
  ∃ a v' k', on_heap k1 f = Some (a, v', k') ∧ fstep v k v' k' Q ∧ P a.
Proof.
  intros ([h ->] & Hi & Hf & Hv & Hl & Hd) Hc. destruct (Hc Hv Hi) as (a & v' & h' & E & (Hv' & Hi' & Hf' & Hl') & HP).
  unfold on_heap. rewrite E. cbn [mbind option_bind]. eexists _, _, _. split; [done|]. split; [|done].
  split; [by exists h'|]. split; [done|]. split; [|split; [done|split; [|done]]].
  - etrans; [exact Hf'|exact Hf].
  - etrans; [exact Hl'|exact Hl].
Qed.

Lemma fstep_malloc v k v1 k1 n :
  fstep v k v1 k1 ∅ → is_u64 n →
  ∃ p k', k_malloc k1 n = Some (p, k') ∧ (p = 0 ∧ fstep v k v1 k' ∅ ∨ p ≠ 0 ∧ fstep v k v1 k' {[p]}).
Proof.
  intros ([h ->] & Hi & Hf & Hv & Hl & _) Hn. destruct (grew_kmalloc _ n Hi Hn) as (p & k' & E & [h' ->] & Hc).
  exists p, (set_heap (set_heap k h) h'). split; [done|]. pose proof (xf_inv_owned _ _ Hv) as Hown.
  assert (∀ L, grew (set_heap k h) L (set_heap (set_heap k h) h') ∅ → kframes (set_heap (set_heap k h) h') = kframes k) as HF.
  { intros L Hg. rewrite (gw_frames _ _ _ _ Hg), union_empty_l_L. exact Hf. }
  destruct Hc as [[-> Hg]|(Hp & Hnew & Hg)]; [left|right]; (split; [done|]); pose proof (gw_live _ _ _ _ Hg) as HL.
  - split; [eauto|]. split; [apply Hg|]. split; [by eapply HF|]. split; [eapply xf_inv_heap; [exact Hv|]; change (xf_owned v1 ⊆ klive (set_heap (set_heap k h) h')); by rewrite HL|].
    split; [by rewrite HL|apply disjoint_empty_l].
  - change (xf_owned v1 ⊆ klive (set_heap k h)) in Hown.
    split; [eauto|]. split; [apply Hg|]. split; [by eapply HF|]. split; [eapply xf_inv_heap; [exact Hv|]; change (xf_owned v1 ⊆ klive (set_heap (set_heap k h) h')); rewrite HL; clear - Hown; set_solver|].
    rewrite HL. rewrite <- (union_empty_l_L (klive k ∖ xf_owned v)), <- Hl. clear - Hown Hnew. split; set_solver.
Qed.

Lemma fstep_kfree v k v1 k1 p :
  fstep v k v1 k1 {[p]} → ∃ k', k_free k1 p = Some k' ∧ fstep v k v1 k' ∅.
Proof.
  intros ([h ->] & Hi & Hf & Hv & Hl & Hd). pose proof (xf_inv_owned _ _ Hv) as Hown. change (xf_owned v1 ⊆ klive (set_heap k h)) in Hown.
  assert (p ∈ klive (set_heap k h) ∧ p ∉ xf_owned v1) as [Hp1 Hp2] by (apply elem_of_difference; rewrite Hl; clear; set_solver).
  destruct (grew_kfree _ _ _ ∅ p (grew_refl _ Hi) Hp1) as (k' & E & Hg & [h' ->]). eexists. split; [done|].
  pose proof (gw_live _ _ _ _ Hg) as HL. split; [eauto|]. split; [apply Hg|]. split.
  { rewrite (gw_frames _ _ _ _ Hg), union_empty_l_L. exact Hf. }
  split; [eapply xf_inv_heap; [exact Hv|]; change (xf_owned v1 ⊆ klive (set_heap (set_heap k h) h')); rewrite HL; clear - Hown Hp2; set_solver|].
  rewrite HL. split; [|apply disjoint_empty_l]. rewrite union_empty_l_L.
  assert (klive (set_heap k h) ∖ {[p]} ∖ xf_owned v1 = (klive (set_heap k h) ∖ xf_owned v1) ∖ {[p]}) as -> by (clear; set_solver).
  rewrite Hl. clear - Hd. set_solver.
Qed.

Lemma exec_read_spec v k path :
  xf_inv v (k_heap k) → kinv k →
  ∃ r v' k', exec_read v k path = Some (r, v', k') ∧
    match r with
    | None => fstep v k v' k' ∅
    | Some (bs, kp) => fstep v k v' k' {[kp]} ∧ Forall is_byte bs ∧ Z.of_nat (length bs) ≤ EXEC_MAX_BYTES
    end.
Proof.
  intros Hv Hi. unfold exec_read.
  destruct (fstep_call v k v k ∅ (λ h, xf_open v h path) (λ _, True) (fstep_refl v k Hv Hi)) as (fd & v1 & k1 & -> & H1 & _).
  { intros Hx Hy. destruct (xf_open_ok v _ path Hx Hy) as (a & v' & h' & E & Hs). eauto 8. }
  cbn [mbind option_bind]. case_decide as Hfd; [by exists None, v1, k1|].
  assert (∀ Q v2 k2, fstep v k v2 k2 Q → ∃ r v' k', on_heap k2 (λ h, xf_close v2 h fd) = Some (r, v', k') ∧ fstep v k v' k' Q) as Hclose.
  { intros Q v2 k2 H2. destruct (fstep_call v k v2 k2 Q (λ h, xf_close v2 h fd) (λ _, True) H2) as (r & v' & k' & ? & ? & _); [|eauto 6].
    intros Hx Hy. destruct (xf_close_ok v2 _ fd Hx Hy) as (a & v' & h' & E & Hs). eauto 8. }
  destruct (fstep_call v k v1 k1 ∅ (λ h, xf_seek v1 h fd 0 SEEK_END) (λ r, r < 2 ^ 63) H1) as (sz & v2 & k2 & -> & H2 & Hsz).
  { intros Hx Hy. destruct (xf_seek_ok v1 _ fd 0 SEEK_END Hx Hy) as (a & v' & h' & E & Hs & Hr). eauto 8. }
  cbn [mbind option_bind].
  destruct (fstep_call v k v2 k2 ∅ (λ h, xf_seek v2 h fd 0 SEEK_SET) (λ _, True) H2) as (z & v3 & k3 & -> & H3 & _).
  { intros Hx Hy. destruct (xf_seek_ok v2 _ fd 0 SEEK_SET Hx Hy) as (a & v' & h' & E & Hs & Hr). eauto 8. }
  cbn [mbind option_bind]. case_decide as Hb.
  { destruct (Hclose _ _ _ H3) as (r & v4 & k4 & -> & H4). cbn [mbind option_bind]. by exists None, v4, k4. }
  destruct (fstep_malloc v k v3 k3 sz H3) as (p & k4 & -> & H4); [unfold is_u64, EXEC_MAX_BYTES in *; lia|]. cbn [mbind option_bind].
  destruct H4 as [[-> H4]|[Hp H4]].
  { rewrite decide_True by done. destruct (Hclose _ _ _ H4) as (r & v5 & k5 & -> & H5). cbn [mbind option_bind]. by exists None, v5, k5. }
  rewrite decide_False by done.
  destruct (fstep_call v k v3 k4 {[p]} (λ h, xf_read v3 h fd sz) (λ a, Forall is_byte a.2 ∧ (0 ≤ a.1 → Z.of_nat (length a.2) = a.1)) H4) as ([got bs] & v5 & k5 & -> & H5 & Hby & Hlen).
  { intros Hx Hy. destruct (xf_read_ok v3 _ fd sz Hx Hy) as (r & bs & v' & h' & E & Hs & Hr1 & Hr2); [lia|]. exists (r, bs), v', h'. done. }
  cbn [mbind option_bind fst snd] in *. destruct (Hclose _ _ _ H5) as (r & v6 & k6 & -> & H6). cbn [mbind option_bind].
  case_decide as Hg.
  { destruct (fstep_kfree v k v6 k6 p H6) as (k7 & -> & H7). cbn [mbind option_bind]. by exists None, v6, k7. }
  exists (Some (bs, p)), v6, k6. split; [done|]. split; [done|]. split; [done|]. rewrite Hlen by lia. lia.
Qed.
End Read.

(** ** What the program sees *)

Section Memory.
Context {S : Type} `{!PageAllocator S}.
Implicit Types (k : kernel S) (T : tree).

(** Pages that [stack_flags] maps: readable, writable, not executable. *)
Definition data_page (e : Z) : Prop := el0_read e = true ∧ el0_write e = true ∧ el0_exec e = false.

Lemma stack_page pa : data_page (page_desc pa stack_flags).
Proof. unfold data_page. destruct (page_desc_rights pa stack_flags) as (-> & -> & ->). done. Qed.

Lemma stack_flags_addr : Z.land stack_flags PTE_ADDR_MASK = 0.
Proof. done. Qed.

(** The byte behind an address of a mapped run. *)
Lemma run_byte k l0 va pa n a :
  va mod PAGE_SIZE = 0 → pa mod PAGE_SIZE = 0 → 0 ≤ pa → pa + n * PAGE_SIZE ≤ PHYS_LIMIT → va ≤ a < va + n * PAGE_SIZE →
  hw_pte (k_pt k) l0 a = Some (page_desc (pa + (a - va) / PAGE_SIZE * PAGE_SIZE) stack_flags) →
  user_byte (k_ld k) l0 a = k_ram k !! (pa + (a - va)).
Proof.
  intros Hva Hpa H0 Hlim Ha Hhw. unfold user_byte. cbn [ld_pt k_ld]. rewrite Hhw. cbn [mbind option_bind ld_ram k_ld].
  rewrite page_desc_addr; [|unfold PHYS_LIMIT, PAGE_SIZE in *; dlia|unfold PAGE_SIZE in *; dlia|apply stack_flags_addr].
  f_equal. unfold PAGE_SIZE in *. dlia.
Qed.

Section Seen.
Context (ctr : Z) (kbuf : list Z) k0 (L : gset Z) k (im : image) T k' (stk : list Z).
Context (Hx : exec_built ctr kbuf k0 L k im T) (Hi : kinv k') (Hsub : (map_img T : gset Z) ⊆ kframes k').
Context (Ht : k_tabs k' = k_tabs k) (Hr : k_ram k' = mem_write (k_ram k) (im_stack im) stk).
Context (Hlen : Z.of_nat (length stk) = STACK_PAGES * PAGE_SIZE).

Lemma seen_hw a : hw_pte (k_pt k') (im_l0 im) a = hw_pte (k_pt k) (im_l0 im) a.
Proof using Hx Hi Hsub Ht. eapply hw_frame; [apply Hx|done|done|]. intros q _. by rewrite Ht. Qed.

Lemma seen_stack j x : stk !! j = Some x →
  user_byte (k_ld k') (im_l0 im) (stack_user_lo + Z.of_nat j) = Some x ∧
  ∃ e, hw_pte (k_pt k') (im_l0 im) (stack_user_lo + Z.of_nat j) = Some e ∧ data_page e.
Proof using All.
  intros Hj. pose proof (lookup_lt_Some _ _ _ Hj) as Hjl. destruct Hx as [_ _ (H1 & H2 & H3) _ _ _ _ _ (eh & segs & st & Tb & l & Te & j2 & _ & _ & _ & _ & _ & _ & Hj2 & Hhw)].
  set (a := stack_user_lo + Z.of_nat j) in *.
  assert (stack_user_lo ≤ a < stack_user_lo + STACK_PAGES * PAGE_SIZE) as Ha by (unfold a; lia).
  assert (hw_pte (k_pt k') (im_l0 im) a = Some (page_desc (im_stack im + (a - stack_user_lo) / PAGE_SIZE * PAGE_SIZE) stack_flags)) as E.
  { unfold stack_user_lo, USER_STACK_TOP, STACK_PAGES, USER_TLS_BASE, PAGE_SIZE in *. rewrite seen_hw, Hhw by lia. rewrite decide_False, decide_True by lia. done. }
  split; [|eexists; split; [exact E|apply stack_page]].
  rewrite (run_byte k' _ stack_user_lo (im_stack im) STACK_PAGES a) by (done || lia). rewrite Hr, mem_write_lookup, decide_True by lia.
  replace (Z.to_nat (im_stack im + (a - stack_user_lo) - im_stack im)) with j by (unfold a; lia). done.
Qed.

Lemma seen_tls : starved (pages (k_heap k)) ∨ ∀ a, USER_TLS_BASE ≤ a < USER_TLS_BASE + PAGE_SIZE →
  user_byte (k_ld k') (im_l0 im) a = Some 0 ∧ ∃ e, hw_pte (k_pt k') (im_l0 im) a = Some e ∧ data_page e.
Proof using All.
  destruct Hx as [_ _ (_ & Hs2 & _) (H1 & H2 & H3) [_ Hd] _ _ Htr (eh & segs & st & Tb & l & Te & j2 & _ & _ & _ & _ & _ & Hj2 & _ & Hhw)].
  destruct Hj2 as [->|Hst]; [|by left]. right. intros a Ha.
  assert (hw_pte (k_pt k') (im_l0 im) a = Some (page_desc (im_tls im + (a - USER_TLS_BASE) / PAGE_SIZE * PAGE_SIZE) stack_flags)) as E.
  { rewrite seen_hw, Hhw, decide_True; [done|lia|]. unfold USER_TLS_BASE, PAGE_SIZE in *. lia. }
  split; [|eexists; split; [exact E|apply stack_page]].
  rewrite (run_byte k' _ USER_TLS_BASE (im_tls im) 1 a) by (done || lia). rewrite Hr, mem_write_outside; [apply Htr; lia|].
  rewrite Hlen. intros Hin. apply Hd, elem_of_union_l. pose proof (pages_at_bytes _ _ _ Hs2 Hin) as Hp.
  replace (im_tls im) with ((im_tls im + (a - USER_TLS_BASE)) / PAGE_SIZE * PAGE_SIZE); [done|]. unfold PAGE_SIZE in *. dlia.
Qed.

Lemma seen_segment eh ph a :
  read_ehdr kbuf = Some eh → pairwise spans_disjoint (loads kbuf (e_phoff eh) 0 (e_phnum eh)) →
  ph ∈ loads kbuf (e_phoff eh) 0 (e_phnum eh) → seg_va ph ≤ a < seg_va ph + seg_pages ph * PAGE_SIZE → a < stack_user_lo →
  user_byte (k_ld k') (im_l0 im) a = Some (image_byte kbuf ph a) ∧
  ∃ e, hw_pte (k_pt k') (im_l0 im) a = Some e ∧ el0_read e = true ∧ el0_write e = Z.testbit (p_flags ph) 1 ∧
    el0_exec e = Z.testbit (p_flags ph) 0 ∧ (el0_write e && el0_exec e) = false.
Proof using All.
  intros Eeh Hd Hin Ha Hlo. destruct Hx as [_ _ (_ & Hs2 & _) _ [Hd1 _] _ _ _ (eh' & segs & st & Tb & l & Te & j2 & Eeh' & Hel & Hram & _ & Hns & _ & Hj2 & Hhw)].
  rewrite Eeh in Eeh'. injection Eeh' as <-. destruct Hel as (_ & Hld & Hph & _).
  destruct (loaded_byte _ _ _ _ _ _ _ _ _ _ ph a Hld Hph Hd Hin Ha) as [?|(pa & Hv & Hpa & Hal & (sg & Hsg & Hpf) & Hb & Hwx & Ha48)]; [done|].
  assert (hw_pte (k_pt k') (im_l0 im) a = Some (page_desc pa (elf_pflags_to_pte (p_flags ph)))) as E.
  { rewrite seen_hw, Hhw, !decide_False; [done|lia| |done]. unfold stack_user_lo, USER_TLS_BASE, USER_STACK_TOP, STACK_PAGES, PAGE_SIZE in *. lia. }
  split; [|eexists; split; [exact E|by apply segment_rights]].
  unfold user_byte. cbn [ld_pt k_ld ld_ram]. rewrite E. cbn [mbind option_bind]. rewrite page_desc_addr by (done || apply pflags_addr).
  assert ((pa + a mod PAGE_SIZE) / PAGE_SIZE * PAGE_SIZE ∈ image_frames (im_elf im)) as Hif.
  { destruct (loaded_image _ _ _ _ _ _ _ _ _ Hld) as [<- _]. replace ((pa + a mod PAGE_SIZE) / PAGE_SIZE * PAGE_SIZE) with pa by (unfold PAGE_SIZE in *; dlia).
    apply elem_of_union_list. exists (seg_frames sg). split; [|done]. apply list_elem_of_fmap. eauto. }
  rewrite Hr, mem_write_outside; [by rewrite Hram|]. rewrite Hlen. intros Hin'. apply (Hd1 ((pa + a mod PAGE_SIZE) / PAGE_SIZE * PAGE_SIZE)); [|done]. by apply pages_at_bytes.
Qed.
End Seen.
End Memory.

(** ** The theorem *)

Section Claim.
Context {S V : Type} `{!PageAllocator S} `{!ExecFiles S V}.
Implicit Types (k : kernel S) (u : utask) (T : tree) (v : V).

(** A failed exec: the task, everything it owns and all memory are as before. *)
Definition exec_refused v k u T v' k' u' : Prop :=
  u' = u ∧ owns k' u T ∧ kframes k' = kframes k ∧ klive k' ∖ xf_owned v' = klive k ∖ xf_owned v ∧ untouched (kframes k) k k'.

(** The frames after a successful exec: the task owns new ones, the old parts are
    free, the demand-grown stack pages are neither, all others are as before. *)
Definition exec_frames v k u T v' k' u' T' : Prop :=
  owns k' u' T' ∧ (owned k' u' T' ## kframes k) ∧ kframes k' = owned k' u' T' ∪ (kframes k ∖ owned k u T) ∧
  klive k' ∖ xf_owned v' = (klive k ∖ xf_owned v) ∖ list_to_set (v_pages <$> u_vmas u) ∧
  untouched (kframes k ∖ owned k u T) k k' ∧ u_stack_grown u' = [] ∧ u_vmas u' = [] ∧ grown_frames u ⊆ kframes k' ∖ owned k' u' T'.

(** What the new program sees through its page tables: the stack, the TLS page
    (unless no page was left for its table when [k2] was built) and the segments. *)
Definition exec_memory k2 k' u' (kbuf stk : list Z) : Prop :=
  let l0 := ttbr_baddr (u_ttbr0 u') in
  (∀ j x, stk !! j = Some x → user_byte (k_ld k') l0 (stack_user_lo + Z.of_nat j) = Some x ∧
    ∃ e, hw_pte (k_pt k') l0 (stack_user_lo + Z.of_nat j) = Some e ∧ data_page e) ∧
  (starved (pages (k_heap k2)) ∨ ∀ a, USER_TLS_BASE ≤ a < USER_TLS_BASE + PAGE_SIZE → user_byte (k_ld k') l0 a = Some 0 ∧
    ∃ e, hw_pte (k_pt k') l0 a = Some e ∧ data_page e) ∧
  ∃ eh, read_ehdr kbuf = Some eh ∧ i_entry (u_exec_image u') = e_entry eh ∧
    let phs := loads kbuf (e_phoff eh) 0 (e_phnum eh) in
    (pairwise spans_disjoint phs → ∀ ph a, ph ∈ phs → seg_va ph ≤ a < seg_va ph + seg_pages ph * PAGE_SIZE → a < stack_user_lo →
      user_byte (k_ld k') l0 a = Some (image_byte kbuf ph a) ∧
      ∃ e, hw_pte (k_pt k') l0 a = Some e ∧ el0_read e = true ∧ el0_write e = Z.testbit (p_flags ph) 1 ∧
        el0_exec e = Z.testbit (p_flags ph) 0 ∧ (el0_write e && el0_exec e) = false).

Lemma exec_memory_spec ctr kbuf k0 L k im T k' stk asid :
  exec_built ctr kbuf k0 L k im T → kinv k' → (map_img T : gset Z) ⊆ kframes k' → k_tabs k' = k_tabs k →
  k_ram k' = mem_write (k_ram k) (im_stack im) stk → Z.of_nat (length stk) = STACK_PAGES * PAGE_SIZE →
  ttbr_baddr (u_ttbr0 (exec_task im asid)) = im_l0 im → exec_memory k k' (exec_task im asid) kbuf stk.
Proof.
  intros Hx Hi Hs Ht Hr Hl E. unfold exec_memory. rewrite E. split; [|split].
  - intros j x Hj. by apply (seen_stack ctr kbuf k0 L k im T k' stk).
  - by apply (seen_tls ctr kbuf k0 L k im T k' stk).
  - destruct (xb_elf _ _ _ _ _ _ _ Hx) as (eh & segs & st & Tb & l & Te & j & Eeh & (_ & _ & _ & _ & Een & _) & _). exists eh. split; [done|]. split; [done|].
    intros Hd ph a Hin Ha Hlo. by apply (seen_segment ctr kbuf k0 L k im T k' stk Hx Hi Hs Ht Hr Hl eh).
Qed.

Lemma refused_owns v k u T v1 k1 k' L :
  owns k u T → (∀ a, a ∈ u_vmas u → v_pages a ∈ L) → L ⊆ klive k1 → (∃ h, k1 = set_heap k h) → kframes k1 = kframes k → grew k1 L k' ∅ →
  L ∖ xf_owned v1 = klive k ∖ xf_owned v → exec_refused v k u T v1 k' u.
Proof.
  intros Ho Hv HLk [h ->] Hf Hg HL. pose proof Hg as [Hi Hfr _ Hk Hl Ha _]. rewrite Hf in *. rewrite union_empty_l_L in Hfr.
  split; [done|]. split; [|split; [by rewrite Hfr|split; [by rewrite Hl|exact Hk]]].
  pose proof (ow_sub _ _ _ Ho) as Hs. eapply owns_frame; [exact Ho|done|by rewrite Hfr| |].
  - intros q Hq. apply Hk. apply Hs, elem_of_union_l. unfold owned, parts. cbn [union_list foldr]. clear - Hq. set_solver.
  - intros a Hin. rewrite Hl, Ha by (by apply HLk, Hv). split; [by apply Hv|done].
Qed.

(** C3. Replacing the program of a task.  For any task that owns its image, any file
    layer and any arguments within the limits, exec never faults.  If it fails,
    in whichever step, the task still has its whole old image, every frame and
    object taken on the way is back and no old page has changed.  If it succeeds,
    the task owns a complete new image in frames nobody used, the frames, page
    tables and page arrays of the old one are free, and the pages of all other
    tasks are untouched.  The program starts at the entry of the file; through its
    page tables it sees its stack with the bytes that [write_stack] prepared,
    its segments with the contents and rights the file asks for, if their page
    spans are pairwise disjoint and below the stack, which the loader does not
    check, and a cleared TLS page unless no page was left for its table.  The
    pages by which the old stack
    had grown stay allocated and belong to nobody. *)
Theorem exec_image_correct ctr img0 random v k u T path strs :
  owns k u T → xf_inv v (k_heap k) → (∀ a, a ∈ u_vmas u → v_pages a ∉ xf_owned v) →
  (length strs ≤ 32)%nat → (length (packed strs) ≤ 1024)%nat → (length random ≤ 16)%nat → 1 ≤ next_asid (k_sched k) < 2 ^ 16 →
  ∃ r v' k' u', exec_image ctr img0 random v k u path (pack strs) = Some (r, v', k', u') ∧
    match r with
    | None => exec_refused v k u T v' k' u'
    | Some s => ∃ kbuf kp k1 im k2 T' lay stk,
        exec_read v k path = Some (Some (kbuf, kp), v', k1) ∧ exec_build ctr img0 kbuf kp k1 = Some (Some im, k2) ∧
        exec_frames v k u T v' k' u' T' ∧
        plan_stack (Z.of_nat (length strs)) (Z.of_nat (length (packed strs))) = Some lay ∧
        s = exec_start lay (Z.of_nat (length strs)) (u_exec_image u') ∧
        write_stack zero_stack lay (pack strs) (u_exec_image u') random = Some stk ∧ exec_memory k2 k' u' kbuf stk
    end.
Proof.
  intros Ho Hv Hva Hn Hb Hr Hasid. unfold exec_image. cbn [arg_offsets arg_kbuf pack]. rewrite offsets_length.
  destruct (plan_stack_ok (Z.of_nat (length strs)) (Z.of_nat (length (packed strs)))) as (lay & Elay & F1 & F2 & _ & F3 & F4 & F5); [lia|lia|]. rewrite Elay.
  assert (fits lay strs) as Hfit by (split_and!; done).
  pose proof (ow_inv _ _ _ Ho) as Hi. destruct (exec_read_spec v k path Hv Hi) as (r & v1 & k1 & Erd & H1). rewrite Erd. cbn [mbind option_bind].
  assert (∀ a, a ∈ u_vmas u → v_pages a ∈ klive k ∖ xf_owned v) as Hlive.
  { intros a Ha. apply elem_of_difference. split; [|by apply Hva]. pose proof (vw_ok _ _ (ow_vmas _ _ _ Ho)) as Hok. rewrite Forall_forall in Hok. by destruct (Hok a Ha) as (_ & _ & _ & _ & _ & ? & _). }
  destruct r as [[kbuf kp]|].
  2:{ destruct H1 as (Hh & Hi1 & Hf1 & _ & Hl1 & _). rewrite union_empty_l_L in Hl1. exists None, v1, k1, u. split; [done|].
      apply (refused_owns v k u T v1 k1 k1 (klive k1)); try done; [|by apply grew_refl]. intros a Ha. apply Hlive in Ha. rewrite <- Hl1 in Ha. by apply elem_of_difference in Ha as [? _]. }
  destruct H1 as ((Hh & Hi1 & Hf1 & Hv1 & Hl1 & Hd1) & Hby & Hlen).
  assert (kp ∈ klive k1 ∧ kp ∉ xf_owned v1) as [Hkp1 Hkp2] by (apply elem_of_difference; rewrite Hl1; clear; set_solver).
  assert ((klive k1 ∖ {[kp]}) ∖ xf_owned v1 = klive k ∖ xf_owned v) as HL.
  { assert ((klive k1 ∖ {[kp]}) ∖ xf_owned v1 = (klive k1 ∖ xf_owned v1) ∖ {[kp]}) as -> by (clear; set_solver). rewrite Hl1. clear - Hd1. set_solver. }
  assert (∀ a, a ∈ u_vmas u → v_pages a ∈ klive k1 ∖ {[kp]}) as HvL.
  { intros a Ha. apply Hlive in Ha. rewrite <- HL in Ha. by apply elem_of_difference in Ha as [? _]. }
  destruct (exec_build_spec ctr img0 kbuf kp k1 Hi1 Hkp1 Hby) as (r & k2 & Ebd & H2); [unfold EXEC_MAX_BYTES in Hlen; lia|]. rewrite Ebd. cbn [mbind option_bind].
  destruct r as [im|].
  2:{ exists None, v1, k2, u. split; [done|]. eapply refused_owns; try done. apply subseteq_difference_l. done. }
  destruct H2 as [T' Hx].
  destruct (owns_frame k k1 u T Ho Hi1) as [Ho1 Eo1].
  { rewrite Hf1. apply Ho. }
  { by destruct Hh as [h ->]. }
  { intros a Ha. split; [|by destruct Hh as [h ->]]. apply HvL in Ha. by apply elem_of_difference in Ha as [? _]. }
  assert (next_asid (k_sched k1) = next_asid (k_sched k)) as Easid by (by destruct Hh as [h ->]).
  destruct (exec_switch_spec ctr kbuf k1 (klive k1 ∖ {[kp]}) k2 im T' u T lay strs random Ho1 Hx HvL Hfit Hr) as (k3 & -> & Hi3 & Hl3 & Hf3 & Hk3 & Et3 & Er3 & _);
    [by rewrite Easid|]. cbn [mbind option_bind]. rewrite Easid, Eo1, Hf1 in *. set (u' := exec_task im (next_asid (k_sched k))).
  destruct (exec_task_owns ctr kbuf k1 (klive k1 ∖ {[kp]}) k2 im T' k3 (next_asid (k_sched k)) Hx Hi3) as (Ho3 & Eo3 & El0);
    [rewrite Hf3; apply union_subseteq_l|by rewrite Et3|lia|]. fold u' in Ho3, Eo3, El0.
  eexists (Some _), v1, k3, u'. split; [done|]. exists kbuf, kp, k1, im, k2, T', lay, (stack_image lay strs (u_exec_image u') random).
  pose proof (gw_new _ _ _ _ (bt_grew _ _ _ _ _ _ (xb_built _ _ _ _ _ _ _ Hx))) as Hnew. fold (image_parts im) in Hnew. rewrite Hf1 in Hnew.
  split; [done|]. split; [done|]. split; [|split; [done|split; [done|split; [by apply write_stack_ok|]]]].
  - unfold exec_frames. rewrite Eo3. split; [done|]. split; [done|]. split; [exact Hf3|]. split; [|split; [|split; [done|split; [done|]]]].
    + rewrite Hl3, <- HL. clear. set_solver.
    + eapply untouched_trans; [|exact Hk3]. destruct Hh as [h ->]. done.
    + intros x Hxg. assert (x ∈ kframes k) as Hxk by (apply (ow_sub _ _ _ Ho), elem_of_union_r, Hxg).
      apply elem_of_difference. split; [|intros Hy; exact (Hnew x Hy Hxk)]. rewrite Hf3. apply elem_of_union_r, elem_of_difference. split; [done|].
      intros (X & HX & Hin)%elem_of_union_list. pose proof (ow_disj _ _ _ Ho) as Hd. apply pairwise_app in Hd as (_ & _ & Hd).
      exact (Hd X _ HX (list_elem_of_here _ _) x Hin Hxg).
  - assert ((map_img T' : gset Z) ⊆ kframes k3) as Hs3 by (rewrite Hf3; clear; set_solver).
    exact (exec_memory_spec _ _ _ _ _ _ _ _ _ _ Hx Hi3 Hs3 Et3 Er3 (stack_image_length lay strs _ random Hfit Hr) El0).
Qed.
End Claim.

(** ** Witness: one file in read-only memory, on a task without an image *)

Definition rom := list Z.
Definition rom_ok (v : rom) : Prop := Forall is_byte v ∧ Z.of_nat (length v) < 2 ^ 63.

#[global] Program Instance rom_files : ExecFiles pmm rom := {|
  xf_open v h _ := Some (3, (v, h));
  xf_seek v h _ o w := Some (if decide (w = SEEK_END) then Z.of_nat (length v) else 0, (v, h));
  xf_read v h _ n := Some (Z.of_nat (length (take (Z.to_nat n) v)), take (Z.to_nat n) v, (v, h));
  xf_close v h _ := Some (0, (v, h));
  xf_owned _ := ∅;
  xf_inv v _ := rom_ok v;
|}.
Next Obligation. done. Qed.
Next Obligation. done. Qed.
Next Obligation. intros v h path Hv Hh. by exists 3, v, h. Qed.
Next Obligation. intros v h fd o w Hv Hh. eexists _, v, h. split; [done|]. split; [done|]. destruct Hv as [_ ?]. by case_decide. Qed.
Next Obligation. intros v h fd n Hv Hh Hn. eexists _, _, v, h. split; [done|]. split; [done|]. split; [by apply Forall_take, Hv|done]. Qed.
Next Obligation. intros v h fd Hv Hh. by exists 0, v, h. Qed.

Definition demo_kernel : kernel pmm := mk_kernel demo_heap ∅ ∅ ∅ [] [] [] [] sched_boot.
Definition demo_task : utask := mk_utask 0 0 0 0 0 (mk_image 0 [] 0 0 0) [] 0 0 [].
Definition demo_args : list (list Z) := [[47; 98; 105; 110]; [45; 97]].

Lemma pairwise_empty n : pairwise (##) (replicate n (∅ : gset Z)).
Proof. induction n as [|n IH]; cbn [replicate pairwise]; [done|]. split; [|done]. apply Forall_replicate, disjoint_empty_l. Qed.

Lemma demo_owns : owns demo_kernel demo_task ∅.
Proof.
  assert (⋃ parts demo_kernel demo_task ∅ = ∅) as E by (vm_compute; reflexivity).
  constructor.
  - eapply heap_inv_wf, demo_heap_wf.
  - unfold owned. rewrite E, union_empty_l_L. apply empty_subseteq.
  - assert (parts demo_kernel demo_task ∅ ++ [grown_frames demo_task] = replicate 6 ∅) as -> by (vm_compute; reflexivity).
    apply pairwise_empty.
  - reflexivity.
  - constructor.
  - apply vma_wf_nil. eapply heap_inv_wf, demo_heap_wf.
Qed.

(** The entry point of a successful exec. *)
Definition exec_entry {V} (r : option (option start * V * kernel pmm * utask)) : option Z :=
  '(s, _, _, _) ← r; st_elr <$> s.

Lemma demo_exec :
  exec_entry (exec_image demo_ctr (mk_image 0 [] 0 0 0) [1; 2; 3] demo_elf demo_kernel demo_task [47] (pack demo_args)) = Some 0x400078.
Proof. vm_compute. reflexivity. Qed.

Lemma exec_image_correct_witness :
  ∃ s v' k' u' T', exec_image demo_ctr (mk_image 0 [] 0 0 0) [1; 2; 3] demo_elf demo_kernel demo_task [47] (pack demo_args) = Some (Some s, v', k', u') ∧
    owns k' u' T' ∧ st_elr s = 0x400078.
Proof.
  destruct (exec_image_correct demo_ctr (mk_image 0 [] 0 0 0) [1; 2; 3] demo_elf demo_kernel demo_task ∅ [47] demo_args) as (r & v' & k' & u' & E & H).
  - exact demo_owns.
  - split; [exact demo_elf_bytes|vm_compute; reflexivity].
  - intros a []%not_elem_of_nil.
  - cbn. lia.
  - vm_compute. lia.
  - cbn. lia.
  - cbn. lia.
  - pose proof demo_exec as Hd. rewrite E in Hd. destruct r as [s|]; [|discriminate Hd].
    destruct H as (kbuf & kp & k1 & im & k2 & T' & lay & stk & _ & _ & (Ho & _) & _). exists s, v', k', u', T'.
    split; [exact E|]. split; [exact Ho|]. injection Hd as Hd. exact Hd.
Defined.
