(* ===== verification/NewTask.v ===== *)
(** How tasks come into being: [sched_create_kernel_task] and
    [sched_create_task] of [src/src/sched/sched.c], over the memory of [TaskMem],
    the descriptors of [Fd] and the queues of [Sched].

    [task_t] is split as in the other files: [task] holds what the queues and
    the release of a task depend on, [utask] its image; [newtask] holds the
    fields that only matter for its first run.  The addresses of the program's
    own symbols are the parameter [syms]. *)
From S2P Require Import Prelude Pmm PageAlloc Heap KernelMem Vma Mmu Elf AddrSpace Vnode Fd UserMem Dirent Syscall Exec Sched TaskMem ExecImage.

Definition SIZEOF_TASK : Z := 2576.
Definition USER_TEXT_BASE : Z := 0x00400000.
Definition TLS_ERRNO_OFFSET : Z := 0.
Definition text_flags : Z := Z.lor (Z.lor (PTE_ATTRIDX 1) PTE_AP_RO_EL0) PTE_PXN.
Definition SWITCH_FRAME : Z := 160.
Definition console_path : list Z := [47; 100; 101; 118; 47; 99; 111; 110; 115; 111; 108; 101; 0].

(** The symbols of the linker script and of [switch.S]. *)
Record syms := mk_syms {
  text_start : Z;
  user_text_end : Z;
  task_trampoline : Z;
  kernel_task_trampoline : Z;
  fork_return : Z;
}.

(** The fields of the new [task_t] that are in neither [task] nor [utask]. *)
Record newtask := mk_newtask { n_addr : Z; n_sp : Z; n_kstack_top : Z; n_name : list Z; n_user : utask }.

(** [copy_name] on the 16 cleared bytes of [name]. *)
Definition copy_name (src : list Z) : list Z :=
  let s := take 15 (cstr src) in s ++ replicate (16 - length s) 0.

(** The descriptor layer beside the kernel's memory. *)
Record fdpart (V : Type) := mk_fdpart { d_vfs : V; d_files : gmap Z file; d_tables : gmap Z (list Z) }.
Arguments mk_fdpart {V}.
Arguments d_vfs {V}.
Arguments d_files {V}.
Arguments d_tables {V}.

Section Ops.
Context {S V : Type} `{!PageAllocator S} `{!FileBackend (heap S) V}.
Implicit Types (k : kernel S) (d : fdpart V).

Definition fd_view k d : fdst (heap S) V := mk_fdst (k_heap k) (d_vfs d) (d_files d) (d_tables d).
Definition fd_part (st : fdst (heap S) V) : fdpart V := mk_fdpart (fvfs st) (files st) (tables st).

(** Storing the [i]th word at [pa] through the kernel's alias. *)
Definition poke_word k (pa i x : Z) : kernel S := set_ram k (mem_write (k_ram k) (pa + 8 * i) (le_bytes 8 x)).

(** The frame that [context_switch] pops: x19, x20 and x30. *)
Definition switch_frame k (pa x19 x20 x30 : Z) : kernel S := poke_word (poke_word (poke_word k pa 0 x19) pa 1 x20) pa 11 x30.

(** [next_pid++] *)
Definition take_pid k : Z * kernel S :=
  let sc := k_sched k in
  (next_pid sc, set_sched k (mk_sched (tasks sc) (current sc) (dead_list sc) (next_pid sc +w 1) (next_asid sc) (releases sc))).
Definition take_asid k : Z * kernel S :=
  let '(a, _, sc) := sched_asid_alloc (k_sched k) in (a, set_sched k sc).

Definition link k (a : Z) (t : task) : option (kernel S) :=
  sc ← enqueue (k_sched k) a t; Some (set_sched k sc).

Definition no_user : utask := mk_utask 0 0 0 0 0 (mk_image 0 [] 0 0 0) [] 0 0 [].

Definition sched_create_kernel_task (sy : syms) k (name : list Z) (entry : Z) : option (Z * option newtask * kernel S) :=
  '(t, k) ← k_malloc k SIZEOF_TASK;
  if decide (t = 0) then Some (-1, None, k)
  else
    '(kstack_phys, k) ← alloc_pages k TASK_STACK_PAGES;
    if decide (kstack_phys = 0) then k ← k_free k t; Some (-1, None, k)
    else
      let top := kstack_phys + TASK_STACK_PAGES * PAGE_SIZE in
      let k := clear_pages k kstack_phys TASK_STACK_PAGES in
      let k := switch_frame k (top - SWITCH_FRAME) entry 0 (kernel_task_trampoline sy) in
      let '(pid, k) := take_pid k in
      k ← link k t (mk_task pid TASK_READY 0 0 0 0 kstack_phys 0 [] [] 0 0 0);
      Some (to_int pid, Some (mk_newtask t (PHYS_TO_VIRT (top - SWITCH_FRAME)) (PHYS_TO_VIRT top) (copy_name name) no_user), k).

(** [syscall_reset_errno] *)
Definition reset_errno k (tls : Z) : kernel S :=
  if decide (tls = 0) then k else set_ram k (mem_write (k_ram k) (tls + TLS_ERRNO_OFFSET) (le_bytes 4 0)).

(** The three console descriptors of a new table. *)
Definition open_console (st : fdst (heap S) V) (fds : Z) : option (fdst (heap S) V) :=
  '(_, st) ← fd_open_ex st fds console_path O_RDWR 0;
  '(_, st) ← fd_open_ex st fds console_path O_RDWR 0;
  '(_, st) ← fd_open_ex st fds console_path O_RDWR 0;
  Some st.

Definition console_table k d : option (Z * kernel S * fdpart V) :=
  '(fds, st) ← fd_table_create (fd_view k d);
  st ← (if decide (fds = 0) then Some st else open_console st fds);
  Some (fds, set_heap k (fmem st), fd_part st).

(** The address space of a new task: tables, stack and TLS page, with the text
    window shared with the kernel.  [None] is -1 with everything given back. *)
Definition create_space (sy : syms) k (t kstack_phys entry : Z) : option (option (Z * Z * Z * Z) * kernel S) :=
  '(user_l0, k) ← create_tables k;
  if decide (user_l0 = 0) then k ← free_pages k kstack_phys TASK_STACK_PAGES; k ← k_free k t; Some (None, k)
  else
    let entry_pa := VIRT_TO_PHYS entry in
    let text_start_pa := VIRT_TO_PHYS (text_start sy) in
    let user_text_end_pa := VIRT_TO_PHYS (user_text_end sy) in
    if decide (entry_pa < text_start_pa ∨ user_text_end_pa ≤ entry_pa) then
      k ← free_page k user_l0; k ← free_pages k kstack_phys TASK_STACK_PAGES; k ← k_free k t; Some (None, k)
    else
      let text_pages := (user_text_end_pa -w text_start_pa) / PAGE_SIZE in
      k ← map_range k user_l0 USER_TEXT_BASE text_start_pa text_pages text_flags;
      '(ustack_phys, k) ← alloc_pages k STACK_PAGES;
      if decide (ustack_phys = 0) then
        k ← free_tables k user_l0; k ← free_pages k kstack_phys TASK_STACK_PAGES; k ← k_free k t; Some (None, k)
      else
        let k := clear_pages k ustack_phys STACK_PAGES in
        k ← map_range k user_l0 stack_user_lo ustack_phys STACK_PAGES stack_flags;
        '(tls_phys, k) ← alloc_page k;
        if decide (tls_phys = 0) then
          k ← free_pages k ustack_phys STACK_PAGES; k ← free_tables k user_l0;
          k ← free_pages k kstack_phys TASK_STACK_PAGES; k ← k_free k t; Some (None, k)
        else
          let k := clear_pages k tls_phys 1 in
          k ← map_range k user_l0 USER_TLS_BASE tls_phys 1 stack_flags;
          Some (Some (user_l0, ustack_phys, tls_phys, USER_TEXT_BASE + (entry_pa -w text_start_pa)), k).

(** [sched_create_task] up to the address space: the [task_t], the kernel stack,
    the tables, the user stack, the TLS page and the entry point.  [None] is
    -1 with everything given back. *)
Definition create_start (sy : syms) k (entry : Z) : option (option (Z * Z * (Z * Z * Z * Z)) * kernel S) :=
  '(t, k) ← k_malloc k SIZEOF_TASK;
  if decide (t = 0) then Some (None, k)
  else
    '(kstack_phys, k) ← alloc_pages k TASK_STACK_PAGES;
    if decide (kstack_phys = 0) then k ← k_free k t; Some (None, k)
    else
      let k := clear_pages k kstack_phys TASK_STACK_PAGES in
      '(r, k) ← create_space sy k t kstack_phys entry;
      Some (match r with Some sp => Some (t, kstack_phys, sp) | None => None end, k).

Definition sched_create_task (sy : syms) k d (name : list Z) (entry : Z) : option (Z * option newtask * kernel S * fdpart V) :=
  '(r, k) ← create_start sy k entry;
  match r with
  | None => Some (-1, None, k, d)
  | Some (t, kstack_phys, (user_l0, ustack_phys, tls_phys, user_entry)) =>
      let top := kstack_phys + TASK_STACK_PAGES * PAGE_SIZE in
      let k := switch_frame k (top - SWITCH_FRAME) user_entry USER_STACK_TOP (task_trampoline sy) in
      let '(pid, k) := take_pid k in
      let '(asid, k) := take_asid k in
      let ttbr0 := ttbr_pack user_l0 asid in
      let k := reset_errno k tls_phys in
      '(fds, k, d) ← console_table k d;
      k ← link k t (mk_task pid TASK_READY 0 0 0 0 kstack_phys ustack_phys [] [] tls_phys ttbr0 fds);
      Some (to_int pid,
            Some (mk_newtask t (PHYS_TO_VIRT (top - SWITCH_FRAME)) (PHYS_TO_VIRT top) (copy_name name)
                    (mk_utask ttbr0 ustack_phys tls_phys USER_TLS_BASE USER_STACK_TOP (mk_image 0 [] 0 0 0) [] USER_BRK_BASE USER_BRK_BASE [])),
            k, d)
  end.
End Ops.

(** ** The address space of a new task *)

(** The text is page-aligned and its window ends below the stack. *)
Definition syms_ok (sy : syms) : Prop :=
  let a := VIRT_TO_PHYS (text_start sy) in let b := VIRT_TO_PHYS (user_text_end sy) in
  0 ≤ a ∧ a mod PAGE_SIZE = 0 ∧ a ≤ b ∧ b mod PAGE_SIZE = 0 ∧ b - a ≤ stack_user_lo - USER_TEXT_BASE ∧ b < 2 ^ 64.

Definition text_pages (sy : syms) : Z := (VIRT_TO_PHYS (user_text_end sy) - VIRT_TO_PHYS (text_start sy)) / PAGE_SIZE.
Definition text_run (sy : syms) : run := mk_run USER_TEXT_BASE (VIRT_TO_PHYS (text_start sy)) (text_pages sy) text_flags.
Definition stack_run (pa : Z) : run := mk_run stack_user_lo pa STACK_PAGES stack_flags.
Definition tls_run (pa : Z) : run := mk_run USER_TLS_BASE pa 1 stack_flags.

Section Space.
Context {S : Type} `{!PageAllocator S}.
Implicit Types (k : kernel S) (T : tree).

Lemma text_range sy : syms_ok sy → user_range USER_TEXT_BASE (text_pages sy) ∧
  0 ≤ VIRT_TO_PHYS (text_start sy) ∧ VIRT_TO_PHYS (text_start sy) + text_pages sy * PAGE_SIZE < 2 ^ 64.
Proof.
  unfold syms_ok, text_pages, user_range, USER_TEXT_BASE. change stack_user_lo with 0x7FC000. intros (H1 & H2 & H3 & H4 & H5 & H6).
  set (a := VIRT_TO_PHYS (text_start sy)) in *. set (b := VIRT_TO_PHYS (user_text_end sy)) in *. unfold PAGE_SIZE in *. clearbody a b. split_and!; try done; dlia.
Qed.

(** Clearing pages of the new space. *)
Lemma built_cleared k0 L k l0 T D pa n rs :
  built k0 L k l0 T D → exact k l0 rs → pages_at pa n ⊆ D → pa mod PAGE_SIZE = 0 → 0 ≤ n →
  ∃ k', clear_pages k pa n = k' ∧ built k0 L k' l0 T D ∧ exact k' l0 rs ∧
    ∀ x, k_ram k' !! x = if decide (pa ≤ x < pa + n * PAGE_SIZE) then Some 0 else k_ram k !! x.
Proof.
  intros Hb He Hs Hp Hn. eexists. split; [reflexivity|]. split; [by apply built_clear|]. split; [by apply exact_ram|].
  intros x. by apply clear_lookup.
Qed.

Record space_built k0 (L : gset Z) k (sy : syms) (ks l0 us tls : Z) T : Prop := {
  sb_built : built k0 L k l0 T ({[tls]} ∪ (pages_at us STACK_PAGES ∪ pages_at ks TASK_STACK_PAGES));
  sb_l0 : l0 ≠ 0;
  sb_stack : 0 < us ∧ us mod PAGE_SIZE = 0 ∧ us + STACK_PAGES * PAGE_SIZE ≤ PHYS_LIMIT;
  sb_tls : 0 < tls ∧ tls mod PAGE_SIZE = 0 ∧ tls + PAGE_SIZE ≤ PHYS_LIMIT;
  sb_disj : (pages_at us STACK_PAGES ## pages_at ks TASK_STACK_PAGES) ∧ (tls ∉ pages_at us STACK_PAGES ∪ pages_at ks TASK_STACK_PAGES);
  sb_stack_ram x : us ≤ x < us + STACK_PAGES * PAGE_SIZE → k_ram k !! x = Some 0;
  sb_tls_ram x : tls ≤ x < tls + PAGE_SIZE → k_ram k !! x = Some 0;
  sb_tls_map a : 0 ≤ a < 2 ^ 48 → in_run (tls_run tls) a →
    hw_pte (k_pt k) l0 a = Some (run_pte (tls_run tls) a) ∨
    starved (pages (k_heap k)) ∧ hw_pte (k_pt k) l0 a = run_view [stack_run us; text_run sy] a;
  sb_rest a : 0 ≤ a < 2 ^ 48 → ¬ in_run (tls_run tls) a → hw_pte (k_pt k) l0 a = run_view [stack_run us; text_run sy] a;
}.

Lemma create_space_spec sy k0 L k t ks entry :
  grew k0 L k (pages_at ks TASK_STACK_PAGES) → t ∈ L → 0 < ks → ks + TASK_STACK_PAGES * PAGE_SIZE ≤ PHYS_LIMIT → syms_ok sy →
  ∃ r k', create_space sy k t ks entry = Some (r, k') ∧
    match r with
    | None => grew k0 (L ∖ {[t]}) k' ∅
    | Some (l0, us, tls, e) => e = USER_TEXT_BASE + (VIRT_TO_PHYS entry -w VIRT_TO_PHYS (text_start sy)) ∧ ∃ T, space_built k0 L k' sy ks l0 us tls T
    end.
Proof.
  intros Hg Ht Hks0 Hks Hsy. unfold create_space.
  assert (∀ k1, grew k0 L k1 (pages_at ks TASK_STACK_PAGES) →
    ∃ k2, (k ← free_pages k1 ks TASK_STACK_PAGES; k ← k_free k t; Some (None (A := Z * Z * Z * Z), k)) = Some (None, k2) ∧ grew k0 (L ∖ {[t]}) k2 ∅) as Hback.
  { intros k1 H1. destruct (grew_free_pages _ _ k1 _ ks TASK_STACK_PAGES H1 ltac:(done) ltac:(lia) Hks) as (k2 & -> & H2 & _). cbn [mbind option_bind].
    rewrite difference_diag_L in H2. destruct (grew_kfree _ _ k2 ∅ t H2 Ht) as (k3 & -> & H3 & _). cbn [mbind option_bind]. exists k3. split; [reflexivity|exact H3]. }
  destruct (built_create _ _ k _ Hg) as (l0 & k1 & -> & H1). cbn [mbind option_bind].
  destruct H1 as [[-> ->]|(Hl0 & Hb1 & Hr1 & Hhw1)].
  { rewrite decide_True by done. destruct (Hback k Hg) as (k2 & E & H2). exists None, k2. split; [exact E|exact H2]. }
  rewrite decide_False by done. case_decide as Hent.
  { pose proof (bt_grew _ _ _ _ _ _ Hb1) as Hg1. pose proof (bt_data _ _ _ _ _ _ Hb1) as Hd1. rewrite map_img_singleton_L in Hg1, Hd1.
    destruct (grew_free_page _ _ k1 _ l0 Hg1 ltac:(clear; set_solver)) as (k2 & -> & Hg2 & _). cbn [mbind option_bind].
    assert ((pages_at ks TASK_STACK_PAGES ∪ {[l0]}) ∖ {[l0]} = pages_at ks TASK_STACK_PAGES) as E by (clear - Hd1; set_solver).
    rewrite E in Hg2. destruct (Hback k2 Hg2) as (k3 & E3 & H3). exists None, k3. split; [exact E3|exact H3]. }
  assert (VIRT_TO_PHYS (user_text_end sy) -w VIRT_TO_PHYS (text_start sy) = VIRT_TO_PHYS (user_text_end sy) - VIRT_TO_PHYS (text_start sy)) as ->.
  { apply wrap64_small. destruct Hsy as (? & _ & ? & _ & ? & ?). unfold is_u64. lia. }
  fold (text_pages sy). destruct (text_range sy Hsy) as (Hu1 & Hu2 & Hu3).
  destruct (shows_map _ _ k1 l0 _ _ [] USER_TEXT_BASE _ (text_pages sy) text_flags Hb1 (or_introl Hhw1) Hu1 Hu2 Hu3) as (k2 & T2 & -> & Hb2 & [t2 ->] & Hs2 & _ & _). cbn [mbind option_bind].
  fold (text_run sy) in Hs2.
  destruct (shows_alloc_pages _ _ _ _ _ _ _ STACK_PAGES Hb2 Hs2 ltac:(done)) as (us & k3 & -> & H3). cbn [mbind option_bind].
  destruct H3 as [[-> ->]|(Hu4 & Hu5 & Hu6 & Hu7 & [s3 ->] & Hb3 & He3)].
  { rewrite decide_True by done. destruct (grew_free_tables _ _ _ _ _ _ Hb2) as (k4 & -> & Hg4 & _). cbn [mbind option_bind].
    destruct (Hback k4 Hg4) as (k5 & E5 & H5). exists None, k5. split; [exact E5|exact H5]. }
  rewrite decide_False by lia.
  destruct (built_cleared _ _ _ _ _ _ us STACK_PAGES _ Hb3 He3 (union_subseteq_l _ _) Hu5 ltac:(done)) as (k4 & E4 & Hb4 & He4 & Hm4). rewrite E4; clear E4.
  destruct (shows_map _ _ _ l0 _ _ [text_run sy] stack_user_lo us STACK_PAGES stack_flags Hb4 (exact_shows _ _ _ He4) stack_range) as (k5 & T5 & -> & Hb5 & [t5 ->] & Hs5 & _ & _);
    [lia|unfold PHYS_LIMIT in *; lia|]. cbn [mbind option_bind].
  destruct (shows_alloc_page _ _ _ _ _ _ _ Hb5 Hs5) as (tls & k6 & -> & H6). cbn [mbind option_bind].
  assert (pages_at us STACK_PAGES ## pages_at ks TASK_STACK_PAGES) as Hdu.
  { intros x Hx Hy. apply (Hu7 x Hx). rewrite (gw_frames _ _ _ _ (bt_grew _ _ _ _ _ _ Hb2)). apply elem_of_union_l, elem_of_union_l, Hy. }
  destruct H6 as [[-> ->]|(Hv4 & Hv5 & Hv6 & Hv7 & [s6 ->] & Hb6 & He6)].
  { rewrite decide_True by done. pose proof (bt_grew _ _ _ _ _ _ Hb5) as Hg5.
    destruct (built_free_pages _ _ _ _ _ _ us STACK_PAGES Hb5 (union_subseteq_l _ _) (Z.lt_le_incl _ _ Hu4) Hu6) as (k7 & -> & Hb7). rewrite bind_Some.
    rewrite (union_minus _ _ Hdu) in Hb7. destruct (grew_free_tables _ _ _ _ _ _ Hb7) as (k8 & -> & Hg8 & _). rewrite bind_Some.
    destruct (Hback k8 Hg8) as (k9 & E9 & H9). exists None, k9. split; [exact E9|exact H9]. }
  rewrite decide_False by lia.
  assert (tls ∉ pages_at us STACK_PAGES ∪ pages_at ks TASK_STACK_PAGES) as Htd.
  { intros Hx. apply Hv7. rewrite (gw_frames _ _ _ _ (bt_grew _ _ _ _ _ _ Hb5)). apply elem_of_union_l, elem_of_union_l, Hx. }
  assert (pages_at tls 1 ⊆ {[tls]} ∪ (pages_at us STACK_PAGES ∪ pages_at ks TASK_STACK_PAGES)) as Hts by (rewrite pages_at_1; apply union_subseteq_l).
  destruct (built_cleared _ _ _ _ _ _ tls 1 _ Hb6 He6 Hts Hv5 ltac:(done)) as (k7 & E7 & Hb7 & He7 & Hm7). rewrite E7; clear E7.
  destruct (shows_map _ _ _ l0 _ _ [stack_run us; text_run sy] USER_TLS_BASE tls 1 stack_flags Hb7 (exact_shows _ _ _ He7) tls_range) as (k8 & T8 & -> & Hb8 & [t8 ->] & Hs8 & Hr8 & Hm8);
    [lia|unfold PHYS_LIMIT, PAGE_SIZE in *; lia|]. cbn [mbind option_bind].
  eexists (Some (l0, us, tls, _)), _. split; [reflexivity|]. split; [reflexivity|]. exists T8.
  constructor; try done.
  - intros x Hx. cbn [k_ram set_pt]. rewrite Hm7, decide_False.
    { cbn [k_ram set_pages set_heap set_pt]. rewrite Hm4, decide_True; [reflexivity|exact Hx]. }
    intros Hx'. apply Htd, elem_of_union_l. assert (tls = x / PAGE_SIZE * PAGE_SIZE) as -> by (clear - Hv5 Hx'; unfold PAGE_SIZE in *; dlia). by apply pages_at_bytes.
  - intros x Hx. cbn [k_ram set_pt]. rewrite Hm7, decide_True; [reflexivity|]. clear - Hx. lia.
  - intros a Ha Hin. destruct Hs8 as [He8|Hs8]; [left; rewrite (He8 a Ha); cbn [run_view]; by rewrite decide_True|].
    destruct (Hm8 a Ha Hin) as [E|E]; [left; exact E|right]. split; [exact Hs8|]. rewrite E. exact (He7 a Ha).
  - intros a Ha Hn. rewrite Hr8; [by apply He7|exact Ha|exact Hn].
Qed.
End Space.

(** ** The kernel stack of a new task *)

Section Frame.
Context {S : Type} `{!PageAllocator S}.
Implicit Types (k : kernel S) (T : tree).

(** The words that [context_switch] and the trampoline load. *)
Definition frame_holds k (pa x19 x20 x30 : Z) : Prop :=
  mem_read (k_ram k) pa 8 = le_bytes 8 x19 ∧ mem_read (k_ram k) (pa + 8) 8 = le_bytes 8 x20 ∧ mem_read (k_ram k) (pa + 88) 8 = le_bytes 8 x30.

Lemma mem_read_written ram pa bs n : Z.of_nat (length bs) = n → mem_read (mem_write ram pa bs) pa n = bs.
Proof. intros <-. apply mem_read_write. Qed.

Lemma mem_read_outside ram pa bs pb n :
  pb + n ≤ pa ∨ pa + Z.of_nat (length bs) ≤ pb → mem_read (mem_write ram pa bs) pb n = mem_read ram pb n.
Proof. intros H. apply mem_read_ext. intros x Hx. apply mem_write_outside. lia. Qed.

Lemma switch_frame_spec k pa x19 x20 x30 :
  frame_holds (switch_frame k pa x19 x20 x30) pa x19 x20 x30 ∧
  ∃ ram, switch_frame k pa x19 x20 x30 = set_ram k ram ∧ ∀ x, ¬ (pa ≤ x < pa + 96) → ram !! x = k_ram k !! x.
Proof.
  assert (∀ y, length (le_bytes 8 y) = 8%nat) as Hl by apply le_bytes_length.
  unfold switch_frame, poke_word, frame_holds. cbn [k_ram set_ram]. split.
  - rewrite Z.mul_0_r, Z.add_0_r. change (8 * 1) with 8. change (8 * 11) with 88. split; [|split].
    + rewrite !mem_read_outside by (rewrite Hl; lia). by apply mem_read_written; rewrite Hl.
    + rewrite mem_read_outside by (rewrite Hl; lia). by apply mem_read_written; rewrite Hl.
    + by apply mem_read_written; rewrite Hl.
  - eexists. split; [done|]. intros x Hx. rewrite !mem_write_outside by (rewrite Hl; lia). done.
Qed.
End Frame.

(** ** Descriptors and queues *)

Section Link.
Context {S V : Type} `{!PageAllocator S} `{!FileBackend (heap S) V}.
Implicit Types (k : kernel S) (d : fdpart V).

(** What the descriptor layer holds of the heap. *)
Definition fd_objects d : gset Z := fb_owned (d_vfs d) ∪ dom (d_files d) ∪ dom (d_tables d).

Lemma fd_objects_live k d : fd_wf (fd_view k d) → fd_objects d ⊆ klive k.
Proof.
  intros [Hm Hfb Ht Hf]. cbn in *. intros x [[Hx|[f Hx]%elem_of_dom]%elem_of_union|[l Hx]%elem_of_dom]%elem_of_union.
  - by apply (fb_inv_owned _ _ Hfb).
  - destruct (Hf x f Hx) as ([? _]%elem_of_difference & _). done.
  - destruct (Ht x l Hx) as ([? _]%elem_of_difference & _). done.
Qed.

(** The layer does not notice changes to memory that is not its own. *)
Lemma fd_wf_frame k k' d : fd_wf (fd_view k d) → kinv k' → fd_objects d ⊆ klive k' → fd_wf (fd_view k' d).
Proof.
  intros Hwf Hi Hs. pose proof Hwf as [Hm Hfb Ht Hf]. constructor; cbn in *.
  - exact Hi.
  - eapply fb_inv_mem; [exact Hfb|]. intros x Hx. apply Hs, elem_of_union_l, elem_of_union_l, Hx.
  - intros t l Hl. destruct (Ht t l Hl) as ([H1 H2]%elem_of_difference & ? & ? & ?). split; [|done]. apply elem_of_difference. split; [|done].
    apply Hs, elem_of_union_r, elem_of_dom. eauto.
  - intros p f Hp. destruct (Hf p f Hp) as ([H1 H2]%elem_of_difference & ? & ?). split; [|done]. apply elem_of_difference. split; [|done].
    apply Hs, elem_of_union_l, elem_of_union_r, elem_of_dom. eauto.
Qed.

(** The other descriptors and what they name stay as they are. *)
Definition fds_kept d d' (fds : Z) : Prop :=
  (∀ t, t ≠ fds → d_tables d' !! t = d_tables d !! t) ∧ (∀ p f, d_files d !! p = Some f → d_files d' !! p = Some f).

Lemma fds_kept_trans d1 d2 d3 fds : fds_kept d1 d2 fds → fds_kept d2 d3 fds → fds_kept d1 d3 fds.
Proof. intros [A1 A2] [B1 B2]. split; [intros; by rewrite B1, A1|auto]. Qed.

Lemma open_kept (st : fdst (heap S) V) fds l path :
  fd_wf st → tables st !! fds = Some l →
  ∃ r st' l', fd_open_ex st fds path O_RDWR 0 = Some (r, st') ∧ fd_wf st' ∧ others st' = others st ∧
    tables st' !! fds = Some l' ∧ fds_kept (fd_part st) (fd_part st') fds.
Proof.
  intros Hwf Ht. destruct (fd_open_ex_spec st fds l path O_RDWR 0 Hwf Ht) as (r & st' & E & Hwf' & Ho & Hc). exists r, st'.
  destruct Hc as [(_ & Et & Ef)|(i & p & n & off & _ & _ & _ & Hp & Et & Ef)].
  - exists l. split; [done|]. split; [done|]. split; [done|]. rewrite Et. split; [done|]. split; cbn; rewrite ?Et, ?Ef; done.
  - eexists. split; [done|]. split; [done|]. split; [done|]. rewrite Et, lookup_insert_eq. split; [done|]. split; cbn; rewrite ?Et, ?Ef.
    + intros t Hn. by rewrite lookup_insert_ne.
    + intros q f Hq. rewrite lookup_insert_ne; [done|]. intros ->. congruence.
Qed.

Lemma console_table_spec k d :
  fd_wf (fd_view k d) →
  ∃ fds k' d', console_table k d = Some (fds, k', d') ∧ (∃ h, k' = set_heap k h) ∧ fd_wf (fd_view k' d') ∧
    others (fd_view k' d') = others (fd_view k d) ∧ (fds = 0 ∨ is_Some (d_tables d' !! fds)) ∧ d_tables d !! fds = None ∧ fds_kept d d' fds.
Proof.
  intros Hwf. unfold console_table. destruct (fd_table_create_spec _ Hwf) as (fds & st & -> & Hwf1 & Ho1 & Hf1 & _ & Hc). rewrite bind_Some.
  assert (∀ st2 : fdst (heap S) V, fd_view (set_heap k (fmem st2)) (fd_part st2) = st2) as Hview by (by intros []).
  destruct Hc as [[-> Ht]|(H0 & Hn & Ht)].
  - rewrite decide_True, bind_Some by done. eexists 0, _, _. split; [done|]. split; [eauto|]. rewrite Hview. do 2 (split; [done|]). split; [by left|].
    split; [|split; cbn; rewrite ?Ht, ?Hf1; done].
    destruct (d_tables d !! 0) as [l|] eqn:E; [|done]. by destruct (wf_table_ne0 _ 0 l Hwf E).
  - rewrite decide_False by done. unfold open_console. assert (tables st !! fds = Some empty_table) as H1 by (by rewrite Ht, lookup_insert_eq).
    destruct (open_kept st fds _ console_path Hwf1 H1) as (r1 & st1 & l1 & -> & W1 & O1 & T1 & K1). rewrite bind_Some.
    destruct (open_kept st1 fds _ console_path W1 T1) as (r2 & st2 & l2 & -> & W2 & O2 & T2 & K2). rewrite bind_Some.
    destruct (open_kept st2 fds _ console_path W2 T2) as (r3 & st3 & l3 & -> & W3 & O3 & T3 & K3). rewrite !bind_Some.
    eexists fds, _, _. split; [done|]. split; [eauto|]. rewrite Hview. split; [done|]. split; [congruence|]. split; [right; by exists l3|]. split; [exact Hn|].
    assert (fds_kept d (fd_part st) fds) as K0.
    { split; cbn; rewrite ?Hf1; [|done]. intros t Hne. rewrite Ht. by rewrite lookup_insert_ne. }
    eapply fds_kept_trans; [exact K0|]. eapply fds_kept_trans; [exact K1|]. by eapply fds_kept_trans.
Qed.

(** Task structures are live heap objects, the static idle task apart. *)
Definition tasks_live k (qs : list Z) : Prop := ∀ x, x ∈ qs → x = IDLE ∨ x ∈ klive k.

Lemma live_not_idle k p : kinv k → p ∈ klive k → p ≠ IDLE.
Proof.
  intros Hi [n (b & Hb & _ & -> & _)]%(heap_live_wf _ _ _ Hi). pose proof (hw_blocks _ _ Hi) as Hok. rewrite Forall_forall in Hok.
  destruct (Hok b Hb) as (? & ? & _). unfold IDLE. intros E. assert (b_addr b = -24) by lia. lia.
Qed.

Lemma link_spec k a t rq dl :
  rep (k_sched k) rq dl → a ≠ 0 → (a ∉ rq ++ dl) →
  ∃ sc, link k a t = Some (set_sched k sc) ∧ rep sc (rq ++ [a]) dl ∧ current sc = current (k_sched k) ∧
    tasks sc !! a = Some (set_next (current (k_sched k)) t) ∧ ∀ x, x ∈ rq ++ dl → info (tasks sc) x = info (tasks (k_sched k)) x.
Proof.
  intros Hrep Ha Hn. unfold link. destruct (enqueue_spec (k_sched k) rq dl a t Hrep Ha Hn) as (sc & -> & H). rewrite bind_Some. eauto.
Qed.
End Link.

(** ** Creating tasks *)

Section Create.
Context {S V : Type} `{!PageAllocator S} `{!FileBackend (heap S) V}.
Implicit Types (k : kernel S) (d : fdpart V) (T : tree).

(** Nothing has changed: -1 was returned. *)
Definition unchanged k k' : Prop :=
  kinv k' ∧ kframes k' = kframes k ∧ klive k' = klive k ∧ untouched (kframes k) k k' ∧ k_sched k' = k_sched k.

Lemma grew_unchanged k k' : grew k (klive k) k' ∅ → unchanged k k'.
Proof. intros [Hi Hf _ Hk Hl _ Hs]. split; [done|]. split; [by rewrite Hf, union_empty_l_L|]. done. Qed.

(** The new task [t] is at the end of the run queue, READY, and the others are as
    they were. *)
Definition joined (sc sc' : sched) (rq dl : list Z) (a pid : Z) (tk : task) : Prop :=
  rep sc' (rq ++ [a]) dl ∧ tasks sc' !! a = Some tk ∧ t_pid tk = pid ∧ t_state tk = TASK_READY ∧ current sc' = current sc ∧
  ∀ x, x ∈ rq ++ dl → info (tasks sc') x = info (tasks sc) x.

(** A kernel stack and the new object on top of what there was. *)
Lemma stack_alloc k :
  kinv k →
  ∃ t k1, k_malloc k SIZEOF_TASK = Some (t, k1) ∧
    (t = 0 ∧ grew k (klive k) k1 ∅ ∨
     t ≠ 0 ∧ (t ∉ klive k) ∧ grew k ({[t]} ∪ klive k) k1 ∅ ∧
     ∃ ks k2, alloc_pages k1 TASK_STACK_PAGES = Some (ks, k2) ∧
       (ks = 0 ∧ k2 = k1 ∨
        0 < ks ∧ ks mod PAGE_SIZE = 0 ∧ ks + TASK_STACK_PAGES * PAGE_SIZE ≤ PHYS_LIMIT ∧
        ∃ k3, clear_pages k2 ks TASK_STACK_PAGES = k3 ∧ grew k ({[t]} ∪ klive k) k3 (pages_at ks TASK_STACK_PAGES))).
Proof.
  intros Hi. destruct (grew_kmalloc k SIZEOF_TASK Hi ltac:(done)) as (t & k1 & E & _ & [[-> Hg]|(H0 & Hn & Hg)]); exists t, k1 || exists 0, k1; (split; [done|]); [by left|right].
  do 3 (split; [done|]). destruct (grew_alloc_pages _ _ k1 ∅ TASK_STACK_PAGES Hg ltac:(done)) as (ks & k2 & E2 & H2). exists ks, k2. split; [done|].
  destruct H2 as [?|(A1 & A2 & A3 & _ & _ & Hg2)]; [by left|right]. rewrite union_empty_r_L in Hg2.
  do 3 (split; [done|]). eexists. split; [reflexivity|]. by apply grew_clear.
Qed.

Lemma drop_new (t : Z) (L : gset Z) : t ∉ L → ({[t]} ∪ L) ∖ {[t]} = L.
Proof. set_solver. Qed.

(** The frames of the kernel stack [K], the user stack [U], the TLS page and the
    tables [T], regrouped. *)
Lemma new_disj (U K T : gset Z) (t : Z) : {[t]} ∪ (U ∪ K) ## T → U ∪ {[t]} ## T.
Proof. set_solver. Qed.
Lemma new_sub (U K T F : gset Z) (t : Z) : U ∪ {[t]} ⊆ {[t]} ∪ (U ∪ K) ∪ T ∪ F.
Proof. set_solver. Qed.
Lemma new_all (U K T F : gset Z) (t : Z) : {[t]} ∪ (U ∪ K) ∪ T ∪ F = K ∪ (U ∪ {[t]} ∪ T) ∪ F.
Proof. set_solver. Qed.
Lemma new_apart (U K T : gset Z) (t : Z) : U ## K → (t ∉ U ∪ K) → {[t]} ∪ (U ∪ K) ## T → K ## U ∪ {[t]} ∪ T.
Proof. set_solver. Qed.
Lemma new_fresh (U K T F : gset Z) (t : Z) : {[t]} ∪ (U ∪ K) ∪ T ## F → K ∪ (U ∪ {[t]} ∪ T) ## F.
Proof. set_solver. Qed.

(** Creating a kernel task never faults; -1 changes nothing, and otherwise a
    READY task without an image is at the end of the run queue, whose fresh
    kernel stack starts it in the trampoline with its entry point. *)
Theorem sched_create_kernel_task_correct sy k name entry rq dl :
  kinv k → rep (k_sched k) rq dl → tasks_live k (rq ++ dl) →
  ∃ r o k', sched_create_kernel_task sy k name entry = Some (r, o, k') ∧
    match o with
    | None => r = -1 ∧ unchanged k k'
    | Some n => ∃ ks tk, r = to_int (next_pid (k_sched k)) ∧ joined (k_sched k) (k_sched k') rq dl (n_addr n) (next_pid (k_sched k)) tk ∧
        t_stack_phys tk = ks ∧ t_ttbr0 tk = 0 ∧ n_name n = copy_name name ∧ n_sp n = PHYS_TO_VIRT (ks + TASK_STACK_PAGES * PAGE_SIZE - SWITCH_FRAME) ∧
        frame_holds k' (ks + TASK_STACK_PAGES * PAGE_SIZE - SWITCH_FRAME) entry 0 (kernel_task_trampoline sy) ∧
        kinv k' ∧ kframes k' = pages_at ks TASK_STACK_PAGES ∪ kframes k ∧ (pages_at ks TASK_STACK_PAGES ## kframes k) ∧
        klive k' = {[n_addr n]} ∪ klive k ∧ untouched (kframes k) k k'
    end.
Proof.
  intros Hi Hrep Hlive. unfold sched_create_kernel_task. destruct (stack_alloc k Hi) as (t & k1 & -> & H1). rewrite bind_Some.
  destruct H1 as [[-> Hg]|(Ht0 & Htn & Hg & ks & k2 & E2 & H2)].
  { rewrite decide_True by done. exists (-1), None, k1. split; [done|]. split; [done|]. by apply grew_unchanged. }
  rewrite decide_False, E2, bind_Some by done. destruct H2 as [[-> ->]|(Hks & Hal & Hlim & k3 & E3 & Hg3)].
  { rewrite decide_True by done. destruct (grew_kfree _ _ k1 ∅ t Hg ltac:(set_solver)) as (k3 & -> & Hg3 & _). rewrite bind_Some.
    exists (-1), None, k3. split; [done|]. split; [done|]. apply grew_unchanged. by rewrite drop_new in Hg3. }
  rewrite decide_False, E3 by lia. cbv zeta. set (pa := ks + TASK_STACK_PAGES * PAGE_SIZE - SWITCH_FRAME).
  destruct (switch_frame_spec k3 pa entry 0 (kernel_task_trampoline sy)) as (Hfr & ram & E4 & Hram). rewrite E4 in *. clear E3 E4.
  pose proof Hg3 as [Hi3 Hf3 Hn3 [K1 K2] Hl3 _ Hs3]. unfold take_pid. cbn [k_sched set_ram]. rewrite Hs3.
  assert (t ∉ rq ++ dl) as Htq. { intros [->|?]%Hlive; [|done]. apply (live_not_idle k3 IDLE Hi3); [rewrite Hl3; set_solver|done]. }
  match goal with |- context [link ?k4 t ?tk] => destruct (link_spec k4 t tk rq dl Hrep Ht0 Htq) as (sc & -> & Hr' & Hc' & Htk & Hin') end. rewrite bind_Some.
  eexists _, (Some _), _. split; [done|]. exists ks. eexists. split; [done|]. split; [split; [exact Hr'|]; split; [exact Htk|]; done|].
  do 4 (split; [done|]). split; [exact Hfr|]. split; [done|]. split; [exact Hf3|]. split; [exact Hn3|]. split; [exact Hl3|]. split; [exact K1|].
  intros x Hx. cbn [k_ram set_sched set_ram]. rewrite Hram; [by apply K2|]. intros Hx'. apply (Hn3 (x / PAGE_SIZE * PAGE_SIZE)); [|done].
  apply pages_at_bytes; [done|]. unfold pa, SWITCH_FRAME, TASK_STACK_PAGES, PAGE_SIZE in *. lia.
Qed.

Lemma reset_errno_spec k tls :
  (∀ x, tls ≤ x < tls + PAGE_SIZE → k_ram k !! x = Some 0) → ∃ ram, reset_errno k tls = set_ram k ram ∧ ∀ x, ram !! x = k_ram k !! x.
Proof.
  intros Hz. unfold reset_errno, TLS_ERRNO_OFFSET. case_decide as H0; [exists (k_ram k); by destruct k|]. rewrite Z.add_0_r.
  eexists. split; [done|]. intros x. rewrite mem_write_lookup. change (le_bytes 4 0) with (replicate 4 0). rewrite length_replicate.
  case_decide as Hx; [|done]. rewrite Hz by (unfold PAGE_SIZE; lia). apply lookup_replicate_2. lia.
Qed.

(** Numbers come from the scheduler and change nothing else of it. *)
Lemma take_ids k :
  1 ≤ next_asid (k_sched k) < 2 ^ 16 →
  ∃ k1 sc, take_pid k = (next_pid (k_sched k), k1) ∧ take_asid k1 = (next_asid (k_sched k), set_sched k sc) ∧
    tasks sc = tasks (k_sched k) ∧ current sc = current (k_sched k) ∧ dead_list sc = dead_list (k_sched k).
Proof.
  intros Ha. unfold take_pid, take_asid, sched_asid_alloc. eexists. cbn [k_sched set_sched next_asid]. case_decide; eexists; (split; [reflexivity|]); (split; [reflexivity|]); done.
Qed.

(** What the new program sees in [k]: a cleared stack, the kernel's text and
    read-only data to read and execute, a cleared TLS page and nothing else.
    The TLS page is missing only if no page was left for its table in [k1],
    the state its mapping ended in. *)
Definition fresh_memory k1 k (sy : syms) (l0 us : Z) : Prop :=
  (∀ a, stack_user_lo ≤ a < USER_STACK_TOP → user_byte (k_ld k) l0 a = Some 0 ∧
    ∃ e, hw_pte (k_pt k) l0 a = Some e ∧ e = run_pte (stack_run us) a ∧ data_page e) ∧
  (∀ a, in_run (text_run sy) a → ∃ e, hw_pte (k_pt k) l0 a = Some e ∧ e = run_pte (text_run sy) a ∧
    el0_read e = true ∧ el0_write e = false ∧ el0_exec e = true) ∧
  (∀ a, USER_TLS_BASE ≤ a < USER_TLS_BASE + PAGE_SIZE →
    (user_byte (k_ld k) l0 a = Some 0 ∧ ∃ e, hw_pte (k_pt k) l0 a = Some e ∧ data_page e) ∨
    starved (pages (k_heap k1)) ∧ hw_pte (k_pt k) l0 a = None) ∧
  (∀ a, 0 ≤ a < 2 ^ 48 → ¬ (stack_user_lo ≤ a < USER_STACK_TOP) → ¬ in_run (text_run sy) a →
    ¬ (USER_TLS_BASE ≤ a < USER_TLS_BASE + PAGE_SIZE) → hw_pte (k_pt k) l0 a = None).

Lemma fresh_memory_spec k0 L k sy ks l0 us tls T k' :
  space_built k0 L k sy ks l0 us tls T → syms_ok sy → kinv k' → (map_img T : gset Z) ⊆ kframes k' → k_tabs k' = k_tabs k →
  (∀ x, us ≤ x < us + STACK_PAGES * PAGE_SIZE → k_ram k' !! x = Some 0) → (∀ x, tls ≤ x < tls + PAGE_SIZE → k_ram k' !! x = Some 0) →
  fresh_memory k k' sy l0 us.
Proof.
  intros Hsb Hsy Hi Hs Ht Hus Htls. destruct Hsb as [Hb _ (S1 & S2 & S3) (T1 & T2 & T3) _ _ _ Hm Hr].
  assert (∀ a, hw_pte (k_pt k') l0 a = hw_pte (k_pt k) l0 a) as Hhw.
  { intros a. eapply hw_frame; [apply Hb|done|done|]. intros q _. by rewrite Ht. }
  assert (∀ a, in_run (text_run sy) a → USER_TEXT_BASE ≤ a < stack_user_lo) as Htx.
  { destruct Hsy as (A1 & A2 & A3 & A4 & A5 & A6). unfold in_run, text_run, text_pages. cbn [rn_va rn_n]. intros a Ha.
    set (x := VIRT_TO_PHYS (text_start sy)) in *. set (y := VIRT_TO_PHYS (user_text_end sy)) in *. clearbody x y. unfold PAGE_SIZE in *. dlia. }
  assert (∀ a, in_run (tls_run tls) a ↔ USER_TLS_BASE ≤ a < USER_TLS_BASE + PAGE_SIZE) as Htl by (intros a; unfold in_run, tls_run; cbn [rn_va rn_n]; lia).
  assert (∀ a, in_run (stack_run us) a ↔ stack_user_lo ≤ a < USER_STACK_TOP) as Hst by (intros a; unfold in_run, stack_run, stack_user_lo; cbn [rn_va rn_n]; lia).
  assert (USER_STACK_TOP ≤ USER_TLS_BASE ∧ USER_TLS_BASE + PAGE_SIZE < 2 ^ 48 ∧ 0 ≤ USER_TEXT_BASE < stack_user_lo ∧ stack_user_lo < USER_STACK_TOP ∧ 0 < PAGE_SIZE) as (B1 & B2 & B3 & B4 & B5) by (vm_compute; split_and!; done).
  split; [|split; [|split]].
  - intros a Ha. assert (hw_pte (k_pt k') l0 a = Some (run_pte (stack_run us) a)) as E.
    { rewrite Hhw, Hr; [|lia|rewrite Htl; lia]. cbn [run_view]. rewrite decide_True; [done|]. by apply Hst. }
    split; [|eexists; split; [exact E|split; [reflexivity|apply stack_page]]]. apply Hst in Ha.
    rewrite (run_byte k' _ stack_user_lo us STACK_PAGES a) by (done || lia). apply Hus. unfold in_run in Ha. cbn [rn_va rn_n stack_run] in Ha. lia.
  - intros a Ha. pose proof (Htx a Ha). exists (run_pte (text_run sy) a). rewrite Hhw, Hr; [|lia|rewrite Htl; lia]. cbn [run_view].
    rewrite decide_False by (rewrite Hst; lia). rewrite decide_True by done. unfold run_pte.
    destruct (page_desc_rights (rn_pa (text_run sy) + (a - rn_va (text_run sy)) / PAGE_SIZE * PAGE_SIZE) (rn_flags (text_run sy))) as (-> & -> & ->). split_and!; done.
  - intros a Ha. rewrite Hhw. destruct (Hm a) as [E|[Hst' E]]; [lia|by apply Htl| |].
    + left. split; [|eexists; split; [exact E|apply stack_page]]. rewrite <- Hhw in E.
      rewrite (run_byte k' _ USER_TLS_BASE tls 1 a) by (done || lia). apply Htls. lia.
    + right. split; [exact Hst'|]. rewrite E. cbn [run_view]. rewrite !decide_False; [done|intros H%Htx; lia|rewrite Hst; lia].
  - intros a Ha Hns Hnt Hnl. rewrite Hhw, Hr; [|done|by rewrite Htl]. cbn [run_view]. rewrite !decide_False; [done|done|by rewrite Hst].
Qed.

Lemma create_start_spec sy k entry :
  kinv k → syms_ok sy →
  ∃ r k1, create_start sy k entry = Some (r, k1) ∧
    match r with
    | None => unchanged k k1
    | Some (t, ks, (l0, us, tls, e)) => t ≠ 0 ∧ (t ∉ klive k) ∧ 0 < ks ∧ ks mod PAGE_SIZE = 0 ∧ ks + TASK_STACK_PAGES * PAGE_SIZE ≤ PHYS_LIMIT ∧
        e = USER_TEXT_BASE + (VIRT_TO_PHYS entry -w VIRT_TO_PHYS (text_start sy)) ∧ ∃ T, space_built k ({[t]} ∪ klive k) k1 sy ks l0 us tls T
    end.
Proof.
  intros Hi Hsy. unfold create_start. destruct (stack_alloc k Hi) as (t & k1 & -> & H1). rewrite bind_Some.
  destruct H1 as [[-> Hg]|(Ht0 & Htn & Hg & ks & k2 & E2 & H2)].
  { rewrite decide_True by done. exists None, k1. split; [done|]. by apply grew_unchanged. }
  rewrite decide_False, E2, bind_Some by done. destruct H2 as [[-> ->]|(Hks & Hal & Hlim & k3 & E3 & Hg3)].
  { rewrite decide_True by done. destruct (grew_kfree _ _ k1 ∅ t Hg ltac:(set_solver)) as (k3 & -> & Hg3 & _). rewrite bind_Some.
    exists None, k3. split; [done|]. apply grew_unchanged. by rewrite drop_new in Hg3. }
  rewrite decide_False, E3 by lia. cbv zeta. clear E3. assert (t ∈ {[t]} ∪ klive k) as Htl by set_solver.
  destruct (create_space_spec sy k _ k3 t ks entry Hg3 Htl Hks Hlim Hsy) as (r & k4 & -> & H4). rewrite bind_Some.
  exists (match r with Some sp => Some (t, ks, sp) | None => None end), k4. split; [done|].
  destruct r as [[[[l0 us] tls] e]|]; [do 5 (split; [done|]); exact H4|]. apply grew_unchanged. by rewrite drop_new in H4.
Qed.

Lemma sched_create_task_spec sy k d name entry rq dl :
  kinv k → fd_wf (fd_view k d) → rep (k_sched k) rq dl → tasks_live k (rq ++ dl) → syms_ok sy → 1 ≤ next_asid (k_sched k) < 2 ^ 16 →
  ∃ r o k' d', sched_create_task sy k d name entry = Some (r, o, k', d') ∧
    match o with
    | None => r = -1 ∧ d' = d ∧ unchanged k k'
    | Some n => ∃ T ks tk k1 e, let u := n_user n in
        create_start sy k entry = Some (Some (n_addr n, ks, (ttbr_baddr (u_ttbr0 u), u_ustack_phys u, u_tls_phys u, e)), k1) ∧
        r = to_int (next_pid (k_sched k)) ∧ joined (k_sched k) (k_sched k') rq dl (n_addr n) (next_pid (k_sched k)) tk ∧
        t_stack_phys tk = ks ∧ t_ustack_phys tk = u_ustack_phys u ∧ t_tls_phys tk = u_tls_phys u ∧ t_ttbr0 tk = u_ttbr0 u ∧
        n_name n = copy_name name ∧ n_sp n = PHYS_TO_VIRT (ks + TASK_STACK_PAGES * PAGE_SIZE - SWITCH_FRAME) ∧
        frame_holds k' (ks + TASK_STACK_PAGES * PAGE_SIZE - SWITCH_FRAME)
          (USER_TEXT_BASE + (VIRT_TO_PHYS entry -w VIRT_TO_PHYS (text_start sy))) USER_STACK_TOP (task_trampoline sy) ∧
        owns k' u T ∧ kframes k' = pages_at ks TASK_STACK_PAGES ∪ owned k' u T ∪ kframes k ∧
        (pages_at ks TASK_STACK_PAGES ## owned k' u T) ∧ (pages_at ks TASK_STACK_PAGES ∪ owned k' u T ## kframes k) ∧ untouched (kframes k) k k' ∧
        fd_wf (fd_view k' d') ∧ klive k' ∖ fd_objects d' = {[n_addr n]} ∪ klive k ∖ fd_objects d ∧
        (t_fds tk = 0 ∨ is_Some (d_tables d' !! t_fds tk)) ∧ fds_kept d d' (t_fds tk) ∧
        fresh_memory k1 k' sy (ttbr_baddr (u_ttbr0 u)) (u_ustack_phys u)
    end.
Proof.
  intros Hi Hfd Hrep Hlive Hsy Hasid. unfold sched_create_task. destruct (create_start_spec sy k entry Hi Hsy) as (r & k4 & E4 & H4). rewrite E4, bind_Some.
  destruct r as [[[t ks] [[[l0 us] tls] e]]|]; [|exists (-1), None, k4, d; split; [done|]; split; [done|]; split; [done|exact H4]]. cbv zeta.
  destruct H4 as (Ht0 & Htn & Hks & Hal & Hlim & H4).
  destruct H4 as [-> [T Hsb]]. set (pa := ks + TASK_STACK_PAGES * PAGE_SIZE - SWITCH_FRAME). set (ue := USER_TEXT_BASE + _).
  destruct (switch_frame_spec k4 pa ue USER_STACK_TOP (task_trampoline sy)) as (Hfr & ram & E5 & Hram). rewrite E5 in *. clear E5.
  pose proof (sb_built _ _ _ _ _ _ _ _ _ Hsb) as Hb. pose proof (bt_grew _ _ _ _ _ _ Hb) as Hg4. pose proof Hg4 as [Hi4 Hf4 Hn4 [K1 K2] Hl4 _ Hs4].
  destruct (take_ids (set_ram k4 ram)) as (k5 & sc & -> & -> & Q1 & Q2 & Q3); [cbn; by rewrite Hs4|]. cbn [k_sched set_ram] in Q1, Q2, Q3 |- *. rewrite Hs4 in *.
  set (asid := next_asid (k_sched k)) in *. set (pid := next_pid (k_sched k)) in *. clear k5.
  assert (∀ x, pa ≤ x < pa + 96 → x / PAGE_SIZE * PAGE_SIZE ∈ pages_at ks TASK_STACK_PAGES) as Hpa.
  { intros x Hx. apply pages_at_bytes; [done|]. unfold pa, SWITCH_FRAME, TASK_STACK_PAGES, PAGE_SIZE in *. lia. }
  pose proof Hsb as [_ Hl0 (S1 & S2 & S3) (T1 & T2 & T3) [D1 D2] Zs Zt _ _].
  assert (∀ x, us ≤ x < us + STACK_PAGES * PAGE_SIZE → ram !! x = Some 0) as Zs'.
  { intros x Hx. rewrite Hram; [by apply Zs|]. intros Hx'. apply (D1 (x / PAGE_SIZE * PAGE_SIZE)); [by apply pages_at_bytes|by apply Hpa]. }
  assert (∀ x, tls ≤ x < tls + PAGE_SIZE → ram !! x = Some 0) as Zt'.
  { intros x Hx. rewrite Hram; [by apply Zt|]. intros Hx'. apply D2, elem_of_union_r.
    replace tls with (x / PAGE_SIZE * PAGE_SIZE) by (clear - Hx T2; unfold PAGE_SIZE in *; dlia). by apply Hpa. }
  destruct (reset_errno_spec (set_sched (set_ram k4 ram) sc) tls Zt') as (ram2 & -> & Er2). cbn [k_ram set_sched set_ram] in Er2.
  set (k6 := set_ram (set_sched (set_ram k4 ram) sc) ram2).
  destruct (console_table_spec k6 d) as (fds & k7 & d' & -> & [h ->] & Hfd7 & Ho7 & Hfs & _ & Hkeep).
  { apply (fd_wf_frame k); [done|exact Hi4|]. etrans; [by apply fd_objects_live|]. change (klive k6) with (klive k4). rewrite Hl4. apply union_subseteq_r. }
  rewrite bind_Some. set (k7 := set_heap k6 h) in *.
  assert (t ∉ rq ++ dl) as Htq. { intros [->|?]%Hlive; [|done]. apply (live_not_idle k4 IDLE Hi4); [rewrite Hl4; set_solver|done]. }
  assert (rep (k_sched k7) rq dl) as Hrep7 by (unfold rep, k7, k6; cbn; rewrite Q1, Q2, Q3; exact Hrep).
  match goal with |- context [link k7 t ?tk] => destruct (link_spec k7 t tk rq dl Hrep7 Ht0 Htq) as (sc' & -> & Hr' & Hc' & Htk & Hin') end. rewrite bind_Some.
  assert (others (fd_view k7 d') = (kframes k7, klive k7 ∖ fd_objects d')) as Eo1 by (unfold others, fd_objects; cbn; f_equal; clear; set_solver).
  assert (others (fd_view k6 d) = (kframes k4, klive k4 ∖ fd_objects d)) as Eo2 by (unfold others, fd_objects; cbn; f_equal; clear; set_solver).
  rewrite Eo1, Eo2 in Ho7. injection Ho7 as Ef7 El7. set (k8 := set_sched k7 sc').
  eexists _, (Some _), k8, d'. split; [reflexivity|]. exists T, ks. eexists _, k4, _. cbv zeta. cbn [n_user n_addr n_name n_sp].
  set (im := mk_img l0 (mk_image 0 [] 0 0 0) us tls). change (mk_utask _ us tls _ _ _ _ _ _ _) with (exec_task im asid).
  assert (kinv k8) as Hi8 by exact (fw_mem _ Hfd7). assert (kframes k8 = kframes k4) as Hf8 by exact Ef7.
  assert (image_parts im = pages_at us STACK_PAGES ∪ {[tls]}) as Eip by (unfold image_parts, image_frames; cbn; clear; set_solver).
  pose proof (bt_data _ _ _ _ _ _ Hb) as Hd.
  destruct (image_owns k8 im T asid) as (Ho & Eow & Ebase); [done| |done|done|unfold asid; lia| | |constructor| | |].
  { eapply tree_frame; [apply Hb|done| |done]. rewrite Hf8. apply Hb. }
  { cbn. clear. set_solver. }
  { cbn. clear - D2. set_solver. }
  { rewrite Eip. exact (new_disj _ _ _ _ Hd). }
  { rewrite Eip, Hf8, Hf4. exact (new_sub _ _ _ _ _). }
  rewrite Eow, Eip, Ebase. cbn [im_l0 im] in *.
  split; [reflexivity|]. split; [done|]. split. { split; [exact Hr'|]. split; [exact Htk|]. do 2 (split; [done|]). split; [exact (eq_trans Hc' Q2)|]. intros x Hx. etrans; [exact (Hin' x Hx)|]. cbn. by rewrite Q1. }
  do 6 (split; [reflexivity|]). split.
  { destruct Hfr as (F1 & F2 & F3). unfold frame_holds. cbn [k_ram k8 k7 k6 set_sched set_heap set_ram]. cbn [k_ram set_ram] in F1, F2, F3.
    rewrite <- F1, <- F2, <- F3. split_and!; apply mem_read_ext; intros; apply Er2. }
  split; [exact Ho|]. split; [rewrite Hf8, Hf4; exact (new_all _ _ _ _ _)|]. split; [exact (new_apart _ _ _ _ D1 D2 Hd)|]. split; [exact (new_fresh _ _ _ _ _ Hn4)|]. split.
  { split; [exact K1|]. intros x Hx. cbn [k_ram k8 k7 k6 set_sched set_heap set_ram]. rewrite Er2, Hram; [by apply K2|]. intros Hx'.
    apply (Hn4 (x / PAGE_SIZE * PAGE_SIZE)); [|done]. apply elem_of_union_l, elem_of_union_r, elem_of_union_r. by apply Hpa. }
  split; [exact Hfd7|]. split.
  { change (klive k8) with (klive k7). rewrite El7, Hl4. assert (t ∉ fd_objects d) by (intros Hx%(fd_objects_live k d); done). clear - H. set_solver. }
  split; [exact Hfs|]. split; [exact Hkeep|].
  eapply fresh_memory_spec; [exact Hsb|done|done|rewrite Hf8; apply Hb|done| |]; intros x Hx; cbn [k_ram k8 k7 k6 set_sched set_heap set_ram]; rewrite Er2; auto.
Qed.

(** C39. Creating a task never faults.  If it returns -1, every frame and object
    taken on the way is back, no page has changed and the scheduler is as it
    was.  Otherwise a READY task with the next pid is at the end of the run
    queue and owns a complete image and kernel stack in frames nobody used; no
    page of anybody else has changed, all other tasks, descriptors and open files
    are as before; the kernel stack starts the trampoline with the user entry
    point and stack, and the program finds a cleared stack, the text window to
    read and execute, a cleared TLS page and nothing else; the TLS page is missing
    only if no page was left for its table when it was mapped. *)
Theorem sched_create_task_correct sy k d name entry rq dl :
  kinv k → fd_wf (fd_view k d) → rep (k_sched k) rq dl → tasks_live k (rq ++ dl) → syms_ok sy → 1 ≤ next_asid (k_sched k) < 2 ^ 16 →
  ∃ r o k' d', sched_create_task sy k d name entry = Some (r, o, k', d') ∧
    match o with
    | None => r = -1 ∧ d' = d ∧ unchanged k k'
    | Some n => ∃ T ks tk k1 e, let u := n_user n in
        create_start sy k entry = Some (Some (n_addr n, ks, (ttbr_baddr (u_ttbr0 u), u_ustack_phys u, u_tls_phys u, e)), k1) ∧
        r = to_int (next_pid (k_sched k)) ∧ joined (k_sched k) (k_sched k') rq dl (n_addr n) (next_pid (k_sched k)) tk ∧
        t_stack_phys tk = ks ∧ t_ustack_phys tk = u_ustack_phys u ∧ t_tls_phys tk = u_tls_phys u ∧ t_ttbr0 tk = u_ttbr0 u ∧
        n_name n = copy_name name ∧ n_sp n = PHYS_TO_VIRT (ks + TASK_STACK_PAGES * PAGE_SIZE - SWITCH_FRAME) ∧
        frame_holds k' (ks + TASK_STACK_PAGES * PAGE_SIZE - SWITCH_FRAME)
          (USER_TEXT_BASE + (VIRT_TO_PHYS entry -w VIRT_TO_PHYS (text_start sy))) USER_STACK_TOP (task_trampoline sy) ∧
        owns k' u T ∧ kframes k' = pages_at ks TASK_STACK_PAGES ∪ owned k' u T ∪ kframes k ∧
        (pages_at ks TASK_STACK_PAGES ## owned k' u T) ∧ (pages_at ks TASK_STACK_PAGES ∪ owned k' u T ## kframes k) ∧ untouched (kframes k) k k' ∧
        fd_wf (fd_view k' d') ∧ klive k' ∖ fd_objects d' = {[n_addr n]} ∪ klive k ∖ fd_objects d ∧
        (t_fds tk = 0 ∨ is_Some (d_tables d' !! t_fds tk)) ∧ fds_kept d d' (t_fds tk) ∧
        fresh_memory k1 k' sy (ttbr_baddr (u_ttbr0 u)) (u_ustack_phys u)
    end.
Proof. exact (sched_create_task_spec sy k d name entry rq dl). Qed.
End Create.

(** ** Witness: the first task after boot *)

Definition demo_syms : syms := mk_syms 0xFFFF000040080000 0xFFFF000040090000 0xFFFF000040081000 0xFFFF000040081100 0xFFFF000040081200.
Definition boot_kernel : kernel pmm := set_sched demo_kernel (sched_init sched_boot).
Definition boot_fds : fdpart vfs := mk_fdpart demo_vfs ∅ ∅.

Lemma boot_rep : rep (k_sched boot_kernel) [IDLE] [].
Proof. destruct (sched_init_sinv sched_boot eq_refl eq_refl) as [H _]. apply H. Qed.

Definition task_made {V} (r : option (Z * option newtask * kernel pmm * fdpart V)) : option Z := '(p, o, _, _) ← r; n ← o; Some p.

Lemma boot_task_made : task_made (sched_create_task demo_syms boot_kernel boot_fds [115; 104] 0xFFFF000040082000) = Some 1.
Proof. vm_compute. reflexivity. Qed.

Lemma sched_create_task_correct_witness :
  ∃ n k' d' T, sched_create_task demo_syms boot_kernel boot_fds [115; 104] 0xFFFF000040082000 = Some (1, Some n, k', d') ∧
    owns k' (n_user n) T ∧ rep (k_sched k') [IDLE; n_addr n] [].
Proof.
  destruct (sched_create_task_correct demo_syms boot_kernel boot_fds [115; 104] 0xFFFF000040082000 [IDLE] []) as (r & o & k' & d' & E & H).
  - eapply heap_inv_wf, demo_heap_wf.
  - exact demo_fd0_wf.
  - exact boot_rep.
  - intros x [->|[]%not_elem_of_nil]%elem_of_cons. left. reflexivity.
  - vm_compute. split_and!; done.
  - cbn. lia.
  - pose proof boot_task_made as Hm. rewrite E in Hm. destruct o as [n|]; [|discriminate Hm]. injection Hm as ->.
    destruct H as (T & ks & tk & k1 & e & _ & _ & (Hr & _) & _ & _ & _ & _ & _ & _ & _ & Ho & _). exists n, k', d', T. split; [exact E|]. split; [exact Ho|exact Hr].
Defined.
