(* ===== verification/Fork.v ===== *)
(** [sched_fork] of [src/src/sched/sched.c]: the child is built beside the parent
    over the memory of [TaskMem].

    [fork_space] takes the tables and copies the program, the stack, its grown
    pages and the TLS page; [fork_areas] clones the areas and gives the child its
    own copy of every page they record; [fork_finish] numbers the child, shares
    the descriptors and queues it.  The steps are the code's, in its order,
    with its clean-up on each failure. *)
From S2P Require Import Prelude Pmm PageAlloc Heap KernelMem Vma Mmu Elf AddrSpace Vnode Fd UserMem Dirent Syscall Exec Sched TaskMem ExecImage NewTask.

Definition TRAP_FRAME : Z := 688.

(** [copy_name] and the ["+f"] that marks a child. *)
Definition fork_name (src : list Z) : list Z :=
  let s := take 15 (cstr src) in
  let nlen := length s in
  if decide (nlen + 2 < 16)%nat then s ++ [43; 102] ++ replicate (14 - nlen) 0 else copy_name src.

Section Ops.
Context {S V : Type} `{!PageAllocator S} `{!FileBackend (heap S) V}.
Implicit Types (k : kernel S) (d : fdpart V) (u : utask).

Definition set_arrs k (arrs : gmap Z (list Z)) : kernel S :=
  mk_kernel (k_heap k) arrs (k_tabs k) (k_ram k) (k_tlbi k) (k_asids k) (k_dc k) (k_ic k) (k_sched k).
Definition unmap_range k (l0 va n : Z) : option (kernel S) :=
  t ← mmu_unmap_user_range (k_pt k) l0 va n; Some (set_pt k t).

(** ** The program image *)

Fixpoint free_copies k (rs : list elf_region) : option (kernel S) :=
  match rs with
  | [] => Some k
  | r :: rs' => k ← free_pages k (r_phys r) (r_pages r); free_copies k rs'
  end.

(** The copies so far are in [acc]. *)
Fixpoint copy_regions k (l0 : Z) (rs acc : list elf_region) : option (option (list elf_region) * kernel S) :=
  match rs with
  | [] => Some (Some acc, k)
  | src :: rs' =>
      '(dst, k) ← alloc_pages k (r_pages src);
      if decide (dst = 0) then k ← free_copies k acc; Some (None, k)
      else
        let k := copy_pages k dst (r_phys src) (r_pages src) in
        k ← map_range k l0 (r_va src) dst (r_pages src) (elf_pflags_to_pte (r_flags src));
        copy_regions k l0 rs' (acc ++ [mk_region dst (r_pages src) (r_va src) (r_flags src)])
  end.

Definition fork_image (sy : syms) k (l0 : Z) u : option (option elf_image * kernel S) :=
  let img := u_exec_image u in
  if decide (i_regions img ≠ []) then
    '(r, k) ← copy_regions k l0 (i_regions img) [];
    Some (match r with Some rs => Some (mk_image (i_entry img) rs 0 0 0) | None => None end, k)
  else
    let text_start_pa := VIRT_TO_PHYS (text_start sy) in
    let user_text_end_pa := VIRT_TO_PHYS (user_text_end sy) in
    k ← map_range k l0 USER_TEXT_BASE text_start_pa ((user_text_end_pa -w text_start_pa) / PAGE_SIZE) text_flags;
    Some (Some (mk_image 0 [] 0 0 0), k).

(** ** The stack *)

Fixpoint copy_grown k (l0 : Z) (gs acc : list (Z * Z)) : option (list (Z * Z) * kernel S) :=
  match gs with
  | [] => Some (acc, k)
  | (src_pa, va) :: gs' =>
      if decide (src_pa = 0) then copy_grown k l0 gs' acc
      else
        '(dst_pa, k) ← alloc_page k;
        if decide (dst_pa = 0) then Some (acc, k)
        else
          let k := copy_pages k dst_pa src_pa 1 in
          k ← map_range k l0 va dst_pa 1 stack_flags;
          copy_grown k l0 gs' (acc ++ [(dst_pa, va)])
  end.

Record fspace := mk_fspace { f_l0 : Z; f_image : elf_image; f_stack : Z; f_grown : list (Z * Z); f_tls : Z }.

Definition fork_space (sy : syms) k u (t kstack_phys : Z) : option (option fspace * kernel S) :=
  '(user_l0, k) ← create_tables k;
  if decide (user_l0 = 0) then k ← free_pages k kstack_phys TASK_STACK_PAGES; k ← k_free k t; Some (None, k)
  else
    '(img, k) ← fork_image sy k user_l0 u;
    match img with
    | None => k ← free_tables k user_l0; k ← free_pages k kstack_phys TASK_STACK_PAGES; k ← k_free k t; Some (None, k)
    | Some img =>
        '(ustack_phys, k) ← alloc_pages k STACK_PAGES;
        if decide (ustack_phys = 0) then
          k ← free_tables k user_l0; k ← free_pages k kstack_phys TASK_STACK_PAGES; k ← k_free k t; Some (None, k)
        else
          let k := copy_pages k ustack_phys (u_ustack_phys u) STACK_PAGES in
          k ← map_range k user_l0 stack_user_lo ustack_phys STACK_PAGES stack_flags;
          '(grown, k) ← copy_grown k user_l0 (u_stack_grown u) [];
          '(child_tls, k) ← alloc_page k;
          if decide (child_tls = 0) then
            k ← free_pages k ustack_phys STACK_PAGES; k ← free_tables k user_l0;
            k ← free_pages k kstack_phys TASK_STACK_PAGES; k ← k_free k t; Some (None, k)
          else
            let k := clear_pages k child_tls 1 in
            k ← map_range k user_l0 USER_TLS_BASE child_tls 1 stack_flags;
            Some (Some (mk_fspace user_l0 img ustack_phys grown child_tls), k)
    end.

(** The parent's trap frame with x0 = 0, and below it the frame of
    [context_switch]. *)
Definition fork_frames (sy : syms) k (top : Z) (frame : list Z) : kernel S :=
  let k := set_ram k (mem_write (k_ram k) (top - TRAP_FRAME) frame) in
  let k := poke_word k (top - TRAP_FRAME) 0 0 in
  switch_frame k (top - TRAP_FRAME - SWITCH_FRAME) 0 0 (fork_return sy).

(** ** The areas *)

(** Pages [pi] on of the area [cv], [n] of them; [true] when no page was left. *)
Fixpoint priv_pages k (l0 : Z) (cv : vma) (pi n : nat) : option (bool * kernel S) :=
  match n with
  | O => Some (false, k)
  | Datatypes.S n' =>
      ps ← k_arrs k !! v_pages cv;
      src_pa ← ps !! pi;
      if decide (src_pa = 0) then priv_pages k l0 cv (Datatypes.S pi) n'
      else
        '(dst_pa, k) ← alloc_page k;
        if decide (dst_pa = 0) then Some (true, k)
        else
          let k := copy_pages k dst_pa src_pa 1 in
          let k := set_arrs k (<[v_pages cv := <[pi := dst_pa]> ps]> (k_arrs k)) in
          k ← map_range k l0 (v_start cv + Z.of_nat pi * PAGE_SIZE) dst_pa 1 (mmu_prot_to_flags (v_prot cv));
          priv_pages k l0 cv (Datatypes.S pi) n'
  end.

(** Each round moves on or removes an entry. *)
Fixpoint priv_loop (fuel : nat) k (l0 : Z) (es : list vma) (vi : nat) : option (list vma * kernel S) :=
  match fuel with
  | O => None
  | Datatypes.S f =>
      match es !! vi with
      | None => Some (es, k)
      | Some cv =>
          '(failed, k) ← priv_pages k l0 cv 0 (Z.to_nat (vma_npages cv));
          if (failed : bool) then
            k ← unmap_range k l0 (v_start cv) (vma_npages cv);
            '(_, (vm, es)) ← vma_unmap_range (k_vm k) es (v_start cv) (v_end cv);
            priv_loop f (set_vm k vm) l0 es vi
          else priv_loop f k l0 es (Datatypes.S vi)
      end
  end.

Definition fork_areas k (l0 : Z) (src : list vma) : option (list vma * kernel S) :=
  if decide (src = []) then Some ([], k)
  else
    '(r, (vm, es)) ← vma_clone (k_vm k) src;
    let k := set_vm k vm in
    if decide (r = 0) then Some (es, k) else priv_loop (Datatypes.S (length es)) k l0 es 0.

(** ** The whole call *)

(** Up to the areas: the task structure, the kernel stack, the space and the two
    frames on the stack. *)
Definition fork_start (sy : syms) k u (frame : list Z) : option (option (Z * Z * fspace) * kernel S) :=
  '(t, k) ← k_malloc k SIZEOF_TASK;
  if decide (t = 0) then Some (None, k)
  else
    '(ks, k) ← alloc_pages k TASK_STACK_PAGES;
    if decide (ks = 0) then k ← k_free k t; Some (None, k)
    else
      let top := ks + TASK_STACK_PAGES * PAGE_SIZE in
      let k := clear_pages k ks TASK_STACK_PAGES in
      '(r, k) ← fork_space sy k u t ks;
      match r with
      | None => Some (None, k)
      | Some sp => Some (Some (t, ks, sp), fork_frames sy k top frame)
      end.

(** The parent: its image, its name, pid and descriptor table. *)
Record fparent := mk_fparent { fp_user : utask; fp_name : list Z; fp_pid : Z; fp_fds : Z }.

(** The child as a user task. *)
Definition child_task u (sp : fspace) (es : list vma) (asid : Z) : utask :=
  mk_utask (ttbr_pack (f_l0 sp) asid) (f_stack sp) (f_tls sp) USER_TLS_BASE (u_user_sp u) (f_image sp) es (u_brk_base u) (u_brk_cur u) (f_grown sp).

Definition fork_finish k d (par : fparent) (t ks top : Z) (sp : fspace) (es : list vma) : option (Z * option newtask * kernel S * fdpart V) :=
  let '(pid, k) := take_pid k in
  let '(asid, k) := take_asid k in
  let ttbr0 := ttbr_pack (f_l0 sp) asid in
  '(fds, st) ← fd_table_clone (fd_view k d) (fp_fds par);
  let k := set_heap k (fmem st) in
  let d := fd_part st in
  if decide (fds = 0) then
    k ← free_tables k (f_l0 sp); k ← free_pages k (f_stack sp) STACK_PAGES;
    k ← free_pages k ks TASK_STACK_PAGES; k ← k_free k t; Some (-1, None, k, d)
  else
    k ← link k t (mk_task pid TASK_READY 0 (fp_pid par) 0 0 ks (f_stack sp)
                    ((λ r, (r_phys r, r_pages r)) <$> i_regions (f_image sp)) (fst <$> f_grown sp) (f_tls sp) ttbr0 fds);
    Some (to_int pid,
          Some (mk_newtask t (PHYS_TO_VIRT (top - TRAP_FRAME - SWITCH_FRAME)) (PHYS_TO_VIRT top) (fork_name (fp_name par))
                  (child_task (fp_user par) sp es asid)),
          k, d).

Definition sched_fork (sy : syms) k d (par : fparent) (frame : list Z) : option (Z * option newtask * kernel S * fdpart V) :=
  '(r, k) ← fork_start sy k (fp_user par) frame;
  match r with
  | None => Some (-1, None, k, d)
  | Some (t, ks, sp) =>
      '(es, k) ← fork_areas k (f_l0 sp) (u_vmas (fp_user par));
      fork_finish k d par t ks (ks + TASK_STACK_PAGES * PAGE_SIZE) sp es
  end.
End Ops.

(** ** Copies *)

Section Copy.
Context {S : Type} `{!PageAllocator S}.
Implicit Types (k : kernel S) (T : tree) (u : utask).

Definition byte_at k (x : Z) : Z := default 0 (k_ram k !! x).

(** [n] pages at [dst] of [k] hold what those at [src] hold in [k0]. *)
Definition same_bytes k0 (src : Z) k (dst n : Z) : Prop :=
  ∀ o, 0 ≤ o < n * PAGE_SIZE → k_ram k !! (dst + o) = Some (byte_at k0 (src + o)).

(** The bytes of the pages [X] are as they were. *)
Definition ram_kept (X : gset Z) k k' : Prop := ∀ x, x / PAGE_SIZE * PAGE_SIZE ∈ X → k_ram k' !! x = k_ram k !! x.

Lemma ram_kept_trans X k1 k2 k3 : ram_kept X k1 k2 → ram_kept X k2 k3 → ram_kept X k1 k3.
Proof. intros H1 H2 x Hx. by rewrite H2, H1. Qed.
Lemma ram_kept_sub X Y k k' : X ⊆ Y → ram_kept Y k k' → ram_kept X k k'.
Proof. intros Hs H x Hx. by apply H, Hs. Qed.
Lemma ram_kept_refl X k k' : k_ram k' = k_ram k → ram_kept X k k'.
Proof. intros E x _. by rewrite E. Qed.

Lemma same_bytes_kept k0 src k dst n X k' :
  same_bytes k0 src k dst n → pages_at dst n ⊆ X → dst mod PAGE_SIZE = 0 → ram_kept X k k' → same_bytes k0 src k' dst n.
Proof. intros H Hs Hal Hk o Ho. rewrite Hk; [by apply H|]. apply Hs, pages_at_bytes; [done|lia]. Qed.

Lemma mem_read_lookup ram pa n i : (i < Z.to_nat n)%nat → mem_read ram pa n !! i = Some (default 0 (ram !! (pa + Z.of_nat i))).
Proof. intros Hi. unfold mem_read. rewrite list_lookup_fmap, lookup_seqZ_lt by lia. done. Qed.

Lemma mem_read_length ram pa n : length (mem_read ram pa n) = Z.to_nat n.
Proof. unfold mem_read. by rewrite length_fmap, length_seqZ. Qed.

(** Old pages, copied to new ones. *)
Lemma built_copied k0 L k l0 T D dst src n :
  built k0 L k l0 T D → pages_at dst n ⊆ D → dst mod PAGE_SIZE = 0 → 0 ≤ n → src mod PAGE_SIZE = 0 → pages_at src n ⊆ kframes k0 →
  ∃ k', copy_pages k dst src n = k' ∧ built k0 L k' l0 T D ∧ k_heap k' = k_heap k ∧ k_pt k' = k_pt k ∧ k_arrs k' = k_arrs k ∧
    same_bytes k0 src k' dst n ∧ ram_kept (D ∖ pages_at dst n) k k'.
Proof.
  intros Hb Hs Hal Hn Hsal Hsrc. exists (copy_pages k dst src n). split; [done|].
  assert (Z.of_nat (length (mem_read (k_ram k) src (n * PAGE_SIZE))) = n * PAGE_SIZE) as Hlen by (rewrite mem_read_length; unfold PAGE_SIZE; lia).
  split; [apply (built_write _ _ _ _ _ _ dst n); [done|done|done|lia]|]. do 3 (split; [done|]). split.
  - intros o Ho. cbn [k_ram copy_pages set_ram]. rewrite mem_write_lookup, decide_True by lia. replace (dst + o - dst) with o by lia.
    rewrite mem_read_lookup by (unfold PAGE_SIZE in *; lia). rewrite Z2Nat.id by lia. unfold byte_at.
    destruct (gw_kept _ _ _ _ (bt_grew _ _ _ _ _ _ Hb)) as [_ K]. rewrite K; [done|]. apply Hsrc, pages_at_bytes; [done|lia].
  - intros x [_ Hx]%elem_of_difference. cbn [k_ram copy_pages set_ram]. apply mem_write_outside. rewrite Hlen. intros Hr. by apply Hx, pages_at_bytes.
Qed.

Lemma exact_pt k k' l0 rs : k_pt k' = k_pt k → exact k l0 rs → exact k' l0 rs.
Proof. intros E H a Ha. rewrite E. by apply H. Qed.

Lemma alloc_starved k : alloc_page k = Some (0, k) → starved (pages (k_heap k)).
Proof.
  unfold alloc_page, starved. destruct (pa_alloc_page (pages (k_heap k))) as [[r s]|]; [|done]. rewrite bind_Some. intros [= -> E].
  assert (pages (k_heap (set_pages k s)) = pages (k_heap k)) as <- by (by rewrite E). done.
Qed.

Lemma kframes_run k a n : kinv k → 0 < n → pages_at a n ⊆ kframes k → 0 < a ∧ a mod PAGE_SIZE = 0 ∧ a + n * PAGE_SIZE ≤ PHYS_LIMIT.
Proof.
  intros Hi Hn Hs. assert (∀ i, 0 ≤ i < n → a + i * PAGE_SIZE ∈ kframes k) as Hin by (intros i Hi'; apply Hs, elem_of_pages_at; eauto).
  destruct (kframes_page k (a + 0 * PAGE_SIZE) Hi) as (? & ? & _); [apply Hin; lia|].
  destruct (kframes_page k (a + (n - 1) * PAGE_SIZE) Hi) as (_ & _ & ?); [apply Hin; lia|]. rewrite Z.mul_0_l, Z.add_0_r in *. split_and!; [done|done|lia].
Qed.

(** *** The program *)

Definition region_run (r : elf_region) : run := mk_run (r_va r) (r_phys r) (r_pages r) (elf_pflags_to_pte (r_flags r)).
Definition rframes (rs : list elf_region) : gset Z := ⋃ ((λ r, pages_at (r_phys r) (r_pages r)) <$> rs).

Definition region_copy k0 k (r r' : elf_region) : Prop :=
  r_pages r' = r_pages r ∧ r_va r' = r_va r ∧ r_flags r' = r_flags r ∧ region_good r' ∧ r_phys r' mod PAGE_SIZE = 0 ∧
  same_bytes k0 (r_phys r) k (r_phys r') (r_pages r).

(** A region that can be copied. *)
Definition region_ready k0 (r : elf_region) : Prop :=
  region_good r ∧ pages_at (r_phys r) (r_pages r) ⊆ kframes k0 ∧ user_range (r_va r) (r_pages r).

Lemma rframes_app rs1 rs2 : rframes (rs1 ++ rs2) = rframes rs1 ∪ rframes rs2.
Proof. unfold rframes. by rewrite fmap_app, union_list_app_L. Qed.
Lemma rframes_one r : rframes [r] = pages_at (r_phys r) (r_pages r).
Proof. unfold rframes. cbn. by rewrite union_empty_r_L. Qed.
Lemma rframes_cons r rs : rframes (r :: rs) = pages_at (r_phys r) (r_pages r) ∪ rframes rs.
Proof. done. Qed.

(** Giving data pages back. *)
Lemma built_drop k0 L k l0 T X (s : S) Y :
  built k0 L k l0 T X → Y ⊆ X → pa_inv s → pa_frames s = pa_frames (pages (k_heap k)) ∖ Y → built k0 L (set_pages k s) l0 T (X ∖ Y).
Proof.
  intros Hb HY Hs Hf. pose proof Hb as [Hg Ht Hd]. pose proof (grew_drop _ _ k _ s Y Hg ltac:(set_solver) Hs Hf) as Hg'.
  assert (∀ A B C : gset Z, A ## B → C ⊆ A → (A ∪ B) ∖ C = A ∖ C ∪ B) as Hset by set_solver. rewrite Hset in Hg' by done.
  eapply built_step; [exact Hb|exact Hg'| |done]. clear - Hd. set_solver.
Qed.

Lemma free_copies_loop k rs : Forall region_good rs → free_copies k rs = (s ← free_loop (pages (k_heap k)) rs; Some (set_pages k s)).
Proof.
  intros Hg. revert k. induction Hg as [|r rs (H1 & H2 & _) Hg IH]; intros k; cbn [free_copies free_loop].
  { rewrite bind_Some. by rewrite set_pages_same. }
  rewrite decide_True by lia. unfold free_pages. destruct (pa_free_pages (pages (k_heap k)) (r_phys r) (r_pages r)) as [s|]; [|done].
  rewrite !bind_Some, IH. done.
Qed.

Lemma free_copies_spec k0 L k l0 T X rs :
  built k0 L k l0 T X → rframes rs ⊆ X → Forall region_good rs → ∃ k', free_copies k rs = Some k' ∧ built k0 L k' l0 T (X ∖ rframes rs).
Proof.
  intros Hb Hs Hg. rewrite free_copies_loop by done.
  destruct (free_loop_spec (pages (k_heap k)) rs) as (s & -> & Hi & Hf); [apply kinv_pa, Hb|done|]. rewrite bind_Some. eexists. split; [done|].
  apply built_drop; [done|done|done|]. apply set_eq. intros x. rewrite Hf, elem_of_difference. unfold rframes. rewrite elem_of_union_list.
  setoid_rewrite list_elem_of_fmap. naive_solver.
Qed.

Lemma region_copy_kept k0 k r r' X k' :
  region_copy k0 k r r' → pages_at (r_phys r') (r_pages r') ⊆ X → ram_kept X k k' → region_copy k0 k' r r'.
Proof. intros (E & ? & ? & ? & Hal & Hsb) Hs Hk. do 5 (split; [done|]). eapply same_bytes_kept; [done|by rewrite <- E|done|done]. Qed.

Lemma copy_regions_spec k0 L l0 rs :
  kinv k0 → Forall (region_ready k0) rs →
  ∀ k T X acc rv, built k0 L k l0 T X → shows k l0 rv → rframes acc ⊆ X → Forall region_good acc →
  ∃ o k' T', copy_regions k l0 rs acc = Some (o, k') ∧
    match o with
    | None => built k0 L k' l0 T' (X ∖ rframes acc)
    | Some acc' => ∃ rs', acc' = acc ++ rs' ∧ Forall2 (region_copy k0 k') rs rs' ∧ built k0 L k' l0 T' (rframes rs' ∪ X) ∧
        (rframes rs' ## X) ∧ ram_kept X k k' ∧ shows k' l0 (reverse (region_run <$> rs') ++ rv)
    end.
Proof.
  intros Hi0 Hrs. induction Hrs as [|r rs ((G1 & G2 & G3) & Hsrc & Hu) Hrs IH]; intros k T X acc rv Hb Hs Hacc Hg; cbn [copy_regions].
  { exists (Some acc), k, T. split; [done|]. exists []. rewrite app_nil_r. split; [done|]. split; [constructor|]. unfold rframes. cbn.
    rewrite union_empty_l_L. split; [done|]. split; [set_solver|]. split; [by apply ram_kept_refl|done]. }
  destruct (shows_alloc_pages _ _ _ _ _ _ _ (r_pages r) Hb Hs G2) as (dst & k1 & -> & H1). rewrite bind_Some.
  destruct H1 as [[-> ->]|(A1 & A2 & A3 & A4 & [s1 ->] & Hb1 & He1)].
  { rewrite decide_True by done. destruct (free_copies_spec _ _ _ _ _ _ acc Hb Hacc Hg) as (k2 & -> & Hb2). rewrite bind_Some. by exists None, k2, T. }
  rewrite decide_False by lia. destruct (kframes_run k0 (r_phys r) (r_pages r) Hi0 G2 Hsrc) as (_ & Hsal & _).
  set (k1 := set_pages k s1) in *.
  destruct (built_copied _ _ k1 _ _ _ dst (r_phys r) (r_pages r) Hb1 (union_subseteq_l _ _) A2 ltac:(lia) Hsal Hsrc) as (k2 & E2 & Hb2 & _ & Ept & _ & Hsb & Hkr).
  cbv zeta. rewrite E2. clear E2.
  destruct (shows_map _ _ k2 _ _ _ rv (r_va r) dst (r_pages r) (elf_pflags_to_pte (r_flags r)) Hb2 (exact_shows _ _ _ (exact_pt _ _ _ _ Ept He1)) Hu) as (k3 & T3 & -> & Hb3 & [t3 ->] & Hs3 & _);
    [lia|unfold PHYS_LIMIT in *; lia|]. rewrite bind_Some. set (r' := mk_region dst (r_pages r) (r_va r) (r_flags r)).
  assert (X ## pages_at dst (r_pages r)) as Hd.
  { intros x Hx Hy. apply (A4 x Hy). rewrite (gw_frames _ _ _ _ (bt_grew _ _ _ _ _ _ Hb)). clear - Hx. set_solver. }
  change (mk_run _ _ _ _) with (region_run r') in Hs3. change (pages_at dst (r_pages r)) with (pages_at (r_phys r') (r_pages r')) in *.
  destruct (IH _ T3 _ (acc ++ [r']) _ Hb3 Hs3) as (o & k4 & T4 & -> & H4).
  { rewrite rframes_app, rframes_one. clear - Hacc. set_solver. }
  { apply Forall_app. split; [done|]. by repeat constructor. }
  exists o, k4, T4. split; [done|]. destruct o as [acc'|].
  - destruct H4 as (rs' & -> & Hc & Hb4 & Hd4 & Hk4 & Hs4). exists (r' :: rs'). rewrite <- app_assoc. split; [done|]. rewrite rframes_cons.
    split; [|split; [|split; [|split]]].
    + constructor; [|done]. eapply region_copy_kept; [|apply union_subseteq_l|exact Hk4]. split_and!; done.
    + by replace (pages_at (r_phys r') (r_pages r') ∪ rframes rs' ∪ X) with (rframes rs' ∪ (pages_at (r_phys r') (r_pages r') ∪ X)) by (clear; set_solver).
    + clear - Hd Hd4. set_solver.
    + eapply ram_kept_trans; [|eapply ram_kept_sub; [|exact Hk4]; apply union_subseteq_r]. eapply ram_kept_sub; [|exact Hkr]. clear - Hd. set_solver.
    + rewrite fmap_cons, reverse_cons, <- app_assoc. exact Hs4.
  - replace (X ∖ rframes acc) with ((pages_at (r_phys r') (r_pages r') ∪ X) ∖ rframes (acc ++ [r'])); [done|].
    rewrite rframes_app, rframes_one. clear - Hd. set_solver.
Qed.

(** *** The stack *)

Definition grown_run (g : Z * Z) : run := mk_run (snd g) (fst g) 1 stack_flags.
Definition gframes (gs : list (Z * Z)) : gset Z := list_to_set (fst <$> gs).

Definition grown_copy k0 k (g g' : Z * Z) : Prop :=
  snd g' = snd g ∧ 0 < fst g' ∧ fst g' mod PAGE_SIZE = 0 ∧ fst g' + PAGE_SIZE ≤ PHYS_LIMIT ∧ same_bytes k0 (fst g) k (fst g') 1.

Lemma grown_copy_kept k0 k g g' X k' : grown_copy k0 k g g' → fst g' ∈ X → ram_kept X k k' → grown_copy k0 k' g g'.
Proof.
  intros (? & ? & Hal & ? & Hsb) Hs Hk. do 4 (split; [done|]). eapply same_bytes_kept; [done| |done|done].
  rewrite pages_at_1. set_solver.
Qed.

(** Pages that ran out: the loop stops, and so will the next allocation. *)
Lemma copy_grown_spec k0 L l0 gs :
  kinv k0 → Forall (λ g, fst g ∈ kframes k0 ∧ user_range (snd g) 1) gs →
  ∀ k T X acc rv, built k0 L k l0 T X → shows k l0 rv →
  ∃ gs' k' T', copy_grown k l0 gs acc = Some (acc ++ gs', k') ∧ built k0 L k' l0 T' (gframes gs' ∪ X) ∧
    (gframes gs' ## X) ∧ ram_kept X k k' ∧
    (starved (pages (k_heap k')) ∨ Forall2 (grown_copy k0 k') gs gs' ∧ exact k' l0 (reverse (grown_run <$> gs') ++ rv)).
Proof.
  intros Hi0 Hgs. induction Hgs as [|[src va] gs [Hsrc Hu] Hgs IH]; intros k T X acc rv Hb Hs; cbn [copy_grown fst snd] in *.
  { exists [], k, T. rewrite app_nil_r. split; [done|]. unfold gframes. cbn. rewrite union_empty_l_L. split; [done|]. split; [set_solver|]. split; [by apply ram_kept_refl|].
    destruct Hs as [?|?]; [right|by left]. split; [constructor|done]. }
  destruct (kframes_page k0 src Hi0 Hsrc) as (H0 & Hsal & _). rewrite decide_False by lia.
  destruct (shows_alloc_page _ _ _ _ _ _ _ Hb Hs) as (dst & k1 & E1 & H1). rewrite E1, bind_Some.
  destruct H1 as [[-> ->]|(A1 & A2 & A3 & A4 & [s1 ->] & Hb1 & He1)].
  { rewrite decide_True by done. exists [], k, T. rewrite app_nil_r. split; [done|]. unfold gframes. cbn. rewrite union_empty_l_L. split; [done|].
    split; [set_solver|]. split; [by apply ram_kept_refl|]. left. by apply alloc_starved. }
  rewrite decide_False by lia. set (k1 := set_pages k s1) in *. clear E1.
  assert (pages_at dst 1 ⊆ {[dst]} ∪ X) as Hd1 by (rewrite pages_at_1; apply union_subseteq_l).
  assert (pages_at src 1 ⊆ kframes k0) as Hs1 by (rewrite pages_at_1; clear - Hsrc; set_solver).
  destruct (built_copied _ _ k1 _ _ _ dst src 1 Hb1 Hd1 A2 ltac:(lia) Hsal Hs1) as (k2 & E2 & Hb2 & _ & Ept & _ & Hsb & Hkr).
  cbv zeta. rewrite E2. clear E2. rewrite pages_at_1 in Hkr.
  destruct (shows_map _ _ k2 _ _ _ rv va dst 1 stack_flags Hb2 (exact_shows _ _ _ (exact_pt _ _ _ _ Ept He1)) Hu) as (k3 & T3 & -> & Hb3 & [t3 ->] & Hs3 & _);
    [lia|unfold PHYS_LIMIT, PAGE_SIZE in *; lia|]. rewrite bind_Some.
  assert (dst ∉ X) as Hd. { intros Hx. apply A4. rewrite (gw_frames _ _ _ _ (bt_grew _ _ _ _ _ _ Hb)). clear - Hx. set_solver. }
  change (mk_run va dst 1 stack_flags) with (grown_run (dst, va)) in Hs3.
  destruct (IH _ T3 _ (acc ++ [(dst, va)]) _ Hb3 Hs3) as (gs' & k4 & T4 & -> & Hb4 & Hd4 & Hk4 & H4).
  exists ((dst, va) :: gs'), k4, T4. rewrite <- app_assoc. split; [done|].
  assert (gframes ((dst, va) :: gs') = {[dst]} ∪ gframes gs') as -> by done. split; [|split; [|split]].
  - by replace ({[dst]} ∪ gframes gs' ∪ X) with (gframes gs' ∪ ({[dst]} ∪ X)) by (clear; set_solver).
  - clear - Hd Hd4. set_solver.
  - eapply ram_kept_trans; [|eapply ram_kept_sub; [|exact Hk4]; apply union_subseteq_r]. eapply ram_kept_sub; [|exact Hkr]. clear - Hd. set_solver.
  - destruct H4 as [?|[Hc He]]; [by left|right]. split.
    + constructor; [|done]. eapply grown_copy_kept; [|cbn [fst]; apply elem_of_union_l, elem_of_singleton_2; reflexivity|exact Hk4]. exact (conj eq_refl (conj A1 (conj A2 (conj A3 Hsb)))).
    + rewrite fmap_cons, reverse_cons, <- app_assoc. exact He.
Qed.

(** *** The program image *)

Definition image_runs (sy : syms) (img : elf_image) : list run :=
  if decide (i_regions img ≠ []) then reverse (region_run <$> i_regions img) else [text_run sy].

Lemma image_frames_rframes img : image_frames img = rframes (i_regions img).
Proof. done. Qed.

Definition image_copy k0 k (img img' : elf_image) : Prop :=
  Forall2 (region_copy k0 k) (i_regions img) (i_regions img') ∧ (i_regions img ≠ [] → i_entry img' = i_entry img).

Lemma fork_image_spec sy k0 L k l0 T X u :
  kinv k0 → syms_ok sy → Forall (region_ready k0) (i_regions (u_exec_image u)) →
  built k0 L k l0 T X → (∀ a, 0 ≤ a < 2 ^ 48 → hw_pte (k_pt k) l0 a = None) →
  ∃ o k' T', fork_image sy k l0 u = Some (o, k') ∧
    match o with
    | None => built k0 L k' l0 T' X
    | Some img => image_copy k0 k' (u_exec_image u) img ∧ built k0 L k' l0 T' (image_frames img ∪ X) ∧ (image_frames img ## X) ∧
        shows k' l0 (image_runs sy img)
    end.
Proof.
  intros Hi0 Hsy Hrs Hb Hhw. unfold fork_image. cbv zeta. case_decide as Hne.
  - destruct (copy_regions_spec k0 L l0 _ Hi0 Hrs k T X [] [] Hb (or_introl Hhw)) as (o & k' & T' & -> & Ho); [set_solver|constructor|]. rewrite bind_Some.
    destruct o as [acc|].
    + destruct Ho as (rs' & -> & Hc & Hb' & Hd & Hk & Hs). eexists (Some _), k', T'. split; [done|]. rewrite image_frames_rframes. cbn [i_regions app].
      split; [done|]. split; [done|]. split; [done|]. unfold image_runs. cbn [i_regions]. rewrite app_nil_r in Hs. rewrite decide_True; [done|].
      intros ->. apply Forall2_nil_inv_r in Hc. done.
    + exists None, k', T'. split; [done|]. unfold rframes in Ho. cbn in Ho. by rewrite difference_empty_L in Ho.
  - assert (VIRT_TO_PHYS (user_text_end sy) -w VIRT_TO_PHYS (text_start sy) = VIRT_TO_PHYS (user_text_end sy) - VIRT_TO_PHYS (text_start sy)) as ->.
    { apply wrap64_small. destruct Hsy as (? & _ & ? & _ & ? & ?). unfold is_u64. lia. }
    fold (text_pages sy). destruct (text_range sy Hsy) as (Hu1 & Hu2 & Hu3).
    destruct (shows_map _ _ k l0 _ _ [] USER_TEXT_BASE _ (text_pages sy) text_flags Hb (or_introl Hhw) Hu1 Hu2 Hu3) as (k2 & T2 & -> & Hb2 & _ & Hs2 & _).
    rewrite bind_Some. fold (text_run sy) in Hs2. eexists (Some _), k2, T2. split; [done|].
    assert (i_regions (u_exec_image u) = []) as E by (destruct (i_regions (u_exec_image u)); [done|by destruct Hne]).
    split; [split; [rewrite E; constructor|by rewrite E]|]. unfold image_frames, image_runs. cbn. rewrite union_empty_l_L. split; [done|]. split; [set_solver|done].
Qed.

(** *** The whole space *)

Definition fork_runs (sy : syms) (sp : fspace) : list run :=
  reverse (grown_run <$> f_grown sp) ++ stack_run (f_stack sp) :: image_runs sy (f_image sp).

(** A parent whose pages can be copied. *)
Record fork_ready k0 u : Prop := {
  fr_image : Forall (region_ready k0) (i_regions (u_exec_image u));
  fr_stack : pages_at (u_ustack_phys u) STACK_PAGES ⊆ kframes k0;
  fr_grown : Forall (λ g, fst g ∈ kframes k0 ∧ user_range (snd g) 1) (u_stack_grown u);
}.

Record forked (sy : syms) k0 (L : gset Z) k u (sp : fspace) (ks : Z) T : Prop := {
  fk_built : built k0 L k (f_l0 sp) T
    ({[f_tls sp]} ∪ (gframes (f_grown sp) ∪ (pages_at (f_stack sp) STACK_PAGES ∪ (image_frames (f_image sp) ∪ pages_at ks TASK_STACK_PAGES))));
  fk_l0 : f_l0 sp ≠ 0;
  fk_stack : 0 < f_stack sp ∧ f_stack sp mod PAGE_SIZE = 0 ∧ f_stack sp + STACK_PAGES * PAGE_SIZE ≤ PHYS_LIMIT;
  fk_tls : 0 < f_tls sp ∧ f_tls sp mod PAGE_SIZE = 0 ∧ f_tls sp + PAGE_SIZE ≤ PHYS_LIMIT;
  fk_d1 : image_frames (f_image sp) ## pages_at ks TASK_STACK_PAGES;
  fk_d2 : pages_at (f_stack sp) STACK_PAGES ## image_frames (f_image sp) ∪ pages_at ks TASK_STACK_PAGES;
  fk_d3 : gframes (f_grown sp) ## pages_at (f_stack sp) STACK_PAGES ∪ (image_frames (f_image sp) ∪ pages_at ks TASK_STACK_PAGES);
  fk_d4 : f_tls sp ∉ gframes (f_grown sp) ∪ (pages_at (f_stack sp) STACK_PAGES ∪ (image_frames (f_image sp) ∪ pages_at ks TASK_STACK_PAGES));
  fk_image : image_copy k0 k (u_exec_image u) (f_image sp);
  fk_stack_bytes : same_bytes k0 (u_ustack_phys u) k (f_stack sp) STACK_PAGES;
  fk_grown : Forall2 (grown_copy k0 k) (u_stack_grown u) (f_grown sp);
  fk_tls_ram x : f_tls sp ≤ x < f_tls sp + PAGE_SIZE → k_ram k !! x = Some 0;
  fk_rest a : 0 ≤ a < 2 ^ 48 → ¬ in_run (tls_run (f_tls sp)) a → hw_pte (k_pt k) (f_l0 sp) a = run_view (fork_runs sy sp) a;
  fk_tls_map a : 0 ≤ a < 2 ^ 48 → in_run (tls_run (f_tls sp)) a →
    hw_pte (k_pt k) (f_l0 sp) a = Some (run_pte (tls_run (f_tls sp)) a) ∨
    starved (pages (k_heap k)) ∧ hw_pte (k_pt k) (f_l0 sp) a = run_view (fork_runs sy sp) a;
}.

Lemma image_copy_kept k0 k img img' X k' :
  image_copy k0 k img img' → image_frames img' ⊆ X → ram_kept X k k' → image_copy k0 k' img img'.
Proof.
  intros [H E] Hs Hk. split; [|done]. apply Forall2_same_length_lookup. rewrite Forall2_same_length_lookup in H. destruct H as [Hl H]. split; [done|].
  intros i r r' Hr Hr'. eapply region_copy_kept; [by eapply H| |done]. intros x Hx. apply Hs, elem_of_image_frames. exists r'. split; [by eapply list_elem_of_lookup_2|done].
Qed.

Lemma grown_copies_kept k0 k gs gs' X k' :
  Forall2 (grown_copy k0 k) gs gs' → gframes gs' ⊆ X → ram_kept X k k' → Forall2 (grown_copy k0 k') gs gs'.
Proof.
  intros H Hs Hk. induction H as [|g g' gs gs' Hg H IH]; constructor.
  - eapply grown_copy_kept; [done| |done]. apply Hs. unfold gframes. cbn. set_solver.
  - apply IH. etrans; [|exact Hs]. unfold gframes. cbn. set_solver.
Qed.

(** What the failures leave behind: the frames [X] are lost. *)
Lemma fork_back k0 L k t ks X :
  grew k0 L k (X ∪ pages_at ks TASK_STACK_PAGES) → t ∈ L → 0 < ks → ks + TASK_STACK_PAGES * PAGE_SIZE ≤ PHYS_LIMIT →
  ∃ k' X', (k ← free_pages k ks TASK_STACK_PAGES; k ← k_free k t; Some (None (A := fspace), k)) = Some (None, k') ∧ grew k0 (L ∖ {[t]}) k' X'.
Proof.
  intros Hg Ht H0 H1. destruct (grew_free_pages _ _ k _ ks TASK_STACK_PAGES Hg (union_subseteq_r _ _) ltac:(lia) H1) as (k2 & -> & H2 & _). rewrite bind_Some.
  destruct (grew_kfree _ _ k2 _ t H2 Ht) as (k3 & -> & H3 & _). rewrite bind_Some. by eexists k3, _.
Qed.

Lemma fork_sub1 (I K U : gset Z) : I ∪ K ## U → I ⊆ (U ∪ (I ∪ K)) ∖ U.
Proof. set_solver. Qed.
Lemma fork_sub2 (I K U : gset Z) : I ⊆ U ∪ (I ∪ K).
Proof. set_solver. Qed.
Lemma fork_sub3 (I K U G : gset Z) : I ⊆ G ∪ (U ∪ (I ∪ K)).
Proof. set_solver. Qed.
Lemma fork_sub4 (G U D : gset Z) : U ⊆ G ∪ (U ∪ D).
Proof. set_solver. Qed.
Lemma fork_left (I K U G : gset Z) : I ∪ K ## U → (G ∪ (U ∪ (I ∪ K))) ∖ U = (G ∖ U ∪ I ∖ U) ∪ K.
Proof. set_solver. Qed.

Lemma fork_space_spec sy k0 L k u t ks :
  kinv k0 → syms_ok sy → fork_ready k0 u → grew k0 L k (pages_at ks TASK_STACK_PAGES) → t ∈ L → 0 < ks → ks + TASK_STACK_PAGES * PAGE_SIZE ≤ PHYS_LIMIT →
  ∃ r k', fork_space sy k u t ks = Some (r, k') ∧
    match r with
    | None => ∃ X, grew k0 (L ∖ {[t]}) k' X
    | Some sp => ∃ T, forked sy k0 L k' u sp ks T
    end.
Proof.
  intros Hi0 Hsy [Rimg Rst Rgr] Hg Ht Hks0 Hks. unfold fork_space.
  destruct (built_create _ _ k _ Hg) as (l0 & k1 & -> & H1). rewrite bind_Some.
  destruct H1 as [[-> ->]|(Hl0 & Hb1 & _ & Hhw1)].
  { rewrite decide_True by done. destruct (fork_back k0 L k t ks ∅) as (k2 & X & E & H2); [by rewrite union_empty_l_L|done|done|done|]. exists None, k2. split; [exact E|eauto]. }
  rewrite decide_False by done. destruct (fork_image_spec sy k0 L k1 l0 _ _ u Hi0 Hsy Rimg Hb1 Hhw1) as (o & k2 & T2 & -> & H2). rewrite bind_Some.
  destruct o as [img|].
  2:{ destruct (grew_free_tables _ _ _ _ _ _ H2) as (k3 & -> & Hg3 & _). rewrite bind_Some.
      destruct (fork_back k0 L k3 t ks ∅) as (k4 & X & E & H4); [by rewrite union_empty_l_L|done|done|done|]. exists None, k4. split; [exact E|eauto]. }
  destruct H2 as (Himg & Hb2 & Hd2 & Hs2).
  destruct (shows_alloc_pages _ _ _ _ _ _ _ STACK_PAGES Hb2 Hs2 ltac:(done)) as (us & k3 & -> & H3). rewrite bind_Some.
  destruct H3 as [[-> ->]|(A1 & A2 & A3 & A4 & [s3 ->] & Hb3 & He3)].
  { rewrite decide_True by done. destruct (grew_free_tables _ _ _ _ _ _ Hb2) as (k4 & -> & Hg4 & _). rewrite bind_Some.
    destruct (fork_back k0 L k4 t ks _ Hg4 Ht Hks0 Hks) as (k5 & X & E & H5). exists None, k5. split; [exact E|eauto]. }
  rewrite decide_False by lia. destruct (kframes_run k0 (u_ustack_phys u) STACK_PAGES Hi0 ltac:(done) Rst) as (_ & Hsal & _).
  set (k3 := set_pages k2 s3) in *. set (D3 := image_frames img ∪ pages_at ks TASK_STACK_PAGES) in *.
  destruct (built_copied _ _ k3 _ _ _ us (u_ustack_phys u) STACK_PAGES Hb3 (union_subseteq_l _ _) A2 ltac:(done) Hsal Rst) as (k4 & E4 & Hb4 & _ & Ept4 & _ & Hsb4 & Hkr4).
  cbv zeta. rewrite E4. clear E4.
  destruct (shows_map _ _ k4 _ _ _ _ stack_user_lo us STACK_PAGES stack_flags Hb4 (exact_shows _ _ _ (exact_pt _ _ _ _ Ept4 He3)) stack_range) as (k5 & T5 & -> & Hb5 & Hk5 & Hs5 & _);
    [lia|unfold PHYS_LIMIT in *; lia|]. rewrite bind_Some. fold (stack_run us) in Hs5.
  assert (k_ram k5 = k_ram k4) as Er5 by (by destruct Hk5 as [t5 ->]). clear Hk5.
  assert (D3 ## pages_at us STACK_PAGES) as Hdu.
  { intros x Hx Hy. apply (A4 x Hy). rewrite (gw_frames _ _ _ _ (bt_grew _ _ _ _ _ _ Hb2)). apply elem_of_union_l, elem_of_union_l, Hx. }
  destruct (copy_grown_spec k0 L l0 _ Hi0 Rgr k5 T5 _ [] _ Hb5 Hs5) as (gs & k6 & T6 & -> & Hb6 & Hd6 & Hk6 & H6). rewrite bind_Some, app_nil_l.
  assert (shows k6 l0 (reverse (grown_run <$> gs) ++ stack_run us :: image_runs sy img)) as Hs6 by (destruct H6 as [?|[_ ?]]; [by right|by left]).
  destruct (shows_alloc_page _ _ _ _ _ _ _ Hb6 Hs6) as (tls & k7 & E7 & H7). rewrite E7, bind_Some.
  destruct H7 as [[-> ->]|(B1 & B2 & B3 & B4 & [s7 ->] & Hb7 & He7)].
  { rewrite decide_True by done. assert (pages_at us STACK_PAGES ⊆ gframes gs ∪ (pages_at us STACK_PAGES ∪ D3)) as Hus by exact (fork_sub4 _ _ _).
    destruct (built_free_pages _ _ _ _ _ _ us STACK_PAGES Hb6 Hus (Z.lt_le_incl _ _ A1) A3) as (k8 & -> & Hb8). rewrite bind_Some.
    destruct (grew_free_tables _ _ _ _ _ _ Hb8) as (k9 & -> & Hg9 & _). rewrite bind_Some.
    assert ((gframes gs ∪ (pages_at us STACK_PAGES ∪ D3)) ∖ pages_at us STACK_PAGES = (gframes gs ∖ pages_at us STACK_PAGES ∪ image_frames img ∖ pages_at us STACK_PAGES) ∪ pages_at ks TASK_STACK_PAGES) as Eset
      by exact (fork_left _ _ _ _ Hdu).
    rewrite Eset in Hg9. destruct (fork_back k0 L k9 t ks _ Hg9 Ht Hks0 Hks) as (k10 & X & E & H10). exists None, k10. split; [exact E|eauto]. }
  rewrite decide_False by lia. assert (¬ starved (pages (k_heap k6))) as Hns by (eapply starved_alloc; [exact E7|lia]). clear E7.
  destruct H6 as [?|[Hgc _]]; [done|].
  set (D6 := gframes gs ∪ (pages_at us STACK_PAGES ∪ D3)) in *. set (k7 := set_pages k6 s7) in *.
  assert (tls ∉ D6) as Htd. { intros Hx. apply B4. rewrite (gw_frames _ _ _ _ (bt_grew _ _ _ _ _ _ Hb6)). apply elem_of_union_l, elem_of_union_l, Hx. }
  assert (pages_at tls 1 ⊆ {[tls]} ∪ D6) as Hts by (rewrite pages_at_1; apply union_subseteq_l).
  destruct (built_cleared _ _ k7 _ _ _ tls 1 _ Hb7 He7 Hts B2 ltac:(done)) as (k8 & E8 & Hb8 & He8 & Hm8). rewrite E8. clear E8.
  destruct (shows_map _ _ k8 l0 _ _ _ USER_TLS_BASE tls 1 stack_flags Hb8 (exact_shows _ _ _ He8) tls_range) as (k9 & T9 & -> & Hb9 & Hk9 & Hs9 & Hr9 & Hi9);
    [lia|unfold PHYS_LIMIT, PAGE_SIZE in *; lia|]. rewrite bind_Some. fold (tls_run tls) in Hr9, Hi9.
  assert (k_ram k9 = k_ram k8) as Er9 by (by destruct Hk9 as [t9 ->]). clear Hk9.
  assert (ram_kept D6 k6 k9) as Hk69.
  { intros x Hx. rewrite Er9, Hm8, decide_False; [done|]. intros Hr. apply Htd. replace tls with (x / PAGE_SIZE * PAGE_SIZE); [done|]. clear - Hr B2. unfold PAGE_SIZE in *. dlia. }
  assert (ram_kept (pages_at us STACK_PAGES) k4 k9) as Hku.
  { eapply ram_kept_trans; [by apply (ram_kept_refl _ k4 k5)|]. eapply ram_kept_trans; [eapply ram_kept_sub; [|exact Hk6]; apply union_subseteq_l|].
    eapply ram_kept_sub; [|exact Hk69]. exact (fork_sub4 _ _ _). }
  assert (ram_kept (image_frames img) k2 k9) as Hki.
  { eapply ram_kept_trans; [eapply ram_kept_sub; [|exact Hkr4]; exact (fork_sub1 _ _ _ Hdu)|]. eapply ram_kept_trans; [by apply (ram_kept_refl _ k4 k5)|].
    eapply ram_kept_trans; [eapply ram_kept_sub; [|exact Hk6]; exact (fork_sub2 _ _ _)|]. eapply ram_kept_sub; [|exact Hk69]. exact (fork_sub3 _ _ _ _). }
  eexists (Some _), k9. split; [reflexivity|]. exists T9. constructor; cbn [f_l0 f_image f_stack f_grown f_tls].
  - exact Hb9.
  - exact Hl0.
  - exact (conj A1 (conj A2 A3)).
  - exact (conj B1 (conj B2 B3)).
  - exact Hd2.
  - clear - Hdu. symmetry. exact Hdu.
  - exact Hd6.
  - exact Htd.
  - eapply image_copy_kept; [exact Himg|reflexivity|exact Hki].
  - eapply same_bytes_kept; [exact Hsb4|reflexivity|exact A2|exact Hku].
  - eapply grown_copies_kept; [exact Hgc| |exact Hk69]. apply union_subseteq_l.
  - intros x Hx. rewrite Er9, Hm8, decide_True; [done|]. clear - Hx. lia.
  - intros a Ha Hn. rewrite Hr9 by done. exact (He8 a Ha).
  - intros a Ha Hin. destruct Hs9 as [He9|Hs9]; [left; rewrite (He9 a Ha); cbn [run_view]; by rewrite decide_True|].
    destruct (Hi9 a Ha Hin) as [E|E]; [left; exact E|right]. split; [exact Hs9|]. rewrite E. exact (He8 a Ha).
Qed.
End Copy.

(** ** The areas *)

Section Areas.
Context {S : Type} `{!PageAllocator S}.
Implicit Types (k : kernel S) (T : tree) (v : vma).

(** A page of an area and the child's page for it. *)
Definition page_copy k0 k (x y : Z) : Prop :=
  x = 0 ∧ y = 0 ∨ x ≠ 0 ∧ 0 < y ∧ y mod PAGE_SIZE = 0 ∧ y + PAGE_SIZE ≤ PHYS_LIMIT ∧ same_bytes k0 x k y 1.

Lemma page_copy_kept k0 k x y X k' : page_copy k0 k x y → (y ≠ 0 → y ∈ X) → ram_kept X k k' → page_copy k0 k' x y.
Proof.
  intros [?|(? & ? & Hal & ? & Hsb)] Hs Hk; [by left|right]. do 4 (split; [done|]). eapply same_bytes_kept; [done| |done|done].
  rewrite pages_at_1. assert (y ∈ X) by (apply Hs; lia). set_solver.
Qed.

(** [a] lies in page [i] of the area. *)
Definition in_page v (i : nat) (a : Z) : Prop := v_start v + Z.of_nat i * PAGE_SIZE ≤ a < v_start v + Z.of_nat i * PAGE_SIZE + PAGE_SIZE.
#[global] Instance in_page_dec v i a : Decision (in_page v i a).
Proof. unfold in_page. apply _. Defined.
Definition area_flags v : Z := mmu_prot_to_flags (v_prot v).
Abbreviation nonzero := (filter (λ x : Z, x ≠ 0)).

Lemma built_arrs k0 L k l0 T X A :
  built k0 L k l0 T X → (∀ p, p ∈ klive k0 → A !! p = k_arrs k !! p) → built k0 L (set_arrs k A) l0 T X.
Proof.
  intros Hb HA. pose proof Hb as [[Hi Hf Hn Hk Hl Ha Hs] Ht Hd].
  apply (built_step k0 L k l0 T X L (set_arrs k A) X); [done| |done|done]. constructor; try done. intros p Hp. cbn. by rewrite HA, Ha.
Qed.

Lemma priv_pages_starved k l0 v pi n f k' :
  starved (pages (k_heap k)) → priv_pages k l0 v pi n = Some (f, k') → starved (pages (k_heap k')).
Proof.
  intros Hs. revert pi. induction n as [|n IH]; intros pi; cbn [priv_pages]; [by intros [= <- <-]|].
  destruct (k_arrs k !! v_pages v) as [ps|]; [|done]. rewrite bind_Some. destruct (ps !! pi) as [x|]; [|done]. rewrite bind_Some.
  case_decide; [apply IH|]. unfold alloc_page. unfold starved in Hs. rewrite Hs, !bind_Some, decide_True by done. by intros [= <- <-].
Qed.

Lemma filter_split (arr : list Z) (pi n : nat) y :
  arr !! pi = Some y → nonzero (take (Datatypes.S n) (drop pi arr)) = (if decide (y ≠ 0) then [y] else []) ++ nonzero (take n (drop (Datatypes.S pi) arr)).
Proof. intros Hy. rewrite (drop_S arr y pi Hy). cbn [take]. rewrite filter_cons. by case_decide. Qed.

Lemma priv_pages_spec k0 L l0 v n :
  kinv k0 → v_pages v ∉ klive k0 →
  ∀ (pi : nat) k T X arr, built k0 L k l0 T X → k_arrs k !! v_pages v = Some arr → (pi + n ≤ length arr)%nat →
  (∀ i x, (pi ≤ i < pi + n)%nat → arr !! i = Some x → x ≠ 0 → x ∈ kframes k0) → user_range (v_start v) (Z.of_nat (pi + n)) →
  ∃ f k' T' arr' N, priv_pages k l0 v pi n = Some (f, k') ∧ built k0 L k' l0 T' (list_to_set N ∪ X) ∧ NoDup N ∧ (list_to_set N ## X) ∧
    k_arrs k' = <[v_pages v := arr']> (k_arrs k) ∧ ram_kept X k k' ∧
    (f = false → (∀ a, 0 ≤ a < 2 ^ 48 → (∀ i y, (pi ≤ i < pi + n)%nat → arr' !! i = Some y → y ≠ 0 → ¬ in_page v i a) →
        hw_pte (k_pt k') l0 a = hw_pte (k_pt k) l0 a) ∧ length arr' = length arr ∧ (∀ i, ¬ (pi ≤ i < pi + n)%nat → arr' !! i = arr !! i) ∧ N = nonzero (take n (drop pi arr')) ∧
      (∀ i x, (pi ≤ i < pi + n)%nat → arr !! i = Some x → ∃ y, arr' !! i = Some y ∧ page_copy k0 k' x y) ∧
      (starved (pages (k_heap k')) ∨ ∀ i y a, (pi ≤ i < pi + n)%nat → arr' !! i = Some y → y ≠ 0 → in_page v i a →
        hw_pte (k_pt k') l0 a = Some (page_desc y (area_flags v)))).
Proof.
  intros Hi0 Hp. induction n as [|n IH]; intros pi k T X arr Hb Harr Hlen Hsrc Hu; cbn [priv_pages].
  { exists false, k, T, arr, []. split; [done|]. cbn. rewrite union_empty_l_L. split; [done|]. split; [constructor|]. split; [set_solver|].
    split; [by rewrite insert_id|]. split; [by apply ram_kept_refl|]. intros _. do 4 (split; [done|]). split; [intros; lia|]. right. intros. lia. }
  rewrite Harr, bind_Some. destruct (lookup_lt_is_Some_2 arr pi ltac:(lia)) as [x Hx]. rewrite Hx, bind_Some.
  assert (user_range (v_start v) (Z.of_nat (Datatypes.S pi + n))) as Hu' by (by replace (Datatypes.S pi + n)%nat with (pi + Datatypes.S n)%nat by lia).
  case_decide as Hx0.
  - destruct (IH (Datatypes.S pi) k T X arr Hb Harr ltac:(lia)) as (f & k' & T' & arr' & N & -> & Hb' & HN & Hd & Ea & Hk & Hf); [|done|].
    { intros i z Hi. apply Hsrc. lia. }
    exists f, k', T', arr', N. do 6 (split; [done|]).
    intros Ef. destruct (Hf Ef) as (Hv & Hl & Ho & EN & Hc & Hw).
    split; [intros a Ha Hn; apply Hv; [done|]; intros i y Hi; apply Hn; lia|]. split; [done|]. split; [intros i Hi; apply Ho; lia|].
    assert (arr' !! pi = Some 0) as Hpi by (rewrite Ho by lia; by rewrite Hx, Hx0).
    split; [|split].
    + rewrite (filter_split arr' pi n 0 Hpi). by rewrite decide_False by (by intros []).
    + intros i z Hi Hz. destruct (decide (i = pi)) as [->|]; [|apply Hc; [lia|done]]. exists 0. split; [done|]. left. split; [congruence|done].
    + destruct Hw as [?|Hw]; [by left|right]. intros i y a Hi Hy Hy0 Ha. destruct (decide (i = pi)) as [->|]; [congruence|]. apply (Hw i); [lia|done..].
  - assert (x ∈ kframes k0) as Hxk by (apply (Hsrc pi); [lia|done|done]). destruct (kframes_page k0 x Hi0 Hxk) as (_ & Hxal & _).
    destruct (built_alloc_page _ _ _ _ _ _ Hb) as (y & k1 & E1 & H1). rewrite E1, bind_Some.
    destruct H1 as [[-> ->]|(A1 & A2 & A3 & A4 & [s1 ->] & Hb1 & Hhw1)].
    { rewrite decide_True by done. exists true, k, T, arr, []. split; [done|]. cbn. rewrite union_empty_l_L. split; [done|]. split; [constructor|].
      split; [set_solver|]. split; [by rewrite insert_id|]. split; [by apply ram_kept_refl|]. done. }
    rewrite decide_False by lia. set (k1 := set_pages k s1) in *. clear E1.
    assert (pages_at y 1 ⊆ {[y]} ∪ X) as Hy1 by (rewrite pages_at_1; apply union_subseteq_l).
    assert (pages_at x 1 ⊆ kframes k0) as Hx1 by (rewrite pages_at_1; clear - Hxk; set_solver).
    destruct (built_copied _ _ k1 _ _ _ y x 1 Hb1 Hy1 A2 ltac:(lia) Hxal Hx1) as (k2 & E2 & Hb2 & Eh2 & Ept2 & Ea2 & Hsb & Hkr).
    cbv zeta. rewrite E2. clear E2. rewrite pages_at_1 in Hkr. set (arr1 := <[pi := y]> arr).
    assert (k_arrs k2 = k_arrs k) as Ea2' by exact Ea2. rewrite Ea2'.
    pose proof (built_arrs _ _ k2 _ _ _ (<[v_pages v := arr1]> (k_arrs k)) Hb2) as Hb3.
    specialize (Hb3 ltac:(intros p Hpl; rewrite lookup_insert_ne; [by rewrite Ea2'|by intros <-])). set (k3 := set_arrs k2 _) in *.
    destruct (built_map _ _ k3 _ _ _ (v_start v + Z.of_nat pi * PAGE_SIZE) y 1 (area_flags v) Hb3) as (k4 & T4 & j & E4 & Hb4 & Hk4 & Hj & Hst & Hhw4).
    { destruct Hu as (U1 & U2 & U3 & U4). unfold user_range, PAGE_SIZE in *. split_and!; [lia| |lia|lia]. rewrite <- (Z.mod_add (v_start v) (Z.of_nat pi)) in U2 by lia. exact U2. }
    { lia. }
    { unfold PHYS_LIMIT, PAGE_SIZE in *. lia. }
    unfold area_flags in E4. rewrite E4, bind_Some.
    assert (k_arrs k4 = <[v_pages v := arr1]> (k_arrs k) ∧ k_ram k4 = k_ram k2) as [Ea4 Er4] by (by destruct Hk4 as [t4 ->]). clear Hk4 E4.
    destruct (IH (Datatypes.S pi) k4 T4 ({[y]} ∪ X) arr1 Hb4) as (f & k' & T' & arr' & N & Erec & Hb' & HN & Hd & Ea & Hk & Hf).
    { by rewrite Ea4, lookup_insert_eq. }
    { unfold arr1. rewrite length_insert. lia. }
    { intros i z Hi Hz. apply (Hsrc i); [lia|]. unfold arr1 in Hz. by rewrite list_lookup_insert_ne in Hz by lia. }
    { done. }
    rewrite Erec. assert (y ∉ X) as HyX. { intros Hin. apply A4. rewrite (gw_frames _ _ _ _ (bt_grew _ _ _ _ _ _ Hb)). apply elem_of_union_l, elem_of_union_l, Hin. }
    assert (y ∉ (list_to_set N : gset Z)) as HyN. { intros Hin. apply (Hd y Hin). apply elem_of_union_l, elem_of_singleton_2. reflexivity. }
    assert (ram_kept ({[y]} ∪ X) k2 k') as Hk2. { eapply ram_kept_trans; [apply (ram_kept_refl _ k2 k4); exact Er4|exact Hk]. }
    exists f, k', T', arr', (y :: N). split; [reflexivity|]. split; [|split; [|split; [|split; [|split]]]].
    + rewrite list_to_set_cons, (comm_L (∪) {[y]}), <- (assoc_L (∪)). exact Hb'.
    + constructor; [|exact HN]. intros Hin. apply HyN, elem_of_list_to_set, Hin.
    + rewrite list_to_set_cons. clear - Hd HyX. set_solver.
    + rewrite Ea, Ea4. apply insert_insert_eq.
    + eapply ram_kept_trans; [|eapply ram_kept_sub; [|exact Hk2]; apply union_subseteq_r]. eapply ram_kept_sub; [|exact Hkr]. clear - HyX. set_solver.
    + intros Ef. destruct (Hf Ef) as (Hv & Hl & Ho & EN & Hc & Hw).
      assert (arr' !! pi = Some y) as Hpi. { rewrite Ho by (clear; lia). unfold arr1. apply list_lookup_insert_eq. clear - Hlen. lia. }
      split.
      { intros a Ha Hn. rewrite Hv by (first [exact Ha|intros i z Hi; apply Hn; clear - Hi; lia]). rewrite Hhw4 by exact Ha.
        rewrite decide_False; [change (k_pt k3) with (k_pt k2); rewrite Ept2; apply Hhw1|]. intros Hr.
        apply (Hn pi y); [clear; lia|exact Hpi|clear - A1; lia|]. unfold in_page. clear - Hr Hj. unfold PAGE_SIZE in *. nia. }
      split; [rewrite Hl; apply length_insert|]. split; [|split; [|split]].
      * intros i Hi. rewrite Ho by (clear - Hi; lia). unfold arr1. apply list_lookup_insert_ne. clear - Hi. lia.
      * rewrite (filter_split arr' pi n y Hpi), decide_True by (clear - A1; lia). cbn. by rewrite EN.
      * intros i z Hi Hz. destruct (decide (i = pi)) as [->|Hne].
        -- exists y. split; [exact Hpi|]. assert (z = x) as -> by congruence. eapply page_copy_kept; [|intros _; apply elem_of_union_l, elem_of_singleton_2; reflexivity|exact Hk2].
           right. exact (conj Hx0 (conj A1 (conj A2 (conj A3 Hsb)))).
        -- apply Hc; [clear - Hi Hne; lia|]. unfold arr1. rewrite list_lookup_insert_ne by done. exact Hz.
      * destruct Hst as [->|Hst]; [|left; exact (priv_pages_starved _ _ _ _ _ _ _ Hst Erec)].
        destruct Hw as [?|Hw]; [by left|right]. intros i z a Hi Hz Hz0 Ha. destruct (decide (i = pi)) as [->|Hne].
        -- assert (z = y) as -> by congruence. unfold in_page in Ha. destruct Hu as (U1 & U2 & U3 & U4).
           assert (0 ≤ a < 2 ^ 48) as Ha48 by (clear - Ha U1 U4; unfold PAGE_SIZE in *; lia).
           rewrite Hv by (first [exact Ha48|intros i' z' Hi' _ _ Hp'; clear - Ha Hi' Hp'; unfold in_page, PAGE_SIZE in *; lia]). rewrite Hhw4 by exact Ha48.
           rewrite decide_True by (clear - Ha; lia). do 2 f_equal. clear - Ha. unfold PAGE_SIZE in *. dlia.
        -- apply (Hw i); [clear - Hi Hne; lia|exact Hz|exact Hz0|exact Ha].
Qed.

(** The loop over the areas as long as no page runs out; [true] when one did. *)
Fixpoint priv_areas k (l0 : Z) (es : list vma) : option (bool * kernel S) :=
  match es with
  | [] => Some (false, k)
  | cv :: es' =>
      '(failed, k) ← priv_pages k l0 cv 0 (Z.to_nat (vma_npages cv));
      if (failed : bool) then Some (true, k) else priv_areas k l0 es'
  end.

Lemma priv_loop_areas l0 es2 : ∀ es1 k k' m,
  priv_areas k l0 es2 = Some (false, k') → priv_loop (Datatypes.S (length es2) + m) k l0 (es1 ++ es2) (length es1) = Some (es1 ++ es2, k').
Proof.
  induction es2 as [|cv es2 IH]; intros es1 k k' m E; cbn [priv_areas length Nat.add priv_loop] in *.
  - injection E as ->. rewrite app_nil_r. by rewrite (lookup_ge_None_2 es1 (length es1)) by lia.
  - rewrite list_lookup_middle by done. revert E. destruct (priv_pages k l0 cv 0 (Z.to_nat (vma_npages cv))) as [[f k1]|]; [|done]. rewrite !bind_Some. intros E.
    destruct f; [done|]. specialize (IH (es1 ++ [cv]) k1 k' m E). rewrite <- app_assoc, length_app in IH. cbn [length app Nat.add] in IH.
    rewrite Nat.add_1_r in IH. exact IH.
Qed.

Lemma priv_areas_starved l0 es : ∀ k f k', starved (pages (k_heap k)) → priv_areas k l0 es = Some (f, k') → starved (pages (k_heap k')).
Proof.
  induction es as [|v es IH]; intros k f k' Hs; cbn [priv_areas]; [by intros [= <- <-]|].
  destruct (priv_pages k l0 v 0 (Z.to_nat (vma_npages v))) as [[f1 k1]|] eqn:E1; [|done]. rewrite bind_Some.
  pose proof (priv_pages_starved _ _ _ _ _ _ _ Hs E1) as Hs1. destruct f1; [by intros [= <- <-]|]. by apply IH.
Qed.

(** The page [y] that the areas [es] record for the address [a]. *)
Definition area_page k (es : list vma) (a y fl : Z) : Prop :=
  ∃ v i, v ∈ es ∧ backing (k_vm k) v !! i = Some y ∧ y ≠ 0 ∧ in_page v i a ∧ fl = area_flags v.

(** An area whose pages can be copied. *)
Definition area_ready k0 k v : Prop :=
  (v_pages v ∉ klive k0) ∧ user_range (v_start v) (vma_npages v) ∧ v_end v = v_start v + vma_npages v * PAGE_SIZE ∧
  (∃ arr, k_arrs k !! v_pages v = Some arr ∧ (Z.to_nat (vma_npages v) ≤ length arr)%nat) ∧
  ∀ x, x ∈ backing (k_vm k) v → x ≠ 0 → x ∈ kframes k0.

Lemma backing_lookup k v arr i : k_arrs k !! v_pages v = Some arr → (i < Z.to_nat (vma_npages v))%nat → backing (k_vm k) v !! i = arr !! i.
Proof. intros E Hi. unfold backing. cbn. rewrite E. cbn. by rewrite lookup_take_lt. Qed.

Lemma backing_arrs k k' v : k_arrs k' !! v_pages v = k_arrs k !! v_pages v → backing (k_vm k') v = backing (k_vm k) v.
Proof. intros E. unfold backing. cbn. by rewrite E. Qed.

Lemma backing_lt k v i y : backing (k_vm k) v !! i = Some y → (i < Z.to_nat (vma_npages v))%nat.
Proof. intros H%lookup_lt_Some. unfold backing in H. rewrite length_take in H. lia. Qed.

(** One area, in terms of the pages it records. *)
Lemma priv_area_spec k0 L l0 v k T X :
  kinv k0 → built k0 L k l0 T X → area_ready k0 k v →
  ∃ f k' T' N, priv_pages k l0 v 0 (Z.to_nat (vma_npages v)) = Some (f, k') ∧ built k0 L k' l0 T' (list_to_set N ∪ X) ∧ NoDup N ∧ (list_to_set N ## X) ∧
    (∀ p, p ≠ v_pages v → k_arrs k' !! p = k_arrs k !! p) ∧ ram_kept X k k' ∧
    (f = false → (∃ arr, k_arrs k' !! v_pages v = Some arr ∧ (Z.to_nat (vma_npages v) ≤ length arr)%nat) ∧ N = nonzero (backing (k_vm k') v) ∧
      Forall2 (page_copy k0 k') (backing (k_vm k) v) (backing (k_vm k') v) ∧
      (∀ a, 0 ≤ a < 2 ^ 48 → (∀ y fl, ¬ area_page k' [v] a y fl) → hw_pte (k_pt k') l0 a = hw_pte (k_pt k) l0 a) ∧
      (starved (pages (k_heap k')) ∨ ∀ a y fl, area_page k' [v] a y fl → hw_pte (k_pt k') l0 a = Some (page_desc y fl))).
Proof.
  intros Hi0 Hb (Hp & Hu & He & (arr & Harr & Hlen) & Hsrc). set (n := Z.to_nat (vma_npages v)) in *.
  assert (Z.of_nat (0 + n) = vma_npages v) as En by (unfold n; destruct Hu; lia).
  destruct (priv_pages_spec k0 L l0 v n Hi0 Hp 0 k T X arr Hb Harr Hlen) as (f & k' & T' & arr' & N & E & Hb' & HN & Hd & Ea & Hk & Hf).
  { intros i x Hi Hx. apply Hsrc. eapply list_elem_of_lookup_2. rewrite (backing_lookup k v arr i Harr) by (unfold n in *; lia). exact Hx. }
  { by rewrite En. }
  exists f, k', T', N. split; [done|]. do 3 (split; [done|]). split; [intros p Hne; by rewrite Ea, lookup_insert_ne|]. split; [done|].
  intros Ef. destruct (Hf Ef) as (Hv & Hl & _ & EN & Hc & Hw). assert (k_arrs k' !! v_pages v = Some arr') as Harr' by (by rewrite Ea, lookup_insert_eq).
  assert (∀ i y, backing (k_vm k') v !! i = Some y → (i < n)%nat ∧ arr' !! i = Some y) as Hbk.
  { intros i y Hy. pose proof (backing_lt _ _ _ _ Hy). split; [done|]. by rewrite <- (backing_lookup k' v arr' i Harr'). }
  split; [exists arr'; by rewrite Hl|]. split; [rewrite EN; unfold backing; cbn; by rewrite Harr'|]. split; [|split].
  - unfold backing. cbn. rewrite Harr, Harr'. cbn. fold n. apply Forall2_same_length_lookup. split; [rewrite !length_take; lia|].
    intros i x y Hx Hy. apply lookup_take_Some in Hx as [Hx Hi], Hy as [Hy _]. destruct (Hc i x) as (z & Hz & Hpc); [lia|done|]. by simplify_eq.
  - intros a Ha Hn. apply Hv; [done|]. intros i y Hi Hy Hy0 Hin. apply (Hn y (area_flags v)). exists v, i. split; [by left|].
    rewrite (backing_lookup k' v arr' i Harr') by (unfold n in *; lia). done.
  - destruct Hw as [?|Hw]; [by left|right]. intros a y fl (v' & i & ->%list_elem_of_singleton & [Hi Hy]%Hbk & Hy0 & Hin & ->). apply (Hw i); [lia|done..].
Qed.

(** The addresses of a recorded page. *)
Definition area_size v : Prop := user_range (v_start v) (vma_npages v) ∧ v_end v = v_start v + vma_npages v * PAGE_SIZE.

Lemma area_page_span k es a y fl :
  Forall area_size es → area_page k es a y fl → (∃ v, v ∈ es ∧ v_start v ≤ a < v_end v) ∧ 0 ≤ a < 2 ^ 48.
Proof.
  intros Hs (v & i & Hv & Hi%backing_lt & _ & Ha & _). rewrite Forall_forall in Hs. destruct (Hs v Hv) as [(U1 & U2 & U3 & U4) E].
  unfold in_page in Ha. split; [exists v; split; [done|rewrite E]|]; unfold PAGE_SIZE in *; lia.
Qed.

Lemma area_page_cons k v es a y fl : area_page k (v :: es) a y fl ↔ area_page k [v] a y fl ∨ area_page k es a y fl.
Proof.
  split.
  - intros (w & i & [->|Hw]%elem_of_cons & H); [left; exists v, i; split; [by left|done]|right; by exists w, i].
  - intros [(w & i & ->%list_elem_of_singleton & H)|(w & i & Hw & H)]; [exists v, i|exists w, i]; (split; [set_solver|done]).
Qed.

Lemma area_page_arrs k k' es a y fl :
  (∀ v, v ∈ es → k_arrs k' !! v_pages v = k_arrs k !! v_pages v) → area_page k es a y fl → area_page k' es a y fl.
Proof. intros E (v & i & Hv & Hi & H). exists v, i. split; [done|]. by rewrite (backing_arrs k k') by (by apply E). Qed.

Lemma area_ready_arrs k0 k k' v : k_arrs k' !! v_pages v = k_arrs k !! v_pages v → area_ready k0 k v → area_ready k0 k' v.
Proof. intros E (? & ? & ? & ? & ?). unfold area_ready. rewrite E, (backing_arrs k k' v E). done. Qed.

Definition area_copy k0 k k' v : Prop :=
  (∃ arr, k_arrs k' !! v_pages v = Some arr ∧ (Z.to_nat (vma_npages v) ≤ length arr)%nat) ∧
  Forall2 (page_copy k0 k') (backing (k_vm k) v) (backing (k_vm k') v).

(** The two parts of a list of areas that share no address. *)
Lemma areas_apart k v es a y y' fl fl' :
  Forall area_size (v :: es) → Forall (vma_before v) es → area_page k [v] a y fl → area_page k es a y' fl' → False.
Proof.
  intros [Hv Hes]%Forall_cons Hb H1 H2. destruct (area_page_span k [v] a y fl) as [(w & ->%list_elem_of_singleton & Hw) _]; [by constructor|done|].
  destruct (area_page_span k es a y' fl' Hes H2) as [(w & Hin & Hw2) _]. rewrite Forall_forall in Hb. specialize (Hb w Hin). unfold vma_before in Hb. lia.
Qed.

Lemma page_copies_kept k0 k bs bs' X k' :
  Forall2 (page_copy k0 k) bs bs' → (list_to_set (nonzero bs') : gset Z) ⊆ X → ram_kept X k k' → Forall2 (page_copy k0 k') bs bs'.
Proof.
  intros H Hs Hk. assert (∀ y, y ∈ bs' → y ≠ 0 → y ∈ X) as Hx.
  { intros y Hy Hy0. apply Hs, elem_of_list_to_set, list_elem_of_filter. done. }
  clear Hs. induction H as [|x y bs bs' Hxy H IH]; constructor.
  - eapply page_copy_kept; [done|apply Hx; by left|done].
  - apply IH. intros z Hz. apply Hx. by right.
Qed.

Lemma priv_areas_spec k0 L l0 es :
  kinv k0 → ∀ k T X, built k0 L k l0 T X → Forall (area_ready k0 k) es → pairwise vma_before es → NoDup (v_pages <$> es) →
  ∃ f k' T' N, priv_areas k l0 es = Some (f, k') ∧ built k0 L k' l0 T' (list_to_set N ∪ X) ∧ NoDup N ∧ (list_to_set N ## X) ∧
    (∀ p, p ∉ v_pages <$> es → k_arrs k' !! p = k_arrs k !! p) ∧ ram_kept X k k' ∧
    (f = false → N = resident (k_vm k') es ∧ Forall (area_copy k0 k k') es ∧
      (∀ a, 0 ≤ a < 2 ^ 48 → (∀ y fl, ¬ area_page k' es a y fl) → hw_pte (k_pt k') l0 a = hw_pte (k_pt k) l0 a) ∧
      (starved (pages (k_heap k')) ∨ ∀ a y fl, area_page k' es a y fl → hw_pte (k_pt k') l0 a = Some (page_desc y fl))).
Proof.
  intros Hi0. induction es as [|v es IH]; intros k T X Hb Hr Hs Hn; cbn [priv_areas].
  { exists false, k, T, []. cbn. rewrite union_empty_l_L. split; [done|]. split; [done|]. split; [constructor|]. split; [set_solver|]. split; [done|].
    split; [by apply ram_kept_refl|]. intros _. split; [done|]. split; [constructor|]. split; [done|]. right. by intros a y fl (v & i & []%not_elem_of_nil & _). }
  apply Forall_cons in Hr as [Hrv Hr]. destruct Hs as [Hbv Hs]. apply NoDup_cons in Hn as [Hnv Hn].
  assert (Forall area_size (v :: es)) as Hsz.
  { constructor; [by destruct Hrv as (_ & ? & ? & _)|]. eapply Forall_impl; [exact Hr|]. by intros w (_ & ? & ? & _). }
  destruct (priv_area_spec k0 L l0 v k T X Hi0 Hb Hrv) as (f & k1 & T1 & N1 & -> & Hb1 & HN1 & Hd1 & Ha1 & Hk1 & Hf1). rewrite bind_Some.
  destruct f.
  { exists true, k1, T1, N1. do 4 (split; [done|]). split; [|by split]. intros p Hp. apply Ha1. intros ->. apply Hp. by left. }
  destruct (Hf1 eq_refl) as (Harr1 & EN1 & Hc1 & Hv1 & Hw1). clear Hf1.
  assert (∀ w, w ∈ es → k_arrs k1 !! v_pages w = k_arrs k !! v_pages w) as He1.
  { intros w Hw. apply Ha1. intros E. apply Hnv. rewrite <- E. by apply list_elem_of_fmap_2. }
  destruct (IH k1 T1 _ Hb1) as (f & k2 & T2 & N2 & E2 & Hb2 & HN2 & Hd2 & Ha2 & Hk2 & Hf2); [|done|done|].
  { rewrite Forall_forall in Hr |- *. intros w Hw. eapply area_ready_arrs; [by apply He1|by apply Hr]. }
  clear IH. assert (k_arrs k2 !! v_pages v = k_arrs k1 !! v_pages v) as Ev by (by apply Ha2).
  exists f, k2, T2, (N1 ++ N2). split; [done|]. rewrite list_to_set_app_L. split; [|split; [|split; [|split; [|split]]]].
  - rewrite (comm_L (∪) (list_to_set N1)), <- (assoc_L (∪)). exact Hb2.
  - apply NoDup_app. split; [done|]. split; [|done]. intros x H1 H2. apply (Hd2 x); [by apply elem_of_list_to_set|]. apply elem_of_union_l. by apply elem_of_list_to_set.
  - clear - Hd1 Hd2. set_solver.
  - intros p [Hp1 Hp2]%not_elem_of_cons. rewrite Ha2, Ha1 by done. done.
  - eapply ram_kept_trans; [exact Hk1|]. eapply ram_kept_sub; [|exact Hk2]. apply union_subseteq_r.
  - intros ->. destruct (Hf2 eq_refl) as (EN2 & Hc2 & Hv2 & Hw2). clear Hf2.
    assert (∀ a y fl, area_page k2 [v] a y fl → area_page k1 [v] a y fl) as H21.
    { intros a y fl. apply area_page_arrs. by intros w ->%list_elem_of_singleton. }
    assert (∀ a y fl, area_page k1 [v] a y fl → area_page k2 [v] a y fl) as H12.
    { intros a y fl. apply area_page_arrs. by intros w ->%list_elem_of_singleton. }
    split; [by rewrite resident_cons, (backing_arrs k1 k2 v Ev), <- EN1, <- EN2|]. split; [|split].
    + constructor.
      * split; [by rewrite Ev|]. rewrite (backing_arrs k1 k2 v Ev). eapply page_copies_kept; [exact Hc1| |exact Hk2]. rewrite <- EN1. apply union_subseteq_l.
      * rewrite Forall_forall in Hc2 |- *. intros w Hw. destruct (Hc2 w Hw) as [Hl Hc]. split; [done|]. by rewrite <- (backing_arrs k k1 w) by (by apply He1).
    + intros a Ha Hno. rewrite Hv2, Hv1; [done|done| |done|].
      * intros y fl H. apply (Hno y fl), area_page_cons. left. by apply H12.
      * intros y fl H. apply (Hno y fl), area_page_cons. by right.
    + destruct Hw1 as [Hst|Hw1]; [left; exact (priv_areas_starved _ _ _ _ _ Hst E2)|]. destruct Hw2 as [?|Hw2]; [by left|right].
      intros a y fl [H|H]%area_page_cons; [|by apply Hw2]. destruct (area_page_span k2 [v] a y fl) as [_ Ha]; [apply Forall_cons in Hsz as [? _]; by constructor|done|].
      rewrite Hv2; [by apply Hw1, H21|done|]. intros y' fl' H'. exact (areas_apart k2 v es a y y' fl fl' Hsz Hbv H H').
Qed.

Lemma area_page_resident k es a y fl : area_page k es a y fl → y ∈ resident (k_vm k) es.
Proof.
  intros (v & i & Hv & Hy & Hy0 & _). unfold resident. apply list_elem_of_filter. split; [done|]. apply list_elem_of_In, in_concat.
  exists (backing (k_vm k) v). split; apply list_elem_of_In; [by apply list_elem_of_fmap_2|by eapply list_elem_of_lookup_2].
Qed.

(** *** Cloning the areas *)

Lemma vma_clone_spec k src :
  vma_wf (k_vm k) src →
  ∃ r vm dst, vma_clone (k_vm k) src = Some (r, (vm, dst)) ∧ (r = 1 ∧ cloned (k_vm k) src vm dst ∨ r = 0).
Proof.
  intros Hwf. destruct (clone_loop_spec (k_vm k) (k_vm k) [] src []) as (r & vm & dst & E & Hr); [done|..|done|].
  { constructor; simpl; try done.
    - split; [apply Hwf|]. done.
    - constructor; simpl; try done; [apply Hwf|unfold VMA_MAX_PER_TASK; lia|constructor| |constructor]. intros x []%not_elem_of_nil.
    - set_solver.
    - intros d []%not_elem_of_nil. }
  exists r, vm, dst. split; [done|]. destruct Hr as [[-> Hcl]|[-> _]]; [by left|by right].
Qed.

(** Pages or heap ran out while the areas were copied. *)
Definition areas_short k (l0 : Z) (vs : list vma) : Prop :=
  ∃ r vm es, vma_clone (k_vm k) vs = Some (r, (vm, es)) ∧
    (r = 0 ∨ ∃ f k', priv_areas (set_vm k vm) l0 es = Some (f, k') ∧ (f = true ∨ starved (pages (k_heap k')) ∧ resident (k_vm k') es ≠ [])).

(** An area of the child: its own pages with the bytes of the parent's. *)
Definition area_shared k0 k' (v e : vma) : Prop :=
  copy_of v e ∧ Forall2 (page_copy k0 k') (backing (k_vm k0) v) (backing (k_vm k') e).

Lemma built_set_vm k0 L k l0 T X vm L' :
  built k0 L k l0 T X → km_inv (kmem vm) → km_frames (kmem vm) = kframes k → km_live (kmem vm) = L' →
  (∀ p, p ∈ klive k0 → arrs vm !! p = k_arrs k !! p) → built k0 L' (set_vm k vm) l0 T X.
Proof.
  intros Hb Hi Hf Hl Ha. pose proof Hb as [[Hi0 Hf0 Hn Hk Hl0 Ha0 Hs] Ht Hd].
  apply (built_step k0 L k l0 T X L' (set_vm k vm) X); [done| |done|done]. constructor; try done.
  - exact (eq_trans Hf Hf0).
  - intros p Hp. cbn. by rewrite Ha, Ha0.
Qed.

Lemma area_size_ok k v : vma_ok (k_vm k) v → v_end v ≤ 2 ^ 48 → area_size v.
Proof.
  intros Hok He. destruct (vma_npages_ok _ _ Hok) as (_ & Hn & E). destruct Hok as (? & ? & _ & ? & _). split; [|done].
  unfold user_range. rewrite <- E. split_and!; [done|done|lia|done].
Qed.

Lemma copy_of_size v e : copy_of v e → vma_npages e = vma_npages v ∧ area_flags e = area_flags v ∧ (area_size v → area_size e).
Proof.
  intros (E1 & E2 & E3 & _). unfold vma_npages, area_flags, area_size, vma_npages. rewrite E1, E2, E3. done.
Qed.

(** The clone is ready to be made private. *)
Lemma cloned_ready k0 L k l0 T X vs vm es :
  built k0 L k l0 T X → klive k0 ⊆ L → vma_wf (k_vm k0) vs → Forall (λ v, v_end v ≤ 2 ^ 48) vs →
  cloned (k_vm k) vs vm es → backing (k_vm k) <$> vs = backing (k_vm k0) <$> vs → Forall (area_ready k0 (set_vm k vm)) es.
Proof.
  intros Hb HL Hwf Hend [_ Hcw Hcc Hcb _ _ Hfr] Hbk. apply Forall_forall. intros e He. rewrite Forall2_same_length_lookup in Hcc. destruct Hcc as [Hlen Hcc].
  apply list_elem_of_lookup in He as [i Hi]. destruct (lookup_lt_is_Some_2 vs i) as [v Hv]; [apply lookup_lt_Some in Hi; lia|].
  destruct (copy_of_size v e (Hcc i v e Hv Hi)) as (En & _ & Hsz).
  assert (v ∈ vs) as Hvin by (by eapply list_elem_of_lookup_2). pose proof (vw_ok _ _ Hwf) as Hok. rewrite Forall_forall in Hok, Hend.
  destruct Hsz as [Hu Ee]; [eapply area_size_ok; [by apply Hok|by apply Hend]|].
  pose proof (vw_ok _ _ Hcw) as Hcok. rewrite Forall_forall in Hcok. assert (e ∈ es) as Hein by (by eapply list_elem_of_lookup_2).
  split; [|split; [done|split; [done|split]]].
  - intros Hp. apply (Hfr e Hein). change (v_pages e ∈ klive k). rewrite (gw_live _ _ _ _ (bt_grew _ _ _ _ _ _ Hb)). by apply HL.
  - destruct (Hcok e Hein) as (_ & _ & _ & _ & _ & _ & arr & Ha & Hl). exists arr. split; [done|]. lia.
  - intros x Hx Hx0. assert (backing vm e = backing (k_vm k0) v) as Eb.
    { assert (Some (backing vm e) = Some (backing (k_vm k0) v)) as [=]; [|done]. rewrite <- (list_lookup_fmap_Some_2 (backing vm) es i e Hi), Hcb, Hbk. by apply list_lookup_fmap_Some_2. }
    apply (vw_frames _ _ Hwf). unfold resident. apply list_elem_of_filter. split; [done|]. apply list_elem_of_In, in_concat.
    exists (backing (k_vm k0) v). split; apply list_elem_of_In; [by apply list_elem_of_fmap_2|]. rewrite <- Eb. exact Hx.
Qed.

(** Areas that were made private form a set of their own. *)
Lemma private_wf k0 L k vm es k' l0 T' X :
  vma_wf vm es → built k0 L k' l0 T' (list_to_set (resident (k_vm k') es) ∪ X) → NoDup (resident (k_vm k') es) →
  (∀ e, e ∈ es → v_pages e ∈ L) → Forall (area_copy k0 k k') es → vma_wf (k_vm k') es.
Proof.
  intros [_ W2 W3 W4 W5 _ _] Hb Hn HL Hc. pose proof (bt_grew _ _ _ _ _ _ Hb) as Hg. constructor; try done.
  - exact (gw_inv _ _ _ _ Hg).
  - rewrite Forall_forall in *. intros e He. destruct (W3 e He) as (H1 & H2 & H3 & H4 & H5 & _). destruct (Hc e He) as [(arr & Ha & Hl) _].
    do 5 (split; [done|]). split; [change (v_pages e ∈ klive k'); rewrite (gw_live _ _ _ _ Hg); by apply HL|]. exists arr. split; [done|]. lia.
  - intros x Hx. change (x ∈ kframes k'). rewrite (gw_frames _ _ _ _ Hg). do 3 apply elem_of_union_l. by apply elem_of_list_to_set.
Qed.

Lemma fork_areas_spec k0 L k l0 T X vs :
  kinv k0 → built k0 L k l0 T X → klive k0 ⊆ L → vma_wf (k_vm k0) vs → Forall (λ v, v_end v ≤ 2 ^ 48) vs →
  areas_short k l0 vs ∨
  ∃ es k' T', fork_areas k l0 vs = Some (es, k') ∧
    built k0 (list_to_set (v_pages <$> es) ∪ L) k' l0 T' (list_to_set (resident (k_vm k') es) ∪ X) ∧
    (list_to_set (resident (k_vm k') es) ## X) ∧ ((list_to_set (v_pages <$> es) : gset Z) ## L) ∧ ram_kept X k k' ∧
    vma_wf (k_vm k') es ∧ Forall2 (area_shared k0 k') vs es ∧
    (∀ a, 0 ≤ a < 2 ^ 48 → (∀ y fl, ¬ area_page k' es a y fl) → hw_pte (k_pt k') l0 a = hw_pte (k_pt k) l0 a) ∧
    (∀ a y fl, area_page k' es a y fl → hw_pte (k_pt k') l0 a = Some (page_desc y fl)).
Proof.
  intros Hi0 Hb HL Hwf Hend. pose proof (bt_grew _ _ _ _ _ _ Hb) as Hg. pose proof Hg as [Hik Hfk Hnk Hkk Hlk Hak _].
  pose proof (vw_ok _ _ Hwf) as Hok. rewrite Forall_forall in Hok.
  assert (∀ v, v ∈ vs → v_pages v ∈ klive k0) as Hlv by (intros v Hv; apply (Hok v Hv)).
  destruct (vma_wf_frame k0 k vs Hwf Hik) as [Hwk _].
  { intros v Hv. rewrite Hlk, Hak by (by apply Hlv). split; [by apply HL, Hlv|done]. }
  { intros x Hx. rewrite Hfk. apply elem_of_union_r. exact (vw_frames _ _ Hwf x Hx). }
  assert (backing (k_vm k) <$> vs = backing (k_vm k0) <$> vs) as Hbk.
  { apply list_fmap_ext. intros i v Hv. apply backing_arrs, Hak, Hlv. by eapply list_elem_of_lookup_2. }
  destruct (vma_clone_spec k vs Hwk) as (r & vm & es & Ec & Hr).
  destruct Hr as [[-> Hcl]| ->]; [|left; exists 0, vm, es; split; [done|by left]].
  pose proof Hcl as [[Hvi Hve] Hcw Hcc Hcb Hcf Hcl' Hcfr].
  assert (km_live (kmem vm) = list_to_set (v_pages <$> es) ∪ L) as Evl by (rewrite Hcl'; f_equal; exact Hlk).
  assert (built k0 (list_to_set (v_pages <$> es) ∪ L) (set_vm k vm) l0 T X) as Hb1.
  { eapply built_set_vm; [done|done|exact Hcf|done|]. intros p Hp. apply Hve. change (p ∈ klive k). rewrite Hlk. by apply HL. }
  destruct (priv_areas_spec k0 _ l0 es Hi0 _ T X Hb1 (cloned_ready _ _ _ _ _ _ _ _ _ Hb HL Hwf Hend Hcl Hbk) (vw_sorted _ _ Hcw) (vw_ptrs _ _ Hcw))
    as (f & k' & T' & N & Ep & Hb' & HN & Hd & Ha & Hk & Hf).
  destruct f; [left; exists 1, vm, es; split; [done|right; exists true, k'; split; [done|by left]]|].
  destruct (Hf eq_refl) as (-> & Hc & Hv & Hw). clear Hf.
  assert (areas_short k l0 vs ∨ ∀ a y fl, area_page k' es a y fl → hw_pte (k_pt k') l0 a = Some (page_desc y fl)) as Hw'.
  { destruct Hw as [Hst|Hw]; [|by right]. destruct (decide (resident (k_vm k') es = [])) as [E|Hne].
    - right. intros a y fl H%area_page_resident. rewrite E in H. by apply not_elem_of_nil in H.
    - left. exists 1, vm, es. split; [done|]. right. exists false, k'. split; [done|by right]. }
  clear Hw. destruct Hw' as [?|Hw]; [by left|right].
  exists es, k', T'. split.
  { unfold fork_areas. case_decide as E0.
    - subst vs. cbn in Ec. injection Ec as <- <-. cbn in Ep. injection Ep as <-. by destruct k.
    - rewrite Ec, bind_Some. rewrite decide_False by done. pose proof (priv_loop_areas l0 es [] (set_vm k vm) k' 0 Ep) as E. rewrite Nat.add_0_r in E. exact E. }
  split; [done|]. split; [done|]. split.
  { intros p Hp Hpl. apply elem_of_list_to_set, list_elem_of_fmap in Hp as (e & -> & He). apply (Hcfr e He). change (v_pages e ∈ klive k). by rewrite Hlk. }
  split; [exact Hk|]. split.
  { eapply private_wf; [exact Hcw|exact Hb'|done| |exact Hc]. intros e He. apply elem_of_union_l, elem_of_list_to_set. by apply list_elem_of_fmap_2. }
  split; [|by split]. rewrite Forall2_same_length_lookup in Hcc |- *. destruct Hcc as [Hlen Hcc]. split; [done|].
  intros i v e Hvi' Hei. split; [by eapply Hcc|]. rewrite Forall_lookup in Hc. destruct (Hc i e Hei) as [_ H].
  assert (Some (backing vm e) = Some (backing (k_vm k0) v)) as [= <-]; [|exact H].
  rewrite <- (list_lookup_fmap_Some_2 (backing vm) es i e Hei), Hcb, Hbk. by apply list_lookup_fmap_Some_2.
Qed.
End Areas.

(** ** The child's memory is a copy *)

Section Views.
Context {S : Type} `{!PageAllocator S}.
Implicit Types (k : kernel S) (u : utask).

(** At [a] the tables [l0'] of [k'] give the same rights as the tables [l0] of [k],
    to the same page if nobody can write to it and else to a page that was not in
    use in [k], with the same contents. *)
Definition mem_copied k (l0 : Z) k' (l0' : Z) (a : Z) : Prop :=
  match hw_pte (k_pt k) l0 a with
  | None => hw_pte (k_pt k') l0' a = None
  | Some e => ∃ e', hw_pte (k_pt k') l0' a = Some e' ∧
      el0_read e' = el0_read e ∧ el0_write e' = el0_write e ∧ el0_exec e' = el0_exec e ∧
      (e' = e ∧ el0_write e = false ∨
       (Z.land e' PTE_ADDR_MASK ∉ kframes k) ∧ user_byte (k_ld k') l0' a = Some (default 0 (user_byte (k_ld k) l0 a)))
  end.

Lemma prot_flags_addr p : Z.land (mmu_prot_to_flags p) PTE_ADDR_MASK = 0.
Proof. unfold mmu_prot_to_flags. repeat case_decide; done. Qed.

Lemma entry_copied k l0 k' l0' a x y fl :
  hw_pte (k_pt k) l0 a = Some (page_desc x fl) → hw_pte (k_pt k') l0' a = Some (page_desc y fl) → Z.land fl PTE_ADDR_MASK = 0 →
  0 ≤ x < PHYS_LIMIT → x mod PAGE_SIZE = 0 → 0 ≤ y < PHYS_LIMIT → y mod PAGE_SIZE = 0 →
  (∀ o, 0 ≤ o < PAGE_SIZE → k_ram k' !! (y + o) = Some (byte_at k (x + o))) → (y ∉ kframes k) → mem_copied k l0 k' l0' a.
Proof.
  intros E E' Hfl Hx Hxa Hy Hya Hb Hn. unfold mem_copied. rewrite E. exists (page_desc y fl). split; [done|].
  destruct (page_desc_rights x fl) as (-> & -> & ->), (page_desc_rights y fl) as (-> & -> & ->). do 3 (split; [done|]). right.
  assert (∀ z, 0 ≤ z < PHYS_LIMIT → z mod PAGE_SIZE = 0 → Z.land (page_desc z fl) PTE_ADDR_MASK = z) as Hz.
  { intros z Hz Hza. apply page_desc_addr; [unfold PHYS_LIMIT in *; lia|done|done]. }
  split; [by rewrite Hz|]. unfold user_byte. cbn [ld_pt ld_ram k_ld]. rewrite E, E', !bind_Some, !Hz by done. apply Hb. apply Z.mod_pos_bound. done.
Qed.

(** *** Runs *)

Definition run_copy k k' (r r' : run) : Prop :=
  rn_va r' = rn_va r ∧ rn_n r' = rn_n r ∧ rn_flags r' = rn_flags r ∧
  (rn_pa r' = rn_pa r ∧ el0_write (rn_flags r) = false ∨
   rn_va r mod PAGE_SIZE = 0 ∧ Z.land (rn_flags r) PTE_ADDR_MASK = 0 ∧ pages_at (rn_pa r) (rn_n r) ⊆ kframes k ∧
   0 < rn_pa r' ∧ rn_pa r' mod PAGE_SIZE = 0 ∧ rn_pa r' + rn_n r * PAGE_SIZE ≤ PHYS_LIMIT ∧ (pages_at (rn_pa r') (rn_n r) ## kframes k) ∧
   same_bytes k (rn_pa r) k' (rn_pa r') (rn_n r)).

Lemma run_view_copied k l0 k' l0' a rs rs' :
  kinv k → Forall2 (run_copy k k') rs rs' → hw_pte (k_pt k) l0 a = run_view rs a → hw_pte (k_pt k') l0' a = run_view rs' a → mem_copied k l0 k' l0' a.
Proof.
  intros Hi Hc. induction Hc as [|r r' rs rs' (E1 & E2 & E3 & Hr) Hc IH]; cbn [run_view]; intros E E'.
  { unfold mem_copied. by rewrite E. }
  assert (in_run r' a ↔ in_run r a) as Hin by (unfold in_run; by rewrite E1, E2). destruct (decide (in_run r a)) as [Ha|Ha].
  2:{ rewrite decide_False in E' by tauto. by apply IH. }
  rewrite decide_True in E' by tauto. unfold run_pte in E, E'. rewrite E1, E3 in E'. unfold in_run in Ha.
  destruct Hr as [[Ep Hw]|(Hva & Hfl & Hsrc & H0 & Hal & Hlim & Hd & Hb)].
  - unfold mem_copied. rewrite E. eexists. split; [exact E'|]. rewrite Ep. do 3 (split; [done|]). left. split; [done|]. by rewrite (proj1 (proj2 (page_desc_rights _ _))).
  - destruct (kframes_run k (rn_pa r) (rn_n r) Hi) as (X1 & X2 & X3); [unfold PAGE_SIZE in *; lia|done|].
    set (i := (a - rn_va r) / PAGE_SIZE) in *. assert (0 ≤ i < rn_n r) as Hir by (unfold i; unfold PAGE_SIZE in *; dlia).
    eapply (entry_copied k l0 k' l0' a _ _ _ E E' Hfl); [unfold PAGE_SIZE in *; nia|unfold PAGE_SIZE in *; dlia|unfold PAGE_SIZE in *; nia|unfold PAGE_SIZE in *; dlia| |].
    + intros o Ho. rewrite <- !Z.add_assoc. apply Hb. unfold PAGE_SIZE in *. nia.
    + intros Hk. apply (Hd (rn_pa r' + i * PAGE_SIZE)); [|done]. apply elem_of_pages_at. by exists i.
Qed.

Lemma run_view_none k k' rs rs' a : Forall2 (run_copy k k') rs rs' → run_view rs a = None → run_view rs' a = None.
Proof.
  intros H. induction H as [|r r' rs rs' (E1 & E2 & _) H IH]; cbn [run_view]; [done|]. assert (in_run r' a ↔ in_run r a) as Hin by (unfold in_run; by rewrite E1, E2).
  destruct (decide (in_run r a)); [done|]. rewrite decide_False by tauto. exact IH.
Qed.

(** *** Tasks *)

(** The runs of a task, the last mapped first. *)
Definition task_runs (sy : syms) u : list run :=
  reverse (grown_run <$> u_stack_grown u) ++ stack_run (u_ustack_phys u) :: image_runs sy (u_exec_image u).

Definition in_tls (a : Z) : Prop := USER_TLS_BASE ≤ a < USER_TLS_BASE + PAGE_SIZE.

(** The page tables of a task show its areas and its runs. *)
Record task_view (sy : syms) k u : Prop := {
  tv_areas a y fl : area_page k (u_vmas u) a y fl → hw_pte (k_pt k) (ttbr_baddr (u_ttbr0 u)) a = Some (page_desc y fl);
  tv_rest a : 0 ≤ a < 2 ^ 48 → ¬ in_tls a → (∀ y fl, ¬ area_page k (u_vmas u) a y fl) →
    hw_pte (k_pt k) (ttbr_baddr (u_ttbr0 u)) a = run_view (task_runs sy u) a;
  tv_tls a : in_tls a → run_view (task_runs sy u) a = None ∧ ∀ y fl, ¬ area_page k (u_vmas u) a y fl;
}.

Lemma regions_copied k k' rs rs' :
  Forall (region_ready k) rs → Forall2 (region_copy k k') rs rs' → (rframes rs' ## kframes k) →
  Forall2 (run_copy k k') (region_run <$> rs) (region_run <$> rs').
Proof.
  intros Hr Hc. revert Hr. induction Hc as [|r r' rs rs' (E1 & E2 & E3 & (G1 & G2 & G3) & Hal & Hb) Hc IH]; intros Hr Hd; [constructor|].
  apply Forall_cons in Hr as [(_ & Hsrc & (_ & Hva & _)) Hr]. rewrite rframes_cons in Hd. rewrite !fmap_cons. constructor; [|apply IH; [done|clear - Hd; set_solver]].
  split; [done|]. split; [done|]. split; [cbn; by rewrite E3|]. right. cbn [rn_va rn_flags rn_pa rn_n region_run]. split; [done|]. split; [apply pflags_addr|].
  split; [done|]. split; [done|]. split; [done|]. rewrite <- E1 in Hb |- *. split; [done|]. split; [clear - Hd; set_solver|done].
Qed.

Lemma grown_copied k k' gs gs' :
  Forall (λ g, fst g ∈ kframes k ∧ user_range (snd g) 1) gs → Forall2 (grown_copy k k') gs gs' → (gframes gs' ## kframes k) →
  Forall2 (run_copy k k') (grown_run <$> gs) (grown_run <$> gs').
Proof.
  intros Hr Hc. revert Hr. induction Hc as [|g g' gs gs' (E1 & H0 & Hal & Hlim & Hb) Hc IH]; intros Hr Hd; [constructor|].
  apply Forall_cons in Hr as [[Hsrc (_ & Hva & _)] Hr]. assert (gframes (g' :: gs') = {[fst g']} ∪ gframes gs') as Eg by done. rewrite Eg in Hd.
  rewrite !fmap_cons. constructor; [|apply IH; [done|clear - Hd; set_solver]]. split; [done|]. do 2 (split; [done|]). right. cbn [rn_va rn_flags rn_pa rn_n grown_run].
  rewrite !pages_at_1. split; [done|]. split; [done|]. split; [clear - Hsrc; set_solver|]. do 2 (split; [done|]). split; [lia|]. split; [clear - Hd; set_solver|done].
Qed.

Lemma fork_runs_copied sy k k' u sp :
  fork_ready k u → image_copy k k' (u_exec_image u) (f_image sp) → same_bytes k (u_ustack_phys u) k' (f_stack sp) STACK_PAGES →
  Forall2 (grown_copy k k') (u_stack_grown u) (f_grown sp) →
  0 < f_stack sp ∧ f_stack sp mod PAGE_SIZE = 0 ∧ f_stack sp + STACK_PAGES * PAGE_SIZE ≤ PHYS_LIMIT →
  (gframes (f_grown sp) ∪ (pages_at (f_stack sp) STACK_PAGES ∪ image_frames (f_image sp)) ## kframes k) →
  Forall2 (run_copy k k') (task_runs sy u) (fork_runs sy sp).
Proof.
  intros [Ri Rs Rg] [Hi _] Hs Hg (S1 & S2 & S3) Hd. unfold task_runs, fork_runs. apply Forall2_app; [|constructor].
  - apply Forall2_reverse, grown_copied; [done|done|clear - Hd; set_solver].
  - do 3 (split; [done|]). right. cbn [rn_va rn_flags rn_pa rn_n stack_run]. do 2 (split; [done|]). split; [done|]. split; [done|]. split; [done|]. split; [done|]. split; [clear - Hd; set_solver|done].
  - unfold image_runs. destruct (decide (i_regions (u_exec_image u) ≠ [])) as [Hne|He].
    + rewrite decide_True. 2:{ intros E. rewrite E in Hi. by apply Forall2_nil_inv_r in Hi. }
      apply Forall2_reverse, regions_copied; [done|done|]. rewrite image_frames_rframes in Hd. clear - Hd. set_solver.
    + rewrite decide_False. 2:{ intros Hne. apply He. intros E. rewrite E in Hi. by apply Forall2_nil_inv_l in Hi. }
      constructor; [|constructor]. do 3 (split; [done|]). by left.
Qed.

(** *** Areas *)

Lemma area_shared_page k k' vs es a x fl :
  Forall2 (area_shared k k') vs es → area_page k vs a x fl → ∃ y, area_page k' es a y fl ∧ page_copy k k' x y.
Proof.
  intros Hs (v & i & Hv & Hx & Hx0 & Ha & ->). apply list_elem_of_lookup in Hv as [j Hj].
  destruct (Forall2_lookup_l _ _ _ _ _ Hs Hj) as (e & He & (Hc & Hb)). destruct (Forall2_lookup_l _ _ _ _ _ Hb Hx) as (y & Hy & Hpc). exists y. split; [|done].
  destruct (copy_of_size v e Hc) as (_ & Ef & _). destruct Hc as (E1 & _). exists e, i. split; [by eapply list_elem_of_lookup_2|]. split; [done|].
  split; [destruct Hpc as [[? _]|(_ & ? & _)]; [done|lia]|]. split; [unfold in_page; by rewrite E1|by rewrite Ef].
Qed.

Lemma area_shared_back k k' vs es a y fl : Forall2 (area_shared k k') vs es → area_page k' es a y fl → ∃ x, area_page k vs a x fl.
Proof.
  intros Hs (e & i & He & Hy & Hy0 & Ha & ->). apply list_elem_of_lookup in He as [j Hj].
  destruct (Forall2_lookup_r _ _ _ _ _ Hs Hj) as (v & Hv & (Hc & Hb)). destruct (Forall2_lookup_r _ _ _ _ _ Hb Hy) as (x & Hx & Hpc). exists x.
  destruct (copy_of_size v e Hc) as (_ & Ef & _). destruct Hc as (E1 & _). exists v, i. split; [by eapply list_elem_of_lookup_2|]. split; [done|].
  split; [destruct Hpc as [[_ ?]|(? & _)]; [done|done]|]. split; [unfold in_page in *; by rewrite E1 in Ha|by rewrite Ef].
Qed.

(** Whether the areas record a page for an address can be computed. *)
Lemma area_page_dec k es a : (∃ y fl, area_page k es a y fl) ∨ ∀ y fl, ¬ area_page k es a y fl.
Proof.
  induction es as [|v es [(y & fl & H)|IH]].
  - right. by intros y fl (v & i & []%not_elem_of_nil & _).
  - left. exists y, fl. apply area_page_cons. by right.
  - set (i := Z.to_nat ((a - v_start v) / PAGE_SIZE)). assert (∀ j, in_page v j a → j = i) as Hi.
    { intros j Hj. unfold in_page in Hj. unfold i. unfold PAGE_SIZE in *. dlia. }
    destruct (backing (k_vm k) v !! i) as [y|] eqn:Ey; [destruct (decide (y ≠ 0 ∧ in_page v i a)) as [[H0 Ha]|Hno]|].
    + left. exists y, (area_flags v), v, i. split; [by left|done].
    + right. intros z fl [(w & j & ->%list_elem_of_singleton & Hz & Hz0 & Hin & _)|H]%area_page_cons; [|by apply (IH z fl)].
      apply Hno. pose proof (Hi j Hin) as ->. by simplify_eq.
    + right. intros z fl [(w & j & ->%list_elem_of_singleton & Hz & Hz0 & Hin & _)|H]%area_page_cons; [|by apply (IH z fl)].
      rewrite (Hi j Hin) in Hz. congruence.
Qed.

(** *** All of it *)

Lemma memory_copied sy k k' u l0 rs es :
  kinv k → task_view sy k u → vma_wf (k_vm k) (u_vmas u) → Forall2 (run_copy k k') (task_runs sy u) rs → Forall2 (area_shared k k') (u_vmas u) es →
  (∀ x, x ∈ resident (k_vm k') es → x ∉ kframes k) →
  (∀ a, 0 ≤ a < 2 ^ 48 → ¬ in_tls a → (∀ y fl, ¬ area_page k' es a y fl) → hw_pte (k_pt k') l0 a = run_view rs a) →
  (∀ a y fl, area_page k' es a y fl → hw_pte (k_pt k') l0 a = Some (page_desc y fl)) →
  ∀ a, 0 ≤ a < 2 ^ 48 → ¬ in_tls a → mem_copied k (ttbr_baddr (u_ttbr0 u)) k' l0 a.
Proof.
  intros Hi [V1 V2 _] Hwf Hrs Hes Hnew Hr Ha a Ha48 Htls.
  destruct (area_page_dec k (u_vmas u) a) as [(x & fl & Hx)|Hno].
  - destruct (area_shared_page k k' _ es a x fl Hes Hx) as (y & Hy & Hpc). pose proof (area_page_resident _ _ _ _ _ Hx) as Hxr.
    apply (vw_frames _ _ Hwf) in Hxr. destruct (kframes_page k x Hi Hxr) as (X1 & X2 & X3). pose proof Hx as (v & i & _ & _ & Hx0 & _ & Efl).
    destruct Hpc as [[? _]|(_ & Y1 & Y2 & Y3 & Hb)]; [done|].
    apply (entry_copied k _ k' l0 a x y fl); [by apply V1|by apply Ha|rewrite Efl; apply prot_flags_addr|unfold PAGE_SIZE in *; lia|done|unfold PAGE_SIZE in *; lia|done| |].
    + intros o Ho. apply Hb. lia.
    + by apply Hnew, (area_page_resident k' es a y fl).
  - eapply run_view_copied; [done|exact Hrs|by apply V2|]. apply Hr; [done|done|]. intros y fl H. destruct (area_shared_back k k' _ es a y fl Hes H) as (x & Hx). by apply (Hno x fl).
Qed.
End Views.

(** ** Up to the areas *)

Section Start.
Context {S : Type} `{!PageAllocator S}.
Implicit Types (k : kernel S) (u : utask).

(** The child returns from the parent's system call with 0. *)
Definition trap_holds k (pa : Z) (frame : list Z) : Prop := mem_read (k_ram k) pa TRAP_FRAME = le_bytes 8 0 ++ drop 8 frame.

Lemma poke_read ram pa bs frame :
  Z.of_nat (length frame) = TRAP_FRAME → length bs = 8%nat →
  mem_read (mem_write (mem_write ram pa frame) pa bs) pa TRAP_FRAME = bs ++ drop 8 frame.
Proof.
  intros Hf Hb. unfold TRAP_FRAME in *. apply list_eq. intros i. destruct (decide (i < 688)%nat) as [Hi|Hi].
  2:{ rewrite !lookup_ge_None_2; [done|rewrite length_app, length_drop; lia|rewrite mem_read_length; lia]. }
  rewrite mem_read_lookup, mem_write_lookup by lia. rewrite Hb. replace (Z.to_nat (pa + Z.of_nat i - pa)) with i by lia. case_decide as Hi8.
  - destruct (lookup_lt_is_Some_2 bs i) as [b E]; [lia|]. by rewrite lookup_app_l, E by lia.
  - rewrite mem_write_lookup, decide_True by lia. replace (Z.to_nat (pa + Z.of_nat i - pa)) with i by lia. rewrite lookup_app_r, lookup_drop by lia.
    rewrite Hb. replace (8 + (i - 8))%nat with i by lia. destruct (lookup_lt_is_Some_2 frame i) as [b ->]; [lia|done].
Qed.

Lemma fork_frames_spec sy k top frame :
  Z.of_nat (length frame) = TRAP_FRAME →
  ∃ ram, fork_frames sy k top frame = set_ram k ram ∧ (∀ x, ¬ (top - TRAP_FRAME - SWITCH_FRAME ≤ x < top) → ram !! x = k_ram k !! x) ∧
    frame_holds (set_ram k ram) (top - TRAP_FRAME - SWITCH_FRAME) 0 0 (fork_return sy) ∧ trap_holds (set_ram k ram) (top - TRAP_FRAME) frame.
Proof.
  intros Hf. unfold fork_frames. cbv zeta. set (k1 := poke_word _ _ 0 0).
  destruct (switch_frame_spec k1 (top - TRAP_FRAME - SWITCH_FRAME) 0 0 (fork_return sy)) as (Hh & ram & E & Hr). rewrite E in *. exists ram. split; [done|].
  unfold TRAP_FRAME, SWITCH_FRAME in *. assert (length (le_bytes 8 0) = 8%nat) as H8 by done. split; [|split; [done|]].
  - intros x Hx. rewrite Hr by lia. unfold k1, poke_word. cbn [k_ram set_ram]. rewrite !mem_write_outside; [done|lia|rewrite H8; lia].
  - unfold trap_holds. cbn [k_ram set_ram]. rewrite (mem_read_ext (k_ram k1)) by (intros x Hx; apply Hr; unfold TRAP_FRAME in Hx; lia).
    unfold k1, poke_word. cbn [k_ram set_ram]. rewrite Z.mul_0_r, Z.add_0_r. by apply poke_read.
Qed.

(** Writing to the kernel stack leaves the child's memory alone. *)
Lemma forked_ram sy k0 L k u sp ks T ram :
  forked sy k0 L k u sp ks T → ks mod PAGE_SIZE = 0 →
  (∀ x, ¬ (ks ≤ x < ks + TASK_STACK_PAGES * PAGE_SIZE) → ram !! x = k_ram k !! x) → forked sy k0 L (set_ram k ram) u sp ks T.
Proof.
  intros [B L0 St Tl D1 D2 D3 D4 Im Sb Gr Tr Re Tm] Hal Hr.
  assert (∀ x, x / PAGE_SIZE * PAGE_SIZE ∉ pages_at ks TASK_STACK_PAGES → ram !! x = k_ram k !! x) as Hr'.
  { intros x Hx. apply Hr. intros Hx'. apply Hx, pages_at_bytes; done. }
  assert (∀ X, X ## pages_at ks TASK_STACK_PAGES → ram_kept X k (set_ram k ram)) as Hk by (intros X HX x Hx; apply Hr'; intros Hy; exact (HX _ Hx Hy)).
  constructor; try done.
  - pose proof B as [[Hi Hf Hn [K1 K2] Hl Ha Hs] Ht Hd]. eapply built_step; [exact B| |exact Hd|done]. constructor; try done. split; [done|].
    intros x Hx. cbn. rewrite Hr'; [by apply K2|]. intros Hy. apply (Hn (x / PAGE_SIZE * PAGE_SIZE)); [|done].
    apply elem_of_union_l. do 3 apply elem_of_union_r. by apply elem_of_union_r.
  - eapply image_copy_kept; [exact Im|reflexivity|]. by apply Hk.
  - eapply same_bytes_kept; [exact Sb|reflexivity|apply St|]. apply Hk. intros x Hx Hy. apply (D2 x Hx). by apply elem_of_union_r.
  - eapply grown_copies_kept; [exact Gr|reflexivity|]. apply Hk. intros x Hx Hy. apply (D3 x Hx). do 2 apply elem_of_union_r. done.
  - intros x Hx. cbn. rewrite Hr'; [by apply Tr|]. intros Hy. apply D4. do 3 apply elem_of_union_r. destruct Tl as (T1 & T2 & T3).
    replace (f_tls sp) with (x / PAGE_SIZE * PAGE_SIZE); [done|]. clear - Hx T2. unfold PAGE_SIZE in *. dlia.
Qed.

Lemma fork_start_spec sy k u frame :
  kinv k → syms_ok sy → fork_ready k u → Z.of_nat (length frame) = TRAP_FRAME →
  ∃ r k1, fork_start sy k u frame = Some (r, k1) ∧
    match r with
    | None => ∃ X, grew k (klive k) k1 X
    | Some (t, ks, sp) => t ≠ 0 ∧ (t ∉ klive k) ∧ 0 < ks ∧ ks mod PAGE_SIZE = 0 ∧ ks + TASK_STACK_PAGES * PAGE_SIZE ≤ PHYS_LIMIT ∧
        (∃ T, forked sy k ({[t]} ∪ klive k) k1 u sp ks T) ∧
        let top := ks + TASK_STACK_PAGES * PAGE_SIZE in
        frame_holds k1 (top - TRAP_FRAME - SWITCH_FRAME) 0 0 (fork_return sy) ∧ trap_holds k1 (top - TRAP_FRAME) frame
    end.
Proof.
  intros Hi Hsy Hr Hfr. unfold fork_start. destruct (stack_alloc k Hi) as (t & k1 & -> & H1). rewrite bind_Some.
  destruct H1 as [[-> Hg]|(Ht0 & Htn & Hg & ks & k2 & E2 & H2)].
  { rewrite decide_True by done. exists None, k1. split; [done|]. by exists ∅. }
  rewrite decide_False, E2, bind_Some by done. destruct H2 as [[-> ->]|(Hks & Hal & Hlim & k3 & E3 & Hg3)].
  { rewrite decide_True by done. destruct (grew_kfree _ _ k1 ∅ t Hg ltac:(set_solver)) as (k3 & -> & Hg3 & _). rewrite bind_Some.
    exists None, k3. split; [done|]. exists ∅. by rewrite drop_new in Hg3. }
  rewrite decide_False, E3 by lia. cbv zeta. clear E3. assert (t ∈ {[t]} ∪ klive k) as Htl by set_solver.
  destruct (fork_space_spec sy k _ k3 u t ks Hi Hsy Hr Hg3 Htl Hks Hlim) as (r & k4 & -> & H4). rewrite bind_Some.
  destruct r as [sp|].
  2:{ exists None, k4. split; [done|]. destruct H4 as [X HX]. exists X. by rewrite drop_new in HX. }
  destruct H4 as [T Hfk]. set (top := ks + TASK_STACK_PAGES * PAGE_SIZE) in *.
  destruct (fork_frames_spec sy k4 top frame Hfr) as (ram & -> & Hram & Hh & Htr). eexists (Some _), _. split; [reflexivity|]. cbn match.
  do 5 (split; [done|]). split; [|by split]. exists T. eapply forked_ram; [exact Hfk|done|]. intros x Hx. apply Hram.
  unfold top, TRAP_FRAME, SWITCH_FRAME, TASK_STACK_PAGES, PAGE_SIZE in *. lia.
Qed.
End Start.

(** ** The child's frames and memory *)

(** The image [I], the kernel stack [K], the stack [U], its grown pages [G], the TLS
    page [t], the pages of the areas [R] and the tables [M], regrouped. *)
Lemma child_parts (I K U G R M : gset Z) (t : Z) :
  I ## K → U ## I ∪ K → G ## U ∪ (I ∪ K) → (t ∉ G ∪ (U ∪ (I ∪ K))) → R ## {[t]} ∪ (G ∪ (U ∪ (I ∪ K))) →
  R ∪ ({[t]} ∪ (G ∪ (U ∪ (I ∪ K)))) ## M → pairwise (##) [U; {[t]}; I; M; R; G] ∧ (K ## ⋃ [U; {[t]}; I; M; R] ∪ G).
Proof.
  rewrite !not_elem_of_union, !disjoint_union_l, !disjoint_union_r, !disjoint_singleton_r, !disjoint_singleton_l.
  intros H1 (H2 & H3) (H4 & H5 & H6) (H7 & H8 & H9 & H10) (H11 & H12 & H13 & H14 & H15) (H16 & H17 & H18 & H19 & H20 & H21).
  cbn [pairwise union_list foldr]. rewrite !Forall_cons, !Forall_nil, ?disjoint_union_l, ?disjoint_union_r, ?disjoint_singleton_r, ?disjoint_singleton_l.
  split_and!; try done; try (symmetry; done).
Qed.

Lemma child_union (I K U G R M : gset Z) (t : Z) : R ∪ ({[t]} ∪ (G ∪ (U ∪ (I ∪ K)))) ∪ M = K ∪ (⋃ [U; {[t]}; I; M; R] ∪ G).
Proof. cbn. set_solver. Qed.

Lemma child_new (I K U G R M F : gset Z) (t : Z) : R ∪ ({[t]} ∪ (G ∪ (U ∪ (I ∪ K)))) ∪ M ## F → G ∪ (U ∪ I) ## F.
Proof. rewrite !disjoint_union_l. tauto. Qed.

Section Child.
Context {S : Type} `{!PageAllocator S}.
Context (sy : syms) (k0 k1 k2 k' : kernel S) (L L2 : gset Z) (u : utask) (sp : fspace) (ks asid : Z) (T1 T2 : tree) (es : list vma).
Let D : gset Z := {[f_tls sp]} ∪ (gframes (f_grown sp) ∪ (pages_at (f_stack sp) STACK_PAGES ∪ (image_frames (f_image sp) ∪ pages_at ks TASK_STACK_PAGES))).
Let R : gset Z := list_to_set (resident (k_vm k2) es).
Let u' : utask := child_task u sp es asid.

(** [k1] is the state before the areas were copied, [k2] the one after; [k'] differs
    from it in the heap and the scheduler only. *)
Hypothesis Hi0 : kinv k0.
Hypothesis Hfk : forked sy k0 L k1 u sp ks T1.
Hypothesis Hb2 : built k0 L2 k2 (f_l0 sp) T2 (R ∪ D).
Hypothesis HR : R ## D.
Hypothesis Hwf2 : vma_wf (k_vm k2) es.
Hypothesis Hi' : kinv k'.
Hypothesis Hf' : kframes k' = kframes k2.
Hypothesis Ht' : k_tabs k' = k_tabs k2.
Hypothesis Ha' : k_arrs k' = k_arrs k2.
Hypothesis Hr' : k_ram k' = k_ram k2.
Hypothesis Hl' : ∀ e, e ∈ es → v_pages e ∈ klive k'.
Hypothesis Hasid : 1 ≤ asid < 2 ^ 16.

Lemma child_resident : resident (k_vm k') es = resident (k_vm k2) es ∧ vma_wf (k_vm k') es.
Proof using Hwf2 Hi' Hf' Ha' Hl'.
  destruct (vma_wf_frame k2 k' es Hwf2 Hi') as [? ?]; [|intros x Hx; rewrite Hf'; exact (vw_frames _ _ Hwf2 x Hx)|done].
  intros e He. split; [by apply Hl'|by rewrite Ha'].
Qed.

Lemma child_tree : tree_at k' (f_l0 sp) T2.
Proof using Hb2 Hi' Hf' Ht'. eapply tree_frame; [apply Hb2|done| |by rewrite Ht']. rewrite Hf'. apply Hb2. Qed.

Lemma child_base : ttbr_baddr (u_ttbr0 u') = f_l0 sp ∧ u_ttbr0 u' ≠ 0.
Proof using Hfk Hb2 Hi' Hf' Ht' Hasid.
  assert (f_l0 sp ∈ kframes k') as Hl0 by (apply child_tree, elem_of_map_img; exists []; apply child_tree).
  destruct (kframes_page k' (f_l0 sp) Hi' Hl0) as (? & _ & ?). cbn.
  destruct (ttbr_roundtrip (f_l0 sp) asid) as [Eb _]; [unfold PHYS_LIMIT, PAGE_SIZE in *; lia|lia|].
  split; [done|]. intros E. rewrite E in Eb. change (ttbr_baddr 0) with 0 in Eb. lia.
Qed.

Lemma child_parts_eq : parts k' u' T2 = [pages_at (f_stack sp) STACK_PAGES; {[f_tls sp]}; image_frames (f_image sp); map_img T2; R].
Proof using Hfk Hwf2 Hi' Hf' Ha' Hl'.
  destruct (fk_stack _ _ _ _ _ _ _ _ Hfk) as [? _], (fk_tls _ _ _ _ _ _ _ _ Hfk) as [? _].
  unfold parts, some_pages, u'. cbn [u_ustack_phys u_tls_phys u_exec_image u_vmas child_task].
  rewrite !decide_False, pages_at_1 by lia. by rewrite (proj1 child_resident).
Qed.

Lemma child_frames :
  kframes k' = pages_at ks TASK_STACK_PAGES ∪ (owned k' u' T2 ∪ grown_frames u') ∪ kframes k0 ∧
  (pages_at ks TASK_STACK_PAGES ## owned k' u' T2 ∪ grown_frames u') ∧
  (pages_at ks TASK_STACK_PAGES ∪ (owned k' u' T2 ∪ grown_frames u') ## kframes k0).
Proof using Hfk Hb2 HR Hwf2 Hi' Hf' Ha' Hl'.
  pose proof Hfk as [_ _ _ _ D1 D2 D3 D4 _ _ _ _ _ _]. pose proof (bt_grew _ _ _ _ _ _ Hb2) as [_ Hf Hn _ _ _ _].
  unfold owned. rewrite child_parts_eq. change (grown_frames u') with (gframes (f_grown sp)).
  destruct (child_parts _ _ _ _ _ _ _ D1 D2 D3 D4 HR (bt_data _ _ _ _ _ _ Hb2)) as [_ HK].
  unfold D in Hf, Hn. rewrite child_union in Hf, Hn. split; [by rewrite Hf', Hf|]. split; [exact HK|exact Hn].
Qed.

Lemma child_owns : owns k' u' T2.
Proof using Hfk Hb2 HR Hwf2 Hi' Hf' Ht' Ha' Hl' Hasid.
  pose proof Hfk as [_ _ _ _ D1 D2 D3 D4 [Him _] _ _ _ _ _].
  destruct (child_parts _ _ _ _ _ _ _ D1 D2 D3 D4 HR (bt_data _ _ _ _ _ _ Hb2)) as [HP _]. constructor.
  - done.
  - rewrite (proj1 child_frames). clear. set_solver.
  - rewrite child_parts_eq. exact HP.
  - destruct child_base as [E Hne]. rewrite decide_False by done. rewrite E. exact child_tree.
  - cbn. apply Forall_forall. intros r Hr. apply list_elem_of_lookup in Hr as [i Hr]. destruct (Forall2_lookup_r _ _ _ _ _ Him Hr) as (r0 & _ & (_ & _ & _ & ? & _)). done.
  - apply child_resident.
Qed.

(** *** What the child sees *)

Hypothesis Hk12 : ram_kept D k1 k2.
Hypothesis Hsh : Forall2 (area_shared k0 k2) (u_vmas u) es.
Hypothesis Hno : ∀ a, 0 ≤ a < 2 ^ 48 → (∀ y fl, ¬ area_page k2 es a y fl) → hw_pte (k_pt k2) (f_l0 sp) a = hw_pte (k_pt k1) (f_l0 sp) a.
Hypothesis Hyes : ∀ a y fl, area_page k2 es a y fl → hw_pte (k_pt k2) (f_l0 sp) a = Some (page_desc y fl).
Hypothesis Hready : fork_ready k0 u.
Hypothesis Hview : task_view sy k0 u.
Hypothesis Hwf0 : vma_wf (k_vm k0) (u_vmas u).

Lemma child_hw a : hw_pte (k_pt k') (f_l0 sp) a = hw_pte (k_pt k2) (f_l0 sp) a.
Proof using Hb2 Hi' Hf' Ht'. eapply hw_frame; [apply Hb2|done|rewrite Hf'; apply Hb2|]. intros q _. by rewrite Ht'. Qed.

Lemma child_runs : Forall2 (run_copy k0 k2) (task_runs sy u) (fork_runs sy sp).
Proof using Hfk Hb2 Hk12 Hready.
  pose proof Hfk as [_ _ St _ D1 D2 D3 D4 Im Sb Gr _ _ _]. pose proof (gw_new _ _ _ _ (bt_grew _ _ _ _ _ _ Hb2)) as Hn. apply fork_runs_copied; [done|..].
  - eapply image_copy_kept; [exact Im| |exact Hk12]. unfold D. clear. set_solver.
  - eapply same_bytes_kept; [exact Sb| |apply St|exact Hk12]. unfold D. clear. set_solver.
  - eapply grown_copies_kept; [exact Gr| |exact Hk12]. unfold D. clear. set_solver.
  - exact St.
  - exact (child_new _ _ _ _ _ _ _ _ Hn).
Qed.

Lemma child_memory a : 0 ≤ a < 2 ^ 48 → ¬ in_tls a → mem_copied k0 (ttbr_baddr (u_ttbr0 u)) k' (f_l0 sp) a.
Proof using All.
  intros Ha Htls. pose proof (gw_new _ _ _ _ (bt_grew _ _ _ _ _ _ Hb2)) as Hn.
  assert (mem_copied k0 (ttbr_baddr (u_ttbr0 u)) k2 (f_l0 sp) a) as Hm.
  { eapply memory_copied; [done|done|done|exact child_runs|exact Hsh| | |done|done|done].
    - intros x Hx Hk. apply (Hn x); [|done]. do 2 apply elem_of_union_l. by apply elem_of_list_to_set.
    - intros b Hb Hbt Hba. rewrite Hno by done. apply (fk_rest _ _ _ _ _ _ _ _ Hfk); [done|]. intros Hin. apply Hbt. unfold in_run, tls_run in Hin. cbn [rn_va rn_n] in Hin. unfold in_tls. lia. }
  unfold mem_copied, user_byte in *. cbn [ld_pt ld_ram k_ld] in *. rewrite child_hw, Hr'. exact Hm.
Qed.

Lemma child_tls a :
  in_tls a →
  (user_byte (k_ld k') (f_l0 sp) a = Some 0 ∧ ∃ e, hw_pte (k_pt k') (f_l0 sp) a = Some e ∧ data_page e) ∨
  starved (pages (k_heap k1)) ∧ hw_pte (k_pt k') (f_l0 sp) a = None.
Proof using All.
  intros Ha. destruct (tv_tls _ _ _ Hview a Ha) as [Hv Hna]. destruct (fk_tls _ _ _ _ _ _ _ _ Hfk) as (T1' & T2' & T3').
  assert (0 ≤ a < 2 ^ 48) as Ha48 by (unfold in_tls, USER_TLS_BASE, PAGE_SIZE in *; lia).
  assert (in_run (tls_run (f_tls sp)) a) as Hin by (unfold in_run, tls_run; cbn [rn_va rn_n]; unfold in_tls in Ha; lia).
  assert (hw_pte (k_pt k') (f_l0 sp) a = hw_pte (k_pt k1) (f_l0 sp) a) as E.
  { rewrite child_hw. apply Hno; [done|]. intros y fl H. destruct (area_shared_back _ _ _ _ _ _ _ Hsh H) as (x & Hx). exact (Hna x fl Hx). }
  destruct (fk_tls_map _ _ _ _ _ _ _ _ Hfk a Ha48 Hin) as [E1|[Hst E1]]; rewrite E1 in E.
  - left. split; [|eexists; split; [exact E|apply stack_page]]. unfold in_tls in Ha.
    rewrite (run_byte k' _ USER_TLS_BASE (f_tls sp) 1 a) by (done || lia). rewrite Hr', Hk12.
    + apply (fk_tls_ram _ _ _ _ _ _ _ _ Hfk). lia.
    + unfold D. apply elem_of_union_l, elem_of_singleton. unfold PAGE_SIZE in *. dlia.
  - right. split; [exact Hst|]. rewrite E. eapply run_view_none; [exact child_runs|exact Hv].
Qed.
End Child.

(** ** The whole call *)

Section Claim.
Context {S V : Type} `{!PageAllocator S} `{!FileBackend (heap S) V}.
Implicit Types (k : kernel S) (d : fdpart V) (u : utask) (T : tree).

Lemma built_sched k0 L k l0 T X sc : built k0 L k l0 T X → built (set_sched k0 sc) L (set_sched k sc) l0 T X.
Proof. intros [[] ? ?]. constructor; [constructor|..]; done. Qed.

Lemma built_set_heap k0 L k l0 T X h L' :
  built k0 L k l0 T X → km_inv h → km_frames h = kframes k → km_live h = L' → built k0 L' (set_heap k h) l0 T X.
Proof. intros Hb Hi Hf Hl. exact (built_set_vm k0 L k l0 T X (mk_kst h (k_arrs k)) L' Hb Hi Hf Hl (λ p _, eq_refl)). Qed.

(** -1 was returned: nobody has lost anything.  Pages may have leaked. *)
Definition fork_failed k d u T k' : Prop :=
  kinv k' ∧ kframes k ⊆ kframes k' ∧ klive k ⊆ klive k' ∧ untouched (kframes k) k k' ∧ owns k' u T ∧ fd_wf (fd_view k' d) ∧
  tasks (k_sched k') = tasks (k_sched k) ∧ current (k_sched k') = current (k_sched k) ∧ dead_list (k_sched k') = dead_list (k_sched k).

(** What the steps never take away. *)
Lemma grew_owns k u T L k' X : owns k u T → grew k L k' X → klive k ⊆ L → owns k' u T.
Proof.
  intros Ho [Hi Hf _ [K1 _] Hl Ha _] HL. pose proof (vw_ok _ _ (ow_vmas _ _ _ Ho)) as Hok. rewrite Forall_forall in Hok.
  eapply owns_frame; [exact Ho|done|rewrite Hf; etrans; [apply Ho|apply union_subseteq_r]| |].
  - intros q Hq. apply K1, (ow_sub _ _ _ Ho), elem_of_union_l. unfold owned, parts. cbn [union_list foldr]. clear - Hq. set_solver.
  - intros v Hv. assert (v_pages v ∈ klive k) as Hlv by (apply (Hok v Hv)). rewrite Hl. split; [by apply HL|by apply Ha].
Qed.

Lemma grew_failed k d u T L k' X sc :
  owns k u T → fd_wf (fd_view k d) → grew (set_sched k sc) L k' X → klive k ⊆ L →
  tasks sc = tasks (k_sched k) → current sc = current (k_sched k) → dead_list sc = dead_list (k_sched k) → fork_failed k d u T k'.
Proof.
  intros Ho Hfd Hg HL Q1 Q2 Q3. assert (owns (set_sched k sc) u T) as Ho' by (destruct Ho; constructor; done).
  pose proof (grew_owns _ _ _ _ _ _ Ho' Hg HL) as Ho2. destruct Hg as [Hi Hf _ Hk Hl _ Hs].
  split; [done|]. split; [rewrite Hf; apply union_subseteq_r|]. split; [by rewrite Hl|]. split; [exact Hk|]. split; [done|].
  split; [|rewrite Hs; cbn [k_sched set_sched]; by split_and!]. eapply fd_wf_frame; [exact Hfd|done|]. rewrite Hl. etrans; [by apply fd_objects_live|done].
Qed.

(** Giving back what the last failure gives back. *)
Lemma fork_back_all k0 L k l0 T X us ks t :
  built k0 L k l0 T X → pages_at us STACK_PAGES ⊆ X → pages_at ks TASK_STACK_PAGES ⊆ X → (pages_at us STACK_PAGES ## pages_at ks TASK_STACK_PAGES) →
  0 ≤ us → us + STACK_PAGES * PAGE_SIZE ≤ PHYS_LIMIT → 0 ≤ ks → ks + TASK_STACK_PAGES * PAGE_SIZE ≤ PHYS_LIMIT → t ∈ L →
  ∃ k', (∀ d : fdpart V, (k ← free_tables k l0; k ← free_pages k us STACK_PAGES; k ← free_pages k ks TASK_STACK_PAGES; k ← k_free k t;
      Some (-1, None (A := newtask), k, d)) = Some (-1, None, k', d)) ∧ ∃ X', grew k0 (L ∖ {[t]}) k' X'.
Proof.
  intros Hb Hus Hks Hd U1 U2 K1 K2 Ht. destruct (grew_free_tables _ _ _ _ _ _ Hb) as (k1 & -> & Hg1 & _).
  destruct (grew_free_pages _ _ k1 _ us STACK_PAGES Hg1 Hus U1 U2) as (k2 & E2 & Hg2 & _).
  destruct (grew_free_pages _ _ k2 _ ks TASK_STACK_PAGES Hg2) as (k3 & E3 & Hg3 & _); [|done|done|].
  { intros x Hx. apply elem_of_difference. split; [by apply Hks|]. intros Hy. exact (Hd x Hy Hx). }
  destruct (grew_kfree _ _ k3 _ t Hg3 Ht) as (k4 & E4 & Hg4 & _). exists k4. split; [|by eexists].
  intros d. by rewrite bind_Some, E2, bind_Some, E3, bind_Some, E4, bind_Some.
Qed.

(** *** The claim *)

(** A task that can be the parent: it owns its image, and its page tables map
    exactly the pages its records name, with the rights the records give, which an
    [mprotect] of stack or program pages would break; [l] is its descriptor
    table. *)
Record fork_parent sy k d (par : fparent) T (l : list Z) : Prop := {
  pr_owns : owns k (fp_user par) T;
  pr_ready : fork_ready k (fp_user par);
  pr_view : task_view sy k (fp_user par);
  pr_areas : Forall (λ v, v_end v ≤ 2 ^ 48) (u_vmas (fp_user par));
  pr_apart v : v ∈ u_vmas (fp_user par) → v_pages v ∉ fd_objects d;
  pr_table : d_tables d !! fp_fds par = Some l;
}.

(** The child is READY at the end of the run queue with the next pid, and its
    kernel stack returns from the parent's system call with 0. *)
Definition child_queued (sy : syms) k k' (par : fparent) (frame rq dl : list Z) (n : newtask) (ks : Z) (tk : task) : Prop :=
  let u' := n_user n in let top := ks + TASK_STACK_PAGES * PAGE_SIZE in
  joined (k_sched k) (k_sched k') rq dl (n_addr n) (next_pid (k_sched k)) tk ∧ t_ppid tk = fp_pid par ∧
  t_stack_phys tk = ks ∧ t_ustack_phys tk = u_ustack_phys u' ∧ t_tls_phys tk = u_tls_phys u' ∧ t_ttbr0 tk = u_ttbr0 u' ∧
  t_regions tk = ((λ r, (r_phys r, r_pages r)) <$> i_regions (u_exec_image u')) ∧ t_grown tk = (fst <$> u_stack_grown u') ∧
  n_name n = fork_name (fp_name par) ∧ n_sp n = PHYS_TO_VIRT (top - TRAP_FRAME - SWITCH_FRAME) ∧
  frame_holds k' (top - TRAP_FRAME - SWITCH_FRAME) 0 0 (fork_return sy) ∧ trap_holds k' (top - TRAP_FRAME) frame.

(** Its frames and objects are new and complete. *)
Definition child_new_frames k d k' d' (n : newtask) (ks : Z) T' : Prop :=
  let u' := n_user n in
  owns k' u' T' ∧ kframes k' = pages_at ks TASK_STACK_PAGES ∪ (owned k' u' T' ∪ grown_frames u') ∪ kframes k ∧
  (pages_at ks TASK_STACK_PAGES ## owned k' u' T' ∪ grown_frames u') ∧
  (pages_at ks TASK_STACK_PAGES ∪ (owned k' u' T' ∪ grown_frames u') ## kframes k) ∧
  klive k' ∖ fd_objects d' = list_to_set (v_pages <$> u_vmas u') ∪ ({[n_addr n]} ∪ klive k ∖ fd_objects d).

(** Its memory is a private copy of the parent's, and its TLS page is cleared; it
    is missing only if no page was left for its table in [k1], where the copying
    of the space ended. *)
Definition child_sees k u k1 k' u' : Prop :=
  let l0 := ttbr_baddr (u_ttbr0 u') in
  (∀ a, 0 ≤ a < 2 ^ 48 → ¬ in_tls a → mem_copied k (ttbr_baddr (u_ttbr0 u)) k' l0 a) ∧
  (∀ a, in_tls a → (user_byte (k_ld k') l0 a = Some 0 ∧ ∃ e, hw_pte (k_pt k') l0 a = Some e ∧ data_page e) ∨
    starved (pages (k_heap k1)) ∧ hw_pte (k_pt k') l0 a = None) ∧
  Forall2 copy_of (u_vmas u) (u_vmas u') ∧
  u_user_sp u' = u_user_sp u ∧ u_brk_base u' = u_brk_base u ∧ u_brk_cur u' = u_brk_cur u.

(** Its descriptors are the parent's. *)
Definition fds_shared d d' (l : list Z) (fds : Z) : Prop :=
  fds ≠ 0 ∧ d_tables d !! fds = None ∧ d_tables d' = <[fds := l]> (d_tables d) ∧ d_vfs d' = d_vfs d ∧
  ∀ p, d_files d' !! p = (λ f, with_refs f (refs (d_tables d') p)) <$> d_files d !! p.

Lemma others_eq k d : others (fd_view k d) = (kframes k, klive k ∖ fd_objects d).
Proof. unfold others, fd_objects. cbn. f_equal. clear. set_solver. Qed.

Lemma live_same (A B O : gset Z) : A ∖ O = B ∖ O → O ⊆ A → O ⊆ B → A = B.
Proof. intros H HA HB. apply set_eq. intros x. destruct (decide (x ∈ O)); [set_solver|]. assert (x ∈ A ∖ O ↔ x ∈ B ∖ O) by (by rewrite H). set_solver. Qed.

Lemma child_live (A O : gset Z) (R K : gset Z) (t : Z) : O ⊆ K → (t ∉ K) → R ## {[t]} ∪ K → A = (R ∪ ({[t]} ∪ K)) ∖ O → A = R ∪ ({[t]} ∪ K ∖ O).
Proof. intros. set_solver. Qed.

Definition fork_result (sy : syms) k1 k d (par : fparent) (frame rq dl l : list Z) T (r : Z) (o : option newtask) k' d' : Prop :=
  match o with
  | None => r = -1 ∧ d' = d ∧ fork_failed k d (fp_user par) T k'
  | Some n => r = to_int (next_pid (k_sched k)) ∧ owns k' (fp_user par) T ∧ untouched (kframes k) k k' ∧ fd_wf (fd_view k' d') ∧
      ∃ T' ks tk, child_queued sy k k' par frame rq dl n ks tk ∧ child_new_frames k d k' d' n ks T' ∧
        child_sees k (fp_user par) k1 k' (n_user n) ∧ fds_shared d d' l (t_fds tk)
  end.

(** The last step, after the areas have been copied into [k2]. *)
Lemma fork_finish_spec sy k d par frame rq dl T l t ks k1 sp T1 k2 T2 es :
  fork_parent sy k d par T l → fd_wf (fd_view k d) → 64 * Z.of_nat (size (d_tables d) + 1) < INT_MAX →
  rep (k_sched k) rq dl → tasks_live k (rq ++ dl) → 1 ≤ next_asid (k_sched k) < 2 ^ 16 →
  t ≠ 0 → (t ∉ klive k) → 0 < ks → ks mod PAGE_SIZE = 0 → ks + TASK_STACK_PAGES * PAGE_SIZE ≤ PHYS_LIMIT →
  forked sy k ({[t]} ∪ klive k) k1 (fp_user par) sp ks T1 →
  let top := ks + TASK_STACK_PAGES * PAGE_SIZE in
  let D := {[f_tls sp]} ∪ (gframes (f_grown sp) ∪ (pages_at (f_stack sp) STACK_PAGES ∪ (image_frames (f_image sp) ∪ pages_at ks TASK_STACK_PAGES))) in
  frame_holds k1 (top - TRAP_FRAME - SWITCH_FRAME) 0 0 (fork_return sy) → trap_holds k1 (top - TRAP_FRAME) frame →
  built k (list_to_set (v_pages <$> es) ∪ ({[t]} ∪ klive k)) k2 (f_l0 sp) T2 (list_to_set (resident (k_vm k2) es) ∪ D) →
  (list_to_set (resident (k_vm k2) es) ## D) → ((list_to_set (v_pages <$> es) : gset Z) ## {[t]} ∪ klive k) → ram_kept D k1 k2 →
  vma_wf (k_vm k2) es → Forall2 (area_shared k k2) (u_vmas (fp_user par)) es →
  (∀ a, 0 ≤ a < 2 ^ 48 → (∀ y fl, ¬ area_page k2 es a y fl) → hw_pte (k_pt k2) (f_l0 sp) a = hw_pte (k_pt k1) (f_l0 sp) a) →
  (∀ a y fl, area_page k2 es a y fl → hw_pte (k_pt k2) (f_l0 sp) a = Some (page_desc y fl)) →
  ∃ r o k' d', fork_finish k2 d par t ks top sp es = Some (r, o, k', d') ∧ fork_result sy k1 k d par frame rq dl l T r o k' d'.
Proof.
  intros [Ho Hrd Hvw _ Hap Hl] Hfd Hsz Hrep Hlive Hasid Ht0 Htn Hks Hal Hlim Hfk top D Hfh Hth Hb HR Hes Hkp Hwf Hsh Hno Hyes.
  pose proof (bt_grew _ _ _ _ _ _ Hb) as Hg. pose proof Hg as [Hi2 Hf2 Hn2 [K1 K2] Hl2 Ha2 Hs2]. unfold fork_finish.
  destruct (take_ids k2) as (k3 & sc & -> & -> & Q1 & Q2 & Q3); [by rewrite Hs2|]. rewrite Hs2 in *. clear k3.
  set (asid := next_asid (k_sched k)) in *. set (k3 := set_sched k2 sc) in *.
  assert (fd_objects d ⊆ klive k) as Hdk by (by apply fd_objects_live).
  assert (klive k ⊆ klive k2) as Hkk by (rewrite Hl2; clear; set_solver).
  assert (fd_wf (fd_view k3 d)) as Hfd3 by (apply (fd_wf_frame k); [done|exact Hi2|by etrans]).
  destruct (fd_table_clone_spec (fd_view k3 d) (fp_fds par) l Hfd3 Hl Hsz) as (fds & st & -> & Hfd4 & Ho4 & Hv4 & Hc4). rewrite bind_Some.
  set (k4 := set_heap k3 (fmem st)) in *. assert (fd_view k4 (fd_part st) = st) as Est by (by destruct st).
  rewrite <- Est, !others_eq in Ho4. injection Ho4 as Ef4 El4. change (kframes k3) with (kframes k2) in Ef4. change (klive k3) with (klive k2) in El4.
  assert (fd_objects (fd_part st) ⊆ klive k4) as Hd4 by (apply fd_objects_live; by rewrite Est).
  assert (kinv k4) as Hi4 by exact (fw_mem _ Hfd4).
  destruct Hc4 as [(-> & Et4 & Efl4)|(Hf0 & Hfn & Et4 & Efl4)].
  - rewrite decide_True by done. assert (fd_part st = d) as Ed by (destruct d; unfold fd_part; by rewrite Hv4, Et4, Efl4). rewrite Ed in *.
    pose proof (live_same _ _ _ El4 Hd4 (transitivity Hdk Hkk)) as El. rewrite Hl2 in El.
    pose proof (built_set_heap _ _ k3 _ _ _ (fmem st) _ (built_sched _ _ _ _ _ _ sc Hb) Hi4 Ef4 El) as Hb4. fold k4 in Hb4.
    pose proof Hfk as [_ _ (S1 & S2 & S3) _ _ D2 _ _ _ _ _ _ _ _].
    destruct (fork_back_all _ _ k4 _ _ _ (f_stack sp) ks t Hb4) as (k5 & E5 & X5 & Hg5); [unfold D; clear; set_solver|unfold D; clear; set_solver| |lia|done|lia|done|clear; set_solver|].
    { intros x Hx Hy. apply (D2 x Hx). by apply elem_of_union_r. }
    rewrite E5. eexists _, None, k5, d. split; [done|]. split; [done|]. split; [done|]. eapply grew_failed; [exact Ho|done|exact Hg5| |done|done|done].
    clear - Htn. set_solver.
  - rewrite decide_False by done. cbv zeta.
    assert (t ∉ rq ++ dl) as Htq. { intros [->|?]%Hlive; [|done]. apply (live_not_idle k2 IDLE Hi2); [rewrite Hl2; clear; set_solver|done]. }
    assert (rep (k_sched k4) rq dl) as Hrep4 by (unfold rep, k4, k3; cbn; rewrite Q1, Q2, Q3; exact Hrep).
    match goal with |- context [link k4 t ?tk] => destruct (link_spec k4 t tk rq dl Hrep4 Ht0 Htq) as (sc' & -> & Hr' & Hc' & Htk & Hin') end. rewrite bind_Some.
    set (k5 := set_sched k4 sc') in *. set (u' := child_task (fp_user par) sp es asid).
    assert (∀ p, p ∈ klive k2 → (p ∉ fd_objects d) → p ∈ klive k5) as Hlv.
    { intros p Hp Hpd. change (klive k5) with (klive k4). assert (p ∈ klive k4 ∖ fd_objects (fd_part st)) as [? _]%elem_of_difference; [|done].
      rewrite El4. by apply elem_of_difference. }
    assert (∀ e, e ∈ es → v_pages e ∈ klive k5) as Hl5.
    { intros e He. assert (v_pages e ∈ (list_to_set (v_pages <$> es) : gset Z)) as Hin by (apply elem_of_list_to_set; by apply list_elem_of_fmap_2).
      apply Hlv; [rewrite Hl2; by apply elem_of_union_l|]. intros Hx. apply (Hes (v_pages e) Hin). by apply elem_of_union_r, Hdk. }
    destruct (child_base sy k k1 k2 k5 _ _ (fp_user par) sp ks asid T1 T2 es Hfk Hb Hi4 Ef4 eq_refl Hasid) as [Ebase _].
    destruct (child_frames sy k k1 k2 k5 _ _ (fp_user par) sp ks asid T1 T2 es Hfk Hb HR Hwf Hi4 Ef4 eq_refl Hl5) as (F1 & F2 & F3).
    pose proof (child_owns sy k k1 k2 k5 _ _ (fp_user par) sp ks asid T1 T2 es Hfk Hb HR Hwf Hi4 Ef4 eq_refl eq_refl Hl5 Hasid) as Hown.
    eexists _, (Some _), k5, (fd_part st). split; [reflexivity|]. unfold fork_result. cbn [n_user]. fold u'.
    split; [reflexivity|]. split; [|split; [|split]].
    { pose proof (vw_ok _ _ (ow_vmas _ _ _ Ho)) as Hok. rewrite Forall_forall in Hok.
      eapply owns_frame; [exact Ho|done|change (kframes k5) with (kframes k4); rewrite Ef4, Hf2; etrans; [apply Ho|apply union_subseteq_r]| |].
      - intros q Hq. apply K1, (ow_sub _ _ _ Ho), elem_of_union_l. unfold owned, parts. cbn [union_list foldr]. clear - Hq. set_solver.
      - intros v Hv. assert (v_pages v ∈ klive k) as Hlv' by (apply (Hok v Hv)). split; [apply Hlv; [by apply Hkk|by apply Hap]|by apply Ha2]. }
    { split; [exact K1|exact K2]. }
    { change (fd_view k5 (fd_part st)) with (fd_view k4 (fd_part st)). by rewrite Est. }
    assert (∀ x, ks ≤ x < top → k_ram k2 !! x = k_ram k1 !! x) as Hks12.
    { intros x Hx. apply Hkp. unfold D. do 4 apply elem_of_union_r. apply pages_at_bytes; [done|unfold top in *; lia]. }
    exists T2, ks. eexists. split; [|split; [|split]].
    + split; [split; [exact Hr'|]; split; [exact Htk|]; do 2 (split; [reflexivity|]); split; [exact (eq_trans Hc' Q2)|]|].
      { intros x Hx. etrans; [exact (Hin' x Hx)|]. cbn. by rewrite Q1. }
      do 9 (split; [reflexivity|]). split.
      * destruct Hfh as (F4 & F5 & F6). unfold frame_holds.
        split; [rewrite <- F4|split; [rewrite <- F5|rewrite <- F6]]; apply mem_read_ext; intros x Hx; apply Hks12; unfold top, TRAP_FRAME, SWITCH_FRAME, TASK_STACK_PAGES, PAGE_SIZE in *; lia.
      * unfold trap_holds in *. rewrite <- Hth. apply mem_read_ext. intros x Hx. apply Hks12. unfold top, TRAP_FRAME, TASK_STACK_PAGES, PAGE_SIZE in *. lia.
    + unfold child_new_frames. cbn [n_user n_addr]. fold u'. split; [exact Hown|]. split; [exact F1|]. split; [exact F2|]. split; [exact F3|].
      change (klive k5) with (klive k4). eapply (child_live _ (fd_objects d)); [done|done|exact Hes|]. by rewrite El4, Hl2.
    + unfold child_sees. cbn [n_user]. cbv zeta. unfold u'. rewrite Ebase. split; [|split; [|split; [|done]]].
      * intros a Ha Hta. exact (child_memory sy k k1 k2 k5 _ _ (fp_user par) sp ks asid T1 T2 es (ow_inv _ _ _ Ho) Hfk Hb HR Hwf Hi4 Ef4 eq_refl eq_refl eq_refl Hl5 Hasid Hkp Hsh Hno Hyes Hrd Hvw (ow_vmas _ _ _ Ho) a Ha Hta).
      * intros a Hta. exact (child_tls sy k k1 k2 k5 _ _ (fp_user par) sp ks asid T1 T2 es (ow_inv _ _ _ Ho) Hfk Hb HR Hwf Hi4 Ef4 eq_refl eq_refl eq_refl Hl5 Hasid Hkp Hsh Hno Hyes Hrd Hvw (ow_vmas _ _ _ Ho) a Hta).
      * eapply Forall2_impl; [exact Hsh|]. by intros v e [? _].
    + unfold fds_shared. cbn [t_fds set_next]. split; [done|]. split; [done|]. split; [done|]. split; [done|]. exact Efl4.
Qed.

(** C37. Forking a task whose page tables map exactly the pages that its records
    (program regions, stack, areas) name, with their rights.  Up to the areas
    [sched_fork] never faults.  If it fails there or when the descriptors cannot
    be shared, it returns -1: the parent still owns its whole image and no page,
    task or descriptor has changed, though pages taken on the way may stay
    allocated.  Unless pages or heap run out while the areas are copied, of which
    nothing is said, it otherwise returns the next pid, and the READY child is at
    the end of the run queue with the parent's pid as its own parent and returns 0
    from the same system call.  It owns a complete image in frames nobody used;
    the parent's image and the pages of everybody else are as they were.  At every
    address other than its TLS page the child has the parent's rights and reads
    the parent's bytes, from a page of its own unless nobody can write to it;
    what the parent does not map the child does not map; its TLS page is cleared,
    and missing only if no page was left for its table when it was mapped.  Both
    descriptor tables refer to the same open files, and all reference counts are
    right. *)
Theorem sched_fork_correct sy k d par frame rq dl T l :
  fork_parent sy k d par T l → fd_wf (fd_view k d) → 64 * Z.of_nat (size (d_tables d) + 1) < INT_MAX →
  rep (k_sched k) rq dl → tasks_live k (rq ++ dl) → syms_ok sy → 1 ≤ next_asid (k_sched k) < 2 ^ 16 → Z.of_nat (length frame) = TRAP_FRAME →
  ∃ r1 k1, fork_start sy k (fp_user par) frame = Some (r1, k1) ∧
    (match r1 with Some (_, _, sp) => areas_short k1 (f_l0 sp) (u_vmas (fp_user par)) | None => False end ∨
     ∃ r o k' d', sched_fork sy k d par frame = Some (r, o, k', d') ∧ fork_result sy k1 k d par frame rq dl l T r o k' d').
Proof.
  intros Hpar Hfd Hsz Hrep Hlive Hsy Hasid Hfr. pose proof Hpar as [Ho Hrd _ Har _ _]. pose proof (ow_inv _ _ _ Ho) as Hi.
  destruct (fork_start_spec sy k (fp_user par) frame Hi Hsy Hrd Hfr) as (r1 & k1 & E1 & H1). exists r1, k1. split; [done|]. unfold sched_fork. rewrite E1, bind_Some.
  destruct r1 as [[[t ks] sp]|].
  2:{ right. destruct H1 as [X Hg]. eexists _, None, k1, d. split; [done|]. split; [done|]. split; [done|].
      eapply (grew_failed k d _ T _ k1 X (k_sched k)); [done|done|by replace (set_sched k (k_sched k)) with k by (by destruct k)|done..]. }
  destruct H1 as (Ht0 & Htn & Hks & Hal & Hlim & [T1 Hfk] & Hfh & Hth).
  destruct (fork_areas_spec k _ k1 _ _ _ (u_vmas (fp_user par)) Hi (fk_built _ _ _ _ _ _ _ _ Hfk) (union_subseteq_r _ _) (ow_vmas _ _ _ Ho) Har)
    as [Hsh|(es & k2 & T2 & -> & Hb & HR & Hes & Hkp & Hwf & Hcp & Hno & Hyes)]; [by left|right]. rewrite bind_Some.
  exact (fork_finish_spec sy k d par frame rq dl T l t ks k1 sp T1 k2 T2 es Hpar Hfd Hsz Hrep Hlive Hasid Ht0 Htn Hks Hal Hlim Hfk Hfh Hth Hb HR Hes Hkp Hwf Hcp Hno Hyes).
Qed.
End Claim.

(** ** Witness: the first task after boot forks *)

(** The page tables of a task that has just been created show its runs. *)
Lemma fresh_view {S : Type} `{!PageAllocator S} sy (k1 k : kernel S) u :
  fresh_memory k1 k sy (ttbr_baddr (u_ttbr0 u)) (u_ustack_phys u) → syms_ok sy → u_vmas u = [] → u_stack_grown u = [] → i_regions (u_exec_image u) = [] → task_view sy k u.
Proof.
  intros (F1 & F2 & _ & F4) Hsy Ev Eg Er.
  assert (task_runs sy u = [stack_run (u_ustack_phys u); text_run sy]) as Et by (unfold task_runs, image_runs; by rewrite Eg, Er).
  assert (∀ a y fl, ¬ area_page k (u_vmas u) a y fl) as Hna by (rewrite Ev; by intros a y fl (v & i & []%not_elem_of_nil & _)).
  assert (∀ a, in_run (stack_run (u_ustack_phys u)) a ↔ stack_user_lo ≤ a < USER_STACK_TOP) as Hst by (intros a; unfold in_run, stack_run, stack_user_lo; cbn [rn_va rn_n]; lia).
  assert (∀ a, in_run (text_run sy) a → a < stack_user_lo) as Htx.
  { destruct Hsy as (A1 & A2 & A3 & A4 & A5 & A6). unfold in_run, text_run, text_pages. cbn [rn_va rn_n]. intros a Ha.
    set (x := VIRT_TO_PHYS (text_start sy)) in *. set (y := VIRT_TO_PHYS (user_text_end sy)) in *. clearbody x y. unfold PAGE_SIZE in *. dlia. }
  assert (stack_user_lo < USER_STACK_TOP ∧ USER_STACK_TOP ≤ USER_TLS_BASE) as [B1 B2] by (vm_compute; done).
  constructor.
  - intros a y fl H. by apply Hna in H.
  - intros a Ha Htls _. rewrite Et. cbn [run_view]. destruct (decide (in_run (stack_run (u_ustack_phys u)) a)) as [Hs|Hs].
    + destruct (F1 a) as (_ & e & -> & -> & _); [by apply Hst|done].
    + destruct (decide (in_run (text_run sy) a)) as [Hx|Hx]; [destruct (F2 a Hx) as (e & -> & -> & _); done|]. apply F4; [done|by rewrite <- Hst|done|exact Htls].
  - intros a Ha. split; [|by apply Hna]. rewrite Et. cbn [run_view]. unfold in_tls in Ha. rewrite !decide_False; [done|intros H%Htx; lia|rewrite Hst; lia].
Qed.

Definition first_task : option (Z * option newtask * kernel pmm * fdpart vfs) :=
  sched_create_task demo_syms boot_kernel boot_fds [115; 104] 0xFFFF000040082000.
Definition first_new : newtask := match first_task with Some (_, Some n, _, _) => n | _ => mk_newtask 0 0 0 [] no_user end.
Definition first_kernel : kernel pmm := match first_task with Some (_, _, k, _) => k | None => boot_kernel end.
Definition first_fds : fdpart vfs := match first_task with Some (_, _, _, d) => d | None => boot_fds end.
Definition first_parent : fparent :=
  mk_fparent (n_user first_new) (n_name first_new) 1 (default 0 (t_fds <$> tasks (k_sched first_kernel) !! n_addr first_new)).
Definition first_frame : list Z := replicate 688 7.

Lemma first_facts :
  u_vmas (n_user first_new) = [] ∧ u_stack_grown (n_user first_new) = [] ∧ i_regions (u_exec_image (n_user first_new)) = [] ∧
  (0 <? u_ustack_phys (n_user first_new)) = true ∧ next_asid (k_sched first_kernel) = 2 ∧ size (d_tables first_fds) = 1%nat ∧
  bool_decide (is_Some (d_tables first_fds !! fp_fds first_parent)) = true.
Proof. vm_compute. split_and!; reflexivity. Qed.

Lemma first_forks : task_made (sched_fork demo_syms first_kernel first_fds first_parent first_frame) = Some 2.
Proof. vm_compute. reflexivity. Qed.

Lemma first_ready :
  ∃ T l, fork_parent demo_syms first_kernel first_fds first_parent T l ∧ fd_wf (fd_view first_kernel first_fds) ∧
    rep (k_sched first_kernel) [IDLE; n_addr first_new] [] ∧ tasks_live first_kernel [IDLE; n_addr first_new].
Proof.
  destruct (sched_create_task_spec demo_syms boot_kernel boot_fds [115; 104] 0xFFFF000040082000 [IDLE] []) as (r & o & k' & d' & E & H).
  - eapply heap_inv_wf, demo_heap_wf.
  - exact demo_fd0_wf.
  - exact boot_rep.
  - intros x [->|[]%not_elem_of_nil]%elem_of_cons. left. reflexivity.
  - vm_compute. split_and!; done.
  - cbn. lia.
  - pose proof boot_task_made as Hm. rewrite E in Hm. destruct o as [n|]; [|discriminate Hm].
    assert (first_new = n ∧ first_kernel = k' ∧ first_fds = d') as (En & Ek & Ed).
    { unfold first_new, first_kernel, first_fds, first_task. rewrite E. split; [reflexivity|split; reflexivity]. }
    destruct first_facts as (V1 & V2 & V3 & V4 & _ & _ & V5). apply Z.ltb_lt in V4. apply bool_decide_eq_true in V5. destruct V5 as [l Hl].
    rewrite Ek, En in *. rewrite Ed in *.
    destruct H as (T & ks & tk & k1 & e & _ & _ & (Hr & _) & _ & _ & _ & _ & _ & _ & _ & Ho & _ & _ & _ & _ & Hfd & Hlv & _ & _ & Hm').
    exists T, l. split; [|split; [done|split; [exact Hr|]]].
    + constructor; cbn [fp_user first_parent]; rewrite ?En.
      * exact Ho.
      * constructor; rewrite ?V3, ?V2; [constructor| |constructor]. intros x Hx. apply (ow_sub _ _ _ Ho), elem_of_union_l. unfold owned, parts, some_pages.
        rewrite decide_False by lia. cbn [union_list foldr]. by apply elem_of_union_l.
      * apply (fresh_view _ k1); [done|vm_compute; split_and!; done|done|done|done].
      * rewrite V1. constructor.
      * rewrite V1. intros v []%not_elem_of_nil.
      * exact Hl.
    + intros x [->|[->|[]%not_elem_of_nil]%elem_of_cons]%elem_of_cons; [by left|right].
      assert (n_addr n ∈ klive k' ∖ fd_objects d') as [? _]%elem_of_difference; [|done]. rewrite Hlv. apply elem_of_union_l, elem_of_singleton. done.
Qed.

Lemma sched_fork_correct_witness :
  ∃ n k1 k' d' T', sched_fork demo_syms first_kernel first_fds first_parent first_frame = Some (2, Some n, k', d') ∧
    owns k' (n_user n) T' ∧ child_sees first_kernel (fp_user first_parent) k1 k' (n_user n) ∧ rep (k_sched k') [IDLE; n_addr first_new; n_addr n] [].
Proof.
  destruct first_ready as (T & l & Hp & Hfd & Hrep & Hlv). destruct first_facts as (V1 & _ & _ & _ & Va & Vs & _).
  destruct (sched_fork_correct demo_syms first_kernel first_fds first_parent first_frame [IDLE; n_addr first_new] [] T l Hp Hfd) as (r1 & k1 & _ & H).
  - rewrite Vs. reflexivity.
  - exact Hrep.
  - exact Hlv.
  - vm_compute. split_and!; done.
  - rewrite Va. split; [lia|reflexivity].
  - reflexivity.
  - destruct H as [H|(r & o & k' & d' & E & H)].
    + exfalso. destruct r1 as [[[t ks] sp]|]; [|exact H]. cbn [fp_user first_parent] in H. rewrite V1 in H.
      destruct H as (r & vm & es & Ec & Hs). cbn in Ec. injection Ec as <- <- <-. destruct Hs as [Hs|(f & k2 & Ep & Hs)]; [discriminate Hs|].
      cbn in Ep. injection Ep as <- <-. destruct Hs as [Hs|[_ Hs]]; [discriminate Hs|]. apply Hs. reflexivity.
    + pose proof first_forks as Hm. rewrite E in Hm. destruct o as [n|]; [|discriminate Hm]. injection Hm as ->.
      destruct H as (_ & _ & _ & _ & T' & ks & tk & ((Hr & _) & _) & (Ho & _) & Hc & _).
      exists n, k1, k', d', T'. split; [exact E|]. split; [exact Ho|]. split; [exact Hc|exact Hr].
Defined.
